(* ===== verification/_CoqProject ===== *)
-Q . S2P
Prelude.v
Lts.v
Scheduler.v
SchedulerInv.v
SchedulerOps.v
SchedulerSys.v
SchedulerThms.v
Strings.v
Storage.v
TaskTypes.v
Taskhub.v
CollectionSpec.v
MutationSpec.v
TaskRepos.v
JobRepo.v
ForwardQueue.v
ForwardQueueInv.v
ForwardQueueThms.v
ForwardQueueProps.v
TaskhubProps.v
RetentionProps.v
DownloadProps.v
Config.v
Rte.v
RteBuild.v
RteInv.v
RteOps.v
RteReconcile.v
RteProps.v
StringFacts.v
Text.v
RangeProxy.v
RangeProxyProps.v
TargetPath.v
Naming.v
NamingProps.v
LocalWorker.v
LocalProps.v
Rules.v
RulesProps.v
Router.v
RouterProps.v
EventBus.v
EventBusProps.v
Schedule.v
ScheduleProps.v
Prog.v
Submission.v
SubmissionItem.v
SubmissionProps.v
SubmissionTargets.v
Aria2.v
Aria2Props.v
DownloadControl.v
DownloadControlProps.v
Reconciler.v
ReconcilerOrder.v
ReconcilerInv.v
ReconcilerProps.v
Process.v
Configuration.v
ConfigurationProps.v
Stream.v
StreamProps.v
ParallelStream.v
ParallelStreamProps.v
Delivery.v
DeliveryProps.v
Base64.v
LinkStore.v
LinkStoreProps.v
Sources.v
Connections.v
ConnectionsProps.v
BotLogin.v
BotLoginProps.v
Aria2Reconnect.v
Aria2ReconnectProps.v
Forwarder.v
ForwarderProps.v
