(* ===== verification/Prelude.v ===== *)
(** * tdl, verified: the components behind the Telegram downloader

    tdl is a Go program that watches Telegram chats, turns messages into
    download and forward tasks, and runs those tasks with limits, retries and a
    store that survives restarts.  Its parts are components of a small runtime
    ([src/rte]): each declares the ports it provides and requires, is built,
    started, reconfigured and stopped by the runtime, and talks to the others
    through typed ports and an event bus.  Tasks live in indexed collections of
    a key-value store.  This library models the parts that decide something,
    as executable functions and step functions, and proves what they guarantee.

    ** Files

    Foundations: Prelude (results, sums over maps, 64-bit integers, time,
    sorting), Lts (executions of step functions and the induction over them),
    Prog (programs that call their surroundings, Go's error values), Strings,
    StringFacts and Text (Go's byte strings, cutting, numbers), Storage (JSON
    trees, the transactional store of [internal/core/storage/memory.go] and
    the dataset registry of [bsw/services/nvm/registry.go]).

    Each component has a file of definitions named after it, and its lemmas and
    theorems beside it.
    - Scheduler: [bsw/ecual/comif] [scheduler.go], [file_limiter.go].  State:
      files, lanes and queues per data centre; operations: [acquireTask],
      [AcquireChunk], [Release], [Reconfigure], the dispatcher.  SchedulerInv and
      SchedulerOps hold the accounting invariant, SchedulerSys the goroutines,
      SchedulerThms the theorems.
    - TaskTypes, Taskhub, TaskRepos: the persisted records, the indexed
      collections and the repositories of [bsw/cdd/taskhub].  CollectionSpec and
      MutationSpec say what collection operations do, JobRepo is the interface
      between a repository and its client; theorems in TaskhubProps,
      DownloadProps and RetentionProps.
    - ForwardQueue: [application/forwarder/queue.go] and the retry policy of
      [config.go], over the interface of JobRepo.  ForwardQueueInv and
      ForwardQueueThms lead to ForwardQueueProps.
    - Router: [application/forwarder/message_router.go]; RouterProps.
    - Rules: [application/forward.rules], [application/filter.rules]; RulesProps.
    - Config, Rte: [rte/config/view.go] and the runtime of [rte/rte.go] and
      [rte/reconcile_components.go].  RteBuild (the start order), RteInv,
      RteOps and RteReconcile (the invariant), RteProps.
    - EventBus: [rte/eventbus/bus.go], [rte/events.go]; EventBusProps.
    - Schedule: [rte/schedule/group.go]; ScheduleProps.
    - RangeProxy: [application/proxy.range/handler.go]; RangeProxyProps.
    - TargetPath, Naming: [rte/targetpath/path.go] and
      [application/naming.rules]; NamingProps.
    - LocalWorker: [application/downloader.local], the worker and its
      controller; LocalProps.
    - Submission: the pipeline and the router of [application/download.control],
      from a batch of media to the executors.  SubmissionItem is one item,
      SubmissionProps the batch, SubmissionTargets its files.
    - DownloadControl: the rest of that component, its admission and Stop, the
      route, control actions and the link catalog; DownloadControlProps.
    - Aria2: [application/downloader.aria2], the controller, the observer and
      the error regulator; Aria2Props.
    - Reconciler: [rte/reconciler.go]; ReconcilerOrder, ReconcilerInv and
      ReconcilerProps.  Process: [rte/process.go].
    - Configuration: [application/configuration.manager] and, of the runtime,
      [catalog.go] and the saved side of [directory.go]; ConfigurationProps.
    - Stream, ParallelStream: [app/http/session.go] and
      [app/http/telegram_source.go], the windows a byte range is split into,
      the attempts at one window and the workers that fetch windows ahead of the
      writer; StreamProps, ParallelStreamProps.
    - Delivery: the byte ranges of a file that reached their reader and when a
      linked file counts as delivered; DeliveryProps.
    - LinkStore: the link registry of [app/http], persisted and in memory, over
      the interface that TaskRepos implements; Base64 is the coding of its file
      references; LinkStoreProps.  Sources: the reference-counted table of
      stream sources.
    - Connections: [bsw/cdd/tgauth/connections.go]; ConnectionsProps.
    - BotLogin: [application/account.telegram/bot_login.go]; BotLoginProps.
    - Aria2Reconnect: [reconnect.go] and [speed_monitor.go] of
      [application/downloader.aria2]; Aria2ReconnectProps.
    - Forwarder: [internal/core/forwarder] and the media descriptions of
      [internal/core/tmedia] that it uses; ForwarderProps.

    ** How the code is modelled

    A Go function that computes is a function; [(value, error)] is [res], with
    errors identified by their message.  A component with goroutines is a state
    and a function from a label and a state to the next state: a label is one
    critical section, channel operation or call of another component, together
    with what the surroundings answer (the clock, a store, a hook, a context
    that was canceled).  Theorems quantify over every list of labels, hence
    over every interleaving and every answer.  A handler whose difficulty is what
    others answer is a program of Prog: a finite tree that returns or calls and
    goes on with any answer; its theorems speak of the log of calls, at every
    point a run can reach.  The composition of components is
    through what is proved of the called one: the queue against the interface
    that the stored repository implements ([repository_refines]), the local
    worker against updates that the repository refines
    ([lr_update_refines]), the runtime's hooks against any answer at all.

    Loops that are not structural take fuel, and the theorems say that it is
    enough: the depth-first searches of the runtime and of the routing rules
    get the number of nodes plus one ([topo_spec], [cycle_spec]), the closure of
    reconciliation the number of instances plus one, the search for a free name
    the number of used names plus two, the search for a title length 82 halvings
    or decrements, the dispatcher the number of queued requests plus one, the
    paging of aria2 the pages its daemon can fill ([paging_complete]), the order
    of resources their number plus one ([orderUnits_spec]).  The windows of a
    byte range get one turn each and the writer one turn per byte.  Loops whose
    length others decide (attempts at a window, refreshes of a file reference,
    pages of a daemon that never ends, the elements of a forward) take a number
    as an argument; their theorems hold for every number and say what has
    happened when it is used up.

    Abstractions that hold everywhere: JSON documents are trees, objects are
    maps, their strings valid UTF-8; where Go's map iteration order could matter it is a parameter or the
    result is compared as a set; a critical section reads the clock once;
    a context is a flag or its [Done] channel; log output and the wording of
    errors are left out; paths are Unix paths; integers are [Z] with the
    wrap-around of [int64] and [uint64] written where it can happen.  Parameters:
    SHA-256, [url.Parse], [filenamify], Unicode lower-casing and the Han table,
    MIME tables, parsed text templates, component hooks, the Telegram client.

    ** What the theorems show

    - Safety of concurrency: no panic, no double close, no lost capacity in the
      scheduler; one execution per job or file in the queue, the local worker and
      the router; nothing runs after a drained stop of router, bus, group and
      runtime; a process has one goroutine; a resource is started after and
      stopped before what it requires, whatever fails.
    - Safety of calls: a task that an executor may have taken is not offered to
      another, aria2 tasks are touched only under a lease, whose end is asked for
      and a refusal reported, a link is handed out once, what is shown of a configuration does not tell its secrets.
    - Limits and order: lanes, files and queues stay within their bounds, a
      freed lane goes to the first live request of the first file that has one, names fit the byte limit, retries back off
      without overflow, calls of a runnable keep their period.
    - Stored data: collections do not interfere, failed operations change
      nothing, revisions and leases make control exclusive, also of observations
      and retention, state machines of downloads and jobs are respected, retention and maintenance remove only
      what they may.
    - Functional correctness: range responses, target paths, unique names,
      routing tables, configuration views and the start order do what their
      documentation says, errors included, and their loops terminate; a
      reconciliation without error has settled the desired list, and a patch
      changes what it names.
    - Streaming and forwarding: what the reader of a link gets are the bytes of
      the range it asked for, in order and without a gap, the whole range when
      no error is returned, however the workers interleave; every chunk taken
      from the scheduler is given back; for an element at most one message is
      accepted, which is its forward or its own texts and media, and its
      temporary files are removed.
    - Accounts: at most one connection is current, a session is replaced or
      deleted when nobody uses the connections of its account any more; a bot
      login takes input only from the user and the chat that began it, and a
      flow has at most one outcome.
    - Two theorems record a defect: [null_patch_unreadable], a configuration
      patch that is saved and that the reader of the file then refuses, and
      [thumb_is_document], the thumbnail of a forwarded document that is a copy
      of the document.

    ** Not modelled

    Code whose work is input and output or presentation: the Telegram client,
    its pools, uploader and downloader ([internal/core], [pkg/tclient]), of
    [bsw/cdd/tgauth] the session stores and credentials, the web login, the bot
    and web front ends ([app/bot], [app/webui]) and their panels, of [app/http]
    the set-up of the server and its metrics, logging, telemetry, command lines
    and build tools.  Glue that wires components ([plugin.go], [config.go] of
    each, [app/runtime]).  Of aria2 the RPC client and the manager that starts
    the monitors.  Of the directory, joining the saved configuration with the
    live runtimes.  Self update.  Speed meters, the clock offset of time.sync,
    and persistence drivers ([pkg/kv]) behind the
    store's interface. *)

From stdpp Require Export base tactics option list gmap fin_maps strings.
From Stdlib Require Export ZArith Lia Sorted.

#[export] Set Warnings "-clear-no-such-hyp".
Declare Scope tdl_scope.
Delimit Scope tdl_scope with tdl.
Open Scope Z_scope.

(** ** Results: Go's [(value, error)] pairs and panics *)

Inductive res (E A : Type) : Type :=
  | Ok (a : A)
  | Err (e : E).
Arguments Ok {E A} a.
Arguments Err {E A} e.

#[export] Instance res_ret E : MRet (res E) := λ A a, Ok a.
#[export] Instance res_bind E : MBind (res E) := λ A B k m,
  match m with Ok a => k a | Err e => Err e end.
#[export] Instance res_fmap E : FMap (res E) := λ A B f m,
  match m with Ok a => Ok (f a) | Err e => Err e end.
#[export] Instance res_throw E : MThrow E (res E) := λ A e, Err e.

#[export] Instance Ok_inj E A : Inj (=) (=) (@Ok E A).
Proof. by injection 1. Qed.

Definition is_ok {E A} (m : res E A) : bool :=
  match m with Ok _ => true | Err _ => false end.

Definition ok_or {E A} (d : A) (m : res E A) : A :=
  match m with Ok a => a | Err _ => d end.

Definition guard_err {E} (b : bool) (e : E) : res E unit :=
  if b then Ok tt else Err e.

Lemma res_bind_ok {E A B} (m : res E A) (k : A → res E B) b :
  m ≫= k = Ok b ↔ ∃ a, m = Ok a ∧ k a = Ok b.
Proof.
  destruct m as [a|e]; simpl; split.
  - intros. by exists a.
  - intros (a' & [= <-] & Hk). done.
  - discriminate.
  - intros (a' & Ha & _). discriminate.
Qed.

Lemma res_bind_err {E A B} (m : res E A) (k : A → res E B) e :
  m ≫= k = Err e ↔ m = Err e ∨ ∃ a, m = Ok a ∧ k a = Err e.
Proof.
  destruct m as [a|e']; simpl; split; intros H.
  - right; eauto.
  - destruct H as [?|(a' & [= <-] & Hk)]; [discriminate|done].
  - left. congruence.
  - destruct H as [?|(a' & Ha & Hk)]; [congruence|discriminate].
Qed.

Lemma guard_err_ok {E} b (e : E) u : guard_err b e = Ok u ↔ b = true.
Proof. destruct b, u; simpl; naive_solver. Qed.

(** Run a fallible step over a list, left to right, stopping at the first
    error: Go's [for _, x := range xs { if err := f(x); err != nil { return } }]. *)
Fixpoint foldM {E S X} (f : S → X → res E S) (s : S) (xs : list X) : res E S :=
  match xs with
  | [] => Ok s
  | x :: xs => s' ← f s x; foldM f s' xs
  end.

Lemma foldM_app {E S X} (f : S → X → res E S) s xs ys :
  foldM f s (xs ++ ys) = (s' ← foldM f s xs; foldM f s' ys).
Proof.
  revert s. induction xs as [|x xs IH]; intros s; simpl; [done|].
  destruct (f s x); simpl; [apply IH|done].
Qed.

(** The loop rule: an invariant of every step is an invariant of the loop. *)
Lemma foldM_inv {E S X} (P : S → Prop) (f : S → X → res E S) s xs s' :
  P s → (∀ s x s', x ∈ xs → P s → f s x = Ok s' → P s') →
  foldM f s xs = Ok s' → P s'.
Proof.
  revert s. induction xs as [|x xs IH]; intros s Hs Hstep; simpl.
  - by intros [= <-].
  - intros (s1 & H1 & H2)%res_bind_ok. eapply IH; [| |exact H2].
    + eapply Hstep; [left|exact Hs|exact H1].
    + intros s2 y s3 Hy. apply Hstep. by right.
Qed.

Lemma foldM_total {E S X} (P : S → Prop) (f : S → X → res E S) s xs :
  P s → (∀ s x, x ∈ xs → P s → ∃ s', f s x = Ok s' ∧ P s') →
  ∃ s', foldM f s xs = Ok s' ∧ P s'.
Proof.
  revert s. induction xs as [|x xs IH]; intros s Hs Hstep; simpl; [eauto|].
  destruct (Hstep s x) as (s1 & -> & H1); [left|done|]. simpl.
  apply IH; [done|]. intros s2 y Hy. apply Hstep. by right.
Qed.

(** ** Sums over finite maps

    Used for every accounting invariant: the number of leases, of running
    files, of goroutines at a program point. *)
Section msum.
Context {K : Type} `{Countable K} {V : Type}.
Implicit Types (f g : V → Z) (m : gmap K V).

Definition msum f m : Z := map_fold (λ _ v acc, f v + acc) 0 m.

Lemma msum_empty f : msum f ∅ = 0.
Proof. apply map_fold_empty. Qed.

Lemma msum_insert_None f m k v :
  m !! k = None → msum f (<[k:=v]> m) = f v + msum f m.
Proof.
  intros Hk. unfold msum. rewrite map_fold_insert_L; [done| |done].
  intros; lia.
Qed.

Lemma msum_delete_Some f m k v :
  m !! k = Some v → msum f (delete k m) = msum f m - f v.
Proof.
  intros Hk. rewrite <- (insert_delete_id m k v Hk) at 2.
  rewrite msum_insert_None; [lia|apply lookup_delete_eq].
Qed.

Lemma msum_insert_Some f m k v0 v :
  m !! k = Some v0 → msum f (<[k:=v]> m) = msum f m - f v0 + f v.
Proof.
  intros Hk. rewrite <- insert_delete_eq, msum_insert_None by apply lookup_delete_eq.
  rewrite (msum_delete_Some _ _ _ v0) by done. lia.
Qed.

Lemma msum_ext f g m :
  (∀ k v, m !! k = Some v → f v = g v) → msum f m = msum g m.
Proof.
  induction m as [|k v m Hk IH] using map_ind; intros Hfg.
  - by rewrite !msum_empty.
  - rewrite !msum_insert_None by done. rewrite (Hfg k v) by apply lookup_insert_eq.
    rewrite IH; [done|]. intros k' v' Hk'. apply (Hfg k').
    rewrite lookup_insert_ne; [done|congruence].
Qed.

Lemma msum_nonneg f m :
  (∀ k v, m !! k = Some v → 0 ≤ f v) → 0 ≤ msum f m.
Proof.
  induction m as [|k v m Hk IH] using map_ind; intros Hf.
  - by rewrite msum_empty.
  - rewrite msum_insert_None by done.
    pose proof (Hf k v (lookup_insert_eq _ _ _)).
    enough (0 ≤ msum f m) by lia. apply IH. intros k' v' Hk'. apply (Hf k').
    rewrite lookup_insert_ne; [done|congruence].
Qed.

(** One entry is bounded by the whole sum. *)
Lemma msum_ge f m k v :
  (∀ k v, m !! k = Some v → 0 ≤ f v) → m !! k = Some v → f v ≤ msum f m.
Proof.
  intros Hf Hk. pose proof (msum_delete_Some f m k v Hk).
  enough (0 ≤ msum f (delete k m)) by lia. apply msum_nonneg.
  intros k' v' [_ Hk']%lookup_delete_Some. eauto.
Qed.

Lemma msum_zero f m :
  (∀ k v, m !! k = Some v → f v = 0) → msum f m = 0.
Proof.
  intros Hf. induction m as [|k v m Hk IH] using map_ind; [apply msum_empty|].
  rewrite msum_insert_None by done. rewrite (Hf k v) by apply lookup_insert_eq.
  rewrite IH; [done|]. intros k' v' Hk'. apply (Hf k').
  rewrite lookup_insert_ne; [done|congruence].
Qed.
End msum.

(** ** Machine integers *)

Definition max_int64 : Z := 2^63 - 1.
Definition min_int64 : Z := - 2^63.
Definition in_int64 (z : Z) : bool := (min_int64 <=? z) && (z <=? max_int64).

(** Two's-complement wrap-around of a Go [int64] result. *)
Definition wrap64 (z : Z) : Z := (z + 2^63) `mod` 2^64 - 2^63.

Lemma wrap64_in_range z : min_int64 ≤ wrap64 z ≤ max_int64.
Proof. unfold wrap64, min_int64, max_int64. pose proof (Z.mod_pos_bound (z + 2^63) (2^64)). lia. Qed.

Lemma wrap64_id z : min_int64 ≤ z ≤ max_int64 → wrap64 z = z.
Proof. unfold wrap64, min_int64, max_int64. intros. rewrite Z.mod_small; lia. Qed.

(** [time.Time] is a count of nanoseconds, 0 being Go's zero time; [Sub]
    saturates at the ends of [time.Duration]. *)
Definition time_sub (a b : Z) : Z := Z.max min_int64 (Z.min max_int64 (a - b)).
Definition time_is_zero (t : Z) : bool := t =? 0.
Definition second : Z := 1000000000.
Definition millisecond : Z := 1000000.
Definition minute : Z := 60 * second.
Definition hour : Z := 60 * minute.

Lemma time_sub_ge a b d : min_int64 < d ≤ max_int64 → (d ≤ time_sub a b) ↔ d ≤ a - b.
Proof. unfold time_sub. lia. Qed.

(** ** Automation *)

(** Split a fallible computation that is known to succeed. *)
Ltac inv_ok :=
  repeat match goal with
  | H : Ok _ = Ok _ |- _ => injection H as H; try subst
  | H : Err _ = Ok _ |- _ => discriminate H
  | H : Ok _ = Err _ |- _ => discriminate H
  | H : _ ≫= _ = Ok _ |- _ =>
      let a := fresh "a" in let H1 := fresh H in
      apply res_bind_ok in H as (a & H1 & H)
  | H : guard_err _ _ = Ok _ |- _ => apply guard_err_ok in H
  end.

Create HintDb tdl discriminated.
#[export] Hint Resolve wrap64_in_range : tdl.

Section sums.
Local Open Scope nat_scope.

(** ** Sums over a list, and tests as numbers *)

Lemma sum_insert {A} (f : A → nat) l i x old :
  l !! i = Some old → sum_list_with f (<[i:=x]> l) + f old = sum_list_with f l + f x.
Proof.
  revert i. induction l as [|a l IH]; intros [|i] H; simpl in H |- *; [done..| |].
  - injection H as ->. lia.
  - specialize (IH i H). lia.
Qed.
Lemma sum_lookup {A} (f : A → nat) l i x : l !! i = Some x → f x <= sum_list_with f l.
Proof. revert i. induction l as [|a l IH]; intros [|i] H; simpl in H |- *; [done..| |]; [injection H as ->; lia|]. specialize (IH i H). lia. Qed.
Lemma sum_pos {A} (f : A → nat) l : 1 <= sum_list_with f l → ∃ i x, l !! i = Some x ∧ 1 <= f x.
Proof.
  induction l as [|a l IH]; cbn; [lia|]. intros H. destruct (decide (1 <= f a)) as [Ha|Ha]; [by exists 0, a|].
  destruct IH as (i & x & Hi & Hx); [lia|]. by exists (S i), x.
Qed.
Lemma sum_mono {A} (f g : A → nat) l : (∀ x, f x <= g x) → sum_list_with f l <= sum_list_with g l.
Proof. intros H. induction l as [|a l IH]; cbn; [lia|]. specialize (H a). lia. Qed.
Lemma sum_add {A} (f g : A → nat) l : sum_list_with (λ x, f x + g x) l = sum_list_with f l + sum_list_with g l.
Proof. induction l as [|a l IH]; cbn; lia. Qed.
Lemma sum_ones {A} (l : list A) : sum_list_with (λ _, 1) l = length l.
Proof. induction l as [|a l IH]; cbn; lia. Qed.
Lemma sum_replicate {A} (f : A → nat) n x : sum_list_with f (replicate n x) = n * f x.
Proof. induction n as [|n IH]; cbn; lia. Qed.

Definition b2n (b : bool) : nat := if b then 1 else 0.
Lemma b2n_le b : b2n b <= 1.
Proof. destruct b; cbn; lia. Qed.
Lemma b2n_ltb i n : b2n (i <? n) = 1 ∧ i < n ∨ b2n (i <? n) = 0 ∧ n <= i.
Proof. destruct (Nat.ltb_spec i n); cbn; lia. Qed.
Lemma b2n_eqb i n : b2n (i =? n) = 1 ∧ i = n ∨ b2n (i =? n) = 0 ∧ i ≠ n.
Proof. destruct (Nat.eqb_spec i n); cbn; lia. Qed.
Lemma b2n_some {A} (x : option A) : b2n (bool_decide (is_Some x)) = 1 ∧ is_Some x ∨ b2n (bool_decide (is_Some x)) = 0 ∧ x = None.
Proof. case_bool_decide as H; cbn; [auto|]. right. split; [done|]. by destruct x; [destruct H; eexists|]. Qed.
Lemma b2n_none A : b2n (bool_decide (is_Some (@None A))) = 0.
Proof. by destruct (b2n_some (@None A)) as [[_ [? ?]]|[? _]]. Qed.

End sums.

Section lists.
Local Open Scope nat_scope.
Local Open Scope list_scope.
(** ** Changing one element of a list *)

Lemma alter_Some {A} (f : A → A) i (l : list A) j x :
  alter f i l !! j = Some x ↔ ∃ x0, l !! j = Some x0 ∧ x = if decide (i = j) then f x0 else x0.
Proof.
  destruct (decide (i = j)) as [->|Hne].
  - rewrite list_lookup_alter_eq. destruct (l !! j); cbn; naive_solver.
  - rewrite list_lookup_alter_ne by done. naive_solver.
Qed.
Lemma alter_insert {A} (f : A → A) (l : list A) i x : l !! i = Some x → alter f i l = <[i := f x]> l.
Proof.
  intros H. apply list_eq. intros j. destruct (decide (i = j)) as [->|Hne].
  - rewrite list_lookup_alter_eq, list_lookup_insert_eq by (by eapply lookup_lt_Some). by rewrite H.
  - by rewrite list_lookup_alter_ne, list_lookup_insert_ne.
Qed.
Lemma alter_alter {A} (f g : A → A) (l : list A) i : alter f i (alter g i l) = alter (λ x, f (g x)) i l.
Proof.
  apply list_eq. intros j. destruct (decide (i = j)) as [->|Hne].
  - rewrite !list_lookup_alter_eq. by destruct (l !! j).
  - by rewrite !list_lookup_alter_ne.
Qed.
Lemma sum_alter {A} (g : A → nat) (f : A → A) l i x : l !! i = Some x → sum_list_with g (alter f i l) + g x = sum_list_with g l + g (f x).
Proof. intros H. rewrite (alter_insert f l i x H). apply sum_insert, H. Qed.
Lemma sum_alter_same {A} (g : A → nat) (f : A → A) l i : (∀ x, g (f x) = g x) → sum_list_with g (alter f i l) = sum_list_with g l.
Proof.
  intros H. destruct (l !! i) as [x|] eqn:Hx; [pose proof (sum_alter g f l i x Hx); rewrite H in *; lia|].
  assert (He : alter f i l = l); [|by rewrite He]. apply list_eq. intros j. destruct (decide (i = j)) as [->|Hne].
  - rewrite list_lookup_alter_eq. by rewrite Hx.
  - by rewrite list_lookup_alter_ne.
Qed.
Lemma sum_snoc {A} (g : A → nat) l x : sum_list_with g (l ++ [x]) = sum_list_with g l + g x.
Proof. rewrite sum_list_with_app. cbn. lia. Qed.
Lemma lookup_snoc {A} (l : list A) x i y : (l ++ [x]) !! i = Some y ↔ l !! i = Some y ∨ i = length l ∧ y = x.
Proof.
  rewrite lookup_app_Some. split.
  - intros [H|[Hl H]]; [by left|right]. apply list_lookup_singleton_Some in H as [? <-]. split; [lia|done].
  - intros [H|[-> ->]]; [by left|right]. rewrite Nat.sub_diag. done.
Qed.

Lemma sum_zero {A} (g : A → nat) l : (∀ i x, l !! i = Some x → g x = 0) → sum_list_with g l = 0.
Proof.
  intros H. destruct (sum_list_with g l) eqn:He; [done|]. destruct (sum_pos g l) as (i & x & Hx & ?); [lia|].
  rewrite (H _ _ Hx) in *. lia.
Qed.
End lists.

(** ** Sorting: [sort.SliceStable] *)

Fixpoint insert_by {A} (le : A → A → bool) (x : A) (l : list A) : list A :=
  match l with
  | [] => [x]
  | y :: l => if le x y then x :: y :: l else y :: insert_by le x l
  end.
Definition sort_by {A} (le : A → A → bool) (l : list A) : list A := foldr (insert_by le) [] l.

Lemma insert_by_perm {A} (le : A → A → bool) x l : insert_by le x l ≡ₚ x :: l.
Proof. induction l as [|y l IH]; cbn; [done|]. destruct (le x y); [done|]. rewrite IH. constructor. Qed.
Lemma sort_by_perm {A} (le : A → A → bool) l : sort_by le l ≡ₚ l.
Proof. induction l as [|x l IH]; cbn; [done|]. by rewrite insert_by_perm, IH. Qed.

Lemma insert_by_sorted {A} (le : A → A → bool) x l :
  (∀ x y, le x y = true ∨ le y x = true) → (∀ x y z, le x y = true → le y z = true → le x z = true) →
  StronglySorted (λ x y, le x y = true) l → StronglySorted (λ x y, le x y = true) (insert_by le x l).
Proof.
  intros Ht Htr H. induction H as [|y l Hs IH Hy]; [by repeat constructor|]. cbn.
  destruct (le x y) eqn:Hxy.
  - constructor; [by constructor|]. constructor; [done|]. eapply Forall_impl; [exact Hy|]. intros z Hz. cbn in Hz. eauto.
  - constructor; [done|]. rewrite insert_by_perm. constructor; [|done]. destruct (Ht x y) as [E|E]; [by rewrite E in Hxy|done].
Qed.
Lemma sort_by_sorted {A} (le : A → A → bool) l :
  (∀ x y, le x y = true ∨ le y x = true) → (∀ x y z, le x y = true → le y z = true → le x z = true) →
  StronglySorted (λ x y, le x y = true) (sort_by le l).
Proof. intros Ht Htr. induction l as [|x l IH]; [constructor|]. by apply insert_by_sorted. Qed.

(** The order of Go's strings. *)
Lemma leb_trans a b c : String.leb a b = true → String.leb b c = true → String.leb a c = true.
Proof.
  intros H1%Is_true_true H2%Is_true_true. apply Is_true_true. change (String.le a c). transitivity b; done.
Qed.
