(* ===== verification/Lts.v ===== *)
(** * Executions of labelled steps

    The concurrent components are functions that answer, for a label and a
    state, the next state, if the step is possible.  Here are the executions of
    such a function and the induction over them. *)

From S2P Require Import Prelude.
Local Open Scope list_scope.

Section lts.
Context {L S : Type} (step : L → S → option S).

Definition steps (l : list L) (y : S) : option S := foldl (λ o e, o ≫= step e) (Some y) l.

Lemma steps_snoc l e y : steps (l ++ [e]) y = steps l y ≫= step e.
Proof. unfold steps. by rewrite foldl_app. Qed.

Lemma steps_app l1 l2 y : steps (l1 ++ l2) y = steps l1 y ≫= steps l2.
Proof.
  induction l2 as [|e l2 IH] using rev_ind; [rewrite app_nil_r; by destruct (steps l1 y)|].
  rewrite app_assoc, steps_snoc, IH. destruct (steps l1 y) as [y1|]; [|done]. cbn [mbind option_bind]. by rewrite steps_snoc.
Qed.

Lemma steps_cons e l y : steps (e :: l) y = step e y ≫= steps l.
Proof. apply (steps_app [e] l y). Qed.

(** What every step preserves holds after every execution. *)
Lemma steps_inv (I : S → Prop) l y y' :
  (∀ e y y', I y → step e y = Some y' → I y') → I y → steps l y = Some y' → I y'.
Proof.
  intros Hs Hy. revert y'. induction l as [|e l IH] using rev_ind; intros y'; [by intros [= <-]|].
  rewrite steps_snoc. intros (y1 & H1 & H2)%bind_Some. eapply Hs; [by apply IH|done].
Qed.

(** A relation between the first state and the last, kept by every step that
    starts in a state the invariant allows. *)
Lemma steps_rel (I : S → Prop) (R : S → S → Prop) l y y' :
  (∀ e y y', I y → step e y = Some y' → I y') → (∀ y, R y y) →
  (∀ e y0 y1 y2, I y1 → R y0 y1 → step e y1 = Some y2 → R y0 y2) →
  I y → steps l y = Some y' → R y y'.
Proof.
  intros Hi Hr Hs Hy. revert y'. induction l as [|e l IH] using rev_ind; intros y'; [by intros [= <-]|].
  rewrite steps_snoc. intros (y1 & H1 & H2)%bind_Some. eapply Hs; [by eapply steps_inv|by apply IH|done].
Qed.
End lts.
