(* ===== verification/Scheduler.v ===== *)
(** * Download scheduler (bsw/ecual/comif)

    [scheduler.go] and [file_limiter.go]: a global limit on the number of
    active files and, per Telegram data centre, a fixed number of chunk lanes
    handed out file by file.  Pointers are addresses into explicit heaps, each
    critical section of the code is one function, and goroutines are program
    counters interleaved by [sys_step]. *)

From stdpp Require Import sorting.
From S2P Require Import Prelude.

(** ** file_limiter.go *)

Record fileLimiter := mkFL {
  fl_limit : Z;
  fl_used : Z;
  fl_changed : nat;  (* identity of the current [changed] channel; older ones are closed *)
}.

Definition newFileLimiter (limit : Z) : fileLimiter := mkFL limit 0 0.

Definition fl_signal (l : fileLimiter) : fileLimiter :=
  mkFL (fl_limit l) (fl_used l) (S (fl_changed l)).

(** One locked iteration of [acquire]: [None] when the caller must wait on
    the [changed] channel it observed. *)
Definition fl_try_acquire (l : fileLimiter) : option fileLimiter :=
  if fl_used l <? fl_limit l
  then Some (mkFL (fl_limit l) (fl_used l + 1) (fl_changed l))
  else None.

Definition fl_release (l : fileLimiter) : res string fileLimiter :=
  if fl_used l =? 0 then Err "download file token over-release"
  else Ok (fl_signal (mkFL (fl_limit l) (fl_used l - 1) (fl_changed l))).

Definition fl_resize (l : fileLimiter) (limit : Z) : fileLimiter :=
  fl_signal (mkFL limit (fl_used l) (fl_changed l)).

(** ** scheduler.go: data *)

Record taskState := mkTask {
  ts_taskID : string;
  ts_dc : Z;
  ts_refs : Z;
  ts_active : bool;
  ts_activating : option nat;
  ts_inFlight : Z;
  ts_waiters : list nat;
}.

Record dcState := mkDC { dc_tasks : list nat; dc_inFlight : Z }.

(** [cw_ready] tells whether the [ready] channel is closed; [cw_task] is the
    state of the lease the request was made through. *)
Record chunkWaiter := mkCW {
  cw_task : nat;
  cw_granted : bool;
  cw_canceled : bool;
  cw_ready : bool;
}.

#[export] Instance taskState_eq : EqDecision taskState.
Proof. solve_decision. Defined.
#[export] Instance dcState_eq : EqDecision dcState.
Proof. solve_decision. Defined.
#[export] Instance chunkWaiter_eq : EqDecision chunkWaiter.
Proof. solve_decision. Defined.

Record Scheduler := mkSched {
  s_fileTokens : fileLimiter;
  s_capacity : Z;
  s_files : gmap string nat;
  s_dcs : gmap Z dcState;
  s_tasks : gmap nat taskState;       (* heap of [*taskState] *)
  s_waiters : gmap nat chunkWaiter;   (* heap of [*chunkWaiter] *)
  s_closed : gset nat;                (* closed [activating] channels *)
  s_next : nat;                       (* next free address *)
}.

Definition normalizeLimit (v : Z) : Z := if v <? 1 then 1 else v.

Definition NewScheduler (maxFiles perDCCapacity : Z) : Scheduler :=
  mkSched (newFileLimiter (normalizeLimit maxFiles)) (normalizeLimit perDCCapacity)
    ∅ ∅ ∅ ∅ ∅ 0.

(** Field updates. *)
Definition with_tokens s v := mkSched v (s_capacity s) (s_files s) (s_dcs s) (s_tasks s) (s_waiters s) (s_closed s) (s_next s).
Definition with_capacity s v := mkSched (s_fileTokens s) v (s_files s) (s_dcs s) (s_tasks s) (s_waiters s) (s_closed s) (s_next s).
Definition with_files s v := mkSched (s_fileTokens s) (s_capacity s) v (s_dcs s) (s_tasks s) (s_waiters s) (s_closed s) (s_next s).
Definition with_dcs s v := mkSched (s_fileTokens s) (s_capacity s) (s_files s) v (s_tasks s) (s_waiters s) (s_closed s) (s_next s).
Definition with_tasks s v := mkSched (s_fileTokens s) (s_capacity s) (s_files s) (s_dcs s) v (s_waiters s) (s_closed s) (s_next s).
Definition with_waiters s v := mkSched (s_fileTokens s) (s_capacity s) (s_files s) (s_dcs s) (s_tasks s) v (s_closed s) (s_next s).
Definition with_closed s v := mkSched (s_fileTokens s) (s_capacity s) (s_files s) (s_dcs s) (s_tasks s) (s_waiters s) v (s_next s).
Definition with_next s v := mkSched (s_fileTokens s) (s_capacity s) (s_files s) (s_dcs s) (s_tasks s) (s_waiters s) (s_closed s) v.

Definition t_refs t v := mkTask (ts_taskID t) (ts_dc t) v (ts_active t) (ts_activating t) (ts_inFlight t) (ts_waiters t).
Definition t_active t v := mkTask (ts_taskID t) (ts_dc t) (ts_refs t) v (ts_activating t) (ts_inFlight t) (ts_waiters t).
Definition t_activating t v := mkTask (ts_taskID t) (ts_dc t) (ts_refs t) (ts_active t) v (ts_inFlight t) (ts_waiters t).
Definition t_inFlight t v := mkTask (ts_taskID t) (ts_dc t) (ts_refs t) (ts_active t) (ts_activating t) v (ts_waiters t).
Definition t_waiters t v := mkTask (ts_taskID t) (ts_dc t) (ts_refs t) (ts_active t) (ts_activating t) (ts_inFlight t) v.

Definition put_task s a t := with_tasks s (<[a:=t]> (s_tasks s)).
Definition put_dc s d dc := with_dcs s (<[d:=dc]> (s_dcs s)).

(** Pointer dereferences; a nil dereference panics. *)
Definition task (s : Scheduler) (a : nat) : res string taskState :=
  match s_tasks s !! a with Some t => Ok t | None => Err "nil task" end.
Definition dc_get (s : Scheduler) (d : Z) : res string dcState :=
  match s_dcs s !! d with Some x => Ok x | None => Err "nil dc" end.

Definition is_canceled (ws : gmap nat chunkWaiter) (w : nat) : bool :=
  match ws !! w with Some c => cw_canceled c | None => false end.

(** ** scheduler.go: dispatching chunk lanes *)

Fixpoint pruneCanceledWaiters (ws : gmap nat chunkWaiter) (l : list nat) : list nat :=
  match l with
  | [] => []
  | w :: l' => if is_canceled ws w then pruneCanceledWaiters ws l' else l
  end.

Fixpoint popWaiter (ws : gmap nat chunkWaiter) (l : list nat) : list nat * option nat :=
  match l with
  | [] => ([], None)
  | w :: l' => if is_canceled ws w then popWaiter ws l' else (l', Some w)
  end.

Fixpoint firstFileWaiter (s : Scheduler) (tasks : list nat)
    : res string (Scheduler * option (nat * nat)) :=
  match tasks with
  | [] => Ok (s, None)
  | a :: rest =>
      t ← task s a;
      let pruned := pruneCanceledWaiters (s_waiters s) (ts_waiters t) in
      match pruned with
      | [] => firstFileWaiter (put_task s a (t_waiters t pruned)) rest
      | _ =>
          let '(queue, w) := popWaiter (s_waiters s) pruned in
          Ok (put_task s a (t_waiters t queue), (λ w, (a, w)) <$> w)
      end
  end.

(** The body of the dispatch loop once a waiter was found; closing an already
    closed [ready] channel panics. *)
Definition grant (s : Scheduler) (d : Z) (a w : nat) : res string Scheduler :=
  c ← match s_waiters s !! w with Some c => Ok c | None => Err "nil waiter" end;
  t ← task s a;
  dc ← dc_get s d;
  if cw_ready c then Err "close of closed channel"
  else
    let s := put_task s a (t_inFlight t (ts_inFlight t + 1)) in
    let s := put_dc s d (mkDC (dc_tasks dc) (dc_inFlight dc + 1)) in
    Ok (with_waiters s (<[w := mkCW (cw_task c) true (cw_canceled c) true]> (s_waiters s))).

Fixpoint dispatch_loop (fuel : nat) (s : Scheduler) (d : Z) : res string Scheduler :=
  match fuel with
  | O => Err "out of fuel"
  | S fuel' =>
      dc ← dc_get s d;
      if dc_inFlight dc <? s_capacity s then
        '(s1, r) ← firstFileWaiter s (dc_tasks dc);
        match r with
        | None => Ok s1
        | Some (a, w) => s2 ← grant s1 d a w; dispatch_loop fuel' s2 d
        end
      else Ok s
  end.

(** Waiters queued in the files of a data centre: every granted lane removes
    one, so one more iteration than that suffices. *)
Definition queue_len (s : Scheduler) (a : nat) : nat :=
  match s_tasks s !! a with Some t => length (ts_waiters t) | None => O end.
Definition queued (s : Scheduler) (tasks : list nat) : nat :=
  sum_list_with (queue_len s) tasks.

Definition dispatchLocked (s : Scheduler) (d : Z) : res string Scheduler :=
  match s_dcs s !! d with
  | None => Ok s
  | Some dc =>
      match dc_tasks dc with
      | [] => Ok s
      | _ => dispatch_loop (S (queued s (dc_tasks dc))) s d
      end
  end.

(** ** scheduler.go: leases *)

Definition dcLocked (s : Scheduler) (d : Z) : Scheduler * dcState :=
  match s_dcs s !! d with
  | Some dc => (s, dc)
  | None => let dc := mkDC [] 0 in (put_dc s d dc, dc)
  end.

(** Removal of the first occurrence, as the [append(tasks[:i], tasks[i+1:]...)] loop. *)
Fixpoint remove_first (a : nat) (l : list nat) : list nat :=
  match l with
  | [] => []
  | x :: l' => if decide (x = a) then l' else x :: remove_first a l'
  end.

Definition removeActiveTaskLocked (s : Scheduler) (a : nat) : res string Scheduler :=
  t ← task s a;
  let s := match s_dcs s !! ts_dc t with
           | Some dc => put_dc s (ts_dc t) (mkDC (remove_first a (dc_tasks dc)) (dc_inFlight dc))
           | None => s
           end in
  let s := put_task s a (t_active t false) in
  let s := with_files s (delete (ts_taskID t) (s_files s)) in
  dispatchLocked s (ts_dc t).

Definition releaseToken (s : Scheduler) : res string Scheduler :=
  l ← fl_release (s_fileTokens s); Ok (with_tokens s l).

Definition releaseChunkLocked (s : Scheduler) (a : nat) : res string Scheduler :=
  t ← task s a;
  match s_dcs s !! ts_dc t with
  | None => Err "download chunk lease over-release"
  | Some dc =>
      if (ts_inFlight t <? 1) || (dc_inFlight dc <? 1)
      then Err "download chunk lease over-release"
      else
        let t := t_inFlight t (ts_inFlight t - 1) in
        let s := put_task s a t in
        let s := put_dc s (ts_dc t) (mkDC (dc_tasks dc) (dc_inFlight dc - 1)) in
        if (ts_refs t =? 0) && (ts_inFlight t =? 0)
        then s ← removeActiveTaskLocked s a; releaseToken s
        else dispatchLocked s (ts_dc t)
  end.

(** [for _, waiter := range state.waiters { if !waiter.canceled { ... } }] *)
Definition cancel_waiter (ws : gmap nat chunkWaiter) (w : nat)
    : res string (gmap nat chunkWaiter) :=
  match ws !! w with
  | None => Err "nil waiter"
  | Some c =>
      if cw_canceled c then Ok ws
      else if cw_ready c then Err "close of closed channel"
      else Ok (<[w := mkCW (cw_task c) (cw_granted c) true true]> ws)
  end.

(** The locked part of [releaseTask]; the flag asks for [fileTokens.release()]
    after the unlock. *)
Definition releaseTask (s : Scheduler) (a : nat) : res string (Scheduler * bool) :=
  t ← task s a;
  if negb (bool_decide (s_files s !! ts_taskID t = Some a) && (0 <? ts_refs t))
  then Ok (s, false)
  else
    let t := t_refs t (ts_refs t - 1) in
    if negb (ts_refs t =? 0) then Ok (put_task s a t, false)
    else
      ws ← foldM cancel_waiter (s_waiters s) (ts_waiters t);
      let t := t_waiters t [] in
      let s := put_task (with_waiters s ws) a t in
      if ts_active t && (ts_inFlight t =? 0)
      then s ← removeActiveTaskLocked s a; Ok (s, true)
      else if negb (ts_active t) && bool_decide (ts_activating t = None)
      then Ok (with_files s (delete (ts_taskID t) (s_files s)), false)
      else Ok (s, false).

(** The locked part of [completeActivation]. *)
Definition completeActivation (s : Scheduler) (a ready : nat) (success : bool)
    : res string (Scheduler * bool) :=
  t ← task s a;
  if negb (bool_decide (s_files s !! ts_taskID t = Some a)) then Ok (s, success)
  else if negb (bool_decide (ts_activating t = Some ready)) then Ok (s, success)
  else
    let t := t_activating t None in
    let s := put_task s a t in
    s ← (if success then
           let s := put_task s a (t_active t true) in
           let '(s, dc) := dcLocked s (ts_dc t) in
           let s := put_dc s (ts_dc t) (mkDC (dc_tasks dc ++ [a]) (dc_inFlight dc)) in
           dispatchLocked s (ts_dc t)
         else Ok s);
    if bool_decide (ready ∈ s_closed s) then Err "close of closed channel"
    else Ok (with_closed s ({[ready]} ∪ s_closed s), false).

(** One locked iteration of [acquireTask]'s loop.  [reg] is the state already
    referenced by this call, if any. *)
Inductive acquire_outcome :=
  | AcqActive (a : nat)
  | AcqWaitFor (a ready : nat)
  | AcqActivate (a ready : nat)
  | AcqChangedDC (a : nat).

Definition acquireSection (s : Scheduler) (taskID : string) (dc : Z) (reg : option nat)
    : res string (Scheduler * acquire_outcome) :=
  let '(s, a) :=
    match s_files s !! taskID with
    | Some a => (s, a)
    | None =>
        let a := s_next s in
        let s := put_task s a (mkTask taskID dc 0 false None 0 []) in
        let s := with_files s (<[taskID := a]> (s_files s)) in
        (with_next s (S a), a)
    end in
  t ← task s a;
  if negb (ts_dc t =? dc) then Ok (s, AcqChangedDC a)
  else
    let t := match reg with None => t_refs t (ts_refs t + 1) | Some _ => t end in
    let s := put_task s a t in
    if ts_active t then Ok (s, AcqActive a)
    else match ts_activating t with
         | Some ready => Ok (s, AcqWaitFor a ready)
         | None =>
             let ready := s_next s in
             let s := put_task s a (t_activating t (Some ready)) in
             Ok (with_next s (S ready), AcqActivate a ready)
         end.

(** First locked section of [AcquireChunk]; [w] is the freshly allocated waiter. *)
Definition acquireChunkSection (s : Scheduler) (a w : nat) (ctx_err : bool)
    : res string (Scheduler * bool) :=
  t ← task s a;
  if ctx_err then Ok (s, false)
  else if negb (ts_active t) || (ts_refs t <? 1) then Ok (s, false)
  else
    let s := with_waiters s (<[w := mkCW a false false false]> (s_waiters s)) in
    let s := put_task s a (t_waiters t (ts_waiters t ++ [w])) in
    s ← dispatchLocked s (ts_dc t); Ok (s, true).

(** The [case <-w.ready] branch: whether the caller got a lease. *)
Definition chunkReadySection (s : Scheduler) (a w : nat) (ctx_err : bool)
    : res string (Scheduler * bool) :=
  match s_waiters s !! w with
  | None => Err "nil waiter"
  | Some c =>
      let s' := if cw_granted c then with_waiters s (delete w (s_waiters s)) else s in
      s'' ← (if cw_granted c && ctx_err then releaseChunkLocked s' a else Ok s');
      Ok (s'', cw_granted c && negb ctx_err)
  end.

(** The [case <-ctx.Done()] branch. *)
Definition chunkCancelSection (s : Scheduler) (a w : nat) : res string Scheduler :=
  match s_waiters s !! w with
  | None => Err "nil waiter"
  | Some c =>
      if cw_granted c
      then releaseChunkLocked (with_waiters s (delete w (s_waiters s))) a
      else
        t ← task s a;
        dispatchLocked
          (with_waiters s (<[w := mkCW (cw_task c) (cw_granted c) true (cw_ready c)]> (s_waiters s)))
          (ts_dc t)
  end.

(** [order] is the order in which Go's map iteration visits the data centres. *)
Definition Reconfigure (s : Scheduler) (maxFiles perDCCapacity : Z) (order : list Z)
    : res string Scheduler :=
  let s := with_capacity s (normalizeLimit perDCCapacity) in
  let s := with_tokens s (fl_resize (s_fileTokens s) (normalizeLimit maxFiles)) in
  foldM dispatchLocked s order.

(** ** scheduler.go: [Snapshots] *)

Record DCSnapshot := mkSnap {
  sn_DC : Z; sn_Capacity : Z; sn_ActiveChunks : Z;
  sn_ActiveFiles : nat; sn_QueuedFiles : nat; sn_QueuedRequests : nat;
}.

Definition pending (s : Scheduler) (a : nat) : nat :=
  match s_tasks s !! a with
  | Some t => length (filter (λ w, is_canceled (s_waiters s) w = false) (ts_waiters t))
  | None => O
  end.
Definition task_inFlight (s : Scheduler) (a : nat) : Z :=
  match s_tasks s !! a with Some t => ts_inFlight t | None => 0 end.

Definition snapshot (s : Scheduler) (id : Z) (dc : dcState) : DCSnapshot :=
  let active := filter (λ a, 0 < task_inFlight s a) (dc_tasks dc) in
  let idle := filter (λ a, ¬ (0 < task_inFlight s a) ∧ (0 < pending s a)%nat) (dc_tasks dc) in
  mkSnap id (s_capacity s) (dc_inFlight dc) (length active) (length idle)
    (sum_list_with (pending s) (dc_tasks dc)).

Definition sn_le (x y : DCSnapshot) : Prop := sn_DC x ≤ sn_DC y.
#[export] Instance sn_le_dec : RelDecision sn_le := λ x y, Z.le_dec (sn_DC x) (sn_DC y).
#[export] Instance sn_le_total : Total sn_le.
Proof. intros x y. unfold sn_le. lia. Qed.
#[export] Instance sn_le_trans : Transitive sn_le.
Proof. intros x y z. unfold sn_le. lia. Qed.

Definition Snapshots (s : Scheduler) : list DCSnapshot :=
  merge_sort sn_le ((λ '(id, dc), snapshot s id dc) <$> map_to_list (s_dcs s)).

(** ** Goroutines

    The program counter of a call of the public API, between two locked
    sections, and whether its context has been canceled. *)
Inductive pc :=
  | PAcqLoop (taskID : string) (dc : Z) (reg : option nat)        (* top of acquireTask's loop *)
  | PAcqWait (taskID : string) (dc : Z) (a ready : nat)           (* select on [ready] *)
  | PTokTry (taskID : string) (dc : Z) (a ready : nat)            (* fileTokens.acquire, about to lock *)
  | PTokWait (taskID : string) (dc : Z) (a ready : nat) (changed : nat)
  | PComplete (taskID : string) (dc : Z) (a ready : nat) (success : bool)
  | PCompleteRel (taskID : string) (dc : Z) (a : nat)             (* release of a token not handed over *)
  | PAcqFail (a : nat)                                            (* releaseTask before returning an error *)
  | PRelToken                                                     (* fileTokens.release after releaseTask *)
  | PTask (a : nat)                                               (* holds a TaskLease *)
  | PChunkBegin (a : nat)
  | PChunkWait (a : nat)                                          (* select in AcquireChunk *)
  | PChunk (a : nat)                                              (* holds a ChunkLease *)
  | PDone.

Record gor := mkG { g_canceled : bool; g_pc : pc }.
Record sys := mkSys { y_sched : Scheduler; y_gs : gmap nat gor }.

Inductive event :=
  | EAcquire (k : nat) (taskID : string) (dc : Z)   (* a new call of Acquire *)
  | EAcquireChunk (k a : nat)                       (* a new call of AcquireChunk *)
  | ECancel (k : nat)                               (* its context is canceled *)
  | ERun (k : nat)                                  (* runs to its next section *)
  | ECtx (k : nat)                                  (* a select takes [ctx.Done()] *)
  | EReconfigure (maxFiles perDC : Z) (order : list Z).

Definition set_pc (y : sys) (s : Scheduler) (k : nat) (g : gor) (p : pc) : sys :=
  mkSys s (<[k := mkG (g_canceled g) p]> (y_gs y)).

(** An error return: [releaseTask(state)] first if this call is registered. *)
Definition after_fail (y : sys) (k : nat) (g : gor) (reg : option nat) : sys :=
  set_pc y (y_sched y) k g (match reg with Some a => PAcqFail a | None => PDone end).

(** The section goroutine [k] runs next; [None] when it is blocked or done. *)
Definition run (y : sys) (k : nat) (g : gor) : option (res string sys) :=
  let s := y_sched y in
  match g_pc g with
  | PAcqLoop id dc reg =>
      if g_canceled g then Some (Ok (after_fail y k g reg))
      else Some (
        '(s, o) ← acquireSection s id dc reg;
        Ok (match o with
            | AcqActive a => set_pc y s k g (PTask a)
            | AcqWaitFor a ready => set_pc y s k g (PAcqWait id dc a ready)
            | AcqActivate a ready => set_pc y s k g (PTokTry id dc a ready)
            | AcqChangedDC a => after_fail (mkSys s (y_gs y)) k g ((λ _, a) <$> reg)
            end))
  | PAcqWait id dc a ready =>
      if decide (ready ∈ s_closed s) then Some (Ok (set_pc y s k g (PAcqLoop id dc (Some a)))) else None
  | PTokTry id dc a ready =>
      if g_canceled g then Some (Ok (set_pc y s k g (PComplete id dc a ready false)))
      else match fl_try_acquire (s_fileTokens s) with
           | Some l => Some (Ok (set_pc y (with_tokens s l) k g (PComplete id dc a ready true)))
           | None => Some (Ok (set_pc y s k g (PTokWait id dc a ready (fl_changed (s_fileTokens s)))))
           end
  | PTokWait id dc a ready ch =>
      if decide (ch = fl_changed (s_fileTokens s)) then None
      else Some (Ok (set_pc y s k g (PTokTry id dc a ready)))
  | PComplete id dc a ready success =>
      Some ('(s, rel) ← completeActivation s a ready success;
            Ok (set_pc y s k g (if (rel : bool) then PCompleteRel id dc a
                                else if success then PAcqLoop id dc (Some a) else PAcqFail a)))
  | PCompleteRel id dc a =>
      Some (s ← releaseToken s; Ok (set_pc y s k g (PAcqLoop id dc (Some a))))
  | PAcqFail a | PTask a =>
      Some ('(s, rel) ← releaseTask s a;
            Ok (set_pc y s k g (if (rel : bool) then PRelToken else PDone)))
  | PRelToken => Some (s ← releaseToken s; Ok (set_pc y s k g PDone))
  | PChunkBegin a =>
      Some ('(s, ok) ← acquireChunkSection s a k (g_canceled g);
            Ok (set_pc y s k g (if (ok : bool) then PChunkWait a else PDone)))
  | PChunkWait a =>
      match s_waiters s !! k with
      | Some c =>
          if cw_ready c then
            Some ('(s, ok) ← chunkReadySection s a k (g_canceled g);
                  Ok (set_pc y s k g (if (ok : bool) then PChunk a else PDone)))
          else None
      | None => Some (Err "nil waiter")
      end
  | PChunk a => Some (s ← releaseChunkLocked s a; Ok (set_pc y s k g PDone))
  | PDone => None
  end.

(** The [ctx.Done()] alternative of a select, once the context is canceled. *)
Definition run_ctx (y : sys) (k : nat) (g : gor) : option (res string sys) :=
  let s := y_sched y in
  if g_canceled g then
    match g_pc g with
    | PAcqWait _ _ a _ => Some (Ok (set_pc y s k g (PAcqFail a)))
    | PTokWait id dc a ready _ => Some (Ok (set_pc y s k g (PComplete id dc a ready false)))
    | PChunkWait a => Some (s ← chunkCancelSection s a k; Ok (set_pc y s k g PDone))
    | _ => None
    end
  else None.

(** [None]: the event is not enabled.  [Some (Err _)]: the code panics. *)
Definition sys_step (y : sys) (e : event) : option (res string sys) :=
  match e with
  | EAcquire k id dc =>
      if decide (y_gs y !! k = None ∧ s_waiters (y_sched y) !! k = None ∧ id ≠ ""%string)
      then Some (Ok (mkSys (y_sched y) (<[k := mkG false (PAcqLoop id dc None)]> (y_gs y))))
      else None
  | EAcquireChunk k a =>
      if decide (y_gs y !! k = None ∧ s_waiters (y_sched y) !! k = None
                 ∧ is_Some (s_tasks (y_sched y) !! a))
      then Some (Ok (mkSys (y_sched y) (<[k := mkG false (PChunkBegin a)]> (y_gs y))))
      else None
  | ECancel k =>
      g ← y_gs y !! k;
      Some (Ok (mkSys (y_sched y) (<[k := mkG true (g_pc g)]> (y_gs y))))
  | ERun k => g ← y_gs y !! k; run y k g
  | ECtx k => g ← y_gs y !! k; run_ctx y k g
  | EReconfigure f d order =>
      if decide (order ≡ₚ (map_to_list (s_dcs (y_sched y))).*1)
      then Some (s ← Reconfigure (y_sched y) f d order; Ok (mkSys s (y_gs y)))
      else None
  end.

Definition sys_init (maxFiles perDC : Z) : sys := mkSys (NewScheduler maxFiles perDC) ∅.

Inductive reachable (maxFiles perDC : Z) : sys → Prop :=
  | reach_init : reachable maxFiles perDC (sys_init maxFiles perDC)
  | reach_step y e y' :
      reachable maxFiles perDC y → sys_step y e = Some (Ok y') → reachable maxFiles perDC y'.
