(* ===== verification/SchedulerInv.v ===== *)
(** * Accounting invariant of the download scheduler

    [Sinv R C T s] relates a scheduler state to what is outstanding outside
    of it: [R a] references to the file at address [a], [C a] chunk leases
    on it and [T] file tokens in transit.  Every locked section of
    Scheduler.v is proved to preserve it. *)

From S2P Require Import Prelude Scheduler.

Definition granted_for (a : nat) (c : chunkWaiter) : Z :=
  if decide (cw_task c = a ∧ cw_granted c = true) then 1 else 0.
Definition dcload (d : Z) (t : taskState) : Z := if ts_dc t =? d then ts_inFlight t else 0.
Definition act1 (t : taskState) : Z := if ts_active t then 1 else 0.
Definition dc_load (s : Scheduler) (d : Z) : Z :=
  match s_dcs s !! d with Some dc => dc_inFlight dc | None => 0 end.

(** A waiter that sits in a file's queue: not granted, channel still open. *)
Definition queued_waiter (ws : gmap nat chunkWaiter) (a w : nat) : Prop :=
  ∃ c, ws !! w = Some c ∧ cw_task c = a ∧ cw_granted c = false ∧ cw_ready c = false.

Record TaskOk (R C : nat → Z) (s : Scheduler) (a : nat) (t : taskState) : Prop := {
  to_refs : ts_refs t = R a;
  to_inFlight : ts_inFlight t = C a + msum (granted_for a) (s_waiters s);
  to_nodup : NoDup (ts_waiters t);
  to_queued : ∀ w, w ∈ ts_waiters t → queued_waiter (s_waiters s) a w;
  to_idle : ts_active t = false → ts_inFlight t = 0 ∧ ts_waiters t = [];
  to_active : ts_active t = true → ts_activating t = None ∧
    ∃ dc, s_dcs s !! ts_dc t = Some dc ∧ a ∈ dc_tasks dc;
  to_unref : ts_refs t = 0 → ts_waiters t = [];
  to_files : s_files s !! ts_taskID t = Some a ↔
    0 < ts_refs t ∨ ts_active t = true ∨ ts_activating t ≠ None;
  to_fresh : (a < s_next s)%nat;
}.

(** Only live requests are granted; a channel is closed to grant or to cancel. *)
Definition waiter_ok (c : chunkWaiter) : Prop :=
  (cw_granted c = true → cw_canceled c = false) ∧
  (cw_ready c = true → cw_granted c = true ∨ cw_canceled c = true).

Record Sinv (R C : nat → Z) (T : Z) (s : Scheduler) : Prop := {
  si_tasks : ∀ a t, s_tasks s !! a = Some t → TaskOk R C s a t;
  si_none : ∀ a, s_tasks s !! a = None →
    R a = 0 ∧ C a = 0 ∧ msum (granted_for a) (s_waiters s) = 0;
  si_pos : ∀ a, 0 ≤ R a ∧ 0 ≤ C a;
  si_files : ∀ id a, s_files s !! id = Some a →
    ∃ t, s_tasks s !! a = Some t ∧ ts_taskID t = id;
  si_load : ∀ d, dc_load s d = msum (dcload d) (s_tasks s);
  si_dcs : ∀ d dc, s_dcs s !! d = Some dc → NoDup (dc_tasks dc) ∧
    ∀ a, a ∈ dc_tasks dc ↔ ∃ t, s_tasks s !! a = Some t ∧ ts_active t = true ∧ ts_dc t = d;
  si_tokens : fl_used (s_fileTokens s) = msum act1 (s_tasks s) + T;
  si_T : 0 ≤ T;
  si_wok : ∀ w c, s_waiters s !! w = Some c → waiter_ok c;
}.

(** No lane idles while a request waits: the data centre is full or no file
    of it has a queue. *)
Definition work_conserving (s : Scheduler) (d : Z) : Prop :=
  ∀ dc, s_dcs s !! d = Some dc →
    s_capacity s ≤ dc_inFlight dc ∨
    ∀ a t, a ∈ dc_tasks dc → s_tasks s !! a = Some t → ts_waiters t = [].

(** What dispatching on [d] leaves alone. *)
Definition same_task (t t' : taskState) : Prop :=
  ts_taskID t' = ts_taskID t ∧ ts_dc t' = ts_dc t ∧ ts_refs t' = ts_refs t ∧
  ts_active t' = ts_active t ∧ ts_activating t' = ts_activating t ∧
  ts_inFlight t ≤ ts_inFlight t'.
Definition same_waiter (c c' : chunkWaiter) : Prop :=
  cw_task c' = cw_task c ∧ cw_canceled c' = cw_canceled c.

Record dframe (d : Z) (s s' : Scheduler) : Prop := {
  df_tokens : s_fileTokens s' = s_fileTokens s;
  df_capacity : s_capacity s' = s_capacity s;
  df_files : s_files s' = s_files s;
  df_closed : s_closed s' = s_closed s;
  df_next : s_next s' = s_next s;
  df_tasks : ∀ a, match s_tasks s !! a, s_tasks s' !! a with
    | Some t, Some t' => same_task t t' ∧ (ts_dc t ≠ d → t' = t)
    | None, None => True
    | _, _ => False end;
  df_waiters : ∀ w, match s_waiters s !! w, s_waiters s' !! w with
    | Some c, Some c' => same_waiter c c'
    | None, None => True
    | _, _ => False end;
  df_other : ∀ d', d' ≠ d → s_dcs s' !! d' = s_dcs s !! d';
  df_dc : match s_dcs s !! d, s_dcs s' !! d with
    | Some x, Some x' => dc_tasks x' = dc_tasks x ∧
        dc_inFlight x ≤ dc_inFlight x' ≤ Z.max (dc_inFlight x) (s_capacity s)
    | None, None => True
    | _, _ => False end;
}.

Lemma same_task_refl t : same_task t t.
Proof. split_and!; done. Qed.
Lemma same_task_queue t l : same_task t (t_waiters t l).
Proof. split_and!; done. Qed.
Lemma same_task_more t n : 0 ≤ n → same_task t (t_inFlight t (ts_inFlight t + n)).
Proof. intros. split_and!; simpl; try done. lia. Qed.
#[local] Hint Resolve same_task_refl same_task_queue same_task_more : core.

Lemma dframe_refl d s : dframe d s s.
Proof.
  split; try done.
  - intros a. destruct (s_tasks s !! a); [|done]. done.
  - intros w. destruct (s_waiters s !! w); done.
  - destruct (s_dcs s !! d); [|done]. split; [done|lia].
Qed.

Lemma dframe_trans d s1 s2 s3 : dframe d s1 s2 → dframe d s2 s3 → dframe d s1 s3.
Proof.
  intros [] []. split; try congruence.
  - intros a. specialize (df_tasks0 a). specialize (df_tasks1 a).
    destruct (s_tasks s1 !! a), (s_tasks s2 !! a), (s_tasks s3 !! a); try done.
    destruct df_tasks0 as [(?&?&?&?&?&?) HA], df_tasks1 as [(?&?&?&?&?&?) HB].
    split; [split_and!; first [congruence|lia]|].
    intros Hd. rewrite HB, HA; [done|done|congruence].
  - intros w. specialize (df_waiters0 w). specialize (df_waiters1 w).
    destruct (s_waiters s1 !! w), (s_waiters s2 !! w), (s_waiters s3 !! w); try done.
    destruct df_waiters0, df_waiters1. split; congruence.
  - intros d' Hd. rewrite df_other1, df_other0; done.
  - destruct (s_dcs s1 !! d), (s_dcs s2 !! d), (s_dcs s3 !! d); try done.
    destruct df_dc0, df_dc1. split; [congruence|]. rewrite df_capacity0 in *. lia.
Qed.

(** Frames say that tasks keep their identity. *)
Lemma dframe_task d s s' a t :
  dframe d s s' → s_tasks s !! a = Some t →
  ∃ t', s_tasks s' !! a = Some t' ∧ same_task t t'.
Proof.
  intros Hf Ht. pose proof (df_tasks _ _ _ Hf a) as H. rewrite Ht in H.
  destruct (s_tasks s' !! a) as [t'|]; [|done]. exists t'. by destruct H.
Qed.

Lemma dframe_dc d s s' dc :
  dframe d s s' → s_dcs s !! d = Some dc →
  ∃ dc', s_dcs s' !! d = Some dc' ∧ dc_tasks dc' = dc_tasks dc.
Proof.
  intros Hf Hd. pose proof (df_dc _ _ _ Hf) as H. rewrite Hd in H.
  destruct (s_dcs s' !! d) as [x|]; [|done]. exists x. by destruct H.
Qed.

(** ** Queues of one file *)

Lemma prune_suffix ws l : pruneCanceledWaiters ws l `suffix_of` l.
Proof.
  induction l as [|w l IH]; simpl; [done|].
  destruct (is_canceled ws w); [by apply suffix_cons_r|done].
Qed.

Lemma prune_head ws l w l' :
  pruneCanceledWaiters ws l = w :: l' → is_canceled ws w = false.
Proof.
  induction l as [|x l IH]; simpl; [done|].
  destruct (is_canceled ws x) eqn:Hx; [done|]. intros [= -> ->]. done.
Qed.

Lemma suffix_NoDup {A} (l l' : list A) : l' `suffix_of` l → NoDup l → NoDup l'.
Proof. intros [k ->]. rewrite NoDup_app. tauto. Qed.

Lemma suffix_in {A} (l l' : list A) x : l' `suffix_of` l → x ∈ l' → x ∈ l.
Proof. intros [k ->]. rewrite elem_of_app. tauto. Qed.

Lemma granted_for_nonneg a (ws : gmap nat chunkWaiter) : 0 ≤ msum (granted_for a) ws.
Proof. apply msum_nonneg. intros k v _. unfold granted_for. case_decide; lia. Qed.

(** ** Updating one file *)

Lemma TaskOk_ext R C s s' a t :
  s_files s' = s_files s → s_waiters s' = s_waiters s → s_dcs s' = s_dcs s →
  s_next s' = s_next s → TaskOk R C s a t → TaskOk R C s' a t.
Proof. intros Hf Hw Hd Hn []. split; rewrite ?Hf, ?Hw, ?Hd, ?Hn; done. Qed.

Lemma Sinv_put_task R C T s a t t' :
  Sinv R C T s → s_tasks s !! a = Some t → TaskOk R C s a t' →
  ts_taskID t' = ts_taskID t → ts_dc t' = ts_dc t → ts_active t' = ts_active t →
  ts_inFlight t' = ts_inFlight t →
  Sinv R C T (put_task s a t').
Proof.
  intros [] Ht Hok Hid Hdc Hact Hfl. split; simpl; try done.
  - intros b u Hb. eapply TaskOk_ext with (s := s); try done.
    destruct (decide (a = b)) as [->|]; simplify_map_eq; eauto.
  - intros b Hb. apply si_none0. destruct (decide (a = b)) as [->|]; simplify_map_eq; done.
  - intros id b Hb. destruct (si_files0 _ _ Hb) as (u & Hu & Hi).
    destruct (decide (a = b)) as [->|]; simplify_map_eq; eauto.
  - intros d. unfold dc_load in *. simpl. rewrite (msum_insert_Some _ _ _ t) by done.
    rewrite si_load0. replace (dcload d t') with (dcload d t); [lia|].
    unfold dcload. by rewrite Hdc, Hfl.
  - intros d dc Hd. destruct (si_dcs0 d dc Hd) as [Hnd Hin]. split; [done|].
    intros b. rewrite Hin. destruct (decide (a = b)) as [->|]; simplify_map_eq; [|done].
    split; intros (u & Hu & ? & ?); simplify_eq; eexists; (split; [done|]); split; congruence.
  - rewrite (msum_insert_Some _ _ _ t) by done.
    replace (act1 t') with (act1 t); [lia|]. unfold act1. by rewrite Hact.
Qed.

Lemma dframe_put_task d s a t t' :
  s_tasks s !! a = Some t → ts_dc t = d → same_task t t' → dframe d s (put_task s a t').
Proof.
  intros Ht Hd Hs. pose proof (dframe_refl d s) as []. split; simpl; try done.
  intros b. destruct (decide (a = b)) as [->|]; simplify_map_eq; [|apply df_tasks0].
  done.
Qed.

Lemma Sinv_set_queue R C T s a t l :
  Sinv R C T s → s_tasks s !! a = Some t → l `suffix_of` ts_waiters t →
  Sinv R C T (put_task s a (t_waiters t l)).
Proof.
  intros Hs Ht Hl. eapply Sinv_put_task; eauto.
  destruct (si_tasks _ _ _ _ Hs _ _ Ht). split; simpl; try done.
  - by eapply suffix_NoDup.
  - intros w Hw. apply to_queued0. by eapply suffix_in.
  - intros Ha. destruct (to_idle0 Ha) as [? Hq]. split; [done|].
    rewrite Hq in Hl. by apply suffix_nil_inv in Hl.
  - intros Hr. rewrite (to_unref0 Hr) in Hl. by apply suffix_nil_inv in Hl.
Qed.

(** ** [firstFileWaiter] *)

Definition queue (s : Scheduler) (a : nat) : list nat :=
  match s_tasks s !! a with Some t => ts_waiters t | None => [] end.

Lemma queue_put s a t : queue (put_task s a t) a = ts_waiters t.
Proof. unfold queue. simpl. by rewrite lookup_insert_eq. Qed.
Lemma queue_put_ne s a b t : b ≠ a → queue (put_task s a t) b = queue s b.
Proof. intros. unfold queue. simpl. by rewrite lookup_insert_ne. Qed.
Lemma queue_lookup s a t : s_tasks s !! a = Some t → queue s a = ts_waiters t.
Proof. intros H. unfold queue. by rewrite H. Qed.

(** What the scan returns: either every scanned file has an empty queue, or a
    live request popped from the first file that has one. *)
Definition scan_post (s s1 : Scheduler) (tasks : list nat) (r : option (nat * nat)) : Prop :=
  match r with
  | None => ∀ a, a ∈ tasks → queue s1 a = []
  | Some (a, w) => ∃ before after,
      tasks = before ++ a :: after ∧ (∀ b, b ∈ before → queue s1 b = []) ∧
      is_canceled (s_waiters s) w = false ∧ (w ∈ queue s a) ∧ (w ∉ queue s1 a) ∧
      (length (queue s1 a) < length (queue s a))%nat
  end.

Lemma firstFileWaiter_spec R C T d s tasks :
  Sinv R C T s → NoDup tasks →
  (∀ a, a ∈ tasks → ∃ t, s_tasks s !! a = Some t ∧ ts_dc t = d) →
  ∃ s1 r, firstFileWaiter s tasks = Ok (s1, r) ∧ Sinv R C T s1 ∧ dframe d s s1 ∧
    s_dcs s1 = s_dcs s ∧ s_waiters s1 = s_waiters s ∧
    (∀ a, (queue s1 a) `suffix_of` (queue s a)) ∧
    (∀ a, a ∉ tasks → queue s1 a = queue s a) ∧ scan_post s s1 tasks r.
Proof.
  revert s. induction tasks as [|a tasks IH]; intros s Hs Hnd Hin.
  { exists s, None. split_and!; eauto using dframe_refl.
    intros a Ha. by apply elem_of_nil in Ha. }
  apply NoDup_cons in Hnd as [Hna Hnd].
  destruct (Hin a) as (t & Ht & Hd); [left|].
  pose proof (prune_suffix (s_waiters s) (ts_waiters t)) as Hsuf.
  simpl. unfold task. rewrite Ht. simpl.
  destruct (pruneCanceledWaiters (s_waiters s) (ts_waiters t)) as [|w l] eqn:Hp.
  - destruct (IH (put_task s a (t_waiters t []))) as (s1 & r & Hf & Hs1 & Hfr & Hdcs & Hws & Hsub & Hout & Hpost).
    { by apply Sinv_set_queue. }
    { done. }
    { intros b Hb. destruct (Hin b) as (u & Hu & ?); [by right|].
      exists u. simpl. rewrite lookup_insert_ne; [done|set_solver]. }
    assert (Hq : ∀ b, b ≠ a → queue (put_task s a (t_waiters t [])) b = queue s b).
    { intros b Hb. by apply queue_put_ne. }
    assert (Hqa : queue s1 a = []).
    { rewrite Hout by done. by rewrite queue_put. }
    exists s1, r. rewrite Hf. split_and!; try done.
    + eapply dframe_trans; [|done]. by eapply dframe_put_task.
    + intros b. destruct (decide (b = a)) as [->|Hb]; [rewrite Hqa; apply suffix_nil|].
      rewrite <- Hq by done. apply Hsub.
    + intros b Hb. apply not_elem_of_cons in Hb as [? ?]. rewrite Hout by done. by apply Hq.
    + destruct r as [[b w]|]; simpl in *.
      * destruct Hpost as (bef & aft & -> & Hbef & Hc & Hw & Hnw & Hlt).
        exists (a :: bef), aft. split; [done|].
        assert (b ≠ a) by set_solver. rewrite Hq in Hw, Hlt by done.
        split; [|done]. intros x [->|?]%elem_of_cons; eauto.
      * intros b [->|?]%elem_of_cons; eauto.
  - assert (Hw : is_canceled (s_waiters s) w = false) by (by eapply prune_head).
    simpl. rewrite Hw.
    assert (Hl : l `suffix_of` ts_waiters t).
    { etrans; [|exact Hsuf]. by exists [w]. }
    assert (Hnw : NoDup (w :: l)).
    { eapply suffix_NoDup; [exact Hsuf|]. apply (si_tasks _ _ _ _ Hs _ _ Ht). }
    eexists _, _. split; [done|]. split_and!; try (by apply Sinv_set_queue); try done.
    1: by eapply dframe_put_task.
    + intros b. destruct (decide (b = a)) as [->|].
      * by rewrite queue_put, (queue_lookup _ _ _ Ht).
      * by rewrite queue_put_ne.
    + intros b Hb. apply not_elem_of_cons in Hb as [? ?]. by apply queue_put_ne.
    + exists [], tasks. rewrite queue_put, (queue_lookup _ _ _ Ht). simpl.
      split_and!; try done.
      * intros b Hb. by apply elem_of_nil in Hb.
      * eapply suffix_in; [exact Hsuf|left].
      * by apply NoDup_cons in Hnw as [? _].
      * apply suffix_length in Hsuf. simpl in Hsuf. lia.
Qed.

(** The next request to serve: the first live one of the first file that has
    one. *)
Definition live (s : Scheduler) (a : nat) : list nat := filter (λ w, is_canceled (s_waiters s) w = false) (queue s a).
Definition next_request (s : Scheduler) (tasks : list nat) : option (nat * nat) :=
  head (a ← tasks; pair a <$> live s a).

Lemma prune_live ws l :
  filter (λ w, is_canceled ws w = false) (pruneCanceledWaiters ws l) = filter (λ w, is_canceled ws w = false) l.
Proof.
  induction l as [|w l IH]; [done|]. cbn [pruneCanceledWaiters]. destruct (is_canceled ws w) eqn:Hw; [|done].
  by rewrite IH, (filter_cons_False _ w) by (by rewrite Hw).
Qed.

(** The scan finds exactly that one. *)
Lemma firstFileWaiter_next s tasks s1 r :
  NoDup tasks → firstFileWaiter s tasks = Ok (s1, r) → r = next_request s tasks.
Proof.
  revert s. induction tasks as [|a tasks IH]; intros s; [by intros _ [= _ <-]|].
  intros [Hna Hnd]%NoDup_cons. cbn [firstFileWaiter]. unfold task. destruct (s_tasks s !! a) as [t|] eqn:Ht; [|done].
  cbn [mbind res_bind]. pose proof (prune_live (s_waiters s) (ts_waiters t)) as Hlive.
  assert (Hn : next_request s (a :: tasks) = head ((pair a <$> live s a) ++ (b ← tasks; pair b <$> live s b))) by done.
  rewrite Hn. unfold live at 1. rewrite (queue_lookup _ _ _ Ht).
  destruct (pruneCanceledWaiters (s_waiters s) (ts_waiters t)) as [|w l] eqn:Hp.
  - rewrite <- Hlive. intros H. rewrite (IH _ Hnd H). unfold next_request. f_equal. cbn. clear -Hna.
    induction tasks as [|b tasks IH]; [done|]. apply not_elem_of_cons in Hna as [Hab Hna]. cbn. rewrite <- (IH Hna).
    unfold live. rewrite queue_put_ne by done. done.
  - assert (Hw : is_canceled (s_waiters s) w = false) by (by eapply prune_head).
    rewrite <- Hlive, filter_cons_True by done. cbn. rewrite Hw. by intros [= _ <-].
Qed.

(** ** Granting a lane and the dispatch loop *)

Lemma grant_spec R C T s d a w t dc :
  Sinv R C T s → s_tasks s !! a = Some t → ts_active t = true → ts_dc t = d →
  s_dcs s !! d = Some dc → dc_inFlight dc < s_capacity s →
  queued_waiter (s_waiters s) a w → is_canceled (s_waiters s) w = false → w ∉ ts_waiters t →
  ∃ s', grant s d a w = Ok s' ∧ Sinv R C T s' ∧ dframe d s s' ∧
    (∀ b, queue s' b = queue s b) ∧
    (∀ x, x ≠ w → s_waiters s' !! x = s_waiters s !! x) ∧
    (∃ c, s_waiters s' !! w = Some c ∧ cw_task c = a ∧ cw_granted c = true ∧ cw_ready c = true) ∧
    s_dcs s' !! d = Some (mkDC (dc_tasks dc) (dc_inFlight dc + 1)).
Proof.
  intros Hs Ht Hact <- Hd Hcap (c & Hc & Hct & Hcg & Hcr) Hcan Hw.
  unfold is_canceled in Hcan. rewrite Hc in Hcan.
  unfold grant, task, dc_get. rewrite Hc. simpl. rewrite Ht. simpl. rewrite Hd. simpl. rewrite Hcr.
  set (c' := mkCW (cw_task c) true (cw_canceled c) true).
  assert (Hg : ∀ b, msum (granted_for b) (<[w:=c']> (s_waiters s)) =
                    msum (granted_for b) (s_waiters s) + (if decide (b = a) then 1 else 0)).
  { intros b. rewrite (msum_insert_Some _ _ _ c) by done.
    unfold granted_for at 2 3, c'. simpl. rewrite Hcg, Hct.
    repeat case_decide; try lia; naive_solver. }
  assert (Hqw : ∀ b x, x ≠ w → queued_waiter (s_waiters s) b x →
                queued_waiter (<[w:=c']> (s_waiters s)) b x).
  { intros b x Hx (y & Hy & ?). exists y. by rewrite lookup_insert_ne. }
  eexists. split; [done|]. split_and!.
  - destruct Hs. split; simpl; try done.
    + intros b u Hb. assert (Hbu : ∃ u0, s_tasks s !! b = Some u0 ∧ same_task u0 u ∧ ts_waiters u = ts_waiters u0
        ∧ ts_inFlight u = ts_inFlight u0 + (if decide (b = a) then 1 else 0) ∧ w ∉ ts_waiters u0).
      { destruct (decide (b = a)) as [->|Hne]; simplify_map_eq.
        - exists t. split_and!; auto with lia.
        - exists u. split_and!; try done; [lia|]. intros Hin.
          destruct (to_queued _ _ _ _ _ (si_tasks0 _ _ Hb) _ Hin) as (y & ? & ? & _). congruence. }
      destruct Hbu as (u0 & Hu0 & (Hid & Hdc & Hr & Ha & Hav & _) & Hwt & Hfl & Hnin).
      destruct (si_tasks0 _ _ Hu0). split; simpl; rewrite ?Hid, ?Hdc, ?Hr, ?Ha, ?Hav, ?Hwt; try done.
      * rewrite Hfl, Hg. lia.
      * intros x Hx. apply Hqw; [by intros ->|eauto].
      * intros Hi. destruct (to_idle0 Hi). split; [|done].
        rewrite Hfl. destruct (decide (b = a)) as [->|]; [congruence|lia].
      * intros Hi. destruct (to_active0 Hi) as [? (x & Hx & ?)]. split; [done|].
        destruct (decide (ts_dc t = ts_dc u0)) as [He|]; [|rewrite lookup_insert_ne by done; eauto].
        rewrite He, lookup_insert_eq. rewrite He in Hd. simplify_eq. eauto.
    + intros b Hb. destruct (decide (b = a)) as [->|]; simplify_map_eq.
      rewrite Hg. rewrite decide_False by done. destruct (si_none0 _ Hb) as (?&?&?). lia.
    + intros id b Hb. destruct (si_files0 _ _ Hb) as (u & Hu & Hi).
      destruct (decide (a = b)) as [->|]; simplify_map_eq; eauto.
    + intros e. rewrite (msum_insert_Some _ _ _ t) by done. specialize (si_load0 e).
      unfold dc_load in *. simpl. rewrite lookup_insert.
      unfold dcload at 2 3. simpl.
      case_decide as He.
      * rewrite He, Z.eqb_refl. subst e. rewrite Hd in si_load0. simpl. lia.
      * rewrite (proj2 (Z.eqb_neq _ _)) by done. lia.
    + intros e dc' He. destruct (decide (ts_dc t = e)) as [He'|He'].
      * rewrite He', lookup_insert_eq in He. injection He as <-. simpl.
        rewrite He' in Hd. destruct (si_dcs0 _ _ Hd) as [? Hin]. split; [done|].
        intros b. rewrite Hin. destruct (decide (a = b)) as [->|]; simplify_map_eq; [|done].
        split; intros (u & ? & ? & ?); simplify_eq; eauto.
      * rewrite lookup_insert_ne in He by done. destruct (si_dcs0 _ _ He) as [? Hin]. split; [done|].
        intros b. rewrite Hin. destruct (decide (a = b)) as [->|]; simplify_map_eq; [|done].
        split; intros (u & ? & ? & ?); simplify_eq; eauto.
    + rewrite (msum_insert_Some _ _ _ t) by done.
      replace (act1 (t_inFlight t (ts_inFlight t + 1))) with (act1 t) by done. lia.
    + intros x y [[<- <-]|[? Hy]]%lookup_insert_Some; [|by eapply si_wok0]. split; simpl; auto.
  - split; simpl; try done.
    + intros b. destruct (decide (a = b)) as [->|]; simplify_map_eq; [by auto with lia|].
      by destruct (s_tasks s !! b).
    + intros x. destruct (decide (w = x)) as [->|]; simplify_map_eq; [by repeat split|].
      by destruct (s_waiters s !! x).
    + intros e He. rewrite lookup_insert_ne; congruence.
    + rewrite Hd, lookup_insert_eq. simpl. split; [done|lia].
  - intros b. unfold queue. simpl. destruct (decide (a = b)) as [->|]; simplify_map_eq; done.
  - intros x Hx. simpl. by rewrite lookup_insert_ne.
  - exists c'. simpl. by rewrite lookup_insert_eq.
  - apply lookup_insert_eq.
Qed.

(** A request granted between [s] and [s'] belongs to a file all of whose
    predecessors in the data centre's list have no request left. *)
Definition granted_in_file_order (s s' : Scheduler) (tasks : list nat) : Prop :=
  ∀ w c', s_waiters s' !! w = Some c' → s_waiters s !! w ≠ Some c' →
    is_canceled (s_waiters s) w = false ∧ w ∈ queue s (cw_task c') ∧
    ∃ before after, tasks = before ++ cw_task c' :: after ∧
      ∀ b, b ∈ before → queue s' b = [].

Record dispatch_post (d : Z) (s s' : Scheduler) : Prop := {
  dp_frame : dframe d s s';
  dp_shrink : ∀ a, (queue s' a) `suffix_of` (queue s a);
  dp_work : work_conserving s' d;
  dp_order : ∀ dc, s_dcs s !! d = Some dc → granted_in_file_order s s' (dc_tasks dc);
}.

Lemma queue_len_queue s a : queue_len s a = length (queue s a).
Proof. unfold queue_len, queue. by destruct (s_tasks s !! a). Qed.

Lemma queued_lt s s' l a :
  a ∈ l → (∀ b, (queue s' b) `suffix_of` (queue s b)) →
  (length (queue s' a) < length (queue s a))%nat → (queued s' l < queued s l)%nat.
Proof.
  intros Ha Hsub Hlt.
  assert (Hle : ∀ b, (queue_len s' b ≤ queue_len s b)%nat).
  { intros b. rewrite !queue_len_queue. by apply suffix_length. }
  unfold queued. induction l as [|x l IH]; [by apply elem_of_nil in Ha|]. simpl.
  assert ((sum_list_with (queue_len s') l ≤ sum_list_with (queue_len s) l)%nat).
  { clear -Hle. induction l as [|y l IH]; simpl; [lia|]. specialize (Hle y). lia. }
  apply elem_of_cons in Ha as [->|Ha].
  - rewrite !queue_len_queue. lia.
  - specialize (IH Ha). specialize (Hle x). lia.
Qed.

Lemma file_order_trans s s1 s2 l :
  (∀ a, (queue s1 a) `suffix_of` (queue s a)) → (∀ a, (queue s2 a) `suffix_of` (queue s1 a)) →
  (∀ w, is_canceled (s_waiters s1) w = is_canceled (s_waiters s) w) →
  granted_in_file_order s s1 l → granted_in_file_order s1 s2 l →
  granted_in_file_order s s2 l.
Proof.
  intros H1 H2 Hc Ho1 Ho2 w c Hw Hn.
  destruct (decide (s_waiters s1 !! w = Some c)) as [Heq|Hne].
  - destruct (Ho1 w c Heq Hn) as (? & ? & bef & aft & -> & Hb). split_and!; try done.
    exists bef, aft. split; [done|]. intros b Hin. specialize (H2 b). rewrite (Hb b Hin) in H2.
    by apply suffix_nil_inv in H2.
  - destruct (Ho2 w c Hw Hne) as (Hcan & Hin & rest). rewrite Hc in Hcan.
    split_and!; try done. eapply suffix_in; [apply H1|done].
Qed.

Lemma dframe_canceled d s s' w :
  dframe d s s' → is_canceled (s_waiters s') w = is_canceled (s_waiters s) w.
Proof.
  intros Hf. pose proof (df_waiters _ _ _ Hf w) as H. unfold is_canceled.
  destruct (s_waiters s !! w), (s_waiters s' !! w); try done. by destruct H.
Qed.

Lemma dispatch_loop_spec R C T d fuel s dc :
  Sinv R C T s → s_dcs s !! d = Some dc → (queued s (dc_tasks dc) < fuel)%nat →
  ∃ s', dispatch_loop fuel s d = Ok s' ∧ Sinv R C T s' ∧ dispatch_post d s s'.
Proof.
  revert s dc. induction fuel as [|fuel IH]; intros s dc Hs Hd Hfuel; [lia|].
  simpl. unfold dc_get at 1. rewrite Hd. simpl.
  destruct (si_dcs _ _ _ _ Hs _ _ Hd) as [Hnd Hin].
  destruct (Z.ltb_spec (dc_inFlight dc) (s_capacity s)) as [Hcap|Hcap].
  2: { eexists; split_and!; [done|done|]. split; [apply dframe_refl|done| |].
       - intros dc' Hd'. rewrite Hd in Hd'. simplify_eq. by left.
       - by intros dc' _ w c Hw. }
  destruct (firstFileWaiter_spec R C T d s (dc_tasks dc))
    as (s1 & r & -> & Hs1 & Hf1 & Hdcs & Hws & Hsub & _ & Hpost); [done|done| |].
  { intros a (t & ? & ? & ?)%Hin. eauto. }
  assert (Ho1 : granted_in_file_order s s1 (dc_tasks dc)).
  { intros w c Hw Hn. rewrite Hws in Hw. done. }
  simpl. destruct r as [[a w]|]; simpl in Hpost.
  - destruct Hpost as (bef & aft & Heq & Hbef & Hcan & Hwq & Hwn & Hlt).
    assert (Ha : a ∈ dc_tasks dc) by (rewrite Heq; set_solver).
    destruct (proj1 (Hin a) Ha) as (t0 & Ht0 & Hact0 & Hdc0).
    destruct (dframe_task _ _ _ _ _ Hf1 Ht0) as (t & Ht & (_ & Hdc & _ & Hact & _ & _)).
    assert (Hwq' : queued_waiter (s_waiters s1) a w).
    { rewrite Hws. apply (si_tasks _ _ _ _ Hs _ _ Ht0). by rewrite <- (queue_lookup _ _ _ Ht0). }
    assert (Hd1 : s_dcs s1 !! d = Some dc) by (by rewrite Hdcs).
    destruct (grant_spec R C T s1 d a w t dc) as (s2 & -> & Hs2 & Hf2 & Hq & Hwo & (c & Hc & Hct & _) & _);
      try done; try congruence.
    { rewrite (df_capacity _ _ _ Hf1). done. }
    { by rewrite <- (queue_lookup _ _ _ Ht). }
    assert (Hsub2 : ∀ b, (queue s2 b) `suffix_of` (queue s1 b)) by (intros b; by rewrite Hq).
    assert (Ho2 : granted_in_file_order s s2 (dc_tasks dc)).
    { intros x cx Hx Hn. destruct (decide (x = w)) as [->|Hxw].
      - rewrite Hc in Hx. simplify_eq. split_and!; try done.
        exists bef, aft. split; [done|]. intros b Hb. rewrite Hq. by apply Hbef.
      - rewrite Hwo in Hx by done. by rewrite Hws in Hx. }
    destruct (dframe_dc _ _ _ _ Hf2 Hd1) as (dc2 & Hd2 & Hdt).
    simpl. destruct (IH s2 dc2) as (s3 & -> & Hs3 & [Hf3 Hsub3 Hwc Ho3]); try done.
    { rewrite Hdt. apply Nat.succ_lt_mono. eapply Nat.le_lt_trans; [|exact Hfuel].
      eapply queued_lt; [exact Ha| |].
      - intros b. rewrite Hq. apply Hsub.
      - by rewrite Hq. }
    eexists; split_and!; [done|done|]. split.
    + eapply dframe_trans; [exact Hf1|]. by eapply dframe_trans.
    + intros b. etrans; [apply Hsub3|]. rewrite Hq. apply Hsub.
    + done.
    + intros dc' Hd'. rewrite Hd in Hd'. simplify_eq.
      eapply file_order_trans; [| | |exact Ho2|]; try done.
      * intros b. rewrite Hq. apply Hsub.
      * intros x. erewrite dframe_canceled by exact Hf2. by eapply dframe_canceled.
      * rewrite <- Hdt. by apply Ho3.
  - eexists; split_and!; [done|done|]. split; [done|done| |].
    + intros dc' Hd'. rewrite Hdcs, Hd in Hd'. simplify_eq. right.
      intros a t Ha Ht. rewrite <- (queue_lookup _ _ _ Ht). by apply Hpost.
    + intros dc' Hd'. rewrite Hd in Hd'. by simplify_eq.
Qed.

Lemma dispatch_spec R C T d s :
  Sinv R C T s → ∃ s', dispatchLocked s d = Ok s' ∧ Sinv R C T s' ∧ dispatch_post d s s'.
Proof.
  intros Hs. unfold dispatchLocked.
  destruct (s_dcs s !! d) as [dc|] eqn:Hd.
  2: { exists s. split_and!; [done|done|]. split; [apply dframe_refl|done| |].
       - intros dc Hd'. by rewrite Hd in Hd'.
       - by intros dc' _ w c Hw. }
  destruct (dc_tasks dc) as [|a l] eqn:Hl.
  { exists s. split_and!; [done|done|]. split; [apply dframe_refl|done| |].
    - intros dc' Hd'. rewrite Hd in Hd'. simplify_eq. right. rewrite Hl. set_solver.
    - by intros dc' _ w c Hw. }
  rewrite <- Hl. eapply dispatch_loop_spec; eauto.
Qed.
