(* ===== verification/SchedulerOps.v ===== *)
(** * The scheduler's locked sections preserve the accounting invariant

    One specification per section of Scheduler.v: it does not panic, it moves
    exactly the references, leases and tokens it is meant to move, it keeps
    every lane busy, and it leaves the rest alone. *)

From S2P Require Import Prelude Scheduler SchedulerInv.

Definition bump (F : nat → Z) (a : nat) (z : Z) : nat → Z :=
  λ b, F b + (if decide (b = a) then z else 0).

Lemma bump_eq F a z : bump F a z a = F a + z.
Proof. unfold bump. by rewrite decide_True. Qed.
Lemma bump_ne F a z b : b ≠ a → bump F a z b = F b.
Proof. intros. unfold bump. rewrite decide_False by done. lia. Qed.

Lemma Sinv_ext R R' C C' T T' s :
  (∀ a, R a = R' a) → (∀ a, C a = C' a) → T = T' → Sinv R C T s → Sinv R' C' T' s.
Proof.
  intros HR HC <- []. split; try done.
  - intros a t Ht. destruct (si_tasks _ _ Ht). split; try done; [by rewrite <- HR|by rewrite <- HC].
  - intros a Ha. rewrite <- HR, <- HC. auto.
  - intros a. rewrite <- HR, <- HC. auto.
Qed.

(** A file without references is only kept alive by its running chunks. *)
Definition no_zombie (s : Scheduler) : Prop :=
  ∀ a t, s_tasks s !! a = Some t → ts_refs t = 0 → ts_active t = true → 0 < ts_inFlight t.

Definition all_busy (s : Scheduler) : Prop := ∀ d, work_conserving s d.

(** What a section leaves alone; [k] is the request it may rewrite or drop. *)
Record sframe (k : option nat) (s s' : Scheduler) : Prop := {
  sf_capacity : s_capacity s' = s_capacity s;
  sf_limit : fl_limit (s_fileTokens s') = fl_limit (s_fileTokens s);
  sf_closed : s_closed s' = s_closed s;
  sf_next : s_next s' = s_next s;
  sf_tasks : ∀ a, match s_tasks s !! a, s_tasks s' !! a with
    | Some t, Some t' => ts_taskID t' = ts_taskID t ∧ ts_dc t' = ts_dc t ∧
        ts_activating t' = ts_activating t
    | None, None => True
    | _, _ => False end;
  sf_waiters : ∀ w, Some w ≠ k → match s_waiters s !! w, s_waiters s' !! w with
    | Some c, Some c' => cw_task c' = cw_task c ∧ (cw_canceled c = true → cw_canceled c' = true)
    | None, None => True
    | _, _ => False end;
  sf_load : ∀ d, dc_load s' d ≤ Z.max (dc_load s d) (s_capacity s);
  sf_used : fl_used (s_fileTokens s') ≤ fl_used (s_fileTokens s);
}.

Lemma sframe_refl k s : sframe k s s.
Proof.
  split; try done.
  - intros a. by destruct (s_tasks s !! a).
  - intros w _. by destruct (s_waiters s !! w).
  - intros d. lia.
Qed.

Lemma sframe_trans k s1 s2 s3 : sframe k s1 s2 → sframe k s2 s3 → sframe k s1 s3.
Proof.
  intros [] []. split; try congruence.
  - intros a. specialize (sf_tasks0 a). specialize (sf_tasks1 a).
    destruct (s_tasks s1 !! a), (s_tasks s2 !! a), (s_tasks s3 !! a); try done.
    destruct sf_tasks0 as (?&?&?), sf_tasks1 as (?&?&?). split_and!; congruence.
  - intros w Hw. specialize (sf_waiters0 w Hw). specialize (sf_waiters1 w Hw).
    destruct (s_waiters s1 !! w), (s_waiters s2 !! w), (s_waiters s3 !! w); try done.
    destruct sf_waiters0, sf_waiters1. split; [congruence|auto].
  - intros d. specialize (sf_load0 d). specialize (sf_load1 d). rewrite sf_capacity0 in *. lia.
  - lia.
Qed.

Lemma sframe_weaken K s s' : sframe None s s' → sframe K s s'.
Proof. intros []. split; try done. intros w _. by apply sf_waiters0. Qed.

Lemma dframe_sframe k d s s' : dframe d s s' → sframe k s s'.
Proof.
  intros []. split; try congruence.
  - intros a. specialize (df_tasks a).
    destruct (s_tasks s !! a), (s_tasks s' !! a); try done. destruct df_tasks as [(?&?&?&?&?&?) _]. done.
  - intros w _. specialize (df_waiters w).
    destruct (s_waiters s !! w), (s_waiters s' !! w); try done. destruct df_waiters. split; congruence.
  - intros e. unfold dc_load. destruct (decide (e = d)) as [->|He].
    + destruct (s_dcs s !! d), (s_dcs s' !! d); try done; [|lia]. destruct df_dc. lia.
    + rewrite df_other by done. lia.
  - by rewrite df_tokens.
Qed.

Lemma dframe_no_zombie d s s' : dframe d s s' → no_zombie s → no_zombie s'.
Proof.
  intros Hf Hz a t' Ht' Hr Ha. pose proof (df_tasks _ _ _ Hf a) as H. rewrite Ht' in H.
  destruct (s_tasks s !! a) as [t|] eqn:Ht; [|done].
  destruct H as [(_ & _ & Hr' & Ha' & _ & Hle) _].
  assert (0 < ts_inFlight t) by (apply (Hz a); congruence). lia.
Qed.

(** Dispatching on one data centre does not disturb the others. *)
Lemma dispatch_keeps_busy R C T d e s s' :
  Sinv R C T s → dispatch_post d s s' → e ≠ d → work_conserving s e → work_conserving s' e.
Proof.
  intros Hs [Hf Hsub _ _] He Hw dc Hd. rewrite (df_other _ _ _ Hf) in Hd by done.
  destruct (Hw dc Hd) as [Hc|Hc]; [left; by rewrite (df_capacity _ _ _ Hf)|right].
  intros a t Ha Ht. specialize (Hsub a). rewrite (queue_lookup _ _ _ Ht) in Hsub.
  destruct (si_dcs _ _ _ _ Hs _ _ Hd) as [_ Hin].
  destruct (proj1 (Hin a) Ha) as (u & Hu & _ & _).
  rewrite (queue_lookup _ _ _ Hu), (Hc a u Ha Hu) in Hsub. by apply suffix_nil_inv in Hsub.
Qed.

Lemma dispatch_all_busy R C T d s s' :
  Sinv R C T s → dispatch_post d s s' → (∀ e, e ≠ d → work_conserving s e) → all_busy s'.
Proof.
  intros Hs Hp Hne e. destruct (decide (e = d)) as [->|He]; [apply Hp|].
  eapply dispatch_keeps_busy; eauto.
Qed.

(** The common conclusion of the sections below. *)
Record section_ok (R C : nat → Z) (T : Z) (k : option nat) (s s' : Scheduler) : Prop := {
  so_inv : Sinv R C T s';
  so_frame : sframe k s s';
  so_zombie : no_zombie s';
  so_busy : all_busy s';
}.

(** Finish a section by dispatching on [d] from an intermediate state. *)
Lemma dispatch_section R C T k d s0 s :
  Sinv R C T s → sframe k s0 s → no_zombie s → (∀ e, e ≠ d → work_conserving s e) →
  ∃ s', dispatchLocked s d = Ok s' ∧ section_ok R C T k s0 s'.
Proof.
  intros Hs Hf Hz Hw. destruct (dispatch_spec R C T d s Hs) as (s' & Hd & Hs' & Hp).
  exists s'. split; [done|]. split; [done| | |].
  - eapply sframe_trans; [exact Hf|]. exact (dframe_sframe k _ _ _ (dp_frame _ _ _ Hp)).
  - exact (dframe_no_zombie _ _ _ (dp_frame _ _ _ Hp) Hz).
  - exact (dispatch_all_busy _ _ _ _ _ _ Hs Hp Hw).
Qed.

Lemma release_token_spec R C T s :
  Sinv R C (T + 1) s → 0 ≤ T →
  ∃ s', releaseToken s = Ok s' ∧ Sinv R C T s' ∧
    s_tasks s' = s_tasks s ∧ s_dcs s' = s_dcs s ∧ ∀ k, sframe k s s'.
Proof.
  intros Hs HT. pose proof (si_tokens _ _ _ _ Hs) as Hu.
  assert (0 ≤ msum act1 (s_tasks s)).
  { apply msum_nonneg. intros a t _. unfold act1. destruct (ts_active t); lia. }
  unfold releaseToken, fl_release. rewrite (proj2 (Z.eqb_neq _ _)) by lia. simpl.
  eexists. split; [done|]. split_and!; try done.
  - destruct Hs. split; simpl; try done; [|lia].
    intros a t Ht. eapply TaskOk_ext with (s := s); eauto. 
  - intros k. pose proof (sframe_refl k s) as []. split; simpl; try done; lia.
Qed.

(** ** Removing a file *)

Lemma elem_of_remove_first a b l :
  NoDup l → b ∈ remove_first a l ↔ b ∈ l ∧ b ≠ a.
Proof.
  induction l as [|x l IH]; intros Hnd; simpl; [set_solver|].
  apply NoDup_cons in Hnd as [Hx Hnd]. case_decide as Hxa.
  - subst. set_solver.
  - rewrite !elem_of_cons, IH by done. naive_solver.
Qed.

Lemma NoDup_remove_first a l : NoDup l → NoDup (remove_first a l).
Proof.
  induction l as [|x l IH]; intros Hnd; simpl; [done|].
  apply NoDup_cons in Hnd as [Hx Hnd]. case_decide; [done|].
  apply NoDup_cons. split; [|auto]. rewrite elem_of_remove_first by done. tauto.
Qed.

(** The file leaves the data centre's list and the registry; its token is
    now in transit. *)
Definition deactivated (s : Scheduler) (a : nat) (t : taskState) (dc : dcState) : Scheduler :=
  with_files
    (put_task (put_dc s (ts_dc t) (mkDC (remove_first a (dc_tasks dc)) (dc_inFlight dc)))
       a (t_active t false))
    (delete (ts_taskID t) (s_files s)).

Lemma Sinv_deactivated R C T s a t dc :
  Sinv R C T s → s_tasks s !! a = Some t → ts_active t = true → ts_refs t = 0 →
  ts_inFlight t = 0 → s_dcs s !! ts_dc t = Some dc → Sinv R C (T + 1) (deactivated s a t dc).
Proof.
  intros Hs Ht Ha Hr Hi Hd. destruct Hs.
  assert (Hid : s_files s !! ts_taskID t = Some a).
  { apply (to_files _ _ _ _ _ (si_tasks _ _ Ht)). auto. }
  destruct (si_dcs _ _ Hd) as [Hnd Hin].
  split; simpl; try done; [| | | | | |lia].
  - intros b u Hb. destruct (decide (a = b)) as [->|Hab]; simplify_map_eq.
    + destruct (si_tasks _ _ Ht), (to_active Ha) as [Hav _].
      split; simpl; try done.
      * intros _. split; [done|auto].
      * rewrite lookup_delete_eq. rewrite Hr, Hav. split; [done|]. intros [?|[?|?]]; [lia|done|done].
    + destruct (si_tasks _ _ Hb). split; simpl; try done.
      * intros Hi'. destruct (to_active Hi') as [? (x & Hx & ?)]. split; [done|].
        destruct (decide (ts_dc t = ts_dc u)) as [He|]; [|rewrite lookup_insert_ne by done; eauto].
        rewrite He, lookup_insert_eq. rewrite He in Hd. simplify_eq. eexists. split; [done|]. simpl.
        apply elem_of_remove_first; [by eapply si_dcs|done].
      * rewrite <- to_files, lookup_delete_Some. split; [naive_solver|]. split; [congruence|done].
  - intros b Hb. apply si_none. destruct (decide (a = b)) as [->|]; simplify_map_eq; done.
  - intros id b [Hne Hb]%lookup_delete_Some. destruct (si_files _ _ Hb) as (u & Hu & Hiu).
    destruct (decide (a = b)) as [->|]; simplify_map_eq; eauto.
  - intros e. rewrite (msum_insert_Some _ _ _ t) by done.
    replace (dcload e (t_active t false)) with (dcload e t) by done.
    specialize (si_load e). unfold dc_load in *. simpl. rewrite lookup_insert.
    case_decide as He; [|lia]. subst e. rewrite Hd in si_load. simpl. lia.
  - intros e dc' He. destruct (decide (ts_dc t = e)) as [He'|He'].
    + rewrite He', lookup_insert_eq in He. injection He as <-. simpl.
      split; [by apply NoDup_remove_first|]. intros b. rewrite elem_of_remove_first, Hin by done.
      destruct (decide (a = b)) as [->|]; simplify_map_eq; [naive_solver|]. naive_solver.
    + rewrite lookup_insert_ne in He by done. destruct (si_dcs _ _ He) as [? Hin']. split; [done|].
      intros b. rewrite Hin'. destruct (decide (a = b)) as [->|]; simplify_map_eq; [naive_solver|done].
  - rewrite (msum_insert_Some _ _ _ t) by done. unfold act1 at 2 3. simpl. rewrite Ha. lia.
Qed.

Lemma remove_active_spec R C T k s a t :
  Sinv R C T s → s_tasks s !! a = Some t → ts_active t = true → ts_refs t = 0 →
  ts_inFlight t = 0 →
  (∀ b u, b ≠ a → s_tasks s !! b = Some u → ts_refs u = 0 → ts_active u = true → 0 < ts_inFlight u) →
  (∀ e, e ≠ ts_dc t → work_conserving s e) →
  ∃ s', removeActiveTaskLocked s a = Ok s' ∧ section_ok R C (T + 1) k s s'.
Proof.
  intros Hs Ht Ha Hr Hi Hz Hw.
  destruct (to_active _ _ _ _ _ (si_tasks _ _ _ _ Hs _ _ Ht) Ha) as [_ (dc & Hd & Hin)].
  unfold removeActiveTaskLocked, task. rewrite Ht. simpl. rewrite Hd.
  apply (dispatch_section R C (T + 1) k (ts_dc t) s (deactivated s a t dc)).
  - by apply Sinv_deactivated.
  - pose proof (sframe_refl k s) as []. split; simpl; try done.
    + intros b. destruct (decide (a = b)) as [->|]; simplify_map_eq; [done|apply sf_tasks0].
    + intros e. unfold dc_load. simpl. rewrite lookup_insert. case_decide; [subst; rewrite Hd; simpl; lia|lia].
  - intros b u Hb Hru Hau. simpl in Hb. destruct (decide (a = b)) as [->|]; simplify_map_eq; eauto.
  - intros e He dc' Hd'. simpl in Hd'. rewrite lookup_insert_ne in Hd' by done.
    destruct (Hw e He _ Hd') as [?|Hq]; [by left|right].
    intros b u Hb Hu. simpl in Hu. destruct (decide (a = b)) as [->|]; simplify_map_eq; [|eauto].
    exact (Hq _ _ Hb Ht).
Qed.

(** ** Chunk leases *)

Lemma inFlight_nonneg R C T s a t : Sinv R C T s → s_tasks s !! a = Some t → 0 ≤ ts_inFlight t.
Proof.
  intros Hs Ht. rewrite (to_inFlight _ _ _ _ _ (si_tasks _ _ _ _ Hs _ _ Ht)).
  pose proof (granted_for_nonneg a (s_waiters s)). pose proof (si_pos _ _ _ _ Hs a). lia.
Qed.

Lemma refs_nonneg R C T s a t : Sinv R C T s → s_tasks s !! a = Some t → 0 ≤ ts_refs t.
Proof.
  intros Hs Ht. rewrite (to_refs _ _ _ _ _ (si_tasks _ _ _ _ Hs _ _ Ht)).
  pose proof (si_pos _ _ _ _ Hs a). lia.
Qed.

Lemma dc_load_ge R C T s a t :
  Sinv R C T s → s_tasks s !! a = Some t → ts_inFlight t ≤ dc_load s (ts_dc t).
Proof.
  intros Hs Ht. rewrite (si_load _ _ _ _ Hs).
  replace (ts_inFlight t) with (dcload (ts_dc t) t) by (unfold dcload; by rewrite Z.eqb_refl).
  apply (msum_ge _ _ a); [|done]. intros b u Hb. unfold dcload.
  pose proof (inFlight_nonneg _ _ _ _ _ _ Hs Hb). destruct (ts_dc u =? ts_dc t); lia.
Qed.

(** The state after both [inFlight--]. *)
Definition lane_freed (s : Scheduler) (a : nat) (t : taskState) (dc : dcState) : Scheduler :=
  put_dc (put_task s a (t_inFlight t (ts_inFlight t - 1))) (ts_dc t)
    (mkDC (dc_tasks dc) (dc_inFlight dc - 1)).

Lemma Sinv_lane_freed R C T s a t dc :
  Sinv R C T s → s_tasks s !! a = Some t → 1 ≤ C a → ts_active t = true →
  s_dcs s !! ts_dc t = Some dc → Sinv R (bump C a (-1)) T (lane_freed s a t dc).
Proof.
  intros Hs Ht HC Ha Hd. destruct Hs.
  destruct (si_dcs _ _ Hd) as [Hnd Hin].
  split; simpl; try done.
  - intros b u Hb. destruct (decide (a = b)) as [->|Hab]; simplify_map_eq.
    + destruct (si_tasks _ _ Ht). split; simpl; try done.
      * rewrite bump_eq. lia.
      * congruence.
      * intros _. destruct (to_active Ha) as [? (x & Hx & ?)]. split; [done|].
        rewrite lookup_insert_eq. simplify_eq. eauto.
    + destruct (si_tasks _ _ Hb). split; simpl; try done.
      * by rewrite bump_ne.
      * intros Hi'. destruct (to_active Hi') as [? (x & Hx & ?)]. split; [done|].
        destruct (decide (ts_dc t = ts_dc u)) as [He|]; [|rewrite lookup_insert_ne by done; eauto].
        rewrite He, lookup_insert_eq. rewrite He in Hd. simplify_eq. eauto.
  - intros b Hb. destruct (decide (a = b)) as [->|]; simplify_map_eq. rewrite bump_ne by done. auto.
  - intros b. specialize (si_pos b). unfold bump. case_decide; subst; lia.
  - intros id b Hb. destruct (si_files _ _ Hb) as (u & Hu & Hiu).
    destruct (decide (a = b)) as [->|]; simplify_map_eq; eauto.
  - intros e. rewrite (msum_insert_Some _ _ _ t) by done.
    specialize (si_load e). unfold dc_load in *. simpl. rewrite lookup_insert.
    unfold dcload at 2 3. simpl. case_decide as He.
    + subst e. rewrite Z.eqb_refl. rewrite Hd in si_load. simpl. lia.
    + rewrite (proj2 (Z.eqb_neq _ _)) by done. lia.
  - intros e dc' He.
    assert (Hdc' : ∃ dc0, s_dcs s !! e = Some dc0 ∧ dc_tasks dc' = dc_tasks dc0).
    { destruct (decide (ts_dc t = e)) as [He'|He']; [|rewrite lookup_insert_ne in He by done; eauto].
      rewrite He', lookup_insert_eq in He. rewrite He' in Hd. injection He as <-. eauto. }
    destruct Hdc' as (dc0 & Hd0 & ->). destruct (si_dcs _ _ Hd0) as [? Hin0]. split; [done|].
    intros b. rewrite Hin0. destruct (decide (a = b)) as [->|]; simplify_map_eq; [|done].
    split; intros (u & ? & ? & ?); simplify_eq; eauto.
  - rewrite (msum_insert_Some _ _ _ t) by done.
    replace (act1 (t_inFlight t (ts_inFlight t - 1))) with (act1 t) by done. lia.
Qed.

Lemma sframe_lane_freed R C T k s a t dc :
  Sinv R C T s → s_tasks s !! a = Some t → s_dcs s !! ts_dc t = Some dc →
  sframe k s (lane_freed s a t dc).
Proof.
  intros Hs Ht Hd. pose proof (sframe_refl k s) as []. split; simpl; try done.
  - intros b. destruct (decide (a = b)) as [->|]; simplify_map_eq; [done|apply sf_tasks0].
  - intros e. unfold dc_load. simpl. rewrite lookup_insert.
    case_decide; [subst; rewrite Hd; simpl|]; lia.
Qed.

Lemma release_chunk_spec R C T k s a :
  Sinv R C T s → no_zombie s → all_busy s → 1 ≤ C a →
  ∃ s', releaseChunkLocked s a = Ok s' ∧ section_ok R (bump C a (-1)) T k s s'.
Proof.
  intros Hs Hz Hb HC.
  destruct (s_tasks s !! a) as [t|] eqn:Ht.
  2: { destruct (si_none _ _ _ _ Hs _ Ht) as (_ & ? & _). lia. }
  pose proof (si_tasks _ _ _ _ Hs _ _ Ht) as Hok.
  pose proof (to_inFlight _ _ _ _ _ Hok) as Hfl. pose proof (granted_for_nonneg a (s_waiters s)).
  destruct (ts_active t) eqn:Ha.
  2: { destruct (to_idle _ _ _ _ _ Hok Ha). lia. }
  destruct (to_active _ _ _ _ _ Hok Ha) as [_ (dc & Hd & _)].
  pose proof (dc_load_ge _ _ _ _ _ _ Hs Ht) as Hge. unfold dc_load in Hge. rewrite Hd in Hge.
  unfold releaseChunkLocked, task at 1. rewrite Ht. simpl. rewrite Hd.
  rewrite (proj2 (Z.ltb_ge _ _)), (proj2 (Z.ltb_ge _ _)) by lia. simpl.
  fold (lane_freed s a t dc).
  assert (Hs1 : Sinv R (bump C a (-1)) T (lane_freed s a t dc)) by (by apply Sinv_lane_freed).
  assert (Hf1 : sframe k s (lane_freed s a t dc)) by (by eapply sframe_lane_freed).
  assert (Hw1 : ∀ e, e ≠ ts_dc t → work_conserving (lane_freed s a t dc) e).
  { intros e He dc' Hd'. simpl in Hd'. rewrite lookup_insert_ne in Hd' by done.
    destruct (Hb e _ Hd') as [?|Hq]; [by left|right].
    intros b u Hbu Hu. simpl in Hu. destruct (decide (a = b)) as [->|]; simplify_map_eq; [|eauto].
    exact (Hq _ _ Hbu Ht). }
  destruct ((ts_refs t =? 0) && (ts_inFlight t - 1 =? 0)) eqn:Hlast.
  - apply andb_prop in Hlast as [Hr0%Z.eqb_eq Hi0%Z.eqb_eq].
    destruct (remove_active_spec R (bump C a (-1)) T k (lane_freed s a t dc) a
                (t_inFlight t (ts_inFlight t - 1))) as (s2 & -> & [Hs2 Hf2 Hz2 Hb2]); try done.
    { simpl. apply lookup_insert_eq. }
    { intros b u Hne Hu. simpl in Hu. rewrite lookup_insert_ne in Hu by done. by apply (Hz b). }
    simpl. destruct (release_token_spec _ _ _ _ Hs2 (si_T _ _ _ _ Hs)) as (s3 & -> & Hs3 & Ht3 & Hd3 & Hf3).
    pose proof (Hf3 k) as Hf3'.
    exists s3. split; [done|]. split; [done| | |].
    + eapply sframe_trans; [exact Hf1|]. eapply sframe_trans; [exact Hf2|done].
    + intros b u. rewrite Ht3. apply Hz2.
    + intros d dc'. rewrite Hd3, Ht3, (sf_capacity _ _ _ Hf3'). apply Hb2.
  - apply (dispatch_section R (bump C a (-1)) T k (ts_dc t) s); try done.
    intros b u Hu Hr Hau. simpl in Hu. destruct (decide (a = b)) as [->|]; simplify_map_eq; [|by apply (Hz b)].
    rewrite Hr in Hlast. simpl in *. apply Z.eqb_neq in Hlast. lia.
Qed.

(** Taking a granted request out of the heap turns it into a lease. *)
Lemma Sinv_claim R C T s w c :
  Sinv R C T s → s_waiters s !! w = Some c → cw_granted c = true →
  Sinv R (bump C (cw_task c) 1) T (with_waiters s (delete w (s_waiters s))).
Proof.
  intros Hs Hw Hg.
  assert (Hm : ∀ b, msum (granted_for b) (delete w (s_waiters s)) =
                    msum (granted_for b) (s_waiters s) - (if decide (b = cw_task c) then 1 else 0)).
  { intros b. rewrite (msum_delete_Some _ _ _ c) by done. unfold granted_for at 2.
    repeat case_decide; try lia; naive_solver. }
  destruct Hs. split; simpl; try done.
  - intros b u Hb. destruct (si_tasks _ _ Hb). split; simpl; try done.
    + rewrite Hm. unfold bump. lia.
    + intros x Hx. destruct (to_queued x Hx) as (y & Hy & ? & ? & ?). exists y.
      rewrite lookup_delete_ne; [done|]. intros ->. congruence.
  - intros b Hb. destruct (si_none b Hb) as (? & ? & ?). rewrite Hm. unfold bump.
    pose proof (granted_for_nonneg b (delete w (s_waiters s))) as Hn. rewrite Hm in Hn.
    case_decide; lia.
  - intros b. specialize (si_pos b). unfold bump. case_decide; lia.
  - intros x y [_ ?]%lookup_delete_Some. by eapply si_wok.
Qed.

(** ** Dropping a reference *)

(** [ws'] is [ws] with some ungranted requests canceled and closed. *)
Definition cancels (ws ws' : gmap nat chunkWaiter) (l : list nat) : Prop :=
  ∀ x, match ws !! x, ws' !! x with
       | Some c, Some c' => cw_task c' = cw_task c ∧ cw_granted c' = cw_granted c ∧ (x ∉ l → c' = c) ∧
           (cw_canceled c = true → cw_canceled c' = true) ∧ (waiter_ok c → waiter_ok c')
       | None, None => True
       | _, _ => False end.

Lemma cancels_msum ws ws' l a : cancels ws ws' l → msum (granted_for a) ws' = msum (granted_for a) ws.
Proof.
  revert ws'. induction ws as [|k c ws Hk IH] using map_ind; intros ws' Hc.
  - assert (ws' = ∅) as ->; [|done]. apply map_empty. intros x. specialize (Hc x).
    rewrite lookup_empty in Hc. by destruct (ws' !! x).
  - pose proof (Hc k) as Hck. rewrite lookup_insert_eq in Hck.
    destruct (ws' !! k) as [c'|] eqn:Hk'; [|done]. destruct Hck as (Ht & Hg & _).
    rewrite msum_insert_None by done.
    rewrite <- (insert_delete_id ws' k c' Hk'), msum_insert_None by apply lookup_delete_eq.
    rewrite (IH (delete k ws')).
    + unfold granted_for at 1 3. by rewrite Ht, Hg.
    + intros x. specialize (Hc x). destruct (decide (k = x)) as [->|].
      * by rewrite Hk, lookup_delete_eq.
      * rewrite lookup_insert_ne in Hc by done. by rewrite lookup_delete_ne.
Qed.

Lemma cancel_waiters_spec a l : ∀ ws,
  NoDup l → (∀ w, w ∈ l → queued_waiter ws a w) →
  ∃ ws', foldM cancel_waiter ws l = Ok ws' ∧ cancels ws ws' l.
Proof.
  induction l as [|w l IH]; intros ws Hnd Hq; simpl.
  { exists ws. split; [done|]. intros x. by destruct (ws !! x). }
  apply NoDup_cons in Hnd as [Hw Hnd].
  destruct (Hq w) as (c & Hc & Ht & Hg & Hr); [left|].
  set (ws1 := if cw_canceled c then ws else <[w:=mkCW (cw_task c) (cw_granted c) true true]> ws).
  assert (H1 : cancel_waiter ws w = Ok ws1).
  { unfold cancel_waiter, ws1. rewrite Hc, Hr. by destruct (cw_canceled c). }
  rewrite H1. simpl.
  assert (Hne : ∀ x, x ≠ w → ws1 !! x = ws !! x).
  { intros x Hx. unfold ws1. destruct (cw_canceled c); [done|]. by rewrite lookup_insert_ne. }
  assert (Hw1 : ∃ c1, ws1 !! w = Some c1 ∧ cw_task c1 = cw_task c ∧ cw_granted c1 = cw_granted c ∧
            cw_canceled c1 = true ∧ (waiter_ok c → waiter_ok c1)).
  { unfold ws1. destruct (cw_canceled c) eqn:Hcc; [by exists c|]. rewrite lookup_insert_eq.
    eexists. split_and!; try done. intros _. split; simpl; [congruence|auto]. }
  destruct (IH ws1 Hnd) as (ws' & Hf & Hcs).
  { intros x Hx. destruct (Hq x) as (y & Hy & ?); [by right|]. exists y. rewrite Hne; [done|congruence]. }
  exists ws'. split; [done|]. intros x. specialize (Hcs x). destruct (decide (x = w)) as [->|Hx].
  - destruct Hw1 as (c1 & Hl1 & Ht1 & Hg1 & Hc1 & Hok1). rewrite Hl1 in Hcs. rewrite Hc.
    destruct (ws' !! w); [|done]. destruct Hcs as (? & ? & _ & ? & ?). split_and!; [congruence|congruence| |auto|auto].
    intros Hnin. exfalso. apply Hnin. left.
  - rewrite Hne in Hcs by done. destruct (ws !! x), (ws' !! x); try done.
    destruct Hcs as (? & ? & Hsame & ? & ?). split_and!; try done. intros Hnin. apply Hsame. set_solver.
Qed.

(** The file after its last reference is dropped. *)
Definition unreferenced (s : Scheduler) (a : nat) (t : taskState) (ws : gmap nat chunkWaiter) : Scheduler :=
  with_files (put_task (with_waiters s ws) a (t_waiters (t_refs t 0) []))
    (if ts_active t || bool_decide (ts_activating t ≠ None) then s_files s
     else delete (ts_taskID t) (s_files s)).

Lemma Sinv_unreferenced R C T s a t ws :
  Sinv R C T s → s_tasks s !! a = Some t → ts_refs t = 1 →
  cancels (s_waiters s) ws (ts_waiters t) →
  Sinv (bump R a (-1)) C T (unreferenced s a t ws).
Proof.
  intros Hs Ht Hr Hc.
  assert (Hq : ∀ b u w, s_tasks s !! b = Some u → b ≠ a → w ∈ ts_waiters u → queued_waiter ws b w).
  { intros b u w Hu Hb Hw.
    destruct (to_queued _ _ _ _ _ (si_tasks _ _ _ _ Hs _ _ Hu) _ Hw) as (c & Hcw & ? & ? & ?).
    exists c. specialize (Hc w). rewrite Hcw in Hc. destruct (ws !! w) as [c'|]; [|done].
    destruct Hc as (_ & _ & Hsame & _). rewrite Hsame; [done|]. intros Hin.
    destruct (to_queued _ _ _ _ _ (si_tasks _ _ _ _ Hs _ _ Ht) _ Hin) as (? & ? & ? & _). congruence. }
  pose proof (λ b, cancels_msum _ _ _ b Hc) as Hm.
  destruct Hs. pose proof (si_tasks _ _ Ht) as [].
  assert (Hid : s_files s !! ts_taskID t = Some a) by (apply to_files; left; lia).
  split; simpl; try done.
  - intros b u Hb. destruct (decide (a = b)) as [->|Hab]; simplify_map_eq.
    + split; simpl; rewrite ?Hm; try done; [rewrite bump_eq; lia|apply NoDup_nil_2| | |].
      * intros w Hw. by apply elem_of_nil in Hw.
      * intros Hi. by destruct (to_idle Hi).
      * destruct (ts_active t); simpl; [split; auto|].
        case_bool_decide; [split; auto|]. rewrite lookup_delete_eq. split; [done|].
        intros [?|[?|?]]; [lia|done|done].
    + destruct (si_tasks _ _ Hb) as [??????? Hfiles ?].
      split; simpl; rewrite ?Hm; try done.
      * by rewrite bump_ne.
      * intros w Hw. by eapply Hq.
      * rewrite <- Hfiles. destruct (ts_active t || _); [done|].
        rewrite lookup_delete_Some. split; [naive_solver|]. split; [congruence|done].
  - intros b Hb. destruct (decide (a = b)) as [->|]; simplify_map_eq. rewrite Hm, bump_ne by done. auto.
  - intros b. specialize (si_pos b). unfold bump. case_decide; subst; lia.
  - intros id b Hb. assert (Hb' : s_files s !! id = Some b).
    { destruct (ts_active t || _); [done|]. by apply lookup_delete_Some in Hb as [_ ?]. }
    destruct (si_files _ _ Hb') as (u & Hu & Hiu).
    destruct (decide (a = b)) as [->|]; simplify_map_eq; eauto.
  - intros e. rewrite (msum_insert_Some _ _ _ t) by done. unfold dc_load in *. simpl.
    replace (dcload e (t_waiters (t_refs t 0) [])) with (dcload e t) by done. rewrite si_load. lia.
  - intros e dc' He. destruct (si_dcs _ _ He) as [? Hin]. split; [done|].
    intros b. rewrite Hin. destruct (decide (a = b)) as [->|]; simplify_map_eq; [|done].
    split; intros (u & ? & ? & ?); simplify_eq; eauto.
  - rewrite (msum_insert_Some _ _ _ t) by done.
    replace (act1 (t_waiters (t_refs t 0) [])) with (act1 t) by done. lia.
  - intros x c' Hx. specialize (Hc x). rewrite Hx in Hc. destruct (s_waiters s !! x) as [c|] eqn:Hcx; [|done].
    apply Hc. by eapply si_wok.
Qed.

(** A reference count that stays positive. *)
Lemma Sinv_refs R C T s a t z :
  Sinv R C T s → s_tasks s !! a = Some t → s_files s !! ts_taskID t = Some a →
  0 < ts_refs t + z →
  Sinv (bump R a z) C T (put_task s a (t_refs t (ts_refs t + z))).
Proof.
  intros Hs Ht Hid Hz. destruct Hs. pose proof (si_tasks _ _ Ht) as [].
  split; simpl; try done.
  - intros b u Hb. destruct (decide (a = b)) as [->|Hab]; simplify_map_eq.
    + split; simpl; rewrite ?bump_eq; try done; try lia.
      rewrite Hid. split; [by left|done].
    + destruct (si_tasks _ _ Hb). split; simpl; try done. by rewrite bump_ne.
  - intros b Hb. destruct (decide (a = b)) as [->|]; simplify_map_eq. rewrite bump_ne by done. auto.
  - intros b. specialize (si_pos b). unfold bump. case_decide; subst; lia.
  - intros id b Hb. destruct (si_files _ _ Hb) as (u & Hu & Hiu).
    destruct (decide (a = b)) as [->|]; simplify_map_eq; eauto.
  - intros e. rewrite (msum_insert_Some _ _ _ t) by done. unfold dc_load in *. simpl.
    replace (dcload e (t_refs t (ts_refs t + z))) with (dcload e t) by done. rewrite si_load. lia.
  - intros e dc' He. destruct (si_dcs _ _ He) as [? Hin]. split; [done|].
    intros b. rewrite Hin. destruct (decide (a = b)) as [->|]; simplify_map_eq; [|done].
    split; intros (u & ? & ? & ?); simplify_eq; eauto.
  - rewrite (msum_insert_Some _ _ _ t) by done.
    replace (act1 (t_refs t (ts_refs t + z))) with (act1 t) by done. lia.
Qed.

(** Rewriting a file without touching its queue or the data centres. *)
Lemma busy_put_task s a t t' :
  s_tasks s !! a = Some t → (ts_waiters t = [] → ts_waiters t' = []) →
  all_busy s → all_busy (put_task s a t').
Proof.
  intros Ht Hq Hb d dc Hd. destruct (Hb d dc Hd) as [?|Hn]; [by left|right].
  intros b u Hin Hu. simpl in Hu. destruct (decide (a = b)) as [->|]; simplify_map_eq; eauto.
Qed.

Lemma sframe_put_task k s a t t' :
  s_tasks s !! a = Some t → ts_taskID t' = ts_taskID t → ts_dc t' = ts_dc t →
  ts_activating t' = ts_activating t → sframe k s (put_task s a t').
Proof.
  intros Ht ???. pose proof (sframe_refl k s) as []. split; simpl; try done.
  intros b. destruct (decide (a = b)) as [->|]; simplify_map_eq; [done|apply sf_tasks0].
Qed.

Lemma sframe_unreferenced k s a t ws :
  s_tasks s !! a = Some t → cancels (s_waiters s) ws (ts_waiters t) →
  sframe k s (unreferenced s a t ws).
Proof.
  intros Ht Hc. pose proof (sframe_refl k s) as []. split; simpl; try done.
  - intros b. destruct (decide (a = b)) as [->|]; simplify_map_eq; [done|apply sf_tasks0].
  - intros w _. specialize (Hc w). destruct (s_waiters s !! w), (ws !! w); try done. by destruct Hc as (? & _ & _ & ? & _).
Qed.

Lemma release_task_spec R C T k s a :
  Sinv R C T s → no_zombie s → all_busy s → 1 ≤ R a →
  ∃ s' rel, releaseTask s a = Ok (s', rel) ∧
    section_ok (bump R a (-1)) C (T + if rel : bool then 1 else 0) k s s'.
Proof.
  intros Hs Hz Hb HR.
  destruct (s_tasks s !! a) as [t|] eqn:Ht.
  2: { destruct (si_none _ _ _ _ Hs _ Ht) as (? & _). lia. }
  pose proof (si_tasks _ _ _ _ Hs _ _ Ht) as [Hr _ Hnd Hq Hidle _ _ Hfiles _].
  assert (Hid : s_files s !! ts_taskID t = Some a) by (apply Hfiles; left; lia).
  unfold releaseTask, task at 1. rewrite Ht. simpl.
  rewrite bool_decide_true by done. rewrite (proj2 (Z.ltb_lt _ _)) by lia. simpl.
  destruct (Z.eqb_spec (ts_refs t - 1) 0) as [H0|H0]; simpl.
  2: { eexists _, false. split; [done|]. rewrite Z.add_0_r. split.
       - replace (ts_refs t - 1) with (ts_refs t + -1) by lia. apply Sinv_refs; try done. lia.
       - by eapply sframe_put_task.
       - intros b u Hu Hru. simpl in Hu. destruct (decide (a = b)) as [->|]; simplify_map_eq; by apply (Hz b).
       - by eapply busy_put_task. }
  destruct (cancel_waiters_spec a (ts_waiters t) (s_waiters s) Hnd Hq) as (ws & -> & Hc). simpl.
  pose proof (Sinv_unreferenced _ _ _ _ _ _ ws Hs Ht ltac:(lia) Hc) as Hs1.
  pose proof (sframe_unreferenced k _ _ _ _ Ht Hc) as Hf1.
  unfold unreferenced in Hs1, Hf1. replace (ts_refs t - 1) with 0 in * by lia.
  assert (Hb1 : ∀ fs, all_busy (with_files (put_task (with_waiters s ws) a (t_waiters (t_refs t 0) [])) fs)).
  { intros fs d dc Hd. destruct (Hb d dc Hd) as [?|Hn]; [by left|right].
    intros b u Hin Hu. simpl in Hu. destruct (decide (a = b)) as [->|]; simplify_map_eq; eauto. }
  assert (Hz1 : ∀ b u, b ≠ a → (<[a:=t_waiters (t_refs t 0) []]> (s_tasks s)) !! b = Some u →
            ts_refs u = 0 → ts_active u = true → 0 < ts_inFlight u).
  { intros b u Hne Hu. rewrite lookup_insert_ne in Hu by done. by apply (Hz b). }
  destruct (ts_active t) eqn:Ha; simpl in *.
  - destruct (Z.eqb_spec (ts_inFlight t) 0) as [Hi|Hi].
    + match type of Hs1 with Sinv _ _ _ ?s1 =>
        destruct (remove_active_spec (bump R a (-1)) C T k s1 a (t_waiters (t_refs t 0) []))
          as (s2 & Hrm & [Hs2 Hf2 Hz2 Hb2]); try done end.
      { simpl. apply lookup_insert_eq. }
      { intros e _. apply (Hb1 (s_files s)). }
      change (with_files _ (s_files s)) with (put_task (with_waiters s ws) a (t_waiters (t_refs t 0) [])) in *.
      rewrite Hrm. exists s2, true. split; [done|]. split; try done. by eapply sframe_trans.
    + eexists _, false. split; [done|]. rewrite Z.add_0_r. split; [exact Hs1|exact Hf1| |exact (Hb1 _)].
      intros b u Hu Hru Hau. destruct (decide (b = a)) as [->|]; [|by eapply Hz1].
      simpl in Hu. rewrite lookup_insert_eq in Hu. simplify_eq. simpl.
      pose proof (inFlight_nonneg _ _ _ _ _ _ Hs Ht). lia.
  - assert (Hz2 : ∀ fs, no_zombie (with_files (put_task (with_waiters s ws) a (t_waiters (t_refs t 0) [])) fs)).
    { intros fs b u Hu Hru Hau. destruct (decide (b = a)) as [->|]; [|by eapply Hz1].
      simpl in Hu. rewrite lookup_insert_eq in Hu. simplify_eq. simpl in *. congruence. }
    destruct (ts_activating t) eqn:Hav; simpl in *.
    + eexists _, false. split; [done|]. rewrite Z.add_0_r. split; [exact Hs1|exact Hf1|exact (Hz2 _)|exact (Hb1 _)].
    + eexists _, false. split; [done|]. rewrite Z.add_0_r. split; [exact Hs1|exact Hf1|exact (Hz2 _)|exact (Hb1 _)].
Qed.

(** ** Activating a file *)

Lemma Sinv_closed R C T s x : Sinv R C T s → Sinv R C T (with_closed s x).
Proof. intros []. split; simpl; try done. intros a t Ht. eapply TaskOk_ext with (s := s); auto. Qed.

Lemma Sinv_next R C T s n : (s_next s ≤ n)%nat → Sinv R C T s → Sinv R C T (with_next s n).
Proof.
  intros Hn []. split; simpl; try done. intros a t Ht.
  destruct (si_tasks a t Ht). split; simpl; try done. lia.
Qed.

Lemma Sinv_set_activating R C T s a t o :
  Sinv R C T s → s_tasks s !! a = Some t → ts_active t = false → 0 < ts_refs t →
  Sinv R C T (put_task s a (t_activating t o)).
Proof.
  intros Hs Ht Ha Hr. eapply Sinv_put_task; eauto.
  destruct (si_tasks _ _ _ _ Hs _ _ Ht). split; simpl; try done; [congruence|].
  rewrite to_files. split; intros _; auto.
Qed.

Definition activated (s : Scheduler) (a : nat) (t : taskState) : Scheduler :=
  let dc := default (mkDC [] 0) (s_dcs s !! ts_dc t) in
  put_dc (put_task s a (t_active t true)) (ts_dc t) (mkDC (dc_tasks dc ++ [a]) (dc_inFlight dc)).

Lemma Sinv_activated R C T s a t :
  Sinv R C T s → s_tasks s !! a = Some t → ts_active t = false → 0 < ts_refs t →
  ts_activating t = None → 1 ≤ T → Sinv R C (T - 1) (activated s a t).
Proof.
  intros Hs Ht Ha Hr Hav HT.
  assert (Hload : dc_load s (ts_dc t) = dc_inFlight (default (mkDC [] 0) (s_dcs s !! ts_dc t))).
  { unfold dc_load. by destruct (s_dcs s !! ts_dc t). }
  assert (Hdin : NoDup (dc_tasks (default (mkDC [] 0) (s_dcs s !! ts_dc t))) ∧ ∀ b,
            b ∈ dc_tasks (default (mkDC [] 0) (s_dcs s !! ts_dc t)) ↔
            ∃ u, s_tasks s !! b = Some u ∧ ts_active u = true ∧ ts_dc u = ts_dc t).
  { destruct (s_dcs s !! ts_dc t) as [dc|] eqn:Hd; simpl; [by apply (si_dcs _ _ _ _ Hs)|].
    split; [apply NoDup_nil_2|]. intros b. split; [intros []%elem_of_nil|].
    intros (u & Hu & Hau & He).
    destruct (to_active _ _ _ _ _ (si_tasks _ _ _ _ Hs _ _ Hu) Hau) as [_ (dc & Hd' & _)]. congruence. }
  unfold activated. set (dc := default _ _) in *. destruct Hdin as [Hnd Hin].
  destruct Hs. pose proof (si_tasks _ _ Ht) as [].
  split; simpl; try done; [| | | | | |lia].
  - intros b u Hb. destruct (decide (a = b)) as [->|Hab]; simplify_map_eq.
    + split; simpl; try done.
      * intros _. split; [done|]. rewrite lookup_insert_eq. eexists. split; [done|]. simpl. set_solver.
      * rewrite to_files. split; intros _; auto.
    + destruct (si_tasks _ _ Hb) as [????? Hact0 ???]. split; simpl; try done.
      intros Hi'. destruct (Hact0 Hi') as [? (x & Hx & Hbx)]. split; [done|].
      destruct (decide (ts_dc t = ts_dc u)) as [He|]; [|rewrite lookup_insert_ne by done; eauto].
      rewrite He, lookup_insert_eq. eexists. split; [done|]. simpl. apply elem_of_app. left.
      apply Hin. eauto.
  - intros b Hb. apply si_none. destruct (decide (a = b)) as [->|]; simplify_map_eq; done.
  - intros id b Hb. destruct (si_files _ _ Hb) as (u & Hu & Hiu).
    destruct (decide (a = b)) as [->|]; simplify_map_eq; eauto.
  - intros e. rewrite (msum_insert_Some _ _ _ t) by done.
    replace (dcload e (t_active t true)) with (dcload e t) by done.
    specialize (si_load e). unfold dc_load in *. simpl. rewrite lookup_insert.
    case_decide as He; [|lia]. subst e. simpl. lia.
  - intros e dc' He. destruct (decide (ts_dc t = e)) as [He'|He'].
    + rewrite He', lookup_insert_eq in He. injection He as <-. simpl. split.
      * apply NoDup_app. split_and!; [done| |by apply NoDup_singleton].
        intros x Hx ->%list_elem_of_singleton. apply Hin in Hx as (u & ? & ? & ?). congruence.
      * intros b. rewrite elem_of_app, Hin, list_elem_of_singleton.
        destruct (decide (a = b)) as [->|]; simplify_map_eq; [naive_solver|]. naive_solver.
    + rewrite lookup_insert_ne in He by done. destruct (si_dcs _ _ He) as [? Hin']. split; [done|].
      intros b. rewrite Hin'. destruct (decide (a = b)) as [->|]; simplify_map_eq; [naive_solver|done].
  - rewrite (msum_insert_Some _ _ _ t) by done. unfold act1 at 2 3. simpl. rewrite Ha. lia.
Qed.

Lemma complete_activation_spec R C T k s a t ready success :
  Sinv R C T s → no_zombie s → all_busy s → 1 ≤ R a →
  s_tasks s !! a = Some t → ts_activating t = Some ready → ready ∉ s_closed s →
  (success = true → 1 ≤ T) →
  ∃ s1, completeActivation s a ready success = Ok (with_closed s1 ({[ready]} ∪ s_closed s), false) ∧
    section_ok R C (T - if success then 1 else 0) k (put_task s a (t_activating t None)) s1.
Proof.
  intros Hs Hz Hb HR Ht Hav Hcl HT.
  pose proof (si_tasks _ _ _ _ Hs _ _ Ht) as [Hr _ _ _ Hidle Hact _ Hfiles _].
  assert (Hid : s_files s !! ts_taskID t = Some a) by (apply Hfiles; left; lia).
  assert (Ha : ts_active t = false).
  { destruct (ts_active t) eqn:Ha; [|done]. destruct (Hact eq_refl). congruence. }
  unfold completeActivation, task. rewrite Ht. simpl.
  rewrite bool_decide_true by done. rewrite bool_decide_true by done. simpl.
  set (s0 := put_task s a (t_activating t None)).
  assert (Ht0 : s_tasks s0 !! a = Some (t_activating t None)) by (simpl; apply lookup_insert_eq).
  assert (Hs0 : Sinv R C T s0) by (apply Sinv_set_activating; try done; lia).
  assert (Hz0 : no_zombie s0).
  { intros b u Hu Hru Hau. simpl in Hu. destruct (decide (a = b)) as [->|]; simplify_map_eq; by apply (Hz b). }
  assert (Hb0 : all_busy s0) by (by eapply busy_put_task).
  destruct success.
  2: { exists s0. simpl. rewrite bool_decide_false by done. split; [done|].
       rewrite Z.sub_0_r. split; try done. apply sframe_refl. }
  pose proof (Sinv_activated _ _ _ _ _ _ Hs0 Ht0 Ha ltac:(simpl; lia) eq_refl (HT eq_refl)) as Hs1.
  destruct (dispatch_section R C (T - 1) k (ts_dc t) s0 (activated s0 a (t_activating t None)))
    as (s2 & Hd2 & Hok2); [done| | | |].
  - pose proof (sframe_refl k s0) as []. split; simpl; try done.
    + intros b. destruct (decide (a = b)) as [->|]; simplify_map_eq; [done|].
      specialize (sf_tasks0 b). simpl in sf_tasks0. by rewrite lookup_insert_ne in sf_tasks0.
    + intros e. unfold dc_load. simpl. rewrite lookup_insert.
      case_decide; [subst e|lia]. destruct (s_dcs s !! ts_dc t); simpl; lia.
  - intros b u Hu Hru Hau. simpl in Hu. destruct (decide (a = b)) as [->|]; simplify_map_eq.
    + lia.
    + by apply (Hz b).
  - intros e He dc' Hd'. simpl in Hd'. rewrite lookup_insert_ne in Hd' by done.
    destruct (Hb e _ Hd') as [?|Hq]; [by left|right].
    intros b u Hbu Hu. simpl in Hu. destruct (decide (a = b)) as [->|]; simplify_map_eq; [|eauto].
    exact (Hq _ _ Hbu Ht).
  - exists s2. unfold dcLocked.
    assert (Hst : activated s0 a (t_activating t None) =
      (let '(s', dc) := dcLocked (put_task s0 a (t_active (t_activating t None) true)) (ts_dc t) in
       put_dc s' (ts_dc t) (mkDC (dc_tasks dc ++ [a]) (dc_inFlight dc)))).
    { unfold activated, dcLocked. simpl. destruct (s_dcs s !! ts_dc t); [done|].
      unfold put_dc, with_dcs. simpl. by rewrite !insert_insert_eq. }
    unfold dcLocked in Hst. simpl in *.
    destruct (s_dcs s !! ts_dc t); simpl in *; rewrite <- Hst, Hd2; simpl;
      destruct Hok2 as [? Hf ? ?]; rewrite (sf_closed _ _ _ Hf); simpl;
      rewrite bool_decide_false by done; done.
Qed.

(** ** Acquiring a file *)

Definition registered (s : Scheduler) (id : string) (dc : Z) : Scheduler :=
  with_next
    (with_files (put_task s (s_next s) (mkTask id dc 1 false None 0 []))
       (<[id := s_next s]> (s_files s))) (S (s_next s)).

Lemma fresh_task R C T s : Sinv R C T s → s_tasks s !! s_next s = None.
Proof.
  intros Hs. destruct (s_tasks s !! s_next s) as [t|] eqn:Ht; [|done].
  pose proof (to_fresh _ _ _ _ _ (si_tasks _ _ _ _ Hs _ _ Ht)). lia.
Qed.

Lemma Sinv_registered R C T s id dc :
  Sinv R C T s → s_files s !! id = None →
  Sinv (bump R (s_next s) 1) C T (registered s id dc).
Proof.
  intros Hs Hid. pose proof (fresh_task _ _ _ _ Hs) as Hfr. destruct Hs.
  destruct (si_none _ Hfr) as (HR0 & HC0 & Hm0).
  split; simpl; try done.
  - intros b u Hb. destruct (decide (s_next s = b)) as [<-|Hne]; simplify_map_eq.
    + split; simpl; try done; try lia; [rewrite bump_eq; lia|apply NoDup_nil_2| |].
      * intros w Hw. by apply elem_of_nil in Hw.
      * rewrite lookup_insert_eq. split; [lia|done].
    + destruct (si_tasks _ _ Hb). split; simpl; try done; [by rewrite bump_ne| |lia].
      rewrite <- to_files. destruct (decide (id = ts_taskID u)) as [->|]; simplify_map_eq; [|done].
      split; congruence.
  - intros b Hb. destruct (decide (s_next s = b)) as [<-|]; simplify_map_eq. rewrite bump_ne by done. auto.
  - intros b. specialize (si_pos b). unfold bump. case_decide; lia.
  - intros id' b Hb. destruct (decide (id = id')) as [->|]; simplify_map_eq; [eauto|].
    destruct (si_files _ _ Hb) as (u & Hu & Hi).
    destruct (decide (s_next s = b)) as [<-|]; simplify_map_eq; eauto.
  - intros e. rewrite msum_insert_None by done. unfold dcload at 1. simpl.
    specialize (si_load e). unfold dc_load in *. simpl. destruct (dc =? e); lia.
  - intros e dc' He. destruct (si_dcs _ _ He) as [? Hin]. split; [done|].
    intros b. rewrite Hin. destruct (decide (s_next s = b)) as [<-|]; simplify_map_eq; [|done].
    split; intros (u & ? & ? & ?); simplify_eq; done.
  - rewrite msum_insert_None by done. unfold act1 at 1. simpl. lia.
Qed.

(** What [acquireSection] does to the file table: files keep their identity,
    and only the one it activates gets an [activating] channel. *)
Definition acquire_frame (s s' : Scheduler) (a : nat) (o : acquire_outcome) : Prop :=
  s_waiters s' = s_waiters s ∧ s_closed s' = s_closed s ∧ s_fileTokens s' = s_fileTokens s ∧
  s_capacity s' = s_capacity s ∧ s_dcs s' = s_dcs s ∧ (s_next s ≤ s_next s')%nat ∧
  (∀ b, b ≠ a → s_tasks s' !! b = s_tasks s !! b) ∧
  (∀ t, s_tasks s !! a = Some t → ∃ t', s_tasks s' !! a = Some t' ∧
     ts_taskID t' = ts_taskID t ∧ ts_dc t' = ts_dc t ∧
     match o with
     | AcqActivate _ ready => ts_activating t = None
     | _ => ts_activating t' = ts_activating t
     end).

Definition acquire_post (R C : nat → Z) (T : Z) (s : Scheduler) (id : string) (dc : Z)
    (reg : option nat) (s' : Scheduler) (o : acquire_outcome) : Prop :=
  match o with
  | AcqChangedDC _ => s' = s ∧ reg = None
  | AcqActive a | AcqWaitFor a _ | AcqActivate a _ =>
      Sinv (match reg with None => bump R a 1 | Some _ => R end) C T s' ∧
      no_zombie s' ∧ all_busy s' ∧ acquire_frame s s' a o ∧
      (∀ a0, reg = Some a0 → a = a0) ∧
      ∃ t', s_tasks s' !! a = Some t' ∧ ts_taskID t' = id ∧ ts_dc t' = dc ∧
        match o with
        | AcqActive _ => ts_active t' = true
        | AcqWaitFor _ ready => ts_activating t' = Some ready ∧ is_Some (s_tasks s !! a)
        | AcqActivate _ ready => ts_activating t' = Some ready ∧ (s_next s ≤ ready < s_next s')%nat
        | AcqChangedDC _ => False
        end
  end.

(** The file referenced by the caller: found or freshly registered. *)
Lemma acquire_entry R C T s id dc reg :
  Sinv R C T s → no_zombie s → all_busy s →
  (∀ a, reg = Some a → 1 ≤ R a ∧ ∃ t, s_tasks s !! a = Some t ∧ ts_taskID t = id ∧ ts_dc t = dc) →
  (∃ a t, reg = None ∧ s_files s !! id = Some a ∧ s_tasks s !! a = Some t ∧ ts_dc t ≠ dc) ∨
  ∃ s1 a t, Sinv (match reg with None => bump R a 1 | Some _ => R end) C T s1 ∧
    no_zombie s1 ∧ all_busy s1 ∧ (∀ a0, reg = Some a0 → a = a0) ∧
    s_tasks s1 !! a = Some t ∧ ts_taskID t = id ∧ ts_dc t = dc ∧ 0 < ts_refs t ∧
    s1 = (let '(s0, a0) := match s_files s !! id with
                   | Some a => (s, a)
                   | None => (with_next (with_files (put_task s (s_next s) (mkTask id dc 0 false None 0 []))
                                (<[id := s_next s]> (s_files s))) (S (s_next s)), s_next s) end in
          put_task s0 a t) ∧
    match s_files s !! id with
    | Some a' => a' = a ∧ ∃ t0, s_tasks s !! a = Some t0 ∧
        t = match reg with None => t_refs t0 (ts_refs t0 + 1) | Some _ => t0 end
    | None => a = s_next s ∧ reg = None ∧ t = mkTask id dc 1 false None 0 []
    end.
Proof.
  intros Hs Hz Hb Hreg. destruct (s_files s !! id) as [a|] eqn:Hid.
  - destruct (si_files _ _ _ _ Hs _ _ Hid) as (t0 & Ht0 & Hi0).
    destruct reg as [a0|].
    + destruct (Hreg a0 eq_refl) as (HR & t & Ht & Hti & Htd).
      pose proof (si_tasks _ _ _ _ Hs _ _ Ht) as [Hr _ _ _ _ _ _ Hf _].
      assert (s_files s !! ts_taskID t = Some a0) by (apply Hf; lia).
      assert (a = a0) as -> by congruence. simplify_eq.
      right. exists s, a0, t0.
      assert (put_task s a0 t0 = s) as Heq.
      { destruct s. unfold put_task, with_tasks. simpl in *. f_equal. by apply insert_id. }
      rewrite Heq. split_and!; try done; [intros; congruence|lia|eauto].
    + destruct (decide (ts_dc t0 = dc)) as [Hd|Hd]; [right|left; by exists a, t0].
      pose proof (refs_nonneg _ _ _ _ _ _ Hs Ht0).
      exists (put_task s a (t_refs t0 (ts_refs t0 + 1))), a, (t_refs t0 (ts_refs t0 + 1)).
      split_and!; try done; simpl; [| | | |lia|eauto].
      * apply Sinv_refs; try done; [by rewrite Hi0|lia].
      * intros b u Hu Hru. simpl in Hu. destruct (decide (a = b)) as [->|]; simplify_map_eq; [lia|by apply (Hz b)].
      * by eapply busy_put_task.
      * apply lookup_insert_eq.
  - assert (reg = None) as ->.
    { destruct reg as [a0|]; [|done]. destruct (Hreg a0 eq_refl) as (HR & t & Ht & Hti & Htd).
      pose proof (si_tasks _ _ _ _ Hs _ _ Ht) as [Hr _ _ _ _ _ _ Hf _].
      assert (s_files s !! ts_taskID t = Some a0) by (apply Hf; lia). congruence. }
    right. pose proof (fresh_task _ _ _ _ Hs) as Hfr.
    exists (registered s id dc), (s_next s), (mkTask id dc 1 false None 0 []).
    split_and!; try done; simpl.
    + by apply Sinv_registered.
    + intros b u Hu. simpl in Hu. destruct (decide (s_next s = b)) as [<-|]; simplify_map_eq; [done|by apply (Hz b)].
    + intros d x Hd. destruct (Hb d x Hd) as [?|Hq]; [by left|right].
      intros b u Hin Hu. simpl in Hu. destruct (decide (s_next s = b)) as [<-|]; simplify_map_eq; eauto.
    + apply lookup_insert_eq.
    + unfold registered, put_task, with_tasks. simpl. by rewrite insert_insert_eq.
Qed.

Lemma acquire_section_spec R C T s id dc reg :
  Sinv R C T s → no_zombie s → all_busy s →
  (∀ a, reg = Some a → 1 ≤ R a ∧ ∃ t, s_tasks s !! a = Some t ∧ ts_taskID t = id ∧ ts_dc t = dc) →
  ∃ s' o, acquireSection s id dc reg = Ok (s', o) ∧ acquire_post R C T s id dc reg s' o.
Proof.
  intros Hs Hz Hb Hreg.
  destruct (acquire_entry R C T s id dc reg Hs Hz Hb Hreg)
    as [(a & t & -> & Hid & Ht & Hd)|(s1 & a & t & Hs1 & Hz1 & Hb1 & Hra & Ht & Hti & Htd & Hr & Heq & Hold)].
  { exists s, (AcqChangedDC a). unfold acquireSection. rewrite Hid. unfold task. rewrite Ht. simpl.
    rewrite (proj2 (Z.eqb_neq _ _)) by done. done. }
  assert (Hrun : acquireSection s id dc reg =
    (if ts_active t then Ok (s1, AcqActive a)
     else match ts_activating t with
          | Some ready => Ok (s1, AcqWaitFor a ready)
          | None => Ok (with_next (put_task s1 a (t_activating t (Some (s_next s1)))) (S (s_next s1)),
                        AcqActivate a (s_next s1))
          end)).
  { unfold acquireSection. destruct (s_files s !! id) as [a'|].
    - destruct Hold as (-> & t0 & Ht0 & Hto). unfold task. rewrite Ht0. simpl.
      assert (ts_dc t0 = dc) as -> by (rewrite Hto in Htd; by destruct reg).
      rewrite Z.eqb_refl. simpl. assert (s_next s1 = s_next s) as -> by (by rewrite Heq). rewrite <- Hto, <- Heq. done.
    - destruct Hold as (-> & -> & Hto). unfold task. simpl. rewrite lookup_insert_eq. simpl.
      rewrite Z.eqb_refl. simpl. rewrite Heq, Hto. simpl. done. }
  rewrite Hrun. clear Hrun.
  assert (Hframe : ∀ o, (∀ t0, s_tasks s !! a = Some t0 → ts_activating t0 = ts_activating t) →
            match o with AcqActivate _ _ => False | _ => True end → acquire_frame s s1 a o).
  { intros o Hav Ho. unfold acquire_frame. rewrite Heq. destruct (s_files s !! id) as [a'|] eqn:Hid.
    - destruct Hold as (-> & t0 & Ht0 & Hto). simpl. split_and!; try done.
      + intros b Hne. by rewrite lookup_insert_ne.
      + intros t1 Ht1. exists t. rewrite lookup_insert_eq. simplify_eq.
        destruct o; try done; destruct reg; by split_and!.
    - destruct Hold as (-> & -> & Hto). simpl. split_and!; try done; [lia| |].
      + intros b Hne. by rewrite !lookup_insert_ne.
      + intros t1 Ht1. rewrite (fresh_task _ _ _ _ Hs) in Ht1. done. }
  assert (Hav : ∀ t0, s_tasks s !! a = Some t0 → ts_activating t0 = ts_activating t).
  { intros t0 Ht0. destruct (s_files s !! id) as [a'|].
    - destruct Hold as (-> & t1 & Ht1 & Hto). simplify_eq. by destruct reg.
    - destruct Hold as (-> & -> & Hto). rewrite (fresh_task _ _ _ _ Hs) in Ht0. done. }
  destruct (ts_active t) eqn:Ha; [|destruct (ts_activating t) as [ready|] eqn:Hat].
  - eexists _, _. split; [done|]. split_and!; try done; [by apply Hframe|]. eauto.
  - eexists _, _. split; [done|]. split_and!; try done; [by apply Hframe|].
    exists t. split_and!; try done. destruct (s_files s !! id) as [a'|].
    + destruct Hold as (-> & t1 & Ht1 & _). eauto.
    + destruct Hold as (_ & _ & ->). done.
  - eexists _, _. split; [done|].
    destruct (Hframe (AcqChangedDC a) Hav I) as (Hf1 & Hf2 & Hf3 & Hf4 & Hf5 & Hf6 & Hf7 & Hf8).
    split_and!; try done.
    + apply Sinv_next; [simpl; lia|]. by apply Sinv_set_activating.
    + intros b u Hu Hru Hau. simpl in Hu. destruct (decide (a = b)) as [->|]; simplify_map_eq; by apply (Hz1 b).
    + intros d x Hd. by apply (busy_put_task s1 a t (t_activating t (Some (s_next s1))) Ht (λ H, H) Hb1 d x).
    + unfold acquire_frame. simpl. split_and!; try done; [lia| |].
      * intros b Hne. by rewrite lookup_insert_ne, Hf7.
      * intros t0 Ht0. destruct (Hf8 t0 Ht0) as (t' & Ht' & ? & ? & ?). rewrite lookup_insert_eq. simplify_eq.
        eexists. split; [done|]. simpl. split_and!; try done. by rewrite (Hav _ Ht0).
    + eexists. simpl. rewrite lookup_insert_eq. split_and!; try done; simpl; lia.
Qed.

(** ** Chunk requests *)

Lemma Sinv_enqueue R C T s a t w :
  Sinv R C T s → s_tasks s !! a = Some t → ts_active t = true → 0 < ts_refs t →
  s_waiters s !! w = None →
  Sinv R C T (put_task (with_waiters s (<[w := mkCW a false false false]> (s_waiters s))) a
                (t_waiters t (ts_waiters t ++ [w]))).
Proof.
  intros Hs Ht Ha Hr Hw. set (ws := <[w := _]> (s_waiters s)).
  assert (Hm : ∀ b, msum (granted_for b) ws = msum (granted_for b) (s_waiters s)).
  { intros b. unfold ws. rewrite msum_insert_None by done. unfold granted_for at 1. simpl.
    rewrite decide_False by naive_solver. lia. }
  assert (Hq : ∀ b x, queued_waiter (s_waiters s) b x → queued_waiter ws b x).
  { intros b x (c & Hc & ?). exists c. unfold ws. rewrite lookup_insert_ne; [done|congruence]. }
  assert (Hs' : Sinv R C T (with_waiters s ws)).
  { destruct Hs. split; simpl; try done.
    - intros b u Hb. destruct (si_tasks _ _ Hb). split; simpl; rewrite ?Hm; auto.
    - intros b Hb. rewrite Hm. auto.
    - intros x y [[<- <-]|[_ ?]]%lookup_insert_Some; [by split|by eapply si_wok]. }
  assert (Hnin : w ∉ ts_waiters t).
  { intros Hx. destruct (to_queued _ _ _ _ _ (si_tasks _ _ _ _ Hs _ _ Ht) _ Hx) as (c & Hc & _). congruence. }
  eapply Sinv_put_task; [exact Hs'|done| |done..].
  destruct (si_tasks _ _ _ _ Hs' _ _ Ht). split; simpl in *; try done.
  - apply NoDup_app. split_and!; [done| |by apply NoDup_singleton].
    by intros x Hx ->%list_elem_of_singleton.
  - intros x [Hx| ->%list_elem_of_singleton]%elem_of_app; [by apply to_queued|].
    exists (mkCW a false false false). unfold ws. by rewrite lookup_insert_eq.
  - congruence.
  - lia.
Qed.

Lemma acquire_chunk_spec R C T s a k ctx_err :
  Sinv R C T s → no_zombie s → all_busy s → is_Some (s_tasks s !! a) → s_waiters s !! k = None →
  ∃ s' ok, acquireChunkSection s a k ctx_err = Ok (s', ok) ∧ section_ok R C T (Some k) s s' ∧
    match s_waiters s' !! k with
    | Some c => ok = true ∧ cw_task c = a
    | None => ok = false
    end.
Proof.
  intros Hs Hz Hb [t Ht] Hk. unfold acquireChunkSection, task. rewrite Ht. simpl.
  assert (Hno : section_ok R C T (Some k) s s) by (split; auto using sframe_refl).
  destruct ctx_err; [exists s, false; by rewrite Hk|].
  destruct (ts_active t) eqn:Ha; simpl; [|exists s, false; by rewrite Hk].
  destruct (Z.ltb_spec (ts_refs t) 1) as [Hr|Hr]; [exists s, false; by rewrite Hk|].
  set (s1 := put_task _ _ _).
  assert (Hs1 : Sinv R C T s1) by (apply Sinv_enqueue; try done; lia).
  destruct (dispatch_spec R C T (ts_dc t) s1 Hs1) as (s' & Hd & Hs' & Hp). rewrite Hd. simpl.
  assert (Hf1 : sframe (Some k) s s1).
  { pose proof (sframe_refl (Some k) s) as []. split; simpl; try done.
    - intros b. destruct (decide (a = b)) as [->|]; simplify_map_eq; [done|apply sf_tasks0].
    - intros w Hw. rewrite lookup_insert_ne by congruence. by apply sf_waiters0. }
  exists s', true. split; [done|]. split; [split|].
  - done.
  - eapply sframe_trans; [exact Hf1|]. exact (dframe_sframe (Some k) _ _ _ (dp_frame _ _ _ Hp)).
  - eapply dframe_no_zombie; [exact (dp_frame _ _ _ Hp)|].
    intros b u Hu Hru Hau. simpl in Hu. destruct (decide (a = b)) as [->|]; simplify_map_eq; by apply (Hz b).
  - eapply dispatch_all_busy; [exact Hs1|exact Hp|]. intros e He dc Hd'.
    destruct (Hb e dc Hd') as [?|Hq]; [by left|right].
    intros b u Hin Hu. simpl in Hu. destruct (decide (a = b)) as [->|]; simplify_map_eq; [|eauto].
    destruct (si_dcs _ _ _ _ Hs _ _ Hd') as [_ Hx]. apply Hx in Hin as (? & ? & _ & ?). congruence.
  - pose proof (df_waiters _ _ _ (dp_frame _ _ _ Hp) k) as H. simpl in H.
    rewrite lookup_insert_eq in H. destruct (s_waiters s' !! k); [|done]. by destruct H.
Qed.

(** A granted request, taken out of the heap and released at once. *)
Lemma claim_release_spec R C T k s c :
  Sinv R C T s → no_zombie s → all_busy s → s_waiters s !! k = Some c → cw_granted c = true →
  section_ok R (bump C (cw_task c) 1) T (Some k) s (with_waiters s (delete k (s_waiters s))) ∧
  ∃ s', releaseChunkLocked (with_waiters s (delete k (s_waiters s))) (cw_task c) = Ok s' ∧
    section_ok R C T (Some k) s s' ∧ s_waiters s' !! k = None.
Proof.
  intros Hs Hz Hb Hk Hg.
  pose proof (Sinv_claim _ _ _ _ _ _ Hs Hk Hg) as Hs1.
  set (s1 := with_waiters s (delete k (s_waiters s))) in *.
  assert (Hf1 : sframe (Some k) s s1).
  { pose proof (sframe_refl (Some k) s) as []. split; simpl; try done.
    intros w Hw. rewrite lookup_delete_ne by congruence. by apply sf_waiters0. }
  split; [by split|].
  destruct (release_chunk_spec _ _ _ None s1 (cw_task c) Hs1) as (s' & Hr & [Hs' Hf' ??]); try done.
  { rewrite bump_eq. pose proof (si_pos _ _ _ _ Hs (cw_task c)). lia. }
  exists s'. split; [done|]. split.
  2: { pose proof (sf_waiters _ _ _ Hf' k ltac:(done)) as H. simpl in H. rewrite lookup_delete_eq in H.
       by destruct (s_waiters s' !! k). }
  split; try done; [|eapply sframe_trans; [exact Hf1|by apply sframe_weaken]].
  eapply Sinv_ext; [| | |exact Hs']; try done. intros b. unfold bump. case_decide; lia.
Qed.

Lemma chunk_ready_spec R C T k s a c ctx_err :
  Sinv R C T s → no_zombie s → all_busy s → s_waiters s !! k = Some c → cw_task c = a →
  ∃ s' ok, chunkReadySection s a k ctx_err = Ok (s', ok) ∧
    section_ok R (if ok : bool then bump C a 1 else C) T (Some k) s s' ∧
    (∀ c', s_waiters s' !! k = Some c' → cw_ready c = true → cw_canceled c' = true).
Proof.
  intros Hs Hz Hb Hk <-. unfold chunkReadySection. rewrite Hk.
  destruct (cw_granted c) eqn:Hg; simpl.
  - destruct (claim_release_spec _ _ _ _ _ _ Hs Hz Hb Hk Hg) as (H1 & s' & Hr & H2 & Hn).
    destruct ctx_err; simpl.
    + rewrite Hr. simpl. exists s', false. split_and!; try done. intros c'. by rewrite Hn.
    + eexists _, true. split_and!; try done. intros c'. simpl. by rewrite lookup_delete_eq.
  - exists s, false. split_and!; [done|split; auto using sframe_refl|].
    intros c' Hc' Hready. rewrite Hk in Hc'. simplify_eq.
    destruct (si_wok _ _ _ _ Hs _ _ Hk) as [_ Hok]. destruct (Hok Hready); congruence.
Qed.

Lemma Sinv_cancel R C T s w c :
  Sinv R C T s → s_waiters s !! w = Some c → cw_granted c = false →
  Sinv R C T (with_waiters s (<[w := mkCW (cw_task c) (cw_granted c) true (cw_ready c)]> (s_waiters s))).
Proof.
  intros Hs Hw Hg.
  assert (Hm : ∀ b, msum (granted_for b) (<[w := mkCW (cw_task c) (cw_granted c) true (cw_ready c)]> (s_waiters s))
                    = msum (granted_for b) (s_waiters s)).
  { intros b. rewrite (msum_insert_Some _ _ _ c) by done. unfold granted_for at 2 3. simpl. lia. }
  destruct Hs. split; simpl; try done.
  - intros b u Hb. destruct (si_tasks _ _ Hb). split; simpl; rewrite ?Hm; auto.
    intros x Hx. destruct (to_queued x Hx) as (y & Hy & ?).
    destruct (decide (w = x)) as [->|]; [|exists y; by rewrite lookup_insert_ne].
    simplify_eq. eexists. by rewrite lookup_insert_eq.
  - intros b Hb. rewrite Hm. auto.
  - intros x y [[<- <-]|[_ ?]]%lookup_insert_Some; [|by eapply si_wok]. split; simpl; [congruence|auto].
Qed.

Lemma chunk_cancel_spec R C T k s a c :
  Sinv R C T s → no_zombie s → all_busy s → s_waiters s !! k = Some c → cw_task c = a →
  is_Some (s_tasks s !! a) →
  ∃ s', chunkCancelSection s a k = Ok s' ∧ section_ok R C T (Some k) s s' ∧
    ∀ c', s_waiters s' !! k = Some c' → cw_canceled c' = true.
Proof.
  intros Hs Hz Hb Hk <- [t Ht]. unfold chunkCancelSection. rewrite Hk.
  destruct (cw_granted c) eqn:Hg; simpl.
  - destruct (claim_release_spec _ _ _ _ _ _ Hs Hz Hb Hk Hg) as (_ & s' & ? & ? & Hn).
    exists s'. split_and!; try done. intros c'. by rewrite Hn.
  - unfold task. rewrite Ht. simpl.
    pose proof (Sinv_cancel _ _ _ _ _ _ Hs Hk Hg) as Hs1. rewrite Hg in Hs1.
    set (s1 := with_waiters s _) in *.
    assert (Hf1 : sframe (Some k) s s1).
    { pose proof (sframe_refl (Some k) s) as []. split; simpl; try done.
      intros w Hw. rewrite lookup_insert_ne by congruence. by apply sf_waiters0. }
    destruct (dispatch_section R C T None (ts_dc t) s1 s1 Hs1 (sframe_refl _ _)) as (s' & Hd & [? Hf ??]);
      [done|intros e _; apply Hb|].
    exists s'. split_and!; [done| |].
    + split; try done. eapply sframe_trans; [exact Hf1|by apply sframe_weaken].
    + intros c' Hc'. pose proof (sf_waiters _ _ _ Hf k ltac:(done)) as H. simpl in H.
      rewrite lookup_insert_eq, Hc' in H. destruct H as [_ H]. by apply H.
Qed.

(** ** Reconfiguration *)

Lemma dispatch_all_spec R C T order : ∀ s,
  Sinv R C T s → no_zombie s → (∀ e, e ∉ order → work_conserving s e) →
  ∃ s', foldM dispatchLocked s order = Ok s' ∧ ∀ k, section_ok R C T k s s'.
Proof.
  induction order as [|d order IH]; intros s Hs Hz Hb; simpl.
  { exists s. split; [done|]. intros k. split; auto using sframe_refl.
    intros e. apply Hb. apply not_elem_of_nil. }
  destruct (dispatch_spec R C T d s Hs) as (s1 & -> & Hs1 & Hp). simpl.
  destruct (IH s1 Hs1) as (s' & -> & Hok).
  - exact (dframe_no_zombie _ _ _ (dp_frame _ _ _ Hp) Hz).
  - intros e He. destruct (decide (e = d)) as [->|Hne]; [apply Hp|].
    apply (dispatch_keeps_busy R C T d e s s1); try done. apply Hb. by apply not_elem_of_cons.
  - exists s'. split; [done|]. intros k. destruct (Hok k) as [? Hf ??]. split; try done.
    eapply sframe_trans; [|exact Hf]. exact (dframe_sframe k _ _ _ (dp_frame _ _ _ Hp)).
Qed.

Lemma reconfigure_spec R C T s f c order :
  Sinv R C T s → no_zombie s → order ≡ₚ (map_to_list (s_dcs s)).*1 →
  let s0 := with_tokens (with_capacity s (normalizeLimit c))
              (fl_resize (s_fileTokens s) (normalizeLimit f)) in
  ∃ s', Reconfigure s f c order = Ok s' ∧ ∀ k, section_ok R C T k s0 s'.
Proof.
  intros Hs Hz Ho s0. apply (dispatch_all_spec R C T order s0).
  - destruct Hs. split; simpl; try done.
    intros a t Ht. eapply TaskOk_ext with (s := s); auto.
  - exact Hz.
  - intros e He dc Hd. exfalso. apply He. rewrite Ho. apply list_elem_of_fmap.
    exists (e, dc). split; [done|]. by apply elem_of_map_to_list.
Qed.
