(* ===== verification/SchedulerSys.v ===== *)
(** * Goroutines over the download scheduler

    The invariant of the interleaved system of Scheduler.v, and what it gives:
    no section ever panics, the file limit and the lane limits hold, no lane
    idles while a request waits, and everything is returned at quiescence. *)

From stdpp Require Import sorting.
From S2P Require Import Prelude Scheduler SchedulerInv SchedulerOps.

(** ** What a goroutine holds *)

Definition holds_ref (p : pc) : option nat :=
  match p with
  | PAcqLoop _ _ r => r
  | PAcqWait _ _ a _ | PTokTry _ _ a _ | PTokWait _ _ a _ _ | PComplete _ _ a _ _
  | PCompleteRel _ _ a | PAcqFail a | PTask a => Some a
  | _ => None
  end.
Definition holds_chunk (p : pc) : option nat :=
  match p with PChunk a => Some a | _ => None end.
Definition holds_token (p : pc) : Z :=
  match p with PComplete _ _ _ _ true | PCompleteRel _ _ _ | PRelToken => 1 | _ => 0 end.

Definition refs_of (a : nat) (g : gor) : Z :=
  if decide (holds_ref (g_pc g) = Some a) then 1 else 0.
Definition chunk_of (a : nat) (g : gor) : Z :=
  if decide (holds_chunk (g_pc g) = Some a) then 1 else 0.
Definition tok_of (g : gor) : Z := holds_token (g_pc g).

(** The file an acquiring goroutine works for, and the one it activates. *)
Definition call_of (p : pc) : option (string * Z * nat) :=
  match p with
  | PAcqLoop id dc (Some a) | PAcqWait id dc a _ | PTokTry id dc a _ | PTokWait id dc a _ _
  | PComplete id dc a _ _ | PCompleteRel id dc a => Some (id, dc, a)
  | _ => None
  end.
Definition activator (p : pc) : option (nat * nat) :=
  match p with
  | PTokTry _ _ a ch | PTokWait _ _ a ch _ | PComplete _ _ a ch _ => Some (a, ch)
  | _ => None
  end.

Definition act (s : Scheduler) (a : nat) : option nat :=
  match s_tasks s !! a with Some t => ts_activating t | None => None end.

Definition wait_ok (s : Scheduler) (k : nat) (p : pc) : Prop :=
  match p with
  | PChunkWait a => (∃ c, s_waiters s !! k = Some c ∧ cw_task c = a) ∧ is_Some (s_tasks s !! a)
  | PChunkBegin a => is_Some (s_tasks s !! a) ∧ s_waiters s !! k = None
  | _ => True
  end.

Definition call_ok (s : Scheduler) (p : pc) : Prop :=
  ∀ id dc a, call_of p = Some (id, dc, a) →
    ∃ t, s_tasks s !! a = Some t ∧ ts_taskID t = id ∧ ts_dc t = dc.

Record Yinv (y : sys) : Prop := {
  yi_sinv : Sinv (λ a, msum (refs_of a) (y_gs y)) (λ a, msum (chunk_of a) (y_gs y))
              (msum tok_of (y_gs y)) (y_sched y);
  yi_zombie : no_zombie (y_sched y);
  yi_busy : all_busy (y_sched y);
  yi_call : ∀ k g, y_gs y !! k = Some g → call_ok (y_sched y) (g_pc g);
  yi_wait : ∀ k g, y_gs y !! k = Some g → wait_ok (y_sched y) k (g_pc g);
  yi_act : ∀ k g a ch, y_gs y !! k = Some g → activator (g_pc g) = Some (a, ch) →
    act (y_sched y) a = Some ch ∧ ch ∉ s_closed (y_sched y);
  yi_unique : ∀ k1 k2 g1 g2 a ch1 ch2, y_gs y !! k1 = Some g1 → y_gs y !! k2 = Some g2 →
    activator (g_pc g1) = Some (a, ch1) → activator (g_pc g2) = Some (a, ch2) → k1 = k2;
  yi_exists : ∀ a ch, act (y_sched y) a = Some ch →
    ∃ k g, y_gs y !! k = Some g ∧ activator (g_pc g) = Some (a, ch);
  yi_fresh : ∀ a ch, act (y_sched y) a = Some ch → (ch < s_next (y_sched y))%nat;
  yi_closed : ∀ ch, ch ∈ s_closed (y_sched y) → (ch < s_next (y_sched y))%nat;
  yi_live : ∀ w c, s_waiters (y_sched y) !! w = Some c → cw_canceled c = false →
    ∃ g a, y_gs y !! w = Some g ∧ g_pc g = PChunkWait a;
  yi_inj : ∀ a1 a2 ch, act (y_sched y) a1 = Some ch → act (y_sched y) a2 = Some ch → a1 = a2;
}.

(** How a step of one goroutine changes who activates what. *)
Inductive act_effect (s s' : Scheduler) (p p' : pc) : Prop :=
  | ActKeep : (∀ b, act s' b = act s b) → s_closed s' = s_closed s →
      activator p' = activator p → act_effect s s' p p'
  | ActStart a ch : act s a = None → act s' a = Some ch → (∀ b, b ≠ a → act s' b = act s b) →
      s_closed s' = s_closed s → (s_next s ≤ ch < s_next s')%nat →
      activator p = None → activator p' = Some (a, ch) → act_effect s s' p p'
  | ActStop a ch : activator p = Some (a, ch) → activator p' = None → act s' a = None →
      (∀ b, b ≠ a → act s' b = act s b) → s_closed s' = {[ch]} ∪ s_closed s →
      act_effect s s' p p'.

(** What every step of goroutine [k] keeps of the others' data. *)
Definition keeps (k : nat) (s s' : Scheduler) : Prop :=
  (∀ b t, s_tasks s !! b = Some t →
     ∃ t', s_tasks s' !! b = Some t' ∧ ts_taskID t' = ts_taskID t ∧ ts_dc t' = ts_dc t) ∧
  (∀ w, w ≠ k → match s_waiters s !! w, s_waiters s' !! w with
    | Some c, Some c' => cw_task c' = cw_task c ∧ (cw_canceled c = true → cw_canceled c' = true)
    | None, None => True
    | _, _ => False end) ∧
  (s_next s ≤ s_next s')%nat.

Lemma keeps_call k s s' p : keeps k s s' → call_ok s p → call_ok s' p.
Proof.
  intros (Ht & _) Hc id dc a Hp. destruct (Hc id dc a Hp) as (t & H & ? & ?).
  destruct (Ht a t H) as (t' & ? & ? & ?). exists t'. split_and!; congruence.
Qed.

Lemma keeps_wait k s s' w p : keeps k s s' → w ≠ k → wait_ok s w p → wait_ok s' w p.
Proof.
  intros (Ht & Hw & _) Hne. specialize (Hw w Hne).
  assert (Hd : ∀ a, is_Some (s_tasks s !! a) → is_Some (s_tasks s' !! a)).
  { intros a [t H]. destruct (Ht a t H) as (t' & -> & _). eauto. }
  destruct p; simpl; try done.
  - intros [? H]. rewrite H in Hw. split; [auto|]. by destruct (s_waiters s' !! w).
  - intros [(c & H & Hc) ?]. rewrite H in Hw. split; [|auto].
    destruct (s_waiters s' !! w) as [c'|]; [|done]. destruct Hw. exists c'. split; congruence.
Qed.

Lemma sframe_keeps k K s s' :
  sframe K s s' → (K = None ∨ K = Some k) → keeps k s s' ∧ (∀ b, act s' b = act s b).
Proof.
  intros Hf HK. assert (Ht := sf_tasks _ _ _ Hf). split; [split_and!|].
  - intros b t Hb. specialize (Ht b). rewrite Hb in Ht.
    destruct (s_tasks s' !! b) as [t'|]; [|done]. exists t'. by destruct Ht as (? & ? & ?).
  - intros w Hw. apply Hf. destruct HK as [->| ->]; congruence.
  - by rewrite (sf_next _ _ _ Hf).
  - intros b. specialize (Ht b). unfold act.
    destruct (s_tasks s !! b), (s_tasks s' !! b); try done. by destruct Ht as (? & ? & ?).
Qed.

(** The invariant survives a step of goroutine [k] from [g] to [g']. *)
Section step.
Context (y : sys) (k : nat) (g g' : gor) (s' : Scheduler).
Context (Hy : Yinv y) (Hk : y_gs y !! k = Some g).
#[local] Abbreviation s := (y_sched y).
#[local] Abbreviation gs := (y_gs y).

Lemma lookup_gs x h : <[k:=g']> gs !! x = Some h → (x = k ∧ h = g') ∨ (x ≠ k ∧ gs !! x = Some h).
Proof. intros [[<- <-]|[? ?]]%lookup_insert_Some; auto. Qed.

Lemma yinv_acts :
  act_effect s s' (g_pc g) (g_pc g') → (s_next s ≤ s_next s')%nat →
  (∀ x h a ch, <[k:=g']> gs !! x = Some h → activator (g_pc h) = Some (a, ch) →
     act s' a = Some ch ∧ ch ∉ s_closed s') ∧
  (∀ x1 x2 h1 h2 a ch1 ch2, <[k:=g']> gs !! x1 = Some h1 → <[k:=g']> gs !! x2 = Some h2 →
     activator (g_pc h1) = Some (a, ch1) → activator (g_pc h2) = Some (a, ch2) → x1 = x2) ∧
  (∀ a ch, act s' a = Some ch → ∃ x h, <[k:=g']> gs !! x = Some h ∧ activator (g_pc h) = Some (a, ch)) ∧
  (∀ a ch, act s' a = Some ch → (ch < s_next s')%nat) ∧
  (∀ ch, ch ∈ s_closed s' → (ch < s_next s')%nat) ∧
  (∀ a1 a2 ch, act s' a1 = Some ch → act s' a2 = Some ch → a1 = a2).
Proof.
  destruct Hy as [_ _ _ _ _ Hact Huniq Hex Hfr Hcl _ Hinj].
  intros Heff Hn.
  assert (Hold : ∀ a ch, act s a = Some ch → ∃ x h, gs !! x = Some h ∧ activator (g_pc h) = Some (a, ch)
            ∧ (x ≠ k ∨ activator (g_pc g) = Some (a, ch))).
  { intros a ch H. destruct (Hex a ch H) as (x & h & Hx & Ha). exists x, h. split_and!; try done.
    destruct (decide (x = k)) as [->|]; [right|by left]. congruence. }
  destruct Heff as [Hk1 Hk2 Hk3|a ch H1 H2 H3 H4 H5 H6 H7|a ch H1 H2 H3 H4 H5].
  - split_and!.
    + intros x h a ch [[-> ->]|[? Hx]]%lookup_gs Ha; rewrite Hk1, Hk2; [|by eapply Hact].
      rewrite Hk3 in Ha. by eapply (Hact k g).
    + assert (Hg : ∀ x h a ch, <[k:=g']> gs !! x = Some h → activator (g_pc h) = Some (a, ch) →
                ∃ h0, gs !! x = Some h0 ∧ activator (g_pc h0) = Some (a, ch)).
      { intros x h a ch [[-> ->]|[? Hx]]%lookup_gs Ha; [exists g|by exists h]. split; congruence. }
      intros x1 x2 h1 h2 a c1 c2 Hx1 Hx2 Ha1 Ha2.
      destruct (Hg _ _ _ _ Hx1 Ha1) as (? & ? & ?), (Hg _ _ _ _ Hx2 Ha2) as (? & ? & ?). by eapply Huniq.
    + intros a ch. rewrite Hk1. intros (x & h & Hx & Ha & Hor)%Hold.
      destruct (decide (x = k)) as [->|Hne].
      * exists k, g'. rewrite lookup_insert_eq. split; [done|]. destruct Hor; [done|congruence].
      * exists x, h. by rewrite lookup_insert_ne.
    + intros a ch. rewrite Hk1. intros ?%Hfr. lia.
    + intros ch. rewrite Hk2. intros ?%Hcl. lia.
    + intros a1 a2 ch. rewrite !Hk1. apply Hinj.
  - assert (Hlt : ∀ b c, act s b = Some c → c ≠ ch) by (intros b c ?%Hfr; lia).
    split_and!.
    + intros x h b c [[-> ->]|[? Hx]]%lookup_gs Hb; rewrite H4.
      * rewrite H7 in Hb. simplify_eq. split; [done|]. intros ?%Hcl. lia.
      * destruct (Hact _ _ _ _ Hx Hb) as [Hab ?]. split; [|done]. rewrite H3; [done|congruence].
    + intros x1 x2 h1 h2 b c1 c2 [[-> ->]|[? Hx1]]%lookup_gs [[-> ->]|[? Hx2]]%lookup_gs Hb1 Hb2; try done.
      * rewrite H7 in Hb1. simplify_eq. destruct (Hact _ _ _ _ Hx2 Hb2). congruence.
      * rewrite H7 in Hb2. simplify_eq. destruct (Hact _ _ _ _ Hx1 Hb1). congruence.
      * by eapply Huniq.
    + intros b c Hb. destruct (decide (b = a)) as [->|Hne].
      * rewrite H2 in Hb. simplify_eq. exists k, g'. by rewrite lookup_insert_eq.
      * rewrite H3 in Hb by done. destruct (Hold _ _ Hb) as (x & h & Hx & Ha & Hor).
        exists x, h. rewrite lookup_insert_ne; [done|]. intros ->. destruct Hor; congruence.
    + intros b c Hb. destruct (decide (b = a)) as [->|Hne]; [rewrite H2 in Hb; simplify_eq; lia|].
      rewrite H3 in Hb by done. apply Hfr in Hb. lia.
    + intros c. rewrite H4. intros ?%Hcl. lia.
    + intros b1 b2 c Hb1 Hb2.
      destruct (decide (b1 = a)) as [->|Hne1], (decide (b2 = a)) as [->|Hne2]; try done.
      * rewrite H2 in Hb1. rewrite H3 in Hb2 by done. apply Hlt in Hb2. congruence.
      * rewrite H2 in Hb2. rewrite H3 in Hb1 by done. apply Hlt in Hb1. congruence.
      * rewrite H3 in Hb1, Hb2 by done. by eapply Hinj.
  - destruct (Hact _ _ _ _ Hk H1) as [Ha Hnc].
    assert (Hoth : ∀ b c, act s' b = Some c → b ≠ a ∧ act s b = Some c).
    { intros b c Hb. destruct (decide (b = a)) as [->|Hne]; [congruence|]. by rewrite H4 in Hb. }
    split_and!.
    + intros x h b c [[-> ->]|[Hne Hx]]%lookup_gs Hb; [congruence|].
      destruct (Hact _ _ _ _ Hx Hb) as [Hab Hc].
      assert (b ≠ a) by (intros ->; apply Hne; by eapply Huniq).
      rewrite H4, H5 by done. split; [done|]. intros [->%elem_of_singleton|?]%elem_of_union; [|done].
      assert (b = a) by (by eapply Hinj). done.
    + intros x1 x2 h1 h2 b c1 c2 [[-> ->]|[? Hx1]]%lookup_gs [[-> ->]|[? Hx2]]%lookup_gs Hb1 Hb2; try congruence.
      by eapply Huniq.
    + intros b c [Hne Hb]%Hoth. destruct (Hold _ _ Hb) as (x & h & Hx & Hxa & Hor).
      exists x, h. rewrite lookup_insert_ne; [done|]. intros ->. destruct Hor; congruence.
    + intros b c [_ Hb%Hfr]%Hoth. lia.
    + intros c. rewrite H5. intros [->%elem_of_singleton|Hc%Hcl]%elem_of_union; [apply Hfr in Ha|]; lia.
    + intros b1 b2 c [_ Hb1]%Hoth [_ Hb2]%Hoth. by eapply Hinj.
Qed.

(** The step lemma all program counters go through. *)
Lemma yinv_step R C T :
  (∀ c, s_waiters s' !! k = Some c → cw_canceled c = false → ∃ a, g_pc g' = PChunkWait a) →
  Sinv R C T s' → no_zombie s' → all_busy s' → keeps k s s' →
  act_effect s s' (g_pc g) (g_pc g') → call_ok s' (g_pc g') → wait_ok s' k (g_pc g') →
  (∀ a, R a = msum (refs_of a) gs - refs_of a g + refs_of a g') →
  (∀ a, C a = msum (chunk_of a) gs - chunk_of a g + chunk_of a g') →
  T = msum tok_of gs - tok_of g + tok_of g' →
  Yinv (mkSys s' (<[k:=g']> gs)).
Proof.
  intros HL Hs Hz Hb Hkp Heff Hcall Hwait HR HC HT.
  destruct (yinv_acts Heff (proj2 (proj2 Hkp))) as (A1 & A2 & A3 & A4 & A5 & A6).
  split; simpl; try done.
  - eapply Sinv_ext; [| | |exact Hs].
    + intros a. rewrite HR. symmetry. by apply msum_insert_Some.
    + intros a. rewrite HC. symmetry. by apply msum_insert_Some.
    + rewrite HT. symmetry. by apply msum_insert_Some.
  - intros x h [[-> ->]|[Hne Hx]]%lookup_gs; [done|]. eapply keeps_call; [done|]. by eapply yi_call.
  - intros x h [[-> ->]|[Hne Hx]]%lookup_gs; [done|]. eapply keeps_wait; [done..|]. by eapply yi_wait.
  - intros w c' Hw Hc. destruct (decide (w = k)) as [->|Hne].
    + destruct (HL _ Hw Hc) as [a Ha]. exists g', a. by rewrite lookup_insert_eq.
    + destruct Hkp as (_ & Hkw & _). specialize (Hkw w Hne). rewrite Hw in Hkw.
      destruct (s_waiters s !! w) as [c|] eqn:Hwc; [|done]. destruct Hkw as [_ Hcc].
      rewrite lookup_insert_ne by done. apply (yi_live _ Hy w c Hwc).
      destruct (cw_canceled c); [by rewrite Hcc in Hc|done].
Qed.
End step.

(** ** Every section keeps the invariant *)

Definition Rg (y : sys) : nat → Z := λ a, msum (refs_of a) (y_gs y).
Definition Cg (y : sys) : nat → Z := λ a, msum (chunk_of a) (y_gs y).
Definition Tg (y : sys) : Z := msum tok_of (y_gs y).

Ltac solve_counts Hp :=
  intros; unfold Rg, Cg, Tg, bump, refs_of, chunk_of, tok_of; rewrite ?Hp; simpl;
  repeat case_decide; simplify_eq; try done; lia.

Lemma refs_ge y k g a : y_gs y !! k = Some g → holds_ref (g_pc g) = Some a → 1 ≤ Rg y a.
Proof.
  intros Hk Hh. replace 1 with (refs_of a g) by (unfold refs_of; by rewrite decide_True).
  apply (msum_ge (refs_of a) (y_gs y) k g); [|done]. intros. unfold refs_of. case_decide; lia.
Qed.
Lemma chunks_ge y k g a : y_gs y !! k = Some g → holds_chunk (g_pc g) = Some a → 1 ≤ Cg y a.
Proof.
  intros Hk Hh. replace 1 with (chunk_of a g) by (unfold chunk_of; by rewrite decide_True).
  apply (msum_ge (chunk_of a) (y_gs y) k g); [|done]. intros. unfold chunk_of. case_decide; lia.
Qed.
Lemma tokens_ge y k g : y_gs y !! k = Some g → holds_token (g_pc g) = 1 → 1 ≤ Tg y.
Proof.
  intros Hk Hh. rewrite <- Hh. apply (msum_ge tok_of (y_gs y) k g); [|done].
  intros x h _. unfold tok_of. destruct (g_pc h) as [| | | |? ? ? ? []| | | | | | | |]; simpl; lia.
Qed.

(** A step without reconfiguration keeps the limits and never goes beyond
    them, except where an earlier, larger limit already allowed it. *)
Record limits_kept (s s' : Scheduler) : Prop := {
  lk_capacity : s_capacity s' = s_capacity s;
  lk_limit : fl_limit (s_fileTokens s') = fl_limit (s_fileTokens s);
  lk_load : ∀ d, dc_load s' d ≤ Z.max (dc_load s d) (s_capacity s);
  lk_used : fl_used (s_fileTokens s') ≤ Z.max (fl_used (s_fileTokens s)) (fl_limit (s_fileTokens s));
}.

Lemma sframe_limits k s s' : sframe k s s' → limits_kept s s'.
Proof. intros []. split; try done. lia. Qed.

Definition keeps_inv (y y' : sys) : Prop := Yinv y' ∧ limits_kept (y_sched y) (y_sched y').

(** Request [k] is gone, or its goroutine still waits for it. *)
Definition request_ok (k : nat) (K : option nat) (s' : Scheduler) (p p' : pc) : Prop :=
  (K = None ∧ ∀ a, p = PChunkWait a → p' = PChunkWait a) ∨
  (K = Some k ∧ ∀ c, s_waiters s' !! k = Some c → cw_canceled c = false → ∃ a, p' = PChunkWait a).

Lemma request_live y k K g s' p' :
  Yinv y → y_gs y !! k = Some g → sframe K (y_sched y) s' → request_ok k K s' (g_pc g) p' →
  ∀ c, s_waiters s' !! k = Some c → cw_canceled c = false → ∃ a, p' = PChunkWait a.
Proof.
  intros Hy Hk Hf [[-> Hp]|[-> Hp]]; [|done]. intros c' Hc' Hcan.
  pose proof (sf_waiters _ _ _ Hf k ltac:(done)) as Hw. rewrite Hc' in Hw.
  destruct (s_waiters (y_sched y) !! k) as [c|] eqn:Hc; [|done]. destruct Hw as [_ Hw].
  destruct (yi_live _ Hy k c Hc) as (g0 & a & Hk' & Ha).
  { destruct (cw_canceled c); [by rewrite Hw in Hcan|done]. }
  simplify_eq. exists a. by apply Hp.
Qed.

Lemma yinv_section y k K g p' s' R C T :
  Yinv y → y_gs y !! k = Some g → section_ok R C T K (y_sched y) s' →
  request_ok k K s' (g_pc g) p' →
  activator p' = activator (g_pc g) →
  (call_of p' = None ∨ call_of p' = call_of (g_pc g)) →
  wait_ok s' k p' →
  (∀ a, R a = Rg y a - refs_of a g + refs_of a (mkG (g_canceled g) p')) →
  (∀ a, C a = Cg y a - chunk_of a g + chunk_of a (mkG (g_canceled g) p')) →
  T = Tg y - tok_of g + tok_of (mkG (g_canceled g) p') →
  keeps_inv y (set_pc y s' k g p').
Proof.
  intros Hy Hk [Hs Hf Hz Hb] Hreq Hact Hcall Hw HR HC HT.
  split; [|exact (sframe_limits _ _ _ Hf)].
  assert (HK : K = None ∨ K = Some k) by (destruct Hreq as [[-> _]|[-> _]]; auto).
  destruct (sframe_keeps k _ _ _ Hf HK) as [Hkp Hav].
  eapply (yinv_step y k g _ s' Hy Hk R C T); try done.
  - by apply (request_live y k K g s' p').
  - apply ActKeep; try done. apply Hf.
  - intros id dc a Ha. simpl in Ha. destruct Hcall as [Hc|Hc]; rewrite Hc in Ha; [done|].
    by apply (keeps_call k (y_sched y) s' (g_pc g) Hkp (yi_call _ Hy _ _ Hk)).
Qed.

Lemma section_refl y k : Yinv y → section_ok (Rg y) (Cg y) (Tg y) k (y_sched y) (y_sched y).
Proof. intros []. by split; try apply sframe_refl. Qed.

(** A step that only moves the program counter. *)
Lemma yinv_move y k g p' :
  Yinv y → y_gs y !! k = Some g →
  activator p' = activator (g_pc g) →
  (call_of p' = None ∨ call_of p' = call_of (g_pc g)) →
  wait_ok (y_sched y) k p' →
  holds_ref p' = holds_ref (g_pc g) → holds_chunk p' = holds_chunk (g_pc g) →
  holds_token p' = holds_token (g_pc g) →
  (∀ a, g_pc g = PChunkWait a → p' = PChunkWait a) →
  keeps_inv y (set_pc y (y_sched y) k g p').
Proof.
  intros Hy Hk Ha Hc Hw H1 H2 H3 H4.
  eapply (yinv_section y k None g p' (y_sched y) (Rg y) (Cg y) (Tg y)); eauto using section_refl; [by left|..]; intros; unfold refs_of, chunk_of, tok_of; simpl;
    rewrite ?H1, ?H2, ?H3; lia.
Qed.

Definition step_ok (y : sys) (r : res string sys) : Prop := ∃ y', r = Ok y' ∧ keeps_inv y y'.

Lemma run_release y k g a :
  Yinv y → y_gs y !! k = Some g → g_pc g = PAcqFail a ∨ g_pc g = PTask a →
  step_ok y ('(s, rel) ← releaseTask (y_sched y) a;
           Ok (set_pc y s k g (if (rel : bool) then PRelToken else PDone))).
Proof.
  intros Hy Hk Hp.
  destruct (release_task_spec (Rg y) (Cg y) (Tg y) None (y_sched y) a) as (s' & rel & -> & Hok); try apply Hy.
  { apply (refs_ge y k g); [done|]. by destruct Hp as [-> | ->]. }
  eexists. split; [done|].
  eapply yinv_section; try done; [by left; destruct Hp as [-> | ->]|by destruct Hp as [-> | ->], rel|by destruct rel; left|by destruct rel|..];
    destruct Hp as [Hp|Hp]; destruct rel; solve_counts Hp.
Qed.

Lemma run_loop y k g id dc reg :
  Yinv y → y_gs y !! k = Some g → g_pc g = PAcqLoop id dc reg →
  step_ok y ('(s, o) ← acquireSection (y_sched y) id dc reg;
        Ok (match o with
            | AcqActive a => set_pc y s k g (PTask a)
            | AcqWaitFor a ready => set_pc y s k g (PAcqWait id dc a ready)
            | AcqActivate a ready => set_pc y s k g (PTokTry id dc a ready)
            | AcqChangedDC a => after_fail (mkSys s (y_gs y)) k g ((λ _, a) <$> reg)
            end)).
Proof.
  intros Hy Hk Hp.
  destruct (acquire_section_spec (Rg y) (Cg y) (Tg y) (y_sched y) id dc reg) as (s' & o & -> & Hpost);
    try apply Hy.
  { intros a ->. split; [apply (refs_ge y k g); [done|by rewrite Hp]|].
    apply (yi_call _ Hy _ _ Hk). by rewrite Hp. }
  eexists. split; [done|].
  assert (Hcommon : ∀ a p', holds_ref p' = Some a → holds_chunk p' = None → holds_token p' = 0 →
    (∀ a0, reg = Some a0 → a = a0) →
    Sinv (match reg with None => bump (Rg y) a 1 | Some _ => Rg y end) (Cg y) (Tg y) s' →
    no_zombie s' → all_busy s' → acquire_frame (y_sched y) s' a o →
    (∃ t, s_tasks s' !! a = Some t ∧ ts_taskID t = id ∧ ts_dc t = dc) →
    (call_of p' = None ∨ call_of p' = Some (id, dc, a)) → (∀ k, wait_ok s' k p') →
    act_effect (y_sched y) s' (g_pc g) p' → keeps_inv y (set_pc y s' k g p')).
  { intros a p' H1 H2 H3 Hra Hs Hz Hb (Fw & _ & Ftk & Fcap & Fd & Fn & Fo & Fa) (t & Ht & Hti & Htd) Hcall Hw Heff.
    split; [|simpl; split; [done|by rewrite Ftk|intros d; unfold dc_load; rewrite Fd; lia|rewrite Ftk; lia]].
    eapply (yinv_step y k g (mkG (g_canceled g) p') s' Hy Hk); try done.
    - intros c. rewrite Fw. intros Hc Hcan. destruct (yi_live _ Hy k c Hc Hcan) as (g0 & x & ? & ?). congruence.
    - split_and!; [|intros w _; rewrite Fw; by destruct (s_waiters (y_sched y) !! w)|done].
      intros b u Hb'. destruct (decide (b = a)) as [->|Hne]; [|rewrite Fo by done; eauto].
      destruct (Fa u Hb') as (t' & ? & ? & ? & _). eauto.
    - intros id' dc' a' Ha'. simpl in Ha'. destruct Hcall as [Hc|Hc]; rewrite Hc in Ha'; simplify_eq. eauto.
    - intros b. unfold refs_of. simpl. rewrite H1, Hp. simpl. destruct reg as [a0|].
      + rewrite (Hra a0 eq_refl). unfold Rg. unfold refs_of. lia.
      + unfold bump, Rg, refs_of. rewrite (decide_False (P := None = Some b)) by done.
        repeat case_decide; simplify_eq; lia.
    - intros b. unfold chunk_of. simpl. rewrite H2, Hp. simpl. unfold Cg, chunk_of. lia.
    - unfold tok_of. simpl. rewrite H3, Hp. unfold Tg, tok_of. simpl. lia. }
  assert (Hkeep : ∀ a, acquire_frame (y_sched y) s' a o →
     match o with AcqActivate _ _ => False | _ => True end → (∀ b, b ≠ a → act s' b = act (y_sched y) b) ∧
     (s_tasks (y_sched y) !! a ≠ None → act s' a = act (y_sched y) a)).
  { intros a (_ & _ & _ & _ & _ & _ & Fo & Fa) Ho. split.
    - intros b Hne. unfold act. by rewrite Fo.
    - intros Hn. unfold act. destruct (s_tasks (y_sched y) !! a) as [t|]; [|done].
      destruct (Fa t eq_refl) as (t' & -> & _ & _ & Ha). by destruct o. }
  destruct o as [a|a ready|a ready|a]; simpl in Hpost.
  - destruct Hpost as (Hs & Hz & Hb & Hfr & Hra & t & Ht & Hti & Htd & Hta).
    apply (Hcommon a); try done; [eauto|by left|].
    destruct (Hkeep a Hfr I) as [K1 K2]. destruct Hfr as (_ & Hcl & _).
    apply ActKeep; [|done|by rewrite Hp].
    intros b. destruct (decide (b = a)) as [->|]; [|by apply K1].
    destruct (decide (s_tasks (y_sched y) !! a = None)) as [Hn|Hn]; [|by apply K2].
    unfold act. rewrite Hn, Ht. by destruct (to_active _ _ _ _ _ (si_tasks _ _ _ _ Hs _ _ Ht) Hta).
  - destruct Hpost as (Hs & Hz & Hb & Hfr & Hra & t & Ht & Hti & Htd & Hta & [t0 Ht0]).
    apply (Hcommon a); try done; [eauto|by right|].
    destruct (Hkeep a Hfr I) as [K1 K2]. destruct Hfr as (_ & Hcl & _).
    apply ActKeep; [|done|by rewrite Hp].
    intros b. destruct (decide (b = a)) as [->|]; [|by apply K1]. apply K2. by rewrite Ht0.
  - destruct Hpost as (Hs & Hz & Hb & Hfr & Hra & t & Ht & Hti & Htd & Hta & Hrd).
    apply (Hcommon a); try done; [eauto|by right|].
    destruct Hfr as (_ & Hcl & _ & _ & _ & _ & Fo & Fa).
    apply (ActStart _ _ _ _ a ready); try done; [| | |by rewrite Hp].
    + unfold act. destruct (s_tasks (y_sched y) !! a) as [t0|] eqn:Ht0; [|done].
      by destruct (Fa t0 eq_refl) as (? & _ & _ & _ & ?).
    + unfold act. by rewrite Ht.
    + intros b Hne. unfold act. by rewrite Fo.
  - destruct Hpost as [-> ->]. unfold after_fail. simpl.
    change (keeps_inv y (set_pc y (y_sched y) k g PDone)).
    eapply yinv_move; try done; rewrite ?Hp; try done. by left.
Qed.

Lemma run_complete y k g id dc a ready success :
  Yinv y → y_gs y !! k = Some g → g_pc g = PComplete id dc a ready success →
  step_ok y ('(s, rel) ← completeActivation (y_sched y) a ready success;
           Ok (set_pc y s k g (if (rel : bool) then PCompleteRel id dc a
                               else if success then PAcqLoop id dc (Some a) else PAcqFail a))).
Proof.
  intros Hy Hk Hp.
  destruct (yi_act _ Hy k g a ready Hk) as [Ha Hcl]; [by rewrite Hp|].
  unfold act in Ha. destruct (s_tasks (y_sched y) !! a) as [t|] eqn:Ht; [|done].
  destruct (complete_activation_spec (Rg y) (Cg y) (Tg y) None (y_sched y) a t ready success)
    as (s1 & -> & [Hs1 Hf1 Hz1 Hb1]); try done; try apply Hy.
  { apply (refs_ge y k g); [done|by rewrite Hp]. }
  { intros ->. apply (tokens_ge y k g); [done|by rewrite Hp]. }
  eexists. split; [done|]. split.
  2: { destruct (sframe_limits _ _ _ Hf1). by split. }
  destruct (sframe_keeps k _ _ _ Hf1 ltac:(by left)) as [(Kt & Kw & Kn) Hact].
  assert (Hkp : keeps k (y_sched y) (with_closed s1 ({[ready]} ∪ s_closed (y_sched y)))).
  { split_and!; [|exact Kw|exact Kn]. intros b u Hb. simpl.
    destruct (decide (b = a)) as [->|Hne].
    - assert (u = t) as -> by congruence. apply (Kt a (t_activating t None)). simpl. apply lookup_insert_eq.
    - apply (Kt b u). simpl. by rewrite lookup_insert_ne. }
  eapply (yinv_step y k g _ _ Hy Hk (Rg y) (Cg y) (Tg y - (if success then 1 else 0))); try done.
  - intros c' Hc' Hcan. simpl in Hc'.
    pose proof (sf_waiters _ _ _ Hf1 k ltac:(done)) as Hw. simpl in Hw. rewrite Hc' in Hw.
    destruct (s_waiters (y_sched y) !! k) as [c|] eqn:Hc; [|done]. destruct Hw as [_ Hw].
    destruct (yi_live _ Hy k c Hc) as (g0 & x & ? & ?); [|congruence].
    destruct (cw_canceled c); [by rewrite Hw in Hcan|done].
  - apply Sinv_closed, Hs1.
  - apply (ActStop _ _ _ _ a ready); [by rewrite Hp|by destruct success| | |done].
    + change (act s1 a = None). rewrite Hact. unfold act. simpl. by rewrite lookup_insert_eq.
    + intros b Hne. change (act s1 b = act (y_sched y) b). rewrite Hact. unfold act. simpl.
      by rewrite lookup_insert_ne.
  - intros id' dc' a' Hc. apply (keeps_call _ _ _ _ Hkp (yi_call _ Hy _ _ Hk)).
    rewrite Hp. destruct success; [exact Hc|done].
  - by destruct success.
  - destruct success; solve_counts Hp.
  - destruct success; solve_counts Hp.
  - destruct success; solve_counts Hp.
Qed.

Lemma run_rel_token y k g p' :
  Yinv y → y_gs y !! k = Some g →
  (g_pc g = PRelToken ∧ p' = PDone) ∨ (∃ id dc a, g_pc g = PCompleteRel id dc a ∧ p' = PAcqLoop id dc (Some a)) →
  step_ok y (s ← releaseToken (y_sched y); Ok (set_pc y s k g p')).
Proof.
  intros Hy Hk Hp.
  assert (Ht : holds_token (g_pc g) = 1) by (destruct Hp as [[-> _]|(? & ? & ? & -> & _)]; done).
  destruct (release_token_spec (Rg y) (Cg y) (Tg y - 1) (y_sched y)) as (s' & -> & Hs' & Et & Ed & Hf).
  { eapply Sinv_ext; [..|apply (yi_sinv _ Hy)]; try done. unfold Tg. lia. }
  { pose proof (tokens_ge y k g Hk Ht). lia. }
  eexists. split; [done|]. eapply (yinv_section y k None g p' s' (Rg y) (Cg y) (Tg y - 1)); try done.
  - split; [exact Hs'|exact (Hf None)| |].
    + intros b u. rewrite Et. apply (yi_zombie _ Hy).
    + intros d dc. rewrite Ed, Et, (sf_capacity _ _ _ (Hf None)). apply (yi_busy _ Hy).
  - left. split; [done|]. by destruct Hp as [[-> _]|(? & ? & ? & -> & _)].
  - destruct Hp as [[-> ->]|(? & ? & ? & -> & ->)]; done.
  - destruct Hp as [[-> ->]|(? & ? & ? & -> & ->)]; [by left|by right].
  - destruct Hp as [[_ ->]|(? & ? & ? & _ & ->)]; done.
  - destruct Hp as [[Hg ->]|(? & ? & ? & Hg & ->)]; solve_counts Hg.
  - destruct Hp as [[Hg ->]|(? & ? & ? & Hg & ->)]; solve_counts Hg.
  - destruct Hp as [[Hg ->]|(? & ? & ? & Hg & ->)]; solve_counts Hg.
Qed.

Lemma run_token_try y k g id dc a ready :
  Yinv y → y_gs y !! k = Some g → g_pc g = PTokTry id dc a ready → ∀ l,
  fl_try_acquire (s_fileTokens (y_sched y)) = Some l →
  keeps_inv y (set_pc y (with_tokens (y_sched y) l) k g (PComplete id dc a ready true)).
Proof.
  intros Hy Hk Hp l Hl. unfold fl_try_acquire in Hl.
  destruct (Z.ltb_spec (fl_used (s_fileTokens (y_sched y))) (fl_limit (s_fileTokens (y_sched y)))); [|done].
  injection Hl as <-. split; [|split; simpl; try done; [intros d; unfold dc_load; simpl|]; lia].
  destruct (sframe_keeps k _ _ _ (sframe_refl None (y_sched y)) ltac:(by left)) as [Hkp _].
  eapply (yinv_step y k g _ _ Hy Hk (Rg y) (Cg y) (Tg y + 1)); try done.
  - apply (request_live y k None g (y_sched y)); try done; [apply sframe_refl|].
    left. split; [done|]. rewrite Hp. done.
  - destruct (yi_sinv _ Hy). split; simpl; try done.
    + intros b u Hb. eapply TaskOk_ext with (s := y_sched y); try done. by apply si_tasks.
    + unfold Tg. lia.
    + unfold Tg. lia.
  - apply (yi_zombie _ Hy).
  - apply (yi_busy _ Hy).
  - apply ActKeep; rewrite ?Hp; done.
  - intros id' dc' a' Hc. apply (yi_call _ Hy _ _ Hk). by rewrite Hp.
  - solve_counts Hp.
  - solve_counts Hp.
  - solve_counts Hp.
Qed.

Lemma run_chunk_begin y k g a :
  Yinv y → y_gs y !! k = Some g → g_pc g = PChunkBegin a →
  step_ok y ('(s, ok) ← acquireChunkSection (y_sched y) a k (g_canceled g);
            Ok (set_pc y s k g (if (ok : bool) then PChunkWait a else PDone))).
Proof.
  intros Hy Hk Hp. pose proof (yi_wait _ Hy _ _ Hk) as Hw. rewrite Hp in Hw. destruct Hw as [Ha Hn].
  destruct (acquire_chunk_spec (Rg y) (Cg y) (Tg y) (y_sched y) a k (g_canceled g))
    as (s' & ok & -> & Hok & Hpost); try done; try apply Hy.
  eexists. split; [done|]. eapply yinv_section; try done; rewrite ?Hp; try (by destruct ok).
  - right. split; [done|]. intros c Hc _. rewrite Hc in Hpost. destruct Hpost as [-> _]. eauto.
  - left. by destruct ok.
  - destruct (s_waiters s' !! k) as [c|] eqn:Hc; [destruct Hpost as [-> Hct]|by rewrite Hpost].
    split; [by exists c|]. destruct Ha as [t Ht].
    pose proof (sf_tasks _ _ _ (so_frame _ _ _ _ _ _ Hok) a) as Hf. rewrite Ht in Hf.
    by destruct (s_tasks s' !! a).
  - destruct ok; solve_counts Hp.
  - destruct ok; solve_counts Hp.
  - destruct ok; solve_counts Hp.
Qed.

Lemma run_chunk_wait y k g a :
  Yinv y → y_gs y !! k = Some g → g_pc g = PChunkWait a →
  (∀ c, s_waiters (y_sched y) !! k = Some c → cw_ready c = true →
   step_ok y ('(s, ok) ← chunkReadySection (y_sched y) a k (g_canceled g);
            Ok (set_pc y s k g (if (ok : bool) then PChunk a else PDone)))) ∧
  step_ok y (s ← chunkCancelSection (y_sched y) a k; Ok (set_pc y s k g PDone)).
Proof.
  intros Hy Hk Hp. pose proof (yi_wait _ Hy _ _ Hk) as Hw. rewrite Hp in Hw.
  destruct Hw as [(c & Hc & Hct) Ha]. split.
  - intros c0 Hc0 Hready. assert (c0 = c) as -> by congruence.
    destruct (chunk_ready_spec (Rg y) (Cg y) (Tg y) k (y_sched y) a c (g_canceled g))
      as (s' & ok & -> & Hok & Hreq); try done; try apply Hy.
    eexists. split; [done|]. eapply yinv_section; try done; rewrite ?Hp; try (by destruct ok).
    + right. split; [done|]. intros c' Hc' Hcan. rewrite (Hreq _ Hc' Hready) in Hcan. done.
    + left. by destruct ok.
    + destruct ok; solve_counts Hp.
    + destruct ok; solve_counts Hp.
    + destruct ok; solve_counts Hp.
  - destruct (chunk_cancel_spec (Rg y) (Cg y) (Tg y) k (y_sched y) a c)
      as (s' & -> & Hok & Hreq); try done; try apply Hy.
    eexists. split; [done|]. eapply yinv_section; try done; rewrite ?Hp; try done; [|by left|..].
    + right. split; [done|]. intros c' Hc' Hcan. rewrite (Hreq _ Hc') in Hcan. done.
    + solve_counts Hp.
    + solve_counts Hp.
    + solve_counts Hp.
Qed.

Lemma run_chunk y k g a :
  Yinv y → y_gs y !! k = Some g → g_pc g = PChunk a →
  step_ok y (s ← releaseChunkLocked (y_sched y) a; Ok (set_pc y s k g PDone)).
Proof.
  intros Hy Hk Hp.
  destruct (release_chunk_spec (Rg y) (Cg y) (Tg y) None (y_sched y) a) as (s' & -> & Hok); try apply Hy.
  { apply (chunks_ge y k g); [done|by rewrite Hp]. }
  eexists. split; [done|]. eapply yinv_section; try done; rewrite ?Hp; try done; [by left|by left|..];
    solve_counts Hp.
Qed.

Ltac pc_move Hy Hk Hp := eexists; split; [done|];
  eapply (yinv_move _ _ _ _ Hy Hk); rewrite ?Hp; try done; first [by left|by right|done].

Lemma run_ok y k g r :
  Yinv y → y_gs y !! k = Some g → run y k g = Some r → step_ok y r.
Proof.
  intros Hy Hk. unfold run. destruct (g_pc g) as [id dc reg|id dc a ch|id dc a ch|id dc a ch e|
    id dc a ch ok|id dc a|a| |a|a|a|a| ] eqn:Hp; try done.
  - destruct (g_canceled g); intros [= <-]; [|by apply run_loop].
    unfold after_fail. destruct reg; pc_move Hy Hk Hp.
  - case_decide; [|done]. intros [= <-]. pc_move Hy Hk Hp.
  - destruct (g_canceled g); [intros [= <-]; pc_move Hy Hk Hp|].
    destruct (fl_try_acquire _) as [l|] eqn:Hl; intros [= <-]; [|pc_move Hy Hk Hp].
    eexists. split; [done|]. by eapply run_token_try.
  - case_decide; [done|]. intros [= <-]. pc_move Hy Hk Hp.
  - intros [= <-]. by eapply run_complete.
  - intros [= <-]. apply run_rel_token; try done. right. eauto.
  - intros [= <-]. apply run_release; auto.
  - intros [= <-]. apply run_rel_token; auto.
  - intros [= <-]. apply run_release; auto.
  - intros [= <-]. by apply run_chunk_begin.
  - destruct (run_chunk_wait y k g a Hy Hk Hp) as [Hready _].
    pose proof (yi_wait _ Hy _ _ Hk) as Hw. rewrite Hp in Hw. destruct Hw as [(c & Hc & _) _].
    rewrite Hc. destruct (cw_ready c) eqn:Hr; [|done]. intros [= <-]. by apply (Hready c).
  - intros [= <-]. by apply run_chunk.
Qed.

Lemma run_ctx_ok y k g r :
  Yinv y → y_gs y !! k = Some g → run_ctx y k g = Some r → step_ok y r.
Proof.
  intros Hy Hk. unfold run_ctx. destruct (g_canceled g); [|done].
  destruct (g_pc g) as [id dc reg|id dc a ch|id dc a ch|id dc a ch e|
    id dc a ch ok|id dc a|a| |a|a|a|a| ] eqn:Hp; try done; intros [= <-].
  - pc_move Hy Hk Hp.
  - pc_move Hy Hk Hp.
  - by apply (run_chunk_wait y k g a Hy Hk Hp).
Qed.

(** ** The whole system *)

Lemma new_goroutine y k p :
  Yinv y → y_gs y !! k = None → s_waiters (y_sched y) !! k = None →
  holds_ref p = None → holds_chunk p = None → holds_token p = 0 → activator p = None →
  call_of p = None → wait_ok (y_sched y) k p →
  Yinv (mkSys (y_sched y) (<[k := mkG false p]> (y_gs y))).
Proof.
  intros Hy Hk Hw H1 H2 H3 H4 H5 H6.
  assert (Hlk : ∀ x h, <[k := mkG false p]> (y_gs y) !! x = Some h →
    (x = k ∧ h = mkG false p) ∨ (x ≠ k ∧ y_gs y !! x = Some h)).
  { intros x h [[<- <-]|[? ?]]%lookup_insert_Some; auto. }
  destruct Hy as [Hs Hz Hb Hc Hwt Ha Hu He Hf Hcl Hl Hi]. split; simpl; try done.
  - eapply Sinv_ext; [| | |exact Hs]; intros; rewrite msum_insert_None by done.
    + unfold refs_of at 2. simpl. by rewrite H1.
    + unfold chunk_of at 2. simpl. by rewrite H2.
    + unfold tok_of at 2. simpl. by rewrite H3.
  - intros x h [[-> ->]|[? Hx]]%Hlk; [|by eapply Hc]. intros id dc a. simpl. by rewrite H5.
  - intros x h [[-> ->]|[? Hx]]%Hlk; [done|by eapply Hwt].
  - intros x h a ch [[-> ->]|[? Hx]]%Hlk; [|by eapply Ha]. simpl. by rewrite H4.
  - intros x1 x2 h1 h2 a c1 c2 [[-> ->]|[? Hx1]]%Hlk [[-> ->]|[? Hx2]]%Hlk; simpl;
      rewrite ?H4; try done. by eapply Hu.
  - intros a ch (x & h & Hx & Hax)%He. exists x, h. rewrite lookup_insert_ne; [done|congruence].
  - intros w c Hc' Hcan. destruct (Hl w c Hc' Hcan) as (h & a & Hx & ?). exists h, a.
    rewrite lookup_insert_ne; [done|congruence].
Qed.

Definition is_reconfigure (e : event) : bool :=
  match e with EReconfigure _ _ _ => true | _ => false end.

Lemma reconfigure_step y f c order :
  Yinv y → order ≡ₚ (map_to_list (s_dcs (y_sched y))).*1 →
  ∃ y', (s ← Reconfigure (y_sched y) f c order; Ok (mkSys s (y_gs y))) = Ok y' ∧ Yinv y'.
Proof.
  intros Hy Ho.
  destruct (reconfigure_spec _ _ _ _ f c order (yi_sinv _ Hy) (yi_zombie _ Hy) Ho) as (s' & -> & Hok).
  eexists. split; [done|].
  destruct (Hok None) as [Hs' Hf' Hz' Hb'].
  pose proof (sf_closed _ _ _ Hf') as Hcl. pose proof (sf_next _ _ _ Hf') as Hn.
  assert (Hkp : ∀ k, keeps k (y_sched y) s').
  { intros k. exact (proj1 (sframe_keeps k _ _ _ Hf' ltac:(by left))). }
  assert (Hav : ∀ b, act s' b = act (y_sched y) b).
  { exact (proj2 (sframe_keeps 0 _ _ _ Hf' ltac:(by left))). }
  destruct Hy as [_ _ _ Hc Hwt Ha Hu He Hf Hcl0 Hl Hi]. split; simpl; try done.
  - intros k g Hk. eapply keeps_call; [apply (Hkp k)|]. by eapply Hc.
  - intros k g Hk. eapply (keeps_wait (S k)); [apply (Hkp (S k))|lia|]. by eapply Hwt.
  - intros k g a ch Hk Hac. rewrite Hav, Hcl. by eapply Ha.
  - intros a ch. rewrite Hav. apply He.
  - intros a ch. rewrite Hav, Hn. apply Hf.
  - intros ch. rewrite Hcl, Hn. apply Hcl0.
  - intros w c' Hw Hcan. pose proof (sf_waiters _ _ _ Hf' w ltac:(done)) as Hx. simpl in Hx.
    rewrite Hw in Hx. destruct (s_waiters (y_sched y) !! w) as [c0|] eqn:Hc0; [|done].
    destruct Hx as [_ Hx]. apply (Hl w c0 Hc0). destruct (cw_canceled c0); [by rewrite Hx in Hcan|done].
  - intros a1 a2 ch. rewrite !Hav. apply Hi.
Qed.

Lemma cancel_step y k g :
  Yinv y → y_gs y !! k = Some g →
  keeps_inv y (mkSys (y_sched y) (<[k := mkG true (g_pc g)]> (y_gs y))).
Proof.
  intros Hy Hk. split; [|exact (sframe_limits None _ _ (sframe_refl None _))].
  eapply (yinv_step y k g _ (y_sched y) Hy Hk (Rg y) (Cg y) (Tg y)).
  - apply (request_live y k None g (y_sched y)); try done; [apply sframe_refl|by left].
  - apply (yi_sinv _ Hy).
  - apply (yi_zombie _ Hy).
  - apply (yi_busy _ Hy).
  - apply (sframe_keeps k None _ _ (sframe_refl None _)). by left.
  - by apply ActKeep.
  - by apply (yi_call _ Hy _ _ Hk).
  - by apply (yi_wait _ Hy _ _ Hk).
  - intros a. replace (refs_of a (mkG true (g_pc g))) with (refs_of a g) by done. unfold Rg. lia.
  - intros a. replace (chunk_of a (mkG true (g_pc g))) with (chunk_of a g) by done. unfold Cg. lia.
  - replace (tok_of (mkG true (g_pc g))) with (tok_of g) by done. unfold Tg. lia.
Qed.

Lemma sys_step_ok y e r :
  Yinv y → sys_step y e = Some r →
  ∃ y', r = Ok y' ∧ Yinv y' ∧ (is_reconfigure e = false → limits_kept (y_sched y) (y_sched y')).
Proof.
  intros Hy. assert (Hself := sframe_limits None _ _ (sframe_refl None (y_sched y))).
  destruct e as [k id dc|k a|k|k|k|f c order]; simpl.
  - case_decide as Hd; [|done]. destruct Hd as (Hk & Hw & _). intros [= <-].
    eexists. split_and!; [done| |done]. by apply new_goroutine.
  - case_decide as Hd; [|done]. destruct Hd as (Hk & Hw & Ha). intros [= <-].
    eexists. split_and!; [done| |done]. by apply new_goroutine.
  - destruct (y_gs y !! k) as [g|] eqn:Hk; simpl; [|done]. intros [= <-].
    eexists. split; [done|]. destruct (cancel_step y k g Hy Hk). auto.
  - destruct (y_gs y !! k) as [g|] eqn:Hk; simpl; [|done]. intros Hr.
    destruct (run_ok y k g r Hy Hk Hr) as (y' & -> & ? & ?). by exists y'.
  - destruct (y_gs y !! k) as [g|] eqn:Hk; simpl; [|done]. intros Hr.
    destruct (run_ctx_ok y k g r Hy Hk Hr) as (y' & -> & ? & ?). by exists y'.
  - case_decide as Hd; [|done]. intros [= <-].
    destruct (reconfigure_step y f c order Hy Hd) as (y' & -> & ?). by exists y'.
Qed.

Lemma init_inv f c : Yinv (sys_init f c).
Proof. split; simpl; done. Qed.

Lemma reachable_inv f c y : reachable f c y → Yinv y.
Proof.
  induction 1 as [|y e y' _ IH Hstep]; [apply init_inv|].
  destruct (sys_step_ok _ _ _ IH Hstep) as (y1 & ? & ? & _). by simplify_eq.
Qed.

(** ** Counting leases against lanes *)

(** Chunk leases held on files of data centre [d]. *)
Definition lease_on (s : Scheduler) (d : Z) (g : gor) : Z :=
  match g_pc g with
  | PChunk a => match s_tasks s !! a with
                | Some t => if ts_dc t =? d then 1 else 0
                | None => 0
                end
  | _ => 0
  end.
Definition leases (y : sys) (d : Z) : Z := msum (lease_on (y_sched y) d) (y_gs y).

(** Files that currently occupy a place of the global file limit. *)
Definition active_files (y : sys) : Z := msum act1 (s_tasks (y_sched y)).

Definition ksum (f : nat → taskState → Z) (m : gmap nat taskState) : Z :=
  map_fold (λ k v acc, f k v + acc) 0 m.

Lemma ksum_insert f m k v : m !! k = None → ksum f (<[k:=v]> m) = f k v + ksum f m.
Proof. intros Hk. unfold ksum. rewrite map_fold_insert_L; [done| |done]. intros; lia. Qed.

Lemma ksum_empty f : ksum f ∅ = 0.
Proof. apply map_fold_empty. Qed.

Lemma ksum_le f h m : (∀ k v, m !! k = Some v → f k v ≤ h v) → ksum f m ≤ msum h m.
Proof.
  induction m as [|k v m Hk IH] using map_ind; intros Hle.
  { by rewrite ksum_empty, msum_empty. }
  rewrite ksum_insert, msum_insert_None by done.
  pose proof (Hle k v (lookup_insert_eq _ _ _)).
  enough (ksum f m ≤ msum h m) by lia. apply IH. intros k' v' Hk'. apply Hle.
  rewrite lookup_insert_ne; [done|congruence].
Qed.

Lemma ksum_ext f h m : (∀ k v, f k v = h k v) → ksum f m = ksum h m.
Proof.
  intros Hfh. induction m as [|k v m Hk IH] using map_ind; [by rewrite !ksum_empty|].
  by rewrite !ksum_insert, Hfh, IH by done.
Qed.

Lemma ksum_plus f h m : ksum (λ k v, f k v + h k v) m = ksum f m + ksum h m.
Proof.
  induction m as [|k v m Hk IH] using map_ind; [by rewrite !ksum_empty|].
  rewrite !ksum_insert, IH by done. lia.
Qed.

Lemma ksum_one f m k v : m !! k = Some v → (∀ k' v', k' ≠ k → f k' v' = 0) → ksum f m = f k v.
Proof.
  induction m as [|k0 v0 m Hk0 IH] using map_ind; intros Hk Hf; [by rewrite lookup_empty in Hk|].
  rewrite ksum_insert by done. destruct (decide (k0 = k)) as [->|Hne]; simplify_map_eq.
  - assert (ksum f m = 0) as ->; [|lia]. clear IH.
    induction m as [|k1 v1 m Hk1 IH] using map_ind; [apply ksum_empty|].
    apply lookup_insert_None in Hk0 as [? ?]. rewrite ksum_insert, Hf, IH by done. done.
  - rewrite (IH Hk Hf), Hf by done. lia.
Qed.

Lemma ksum_zero f m : (∀ k v, m !! k = Some v → f k v = 0) → ksum f m = 0.
Proof.
  induction m as [|k v m Hk IH] using map_ind; intros Hf; [apply ksum_empty|].
  rewrite ksum_insert, (Hf k v) by (done || apply lookup_insert_eq). rewrite IH; [done|].
  intros k' v' Hk'. apply Hf. rewrite lookup_insert_ne; [done|congruence].
Qed.

Lemma leases_by_file s d (gs : gmap nat gor) :
  msum (lease_on s d) gs =
  ksum (λ a t, if ts_dc t =? d then msum (chunk_of a) gs else 0) (s_tasks s).
Proof.
  induction gs as [|k g gs Hk IH] using map_ind.
  { rewrite msum_empty, ksum_zero; [done|]. intros a t _. rewrite msum_empty. by destruct (ts_dc t =? d). }
  rewrite msum_insert_None, IH by done.
  replace (lease_on s d g) with
    (ksum (λ a t, if ts_dc t =? d then chunk_of a g else 0) (s_tasks s)).
  { rewrite <- ksum_plus. apply ksum_ext. intros a t.
    rewrite msum_insert_None by done. destruct (ts_dc t =? d); lia. }
  unfold lease_on, chunk_of.
  destruct (g_pc g) as [| | | | | | | | | | |a0|]; simpl;
    try (apply ksum_zero; intros ? t _; by destruct (ts_dc t =? d)).
  destruct (s_tasks s !! a0) as [t0|] eqn:Ht0.
  - rewrite (ksum_one _ _ a0 t0) by (try done; intros a t Hne; rewrite decide_False by congruence;
      by destruct (ts_dc t =? d)). by rewrite decide_True.
  - apply ksum_zero. intros a t Ha. rewrite decide_False by congruence. by destruct (ts_dc t =? d).
Qed.

Lemma leases_le y d : Yinv y → leases y d ≤ dc_load (y_sched y) d.
Proof.
  intros Hy. unfold leases. rewrite leases_by_file, (si_load _ _ _ _ (yi_sinv _ Hy)).
  apply ksum_le. intros a t Ht. unfold dcload. destruct (ts_dc t =? d); [|done].
  rewrite (to_inFlight _ _ _ _ _ (si_tasks _ _ _ _ (yi_sinv _ Hy) _ _ Ht)).
  pose proof (granted_for_nonneg a (s_waiters (y_sched y))). lia.
Qed.
