(* ===== verification/SchedulerThms.v ===== *)
(** * What the download scheduler guarantees

    The theorems about the scheduler of Scheduler.v, over every interleaving
    of its goroutines: [exec] runs a schedule of events, and a state is
    [reachable] when some schedule leads to it. *)

From stdpp Require Import sorting.
From S2P Require Import Prelude Scheduler SchedulerInv SchedulerOps SchedulerSys.

(** ** Running schedules *)

Definition exec1 (y : sys) (e : event) : option sys :=
  match sys_step y e with Some (Ok y') => Some y' | _ => None end.

Fixpoint exec (y : sys) (evs : list event) : option sys :=
  match evs with
  | [] => Some y
  | e :: evs => y' ← exec1 y e; exec y' evs
  end.

Lemma exec1_step y e y' : exec1 y e = Some y' ↔ sys_step y e = Some (Ok y').
Proof. unfold exec1. destruct (sys_step y e) as [[?|?]|]; split; congruence. Qed.

Lemma exec_reachable f c y evs y' : reachable f c y → exec y evs = Some y' → reachable f c y'.
Proof.
  revert y. induction evs as [|e evs IH]; simpl; intros y Hr; [congruence|].
  destruct (exec1 y e) as [y1|] eqn:H1; simpl; [|done].
  apply IH. apply exec1_step in H1. by eapply reach_step.
Qed.

Lemma exec_limits y evs y' :
  Yinv y → forallb (λ e, negb (is_reconfigure e)) evs = true → exec y evs = Some y' →
  Yinv y' ∧ limits_kept (y_sched y) (y_sched y').
Proof.
  revert y. induction evs as [|e evs IH]; simpl; intros y Hy.
  { intros _ [= <-]. split; [done|exact (sframe_limits None _ _ (sframe_refl None _))]. }
  intros [He Hes]%andb_prop. destruct (exec1 y e) as [y1|] eqn:H1; simpl; [|done].
  apply exec1_step in H1. destruct (sys_step_ok _ _ _ Hy H1) as (? & ? & Hy1 & Hl). simplify_eq.
  destruct Hl as [Hc1 Hf1 Hl1 Hu1]; [by apply negb_true_iff|].
  intros Hx. destruct (IH _ Hy1 Hes Hx) as [Hy' [Hc2 Hf2 Hl2 Hu2]]. split; [done|].
  split; [congruence|congruence|intros d; specialize (Hl1 d); specialize (Hl2 d)|]; lia.
Qed.

Lemma active_files_le y : Yinv y → active_files y ≤ fl_used (s_fileTokens (y_sched y)).
Proof.
  intros Hy. rewrite (si_tokens _ _ _ _ (yi_sinv _ Hy)). pose proof (si_T _ _ _ _ (yi_sinv _ Hy)).
  unfold active_files. lia.
Qed.

Lemma normalizeLimit_pos v : 1 ≤ normalizeLimit v.
Proof. unfold normalizeLimit. destruct (Z.ltb_spec v 1); lia. Qed.

(** ** File order of one released lane *)

Lemma lane_freed_queue s a t dc b :
  s_tasks s !! a = Some t → queue (lane_freed s a t dc) b = queue s b.
Proof.
  intros Ht. unfold queue. simpl. destruct (decide (a = b)) as [->|]; [|by rewrite lookup_insert_ne].
  by rewrite lookup_insert_eq, Ht.
Qed.

Lemma dispatch_order R C T s d s' dc :
  Sinv R C T s → dispatchLocked s d = Ok s' → s_dcs s !! d = Some dc →
  granted_in_file_order s s' (dc_tasks dc) ∧ ∀ a, (queue s' a) `suffix_of` (queue s a).
Proof.
  intros Hs Hd Hdc. destruct (dispatch_spec _ _ _ d _ Hs) as (s1 & Hd1 & _ & Hp).
  rewrite Hd in Hd1. simplify_eq. split; [by apply Hp|apply Hp].
Qed.

(** *** Which request a released lane serves *)

(** Between [s] and [s'] a request is granted only if a lane is free and it is
    the next one of these files, and then it is. *)
Definition serves_next (s s' : Scheduler) (tasks : list nat) (free : bool) : Prop :=
  (∀ w c', s_waiters s' !! w = Some c' → s_waiters s !! w ≠ Some c' →
     free = true ∧ cw_granted c' = true ∧ next_request s tasks = Some (cw_task c', w)) ∧
  (free = true → ∀ b w, next_request s tasks = Some (b, w) →
     ∃ c', s_waiters s' !! w = Some c' ∧ cw_granted c' = true ∧ cw_ready c' = true ∧ cw_task c' = b).

Lemma serves_none s s' tasks free :
  s_waiters s' = s_waiters s → (free = true → next_request s tasks = None) → serves_next s s' tasks free.
Proof. intros Hw Hn. split; [intros w c'; by rewrite Hw|]. intros Hf b w H. by rewrite (Hn Hf) in H. Qed.

(** With one free lane at most, dispatching serves the next request. *)
Lemma dispatch_next R C T s d dc s' :
  Sinv R C T s → s_dcs s !! d = Some dc → s_capacity s ≤ dc_inFlight dc + 1 → dispatchLocked s d = Ok s' →
  serves_next s s' (dc_tasks dc) (dc_inFlight dc <? s_capacity s).
Proof.
  intros Hs Hd Hcap. unfold dispatchLocked. rewrite Hd. destruct (dc_tasks dc) as [|a0 l] eqn:Hl.
  { intros [= <-]. by apply serves_none. }
  rewrite <- Hl. clear a0 l Hl. cbn [dispatch_loop]. unfold dc_get at 1. rewrite Hd. cbn [mbind res_bind].
  destruct (Z.ltb_spec (dc_inFlight dc) (s_capacity s)) as [Hlt|]; [|intros [= <-]; by apply serves_none].
  destruct (si_dcs _ _ _ _ Hs _ _ Hd) as [Hnd Hin].
  destruct (firstFileWaiter_spec R C T d s (dc_tasks dc)) as (s1 & r & Hf & Hs1 & Hf1 & Hdcs & Hws & _ & _ & Hpost); [done|done| |].
  { intros a (t & ? & ? & ?)%Hin. eauto. }
  rewrite Hf. cbn [mbind res_bind]. pose proof (firstFileWaiter_next _ _ _ _ Hnd Hf) as Hnext.
  destruct r as [[a w]|]; [|intros [= <-]; by apply serves_none].
  destruct Hpost as (bef & aft & Heq & _ & Hcan & Hwq & Hwn & _).
  destruct (proj1 (Hin a) ltac:(rewrite Heq; set_solver)) as (t0 & Ht0 & Hact0 & Hdc0).
  destruct (dframe_task _ _ _ _ _ Hf1 Ht0) as (t & Ht & (_ & Hdc & _ & Hact & _ & _)).
  destruct (grant_spec R C T s1 d a w t dc) as (s2 & -> & _ & Hf2 & _ & Hwo & (c & Hc & Hct & Hcg & Hcr) & Hd2);
    try done; try congruence.
  { by rewrite (df_capacity _ _ _ Hf1). }
  { rewrite Hws. apply (si_tasks _ _ _ _ Hs _ _ Ht0). by rewrite <- (queue_lookup _ _ _ Ht0). }
  { by rewrite <- (queue_lookup _ _ _ Ht). }
  cbn [mbind res_bind]. destruct (queued s (dc_tasks dc)) as [|n]; cbn [dispatch_loop]; [done|].
  unfold dc_get at 1. rewrite Hd2. cbn [mbind res_bind dc_inFlight].
  rewrite (df_capacity _ _ _ Hf2), (df_capacity _ _ _ Hf1), (proj2 (Z.ltb_ge _ _)) by lia. intros [= <-].
  split.
  - intros x cx Hx Hn. destruct (decide (x = w)) as [->|Hne].
    + rewrite Hc in Hx. injection Hx as <-. by rewrite Hct.
    + rewrite Hwo, Hws in Hx by done. done.
  - intros _ b x Hx. rewrite Hx in Hnext. injection Hnext as -> ->. exists c. done.
Qed.

Lemma next_request_frame s1 s2 l :
  s_waiters s1 = s_waiters s2 → (∀ a, queue s1 a = queue s2 a) → next_request s1 l = next_request s2 l.
Proof.
  intros Hw Hq. unfold next_request. f_equal. induction l as [|a l IH]; [done|]. cbn. rewrite IH. unfold live. by rewrite Hq, Hw.
Qed.
Lemma next_request_remove s a l : queue s a = [] → next_request s (remove_first a l) = next_request s l.
Proof.
  intros Hq. unfold next_request. f_equal. induction l as [|b l IH]; [done|]. cbn [remove_first].
  destruct (decide (b = a)) as [->|Hne]; cbn; [unfold live; by rewrite Hq|by rewrite <- IH].
Qed.
Lemma next_request_empty s l : (∀ a, a ∈ l → queue s a = []) → next_request s l = None.
Proof.
  intros Hq. unfold next_request. induction l as [|a l IH]; [done|]. cbn. unfold live. rewrite Hq by left. cbn.
  apply IH. intros b Hb. apply Hq. by right.
Qed.
Lemma serves_frame s1 s2 s' l l' free :
  s_waiters s1 = s_waiters s2 → next_request s1 l = next_request s2 l' → serves_next s1 s' l free → serves_next s2 s' l' free.
Proof. intros Hw Hn [H1 H2]. unfold serves_next. rewrite <- Hw, <- Hn. done. Qed.

(** A dispatch with nothing queued grants nothing. *)
Lemma dispatch_idle R C T s d dc s' free :
  Sinv R C T s → s_dcs s !! d = Some dc → (∀ a, a ∈ dc_tasks dc → queue s a = []) → dispatchLocked s d = Ok s' →
  serves_next s s' (dc_tasks dc) free.
Proof.
  intros Hs Hd Hq H. destruct (dispatch_order _ _ _ _ _ _ _ Hs H Hd) as [Ho _].
  assert (Hnone : next_request s (dc_tasks dc) = None) by by apply next_request_empty.
  split; [|intros _ b w Hb; congruence]. intros w c' Hw Hn. exfalso.
  destruct (Ho w c' Hw Hn) as (_ & Hin & bef & aft & Heq & _). rewrite (Hq (cw_task c')) in Hin by (rewrite Heq; set_solver).
  by apply elem_of_nil in Hin.
Qed.

Lemma dispatch_serves R C T s d dc s' :
  Sinv R C T s → s_dcs s !! d = Some dc →
  (dc_inFlight dc + 1 < s_capacity s → ∀ a, a ∈ dc_tasks dc → queue s a = []) → dispatchLocked s d = Ok s' →
  serves_next s s' (dc_tasks dc) (dc_inFlight dc <? s_capacity s).
Proof.
  intros Hs Hd Hq H. destruct (Z.lt_ge_cases (dc_inFlight dc + 1) (s_capacity s)) as [Hlt|Hge].
  - eapply dispatch_idle; eauto.
  - eapply dispatch_next; eauto.
Qed.

Lemma release_chunk_serves R C T s a t dc s' :
  Sinv R C T s → all_busy s → 1 ≤ C a → s_tasks s !! a = Some t → ts_active t = true →
  s_dcs s !! ts_dc t = Some dc → releaseChunkLocked s a = Ok s' →
  serves_next s s' (dc_tasks dc) (dc_inFlight dc - 1 <? s_capacity s).
Proof.
  intros Hs Hbusy HC Ht Ha Hd. unfold releaseChunkLocked, task at 1. rewrite Ht. simpl. rewrite Hd.
  destruct (_ || _); [done|]. fold (lane_freed s a t dc).
  set (s1 := lane_freed s a t dc). set (dc1 := mkDC (dc_tasks dc) (dc_inFlight dc - 1)).
  assert (Hs1 : Sinv R (bump C a (-1)) T s1) by by apply Sinv_lane_freed.
  assert (Ht1 : s_tasks s1 !! a = Some (t_inFlight t (ts_inFlight t - 1))) by apply lookup_insert_eq.
  assert (Hd1 : s_dcs s1 !! ts_dc t = Some dc1) by apply lookup_insert_eq.
  assert (Hq1 : ∀ b, queue s1 b = queue s b) by (intros b; by apply lane_freed_queue).
  assert (Hidle : dc_inFlight dc - 1 + 1 < s_capacity s → ∀ b, b ∈ dc_tasks dc → queue s b = []).
  { intros Hlt b Hb. destruct (Hbusy _ _ Hd) as [?|Hempty]; [lia|].
    destruct (proj1 (proj2 (si_dcs _ _ _ _ Hs _ _ Hd) b) Hb) as (u & Hu & _).
    rewrite (queue_lookup _ _ _ Hu). by eapply Hempty. }
  destruct (_ && _) eqn:Hlast.
  - apply andb_prop in Hlast as [Hr0%Z.eqb_eq Hi0%Z.eqb_eq].
    intros (s2 & H2 & H3)%res_bind_ok. unfold releaseToken in H3.
    apply res_bind_ok in H3 as (l & _ & [= <-]).
    unfold removeActiveTaskLocked, task in H2. rewrite Ht1 in H2. simpl in H2. rewrite lookup_insert_eq in H2.
    set (s3 := deactivated s1 a (t_inFlight t (ts_inFlight t - 1)) dc1).
    assert (Hs3 : Sinv R (bump C a (-1)) (T + 1) s3) by (by apply Sinv_deactivated).
    assert (Hq3 : ∀ b, queue s3 b = queue s b).
    { intros b. rewrite <- Hq1. unfold queue. simpl.
      destruct (decide (a = b)) as [->|]; [by rewrite !lookup_insert_eq|by rewrite !lookup_insert_ne]. }
    assert (Hqa : queue s a = []).
    { rewrite (queue_lookup _ _ _ Ht). apply (to_unref _ _ _ _ _ (si_tasks _ _ _ _ Hs _ _ Ht) Hr0). }
    apply (serves_frame s3 s _ (remove_first a (dc_tasks dc))); [done|by rewrite (next_request_frame s3 s), next_request_remove|].
    apply (dispatch_serves _ _ _ s3 (ts_dc t) (mkDC (remove_first a (dc_tasks dc)) (dc_inFlight dc - 1)) s2 Hs3);
      [apply lookup_insert_eq| |exact H2].
    intros Hlt b Hb. rewrite Hq3. apply Hidle; [done|].
    apply elem_of_remove_first in Hb as [? _]; [done|]. apply (si_dcs _ _ _ _ Hs _ _ Hd).
  - intros H2. apply (serves_frame s1 s _ (dc_tasks dc)); [done|by apply next_request_frame|].
    apply (dispatch_serves _ _ _ s1 (ts_dc t) dc1 s' Hs1 Hd1); [|exact H2]. intros Hlt b Hb. rewrite Hq1. by apply Hidle.
Qed.

(** ** No file slot is freed unnoticed

    [fl_mono l l']: either nobody signalled between [l] and [l'] and no slot
    was freed, or the channel observed in [l] is closed in [l']. *)
Definition fl_mono (l l' : fileLimiter) : Prop :=
  (fl_changed l ≤ fl_changed l')%nat ∧
  (fl_changed l' = fl_changed l → fl_limit l' = fl_limit l ∧ fl_used l ≤ fl_used l').
Definition tok_mono (s s' : Scheduler) : Prop := fl_mono (s_fileTokens s) (s_fileTokens s').

#[export] Instance tok_mono_preorder : PreOrder tok_mono.
Proof.
  split; [intros s; unfold tok_mono, fl_mono; lia|].
  intros s1 s2 s3. unfold tok_mono, fl_mono. intros [? H1] [? H2].
  split; [lia|]. intros Heq. destruct H1, H2; lia.
Qed.

Lemma tok_mono_eq s s' : s_fileTokens s' = s_fileTokens s → tok_mono s s'.
Proof. unfold tok_mono, fl_mono. intros ->. lia. Qed.

Lemma scan_tokens tasks : ∀ s s' r,
  firstFileWaiter s tasks = Ok (s', r) → s_fileTokens s' = s_fileTokens s.
Proof.
  induction tasks as [|a l IH]; intros s s' r; simpl; [congruence|].
  intros (t & Ht & H)%res_bind_ok. destruct (pruneCanceledWaiters _ _) as [|w q].
  - by rewrite (IH _ _ _ H).
  - destruct (popWaiter _ _) as [q' w']. by injection H as <- _.
Qed.

Lemma grant_tokens s d a w s' : grant s d a w = Ok s' → s_fileTokens s' = s_fileTokens s.
Proof.
  unfold grant. intros (c & _ & H)%res_bind_ok. apply res_bind_ok in H as (t & _ & H).
  apply res_bind_ok in H as (dc & _ & H). destruct (cw_ready c); [done|]. by injection H as <-.
Qed.

Lemma dispatch_tokens s d s' : dispatchLocked s d = Ok s' → tok_mono s s'.
Proof.
  intros H. apply tok_mono_eq. revert H. unfold dispatchLocked.
  destruct (s_dcs s !! d) as [[[|a l] n]|]; [simpl; congruence| |congruence]. cbn [dc_tasks].
  generalize (S (queued s (a :: l))) as fuel. intros fuel. revert s.
  induction fuel as [|fuel IH]; intros s; simpl; [done|].
  intros (dc & _ & H)%res_bind_ok. destruct (dc_inFlight dc <? s_capacity s); [|congruence].
  apply res_bind_ok in H as ([s1 r] & H1 & H). apply scan_tokens in H1. destruct r as [[b w]|].
  - apply res_bind_ok in H as (s2 & H2 & H). apply grant_tokens in H2. rewrite (IH _ H). congruence.
  - congruence.
Qed.

Lemma release_token_mono s s' : releaseToken s = Ok s' → tok_mono s s'.
Proof.
  unfold releaseToken, fl_release. intros (l & Hl & [= <-])%res_bind_ok.
  destruct (_ =? 0); [done|]. injection Hl as <-. unfold tok_mono, fl_mono. simpl. lia.
Qed.

Lemma remove_active_mono s a s' : removeActiveTaskLocked s a = Ok s' → tok_mono s s'.
Proof.
  unfold removeActiveTaskLocked. intros (t & _ & H)%res_bind_ok.
  apply dispatch_tokens in H. etrans; [|exact H]. apply tok_mono_eq. simpl.
  by destruct (s_dcs s !! ts_dc t).
Qed.

Lemma release_chunk_mono s a s' : releaseChunkLocked s a = Ok s' → tok_mono s s'.
Proof.
  unfold releaseChunkLocked. intros (t & _ & H)%res_bind_ok.
  destruct (s_dcs s !! ts_dc t); [|done]. destruct (_ || _); [done|]. destruct (_ && _).
  - apply res_bind_ok in H as (s1 & H1 & H). apply remove_active_mono in H1.
    apply release_token_mono in H. by rewrite <- H.
  - by apply dispatch_tokens in H.
Qed.

Lemma release_task_mono s a s' b : releaseTask s a = Ok (s', b) → tok_mono s s'.
Proof.
  unfold releaseTask. intros (t & _ & H)%res_bind_ok. destruct (negb _); [by injection H as <- _|].
  simpl in H. destruct (negb _); [by injection H as <- _|].
  apply res_bind_ok in H as (ws & _ & H). destruct (_ && _).
  - apply res_bind_ok in H as (s1 & H1 & [= <- _]). by apply remove_active_mono in H1.
  - destruct (_ && _); by injection H as <- _.
Qed.

Lemma complete_mono s a ready ok s' b :
  completeActivation s a ready ok = Ok (s', b) → tok_mono s s'.
Proof.
  unfold completeActivation. intros (t & _ & H)%res_bind_ok.
  destruct (negb _); [by injection H as <- _|]. destruct (negb _); [by injection H as <- _|].
  apply res_bind_ok in H as (s1 & H1 & H). case_bool_decide; [done|]. injection H as <- _.
  destruct ok; [|by injection H1 as <-].
  destruct (dcLocked _ _) as [s2 dc] eqn:Hd. apply dispatch_tokens in H1.
  etrans; [|exact H1]. apply tok_mono_eq. simpl.
  unfold dcLocked in Hd. simpl in Hd. destruct (s_dcs s !! ts_dc t); by injection Hd as <- _.
Qed.

Lemma acquire_mono s id dc reg s' o : acquireSection s id dc reg = Ok (s', o) → tok_mono s s'.
Proof.
  intros H. apply tok_mono_eq. revert H. unfold acquireSection.
  destruct (s_files s !! id) as [a|]; intros (t & _ & H)%res_bind_ok;
    (destruct (negb _); [by injection H as <- _|]);
    simpl in H; (destruct (ts_active _); [by injection H as <- _|]);
    destruct (ts_activating _); by injection H as <- _.
Qed.

Lemma chunk_begin_mono s a w b s' ok : acquireChunkSection s a w b = Ok (s', ok) → tok_mono s s'.
Proof.
  unfold acquireChunkSection. intros (t & _ & H)%res_bind_ok. destruct b; [by injection H as <- _|].
  destruct (_ || _); [by injection H as <- _|].
  apply res_bind_ok in H as (s1 & H1 & [= <- _]). by apply dispatch_tokens in H1.
Qed.

Lemma chunk_ready_mono s a w b s' ok : chunkReadySection s a w b = Ok (s', ok) → tok_mono s s'.
Proof.
  unfold chunkReadySection. destruct (s_waiters s !! w) as [c|]; [|done].
  intros (s1 & H1 & [= <- _])%res_bind_ok. destruct (cw_granted c); simpl in H1; [|by injection H1 as <-].
  destruct b; [by apply release_chunk_mono in H1|by injection H1 as <-].
Qed.

Lemma chunk_cancel_mono s a w s' : chunkCancelSection s a w = Ok s' → tok_mono s s'.
Proof.
  unfold chunkCancelSection. destruct (s_waiters s !! w) as [c|]; [|done].
  destruct (cw_granted c); [by intros H%release_chunk_mono|].
  by intros (t & _ & H%dispatch_tokens)%res_bind_ok.
Qed.

Lemma reconfigure_mono s f d order s' : Reconfigure s f d order = Ok s' → tok_mono s s'.
Proof.
  unfold Reconfigure. intros H.
  set (s1 := with_tokens _ _) in H. trans s1; [unfold tok_mono, fl_mono; simpl; lia|].
  eapply (foldM_inv (tok_mono s1)); [reflexivity| |exact H].
  intros x d' x' _ Hx H1%dispatch_tokens. by rewrite <- H1.
Qed.

(** A goroutine parked on the current [changed] channel found no free slot. *)
Definition parked_ok (s : Scheduler) (p : pc) : Prop :=
  match p with
  | PTokWait _ _ _ _ ch => (ch ≤ fl_changed (s_fileTokens s))%nat ∧
      (ch = fl_changed (s_fileTokens s) → fl_limit (s_fileTokens s) ≤ fl_used (s_fileTokens s))
  | _ => True
  end.
Definition all_parked_ok (y : sys) : Prop :=
  ∀ k g, y_gs y !! k = Some g → parked_ok (y_sched y) (g_pc g).

Lemma parked_mono s s' p : tok_mono s s' → parked_ok s p → parked_ok s' p.
Proof.
  unfold tok_mono, fl_mono. destruct p; simpl; try done. intros [? Hm] [? Hp].
  split; [lia|]. intros ->. destruct Hm; [lia|]. lia.
Qed.

Lemma parked_set y k g s' p :
  all_parked_ok y → tok_mono (y_sched y) s' → parked_ok s' p → all_parked_ok (set_pc y s' k g p).
Proof.
  intros Hy Hm Hp x h Hx. simpl in Hx.
  apply lookup_insert_Some in Hx as [[<- <-]|[_ Hx]]; [done|].
  eapply parked_mono; [done|by eapply Hy].
Qed.

Create HintDb tok discriminated.
#[local] Hint Resolve acquire_mono complete_mono release_task_mono release_token_mono
  release_chunk_mono chunk_begin_mono chunk_ready_mono chunk_cancel_mono : tok.
#[local] Hint Extern 1 (tok_mono ?s ?s) => reflexivity : tok.

(** Open a section's result and close the step with [parked_set]. *)
Ltac parked_step Hr y' :=
  apply (inj Some) in Hr;
  repeat (let x := fresh "r" in let H1 := fresh "H" in
          apply res_bind_ok in Hr as (x & H1 & Hr));
  repeat match goal with r : (_ * _)%type |- _ => destruct r end;
  simpl in Hr; apply (inj Ok) in Hr; subst y'; eapply parked_set; [eassumption|eauto with tok|simpl].

Lemma run_parked y k g y' :
  all_parked_ok y → run y k g = Some (Ok y') → all_parked_ok y'.
Proof.
  intros Hy Hr. unfold run in Hr. destruct (g_pc g) as [id dc reg|id dc a ch|id dc a ch|id dc a ch e|
    id dc a ch ok|id dc a|a| |a|a|a|a| ]; try done.
  - destruct (g_canceled g).
    + unfold after_fail in Hr. parked_step Hr y'. by destruct reg.
    + apply (inj Some) in Hr. apply res_bind_ok in Hr as ([s o] & H1 & Hr).
      apply acquire_mono in H1.
      destruct o; simpl in Hr; apply (inj Ok) in Hr; subst y'; eapply (parked_set y k g s); try done.
      simpl. by destruct reg.
  - case_decide; [|done]. by parked_step Hr y'.
  - destruct (g_canceled g); [by parked_step Hr y'|].
    unfold fl_try_acquire in Hr. destruct (Z.ltb_spec (fl_used (s_fileTokens (y_sched y)))
      (fl_limit (s_fileTokens (y_sched y)))); [|by parked_step Hr y'].
    injection Hr as <-. eapply parked_set; [done| |done]. unfold tok_mono, fl_mono. simpl. lia.
  - case_decide; [done|]. by parked_step Hr y'.
  - parked_step Hr y'. destruct b; [done|]. by destruct ok.
  - by parked_step Hr y'.
  - parked_step Hr y'. by destruct b.
  - by parked_step Hr y'.
  - parked_step Hr y'. by destruct b.
  - parked_step Hr y'. by destruct b.
  - destruct (s_waiters (y_sched y) !! k) as [c|]; [|done]. destruct (cw_ready c); [|done].
    parked_step Hr y'. by destruct b.
  - by parked_step Hr y'.
Qed.

Lemma step_parked y e y' : all_parked_ok y → sys_step y e = Some (Ok y') → all_parked_ok y'.
Proof.
  intros Hy. destruct e as [k id dc|k a|k|k|k|f c order]; simpl.
  1, 2: case_decide; [|done]; intros [= <-]; by eapply (parked_set y k (mkG false PDone)).
  - destruct (y_gs y !! k) as [g|] eqn:Hk; simpl; [|done]. intros [= <-].
    eapply (parked_set y k (mkG true PDone)); [done|reflexivity|by eapply Hy].
  - destruct (y_gs y !! k) as [g|] eqn:Hk; simpl; [|done]. by apply run_parked.
  - destruct (y_gs y !! k) as [g|] eqn:Hk; simpl; [|done]. unfold run_ctx.
    destruct (g_canceled g); [|done]. destruct (g_pc g); intros Hr; try done; by parked_step Hr y'.
  - case_decide; [|done]. intros Hr. injection Hr as Hr.
    apply res_bind_ok in Hr as (s & H1%reconfigure_mono & [= <-]).
    intros x h Hx. eapply parked_mono; [exact H1|by eapply Hy].
Qed.

Lemma reachable_parked f c y : reachable f c y → all_parked_ok y.
Proof.
  induction 1 as [|y e y' _ IH Hs]; [by intros k g|]. by eapply step_parked.
Qed.

(** ** Properties *)

(** A schedule used by the witnesses: two files in data centre 1, one lane. *)
Definition demo : list event :=
  [EAcquire 0 "f" 1; ERun 0; ERun 0; ERun 0; ERun 0;      (* holds file at address 0 *)
   EAcquire 1 "g" 1; ERun 1; ERun 1; ERun 1; ERun 1;      (* holds file at address 2 *)
   EAcquireChunk 10 0; ERun 10; ERun 10;                  (* takes the lane *)
   EAcquireChunk 11 0; ERun 11; EAcquireChunk 12 2; ERun 12].

Definition demo_state (f c : Z) (evs : list event) : sys :=
  default (sys_init f c) (exec (sys_init f c) evs).

Lemma demo_reachable f c evs : reachable f c (demo_state f c evs).
Proof.
  unfold demo_state. destruct (exec (sys_init f c) evs) as [y|] eqn:H; simpl.
  - eapply exec_reachable; [apply reach_init|done].
  - apply reach_init.
Qed.

(** C1: No interleaving of the scheduler's operations reaches one of its
    panics: over-releasing a chunk lease or a file token, closing a channel
    twice, or dereferencing a missing file, waiter or data centre; and the
    dispatch loop ends within the number of queued requests plus one. *)
Theorem scheduler_never_panics f c y e msg :
  reachable f c y → sys_step y e ≠ Some (Err msg).
Proof.
  intros Hr He. destruct (sys_step_ok _ _ _ (reachable_inv _ _ _ Hr) He) as (y' & ? & _). done.
Qed.

Lemma scheduler_never_panics_witness :
  sys_step (demo_state 2 1 demo) (ERun 10) ≠ Some (Err "download chunk lease over-release"%string).
Proof. apply (scheduler_never_panics 2 1). apply demo_reachable. Defined.

(** C2: As long as the limits are not reconfigured, at most [maxFiles] files
    are active at once and at most [perDCCapacity] chunk leases are
    outstanding on every data centre (both at least 1). *)
Theorem scheduler_limits f c evs y :
  forallb (λ e, negb (is_reconfigure e)) evs = true → exec (sys_init f c) evs = Some y →
  active_files y ≤ normalizeLimit f ∧ ∀ d, leases y d ≤ normalizeLimit c.
Proof.
  intros He Hx. destruct (exec_limits _ _ _ (init_inv f c) He Hx) as [Hy [_ _ Hl Hu]].
  pose proof (active_files_le _ Hy). pose proof (normalizeLimit_pos f). pose proof (normalizeLimit_pos c).
  simpl in Hu. split; [lia|]. intros d. pose proof (leases_le _ d Hy). specialize (Hl d).
  replace (dc_load (y_sched (sys_init f c)) d) with 0 in Hl by done. simpl in Hl. lia.
Qed.

Lemma scheduler_limits_witness :
  active_files (demo_state 2 1 demo) ≤ 2 ∧ ∀ d, leases (demo_state 2 1 demo) d ≤ 1.
Proof. apply (scheduler_limits 2 1 demo); vm_compute; reflexivity. Defined.

(** After a [Reconfigure] that shrinks a limit, existing leases finish
    under the old load while nothing new is admitted above the new one: from
    any reachable state, without further reconfiguration, active files and
    outstanding leases stay below the larger of the current usage and the
    current limit. *)
Theorem scheduler_shrinks f c y evs y' :
  reachable f c y → forallb (λ e, negb (is_reconfigure e)) evs = true → exec y evs = Some y' →
  active_files y' ≤ Z.max (fl_used (s_fileTokens (y_sched y))) (fl_limit (s_fileTokens (y_sched y))) ∧
  ∀ d, leases y' d ≤ Z.max (dc_load (y_sched y) d) (s_capacity (y_sched y)).
Proof.
  intros Hr He Hx.
  destruct (exec_limits _ _ _ (reachable_inv _ _ _ Hr) He Hx) as [Hy [_ _ Hl Hu]].
  pose proof (active_files_le _ Hy). split; [lia|].
  intros d. pose proof (leases_le _ d Hy). specialize (Hl d). lia.
Qed.

Lemma scheduler_shrinks_witness :
  active_files (demo_state 2 2 (demo ++ [EReconfigure 1 1 [1]; ERun 10])) ≤ Z.max 2 1 ∧
  ∀ d, leases (demo_state 2 2 (demo ++ [EReconfigure 1 1 [1]; ERun 10])) d ≤
       Z.max (dc_load (y_sched (demo_state 2 2 (demo ++ [EReconfigure 1 1 [1]]))) d) 1.
Proof.
  apply (scheduler_shrinks 2 2 (demo_state 2 2 (demo ++ [EReconfigure 1 1 [1]])) [ERun 10]);
    [apply demo_reachable|vm_compute; reflexivity|vm_compute; reflexivity].
Defined.

(** C11: Work conservation: in every reachable state, a data centre with a
    free lane has no file with a queued request. *)
Theorem scheduler_work_conserving f c y d dc a t :
  reachable f c y → s_dcs (y_sched y) !! d = Some dc →
  dc_inFlight dc < s_capacity (y_sched y) →
  a ∈ dc_tasks dc → s_tasks (y_sched y) !! a = Some t → ts_waiters t = [].
Proof.
  intros Hr Hd Hlt Ha Ht. destruct (yi_busy _ (reachable_inv _ _ _ Hr) d dc Hd) as [?|Hq]; [lia|].
  by eapply Hq.
Qed.

Lemma scheduler_work_conserving_witness :
  ∃ t, s_tasks (y_sched (demo_state 2 4 demo)) !! 0%nat = Some t ∧ ts_inFlight t = 2 ∧ ts_waiters t = [].
Proof.
  eexists. split_and!; [vm_compute; reflexivity|reflexivity|].
  eapply (scheduler_work_conserving 2 4 (demo_state 2 4 demo) 1 _ 0%nat);
    [apply demo_reachable|vm_compute; reflexivity|vm_compute; reflexivity| |vm_compute; reflexivity].
  vm_compute. left.
Defined.

(** C12: File order: releasing a chunk lease succeeds in every reachable state;
    if that leaves a lane of the data centre free, the lane goes to the first
    request that was not canceled of the first file in the data centre's list
    that has one; no other request is let in, and none when no lane is free. *)
Theorem scheduler_file_order f c y k cancelled a t dc :
  reachable f c y → y_gs y !! k = Some (mkG cancelled (PChunk a)) →
  s_tasks (y_sched y) !! a = Some t → s_dcs (y_sched y) !! ts_dc t = Some dc →
  ∃ s', releaseChunkLocked (y_sched y) a = Ok s' ∧
    serves_next (y_sched y) s' (dc_tasks dc) (dc_inFlight dc - 1 <? s_capacity (y_sched y)).
Proof.
  intros Hr Hk Ht Hd. pose proof (reachable_inv _ _ _ Hr) as Hy.
  pose proof (chunks_ge y k _ a Hk eq_refl) as HC.
  destruct (release_chunk_spec (Rg y) (Cg y) (Tg y) None (y_sched y) a) as (s' & Hs' & _);
    try done; try apply Hy.
  exists s'. split; [done|]. pose proof (si_tasks _ _ _ _ (yi_sinv _ Hy) _ _ Ht) as Hok.
  apply (release_chunk_serves (Rg y) (Cg y) (Tg y) (y_sched y) a t dc); try done; try apply Hy.
  destruct (ts_active t) eqn:Ha; [done|]. destruct (to_idle _ _ _ _ _ Hok Ha) as [H0 _].
  pose proof (to_inFlight _ _ _ _ _ Hok). fold (Cg y) in *.
  pose proof (granted_for_nonneg a (s_waiters (y_sched y))). unfold Cg in *. lia.
Qed.

Lemma order_demo_next : next_request (y_sched (demo_state 2 1 demo)) [0%nat; 2%nat] = Some (0%nat, 11%nat).
Proof. vm_compute. reflexivity. Qed.
Lemma scheduler_file_order_witness :
  ∃ s' c', releaseChunkLocked (y_sched (demo_state 2 1 demo)) 0 = Ok s' ∧
    s_waiters s' !! 11%nat = Some c' ∧ cw_granted c' = true ∧ cw_task c' = 0%nat.
Proof.
  destruct (scheduler_file_order 2 1 (demo_state 2 1 demo) 10 false 0
    (default (mkTask "" 0 0 false None 0 []) (s_tasks (y_sched (demo_state 2 1 demo)) !! 0%nat)) (mkDC [0%nat; 2%nat] 1))
    as (s' & H & _ & Hn);
    [apply demo_reachable|vm_compute; reflexivity|vm_compute; reflexivity|vm_compute; reflexivity|].
  destruct (Hn ltac:(vm_compute; reflexivity) _ _ order_demo_next) as (c' & H1 & H2 & _ & H3).
  exists s', c'. split; [exact H|]. split; [exact H1|]. split; [exact H2|exact H3].
Defined.

(** No leak: once every call has returned and every lease is released,
    no file is registered, no file token is in use and every lane is free,
    whatever was canceled on the way. *)
Theorem scheduler_quiescent f c y :
  reachable f c y → map_Forall (λ _ g, g_pc g = PDone) (y_gs y) →
  s_files (y_sched y) = ∅ ∧ fl_used (s_fileTokens (y_sched y)) = 0 ∧
  ∀ d, dc_load (y_sched y) d = 0.
Proof.
  intros Hr Hdone. pose proof (reachable_inv _ _ _ Hr) as Hy. pose proof (yi_sinv _ Hy) as Hs.
  assert (Hg : ∀ a, msum (granted_for a) (s_waiters (y_sched y)) = 0).
  { intros a. apply msum_zero. intros w c' Hw. unfold granted_for. case_decide as Hd; [|done].
    destruct (yi_live _ Hy w c' Hw) as (g & b & Hgs & Hpc); [exact (proj1 (si_wok _ _ _ _ Hs w c' Hw) (proj2 Hd))|].
    rewrite (Hdone _ _ Hgs) in Hpc. done. }
  assert (Hidle : ∀ a t, s_tasks (y_sched y) !! a = Some t →
    ts_refs t = 0 ∧ ts_inFlight t = 0 ∧ ts_active t = false ∧ ts_activating t = None).
  { intros a t Ht. pose proof (si_tasks _ _ _ _ Hs _ _ Ht) as Hok.
    assert (Hr0 : ts_refs t = 0).
    { rewrite (to_refs _ _ _ _ _ Hok). apply msum_zero. intros k g Hk. unfold refs_of.
      by rewrite (Hdone _ _ Hk). }
    assert (Hi0 : ts_inFlight t = 0).
    { rewrite (to_inFlight _ _ _ _ _ Hok), Hg, msum_zero; [done|]. intros k g Hk. unfold chunk_of.
      by rewrite (Hdone _ _ Hk). }
    split_and!; try done.
    - destruct (ts_active t) eqn:Ha; [|done]. pose proof (yi_zombie _ Hy a t Ht Hr0 Ha). lia.
    - destruct (ts_activating t) as [ch|] eqn:Ha; [|done].
      destruct (yi_exists _ Hy a ch) as (k & g & Hk & Hact); [unfold act; by rewrite Ht|].
      by rewrite (Hdone _ _ Hk) in Hact. }
  split_and!.
  - apply map_empty. intros id. destruct (s_files (y_sched y) !! id) as [a|] eqn:Hid; [|done].
    destruct (si_files _ _ _ _ Hs _ _ Hid) as (t & Ht & <-).
    apply (to_files _ _ _ _ _ (si_tasks _ _ _ _ Hs _ _ Ht)) in Hid.
    destruct (Hidle _ _ Ht) as (Hr0 & _ & Ha0 & Hc0). destruct Hid as [?|[?|?]]; [lia|congruence|done].
  - rewrite (si_tokens _ _ _ _ Hs), (msum_zero act1), (msum_zero tok_of); [done| |].
    + intros k g Hk. unfold tok_of. by rewrite (Hdone _ _ Hk).
    + intros a t Ht. unfold act1. destruct (Hidle _ _ Ht) as (_ & _ & H3 & _). by rewrite H3.
  - intros d. rewrite (si_load _ _ _ _ Hs). apply msum_zero. intros a t Ht. unfold dcload.
    destruct (Hidle _ _ Ht) as (_ & H2 & _). rewrite H2. by destruct (_ =? _).
Qed.

Definition drain_demo : list event :=
  demo ++ [ECancel 11; ECtx 11; ERun 10; ERun 12; ERun 12; ERun 0; ERun 0; ERun 1; ERun 1].
Lemma scheduler_quiescent_witness :
  s_files (y_sched (demo_state 2 1 drain_demo)) = ∅ ∧
  fl_used (s_fileTokens (y_sched (demo_state 2 1 drain_demo))) = 0 ∧
  ∀ d, dc_load (y_sched (demo_state 2 1 drain_demo)) d = 0.
Proof.
  apply (scheduler_quiescent 2 1); [apply demo_reachable|].
  apply map_Forall_to_list. vm_compute. repeat constructor.
Defined.

(** One file, one budget: any two live leases on the same task ID refer to
    the same scheduler state, which is the registered one. *)
Theorem scheduler_one_state_per_file f c y k1 k2 c1 c2 a1 a2 t1 t2 :
  reachable f c y →
  y_gs y !! k1 = Some (mkG c1 (PTask a1)) → y_gs y !! k2 = Some (mkG c2 (PTask a2)) →
  s_tasks (y_sched y) !! a1 = Some t1 → s_tasks (y_sched y) !! a2 = Some t2 →
  ts_taskID t1 = ts_taskID t2 → a1 = a2 ∧ s_files (y_sched y) !! ts_taskID t1 = Some a1.
Proof.
  intros Hr H1 H2 Ht1 Ht2 Hid. pose proof (reachable_inv _ _ _ Hr) as Hy.
  assert (Hfile : ∀ k c a t, y_gs y !! k = Some (mkG c (PTask a)) →
    s_tasks (y_sched y) !! a = Some t → s_files (y_sched y) !! ts_taskID t = Some a).
  { intros k c0 a t Hk Ht. pose proof (si_tasks _ _ _ _ (yi_sinv _ Hy) _ _ Ht) as Hok.
    apply (to_files _ _ _ _ _ Hok). left. rewrite (to_refs _ _ _ _ _ Hok).
    pose proof (refs_ge y k _ a Hk eq_refl). unfold Rg in *. lia. }
  pose proof (Hfile _ _ _ _ H1 Ht1). pose proof (Hfile _ _ _ _ H2 Ht2).
  rewrite <- Hid in *. split; [congruence|done].
Qed.

Definition shared_demo : list event :=
  demo ++ [EAcquire 20 "f" 1; ERun 20].
Definition shared_task : taskState :=
  default (mkTask "" 0 0 false None 0 []) (s_tasks (y_sched (demo_state 2 1 shared_demo)) !! 0%nat).
Lemma scheduler_one_state_per_file_witness :
  ts_taskID shared_task = "f"%string ∧ ts_refs shared_task = 2 ∧ (0%nat = 0%nat ∧
  s_files (y_sched (demo_state 2 1 shared_demo)) !! ts_taskID shared_task = Some 0%nat).
Proof.
  split; [vm_compute; reflexivity|split; [vm_compute; reflexivity|]].
  apply (scheduler_one_state_per_file 2 1 (demo_state 2 1 shared_demo) 0 20 false false 0 0 shared_task shared_task);
    [apply demo_reachable|vm_compute; reflexivity..].
Defined.

(** No lost wake-up on the file limit: a goroutine parked on the file
    limiter's current [changed] channel waits only while every file slot is
    taken; any slot freed since it looked has closed the channel it waits on,
    so it can run. *)
Theorem file_slot_wakeup f c y k cancelled id dc a ready ch :
  reachable f c y → y_gs y !! k = Some (mkG cancelled (PTokWait id dc a ready ch)) →
  fl_used (s_fileTokens (y_sched y)) < fl_limit (s_fileTokens (y_sched y)) →
  sys_step y (ERun k) = Some (Ok (set_pc y (y_sched y) k (mkG cancelled PDone) (PTokTry id dc a ready))).
Proof.
  intros Hr Hk Hfree. destruct (reachable_parked _ _ _ Hr _ _ Hk) as [_ Hp]. simpl in Hp.
  simpl. rewrite Hk. simpl. unfold run. simpl. rewrite decide_False; [done|]. intros Hch.
  specialize (Hp Hch). lia.
Qed.

Definition parked_demo : list event :=
  [EAcquire 0 "f" 1; ERun 0; ERun 0; ERun 0; ERun 0; EAcquire 1 "g" 1; ERun 1; ERun 1; ERun 0; ERun 0].
Lemma file_slot_wakeup_witness :
  is_Some (exec (sys_init 1 1) parked_demo) ∧
  sys_step (demo_state 1 1 parked_demo) (ERun 1) =
    Some (Ok (set_pc (demo_state 1 1 parked_demo) (y_sched (demo_state 1 1 parked_demo)) 1
      (mkG false PDone) (PTokTry "g" 1 2 3))).
Proof.
  split; [vm_compute; eauto|].
  eapply (file_slot_wakeup 1 1 _ 1 false "g" 1 2 3 0);
    [apply demo_reachable|vm_compute; reflexivity|vm_compute; reflexivity].
Defined.

(** [Snapshots] lists every data centre once, in increasing order, and a
    snapshot that shows spare capacity shows no queued request. *)
Theorem snapshots_spec f c y :
  reachable f c y →
  StronglySorted sn_le (Snapshots (y_sched y)) ∧
  sn_DC <$> Snapshots (y_sched y) ≡ₚ (map_to_list (s_dcs (y_sched y))).*1 ∧
  ∀ sn, sn ∈ Snapshots (y_sched y) →
    sn_ActiveChunks sn = dc_load (y_sched y) (sn_DC sn) ∧
    (sn_ActiveChunks sn < sn_Capacity sn → sn_QueuedRequests sn = O).
Proof.
  intros Hr. pose proof (reachable_inv _ _ _ Hr) as Hy. unfold Snapshots.
  split_and!; [apply (StronglySorted_merge_sort _)| |].
  - rewrite merge_sort_Permutation, <- list_fmap_compose. apply reflexive_eq.
    apply list_fmap_ext. by intros i [].
  - intros sn. rewrite merge_sort_Permutation. intros ([d dc] & -> & Hd)%list_elem_of_fmap.
    apply elem_of_map_to_list in Hd. simpl. split; [unfold dc_load; by rewrite Hd|].
    intros Hlt. destruct (yi_busy _ Hy d dc Hd) as [?|Hq]; [lia|].
    generalize (λ a t, Hq a t). clear Hq. induction (dc_tasks dc) as [|a l IH]; intros Hq; [done|].
    simpl. rewrite IH by (intros; eapply Hq; [by right|done]). unfold pending.
    destruct (s_tasks (y_sched y) !! a) as [t|] eqn:Ht; [|done]. by rewrite (Hq a t (list_elem_of_here _ _) Ht).
Qed.

Lemma snapshots_spec_witness :
  Snapshots (y_sched (demo_state 2 1 demo)) = [mkSnap 1 1 1 1 1 2] ∧
  StronglySorted sn_le (Snapshots (y_sched (demo_state 2 1 demo))).
Proof. split; [vm_compute; reflexivity|]. apply (snapshots_spec 2 1). apply demo_reachable. Defined.
