(* ===== verification/Strings.v ===== *)
(** * Go strings

    Byte strings as Coq strings, with the operations of Go's [strings] and
    [unicode/utf8] packages that the modelled code uses. *)

From S2P Require Import Prelude.
From stdpp Require Export pretty.
From Stdlib Require Import Ascii.
Open Scope string_scope.
Open Scope Z_scope.

(** ** Prefixes *)

Fixpoint HasPrefix (s p : string) : bool :=
  match p, s with
  | EmptyString, _ => true
  | String a p', String b s' => Ascii.eqb a b && HasPrefix s' p'
  | _, _ => false
  end.

Fixpoint drop_str (n : nat) (s : string) : string :=
  match n, s with
  | O, _ => s
  | S n', String _ s' => drop_str n' s'
  | S _, EmptyString => ""
  end.

Definition TrimPrefix (s p : string) : string :=
  if HasPrefix s p then drop_str (String.length p) s else s.

Lemma HasPrefix_app p s : HasPrefix (p +:+ s) p = true.
Proof. induction p as [|a p IH]; simpl; [by destruct s|]. by rewrite Ascii.eqb_refl, IH. Qed.

Lemma drop_str_app p s : drop_str (String.length p) (p +:+ s) = s.
Proof. by induction p. Qed.

Lemma TrimPrefix_app p s : TrimPrefix (p +:+ s) p = s.
Proof. unfold TrimPrefix. by rewrite HasPrefix_app, drop_str_app. Qed.

Lemma HasPrefix_inv s p : HasPrefix s p = true → ∃ s', s = p +:+ s'.
Proof.
  revert s. induction p as [|a p IH]; intros s; simpl; [eauto|].
  destruct s as [|b s]; [done|]. intros [->%Ascii.eqb_eq Hp]%andb_prop.
  destruct (IH _ Hp) as [s' ->]. eauto.
Qed.

(** Two prefixes of one string are comparable. *)
Lemma HasPrefix_comparable s p q :
  HasPrefix s p = true → HasPrefix s q = true → HasPrefix p q = true ∨ HasPrefix q p = true.
Proof.
  revert p q. induction s as [|c s IH]; intros [|a p] [|b q]; simpl; auto; try done.
  intros [->%Ascii.eqb_eq Hp]%andb_prop [->%Ascii.eqb_eq Hq]%andb_prop.
  rewrite Ascii.eqb_refl. simpl. by apply IH.
Qed.

Lemma app_inj_l (p s1 s2 : string) : p +:+ s1 = p +:+ s2 → s1 = s2.
Proof. induction p; simpl; [done|]. intros [= H]. auto. Qed.

#[export] Instance string_app_inj p : Inj (=) (=) (String.append p).
Proof. intros s1 s2. apply app_inj_l. Qed.

(** ** [strings.TrimSpace]

    The Unicode white-space runes are matched by their UTF-8 encodings, which
    no other rune's encoding starts or ends with. *)

Definition byte (c : ascii) : Z := Z.of_N (N_of_ascii c).

Definition space1 (a : ascii) : bool :=
  let a := byte a in ((9 <=? a) && (a <=? 13)) || (a =? 32).
(** U+0085, U+00A0 *)
Definition space2 (a b : ascii) : bool :=
  (byte a =? 0xC2) && ((byte b =? 0x85) || (byte b =? 0xA0)).
(** U+1680, U+2000..200A, U+2028, U+2029, U+202F, U+205F, U+3000 *)
Definition space3 (a b c : ascii) : bool :=
  let a := byte a in let b := byte b in let c := byte c in
  ((a =? 0xE1) && (b =? 0x9A) && (c =? 0x80))
  || ((a =? 0xE2) && (b =? 0x80)
      && (((0x80 <=? c) && (c <=? 0x8A)) || (c =? 0xA8) || (c =? 0xA9) || (c =? 0xAF)))
  || ((a =? 0xE2) && (b =? 0x81) && (c =? 0x9F))
  || ((a =? 0xE3) && (b =? 0x80) && (c =? 0x80)).

Fixpoint trim_left (s : string) : string :=
  match s with
  | String a s1 =>
      if space1 a then trim_left s1
      else match s1 with
           | String b s2 =>
               if space2 a b then trim_left s2
               else match s2 with
                    | String c s3 => if space3 a b c then trim_left s3 else s
                    | EmptyString => s
                    end
           | EmptyString => s
           end
  | EmptyString => ""
  end.

(** The same on the reversed string. *)
Fixpoint trim_left_rev (s : string) : string :=
  match s with
  | String a s1 =>
      if space1 a then trim_left_rev s1
      else match s1 with
           | String b s2 =>
               if space2 b a then trim_left_rev s2
               else match s2 with
                    | String c s3 => if space3 c b a then trim_left_rev s3 else s
                    | EmptyString => s
                    end
           | EmptyString => s
           end
  | EmptyString => ""
  end.

Definition rev_str (s : string) : string := String.rev s.
Definition TrimRight_space (s : string) : string := rev_str (trim_left_rev (rev_str s)).
Definition TrimSpace (s : string) : string := TrimRight_space (trim_left s).

(** A string that starts with an ASCII non-space keeps its first byte. *)
Definition solid (x : ascii) : bool := (byte x <? 128) && negb (space1 x).

Lemma solid_spaces x : solid x = true →
  space1 x = false ∧ (∀ b, space2 x b = false ∧ space2 b x = false) ∧
  (∀ a b, space3 x a b = false ∧ space3 a x b = false ∧ space3 a b x = false).
Proof.
  unfold solid. intros [H1%Z.ltb_lt H2%negb_true_iff]%andb_prop. split_and!; [done| |].
  - intros b. unfold space2. split; lia.
  - intros a b. unfold space3. split_and!; lia.
Qed.

Lemma rev_app_spec s1 s2 : String.rev_app s1 s2 = String.rev s1 +:+ s2.
Proof.
  unfold String.rev. revert s2. induction s1 as [|a s1 IH]; intros s2; [done|]. cbn [String.rev_app].
  rewrite IH, (IH (String a "")). clear. generalize (String.rev_app s1 "") as t. intros t.
  induction t as [|x t IH]; [done|]. exact (f_equal (String x) IH).
Qed.

Lemma trim_left_rev_last x s : solid x = true → trim_left_rev (s +:+ String x "") ≠ "".
Proof.
  intros (H1 & H2 & H3)%solid_spaces. assert (∀ n, (String.length s < n)%nat → trim_left_rev (s +:+ String x "") ≠ "") as Hn.
  { intros n. revert s. induction n as [|n IH]; intros s Hl; [lia|].
    destruct s as [|a [|b [|c s]]]; cbn in Hl.
    - change (trim_left_rev (String x "") ≠ ""). cbn [trim_left_rev]. by rewrite H1.
    - change (trim_left_rev (String a (String x "")) ≠ ""). cbn [trim_left_rev].
      rewrite H1, (proj1 (H2 a)). by destruct (space1 a).
    - change (trim_left_rev (String a (String b (String x ""))) ≠ ""). cbn [trim_left_rev].
      rewrite H1, (proj1 (H2 b)), (proj1 (H3 b a)).
      by destruct (space1 a), (space1 b), (space2 b a).
    - change (trim_left_rev (String a (String b (String c (s +:+ String x "")))) ≠ "").
      pose proof (IH (String b (String c s)) ltac:(cbn; lia)) as IHa.
      pose proof (IH (String c s) ltac:(cbn; lia)) as IHb. pose proof (IH s ltac:(lia)) as IHc.
      change (String b (String c s) +:+ String x "") with (String b (String c (s +:+ String x ""))) in IHa.
      change (String c s +:+ String x "") with (String c (s +:+ String x "")) in IHb.
      cbn [trim_left_rev] in *. by destruct (space1 a), (space2 b a), (space3 c b a). }
  apply (Hn (S (String.length s))). lia.
Qed.

Lemma TrimSpace_solid x s : solid x = true → TrimSpace (String x s) ≠ "".
Proof.
  intros Hx. destruct (solid_spaces x Hx) as (H1 & H2 & H3).
  assert (Hl : trim_left (String x s) = String x s).
  { cbn [trim_left]. rewrite H1. destruct s as [|b s]; [done|]. rewrite (proj1 (H2 b)).
    destruct s as [|c s]; [done|]. by rewrite (proj1 (H3 b c)). }
  unfold TrimSpace, TrimRight_space, rev_str. rewrite Hl. unfold String.rev at 2. cbn [String.rev_app].
  rewrite rev_app_spec. intros He. apply (trim_left_rev_last x (String.rev s) Hx).
  destruct (trim_left_rev _) as [|a t]; [done|]. unfold String.rev in He. cbn [String.rev_app] in He.
  rewrite rev_app_spec in He. by destruct (String.rev t).
Qed.

(** ** Case folding as seen by comparisons with ASCII words

    [strings.ToLower] maps to ASCII only the ASCII capitals, U+0130 (to [i])
    and U+212A (to [k]); other letters are left alone here, since the results
    are compared with ASCII words only. *)
Definition lower_byte (a : ascii) : ascii :=
  let z := byte a in
  if (65 <=? z) && (z <=? 90) then ascii_of_N (Z.to_N (z + 32)) else a.

Fixpoint ToLower_ascii (s : string) : string :=
  match s with
  | String a s1 =>
      match s1 with
      | String b s2 =>
          if (byte a =? 0xC4) && (byte b =? 0xB0) then String "i" (ToLower_ascii s2)
          else match s2 with
               | String c s3 =>
                   if (byte a =? 0xE2) && (byte b =? 0x84) && (byte c =? 0xAA)
                   then String "k" (ToLower_ascii s3)
                   else String (lower_byte a) (ToLower_ascii s1)
               | EmptyString => String (lower_byte a) (ToLower_ascii s1)
               end
      | EmptyString => String (lower_byte a) ""
      end
  | EmptyString => ""
  end.

(** ** [strings.ContainsAny] for ASCII sets, [strings.Contains] for bytes *)

Fixpoint contains_char (c : ascii) (s : string) : bool :=
  match s with String a s' => Ascii.eqb a c || contains_char c s' | EmptyString => false end.
Fixpoint ContainsAny (s chars : string) : bool :=
  match s with String a s' => contains_char a chars || ContainsAny s' chars | EmptyString => false end.

(** ** Decimal digits: [strconv.Itoa] and the [%d] verb *)

Definition Itoa (z : Z) : string := pretty z.

(** An ideographic space after the text. *)
Example TrimSpace_ex :
  TrimSpace (String " " ("a b" +:+ String (Ascii.ascii_of_nat 227) (String (Ascii.ascii_of_nat 128)
    (String (Ascii.ascii_of_nat 128) "")))) = "a b".
Proof. vm_compute. reflexivity. Qed.
Example ToLower_ex : ToLower_ascii "ActİVE" = "active".
Proof. vm_compute. reflexivity. Qed.

(** ** Bytewise order: Go's [<=] on strings *)

Fixpoint str_leb (a b : string) : bool :=
  match a, b with
  | EmptyString, _ => true
  | _, EmptyString => false
  | String x a', String y b' =>
      if byte x <? byte y then true else if byte x =? byte y then str_leb a' b' else false
  end.

Lemma byte_inj x y : byte x = byte y → x = y.
Proof.
  unfold byte. intros H. apply N2Z.inj in H.
  by rewrite <- (ascii_N_embedding x), <- (ascii_N_embedding y), H.
Qed.

Lemma str_leb_total a b : str_leb a b = true ∨ str_leb b a = true.
Proof.
  revert b. induction a as [|x a IH]; intros [|y b]; simpl; auto.
  destruct (Z.ltb_spec (byte x) (byte y)), (Z.ltb_spec (byte y) (byte x)); auto; try lia.
  rewrite !(proj2 (Z.eqb_eq _ _)) by lia. apply IH.
Qed.

Lemma str_leb_trans a b c : str_leb a b = true → str_leb b c = true → str_leb a c = true.
Proof.
  revert b c. induction a as [|x a IH]; intros [|y b] [|z c]; simpl; try done.
  destruct (Z.ltb_spec (byte x) (byte y)), (Z.ltb_spec (byte y) (byte z)), (Z.ltb_spec (byte x) (byte z)),
    (Z.eqb_spec (byte x) (byte y)), (Z.eqb_spec (byte y) (byte z)), (Z.eqb_spec (byte x) (byte z));
    try done; try lia. apply IH.
Qed.

Lemma str_leb_antisym a b : str_leb a b = true → str_leb b a = true → a = b.
Proof.
  revert b. induction a as [|x a IH]; intros [|y b]; simpl; try done.
  destruct (Z.ltb_spec (byte x) (byte y)), (Z.ltb_spec (byte y) (byte x)); try lia;
    destruct (Z.eqb_spec (byte x) (byte y)) as [Hxy|], (Z.eqb_spec (byte y) (byte x)); try done; try lia.
  intros H1 H2. apply byte_inj in Hxy as ->. f_equal. auto.
Qed.
