(* ===== verification/Storage.v ===== *)
(** * Transactional storage, JSON records and dataset ownership

    [internal/core/storage] (the [Storage] interface, [Update], [Memory]),
    [bsw/services/nvm/registry.go] (who may write which keys) and the part of
    [encoding/json] the repositories rely on.  A stored value is a JSON
    document, kept as its tree, or bytes that are not JSON.  Strings in a tree
    are taken to be valid UTF-8: Go's encoder replaces what is not. *)

From S2P Require Import Prelude Strings.
#[export] Set Warnings "-register-all".
Create Rewrite HintDb codec.

(** ** Errors *)

Inductive err := ErrNotFound | ErrCanceled | ErrMsg (s : string).
#[export] Instance err_eq : EqDecision err.
Proof. solve_decision. Defined.

(** ** [encoding/json], as a tree

    [JTime] is a string holding an RFC 3339 instant.  Objects are maps: Go
    writes no duplicate keys, and key order carries no meaning. *)
Inductive json :=
  | JNull
  | JBool (b : bool)
  | JNum (z : Z)
  | JStr (s : string)
  | JTime (t : Z)
  | JArr (l : list json)
  | JObj (m : gmap string json).

Inductive value := VJson (j : json) | VRaw (s : string).

Definition json_valid (v : value) : bool := match v with VJson _ => true | VRaw _ => false end.

(** [json.Unmarshal] of one field into a Go variable: an absent field and
    [null] leave the zero value, a value of another kind is an error. *)
Definition get_with {A} (zero : A) (f : json → option A) (o : option json) : option A :=
  match o with None | Some JNull => Some zero | Some j => f j end.
Definition as_str := get_with "" (λ j, match j with JStr s => Some s | _ => None end).
Definition as_bool := get_with false (λ j, match j with JBool b => Some b | _ => None end).
Definition as_time := get_with 0 (λ j, match j with JTime t => Some t | _ => None end).
Definition as_ptime := get_with None (λ j, match j with JTime t => Some (Some t) | _ => None end).
Definition as_int64 := get_with 0 (λ j, match j with JNum z => if in_int64 z then Some z else None | _ => None end).
Definition as_uint64 := get_with 0 (λ j, match j with JNum z => if (0 <=? z) && (z <? 2^64) then Some z else None | _ => None end).

(** Unmarshal into [map[string]json.RawMessage]; [null] gives the nil map. *)
Definition as_object (v : value) : res err (gmap string json) :=
  match v with
  | VJson (JObj m) => Ok m
  | VJson JNull => Ok ∅
  | _ => Err (ErrMsg "json: cannot unmarshal")
  end.

(** An object from its fields in order; [None] is a field left out by [omitempty]. *)
Fixpoint fields (l : list (string * option json)) : gmap string json :=
  match l with
  | [] => ∅
  | (k, Some j) :: l => <[k := j]> (fields l)
  | (_, None) :: l => fields l
  end.

Fixpoint field_of (l : list (string * option json)) (k : string) : option json :=
  match l with
  | [] => None
  | (k', o) :: l => if String.eqb k' k then o else field_of l k
  end.

Definition omit_str (s : string) : option json := if String.eqb s "" then None else Some (JStr s).
Definition omit_bool (b : bool) : option json := if b then Some (JBool b) else None.
Definition omit_num (z : Z) : option json := if z =? 0 then None else Some (JNum z).
Definition omit_time (t : Z) : option json := if t =? 0 then None else Some (JTime t).
Definition omit_ptime (t : option Z) : option json := JTime <$> t.

Lemma field_of_None l k : k ∉ l.*1 → field_of l k = None.
Proof.
  induction l as [|[k' o] l IH]; simpl; [done|]. intros Hn.
  destruct (String.eqb_spec k' k) as [->|?]; [set_solver|]. apply IH. set_solver.
Qed.

Lemma fields_lookup l k : NoDup l.*1 → fields l !! k = field_of l k.
Proof.
  induction l as [|[k' o] l IH]; simpl; [by rewrite lookup_empty|].
  intros [Hn Hd]%NoDup_cons. destruct (String.eqb_spec k' k) as [->|Hne].
  - destruct o as [j|]; [apply lookup_insert_eq|]. rewrite IH by done. by apply field_of_None.
  - destruct o as [j|]; [rewrite lookup_insert_ne by done|]; by apply IH.
Qed.

Lemma as_str_omit s : as_str (omit_str s) = Some s.
Proof. unfold omit_str. by destruct (String.eqb_spec s "") as [->|?]. Qed.
Lemma as_bool_omit b : as_bool (omit_bool b) = Some b.
Proof. by destruct b. Qed.
Lemma as_time_omit t : as_time (omit_time t) = Some t.
Proof. unfold omit_time. by destruct (Z.eqb_spec t 0) as [->|?]. Qed.
Lemma as_ptime_omit t : as_ptime (omit_ptime t) = Some t.
Proof. by destruct t. Qed.
Lemma as_int64_num z : in_int64 z = true → as_int64 (Some (JNum z)) = Some z.
Proof. intros H. unfold as_int64. simpl. by rewrite H. Qed.
Lemma as_int64_omit z : in_int64 z = true → as_int64 (omit_num z) = Some z.
Proof. intros H. unfold omit_num. destruct (Z.eqb_spec z 0) as [->|?]; [done|]. by apply as_int64_num. Qed.
Definition in_uint64 (z : Z) : bool := (0 <=? z) && (z <? 2^64).
Lemma as_uint64_num z : in_uint64 z = true → as_uint64 (Some (JNum z)) = Some z.
Proof. intros H. unfold as_uint64. simpl. unfold in_uint64 in H. by rewrite H. Qed.
Lemma as_str_some s : as_str (Some (JStr s)) = Some s.
Proof. done. Qed.
Lemma as_bool_some b : as_bool (Some (JBool b)) = Some b.
Proof. done. Qed.
Lemma as_time_some t : as_time (Some (JTime t)) = Some t.
Proof. done. Qed.
#[export] Hint Rewrite as_str_some as_bool_some as_time_some as_str_omit as_bool_omit as_time_omit as_ptime_omit : codec.
#[export] Hint Rewrite as_int64_num as_int64_omit as_uint64_num using done : codec.

(** What a repository promises about its record format. *)
Class Codec (A : Type) := {
  encode : A → gmap string json;
  decode : gmap string json → option A;
  wf_rec : A → bool;
  decode_encode a : wf_rec a = true → decode (encode a) = Some a;
}.

Definition unmarshal {A} `{Codec A} (v : value) : res err A :=
  m ← as_object v;
  match decode m with Some a => Ok a | None => Err (ErrMsg "json: cannot unmarshal") end.
Definition marshal {A} `{Codec A} (a : A) : value := VJson (JObj (encode a)).

Lemma unmarshal_marshal {A} `{Codec A} (a : A) : wf_rec a = true → unmarshal (marshal a) = Ok a.
Proof. intros Hw. unfold unmarshal, marshal. simpl. by rewrite decode_encode. Qed.

(** ** Stores and transactions

    A transaction body reads the context (canceled or not), the key scopes of
    the writers it goes through, and threads the transaction's own copy. *)
Abbreviation store := (gmap string value).

(** nvm.Dataset *)
Record Dataset := mkDataset {
  ds_Name : string; ds_Writer : string; ds_Prefix : string; ds_Keys : list string }.
#[export] Instance Dataset_eq : EqDecision Dataset.
Proof. solve_decision. Defined.

Record env := mkEnv { e_canceled : bool; e_scopes : list (list Dataset) }.
Definition tx (A : Type) := env → store → res err (A * store).

#[export] Instance tx_ret : MRet tx := λ A a e s, Ok (a, s).
#[export] Instance tx_bind : MBind tx := λ A B k m e s,
  match m e s with Ok (a, s') => k a e s' | Err x => Err x end.
#[export] Instance tx_throw : MThrow err tx := λ A x e s, Err x.

Definition lift {A} (r : res err A) : tx A := λ _ s,
  match r with Ok a => Ok (a, s) | Err x => Err x end.
Definition prim {A} (f : store → res err (A * store)) : tx A := λ _ s, f s.
(** Handle [ErrNotFound] of a read. *)
Definition try_get {A} (m : tx A) : tx (option A) := λ e s,
  match m e s with
  | Ok (a, s') => Ok (Some a, s')
  | Err ErrNotFound => Ok (None, s)
  | Err x => Err x
  end.

(** nvm: [Dataset.contains], [reader.check] *)
Definition contains (d : Dataset) (key : string) : bool :=
  (negb (String.eqb (ds_Prefix d) "") && HasPrefix key (ds_Prefix d))
  || bool_decide (key ∈ ds_Keys d).
Definition in_scope (scope : list Dataset) (key : string) : bool :=
  existsb (λ d, contains d key) scope.
Definition check : string → tx unit := λ key e s,
  if forallb (λ scope, in_scope scope key) (e_scopes e) then Ok (tt, s)
  else Err (ErrMsg "key is outside dataset scope").

(** memoryTransaction behind the writers of [e_scopes] *)
Definition tx_ctx : tx unit := λ e s, if e_canceled e then Err ErrCanceled else Ok (tt, s).
Definition tx_get (key : string) : tx value :=
  _ ← check key; _ ← tx_ctx;
  prim (λ s, match s !! key with Some v => Ok (v, s) | None => Err ErrNotFound end).
Definition tx_set (key : string) (v : value) : tx unit :=
  _ ← check key; _ ← tx_ctx; prim (λ s, Ok (tt, <[key := v]> s)).
Definition tx_delete (key : string) : tx unit :=
  _ ← check key; _ ← tx_ctx; prim (λ s, Ok (tt, delete key s)).

(** [writer]: the same storage seen through one owner's datasets. *)
Definition scoped {A} (scope : list Dataset) (m : tx A) : tx A := λ e s,
  m (mkEnv (e_canceled e) (scope :: e_scopes e)) s.

(** Operations on the store itself keep it on error. *)
Definition op (A : Type) := bool → store → res err A * store.

(** [storage.Update] over [Memory.Update]: the body runs on a copy that is
    committed only if it succeeds and the context is still live. *)
Definition Update {A} (body : tx A) : op A := λ canceled s,
  if (canceled : bool) then (Err ErrCanceled, s)
  else match body (mkEnv canceled []) s with
       | Ok (a, s') => (Ok a, s')
       | Err x => (Err x, s)
       end.

(** [Memory.Get] *)
Definition Get (scope : list Dataset) (key : string) : op value := λ canceled s,
  match scoped scope (tx_get key) (mkEnv canceled []) s with
  | Ok (v, _) => (Ok v, s)
  | Err x => (Err x, s)
  end.

Lemma Update_error {A} (body : tx A) c s x : (Update body c s).1 = Err x → (Update body c s).2 = s.
Proof. unfold Update. destruct c; [done|]. by destruct (body _ s) as [[a s']|?]. Qed.

(** ** nvm.Registry *)

Record Registry := mkRegistry { r_datasets : gmap string Dataset }.
Definition NewRegistry : Registry := mkRegistry ∅.

Definition overlaps (a b : Dataset) : bool :=
  if negb (String.eqb (ds_Prefix a) "") && negb (String.eqb (ds_Prefix b) "")
  then HasPrefix (ds_Prefix a) (ds_Prefix b) || HasPrefix (ds_Prefix b) (ds_Prefix a)
  else existsb (contains b) (ds_Keys a) || existsb (contains a) (ds_Keys b).

Fixpoint keys_ok (seen keys : list string) : bool :=
  match keys with
  | [] => true
  | k :: keys =>
      if String.eqb k "" || bool_decide (k ∈ seen) then false else keys_ok (k :: seen) keys
  end.

Definition is_nil {A} (l : list A) : bool := match l with [] => true | _ => false end.

Definition Register (r : Registry) (d : Dataset) : res err Registry :=
  if String.eqb (ds_Name d) "" || String.eqb (ds_Writer d) ""
     || Bool.eqb (String.eqb (ds_Prefix d) "") (is_nil (ds_Keys d))
  then Err (ErrMsg "dataset name, writer and either prefix or exact keys are required")
  else if negb (keys_ok [] (ds_Keys d)) then Err (ErrMsg "empty or duplicate dataset key")
  else match r_datasets r !! ds_Name d with
       | Some _ => Err (ErrMsg "duplicate dataset")
       | None =>
           if existsb (λ '(_, x), overlaps d x) (map_to_list (r_datasets r))
           then Err (ErrMsg "datasets overlap")
           else Ok (mkRegistry (<[ds_Name d := d]> (r_datasets r)))
       end.

Fixpoint writer_scopes (r : Registry) (owner : string) (names : list string) : res err (list Dataset) :=
  match names with
  | [] => Ok []
  | n :: names =>
      match r_datasets r !! n with
      | None => Err (ErrMsg "unknown dataset")
      | Some d =>
          if negb (String.eqb owner (ds_Writer d)) then Err (ErrMsg "does not own dataset")
          else ds ← writer_scopes r owner names; Ok (d :: ds)
      end
  end.
Definition WriterSet (r : Registry) (owner : string) (names : list string) : res err (list Dataset) :=
  match names with
  | [] => Err (ErrMsg "at least one dataset is required")
  | _ => writer_scopes r owner names
  end.
Definition Writer (r : Registry) (name owner : string) : res err (list Dataset) := WriterSet r owner [name].

(** ** Ownership is exclusive *)

Inductive registered : Registry → Prop :=
  | registered_new : registered NewRegistry
  | registered_add r d r' : registered r → Register r d = Ok r' → registered r'.

Lemma existsb_elem {A} (f : A → bool) l x : x ∈ l → f x = true → existsb f l = true.
Proof. intros Hx Hf. apply existsb_exists. exists x. by rewrite <- list_elem_of_In. Qed.

Lemma overlaps_sound a b key :
  (ds_Prefix a = "" ∨ ds_Keys a = []) → (ds_Prefix b = "" ∨ ds_Keys b = []) →
  contains a key = true → contains b key = true → overlaps a b = true.
Proof.
  unfold overlaps. intros Wa Wb Ha Hb. pose proof Ha as Ha'. pose proof Hb as Hb'.
  unfold contains in Ha', Hb'.
  destruct (String.eqb_spec (ds_Prefix a) "") as [Hea|Hea], (String.eqb_spec (ds_Prefix b) "") as [Heb|Heb];
    simpl in *; rewrite ?orb_false_l in *.
  1, 2: apply bool_decide_eq_true in Ha'; apply orb_true_iff; left; by eapply existsb_elem.
  - apply bool_decide_eq_true in Hb'. apply orb_true_iff. right. by eapply existsb_elem.
  - destruct Wa as [?|Wa], Wb as [?|Wb]; [congruence..|]. rewrite Wa, Wb in *.
    rewrite (bool_decide_eq_false_2 (key ∈ [])), !orb_false_r in * by set_solver.
    apply orb_true_iff. by eapply HasPrefix_comparable.
Qed.

Definition one_kind (d : Dataset) : Prop := ds_Prefix d = "" ∨ ds_Keys d = [].

Lemma Register_inv r d r' :
  Register r d = Ok r' →
  r_datasets r' = <[ds_Name d := d]> (r_datasets r) ∧ r_datasets r !! ds_Name d = None ∧
  one_kind d ∧ ∀ n x, r_datasets r !! n = Some x → overlaps d x = false.
Proof.
  unfold Register. destruct (_ || _ || _) eqn:H1; [done|]. destruct (negb _); [done|].
  destruct (r_datasets r !! ds_Name d) eqn:Hn; [done|]. destruct (existsb _ _) eqn:Hex; [done|].
  intros [= <-]. simpl. split_and!; try done.
  - apply orb_false_elim in H1 as [_ H1]. unfold one_kind.
    destruct (String.eqb_spec (ds_Prefix d) ""), (ds_Keys d); simpl in H1; auto; done.
  - intros n x Hx. destruct (overlaps d x) eqn:Ho; [|done]. rewrite <- Hex. symmetry.
    apply (existsb_elem _ _ (n, x)); [by apply elem_of_map_to_list|done].
Qed.

Lemma registered_inv r :
  registered r →
  (∀ n d, r_datasets r !! n = Some d → ds_Name d = n ∧ one_kind d) ∧
  (∀ n1 n2 d1 d2 key, r_datasets r !! n1 = Some d1 → r_datasets r !! n2 = Some d2 →
     contains d1 key = true → contains d2 key = true → n1 = n2).
Proof.
  induction 1 as [|r d r' _ [IH1 IH2] (Heq & Hn & Hk & Ho)%Register_inv].
  { split; intros; simpl in *; by rewrite lookup_empty in *. }
  rewrite Heq. split.
  - intros n x [[<- <-]|[_ ?]]%lookup_insert_Some; [done|by apply IH1].
  - assert (Hd : ∀ n x key, r_datasets r !! n = Some x → contains d key = true → contains x key = true → False).
    { intros n x key Hx H1 H2. pose proof (Ho _ _ Hx) as Hf.
      rewrite (overlaps_sound d x key) in Hf; [done|apply Hk|by eapply IH1|done|done]. }
    intros n1 n2 d1 d2 key [[<- <-]|[_ ?]]%lookup_insert_Some [[<- <-]|[_ ?]]%lookup_insert_Some H1 H2;
      [done|exfalso; eauto|exfalso; eauto|by eapply IH2].
Qed.

(** ** What a scoped transaction can change *)

(** Every writer on the stack is respected. *)
Definition confined {A} (m : tx A) : Prop := ∀ e s a s', m e s = Ok (a, s') →
  ∀ key scope, scope ∈ e_scopes e → in_scope scope key = false → s' !! key = s !! key.

Lemma confined_ret {A} (a : A) : confined (mret a).
Proof. by intros e s b s' [= <- <-]. Qed.
Lemma confined_bind {A B} (m : tx A) (k : A → tx B) :
  confined m → (∀ a, confined (k a)) → confined (m ≫= k).
Proof.
  intros Hm Hk e s b s' H key scope Hs Ho. unfold mbind, tx_bind in H.
  destruct (m e s) as [[a s1]|?] eqn:H1; [|done].
  rewrite (Hk a e s1 b s' H key scope Hs Ho). by eapply Hm.
Qed.
Lemma confined_lift {A} (r : res err A) : confined (lift r).
Proof. intros e s a s' H. unfold lift in H. destruct r; [by injection H as _ <-|done]. Qed.
Lemma confined_throw {A} (x : err) : confined (mthrow x : tx A).
Proof. by intros e s a s' H. Qed.
Lemma confined_try {A} (m : tx A) : confined m → confined (try_get m).
Proof.
  intros Hm e s a s' H. unfold try_get in H. destruct (m e s) as [[b s1]|[]] eqn:H1; try done.
  - injection H as _ <-. by eapply Hm.
  - by injection H as _ <-.
Qed.
Lemma confined_check key : confined (check key).
Proof. intros e s a s' H. unfold check in H. destruct (forallb _ _); [by injection H as _ <-|done]. Qed.
Lemma confined_ctx : confined tx_ctx.
Proof. intros e s a s' H. unfold tx_ctx in H. destruct (e_canceled e); [done|by injection H as _ <-]. Qed.
Lemma confined_get key : confined (tx_get key).
Proof.
  apply confined_bind; [apply confined_check|intros _]. apply confined_bind; [apply confined_ctx|intros _].
  intros e s a s' H. unfold prim in H. destruct (s !! key); [by injection H as _ <-|done].
Qed.
Lemma check_scope key e s s' scope :
  check key e s = Ok (tt, s') → scope ∈ e_scopes e → in_scope scope key = true ∧ s' = s.
Proof.
  unfold check. destruct (forallb _ _) eqn:Hf; [|done]. intros [= <-] Hs. split; [|done].
  rewrite forallb_forall in Hf. apply Hf. by apply list_elem_of_In.
Qed.
Lemma confined_write key (f : store → store) :
  (∀ s k, k ≠ key → f s !! k = s !! k) →
  confined (_ ← check key; _ ← tx_ctx; prim (λ s, Ok (tt, f s))).
Proof.
  intros Hf e s a s' H k scope Hs Ho. unfold mbind, tx_bind in H.
  destruct (check key e s) as [[[] s1]|?] eqn:H1; [|done].
  destruct (check_scope _ _ _ _ _ H1 Hs) as [Hk ->].
  unfold tx_ctx, prim in H. destruct (e_canceled e); [done|]. injection H as _ <-.
  apply Hf. intros ->. congruence.
Qed.
Lemma confined_set key v : confined (tx_set key v).
Proof. apply (confined_write key (λ s, <[key := v]> s)). intros. by apply lookup_insert_ne. Qed.
Lemma confined_delete key : confined (tx_delete key).
Proof. apply (confined_write key (λ s, delete key s)). intros. by apply lookup_delete_ne. Qed.
Lemma confined_if {A} (b : bool) (m n : tx A) : confined m → confined n → confined (if b then m else n).
Proof. by destruct b. Qed.

Create HintDb confined.
#[export] Hint Resolve confined_ret confined_bind confined_lift confined_throw confined_try
  confined_get confined_set confined_delete confined_if : confined.

Lemma Update_confined {A} scope (body : tx A) c s key :
  confined body → in_scope scope key = false →
  (Update (scoped scope body) c s).2 !! key = s !! key.
Proof.
  intros Hb Hk. unfold Update. destruct c; [done|].
  destruct (scoped scope body _ s) as [[a s']|?] eqn:H; [|done].
  simpl. eapply Hb; [exact H| |exact Hk]. simpl. left.
Qed.
