(* ===== verification/TaskTypes.v ===== *)
(** * Task records

    The persisted records of [interfaces/types] with their JSON formats, and
    the download state machine of [download_state.go]. *)

From S2P Require Import Prelude Strings Storage.

(** ** Download states *)

Definition DownloadQueued := "queued".
Definition DownloadActive := "active".
Definition DownloadPaused := "paused".
Definition DownloadComplete := "complete".
Definition DownloadError := "error".
Definition DownloadRemoved := "removed".
Definition DownloadUnknown := "unknown".

Definition NormalizeDownloadState (status : string) : string :=
  let s := ToLower_ascii (TrimSpace status) in
  if String.eqb s "waiting" || String.eqb s DownloadQueued then DownloadQueued
  else if String.eqb s DownloadActive then DownloadActive
  else if String.eqb s DownloadPaused then DownloadPaused
  else if String.eqb s DownloadComplete then DownloadComplete
  else if String.eqb s DownloadError then DownloadError
  else if String.eqb s DownloadRemoved then DownloadRemoved
  else DownloadUnknown.

Definition DownloadTransition (from to : string) : bool :=
  if String.eqb from to then true
  else if String.eqb to DownloadUnknown then false
  else if String.eqb from DownloadRemoved then false
  else if String.eqb from DownloadComplete then String.eqb to DownloadRemoved
  else true.

Definition download_states : list string :=
  [DownloadQueued; DownloadActive; DownloadPaused; DownloadComplete; DownloadError;
   DownloadRemoved; DownloadUnknown].

Lemma normalize_in s : NormalizeDownloadState s ∈ download_states.
Proof.
  unfold NormalizeDownloadState, download_states.
  repeat match goal with |- context [if ?b then _ else _] => destruct b end; set_solver.
Qed.

Lemma normalize_idem s : NormalizeDownloadState (NormalizeDownloadState s) = NormalizeDownloadState s.
Proof.
  pose proof (normalize_in s) as H. revert H. generalize (NormalizeDownloadState s) as x. intros x H.
  unfold download_states in H. rewrite !elem_of_cons, elem_of_nil in H.
  repeat destruct H as [->|H]; try done; vm_compute; reflexivity.
Qed.

Lemma transition_refl s : DownloadTransition s s = true.
Proof. unfold DownloadTransition. by rewrite String.eqb_refl. Qed.

(** A removed execution stays removed, a complete one can only be removed. *)
Lemma transition_terminal from to :
  DownloadTransition from to = true →
  (from = DownloadRemoved → to = DownloadRemoved) ∧
  (from = DownloadComplete → to = DownloadComplete ∨ to = DownloadRemoved).
Proof.
  unfold DownloadTransition. intros H. split; intros ->;
    destruct (String.eqb_spec DownloadRemoved to), (String.eqb_spec DownloadComplete to),
      (String.eqb_spec to DownloadUnknown); simpl in H; try done; auto;
    destruct (String.eqb_spec to DownloadRemoved); auto; done.
Qed.

(** ** [types.ForwardJob] *)

Definition StatusQueued := "queued".
Definition StatusRunning := "running".
Definition StatusPaused := "paused".
Definition StatusRetrying := "retrying".
Definition StatusDone := "done".
Definition StatusError := "error".
Definition SourceCommand := "command".
Definition SourceWatch := "watch".

Record ForwardJob := mkJob {
  j_ID : string; j_Source : string;
  j_SourceLink : string; j_SourcePeerID : Z; j_SourcePeerKind : string;
  j_RuleID : string; j_SourceMessageID : Z; j_OriginName : string;
  j_Destination : string; j_DestinationName : string;
  j_Mode : string; j_Silent : bool;
  j_Status : string; j_Total : Z; j_Done : Z; j_CloneDone : Z; j_CloneTotal : Z;
  j_Attempts : Z; j_Error : string;
  j_CreatedAt : Z; j_UpdatedAt : Z;
  j_StartedAt : option Z; j_FinishedAt : option Z; j_NextAttemptAt : option Z;
}.
#[export] Instance ForwardJob_eq : EqDecision ForwardJob.
Proof. solve_decision. Defined.

Definition Terminal (j : ForwardJob) : bool :=
  String.eqb (j_Status j) StatusDone || String.eqb (j_Status j) StatusError.

Definition job_fields (j : ForwardJob) : list (string * option json) :=
  [("id", Some (JStr (j_ID j))); ("source", Some (JStr (j_Source j)));
   ("source_link", omit_str (j_SourceLink j)); ("source_peer_id", omit_num (j_SourcePeerID j));
   ("source_peer_kind", omit_str (j_SourcePeerKind j)); ("rule_id", omit_str (j_RuleID j));
   ("source_message_id", omit_num (j_SourceMessageID j)); ("origin_name", omit_str (j_OriginName j));
   ("destination", Some (JStr (j_Destination j))); ("destination_name", omit_str (j_DestinationName j));
   ("mode", Some (JStr (j_Mode j))); ("silent", omit_bool (j_Silent j));
   ("status", Some (JStr (j_Status j))); ("total", Some (JNum (j_Total j)));
   ("done", Some (JNum (j_Done j))); ("clone_done", omit_num (j_CloneDone j));
   ("clone_total", omit_num (j_CloneTotal j)); ("attempts", omit_num (j_Attempts j));
   ("error", omit_str (j_Error j)); ("created_at", Some (JTime (j_CreatedAt j)));
   ("updated_at", Some (JTime (j_UpdatedAt j))); ("started_at", omit_ptime (j_StartedAt j));
   ("finished_at", omit_ptime (j_FinishedAt j)); ("next_attempt_at", omit_ptime (j_NextAttemptAt j))].

Definition decode_job (m : gmap string json) : option ForwardJob :=
  id ← as_str (m !! "id"); source ← as_str (m !! "source");
  link ← as_str (m !! "source_link"); peer ← as_int64 (m !! "source_peer_id");
  kind ← as_str (m !! "source_peer_kind"); rule ← as_str (m !! "rule_id");
  msg ← as_int64 (m !! "source_message_id"); origin ← as_str (m !! "origin_name");
  dest ← as_str (m !! "destination"); destName ← as_str (m !! "destination_name");
  mode ← as_str (m !! "mode"); silent ← as_bool (m !! "silent");
  status ← as_str (m !! "status"); total ← as_int64 (m !! "total");
  done ← as_int64 (m !! "done"); cdone ← as_int64 (m !! "clone_done");
  ctotal ← as_int64 (m !! "clone_total"); attempts ← as_int64 (m !! "attempts");
  error ← as_str (m !! "error"); created ← as_time (m !! "created_at");
  updated ← as_time (m !! "updated_at"); started ← as_ptime (m !! "started_at");
  finished ← as_ptime (m !! "finished_at"); next ← as_ptime (m !! "next_attempt_at");
  Some (mkJob id source link peer kind rule msg origin dest destName mode silent status total
          done cdone ctotal attempts error created updated started finished next).

Definition wf_job (j : ForwardJob) : bool :=
  in_int64 (j_SourcePeerID j) && in_int64 (j_SourceMessageID j) && in_int64 (j_Total j)
  && in_int64 (j_Done j) && in_int64 (j_CloneDone j) && in_int64 (j_CloneTotal j) && in_int64 (j_Attempts j).

(** Field names are distinct. *)
Ltac distinct_fields := apply (bool_decide_unpack _); vm_compute; exact I.
Ltac read_fields Hn := rewrite !(fields_lookup _ _ Hn);
  cbn -[as_str as_bool as_time as_ptime as_int64 as_uint64 omit_str omit_bool omit_num omit_time omit_ptime];
  autorewrite with codec;
  cbn -[as_str as_bool as_time as_ptime as_int64 as_uint64 omit_str omit_bool omit_num omit_time omit_ptime].
Ltac split_wf H := rewrite ?andb_true_iff in H; destruct_and? H.

#[export] Program Instance ForwardJob_codec : Codec ForwardJob := {|
  encode j := fields (job_fields j); decode := decode_job; wf_rec := wf_job |}.
Next Obligation.
  intros j H. unfold wf_job in H. split_wf H. unfold decode_job.
  assert (Hn : NoDup (job_fields j).*1) by distinct_fields.
  read_fields Hn. by destruct j.
Qed.

(** ** [types.LocalDownloadRecord] *)

Record LocalRecord := mkLocal {
  l_State : string; l_Revision : Z; l_ID : string; l_TaskID : string; l_FileName : string;
  l_Dir : string; l_Out : string; l_Path : string; l_Total : Z; l_Completed : Z;
  l_Status : string; l_Error : string; l_DownloadSpeed : Z;
  l_StartedAt : option Z; l_CreatedAt : Z; l_UpdatedAt : Z;
}.

Definition local_fields (r : LocalRecord) : list (string * option json) :=
  [("state", Some (JStr (l_State r))); ("revision", Some (JNum (l_Revision r)));
   ("id", Some (JStr (l_ID r))); ("task_id", Some (JStr (l_TaskID r)));
   ("file_name", Some (JStr (l_FileName r))); ("dir", Some (JStr (l_Dir r)));
   ("out", Some (JStr (l_Out r))); ("path", Some (JStr (l_Path r)));
   ("total", Some (JNum (l_Total r))); ("completed", Some (JNum (l_Completed r)));
   ("status", Some (JStr (l_Status r))); ("error", omit_str (l_Error r));
   ("download_speed", omit_num (l_DownloadSpeed r)); ("started_at", omit_ptime (l_StartedAt r));
   ("created_at", Some (JTime (l_CreatedAt r))); ("updated_at", Some (JTime (l_UpdatedAt r)))].

Definition decode_local (m : gmap string json) : option LocalRecord :=
  state ← as_str (m !! "state"); revision ← as_uint64 (m !! "revision");
  id ← as_str (m !! "id"); taskID ← as_str (m !! "task_id");
  fileName ← as_str (m !! "file_name"); dir ← as_str (m !! "dir");
  out ← as_str (m !! "out"); path ← as_str (m !! "path");
  total ← as_int64 (m !! "total"); completed ← as_int64 (m !! "completed");
  status ← as_str (m !! "status"); error ← as_str (m !! "error");
  speed ← as_int64 (m !! "download_speed"); started ← as_ptime (m !! "started_at");
  created ← as_time (m !! "created_at"); updated ← as_time (m !! "updated_at");
  Some (mkLocal state revision id taskID fileName dir out path total completed status error speed
          started created updated).

Definition wf_local (r : LocalRecord) : bool :=
  in_uint64 (l_Revision r) && in_int64 (l_Total r) && in_int64 (l_Completed r)
  && in_int64 (l_DownloadSpeed r).

#[export] Program Instance LocalRecord_codec : Codec LocalRecord := {|
  encode r := fields (local_fields r); decode := decode_local; wf_rec := wf_local |}.
Next Obligation.
  intros r H. unfold wf_local in H. split_wf H. unfold decode_local.
  assert (Hn : NoDup (local_fields r).*1) by distinct_fields.
  read_fields Hn. by destruct r.
Qed.

(** ** [types.Aria2TaskRecord] *)

Record Aria2Record := mkAria2 {
  a_PauseOwner : string; a_Deleted : bool; a_ControlUntil : Z; a_State : string;
  a_Revision : Z; a_GID : string; a_TaskID : string; a_DownloadURL : string;
  a_Dir : string; a_Out : string; a_CreatedAt : Z; a_Status : string;
  a_Total : Z; a_Completed : Z; a_Error : string;
}.

Definition aria2_fields (r : Aria2Record) : list (string * option json) :=
  [("pause_owner", omit_str (a_PauseOwner r)); ("deleted", omit_bool (a_Deleted r));
   ("control_until", omit_time (a_ControlUntil r)); ("state", Some (JStr (a_State r)));
   ("revision", Some (JNum (a_Revision r))); ("gid", Some (JStr (a_GID r)));
   ("task_id", Some (JStr (a_TaskID r))); ("download_url", Some (JStr (a_DownloadURL r)));
   ("dir", Some (JStr (a_Dir r))); ("out", Some (JStr (a_Out r)));
   ("created_at", Some (JTime (a_CreatedAt r))); ("status", Some (JStr (a_Status r)));
   ("total", Some (JNum (a_Total r))); ("completed", Some (JNum (a_Completed r)));
   ("error", omit_str (a_Error r))].

Definition decode_aria2 (m : gmap string json) : option Aria2Record :=
  owner ← as_str (m !! "pause_owner"); deleted ← as_bool (m !! "deleted");
  until ← as_time (m !! "control_until"); state ← as_str (m !! "state");
  revision ← as_uint64 (m !! "revision"); gid ← as_str (m !! "gid");
  taskID ← as_str (m !! "task_id"); url ← as_str (m !! "download_url");
  dir ← as_str (m !! "dir"); out ← as_str (m !! "out");
  created ← as_time (m !! "created_at"); status ← as_str (m !! "status");
  total ← as_int64 (m !! "total"); completed ← as_int64 (m !! "completed");
  error ← as_str (m !! "error");
  Some (mkAria2 owner deleted until state revision gid taskID url dir out created status
          total completed error).

Definition wf_aria2 (r : Aria2Record) : bool :=
  in_uint64 (a_Revision r) && in_int64 (a_Total r) && in_int64 (a_Completed r).

#[export] Program Instance Aria2Record_codec : Codec Aria2Record := {|
  encode r := fields (aria2_fields r); decode := decode_aria2; wf_rec := wf_aria2 |}.
Next Obligation.
  intros r H. unfold wf_aria2 in H. split_wf H. unfold decode_aria2.
  assert (Hn : NoDup (aria2_fields r).*1) by distinct_fields.
  read_fields Hn. by destruct r.
Qed.

(** ** [types.PersistentLink] *)

Record PersistentLink := mkLink {
  p_ID : string; p_PeerID : Z; p_MessageID : Z; p_FileName : string; p_FileSize : Z;
  p_CreatedAt : Z; p_LastActiveAt : Z; p_Downloaded : bool;
}.

Definition link_fields (r : PersistentLink) : list (string * option json) :=
  [("id", Some (JStr (p_ID r))); ("peer_id", Some (JNum (p_PeerID r)));
   ("message_id", Some (JNum (p_MessageID r))); ("file_name", Some (JStr (p_FileName r)));
   ("file_size", Some (JNum (p_FileSize r))); ("created_at", Some (JTime (p_CreatedAt r)));
   ("last_active_at", Some (JTime (p_LastActiveAt r))); ("downloaded", Some (JBool (p_Downloaded r)))].

Definition decode_link (m : gmap string json) : option PersistentLink :=
  id ← as_str (m !! "id"); peer ← as_int64 (m !! "peer_id"); msg ← as_int64 (m !! "message_id");
  name ← as_str (m !! "file_name"); size ← as_int64 (m !! "file_size");
  created ← as_time (m !! "created_at"); active ← as_time (m !! "last_active_at");
  downloaded ← as_bool (m !! "downloaded");
  Some (mkLink id peer msg name size created active downloaded).

Definition wf_link (r : PersistentLink) : bool :=
  in_int64 (p_PeerID r) && in_int64 (p_MessageID r) && in_int64 (p_FileSize r).

#[export] Program Instance PersistentLink_codec : Codec PersistentLink := {|
  encode r := fields (link_fields r); decode := decode_link; wf_rec := wf_link |}.
Next Obligation.
  intros r H. unfold wf_link in H. split_wf H. unfold decode_link.
  assert (Hn : NoDup (link_fields r).*1) by distinct_fields.
  read_fields Hn. by destruct r.
Qed.
