(* ===== verification/Taskhub.v ===== *)
(** * Task collections (bsw/cdd/taskhub)

    [hub.go], [collection.go], [mutation.go] and [download_state.go]'s
    [mergeAria2State]: indexed JSON records under one key prefix, written
    through the owner's dataset in one transaction per operation.  Go's random
    map iteration is one order here; only which error comes first, or the
    order of a returned map, could depend on it. *)

From S2P Require Import Prelude Strings Storage TaskTypes.

Definition ForwardPrefix := "forward.job.".
Definition ForwardIndex := "forward.index".
Definition LinkPrefix := "watch.download.".
Definition LinkIndex := "watch.download.index".
Definition Aria2Prefix := "watch.aria2.task.".
Definition Aria2Index := "watch.aria2.index".
Definition LocalPrefix := "download.local.task.".
Definition LocalIndex := "download.local.index".
Definition writerID := "taskhub".

Record Collection := mkCollection {
  c_initErr : option err; c_scope : list Dataset; c_prefix : string; c_indexKey : string }.

Definition New (scope : list Dataset) (prefix index : string) : Collection :=
  mkCollection None scope prefix index.

Record Hub := mkHub { h_Forward : Collection; h_Links : Collection; h_Aria2 : Collection; h_Local : Collection }.

Definition open_one (r : Registry) (name scope prefix index : string) : res err (Registry * Collection) :=
  r ← Register r (mkDataset name writerID scope []);
  w ← Writer r name writerID;
  Ok (r, New w prefix index).

Definition Open : res err Hub :=
  '(r, forward) ← open_one NewRegistry "forward" "forward." ForwardPrefix ForwardIndex;
  '(r, links) ← open_one r "links" LinkPrefix LinkPrefix LinkIndex;
  '(r, aria2) ← open_one r "aria2" "watch.aria2." Aria2Prefix Aria2Index;
  '(_, local) ← open_one r "local" "download.local." LocalPrefix LocalIndex;
  Ok (mkHub forward links aria2 local).

Definition owned (select : Hub → Collection) : Collection :=
  match Open with Ok h => select h | Err x => mkCollection (Some x) [] "" "" end.
Definition Links : Collection := owned h_Links.
Definition Aria2 : Collection := owned h_Aria2.
Definition Local : Collection := owned h_Local.
Definition Forward : Collection := owned h_Forward.

(** ** collection.go *)

Definition with_init {A} (c : Collection) (m : op A) : op A := λ canceled s,
  match c_initErr c with Some x => (Err x, s) | None => m canceled s end.

Definition index_times (m : gmap string json) : res err (gmap string Z) :=
  if forallb (λ '(_, j), bool_decide (is_Some (as_time (Some j)))) (map_to_list m)
  then Ok (omap (λ j, as_time (Some j)) m)
  else Err (ErrMsg "json: cannot unmarshal").
Definition decode_index (v : value) : res err (gmap string Z) := as_object v ≫= index_times.

Definition index (c : Collection) : tx (gmap string Z) :=
  o ← try_get (tx_get (c_indexKey c));
  match o with None => mret ∅ | Some v => lift (decode_index v) end.

Definition saveIndex (c : Collection) (idx : gmap string Z) : tx unit :=
  tx_set (c_indexKey c) (VJson (JObj (JTime <$> idx))).

Definition key (c : Collection) (id : string) : string := c_prefix c +:+ id.

Definition Put (c : Collection) (id : string) (data : value) (createdAt : Z) : op unit :=
  with_init c (λ canceled s,
    if String.eqb id "" || negb (json_valid data)
    then (Err (ErrMsg "invalid task id or JSON record"), s)
    else Update (scoped (c_scope c) (
      idx ← index c;
      _ ← tx_set (key c id) data;
      saveIndex c (<[id := createdAt]> idx))) canceled s).

Definition CGet (c : Collection) (id : string) : op value :=
  with_init c (Get (c_scope c) (key c id)).

Definition Remove (c : Collection) (id : string) : op unit :=
  with_init c (Update (scoped (c_scope c) (
    idx ← index c;
    _ ← tx_delete (key c id);
    saveIndex c (delete id idx)))).

(** Go's [for id, stamp := range m] over a transaction. *)
Fixpoint tx_iter {S X} (f : S → X → tx S) (s : S) (l : list X) : tx S :=
  match l with
  | [] => mret s
  | x :: l => s' ← f s x; tx_iter f s' l
  end.

Definition records_step (c : Collection) (acc : gmap string Z * bool * gmap string value)
    (x : string * Z) : tx (gmap string Z * bool * gmap string value) :=
  let '(idx, changed, result) := acc in
  let '(id, _) := x in
  o ← try_get (tx_get (key c id));
  mret (match o with
        | None => (delete id idx, true, result)
        | Some data => (idx, changed, <[id := data]> result)
        end).

Definition Records (c : Collection) : op (gmap string value) :=
  with_init c (Update (scoped (c_scope c) (
    idx ← index c;
    '(idx', changed, result) ← tx_iter (records_step c) (idx, false, ∅) (map_to_list idx);
    _ ← (if (changed : bool) then saveIndex c idx' else mret tt);
    mret result))).

(** ** mutation.go *)

(** The callback returns what its closure captures, then the next record
    ([None] deletes it) and its stamp.  A rewrite with unchanged bytes is
    skipped by the code; writing the same value back leaves the same store. *)
Definition Mutate {A} (c : Collection) (id : string)
    (fn : value → Z → res err (A * (option value * Z))) : op A :=
  with_init c (Update (scoped (c_scope c) (
    idx ← index c;
    data ← tx_get (key c id);
    '(captured, (next, stamp)) ← lift (fn data (default 0 (idx !! id)));
    _ ← match next with
        | None => _ ← tx_delete (key c id); saveIndex c (delete id idx)
        | Some next =>
            _ ← (if json_valid next then mret tt else mthrow (ErrMsg "invalid task JSON"));
            _ ← tx_set (key c id) next;
            if bool_decide (idx !! id = Some stamp) then mret tt
            else saveIndex c (<[id := stamp]> idx)
        end;
    mret captured))).

(** DecodeAria2Record of aria2_repository.go *)
Definition valid_aria2 (gid : string) (r : Aria2Record) : bool :=
  negb (String.eqb (a_GID r) "") && String.eqb (a_GID r) gid && negb (a_Revision r =? 0)
  && negb (String.eqb (NormalizeDownloadState (a_Status r)) DownloadUnknown)
  && String.eqb (a_State r) (NormalizeDownloadState (a_Status r)).
Definition DecodeAria2Record (data : value) (gid : string) : res err Aria2Record :=
  r ← unmarshal data;
  if valid_aria2 gid r then Ok r else Err (ErrMsg "invalid aria2 task record").

(** Unmarshal of one raw field with its error ignored. *)
Definition quiet {A} (zero : A) (o : option A) : A := default zero o.

Definition fieldStatus := "status".
Definition fieldState := "state".
Definition fieldTotal := "total".
Definition fieldCompleted := "completed".
Definition fieldError := "error".
Definition fieldRevision := "revision".
Definition fieldControlUntil := "control_until".

(** Unsigned 64-bit increment. *)
Definition u64_succ (z : Z) : Z := (z + 1) `mod` 2^64.

Definition mergeAria2State (previous updates : gmap string json) : res err (gmap string json) :=
  let oldStatus := quiet "" (as_str (previous !! fieldStatus)) in
  let revision := quiet 0 (as_uint64 (previous !! fieldRevision)) in
  let status := quiet "" (as_str (updates !! fieldStatus)) in
  let '(updates, status) :=
    if String.eqb status "" then
      let updates := delete fieldStatus (delete fieldState (delete fieldTotal
                       (delete fieldCompleted (delete fieldError updates)))) in
      if String.eqb oldStatus ""
      then (<[fieldStatus := JStr "waiting"]> updates, "waiting")
      else (updates, oldStatus)
    else (updates, status) in
  let next := NormalizeDownloadState status in
  if DownloadTransition (NormalizeDownloadState oldStatus) next
  then Ok (<[fieldRevision := JNum (u64_succ revision)]> (<[fieldState := JStr next]> updates))
  else Err (ErrMsg "invalid aria2 state transition").

(** The field updates [Merge] lays over the stored record. *)
Definition merge_updates (c : Collection) (old : option value) (id : string) (data : value)
    : res err (gmap string json * gmap string json) :=
  merged ← match old with
           | None => Ok ∅
           | Some v =>
               _ ← (if String.eqb (c_prefix c) Aria2Prefix
                    then r ← DecodeAria2Record v id; Ok tt else Ok tt);
               as_object v
           end;
  updates ← as_object data;
  updates ← (if String.eqb (c_prefix c) Aria2Prefix
             then mergeAria2State merged updates else Ok updates);
  let oldClock := quiet 0 (as_time (merged !! "last_active_at")) in
  let newClock := quiet 0 (as_time (updates !! "last_active_at")) in
  Ok (merged, if String.eqb (c_prefix c) LinkPrefix && (newClock <? oldClock)
              then delete "last_active_at" updates else updates).

Definition Merge (c : Collection) (id : string) (data : value) (stamp : Z) : op unit :=
  with_init c (λ canceled s,
    if String.eqb id "" then (Err (ErrMsg "empty task id"), s)
    else Update (scoped (c_scope c) (
      idx ← index c;
      old ← try_get (tx_get (key c id));
      '(merged, updates) ← lift (merge_updates c old id data);
      _ ← tx_set (key c id) (VJson (JObj (updates ∪ merged)));
      saveIndex c (match idx !! id with
                   | Some previous => if previous <? stamp then <[id := stamp]> idx else idx
                   | None => <[id := stamp]> idx
                   end))) canceled s).

Definition sweep_step (c : Collection) (expired : value → Z → res err bool)
    (acc : gmap string Z * bool) (x : string * Z) : tx (gmap string Z * bool) :=
  let '(idx, changed) := acc in
  let '(id, stamp) := x in
  o ← try_get (tx_get (key c id));
  remove ← match o with None => mret true | Some data => lift (expired data stamp) end;
  if (remove : bool) then _ ← tx_delete (key c id); mret (delete id idx, true)
  else mret (idx, changed).

Definition Sweep (c : Collection) (expired : value → Z → res err bool) : op unit :=
  with_init c (Update (scoped (c_scope c) (
    idx ← index c;
    '(idx', changed) ← tx_iter (sweep_step c expired) (idx, false) (map_to_list idx);
    if (changed : bool) then saveIndex c idx' else mret tt))).

Definition mark_downloaded (id : string) (data : value) (stamp : Z) : res err (unit * (option value * Z)) :=
  raw ← as_object data;
  let raw := <["downloaded" := JBool true]> raw in
  match raw !! "id" with
  | None => Err (ErrMsg "unexpected end of JSON input")
  | Some j =>
      match as_str (Some j) with
      | None => Err (ErrMsg "json: cannot unmarshal")
      | Some persistedID =>
          if String.eqb persistedID id then Ok (tt, (Some (VJson (JObj raw)), stamp))
          else Err (ErrMsg "download source identity mismatch")
      end
  end.
Definition MarkDownloaded (c : Collection) (id : string) : op unit :=
  Mutate c id (mark_downloaded id).
