(* ===== verification/CollectionSpec.v ===== *)
(** * Running task collections

    The functional behaviour of [Put], [Get], [Remove] and [Records] of
    Taskhub.v, on the abstract contents of a collection. *)

From S2P Require Import Prelude Strings Storage TaskTypes Taskhub.

Definition live (scope : list Dataset) : env := mkEnv false [scope].

Lemma bind_ok {A B} (m : tx A) (k : A → tx B) e s a s' :
  m e s = Ok (a, s') → (m ≫= k) e s = k a e s'.
Proof. intros H. unfold mbind, tx_bind. by rewrite H. Qed.
Lemma bind_err {A B} (m : tx A) (k : A → tx B) e s x :
  m e s = Err x → (m ≫= k) e s = Err x.
Proof. intros H. unfold mbind, tx_bind. by rewrite H. Qed.

Lemma tx_bind_inv {A B} (m : tx A) (k : A → tx B) e s b s' :
  (m ≫= k) e s = Ok (b, s') → ∃ a s1, m e s = Ok (a, s1) ∧ k a e s1 = Ok (b, s').
Proof. unfold mbind, tx_bind. destruct (m e s) as [[a s1]|x]; [|done]. eauto. Qed.

Section run.
Context (scope : list Dataset) (k : string) (Hk : in_scope scope k = true).

Lemma run_check s : check k (live scope) s = Ok (tt, s).
Proof. unfold check, live. simpl. by rewrite Hk. Qed.
Lemma run_get s :
  tx_get k (live scope) s = match s !! k with Some v => Ok (v, s) | None => Err ErrNotFound end.
Proof. unfold tx_get. by rewrite (bind_ok _ _ _ _ _ _ (run_check s)). Qed.
Lemma run_try_get s : try_get (tx_get k) (live scope) s = Ok (s !! k, s).
Proof. unfold try_get. rewrite run_get. by destruct (s !! k). Qed.
Lemma run_set v s : tx_set k v (live scope) s = Ok (tt, <[k := v]> s).
Proof. unfold tx_set. by rewrite (bind_ok _ _ _ _ _ _ (run_check s)). Qed.
Lemma run_delete s : tx_delete k (live scope) s = Ok (tt, delete k s).
Proof. unfold tx_delete. by rewrite (bind_ok _ _ _ _ _ _ (run_check s)). Qed.
End run.

(** ** Well-formed collections *)

Record Cwf (c : Collection) : Prop := {
  cw_init : c_initErr c = None;
  cw_index : in_scope (c_scope c) (c_indexKey c) = true;
  cw_key : ∀ id, in_scope (c_scope c) (key c id) = true;
}.

Lemma string_app_assoc (a b c : string) : (a +:+ b) +:+ c = a +:+ (b +:+ c).
Proof. induction a as [|x a IH]; [done|]. exact (f_equal (String x) IH). Qed.

Lemma scope_prefix d p s : String.eqb (ds_Prefix d) "" = false → HasPrefix p (ds_Prefix d) = true →
  in_scope [d] (p +:+ s) = true.
Proof.
  intros He (p' & ->)%HasPrefix_inv. unfold in_scope, contains. simpl. rewrite He, string_app_assoc.
  by rewrite HasPrefix_app.
Qed.

Lemma string_app_nil (s : string) : s +:+ "" = s.
Proof. induction s as [|a s IH]; [done|]. exact (f_equal (String a) IH). Qed.

Lemma Cwf_one d c :
  c_initErr c = None → c_scope c = [d] → String.eqb (ds_Prefix d) "" = false →
  HasPrefix (c_prefix c) (ds_Prefix d) = true → HasPrefix (c_indexKey c) (ds_Prefix d) = true → Cwf c.
Proof.
  intros Hi Hs He Hp Hx. split; [done| |]; rewrite Hs.
  - rewrite <- (string_app_nil (c_indexKey c)). by apply scope_prefix.
  - intros id. by apply scope_prefix.
Qed.

Lemma Forward_wf : Cwf Forward.
Proof. by apply (Cwf_one (mkDataset "forward" writerID "forward." [])). Qed.
Lemma Links_wf : Cwf Links.
Proof. by apply (Cwf_one (mkDataset "links" writerID LinkPrefix [])). Qed.
Lemma Aria2_wf : Cwf Aria2.
Proof. by apply (Cwf_one (mkDataset "aria2" writerID "watch.aria2." [])). Qed.
Lemma Local_wf : Cwf Local.
Proof. by apply (Cwf_one (mkDataset "local" writerID "download.local." [])). Qed.

(** Record keys of a collection never collide with its index, except for the
    link called [index]. *)
Definition no_clash (c : Collection) (id : string) : Prop := key c id ≠ c_indexKey c.

Lemma forward_no_clash id : no_clash Forward id.
Proof. unfold no_clash. by vm_compute. Qed.
Lemma aria2_no_clash id : no_clash Aria2 id.
Proof. unfold no_clash. by vm_compute. Qed.
Lemma local_no_clash id : no_clash Local id.
Proof. unfold no_clash. by vm_compute. Qed.
Lemma links_no_clash id : id ≠ "index" → no_clash Links id.
Proof. unfold no_clash. intros Hid H. vm_compute in H. injection H as H. done. Qed.

Lemma key_inj c id1 id2 : key c id1 = key c id2 → id1 = id2.
Proof. apply app_inj_l. Qed.

(** ** The abstract contents of a collection *)

(** The index as the operations read it. *)
Definition index_of (c : Collection) (s : store) : res err (gmap string Z) :=
  match s !! c_indexKey c with None => Ok ∅ | Some v => decode_index v end.

(** Indexed records that exist. *)
Definition contents (c : Collection) (s : store) (idx : gmap string Z) : gmap string value :=
  map_imap (λ id _, s !! key c id) idx.

Lemma decode_index_enc idx : decode_index (VJson (JObj (JTime <$> idx))) = Ok idx.
Proof.
  unfold decode_index. simpl. unfold index_times.
  assert (forallb (λ '(_, j), bool_decide (is_Some (as_time (Some j)))) (map_to_list (JTime <$> idx)) = true) as ->.
  { apply forallb_forall. intros [k j] H. apply list_elem_of_In, elem_of_map_to_list in H.
    apply lookup_fmap_Some in H as (t & <- & _). by apply bool_decide_eq_true. }
  f_equal. apply map_eq. intros k. rewrite lookup_omap, lookup_fmap.
  by destruct (idx !! k).
Qed.

Lemma index_of_save c s idx : index_of c (<[c_indexKey c := VJson (JObj (JTime <$> idx))]> s) = Ok idx.
Proof. unfold index_of. rewrite lookup_insert_eq. apply decode_index_enc. Qed.

Lemma contents_lookup c s idx id :
  contents c s idx !! id = (_ ← idx !! id; s !! key c id).
Proof. unfold contents. apply map_lookup_imap. Qed.

Section collection.
Context (c : Collection) (Hc : Cwf c).
Abbreviation L := (live (c_scope c)).

Lemma run_index s idx : index_of c s = Ok idx → index c L s = Ok (idx, s).
Proof.
  unfold index_of, index. intros H.
  rewrite (bind_ok _ _ _ _ _ _ (run_try_get _ _ (cw_index c Hc) s)).
  destruct (s !! c_indexKey c) as [v|]; [|by injection H as <-]. unfold lift. by rewrite H.
Qed.

Lemma run_index_err s x : index_of c s = Err x → index c L s = Err x.
Proof.
  unfold index_of, index. intros H.
  rewrite (bind_ok _ _ _ _ _ _ (run_try_get _ _ (cw_index c Hc) s)).
  destruct (s !! c_indexKey c) as [v|]; [|done]. unfold lift. by rewrite H.
Qed.

Lemma run_save s idx :
  saveIndex c idx L s = Ok (tt, <[c_indexKey c := VJson (JObj (JTime <$> idx))]> s).
Proof. apply run_set. apply Hc. Qed.

Lemma Update_live {A} (m : tx A) s :
  Update (scoped (c_scope c) m) false s =
  match m L s with Ok (a, s') => (Ok a, s') | Err x => (Err x, s) end.
Proof. done. Qed.

(** [Put] stores the record and its stamp. *)
Lemma Put_ok id data t s idx :
  id ≠ "" → json_valid data = true → index_of c s = Ok idx →
  Put c id data t false s =
    (Ok tt, <[c_indexKey c := VJson (JObj (JTime <$> <[id := t]> idx))]> (<[key c id := data]> s)).
Proof.
  intros Hid Hv Hi. unfold Put, with_init. rewrite (cw_init c Hc).
  destruct (String.eqb_spec id "") as [?|_]; [done|]. rewrite Hv. simpl orb. cbn [negb].
  rewrite Update_live, (bind_ok _ _ _ _ _ _ (run_index _ _ Hi)).
  rewrite (bind_ok _ _ _ _ _ _ (run_set _ _ (cw_key c Hc id) _ _)). by rewrite run_save.
Qed.

Lemma Remove_ok id s idx :
  index_of c s = Ok idx →
  Remove c id false s =
    (Ok tt, <[c_indexKey c := VJson (JObj (JTime <$> delete id idx))]> (delete (key c id) s)).
Proof.
  intros Hi. unfold Remove, with_init. rewrite (cw_init c Hc), Update_live.
  rewrite (bind_ok _ _ _ _ _ _ (run_index _ _ Hi)).
  rewrite (bind_ok _ _ _ _ _ _ (run_delete _ _ (cw_key c Hc id) _)). by rewrite run_save.
Qed.

Lemma CGet_ok id s :
  CGet c id false s = (match s !! key c id with Some v => Ok v | None => Err ErrNotFound end, s).
Proof.
  unfold CGet, with_init. rewrite (cw_init c Hc). unfold Get, scoped.
  change (mkEnv _ _) with L. simpl. fold (live (c_scope c)). rewrite (run_get _ _ (cw_key c Hc id)).
  by destruct (s !! key c id).
Qed.

Definition kept_index (s : store) (l : list string) (idx : gmap string Z) (id : string) : option Z :=
  if decide (id ∈ l) then match s !! key c id with Some _ => idx !! id | None => None end
  else idx !! id.
Definition read_records (s : store) (l : list string) (res : gmap string value) (id : string) : option value :=
  if decide (id ∈ l) then match s !! key c id with Some v => Some v | None => res !! id end
  else res !! id.

Lemma run_records_loop s l : ∀ idx ch res, NoDup l.*1 →
  ∃ idx' ch' res', tx_iter (records_step c) (idx, ch, res) l L s = Ok (idx', ch', res', s) ∧
    (∀ id, idx' !! id = kept_index s l.*1 idx id) ∧
    (∀ id, res' !! id = read_records s l.*1 res id) ∧
    (ch' = false → ch = false ∧ ∀ id, id ∈ l.*1 → s !! key c id ≠ None).
Proof.
  induction l as [|[id t] l IH]; intros idx ch res; cbn [fmap list_fmap tx_iter].
  { intros _. exists idx, ch, res. split_and!; try done; set_solver. }
  intros [Hn Hd]%NoDup_cons.
  assert (Hstep : records_step c (idx, ch, res) (id, t) L s =
    Ok (match s !! key c id with
        | None => (delete id idx, true, res) | Some data => (idx, ch, <[id := data]> res) end, s)).
  { unfold records_step. by rewrite (bind_ok _ _ _ _ _ _ (run_try_get _ _ (cw_key c Hc id) s)). }
  rewrite (bind_ok _ _ _ _ _ _ Hstep). clear Hstep.
  unfold kept_index, read_records in *. cbn [fst].
  destruct (s !! key c id) as [data|] eqn:Hs.
  - destruct (IH idx ch (<[id := data]> res) Hd) as (idx' & ch' & res' & -> & Hi & Hr & Hch).
    exists idx', ch', res'. split_and!; [done|intros x; rewrite Hi|intros x; rewrite Hr|].
    + repeat case_decide; try done; [set_solver|]. assert (x = id) as -> by set_solver. by rewrite Hs.
    + destruct (decide (x = id)) as [->|Hne].
      * rewrite (decide_False (P := id ∈ l.*1)), decide_True, lookup_insert_eq, Hs by set_solver. done.
      * rewrite lookup_insert_ne by done. repeat case_decide; try done; set_solver.
    + intros Hf. destruct (Hch Hf) as [? Hall]. split; [done|]. intros x.
      intros [->|?]%elem_of_cons; [by rewrite Hs|by apply Hall].
  - destruct (IH (delete id idx) true res Hd) as (idx' & ch' & res' & -> & Hi & Hr & Hch).
    exists idx', ch', res'. split_and!; [done|intros x; rewrite Hi|intros x; rewrite Hr|].
    + destruct (decide (x = id)) as [->|Hne].
      * rewrite (decide_False (P := id ∈ l.*1)), decide_True, lookup_delete_eq, Hs by set_solver. done.
      * rewrite lookup_delete_ne by done. repeat case_decide; try done; set_solver.
    + repeat case_decide; try done; [set_solver|]. assert (x = id) as -> by set_solver. by rewrite Hs.
    + intros Hf. by destruct (Hch Hf).
Qed.

Lemma elem_of_map_keys (idx : gmap string Z) id : id ∈ (map_to_list idx).*1 ↔ is_Some (idx !! id).
Proof.
  rewrite list_elem_of_fmap. split.
  - intros ([k t] & -> & H%elem_of_map_to_list). eauto.
  - intros [t H]. exists (id, t). by rewrite elem_of_map_to_list.
Qed.

(** [Records] returns exactly the indexed records that exist, and leaves an
    index without dangling entries. *)
Lemma Records_ok s idx :
  index_of c s = Ok idx → (∀ id, no_clash c id ∨ idx !! id = None) →
  ∃ s', Records c false s = (Ok (contents c s idx), s') ∧
    index_of c s' = Ok (filter (λ '(id, _), is_Some (s !! key c id)) idx) ∧
    ∀ k, k ≠ c_indexKey c → s' !! k = s !! k.
Proof.
  intros Hi Hcl. unfold Records, with_init. rewrite (cw_init c Hc), Update_live.
  rewrite (bind_ok _ _ _ _ _ _ (run_index _ _ Hi)).
  destruct (run_records_loop s (map_to_list idx) idx false ∅) as (idx' & ch' & res' & Hr & Hi' & Hres & Hch).
  { apply NoDup_fst_map_to_list. }
  rewrite (bind_ok _ _ _ _ _ _ Hr).
  assert (res' = contents c s idx) as ->.
  { apply map_eq. intros id. rewrite Hres, contents_lookup. unfold read_records. case_decide as Hin.
    - apply elem_of_map_keys in Hin as [t Ht]. rewrite Ht, lookup_empty. simpl. by destruct (s !! key c id).
    - destruct (idx !! id) eqn:Ht; [|by rewrite lookup_empty]. destruct Hin. apply elem_of_map_keys. eauto. }
  assert (Hidx : idx' = filter (λ '(id, _), is_Some (s !! key c id)) idx).
  { apply map_eq. intros id. rewrite Hi', map_lookup_filter. unfold kept_index. case_decide as Hin.
    - destruct (idx !! id) as [t|]; simpl; [|by destruct (s !! key c id)].
      by destruct (s !! key c id).
    - destruct (idx !! id) as [t|] eqn:Ht; [|done]. destruct Hin. apply elem_of_map_keys. eauto. }
  destruct ch'; simpl.
  - rewrite (bind_ok _ _ _ _ _ _ (run_save _ _)). eexists. split; [done|]. split.
    + by rewrite index_of_save, Hidx.
    + intros k Hk. by rewrite lookup_insert_ne.
  - exists s. split; [done|]. split; [|done]. rewrite Hi. f_equal. symmetry. apply map_filter_id.
    intros id t Ht. destruct Hch as [_ Hall]; [done|]. apply not_eq_None_Some. apply Hall.
    apply elem_of_map_keys. eauto.
Qed.
End collection.
