(* ===== verification/MutationSpec.v ===== *)
(** * Running task mutations

    The functional behaviour of [Mutate], [Merge] and [Sweep] of Taskhub.v. *)

From S2P Require Import Prelude Strings Storage TaskTypes Taskhub CollectionSpec.

Section mutations.
Context (c : Collection) (Hc : Cwf c).
Abbreviation L := (live (c_scope c)).

(** [Mutate] on an existing record, by the callback's answer. *)
Lemma Mutate_ok {A} id (fn : value → Z → res err (A * (option value * Z))) s idx data a next stamp :
  index_of c s = Ok idx → no_clash c id → s !! key c id = Some data →
  fn data (default 0 (idx !! id)) = Ok (a, (next, stamp)) →
  match next with Some v => json_valid v = true | None => True end →
  ∃ s', Mutate c id fn false s = (Ok a, s') ∧
    s' !! key c id = next ∧
    index_of c s' = Ok (match next with Some _ => <[id := stamp]> idx | None => delete id idx end) ∧
    ∀ k, k ≠ key c id → k ≠ c_indexKey c → s' !! k = s !! k.
Proof.
  intros Hi Hcl Hs Hfn Hv. unfold Mutate, with_init. rewrite (cw_init c Hc), Update_live.
  rewrite (bind_ok _ _ _ _ _ _ (run_index _ Hc _ _ Hi)).
  assert (Hg : tx_get (key c id) L s = Ok (data, s)) by (by rewrite (run_get _ _ (cw_key c Hc id)), Hs).
  rewrite (bind_ok _ _ _ _ _ _ Hg). clear Hg.
  assert (Hl : lift (fn data (default 0 (idx !! id))) L s = Ok ((a, (next, stamp)), s)) by (unfold lift; by rewrite Hfn).
  rewrite (bind_ok _ _ _ _ _ _ Hl). clear Hl. destruct next as [v|]; cbn [fst snd].
  - rewrite Hv. case_bool_decide as Hst.
    + unfold mbind, tx_bind, mret, tx_ret. rewrite (run_set _ _ (cw_key c Hc id)).
      eexists. split; [done|]. split_and!; [apply lookup_insert_eq| |].
      * unfold index_of in *. rewrite lookup_insert_ne by done. rewrite Hi. f_equal. symmetry. by apply insert_id.
      * intros k H1 _. by rewrite lookup_insert_ne.
    + unfold mbind, tx_bind, mret, tx_ret. rewrite (run_set _ _ (cw_key c Hc id)), run_save by done.
      eexists. split; [done|]. split_and!; [|by rewrite index_of_save|].
      * rewrite lookup_insert_ne by done. apply lookup_insert_eq.
      * intros k H1 H2. by rewrite !lookup_insert_ne.
  - unfold mbind, tx_bind, mret, tx_ret. rewrite (run_delete _ _ (cw_key c Hc id)), run_save by done.
    eexists. split; [done|]. split_and!; [|by rewrite index_of_save|].
    + rewrite lookup_insert_ne by done. apply lookup_delete_eq.
    + intros k H1 H2. by rewrite lookup_insert_ne, lookup_delete_ne.
Qed.

Lemma Mutate_missing {A} id (fn : value → Z → res err (A * (option value * Z))) s idx :
  index_of c s = Ok idx → s !! key c id = None → Mutate c id fn false s = (Err ErrNotFound, s).
Proof.
  intros Hi Hs. unfold Mutate, with_init. rewrite (cw_init c Hc), Update_live.
  rewrite (bind_ok _ _ _ _ _ _ (run_index _ Hc _ _ Hi)), (bind_err _ _ _ _ ErrNotFound); [done|].
  by rewrite (run_get _ _ (cw_key c Hc id)), Hs.
Qed.

Lemma Mutate_refused {A} id (fn : value → Z → res err (A * (option value * Z))) s idx data x :
  index_of c s = Ok idx → s !! key c id = Some data →
  fn data (default 0 (idx !! id)) = Err x → Mutate c id fn false s = (Err x, s).
Proof.
  intros Hi Hs Hfn. unfold Mutate, with_init. rewrite (cw_init c Hc), Update_live.
  rewrite (bind_ok _ _ _ _ _ _ (run_index _ Hc _ _ Hi)).
  assert (Hg : tx_get (key c id) L s = Ok (data, s)) by (by rewrite (run_get _ _ (cw_key c Hc id)), Hs).
  rewrite (bind_ok _ _ _ _ _ _ Hg), (bind_err _ _ _ _ x); [done|]. unfold lift. by rewrite Hfn.
Qed.

(** [Merge] lays the updates over the stored object and never moves the
    index stamp back. *)
Lemma Merge_ok id data t s idx merged updates :
  index_of c s = Ok idx → no_clash c id → id ≠ "" →
  merge_updates c (s !! key c id) id data = Ok (merged, updates) →
  ∃ s' t', Merge c id data t false s = (Ok tt, s') ∧
    s' !! key c id = Some (VJson (JObj (updates ∪ merged))) ∧
    index_of c s' = Ok (<[id := t']> idx) ∧
    t' = match idx !! id with Some p => Z.max p t | None => t end.
Proof.
  intros Hi Hcl Hid Hm. unfold Merge, with_init. rewrite (cw_init c Hc).
  destruct (String.eqb_spec id "") as [?|_]; [done|]. rewrite Update_live.
  rewrite (bind_ok _ _ _ _ _ _ (run_index _ Hc _ _ Hi)).
  rewrite (bind_ok _ _ _ _ _ _ (run_try_get _ _ (cw_key c Hc id) s)).
  assert (Hl : lift (merge_updates c (s !! key c id) id data) L s = Ok ((merged, updates), s))
    by (unfold lift; by rewrite Hm).
  rewrite (bind_ok _ _ _ _ _ _ Hl). cbn [fst snd].
  rewrite (bind_ok _ _ _ _ _ _ (run_set _ _ (cw_key c Hc id) _ _)), run_save by done.
  eexists _, _. split; [done|]. split_and!; [| |done].
  - rewrite lookup_insert_ne by done. apply lookup_insert_eq.
  - rewrite index_of_save. destruct (idx !! id) as [p|] eqn:Hp; [|done]. f_equal.
    destruct (Z.ltb_spec p t); [by rewrite Z.max_r by lia|].
    rewrite Z.max_l by lia. symmetry. by apply insert_id.
Qed.

(** The records a sweep of the ids in [l] removes. *)
Definition swept (expired : value → Z → res err bool) (s : store) (l : list (string * Z)) (id : string) : Prop :=
  ∃ t, (id, t) ∈ l ∧ (s !! key c id = None ∨ ∃ v, s !! key c id = Some v ∧ expired v t = Ok true).

Lemma run_sweep_loop expired l : ∀ s idx ch idx' ch' s',
  NoDup l.*1 → tx_iter (sweep_step c expired) (idx, ch) l L s = Ok (idx', ch', s') →
  (∀ id, swept expired s l id → idx' !! id = None ∧ s' !! key c id = None) ∧
  (∀ id, ¬ swept expired s l id → idx' !! id = idx !! id ∧ s' !! key c id = s !! key c id) ∧
  (∀ k, (∀ id, k ≠ key c id) → s' !! k = s !! k) ∧
  (ch' = false → ch = false ∧ idx' = idx ∧ s' = s).
Proof.
  induction l as [|[id t] l IH]; intros s idx ch idx' ch' s'; cbn [fmap list_fmap tx_iter].
  { intros _ [= <- <- <-]. split_and!; try done. intros id (t & Hin & _). set_solver. }
  intros [Hn Hd]%NoDup_cons. unfold mbind at 1, tx_bind.
  destruct (sweep_step c expired (idx, ch) (id, t) L s) as [[[idx1 ch1] s1]|x] eqn:Hst; [|done].
  intros H. destruct (IH _ _ _ _ _ _ Hd H) as (IH1 & IH2 & IH3 & IH4). clear H IH.
  assert (Hstep : (idx1 = idx ∧ ch1 = ch ∧ s1 = s ∧ ¬ swept expired s [(id, t)] id) ∨
    (idx1 = delete id idx ∧ ch1 = true ∧ s1 = delete (key c id) s ∧ swept expired s [(id, t)] id)).
  { revert Hst. unfold sweep_step. rewrite (bind_ok _ _ _ _ _ _ (run_try_get _ _ (cw_key c Hc id) s)).
    unfold mbind at 1, tx_bind. destruct (s !! key c id) as [v|] eqn:Hs.
    - unfold lift. destruct (expired v t) as [[]|x] eqn:He; [| |done].
      + rewrite (bind_ok _ _ _ _ _ _ (run_delete _ _ (cw_key c Hc id) _)). intros [= <- <- <-]. right.
        split_and!; try done. exists t. split; [left|]. right. eauto.
      + intros [= <- <- <-]. left. split_and!; try done.
        intros (t0 & Hin & [Hno|(v0 & Hv0 & He0)]); [congruence|]. apply list_elem_of_singleton in Hin. congruence.
    - cbn [mret tx_ret]. rewrite (bind_ok _ _ _ _ _ _ (run_delete _ _ (cw_key c Hc id) _)). intros [= <- <- <-]. right.
      split_and!; try done. exists t. split; [left|]. auto. }
  clear Hst. unfold swept in Hstep.
  assert (Hids : ∀ x u, (x, u) ∈ l → x ≠ id).
  { intros x u Hin ->. apply Hn. apply list_elem_of_fmap. by exists (id, u). }
  assert (Hcase : ∀ x, x ≠ id → (swept expired s ((id, t) :: l) x ↔ swept expired s l x)).
  { intros x Hne. split; intros (u & Hin & Hx); exists u; (split; [set_solver|done]). }
  assert (Hself : swept expired s ((id, t) :: l) id ↔ swept expired s [(id, t)] id).
  { split; intros (u & Hin & Hx); exists u; (split; [|done]).
    - apply elem_of_cons in Hin as [?|?]; [set_solver|]. by destruct (Hids _ _ H). 
    - set_solver. }
  destruct Hstep as [(-> & -> & -> & Hno)|(-> & -> & -> & Hyes)].
  - assert (Hl : ∀ x, swept expired s ((id, t) :: l) x ↔ swept expired s l x).
    { intros x. destruct (decide (x = id)) as [->|]; [|auto]. rewrite Hself. split; [done|].
      intros (u & Hin & _). by destruct (Hids _ _ Hin). }
    split_and!; try done; intros x; rewrite Hl; auto.
  - assert (Hdel : ∀ x, x ≠ id → delete (key c id) s !! key c x = s !! key c x).
    { intros x Hne. rewrite lookup_delete_ne; [done|]. intros ?%key_inj. done. }
    assert (Hsw : ∀ x, x ≠ id → (swept expired (delete (key c id) s) l x ↔ swept expired s l x)).
    { intros x Hne. unfold swept. by setoid_rewrite (Hdel x Hne). }
    assert (Hnl : ¬ swept expired (delete (key c id) s) l id).
    { intros (u & Hin & _). by destruct (Hids _ _ Hin). }
    split_and!.
    + intros x Hx. destruct (decide (x = id)) as [->|Hne].
      * destruct (IH2 id Hnl) as [-> ->]. by rewrite !lookup_delete_eq.
      * apply IH1. by rewrite Hsw, <- Hcase.
    + intros x Hx. destruct (decide (x = id)) as [->|Hne]; [by rewrite Hself in Hx|].
      rewrite Hcase, <- Hsw in Hx by done. destruct (IH2 x Hx) as [-> ->].
      by rewrite Hdel, lookup_delete_ne.
    + intros k Hk. rewrite IH3 by done. by rewrite lookup_delete_ne.
    + intros Hf. by destruct (IH4 Hf).
Qed.

(** [Sweep] removes exactly the expired and the dangling entries. *)
Lemma Sweep_ok expired s idx s' :
  index_of c s = Ok idx → Sweep c expired false s = (Ok tt, s') →
  ∃ idx', index_of c s' = Ok idx' ∧ ∀ id, no_clash c id →
    (swept expired s (map_to_list idx) id → idx' !! id = None ∧ s' !! key c id = None) ∧
    (¬ swept expired s (map_to_list idx) id → idx' !! id = idx !! id ∧ s' !! key c id = s !! key c id).
Proof.
  intros Hi. unfold Sweep, with_init. rewrite (cw_init c Hc), Update_live.
  rewrite (bind_ok _ _ _ _ _ _ (run_index _ Hc _ _ Hi)).
  unfold mbind, tx_bind. destruct (tx_iter _ _ _ _ _) as [[[idx' ch'] s1]|] eqn:Hr; [|done].
  destruct (run_sweep_loop _ _ _ _ _ _ _ _ (NoDup_fst_map_to_list _) Hr) as (H1 & H2 & H3 & H4).
  destruct ch'; cbn [fst snd].
  - rewrite run_save by done. intros [= <-]. exists idx'. split; [by rewrite index_of_save|].
    intros id Hcl. rewrite lookup_insert_ne by (by apply not_eq_sym). auto.
  - intros [= <-]. destruct (H4 eq_refl) as (_ & -> & ->). exists idx. auto.
Qed.
End mutations.

(** ** Collections do not touch each other *)

Lemma confined_iter {S X} (f : S → X → tx S) l :
  (∀ s x, confined (f s x)) → ∀ s, confined (tx_iter f s l).
Proof. intros Hf. induction l as [|x l IH]; intros s; simpl; eauto with confined. Qed.

Lemma confined_index c : confined (index c).
Proof. unfold index. apply confined_bind; [auto with confined|]. intros []; auto with confined. Qed.
Lemma confined_save c idx : confined (saveIndex c idx).
Proof. apply confined_set. Qed.
#[export] Hint Resolve confined_index confined_save : confined.

(** Split a transaction body into its primitive steps. *)
Ltac confine := repeat first
  [ progress eauto with confined
  | apply confined_bind; [|intros]
  | apply confined_iter; intros
  | match goal with |- confined (let '(_, _) := ?x in _) => destruct x end
  | match goal with |- confined (match ?x with _ => _ end) => destruct x end ].

Lemma confined_records_step c acc x : confined (records_step c acc x).
Proof. destruct acc as [[idx ch] res], x as [id t]. unfold records_step. confine. Qed.
Lemma confined_sweep_step c expired acc x : confined (sweep_step c expired acc x).
Proof. destruct acc as [idx ch], x as [id t]. unfold sweep_step. confine. Qed.
#[export] Hint Resolve confined_records_step confined_sweep_step : confined.

(** The operations of a collection. *)
Inductive coll_op :=
  | OpPut (id : string) (data : value) (t : Z)
  | OpRemove (id : string)
  | OpRecords
  | OpMutate (id : string) (fn : value → Z → res err (unit * (option value * Z)))
  | OpMerge (id : string) (data : value) (t : Z)
  | OpSweep (expired : value → Z → res err bool).

(** The outcome without its value, and the store left behind. *)
Definition forget {A} (r : res err A * store) : res err unit * store :=
  (match r.1 with Ok _ => Ok tt | Err x => Err x end, r.2).
Definition run_op (c : Collection) (o : coll_op) : op unit := λ canceled s,
  match o with
  | OpPut id data t => Put c id data t canceled s
  | OpRemove id => Remove c id canceled s
  | OpRecords => forget (Records c canceled s)
  | OpMutate id fn => Mutate c id fn canceled s
  | OpMerge id data t => Merge c id data t canceled s
  | OpSweep expired => Sweep c expired canceled s
  end.

Lemma with_init_confined {A} c (m : op A) canceled s k :
  (c_initErr c = None → (m canceled s).2 !! k = s !! k) → (with_init c m canceled s).2 !! k = s !! k.
Proof. unfold with_init. destruct (c_initErr c); auto. Qed.

Lemma run_op_confined c o canceled s k :
  in_scope (c_scope c) k = false → (run_op c o canceled s).2 !! k = s !! k.
Proof.
  intros Hk. destruct o; simpl; apply with_init_confined; intros _;
    try (destruct (_ || _); [done|]); try (destruct (String.eqb _ _); [done|]);
    apply Update_confined; try done; confine.
Qed.

Lemma forget_err {A} (r : res err A * store) x : (forget r).1 = Err x → r.1 = Err x.
Proof. destruct r as [[a|y] s]; simpl; congruence. Qed.

Lemma with_init_atomic {A} c (m : op A) canceled s x :
  ((m canceled s).1 = Err x → (m canceled s).2 = s) →
  (with_init c m canceled s).1 = Err x → (with_init c m canceled s).2 = s.
Proof. unfold with_init. destruct (c_initErr c); auto. Qed.

Lemma run_op_atomic c o canceled s x : (run_op c o canceled s).1 = Err x → (run_op c o canceled s).2 = s.
Proof.
  destruct o; simpl; try (intros H%forget_err; revert H); apply with_init_atomic;
    try (destruct (_ || _); [done|]); try (destruct (String.eqb _ _); [done|]); apply Update_error.
Qed.
