(* ===== verification/TaskRepos.v ===== *)
(** * Task repositories (bsw/cdd/taskhub)

    [forward_repository.go], [local_repository.go], [local_update.go],
    [aria2_repository.go], [aria2_control.go], [aria2_observation.go],
    [link_repository.go], [link_activity.go], [download_state.go],
    [cleanup.go], [cleanup_repository.go] and [maintenance.go], over the
    collections of Taskhub.v.  [now] is what [time.Now] returns to the
    operation; a mutation callback that returns [false] is [None]. *)

From stdpp Require Import sorting.
From S2P Require Import Prelude Strings Storage TaskTypes Taskhub.

(** ** Forward jobs *)

(** A repository built over a nil storage has no collection. *)
Definition ForwardRepository := option Collection.
Definition NewForwardRepository (kv : bool) : ForwardRepository := if kv then Some Forward else None.

Definition j_with (j : ForwardJob) (id : string) (updated : Z) : ForwardJob :=
  mkJob id (j_Source j) (j_SourceLink j) (j_SourcePeerID j) (j_SourcePeerKind j) (j_RuleID j)
    (j_SourceMessageID j) (j_OriginName j) (j_Destination j) (j_DestinationName j) (j_Mode j)
    (j_Silent j) (j_Status j) (j_Total j) (j_Done j) (j_CloneDone j) (j_CloneTotal j) (j_Attempts j)
    (j_Error j) (j_CreatedAt j) updated (j_StartedAt j) (j_FinishedAt j) (j_NextAttemptAt j).

Definition decodeForwardJob (id : string) (data : value) : res err ForwardJob :=
  job ← unmarshal data;
  if negb (String.eqb (j_ID job) id) || String.eqb (j_Status job) ""
  then Err (ErrMsg "invalid forward job identity or status")
  else Ok job.

(** The result is the job the callback produced, if it changed it. *)
Definition FUpdate (r : ForwardRepository) (now : Z) (id : string)
    (change : ForwardJob → option ForwardJob) : op (option ForwardJob) := λ canceled s,
  match r with
  | None => (Err (ErrMsg "forward job storage is not configured"), s)
  | Some c =>
      with_init c (Update (scoped (c_scope c) (
        o ← try_get (tx_get (key c id));
        match o with
        | None => mret None
        | Some data =>
            job ← lift (decodeForwardJob id data);
            match change job with
            | None => mret None
            | Some job' =>
                _ ← tx_set (key c id) (marshal (j_with job' id now));
                mret (Some job')
            end
        end))) canceled s
  end.

Definition j_defaults (j : ForwardJob) (now : Z) : ForwardJob :=
  mkJob (j_ID j) (j_Source j) (j_SourceLink j) (j_SourcePeerID j) (j_SourcePeerKind j) (j_RuleID j)
    (j_SourceMessageID j) (j_OriginName j) (j_Destination j) (j_DestinationName j) (j_Mode j)
    (j_Silent j) (if String.eqb (j_Status j) "" then StatusQueued else j_Status j)
    (j_Total j) (j_Done j) (j_CloneDone j) (j_CloneTotal j) (j_Attempts j) (j_Error j)
    (if j_CreatedAt j =? 0 then now else j_CreatedAt j) now
    (j_StartedAt j) (j_FinishedAt j) (j_NextAttemptAt j).

Definition FSave (r : ForwardRepository) (now : Z) (job : ForwardJob) : op unit := λ canceled s,
  match r with
  | None => (Err (ErrMsg "forward job storage is not configured"), s)
  | Some c =>
      if String.eqb (TrimSpace (j_ID job)) "" then (Err (ErrMsg "forward job id is empty"), s)
      else
        let job := j_defaults job now in
        Put c (j_ID job) (marshal job) (j_CreatedAt job) canceled s
  end.

Definition FGet (r : ForwardRepository) (id : string) : op (option ForwardJob) := λ canceled s,
  match r with
  | None => (Ok None, s)
  | Some c =>
      if String.eqb id "" then (Ok None, s)
      else match CGet c id canceled s with
           | (Err ErrNotFound, s) => (Ok None, s)
           | (Err x, s) => (Err x, s)
           | (Ok data, s) =>
               (match decodeForwardJob id data with Ok job => Ok (Some job) | Err x => Err x end, s)
           end
  end.

(** Oldest first, ties by ID. *)
Definition job_le (a b : ForwardJob) : Prop :=
  j_CreatedAt a < j_CreatedAt b ∨
  (j_CreatedAt a = j_CreatedAt b ∧ str_leb (j_ID a) (j_ID b) = true).
#[export] Instance job_le_dec : RelDecision job_le.
Proof. intros a b. unfold job_le. apply _. Defined.
#[export] Instance job_le_total : Total job_le.
Proof.
  intros a b. unfold job_le. destruct (Z.lt_trichotomy (j_CreatedAt a) (j_CreatedAt b)) as [?|[?|?]]; [auto| |auto].
  destruct (str_leb_total (j_ID a) (j_ID b)); auto.
Qed.
#[export] Instance job_le_trans : Transitive job_le.
Proof.
  intros a b c. unfold job_le. intros [?|[? ?]] [?|[? ?]]; [left; lia..|right].
  split; [lia|]. by eapply str_leb_trans.
Qed.

(** Decode every record, stopping at the first error. *)
Fixpoint decode_all {A} (dec : string → value → res err A) (l : list (string * value)) : res err (list A) :=
  match l with
  | [] => Ok []
  | (id, data) :: l => a ← dec id data; rest ← decode_all dec l; Ok (a :: rest)
  end.

Definition FRecords (r : ForwardRepository) : op (list ForwardJob) := λ canceled s,
  match r with
  | None => (Ok [], s)
  | Some c =>
      match Records c canceled s with
      | (Err x, s) => (Err x, s)
      | (Ok records, s) =>
          (match decode_all decodeForwardJob (map_to_list records) with
           | Ok jobs => Ok (merge_sort job_le jobs)
           | Err x => Err x
           end, s)
      end
  end.

Definition FRemove (r : ForwardRepository) (id : string) : op unit := λ canceled s,
  match r with
  | None => (Ok tt, s)
  | Some c => if String.eqb id "" then (Ok tt, s) else Remove c id canceled s
  end.

(** ** Local downloads *)

Definition valid_local (id : string) (r : LocalRecord) : bool :=
  String.eqb (l_ID r) id && negb (String.eqb (l_TaskID r) "") && negb (l_Revision r =? 0)
  && negb (String.eqb (NormalizeDownloadState (l_Status r)) DownloadUnknown)
  && String.eqb (l_Status r) (l_State r).
Definition decodeLocalRecord (id : string) (data : value) : res err LocalRecord :=
  r ← unmarshal data;
  if valid_local id r then Ok r else Err (ErrMsg "invalid local download record identity or state").

Definition l_set (r : LocalRecord) (state : string) (revision : Z) (id taskID status : string)
    (created updated : Z) : LocalRecord :=
  mkLocal state revision id taskID (l_FileName r) (l_Dir r) (l_Out r) (l_Path r) (l_Total r)
    (l_Completed r) status (l_Error r) (l_DownloadSpeed r) (l_StartedAt r) created updated.

(** The defaults [Save] and [create] fill in. *)
Definition l_defaults (r : LocalRecord) (now : Z) (revision : Z) : LocalRecord :=
  let status := if String.eqb (l_Status r) "" then DownloadQueued else l_Status r in
  l_set r (NormalizeDownloadState status) revision (l_ID r)
    (if String.eqb (l_TaskID r) "" then l_ID r else l_TaskID r) status
    (if l_CreatedAt r =? 0 then now else l_CreatedAt r) now.

(** [kv] tells whether the repository has a storage. *)
Definition LSave (kv : bool) (now : Z) (r : LocalRecord) : op unit := λ canceled s,
  if negb kv then (Ok tt, s)
  else if String.eqb (TrimSpace (l_ID r)) "" then (Err (ErrMsg "local download id is empty"), s)
  else
    let r := l_defaults r now (if l_Revision r =? 0 then 1 else l_Revision r) in
    Put Local (l_ID r) (marshal r) (l_CreatedAt r) canceled s.

Definition LGet (kv : bool) (id : string) : op (option LocalRecord) := λ canceled s,
  if negb kv || String.eqb id "" then (Ok None, s)
  else match CGet Local id canceled s with
       | (Err ErrNotFound, s) => (Ok None, s)
       | (Err x, s) => (Err x, s)
       | (Ok data, s) =>
           (match decodeLocalRecord id data with Ok r => Ok (Some r) | Err x => Err x end, s)
       end.

Definition LRecords (kv : bool) : op (gmap string LocalRecord) := λ canceled s,
  if negb kv then (Ok ∅, s)
  else match Records Local canceled s with
       | (Err x, s) => (Err x, s)
       | (Ok records, s) =>
           (match decode_all (λ id data, r ← decodeLocalRecord id data; Ok (id, r)) (map_to_list records) with
            | Ok l => Ok (list_to_map l)
            | Err x => Err x
            end, s)
       end.

Definition LRemove (kv : bool) (id : string) : op unit := λ canceled s,
  if negb kv || String.eqb id "" then (Ok tt, s) else Remove Local id canceled s.

(** The callback of [Update]; the flag is its [changed]. *)
Definition local_change (now : Z) (id : string) (change : LocalRecord → option LocalRecord)
    (data : value) (stamp : Z) : res err (bool * (option value * Z)) :=
  record ← decodeLocalRecord id data;
  match change record with
  | None => Ok (false, (Some data, stamp))
  | Some r' =>
      let state := NormalizeDownloadState (l_Status r') in
      if negb (DownloadTransition (l_State record) state)
      then Err (ErrMsg "invalid download state transition")
      else Ok (true, (Some (marshal (l_set r' state (u64_succ (l_Revision record)) id (l_TaskID r')
                                       (l_Status r') (l_CreatedAt r') now)), stamp))
  end.

(** [errors.Is(err, storage.ErrNotFound)] answered by a default. *)
Definition or_missing {A} (a : A) (m : op A) : op A := λ canceled s,
  match m canceled s with (Err ErrNotFound, s') => (Ok a, s') | r => r end.

Definition LUpdate (kv : bool) (now : Z) (id : string) (change : LocalRecord → option LocalRecord)
    : op bool := λ canceled s,
  if negb kv then (Err (ErrMsg "local task storage is unavailable"), s)
  else or_missing false (Mutate Local id (local_change now id change)) canceled s.

Definition LMarkDownloaded (kv : bool) (id : string) : op unit := λ canceled s,
  if negb kv then (Err (ErrMsg "local task storage is unavailable"), s)
  else MarkDownloaded Links id canceled s.

(** ** Link activity and identity *)

Definition LinkActivity (data : value) : res err Z :=
  m ← as_object data;
  match as_time (m !! "last_active_at") with
  | None => Err (ErrMsg "json: cannot unmarshal")
  | Some t => if t =? 0 then Err (ErrMsg "download link last_active_at is required") else Ok t
  end.

(** The text [linkVersion] hashes: the record without its progress fields. *)
Definition link_identity (data : value) : value :=
  match data with
  | VJson (JObj raw) =>
      VJson (JObj (delete "http_delivery" (delete "downloaded" (delete "last_active_at" raw))))
  | _ => data
  end.

Record ObservedLink := mkObserved { ol_Task : PersistentLink; ol_Version : string }.

Section repositories.
(** SHA-256 of a text, in hexadecimal. *)
Context (sha256_hex : value → string).

Definition linkVersion (data : value) : string := sha256_hex (link_identity data).

(** ** Creating local downloads *)

Definition create (kv : bool) (now : Z) (record : LocalRecord) (source : option ObservedLink)
    : op LocalRecord := λ canceled s,
  if negb kv || String.eqb (l_ID record) ""
  then (Err (ErrMsg "local task storage and id are required"), s)
  else with_init Local (Update (
    _ ← match source with
        | None => mret tt
        | Some src =>
            o ← try_get (tx_get (LinkPrefix +:+ p_ID (ol_Task src)));
            match o with
            | None => mthrow (ErrMsg "download source was deleted before submission")
            | Some data =>
                if String.eqb (linkVersion data) (ol_Version src) then mret tt
                else mthrow (ErrMsg "download source changed before submission")
            end
        end;
    scoped (c_scope Local) (
      o ← try_get (tx_get (key Local (l_ID record)));
      match o with
      | Some data => lift (decodeLocalRecord (l_ID record) data)
      | None =>
          idx ← index Local;
          let r := l_defaults record now 1 in
          _ ← tx_set (key Local (l_ID record)) (marshal r);
          _ ← saveIndex Local (<[l_ID record := l_CreatedAt r]> idx);
          mret r
      end))) canceled s.

Definition Create (kv : bool) (now : Z) (record : LocalRecord) : op LocalRecord :=
  create kv now record None.
Definition CreateLinked (kv : bool) (now : Z) (source : ObservedLink) (record : LocalRecord)
    : op LocalRecord := λ canceled s,
  if String.eqb (p_ID (ol_Task source)) "" || negb (String.eqb (p_ID (ol_Task source)) (l_TaskID record))
     || String.eqb (ol_Version source) ""
  then (Err (ErrMsg "local source identity is required"), s)
  else create kv now record (Some source) canceled s.

(** ** aria2 records *)

Definition isAria2TaskExpired (createdAt now ttl : Z) : bool :=
  (0 <? ttl) && negb (createdAt =? 0) && (ttl <? time_sub now createdAt).

Definition aria2_expired (now ttl : Z) (data : value) (stamp : Z) : res err bool :=
  record ← (unmarshal data : res err Aria2Record);
  if now <? a_ControlUntil record then Ok false
  else Ok (isAria2TaskExpired stamp now ttl).

Definition cleanup (now ttl : Z) : op unit := λ canceled s,
  if ttl <=? 0 then (Ok tt, s) else Sweep Aria2 (aria2_expired now ttl) canceled s.

Definition a_created (r : Aria2Record) (created : Z) : Aria2Record :=
  mkAria2 (a_PauseOwner r) (a_Deleted r) (a_ControlUntil r) (a_State r) (a_Revision r) (a_GID r)
    (a_TaskID r) (a_DownloadURL r) (a_Dir r) (a_Out r) created (a_Status r) (a_Total r)
    (a_Completed r) (a_Error r).

(** Two operations of one repository call. *)
Definition op_bind {A B} (m : op A) (k : A → op B) : op B := λ canceled s,
  match m canceled s with (Ok a, s) => k a canceled s | (Err x, s) => (Err x, s) end.

Definition Add (kv : bool) (now ttl : Z) (record : Aria2Record) : op unit := λ canceled s,
  if negb kv then (Ok tt, s)
  else if String.eqb (a_GID record) "" then (Err (ErrMsg "aria2 gid is empty"), s)
  else
    let record := if a_CreatedAt record =? 0 then a_created record now else record in
    op_bind (cleanup now ttl) (λ _, Merge Aria2 (a_GID record) (marshal record) (a_CreatedAt record))
      canceled s.

Definition ARecords (kv : bool) (now ttl : Z) : op (gmap string Aria2Record) := λ canceled s,
  if negb kv then (Ok ∅, s)
  else op_bind (cleanup now ttl) (λ _ canceled s,
    match Records Aria2 canceled s with
    | (Err x, s) => (Err x, s)
    | (Ok records, s) =>
        (match decode_all (λ gid data, DecodeAria2Record data gid) (map_to_list records) with
         | Ok l => Ok (list_to_map ((λ r, (a_GID r, r)) <$> filter (λ r, a_Deleted r = false) l))
         | Err x => Err x
         end, s)
    end) canceled s.

Definition ARemove (kv : bool) (gid : string) : op unit := λ canceled s,
  if negb kv || String.eqb gid "" then (Ok tt, s) else Remove Aria2 gid canceled s.

(** The fields a remote observation may write. *)
Definition put_observation (o : Aria2Record) (revision : Z) (raw : gmap string json) : gmap string json :=
  <[fieldStatus := JStr (a_Status o)]> (<[fieldState := JStr (NormalizeDownloadState (a_Status o))]>
  (<[fieldTotal := JNum (a_Total o)]> (<[fieldCompleted := JNum (a_Completed o)]>
  (<[fieldError := JStr (a_Error o)]> (<[fieldRevision := JNum (u64_succ revision)]> raw))))).

(** Whether an observation started at [revision] may still be applied. *)
Definition observation_fresh (current o : Aria2Record) (revision now : Z) : bool :=
  negb (a_Deleted current) && String.eqb (a_TaskID current) (a_TaskID o)
  && (a_Revision current =? revision) && negb (now <? a_ControlUntil current)
  && DownloadTransition (NormalizeDownloadState (a_Status current)) (NormalizeDownloadState (a_Status o)).

(** The callback of [Report]; the flag says whether it changes the record. *)
Definition report_step (o : Aria2Record) (revision now : Z) (data : value) (stamp : Z)
    : res err (bool * (option value * Z)) :=
  current ← DecodeAria2Record data (a_GID o);
  if negb (observation_fresh current o revision now) then Ok (false, (Some data, stamp))
  else
    raw ← as_object data;
    Ok (true, (Some (VJson (JObj (put_observation o revision raw))),
               if String.eqb (NormalizeDownloadState (a_Status o)) DownloadComplete then stamp else now)).

Definition Report (o : Aria2Record) (revision now : Z) : op bool :=
  Mutate Aria2 (a_GID o) (report_step o revision now).

(** ** aria2 control leases (aria2_control.go) *)

Definition a_lease (r : Aria2Record) (revision until : Z) : Aria2Record :=
  mkAria2 (a_PauseOwner r) (a_Deleted r) until (a_State r) revision (a_GID r) (a_TaskID r)
    (a_DownloadURL r) (a_Dir r) (a_Out r) (a_CreatedAt r) (a_Status r) (a_Total r) (a_Completed r) (a_Error r).

Definition reserve_step (expected : Aria2Record) (until now : Z) (data : value) (stamp : Z)
    : res err ((Aria2Record * bool) * (option value * Z)) :=
  current ← DecodeAria2Record data (a_GID expected);
  if a_Deleted current || negb (a_Revision current =? a_Revision expected)
     || negb (String.eqb (a_TaskID current) (a_TaskID expected)) || (now <? a_ControlUntil current)
  then Ok ((current, false), (Some data, stamp))
  else
    let lease := a_lease current (u64_succ (a_Revision current)) until in
    raw ← as_object data;
    Ok ((lease, true),
        (Some (VJson (JObj (<[fieldControlUntil := JTime until]>
                             (<[fieldRevision := JNum (a_Revision lease)]> raw)))), now)).

Definition empty_aria2 : Aria2Record := mkAria2 "" false 0 "" 0 "" "" "" "" "" 0 "" 0 0 "".

Definition ReserveControl (expected : Aria2Record) (until now : Z) : op (Aria2Record * bool) := λ canceled s,
  if negb (now <? until) then (Err (ErrMsg "control deadline has expired"), s)
  else or_missing (empty_aria2, false) (Mutate Aria2 (a_GID expected) (reserve_step expected until now)) canceled s.

(** The raw fields [FinishControl] writes before the revision. *)
Definition finish_fields (current lease : Aria2Record) (status : string) (remove : bool)
    (raw : gmap string json) : gmap string json :=
  let raw := delete fieldControlUntil raw in
  let raw := if remove then <["deleted" := JBool true]> raw else raw in
  let status := if remove then DownloadRemoved else status in
  if negb (String.eqb status "")
     && DownloadTransition (NormalizeDownloadState (a_Status current)) (NormalizeDownloadState status)
  then
    let raw := <[fieldState := JStr (NormalizeDownloadState status)]> (<[fieldStatus := JStr status]> raw) in
    let raw := delete "pause_owner" raw in
    if String.eqb status DownloadPaused && negb (String.eqb (a_PauseOwner lease) "")
    then <["pause_owner" := JStr (a_PauseOwner lease)]> raw else raw
  else raw.

Definition finish_step (lease : Aria2Record) (status : string) (remove : bool) (now : Z)
    (data : value) (stamp : Z) : res err (bool * (option value * Z)) :=
  current ← DecodeAria2Record data (a_GID lease);
  if negb (a_Revision current =? a_Revision lease) || negb (String.eqb (a_TaskID current) (a_TaskID lease))
  then Ok (false, (Some data, stamp))
  else
    raw ← as_object data;
    Ok (true, (Some (VJson (JObj (<[fieldRevision := JNum (u64_succ (a_Revision current))]>
                                    (finish_fields current lease status remove raw)))), now)).

Definition FinishControl (lease : Aria2Record) (status : string) (remove : bool) (now : Z) : op bool :=
  or_missing false (Mutate Aria2 (a_GID lease) (finish_step lease status remove now)).

(** ** Links (link_repository.go) *)

(** Records of both collections, unscoped, in one transaction. *)
Definition snapshot_step (c : Collection) (acc : gmap string value) (x : string * Z) : tx (gmap string value) :=
  o ← try_get (tx_get (key c (fst x)));
  mret (match o with None => acc | Some data => <[key c (fst x) := data]> acc end).
Definition snapshot_collection (acc : gmap string value) (c : Collection) : tx (gmap string value) :=
  idx ← index c; tx_iter (snapshot_step c) acc (map_to_list idx).
Definition LinkSnapshot : op (gmap string value) :=
  Update (tx_iter snapshot_collection ∅ [Links; Aria2]).

Definition remove_step (id : string) (acc : gmap string Z * Z) (x : string * Z) : tx (gmap string Z * Z) :=
  let '(idx, removed) := acc in
  let gid := fst x in
  o ← try_get (tx_get (Aria2Prefix +:+ gid));
  match o with
  | None => mret (idx, removed)
  | Some data =>
      m ← lift (as_object data);
      match as_str (m !! "task_id") with
      | None => mthrow (ErrMsg "json: cannot unmarshal")
      | Some taskID =>
          if String.eqb taskID id
          then _ ← tx_delete (Aria2Prefix +:+ gid); mret (delete gid idx, removed + 1)
          else mret (idx, removed)
      end
  end.

Definition LinkRemove (id : string) : op Z := λ canceled s,
  if String.eqb id "" || String.eqb id "index" || ContainsAny id "/\"
  then (Err (ErrMsg "invalid download link id"), s)
  else Update (
    linkIndex ← index Links;
    ariaIndex ← index Aria2;
    '(ariaIndex, removed) ← tx_iter (remove_step id) (ariaIndex, 0) (map_to_list ariaIndex);
    o ← try_get (tx_get (LinkPrefix +:+ id));
    removed ← match o with
              | Some _ => _ ← tx_delete (LinkPrefix +:+ id); mret (removed + 1)
              | None => mret removed
              end;
    _ ← saveIndex Links (delete id linkIndex);
    _ ← saveIndex Aria2 ariaIndex;
    mret removed) canceled s.

(** ** Applying an aria2 observation (aria2_observation.go) *)

(** The raw fields the record is rebuilt from; [None] when the observation is stale. *)
Definition observed_base (observed : Aria2Record) (data : option value) (create : bool) (now : Z)
    : res err (option (gmap string json)) :=
  match data with
  | Some data =>
      if create then Ok None
      else
        current ← DecodeAria2Record data (a_GID observed);
        if observation_fresh current observed (a_Revision observed) now
        then raw ← as_object data; Ok (Some raw) else Ok None
  | None => if create then Ok (Some (encode observed)) else Ok None
  end.

Definition observation_complete (o : Aria2Record) : bool :=
  String.eqb (a_Status o) "complete" && ((a_Total o =? 0) || (a_Total o <=? a_Completed o)).

(** The link's record and stamp after the observation. *)
Definition observed_link (complete : bool) (now ttl : Z) (linkData : value) : res err (value * Z) :=
  link ← as_object linkData;
  link ← (if complete then Ok (<["downloaded" := JBool true]> link)
          else if 0 <? ttl then
            last ← LinkActivity linkData;
            Ok (if last <? now then <["last_active_at" := JTime now]> link else link)
          else Ok link);
  let linkData := VJson (JObj link) in
  stamp ← LinkActivity linkData;
  Ok (linkData, if negb complete && (0 <? ttl) then now else stamp).

Definition later (a b : Z) : Z := if b <? a then a else b.

Definition apply_body (source : ObservedLink) (observed0 : Aria2Record) (create : bool) (now ttl : Z) : tx bool :=
  let sid := p_ID (ol_Task source) in
  linked ← (if String.eqb sid "" then mret (if create then None else Some None)
            else if negb (String.eqb sid (a_TaskID observed0)) then mthrow (ErrMsg "link association mismatch")
            else
              o ← try_get (tx_get (LinkPrefix +:+ sid));
              mret (match o with
                    | None => None
                    | Some data => if String.eqb (linkVersion data) (ol_Version source) then Some (Some data) else None
                    end));
  match linked with
  | None => mret false
  | Some linkData =>
      data ← try_get (tx_get (Aria2Prefix +:+ a_GID observed0));
      let observed := if create && (a_CreatedAt observed0 =? 0) then a_created observed0 now else observed0 in
      base ← lift (observed_base observed data create now);
      match base with
      | None => mret false
      | Some raw =>
          _ ← tx_set (Aria2Prefix +:+ a_GID observed)
                (VJson (JObj (put_observation observed (a_Revision observed) raw)));
          idx ← index Aria2;
          let complete := observation_complete observed in
          let stamp := if complete then a_CreatedAt observed else now in
          _ ← saveIndex Aria2 (<[a_GID observed := later (default 0 (idx !! a_GID observed)) stamp]> idx);
          _ ← match linkData with
              | None => mret tt
              | Some linkData =>
                  '(linkData, linkStamp) ← lift (observed_link complete now ttl linkData);
                  _ ← tx_set (LinkPrefix +:+ sid) linkData;
                  linkIndex ← index Links;
                  saveIndex Links (<[sid := later (default 0 (linkIndex !! sid)) linkStamp]> linkIndex)
              end;
          mret true
      end
  end.

Definition Apply (source : ObservedLink) (observed : Aria2Record) (create : bool) (now ttl : Z) : op bool :=
  λ canceled s,
  if String.eqb (a_GID observed) "" || String.eqb (a_GID observed) "index" || ContainsAny (a_GID observed) "/\"
  then (Err (ErrMsg "invalid aria2 gid"), s)
  else Update (apply_body source observed create now ttl) canceled s.
End repositories.

(** ** Retention (cleanup.go) *)

(** [time.Add] and the comparisons are on instants. *)
Definition expired (stamp now ttl : Z) : bool :=
  (0 <? ttl) && negb (stamp =? 0) && negb (now <? stamp + ttl).

Definition clean_link_step (now ttl : Z) (idx : gmap string Z) (x : string * Z) : tx (gmap string Z) :=
  let '(id, stamp) := x in
  o ← try_get (tx_get (LinkPrefix +:+ id));
  stamp ← match o with Some data => lift (LinkActivity data) | None => mret stamp end;
  if bool_decide (is_Some o) && negb (expired stamp now ttl) then mret idx
  else _ ← tx_delete (LinkPrefix +:+ id); mret (delete id idx).

Definition clean_aria2_step (now ttl : Z) (idx : gmap string Z) (x : string * Z) : tx (gmap string Z) :=
  let '(id, stamp) := x in
  o ← try_get (tx_get (Aria2Prefix +:+ id));
  remove ← match o with
           | None => mret true
           | Some data =>
               m ← lift (as_object data);
               match as_str (m !! "task_id"), as_bool (m !! "deleted"), as_time (m !! "control_until") with
               | Some taskID, Some deleted, Some until =>
                   if now <? until then mret false
                   else if negb (expired stamp now ttl) && negb (String.eqb taskID "") && negb deleted
                   then l ← try_get (tx_get (LinkPrefix +:+ taskID)); mret (bool_decide (l = None))
                   else mret (expired stamp now ttl)
               | _, _, _ => mthrow (ErrMsg "json: cannot unmarshal")
               end
           end;
  if (remove : bool) then _ ← tx_delete (Aria2Prefix +:+ id); mret (delete id idx) else mret idx.

Definition CleanupLinksAndAria2 (now ttl : Z) : op unit :=
  Update (
    linkIndex ← index Links;
    ariaIndex ← index Aria2;
    linkIndex ← tx_iter (clean_link_step now ttl) linkIndex (map_to_list linkIndex);
    ariaIndex ← tx_iter (clean_aria2_step now ttl) ariaIndex (map_to_list ariaIndex);
    _ ← saveIndex Links linkIndex;
    saveIndex Aria2 ariaIndex).

(** ** Maintenance (cleanup_repository.go, maintenance.go) *)

Definition protectedCleanupKey (k : string) : bool :=
  bool_decide (k ∈ ["session"; "app"; "account.credentials.fingerprint"])
  || existsb (HasPrefix k) ["peers:"; "state:"; "chan:"; "access_hash:"].

(** The first collection that owns [k] decides: its index key is refused, and
    a record's entry leaves the index. *)
Fixpoint drop_from_index (k : string) (cs : list Collection) : tx bool :=
  match cs with
  | [] => mret true
  | c :: cs =>
      if String.eqb k (c_indexKey c) then mret false
      else if HasPrefix k (c_prefix c) then
        idx ← index c;
        _ ← saveIndex c (delete (TrimPrefix k (c_prefix c)) idx);
        mret true
      else drop_from_index k cs
  end.

(** [same] is [bytes.Equal] with the snapshot's value. *)
Definition DeleteSnapshotKey (same : value → bool) (k : string) : op bool :=
  Update (
    o ← try_get (tx_get k);
    match o with
    | None => mret false
    | Some current =>
        if negb (same current) then mret false
        else
          ok ← drop_from_index k [Links; Aria2; Local; Forward];
          if (ok : bool) then _ ← tx_delete k; mret true else mret false
    end).

Definition DeleteUnchanged (configured : bool) (k : string) (same : value → bool) : op bool := λ canceled s,
  if protectedCleanupKey k
  then (Err (ErrMsg "protected account data cannot be removed by maintenance"), s)
  else if negb configured then (Err (ErrMsg "namespace storage is not configured"), s)
  else DeleteSnapshotKey same k canceled s.

