(* ===== verification/JobRepo.v ===== *)
(** * The forward-job repository: interface and implementation

    What [ports.ForwardRepository] promises the queue (the class [JobRepo]),
    and the proof that [ForwardRepository] of forward_repository.go keeps the
    promise on top of the indexed collection. *)

From stdpp Require Import sorting.
From S2P Require Import Prelude Strings Storage TaskTypes Taskhub CollectionSpec TaskRepos.

(** A job that survives its JSON encoding. *)
Definition storable (j : ForwardJob) : Prop := wf_job j = true ∧ j_Status j ≠ "".

(** A repository represents a finite map of jobs.  [save] and [update] stamp
    the job; a canceled context refuses everything and changes nothing. *)
Class JobRepo (St : Type) := {
  r_save : Z → ForwardJob → bool → St → res err unit * St;
  r_update : Z → string → (ForwardJob → option ForwardJob) → bool → St → res err (option ForwardJob) * St;
  r_get : string → bool → St → res err (option ForwardJob) * St;
  r_records : bool → St → res err (list ForwardJob) * St;
  r_remove : string → bool → St → res err unit * St;

  represents : St → gmap string ForwardJob → Prop;
  rep_ids : ∀ s m id j, represents s m → m !! id = Some j → j_ID j = id ∧ id ≠ "" ∧ storable j;

  save_law : ∀ now j s m, represents s m → TrimSpace (j_ID j) ≠ "" → wf_job j = true →
    ∃ s', r_save now j false s = (Ok tt, s') ∧ represents s' (<[j_ID j := j_defaults j now]> m);
  update_none : ∀ now id f s m, represents s m →
    m !! id ≫= f = None → r_update now id f false s = (Ok None, s);
  update_some : ∀ now id f s m j j', represents s m → m !! id = Some j → f j = Some j' → storable j' →
    ∃ s', r_update now id f false s = (Ok (Some j'), s') ∧ represents s' (<[id := j_with j' id now]> m);
  get_law : ∀ id s m, represents s m → r_get id false s = (Ok (m !! id), s);
  records_law : ∀ s m, represents s m → ∃ l s', r_records false s = (Ok l, s') ∧ represents s' m ∧
    StronglySorted job_le l ∧ l ≡ₚ (map_to_list m).*2;
  remove_law : ∀ id s m, represents s m → id ≠ "" →
    ∃ s', r_remove id false s = (Ok tt, s') ∧ represents s' (delete id m);
  canceled_law : ∀ s,
    (∀ now id f, r_update now id f true s = (Err ErrCanceled, s)) ∧
    (∀ id, id ≠ "" → r_get id true s = (Err ErrCanceled, s)) ∧
    r_records true s = (Err ErrCanceled, s) ∧
    (∀ id, id ≠ "" → r_remove id true s = (Err ErrCanceled, s));
}.

(** ** The implementation *)

Record Rep (s : store) (m : gmap string ForwardJob) : Prop := {
  rep_index : ∃ idx, index_of Forward s = Ok idx ∧ ∀ id, is_Some (idx !! id) ↔ is_Some (m !! id);
  rep_records : ∀ id, s !! key Forward id = marshal <$> m !! id;
  rep_jobs : ∀ id j, m !! id = Some j → j_ID j = id ∧ id ≠ "" ∧ storable j;
}.

Abbreviation repo := (Some Forward).

Lemma key_neq id1 id2 : id1 ≠ id2 → key Forward id1 ≠ key Forward id2.
Proof. intros Hne ?%key_inj. done. Qed.

Lemma decode_stored id j : j_ID j = id → storable j → decodeForwardJob id (marshal j) = Ok j.
Proof.
  intros Hid [Hw Hs]. unfold decodeForwardJob. rewrite unmarshal_marshal by done. cbn.
  rewrite Hid, String.eqb_refl. by destruct (String.eqb_spec (j_Status j) "").
Qed.

Lemma is_Some_insert {A} (m : gmap string A) i j x : is_Some (<[i := x]> m !! j) ↔ j = i ∨ is_Some (m !! j).
Proof.
  destruct (decide (j = i)) as [->|Hne]; [rewrite lookup_insert_eq|rewrite lookup_insert_ne by done].
  - split; [auto|eauto].
  - split; [auto|]. by intros [?|?].
Qed.

Lemma is_Some_same {A B} (a : option A) (b : option B) :
  (is_Some a ↔ is_Some b) →
  match a, b with Some _, Some _ | None, None => True | _, _ => False end.
Proof.
  destruct a, b; intros [H1 H2]; try done.
  - by destruct (H1 (ex_intro _ _ eq_refl)).
  - by destruct (H2 (ex_intro _ _ eq_refl)).
Qed.

(** Writing one record and, possibly, its index entry. *)
Lemma Rep_write s m id j idx :
  Rep s m → j_ID j = id → id ≠ "" → storable j →
  (∀ x, is_Some (idx !! x) ↔ x = id ∨ is_Some (m !! x)) → 
  ∀ s', s' !! key Forward id = Some (marshal j) → (∀ x, x ≠ id → s' !! key Forward x = s !! key Forward x) →
  index_of Forward s' = Ok idx → Rep s' (<[id := j]> m).
Proof.
  intros [_ Hr Hj] Hid Hne Hst Hidx s' H1 H2 Hi. split.
  - exists idx. split; [done|]. intros x. by rewrite Hidx, is_Some_insert.
  - intros x. destruct (decide (x = id)) as [->|Hx]; [by rewrite lookup_insert_eq|].
    by rewrite lookup_insert_ne, H2, Hr.
  - intros x y [[<- <-]|[_ Hy]]%lookup_insert_Some; [done|by apply Hj].
Qed.

Lemma impl_save now j s m :
  Rep s m → TrimSpace (j_ID j) ≠ "" → wf_job j = true →
  ∃ s', FSave repo now j false s = (Ok tt, s') ∧ Rep s' (<[j_ID j := j_defaults j now]> m).
Proof.
  intros HR Ht Hw. pose proof HR as [(idx & Hi & Hd) _ _].
  assert (Hid : j_ID j ≠ "") by (intros He; by rewrite He in Ht).
  unfold FSave. rewrite (proj2 (String.eqb_neq _ _)) by done.
  rewrite (Put_ok Forward Forward_wf _ _ _ s idx) by done. eexists. split; [done|].
  eapply (Rep_write s m _ _ (<[j_ID j := j_CreatedAt (j_defaults j now)]> idx)); try done.
  - split; [done|]. simpl. by destruct (String.eqb_spec (j_Status j) "").
  - intros x. by rewrite is_Some_insert, Hd.
  - rewrite lookup_insert_ne by apply not_eq_sym, forward_no_clash. apply lookup_insert_eq.
  - intros x Hx. rewrite lookup_insert_ne by apply not_eq_sym, forward_no_clash.
    rewrite lookup_insert_ne; [done|]. by apply key_neq.
  - apply index_of_save.
Qed.

(** The transaction of [Update]. *)
Lemma FUpdate_run now id f s :
  FUpdate repo now id f false s =
  match s !! key Forward id with
  | None => (Ok None, s)
  | Some data =>
      match decodeForwardJob id data with
      | Err x => (Err x, s)
      | Ok job => match f job with
                  | None => (Ok None, s)
                  | Some j' => (Ok (Some j'), <[key Forward id := marshal (j_with j' id now)]> s)
                  end
      end
  end.
Proof.
  unfold FUpdate, with_init. rewrite (cw_init _ Forward_wf), Update_live.
  rewrite (bind_ok _ _ _ _ _ _ (run_try_get _ _ (cw_key _ Forward_wf id) s)).
  destruct (s !! key Forward id) as [data|]; [|done].
  unfold mbind at 1, tx_bind, lift. destruct (decodeForwardJob id data) as [job|]; [|done].
  destruct (f job) as [j'|]; [|done].
  by rewrite (bind_ok _ _ _ _ _ _ (run_set _ _ (cw_key _ Forward_wf id) _ _)).
Qed.

Lemma impl_update_none now id f s m :
  Rep s m → m !! id ≫= f = None → FUpdate repo now id f false s = (Ok None, s).
Proof.
  intros [_ Hr Hj] Hn. rewrite FUpdate_run, Hr. destruct (m !! id) as [j|] eqn:Hm; [|done]. simpl in *.
  destruct (Hj _ _ Hm) as (? & _ & ?). rewrite decode_stored by done. by rewrite Hn.
Qed.

Lemma impl_update_some now id f s m j j' :
  Rep s m → m !! id = Some j → f j = Some j' → storable j' →
  ∃ s', FUpdate repo now id f false s = (Ok (Some j'), s') ∧ Rep s' (<[id := j_with j' id now]> m).
Proof.
  intros HR Hm Hf Hst. pose proof HR as [(idx & Hi & Hd) Hr Hj]. destruct (Hj _ _ Hm) as (? & ? & ?).
  rewrite FUpdate_run, Hr, Hm. simpl. rewrite decode_stored, Hf by done. eexists. split; [done|].
  eapply (Rep_write s m _ _ idx); try done.
  - intros x. rewrite Hd. split; [auto|]. intros [->|?]; [by rewrite Hm|done].
  - apply lookup_insert_eq.
  - intros x Hx. rewrite lookup_insert_ne; [done|]. by apply key_neq.
  - unfold index_of. rewrite lookup_insert_ne; [done|]. apply forward_no_clash.
Qed.

Lemma impl_get id s m : Rep s m → FGet repo id false s = (Ok (m !! id), s).
Proof.
  intros [_ Hr Hj]. unfold FGet. destruct (String.eqb_spec id "") as [->|Hid].
  { destruct (m !! "") as [j|] eqn:Hm; [|done]. by destruct (Hj _ _ Hm) as (_ & ? & _). }
  rewrite (CGet_ok _ Forward_wf), Hr. destruct (m !! id) as [j|] eqn:Hm; simpl; [|done].
  destruct (Hj _ _ Hm) as (? & _ & ?). by rewrite decode_stored.
Qed.

Lemma decode_all_jobs (m : gmap string ForwardJob) l :
  (∀ id j, m !! id = Some j → j_ID j = id ∧ id ≠ "" ∧ storable j) →
  (∀ id j, (id, j) ∈ l → m !! id = Some j) →
  decode_all decodeForwardJob (prod_map id marshal <$> l) = Ok l.*2.
Proof.
  intros Hj. induction l as [|[i j] l IH]; intros Hl; [done|]. rewrite fmap_cons.
  change (prod_map id marshal (i, j)) with (i, marshal j). cbn [decode_all].
  destruct (Hj i j) as (? & _ & ?); [apply Hl; left|].
  rewrite decode_stored by done. unfold mbind at 1, res_bind. rewrite IH; [done|]. intros x y H'. apply Hl. by right.
Qed.

Lemma impl_records s m :
  Rep s m → ∃ l s', FRecords repo false s = (Ok l, s') ∧ Rep s' m ∧
    StronglySorted job_le l ∧ l ≡ₚ (map_to_list m).*2.
Proof.
  intros HR. pose proof HR as [(idx & Hi & Hd) Hr Hj]. unfold FRecords.
  destruct (Records_ok Forward Forward_wf s idx Hi) as (s' & -> & Hi' & Hs').
  { intros id. left. apply forward_no_clash. }
  assert (contents Forward s idx = marshal <$> m) as ->.
  { apply map_eq. intros id. rewrite contents_lookup, lookup_fmap, Hr.
    pose proof (is_Some_same _ _ (Hd id)). by destruct (idx !! id), (m !! id). }
  rewrite map_to_list_fmap. rewrite (decode_all_jobs m) by (done || by intros ?? ?%elem_of_map_to_list).
  eexists _, s'. split; [done|]. split_and!.
  - split; [|intros id; rewrite Hs' by apply forward_no_clash; apply Hr|done].
    exists idx. split; [|done]. rewrite Hi'. f_equal. apply map_filter_id. intros id t Ht.
    rewrite Hr. apply fmap_is_Some, Hd. eauto.
  - apply (StronglySorted_merge_sort _).
  - apply merge_sort_Permutation.
Qed.

Lemma impl_remove id s m :
  Rep s m → id ≠ "" → ∃ s', FRemove repo id false s = (Ok tt, s') ∧ Rep s' (delete id m).
Proof.
  intros [(idx & Hi & Hd) Hr Hj] Hid. unfold FRemove. rewrite (proj2 (String.eqb_neq _ _)) by done.
  rewrite (Remove_ok _ Forward_wf _ s idx) by done. eexists. split; [done|]. split.
  - eexists. split; [apply index_of_save|]. intros x. rewrite !lookup_delete_is_Some, Hd. done.
  - intros x. rewrite lookup_insert_ne by apply not_eq_sym, forward_no_clash.
    destruct (decide (x = id)) as [->|Hx]; [by rewrite !lookup_delete_eq|].
    rewrite !lookup_delete_ne; [done|done|]. by apply key_neq.
  - intros x y [_ Hy]%lookup_delete_Some. by apply Hj.
Qed.

#[export] Program Instance ForwardRepository_repo : JobRepo store := {|
  r_save := FSave repo; r_update := FUpdate repo; r_get := FGet repo;
  r_records := FRecords repo; r_remove := FRemove repo; represents := Rep;
|}.
Next Obligation. intros s m id j HR. apply HR. Qed.
Next Obligation. apply impl_save. Qed.
Next Obligation. apply impl_update_none. Qed.
Next Obligation. apply impl_update_some. Qed.
Next Obligation. apply impl_get. Qed.
Next Obligation. apply impl_records. Qed.
Next Obligation. apply impl_remove. Qed.
Next Obligation.
  intros s. split_and!; try done; intros id Hid; unfold FGet, FRemove;
    rewrite (proj2 (String.eqb_neq _ _)) by done; done.
Qed.

Lemma Rep_empty : represents (∅ : store) ∅.
Proof.
  split; [exists ∅; split; [done|]; intros id; by rewrite !lookup_empty| |];
    intros id; by rewrite ?lookup_empty.
Qed.
