(* ===== verification/ForwardQueue.v ===== *)
(** * Forward queue (application/forwarder)

    [queue.go] and the retry policy of [config.go]: a persistent queue drained
    by one worker.  The operations are written over any [JobRepo]; [qsys]
    interleaves the callers with the worker's steps. *)

From stdpp Require Import sorting.
From S2P Require Import Prelude Strings Storage TaskTypes Taskhub TaskRepos JobRepo.

(** ** Retry policy *)

Record policy := mkPolicy {
  p_poll : Z; p_base : Z; p_maximum : Z; p_retention : Z; p_attempts : Z; p_history : Z }.

Definition backoffBase : Z := 5 * second.
Definition backoffMax : Z := 5 * minute.
Definition defaultPolicy : policy :=
  mkPolicy (2 * second) backoffBase backoffMax (24 * hour) 10 200.

(** [for attempt := 1; attempt < attempts; attempt++] with [n] rounds left. *)
Fixpoint backoff_loop (maximum delay : Z) (n : nat) : Z :=
  match n with
  | O => if maximum <? delay then maximum else delay
  | S n => if Z.quot maximum 2 <=? delay then maximum
           else backoff_loop maximum (wrap64 (delay * 2)) n
  end.
Definition policy_backoff (p : policy) (attempts : Z) : Z :=
  backoff_loop (p_maximum p) (p_base p) (Z.to_nat (attempts - 1)).

(** The stand-alone [backoff]; a shift of 64 bits or more gives zero. *)
Definition backoff (attempts : Z) : Z :=
  let attempts := if attempts <? 1 then 1 else attempts in
  let d := if 64 <=? attempts - 1 then 0 else wrap64 (Z.shiftl backoffBase (attempts - 1)) in
  if (d <=? 0) || (backoffMax <? d) then backoffMax else d.

(** ** Jobs *)

Definition j_set (j : ForwardJob) (status : string) (done attempts : Z) (error : string)
    (started finished next : option Z) : ForwardJob :=
  mkJob (j_ID j) (j_Source j) (j_SourceLink j) (j_SourcePeerID j) (j_SourcePeerKind j) (j_RuleID j)
    (j_SourceMessageID j) (j_OriginName j) (j_Destination j) (j_DestinationName j) (j_Mode j)
    (j_Silent j) status (j_Total j) done (j_CloneDone j) (j_CloneTotal j) attempts error
    (j_CreatedAt j) (j_UpdatedAt j) started finished next.

Definition status_in (j : ForwardJob) (l : list string) : bool := existsb (String.eqb (j_Status j)) l.

Definition new_job (id source link : string) (peer : Z) (kind rule : string) (msg : Z)
    (origin dest destName mode : string) (silent : bool) : ForwardJob :=
  mkJob id source link peer kind rule msg origin dest destName mode silent StatusQueued 1 0 0 0 0 ""
    0 0 None None None.

(** [uniqueIDs] *)
Fixpoint unique_ids (seen ids : list string) : list string :=
  match ids with
  | [] => []
  | id :: ids =>
      let id := TrimSpace id in
      if String.eqb id "" then unique_ids seen ids
      else if bool_decide (id ∈ seen) then unique_ids seen ids
      else id :: unique_ids (id :: seen) ids
  end.
Definition uniqueIDs (ids : list string) : list string := unique_ids [] ids.

(** The callbacks given to [store.Update]. *)
Definition pause_job (j : ForwardJob) : option ForwardJob :=
  if status_in j [StatusQueued; StatusRetrying]
  then Some (j_set j StatusPaused (j_Done j) (j_Attempts j) (j_Error j) (j_StartedAt j) (j_FinishedAt j) None)
  else None.
Definition resume_job (j : ForwardJob) : option ForwardJob :=
  if status_in j [StatusPaused; StatusError; StatusRetrying]
  then Some (j_set j StatusQueued (j_Done j) 0 "" (j_StartedAt j) None None)
  else None.
Definition recover_job (j : ForwardJob) : option ForwardJob :=
  if status_in j [StatusRunning]
  then Some (j_set j StatusQueued (j_Done j) (j_Attempts j) (j_Error j) None (j_FinishedAt j) (j_NextAttemptAt j))
  else None.
Definition claim_job (now : Z) (j : ForwardJob) : option ForwardJob :=
  if status_in j [StatusQueued; StatusRetrying]
  then Some (j_set j StatusRunning (j_Done j) (j_Attempts j) "" (Some now) (j_FinishedAt j) (j_NextAttemptAt j))
  else None.
Definition progress_job (progress current : ForwardJob) : option ForwardJob :=
  if status_in current [StatusRunning]
  then Some (j_set progress StatusRunning (j_Done progress) (j_Attempts progress) (j_Error progress)
               (j_StartedAt progress) (j_FinishedAt progress) (j_NextAttemptAt progress))
  else None.
Definition replace_running (job current : ForwardJob) : option ForwardJob :=
  if status_in current [StatusRunning] then Some job else None.

(** What [rt.Forward] returned. *)
Inductive forward_result := FwdOk | FwdCanceled | FwdError (msg : string).

(** The job [runJob] stores after a run that ended at [fin]. *)
Definition finish_job (p : policy) (fin : Z) (r : forward_result) (j : ForwardJob) : ForwardJob :=
  match r with
  | FwdOk => j_set j StatusDone (j_Total j) (j_Attempts j) "" (j_StartedAt j) (Some fin) None
  | FwdCanceled =>
      j_set j StatusQueued (j_Done j) (j_Attempts j) (j_Error j) None (j_FinishedAt j) (j_NextAttemptAt j)
  | FwdError msg =>
      let attempts := wrap64 (j_Attempts j + 1) in
      if p_attempts p <=? attempts
      then j_set j StatusError (j_Done j) attempts msg None (Some fin) None
      else j_set j StatusRetrying (j_Done j) attempts msg None (j_FinishedAt j)
             (Some (fin + policy_backoff p attempts))
  end.

(** [terminalTime] *)
Definition terminalTime (j : ForwardJob) : Z :=
  match j_FinishedAt j with Some t => t | None => j_CreatedAt j end.

Definition term_le (a b : ForwardJob) : Prop := terminalTime a ≤ terminalTime b.
#[export] Instance term_le_dec : RelDecision term_le := λ a b, Z.le_dec _ _.

(** The jobs [pruneTerminal] drops. *)
Definition pruned (p : policy) (now : Z) (jobs : list ForwardJob) : list ForwardJob :=
  let terminal := merge_sort term_le (filter (λ j, Terminal j = true) jobs) in
  let overCap := (length terminal - Z.to_nat (p_history p))%nat in
  let late := filter (λ j, p_retention p < time_sub now (terminalTime j)) (drop overCap terminal) in
  take overCap terminal ++ late.

Definition eligible (now : Z) (j : ForwardJob) : bool :=
  status_in j [StatusQueued; StatusRetrying]
  && match j_NextAttemptAt j with Some t => negb (now <? t) | None => true end.

(** The scan of [pickNext]: the first of the oldest eligible jobs. *)
Fixpoint pick (now : Z) (best : option ForwardJob) (jobs : list ForwardJob) : option ForwardJob :=
  match jobs with
  | [] => best
  | j :: jobs =>
      let best := if eligible now j
                  then match best with
                       | None => Some j
                       | Some b => if j_CreatedAt j <? j_CreatedAt b then Some j else best
                       end
                  else best in
      pick now best jobs
  end.

(** [List]: active first, then most recent; stable. *)
Definition list_le (a b : ForwardJob) : Prop :=
  (Terminal a = false ∧ Terminal b = true) ∨
  (Terminal a = Terminal b ∧ j_CreatedAt b ≤ j_CreatedAt a).
#[export] Instance list_le_dec : RelDecision list_le.
Proof. intros a b. unfold list_le. apply _. Defined.

Record ActionResult := mkResult { ar_Matched : Z; ar_Changed : Z; ar_Skipped : Z; ar_Errors : list string }.
Definition ar_empty := mkResult 0 0 0 [].
Definition ar_skip (r : ActionResult) := mkResult (ar_Matched r) (ar_Changed r) (ar_Skipped r + 1) (ar_Errors r).
Definition ar_hit (r : ActionResult) := mkResult (ar_Matched r + 1) (ar_Changed r + 1) (ar_Skipped r) (ar_Errors r).
Definition ar_fail (r : ActionResult) (id : string) := mkResult (ar_Matched r) (ar_Changed r) (ar_Skipped r) (ar_Errors r ++ [id]).

Record MessagePeer := mkPeer { mp_Kind : string; mp_ID : Z }.
Record ForwardDestination := mkDest { fd_Target : string; fd_RuleID : string; fd_Mode : string; fd_Silent : bool }.

(** ** The queue over a repository *)

(** Where the worker is: between loop iterations, holding a picked job not
    yet claimed, or forwarding a claimed one. *)
Inductive worker := WOff | WLoop | WPicked (j : ForwardJob) | WRunning (j : ForwardJob).

Section queue.
Context {St : Type} `{JobRepo St}.
(** SHA-256 of an identity, in hexadecimal. *)
Context (sha256_hex : string → string).

Record queue := mkQueue {
  q_store : St;
  q_policy : policy;
  q_seq : Z;
  q_wake : bool;             (* a token in the [wake] channel *)
  q_activeID : string;       (* "" when no job is being run *)
  q_jobCanceled : bool;      (* the running job's context *)
  q_stopped : bool;          (* the context of [Serve] *)
  q_worker : worker;
}.
Definition q_with_store (q : queue) (s : St) : queue :=
  mkQueue s (q_policy q) (q_seq q) (q_wake q) (q_activeID q) (q_jobCanceled q) (q_stopped q) (q_worker q).
Definition q_signal (q : queue) : queue :=
  mkQueue (q_store q) (q_policy q) (q_seq q) true (q_activeID q) (q_jobCanceled q) (q_stopped q) (q_worker q).
Definition q_set_worker (q : queue) (active : string) (canceled : bool) (w : worker) : queue :=
  mkQueue (q_store q) (q_policy q) (q_seq q) (q_wake q) active canceled (q_stopped q) w.

(** [fmt.Sprintf("fwd-%d-%d", now, seq)] *)
Definition nextID (now : Z) (q : queue) : string * queue :=
  let n := (q_seq q + 1) `mod` 2^64 in
  ("fwd-" +:+ pretty now +:+ "-" +:+ pretty n,
   mkQueue (q_store q) (q_policy q) n (q_wake q) (q_activeID q) (q_jobCanceled q) (q_stopped q) (q_worker q)).

Fixpoint enqueue_links (now : Z) (target targetName mode : string) (silent : bool)
    (links ids : list string) (q : queue) : (list string * option err) * queue :=
  match links with
  | [] => ((ids, None), q)
  | link :: links =>
      let link := TrimSpace link in
      if String.eqb link "" then enqueue_links now target targetName mode silent links ids q
      else
        let '(id, q) := nextID now q in
        match r_save now (new_job id SourceCommand link 0 "" "" 0 link target targetName mode silent)
                false (q_store q) with
        | (Ok _, s) => enqueue_links now target targetName mode silent links (ids ++ [id]) (q_with_store q s)
        | (Err x, s) => ((ids, Some x), q_with_store q s)
        end
  end.
Definition EnqueueLinks (now : Z) (links : list string) (target targetName mode : string) (silent : bool)
    (q : queue) : (list string * option err) * queue :=
  let '((ids, e), q) := enqueue_links now target targetName mode silent links [] q in
  ((ids, e), if is_nil ids then q else q_signal q).

Definition enqueueMessage (now : Z) (peer : MessagePeer) (messageID : Z)
    (originName target targetName mode : string) (silent : bool) (q : queue) : res err string * queue :=
  let '(id, q) := nextID now q in
  match r_save now (new_job id SourceWatch "" (mp_ID peer) (mp_Kind peer) "" messageID originName
                      target targetName mode silent) false (q_store q) with
  | (Ok _, s) => (Ok id, q_signal (q_with_store q s))
  | (Err x, s) => (Err x, q_with_store q s)
  end.

Definition routed_id (source : MessagePeer) (messageID groupedID : Z) (target : string) : string :=
  let message := if groupedID =? 0 then "m:" +:+ pretty messageID else "g:" +:+ pretty groupedID in
  "route-" +:+ sha256_hex (mp_Kind source +:+ ":" +:+ pretty (mp_ID source) +:+ "/" +:+ message +:+ "/" +:+ target).

Definition EnqueueRouted (now : Z) (source : MessagePeer) (messageID groupedID : Z) (origin : string)
    (d : ForwardDestination) (q : queue) : res err string * queue :=
  let id := routed_id source messageID groupedID (fd_Target d) in
  match r_get id false (q_store q) with
  | (Err x, s) => (Err x, q_with_store q s)
  | (Ok (Some _), s) => (Ok id, q_with_store q s)
  | (Ok None, s) =>
      match r_save now (new_job id SourceWatch "" (mp_ID source) (mp_Kind source) (fd_RuleID d) messageID
                          origin (fd_Target d) "" (fd_Mode d) (fd_Silent d)) false s with
      | (Ok _, s) => (Ok id, q_signal (q_with_store q s))
      | (Err x, s) => (Err x, q_with_store q s)
      end
  end.

Definition QList (q : queue) : res err (list ForwardJob) * queue :=
  let '(r, s) := r_records false (q_store q) in
  (match r with Ok jobs => Ok (merge_sort list_le jobs) | Err x => Err x end, q_with_store q s).

Definition RunningCount (q : queue) : res err Z * queue :=
  let '(r, s) := r_records false (q_store q) in
  (match r with
   | Ok jobs => Ok (Z.of_nat (length (filter (λ j, Terminal j = false) jobs)))
   | Err x => Err x
   end, q_with_store q s).

(** [update]; errors are recorded by the ID they are about. *)
Fixpoint update_ids (now : Z) (f : ForwardJob → option ForwardJob) (ids : list string)
    (r : ActionResult) (s : St) : ActionResult * St :=
  match ids with
  | [] => (r, s)
  | id :: ids =>
      match r_update now id f false s with
      | (Err _, s) => update_ids now f ids (ar_fail r id) s
      | (Ok None, s) => update_ids now f ids (ar_skip r) s
      | (Ok (Some _), s) => update_ids now f ids (ar_hit r) s
      end
  end.
Definition update (now : Z) (ids : list string) (f : ForwardJob → option ForwardJob) (q : queue)
    : ActionResult * queue :=
  let '(r, s) := update_ids now f (uniqueIDs ids) ar_empty (q_store q) in (r, q_with_store q s).
Definition Pause (now : Z) (ids : list string) (q : queue) : ActionResult * queue :=
  update now ids pause_job q.
Definition Resume (now : Z) (ids : list string) (q : queue) : ActionResult * queue :=
  let '(r, q) := update now ids resume_job q in (r, q_signal q).

(** [cancelIfActive] *)
Definition cancelIfActive (id : string) (q : queue) : queue :=
  if String.eqb (q_activeID q) id then q_set_worker q (q_activeID q) true (q_worker q) else q.

Fixpoint delete_ids (ids : list string) (r : ActionResult) (q : queue) : ActionResult * queue :=
  match ids with
  | [] => (r, q)
  | id :: ids =>
      match r_get id false (q_store q) with
      | (Err _, s) => delete_ids ids (ar_fail r id) (q_with_store q s)
      | (Ok None, s) => delete_ids ids (ar_skip r) (q_with_store q s)
      | (Ok (Some _), s) =>
          match r_remove id false s with
          | (Err _, s) => delete_ids ids (ar_fail r id) (q_with_store q s)
          | (Ok _, s) => delete_ids ids (ar_hit r) (cancelIfActive id (q_with_store q s))
          end
      end
  end.
Definition Delete (ids : list string) (q : queue) : ActionResult * queue :=
  delete_ids (uniqueIDs ids) ar_empty q.

(** *** The worker *)

Fixpoint recover_jobs (now : Z) (jobs : list ForwardJob) (canceled : bool) (s : St) : St :=
  match jobs with
  | [] => s
  | j :: jobs =>
      if status_in j [StatusRunning]
      then recover_jobs now jobs canceled (r_update now (j_ID j) recover_job canceled s).2
      else recover_jobs now jobs canceled s
  end.
Definition recoverRunning (now : Z) (q : queue) : queue :=
  match r_records (q_stopped q) (q_store q) with
  | (Err _, s) => q_with_store q s
  | (Ok jobs, s) => q_with_store q (recover_jobs now jobs (q_stopped q) s)
  end.

Definition pruneTerminal (now : Z) (p : policy) (jobs : list ForwardJob) (canceled : bool) (s : St) : St :=
  foldl (λ s j, (r_remove (j_ID j) canceled s).2) s (pruned p now jobs).

Definition pickNext (now : Z) (q : queue) : option ForwardJob * queue :=
  match r_records (q_stopped q) (q_store q) with
  | (Err _, s) => (None, q_with_store q s)
  | (Ok jobs, s) =>
      (pick now None jobs, q_with_store q (pruneTerminal now (q_policy q) jobs (q_stopped q) s))
  end.

(** [Serve], under a live context, up to its loop; [None]: already being served. *)
Definition serve_start (now : Z) (q : queue) : option queue :=
  match q_worker q with
  | WOff =>
      let q := mkQueue (q_store q) (q_policy q) (q_seq q) (q_wake q) "" false false WLoop in
      Some (recoverRunning now q)
  | _ => None
  end.
(** One iteration of the loop up to [runJob]'s [setActive]. *)
Definition serve_iter (now : Z) (q : queue) : option queue :=
  match q_worker q with
  | WLoop =>
      if q_stopped q then Some (q_set_worker q "" false WOff)
      else match pickNext now q with
           | (Some j, q) => Some (q_set_worker q (j_ID j) false (WPicked j))
           | (None, q) => Some q
           end
  | _ => None
  end.
(** The job context is canceled with its parent. *)
Definition job_ctx (q : queue) : bool := q_jobCanceled q || q_stopped q.
(** [runJob]: claiming the job. *)
Definition run_claim (now : Z) (q : queue) : option queue :=
  match q_worker q with
  | WPicked j =>
      match r_update now (j_ID j) (claim_job now) (job_ctx q) (q_store q) with
      | (Ok (Some j'), s) => Some (q_set_worker (q_with_store q s) (q_activeID q) (q_jobCanceled q) (WRunning j'))
      | (_, s) => Some (q_set_worker (q_with_store q s) "" false WLoop)
      end
  | _ => None
  end.
(** The progress callback of [rt.Forward]. *)
Definition run_progress (now : Z) (progress : ForwardJob) (q : queue) : option queue :=
  match q_worker q with
  | WRunning _ =>
      if job_ctx q then Some q
      else Some (q_with_store q (r_update now (j_ID progress) (progress_job progress) false (q_store q)).2)
  | _ => None
  end.
(** [rt.Forward] returned, having left the job as [j]; the flag tells
    whether a failure notification is sent. *)
Definition run_finish (fin : Z) (j : ForwardJob) (r : forward_result) (q : queue) : option (queue * bool) :=
  match q_worker q with
  | WRunning _ =>
      let back q := q_set_worker q "" false WLoop in
      if q_stopped q then Some (back q, false)
      else match r_get (j_ID j) false (q_store q) with
           | (Ok (Some _), s) =>
               let j' := finish_job (q_policy q) fin r j in
               match r_update fin (j_ID j) (replace_running j') false s with
               | (Ok (Some _), s) => Some (back (q_with_store q s), String.eqb (j_Status j') StatusError)
               | (_, s) => Some (back (q_with_store q s), false)
               end
           | (_, s) => Some (back (q_with_store q s), false)
           end
  | _ => None
  end.

Inductive qevent :=
  | QEnqueueLinks (links : list string) (target targetName mode : string) (silent : bool)
  | QEnqueueMessage (peer : MessagePeer) (messageID : Z) (origin target targetName mode : string) (silent : bool)
  | QEnqueueRouted (source : MessagePeer) (messageID groupedID : Z) (origin : string) (d : ForwardDestination)
  | QPause (ids : list string)
  | QResume (ids : list string)
  | QDelete (ids : list string)
  | QServe
  | QIter
  | QClaim
  | QProgress (progress : ForwardJob)
  | QFinish (j : ForwardJob) (r : forward_result)
  | QStop.

(** [None]: the event is not enabled.  [rt.Forward] is handed a pointer to the
    claimed job and may rewrite anything in it but its identity. *)
Definition q_step (now : Z) (q : queue) (e : qevent) : option queue :=
  match e with
  | QEnqueueLinks links target targetName mode silent =>
      Some (EnqueueLinks now links target targetName mode silent q).2
  | QEnqueueMessage peer msg origin target targetName mode silent =>
      Some (enqueueMessage now peer msg origin target targetName mode silent q).2
  | QEnqueueRouted source msg grouped origin d => Some (EnqueueRouted now source msg grouped origin d q).2
  | QPause ids => Some (Pause now ids q).2
  | QResume ids => Some (Resume now ids q).2
  | QDelete ids => Some (Delete ids q).2
  | QServe => serve_start now q
  | QIter => serve_iter now q
  | QClaim => run_claim now q
  | QProgress p =>
      match q_worker q with
      | WRunning j => if String.eqb (j_ID p) (j_ID j) then run_progress now p q else None
      | _ => None
      end
  | QFinish j' r =>
      match q_worker q with
      | WRunning j => if String.eqb (j_ID j') (j_ID j) then fst <$> run_finish now j' r q else None
      | _ => None
      end
  | QStop => Some (mkQueue (q_store q) (q_policy q) (q_seq q) (q_wake q) (q_activeID q) (q_jobCanceled q) true (q_worker q))
  end.

Definition q_init (s : St) (p : policy) : queue := mkQueue s p 0 false "" false false WOff.
End queue.
