(* ===== verification/ForwardQueueInv.v ===== *)
(** * Forward queue: what its operations do to the stored jobs

    Every operation of ForwardQueue.v, described on the finite map of jobs its
    repository represents. *)

From stdpp Require Import sorting.
From S2P Require Import Prelude Strings Storage TaskTypes Taskhub TaskRepos JobRepo ForwardQueue.

Definition running (j : ForwardJob) : bool := status_in j [StatusRunning].

Lemma status_in_spec j l : status_in j l = true ↔ j_Status j ∈ l.
Proof.
  unfold status_in. rewrite existsb_exists. split.
  - intros (x & Hx%list_elem_of_In & He%String.eqb_eq). by subst.
  - intros Hx. exists (j_Status j). by rewrite <- list_elem_of_In, String.eqb_refl.
Qed.

Lemma status_one j x : status_in j [x] = true ↔ j_Status j = x.
Proof. rewrite status_in_spec. set_solver. Qed.

(** A callback that keeps jobs storable. *)
Definition good_change (f : ForwardJob → option ForwardJob) : Prop :=
  ∀ j j', f j = Some j' → storable j → storable j'.

Lemma j_set_storable j st done att e sa fa na :
  storable j → st ≠ "" → in_int64 done = true → in_int64 att = true →
  storable (j_set j st done att e sa fa na).
Proof.
  intros [Hw _] Hs Hd Ha. split; [|done]. unfold wf_job in *. simpl.
  rewrite !andb_true_iff in *. naive_solver.
Qed.

Lemma storable_done j : storable j → in_int64 (j_Done j) = true.
Proof. intros [Hw _]. unfold wf_job in Hw. rewrite !andb_true_iff in Hw. naive_solver. Qed.
Lemma storable_attempts j : storable j → in_int64 (j_Attempts j) = true.
Proof. intros [Hw _]. unfold wf_job in Hw. rewrite !andb_true_iff in Hw. naive_solver. Qed.
Lemma storable_total j : storable j → in_int64 (j_Total j) = true.
Proof. intros [Hw _]. unfold wf_job in Hw. rewrite !andb_true_iff in Hw. naive_solver. Qed.

Ltac storable_set := apply j_set_storable; auto using storable_done, storable_attempts, storable_total; done.

Lemma pause_good : good_change pause_job.
Proof. intros j j' H Hs. unfold pause_job in H. destruct (status_in _ _); [|done]. injection H as <-. storable_set. Qed.
Lemma resume_good : good_change resume_job.
Proof. intros j j' H Hs. unfold resume_job in H. destruct (status_in _ _); [|done]. injection H as <-. storable_set. Qed.
Lemma recover_good : good_change recover_job.
Proof. intros j j' H Hs. unfold recover_job in H. destruct (status_in _ _); [|done]. injection H as <-. storable_set. Qed.
Lemma claim_good now : good_change (claim_job now).
Proof. intros j j' H Hs. unfold claim_job in H. destruct (status_in _ _); [|done]. injection H as <-. storable_set. Qed.

Lemma wrap64_in z : in_int64 (wrap64 z) = true.
Proof. pose proof (wrap64_in_range z). unfold in_int64. lia. Qed.

Lemma finish_storable p fin r j : wf_job j = true → storable (finish_job p fin r j).
Proof.
  intros Hw. assert (Hs : storable (j_set j StatusQueued (j_Done j) (j_Attempts j) "" None None None)).
  { split; [|done]. exact Hw. }
  pose proof (storable_done _ Hs). pose proof (storable_attempts _ Hs). pose proof (storable_total _ Hs).
  assert (Hset : ∀ st done att e sa fa na, st ≠ "" → in_int64 done = true → in_int64 att = true →
    storable (j_set j st done att e sa fa na)).
  { intros. exact (j_set_storable _ _ _ _ e sa fa na Hs H2 H3 H4). }
  destruct r as [| |msg]; simpl; [by apply Hset..|].
  destruct (_ <=? _); apply Hset; auto using wrap64_in; done.
Qed.

Section queue.
Context {St : Type} `{JobRepo St}.
Implicit Types (m : gmap string ForwardJob) (s : St).

(** What a list of updates does to the map. *)
Definition change_job (now : Z) (f : ForwardJob → option ForwardJob) (id : string) m :=
  match m !! id ≫= f with Some j' => <[id := j_with j' id now]> m | None => m end.

Lemma r_update_spec now id f s m :
  good_change f → represents s m →
  ∃ s', r_update now id f false s = (Ok (m !! id ≫= f), s') ∧ represents s' (change_job now f id m).
Proof.
  intros Hf HR. unfold change_job. destruct (m !! id ≫= f) as [j'|] eqn:Hj.
  - apply bind_Some in Hj as (j & Hm & Hfj). apply (update_some now id f s m j j'); try done.
    eapply Hf; [done|]. by eapply rep_ids.
  - exists s. split; [by apply (update_none _ _ _ _ m)|done].
Qed.

Lemma update_ids_spec now f ids : ∀ r s m, good_change f → represents s m →
  ∃ r' s', update_ids now f ids r s = (r', s') ∧
    represents s' (foldl (λ m id, change_job now f id m) m ids) ∧
    ar_Errors r' = ar_Errors r ∧
    ar_Changed r' + ar_Skipped r' = ar_Changed r + ar_Skipped r + Z.of_nat (length ids).
Proof.
  induction ids as [|id ids IH]; intros r s m Hf HR; simpl.
  { exists r, s. split_and!; try done. lia. }
  destruct (r_update_spec now id f s m Hf HR) as (s1 & -> & HR1).
  destruct (m !! id ≫= f) as [j'|].
  - destruct (IH (ar_hit r) s1 _ Hf HR1) as (r' & s' & -> & ? & He & Hc). exists r', s'.
    split_and!; try done. simpl in Hc. lia.
  - destruct (IH (ar_skip r) s1 _ Hf HR1) as (r' & s' & -> & ? & He & Hc). exists r', s'.
    split_and!; try done. simpl in Hc. lia.
Qed.

Lemma update_spec now f ids (q : queue) m :
  good_change f → represents (q_store q) m →
  ∃ r s', update now ids f q = (r, q_with_store q s') ∧
    represents s' (foldl (λ m id, change_job now f id m) m (uniqueIDs ids)) ∧
    ar_Errors r = [] ∧ ar_Changed r + ar_Skipped r = Z.of_nat (length (uniqueIDs ids)).
Proof.
  intros Hf HR. unfold update.
  destruct (update_ids_spec now f (uniqueIDs ids) ar_empty _ m Hf HR) as (r & s' & -> & ? & ? & ?).
  exists r, s'. split_and!; try done.
Qed.

(** Reading a map that was updated at distinct IDs. *)
Lemma change_jobs_lookup now f ids m id :
  NoDup ids →
  foldl (λ m id, change_job now f id m) m ids !! id =
    if decide (id ∈ ids)
    then (λ j, match f j with Some j' => j_with j' id now | None => j end) <$> m !! id
    else m !! id.
Proof.
  revert m. induction ids as [|x ids IH]; intros m; simpl; [done|].
  intros [Hn Hd]%NoDup_cons. rewrite IH by done. unfold change_job.
  destruct (decide (id = x)) as [->|Hne].
  - rewrite decide_False, decide_True by set_solver. destruct (m !! x) as [j|] eqn:Hm; simpl; [|by rewrite Hm].
    destruct (f j); [by rewrite lookup_insert_eq|by rewrite Hm].
  - assert (match m !! x ≫= f with Some j' => <[x:=j_with j' x now]> m | None => m end !! id = m !! id) as ->.
    { destruct (_ ≫= _); [by rewrite lookup_insert_ne|done]. }
    repeat case_decide; try done; set_solver.
Qed.

Lemma unique_ids_spec ids : ∀ seen,
  NoDup (unique_ids seen ids) ∧ ∀ x, x ∈ unique_ids seen ids → x ∉ seen ∧ x ≠ "" ∧ x ∈ (TrimSpace <$> ids).
Proof.
  induction ids as [|id ids IH]; intros seen; simpl; [split; [constructor|set_solver]|].
  destruct (String.eqb_spec (TrimSpace id) "") as [He|He].
  { destruct (IH seen) as [? Hx]. split; [done|]. intros x (?&?&?)%Hx. split_and!; try done. by right. }
  case_bool_decide as Hs.
  { destruct (IH seen) as [? Hx]. split; [done|]. intros x (?&?&?)%Hx. split_and!; try done. by right. }
  destruct (IH (TrimSpace id :: seen)) as [? Hx]. split.
  - constructor; [|done]. intros [Hn _]%Hx. apply Hn. by left.
  - intros x [->|(Hn&?&?)%Hx]%elem_of_cons; [split_and!; try done; by left|].
    split_and!; [set_solver|done|by right].
Qed.
Lemma uniqueIDs_NoDup ids : NoDup (uniqueIDs ids).
Proof. apply unique_ids_spec. Qed.
Lemma uniqueIDs_nonempty ids x : x ∈ uniqueIDs ids → x ≠ "".
Proof. intros Hx. by apply (unique_ids_spec ids []) in Hx as (_ & ? & _). Qed.

(** [Delete] removes the IDs it finds and cancels the active one among them. *)
Lemma delete_ids_spec ids : ∀ r (q : queue) m, (∀ x, x ∈ ids → x ≠ "") → represents (q_store q) m →
  ∃ r' q', delete_ids ids r q = (r', q') ∧
    represents (q_store q') (foldr delete m ids) ∧ ar_Errors r' = ar_Errors r ∧
    q_worker q' = q_worker q ∧ q_stopped q' = q_stopped q ∧ q_activeID q' = q_activeID q ∧
    q_policy q' = q_policy q ∧
    (q_jobCanceled q' = true ↔ q_jobCanceled q = true ∨ (q_activeID q ∈ ids ∧ is_Some (m !! q_activeID q))).
Proof.
  induction ids as [|id ids IH]; intros r q m Hne HR; simpl.
  { exists r, q. split_and!; try done. set_solver. }
  rewrite (get_law id _ m HR).
  assert (Hcomm : ∀ x m, foldr delete (delete x m) ids = delete x (foldr delete m ids)).
  { clear. intros x m. induction ids as [|y ids IH]; simpl; [done|]. by rewrite IH, delete_delete. }
  destruct (m !! id) as [j|] eqn:Hm.
  - destruct (remove_law id _ m HR) as (s1 & -> & HR1); [apply Hne; by left|].
    destruct (IH (ar_hit r) (cancelIfActive id (q_with_store q s1)) (delete id m))
      as (r' & q' & -> & HR' & He & Hw & Hst & Ha & Hp & Hc).
    { intros x Hx. apply Hne. by right. }
    { unfold cancelIfActive. simpl. by destruct (String.eqb _ _). }
    exists r', q'. rewrite Hcomm in HR'.
    assert (Hact : q_activeID (cancelIfActive id (q_with_store q s1)) = q_activeID q).
    { unfold cancelIfActive. simpl. by destruct (String.eqb _ _). }
    rewrite Hact in *. split_and!; try done; try (rewrite ?Hw, ?Hst, ?Hp; unfold cancelIfActive; simpl;
      by destruct (String.eqb _ _)).
    rewrite Hc. unfold cancelIfActive. simpl. destruct (String.eqb_spec (q_activeID q) id) as [->|Hne']; simpl.
    + rewrite Hm. split; [intros _; right; split; [by left|done]|auto].
    + rewrite lookup_delete_ne by done. set_solver.
  - destruct (IH (ar_skip r) (q_with_store q (q_store q)) m) as (r' & q' & -> & HR' & He & Hw & Hst & Ha & Hp & Hc).
    { intros x Hx. apply Hne. by right. }
    { done. }
    exists r', q'. split_and!; try done.
    + rewrite <- Hcomm. by rewrite delete_id.
    + rewrite Hc. simpl. split; [set_solver|]. intros [?|[Hin Hsm]]; [auto|].
      right. split; [|done]. apply elem_of_cons in Hin as [Hid|?]; [|done].
      rewrite Hid, Hm in Hsm. by destruct Hsm.
Qed.

Lemma foldr_delete_lookup m ids id :
  foldr delete m ids !! id = if decide (id ∈ ids) then None else m !! id.
Proof.
  induction ids as [|x ids IH]; simpl; [done|].
  destruct (decide (id = x)) as [->|Hne]; [by rewrite lookup_delete_eq, decide_True by set_solver|].
  rewrite lookup_delete_ne, IH by done. repeat case_decide; try done; set_solver.
Qed.

(** ** The worker *)

Lemma recover_jobs_spec now jobs : ∀ s m, represents s m →
  (∀ j, j ∈ jobs → j_ID j ≠ "") →
  represents (recover_jobs now jobs false s)
    (foldl (λ m id, change_job now recover_job id m) m
       (j_ID <$> filter (λ j, running j = true) jobs)).
Proof.
  induction jobs as [|j jobs IH]; intros s m HR Hne; [done|]. cbn [recover_jobs].
  destruct (status_in j [StatusRunning]) eqn:Hr.
  - rewrite filter_cons_True by done. cbn [fmap list_fmap foldl].
    destruct (r_update_spec now (j_ID j) recover_job s m recover_good HR) as (s' & -> & HR').
    apply IH; [done|]. intros x Hx. apply Hne. by right.
  - rewrite filter_cons_False by (unfold running; by rewrite Hr). apply IH; [done|].
    intros x Hx. apply Hne. by right.
Qed.

Lemma prune_fold l : ∀ s m, represents s m → (∀ j, j ∈ l → j_ID j ≠ "") →
  represents (foldl (λ s j, (r_remove (j_ID j) false s).2) s l) (foldl (λ m j, delete (j_ID j) m) m l).
Proof.
  induction l as [|j l IH]; intros s m HR Hne; simpl; [done|].
  destruct (remove_law (j_ID j) s m HR) as (s' & -> & HR'); [apply Hne; by left|].
  apply IH; [done|]. intros x Hx. apply Hne. by right.
Qed.

Lemma foldl_delete_lookup (l : list ForwardJob) m id :
  foldl (λ m j, delete (j_ID j) m) m l !! id = if decide (id ∈ j_ID <$> l) then None else m !! id.
Proof.
  revert m. induction l as [|j l IH]; intros m; simpl; [done|]. rewrite IH.
  destruct (decide (id = j_ID j)) as [->|Hne].
  - rewrite (decide_True (P := j_ID j ∈ _ :: _)) by set_solver. case_decide; [done|apply lookup_delete_eq].
  - rewrite lookup_delete_ne by done. repeat case_decide; try done; set_solver.
Qed.

(** The jobs a listing returns are the map's. *)
Lemma elem_of_jobs m l j :
  (∀ id x, m !! id = Some x → j_ID x = id) → l ≡ₚ (map_to_list m).*2 →
  (j ∈ l ↔ m !! j_ID j = Some j).
Proof.
  intros Hid Hp. rewrite Hp, list_elem_of_fmap. split.
  - intros ([id x] & Hj & Hx%elem_of_map_to_list). simpl in Hj. subst j. by rewrite (Hid _ _ Hx).
  - intros Hm. exists (j_ID j, j). split; [done|]. by apply elem_of_map_to_list.
Qed.

Lemma jobs_NoDup m l :
  (∀ id x, m !! id = Some x → j_ID x = id) → l ≡ₚ (map_to_list m).*2 → NoDup (j_ID <$> l).
Proof.
  intros Hid Hp. rewrite Hp, <- list_fmap_compose.
  assert (j_ID ∘ snd <$> map_to_list m = (map_to_list m).*1) as ->; [|apply NoDup_fst_map_to_list].
  apply Forall_fmap_ext_1, Forall_forall. intros [id x] Hx%elem_of_map_to_list. simpl. auto.
Qed.
End queue.

(** ** Picking and pruning *)

Lemma pick_spec now jobs : ∀ best j,
  pick now best jobs = Some j →
  (best = Some j ∨ (j ∈ jobs ∧ eligible now j = true)) ∧
  (∀ b, best = Some b → j_CreatedAt j ≤ j_CreatedAt b) ∧
  (∀ x, x ∈ jobs → eligible now x = true → j_CreatedAt j ≤ j_CreatedAt x).
Proof.
  induction jobs as [|y jobs IH]; intros best j; simpl.
  { intros ->. split_and!; [by left|intros b [= ->]; lia|set_solver]. }
  intros Hp. destruct (eligible now y) eqn:He.
  - destruct best as [b|].
    + destruct (Z.ltb_spec (j_CreatedAt y) (j_CreatedAt b)); destruct (IH _ _ Hp) as ([[= <-]|[? ?]] & Hb & Hx);
        specialize (Hb _ eq_refl); (split_and!; [first [right; split; [set_solver|done]|by left]
          |intros b' [= ->]; lia|intros x [->|?]%elem_of_cons ?; [lia|auto]]).
    + destruct (IH _ _ Hp) as ([[= <-]|[? ?]] & Hb & Hx); specialize (Hb _ eq_refl);
        (split_and!; [right; split; [set_solver|done]|done|intros x [->|?]%elem_of_cons ?; [lia|auto]]).
  - destruct (IH _ _ Hp) as ([->|[? ?]] & Hb & Hx);
      (split_and!; [first [by left|right; split; [set_solver|done]]|done|
       intros x [->|?]%elem_of_cons ?; [congruence|auto]]).
Qed.

Lemma pick_none now jobs : ∀ best,
  pick now best jobs = None → best = None ∧ ∀ x, x ∈ jobs → eligible now x = false.
Proof.
  induction jobs as [|y jobs IH]; intros best; simpl; [intros ->; set_solver|].
  intros Hp. destruct (IH _ Hp) as [Hb Hx]. destruct (eligible now y) eqn:He.
  - destruct best as [b|]; [|done]. by destruct (_ <? _).
  - split; [done|]. intros x [->|?]%elem_of_cons; auto.
Qed.

#[export] Instance term_le_total : Total term_le.
Proof. intros a b. unfold term_le. lia. Qed.
#[export] Instance term_le_trans : Transitive term_le.
Proof. intros a b c. unfold term_le. lia. Qed.

Lemma pruned_terminal p now jobs j : j ∈ pruned p now jobs → j ∈ jobs ∧ Terminal j = true.
Proof.
  unfold pruned. set (t := merge_sort _ _).
  assert (Ht : ∀ x, x ∈ t → x ∈ jobs ∧ Terminal x = true).
  { intros x. unfold t. rewrite merge_sort_Permutation, list_elem_of_filter. naive_solver. }
  rewrite elem_of_app, list_elem_of_filter.
  intros [Hx|[_ Hx]]; apply Ht; [by eapply elem_of_take in Hx as (? & ? & _); apply list_elem_of_lookup; eauto|].
  apply list_elem_of_lookup in Hx as [i Hi]. rewrite lookup_drop in Hi. apply list_elem_of_lookup. eauto.
Qed.
