(* ===== verification/ForwardQueueThms.v ===== *)
(** * What the forward queue guarantees

    Every event of the queue's system changes each stored job along one edge
    of [job_edge]; the theorems follow from the edges and from the worker's
    invariant. *)

From stdpp Require Import sorting.
From S2P Require Import Prelude Strings Storage TaskTypes Taskhub CollectionSpec TaskRepos JobRepo ForwardQueue ForwardQueueInv.

Definition is_enqueue (e : qevent) : bool :=
  match e with QEnqueueLinks _ _ _ _ _ | QEnqueueMessage _ _ _ _ _ _ _ | QEnqueueRouted _ _ _ _ _ => true | _ => false end.
Definition is_routed (e : qevent) : bool := match e with QEnqueueRouted _ _ _ _ _ => true | _ => false end.

(** Go's [int] and [int64] values. *)
Definition wf_event (e : qevent) : bool :=
  match e with
  | QEnqueueMessage peer msg _ _ _ _ _ => in_int64 (mp_ID peer) && in_int64 msg
  | QEnqueueRouted source msg _ _ _ => in_int64 (mp_ID source) && in_int64 msg
  | QProgress p => wf_job p
  | QFinish j _ => wf_job j
  | _ => true
  end.

(** An identifier that [nextID] makes at [now]. *)
Definition generated (now : Z) (id : string) : Prop := ∃ n : Z, id = "fwd-" +:+ pretty now +:+ "-" +:+ pretty n.

(** How one event may change the job stored under [id]; [active] is the
    worker's. *)
Inductive job_edge (now : Z) (p : policy) (active : string) (e : qevent) (id : string) : option ForwardJob → option ForwardJob → Prop :=
  | edge_same o : job_edge now p active e id o o
  | edge_enqueued o j : is_enqueue e = true → (o = None ∨ is_routed e = false ∧ generated now id) →
      j_Status j = StatusQueued → job_edge now p active e id o (Some j)
  | edge_pause ids j j' : e = QPause ids → id ∈ uniqueIDs ids → pause_job j = Some j' →
      job_edge now p active e id (Some j) (Some (j_with j' (j_ID j) now))
  | edge_resume ids j j' : e = QResume ids → id ∈ uniqueIDs ids → resume_job j = Some j' →
      job_edge now p active e id (Some j) (Some (j_with j' (j_ID j) now))
  | edge_recover j j' : e = QServe → recover_job j = Some j' →
      job_edge now p active e id (Some j) (Some (j_with j' (j_ID j) now))
  | edge_claim j j' : e = QClaim → id = active → claim_job now j = Some j' →
      job_edge now p active e id (Some j) (Some (j_with j' (j_ID j) now))
  | edge_progress pr j j' : e = QProgress pr → id = active → progress_job pr j = Some j' →
      job_edge now p active e id (Some j) (Some (j_with j' (j_ID j) now))
  | edge_finish jr r j j' : e = QFinish jr r → id = active → replace_running (finish_job p now r jr) j = Some j' →
      job_edge now p active e id (Some j) (Some (j_with j' (j_ID j) now))
  | edge_deleted ids j : e = QDelete ids → id ∈ uniqueIDs ids → job_edge now p active e id (Some j) None
  | edge_pruned j : e = QIter → Terminal j = true → job_edge now p active e id (Some j) None.

Section queue.
Context {St : Type} `{JobRepo St}.
Context (sha256_hex : string → string).
Implicit Types (m : gmap string ForwardJob) (s : St) (q : @queue St).

Definition none_running m : Prop := ∀ id j, m !! id = Some j → running j = false.

Definition worker_inv (q : @queue St) m : Prop :=
  match q_worker q with
  | WOff => True
  | WLoop => q_stopped q = false → none_running m
  | WPicked j => q_activeID q = j_ID j ∧ none_running m
  | WRunning j => q_activeID q = j_ID j ∧ ∀ id x, m !! id = Some x → running x = true → id = j_ID j
  end.

(** Queued, paused and retrying jobs do not run. *)
Lemma running_status j : running j = false ↔ j_Status j ≠ StatusRunning.
Proof.
  unfold running. rewrite <- not_true_iff_false, status_one. done.
Qed.

(** The worker's invariant when every job that changes stops running. *)
Lemma worker_inv_weaken (q q' : @queue St) m m' :
  q_worker q' = q_worker q → q_stopped q' = q_stopped q → q_activeID q' = q_activeID q →
  worker_inv q m →
  (∀ id j', m' !! id = Some j' → running j' = true → ∃ j, m !! id = Some j ∧ running j = true) →
  worker_inv q' m'.
Proof.
  unfold worker_inv. intros -> -> -> Hw Hr.
  assert (Hn : none_running m → none_running m').
  { intros Hn id j Hj. destruct (running j) eqn:E; [|done].
    destruct (Hr id j Hj E) as (x & Hx & ?). by rewrite (Hn id x Hx) in *. }
  destruct (q_worker q) as [| |j|j]; [done|auto|destruct Hw; auto|].
  destruct Hw as [? Hw]. split; [done|]. intros id x Hx E.
  destruct (Hr id x Hx E) as (y & Hy & ?). eauto.
Qed.

(** Changing jobs at some IDs. *)
Lemma change_jobs_edges now (f : ForwardJob → option ForwardJob) e p act ids m :
  NoDup ids → (∀ id x, m !! id = Some x → j_ID x = id) →
  (∀ id j j', id ∈ ids → f j = Some j' → job_edge now p act e id (Some j) (Some (j_with j' (j_ID j) now))) →
  ∀ id, job_edge now p act e id (m !! id) (foldl (λ m id, change_job now f id m) m ids !! id).
Proof.
  intros Hd Hid Hf id. rewrite change_jobs_lookup by done. case_decide as Hin; [|apply edge_same].
  destruct (m !! id) as [j|] eqn:Hm; simpl; [|apply edge_same].
  destruct (f j) as [j'|] eqn:Hfj; [|apply edge_same].
  pose proof (Hf id j j' Hin Hfj) as He. by rewrite (Hid id j Hm) in He.
Qed.

Lemma change_jobs_running now (f : ForwardJob → option ForwardJob) ids m id j' :
  NoDup ids → (∀ j j', f j = Some j' → j_Status j' ≠ StatusRunning) →
  foldl (λ m id, change_job now f id m) m ids !! id = Some j' → running j' = true →
  ∃ j, m !! id = Some j ∧ running j = true.
Proof.
  intros Hd Hf. rewrite change_jobs_lookup by done. case_decide; [|eauto].
  destruct (m !! id) as [j|]; simpl; [|done]. intros [= <-] Hr.
  destruct (f j) as [j1|] eqn:E; [|eauto].
  exfalso. apply (Hf _ _ E). by apply status_one in Hr.
Qed.

(** *** Enqueuing *)

(** Enqueued jobs are queued, and touch no job already stored. *)
Lemma step_save now (e : qevent) p act (q q' : @queue St) m j s' m0 :
  is_enqueue e = true → (m0 !! j_ID j = None ∨ is_routed e = false ∧ generated now (j_ID j)) →
  (∀ id, job_edge now p act e id (m0 !! id) (m !! id)) →
  worker_inv q m → q_worker q' = q_worker q → q_stopped q' = q_stopped q →
  q_activeID q' = q_activeID q → q_policy q' = q_policy q → q_store q' = s' →
  represents s' (<[j_ID j := j_defaults j now]> m) → j_Status j = StatusQueued →
  (∃ m', represents (q_store q') m' ∧ worker_inv q' m' ∧ q_policy q' = q_policy q ∧
    ∀ id, job_edge now p act e id (m0 !! id) (m' !! id)).
Proof.
  intros He Hrt Hed Hw H1 H2 H3 H4 <- HR Hst. eexists. split_and!; [exact HR| |done|].
  - eapply worker_inv_weaken; [exact H1|exact H2|exact H3|exact Hw|].
    intros id x [[<- <-]|[_ Hx]]%lookup_insert_Some; [|eauto].
    intros Hr. apply status_one in Hr. simpl in Hr. rewrite Hst in Hr. done.
  - intros id. destruct (decide (id = j_ID j)) as [->|Hne].
    + rewrite lookup_insert_eq. apply edge_enqueued; [done|done|]. simpl. by rewrite Hst.
    + by rewrite lookup_insert_ne.
Qed.

Lemma new_job_wf id source link peer kind rule msg origin dest destName mode silent :
  in_int64 peer = true → in_int64 msg = true →
  wf_job (new_job id source link peer kind rule msg origin dest destName mode silent) = true.
Proof. intros H1 H2. unfold wf_job. simpl. by rewrite H1, H2. Qed.

Lemma nextID_spec now (q : @queue St) id q' :
  nextID now q = (id, q') → TrimSpace id ≠ "" ∧ generated now id ∧ q_store q' = q_store q ∧ q_worker q' = q_worker q ∧
    q_stopped q' = q_stopped q ∧ q_activeID q' = q_activeID q ∧ q_policy q' = q_policy q.
Proof. unfold nextID. intros [= <- <-]. split_and!; try done; [by apply TrimSpace_solid|]. by eexists. Qed.

Definition queue_ok now e (q0 q' : @queue St) m0 m' : Prop :=
  represents (q_store q') m' ∧ worker_inv q' m' ∧ q_policy q' = q_policy q0 ∧
  ∀ id, job_edge now (q_policy q0) (q_activeID q0) e id (m0 !! id) (m' !! id).

Lemma enqueue_links_step now target targetName mode silent e q0 m0 links : ∀ ids q m,
  is_enqueue e = true → is_routed e = false → queue_ok now e q0 q m0 m →
  ∃ m', queue_ok now e q0 (enqueue_links now target targetName mode silent links ids q).2 m0 m'.
Proof.
  induction links as [|link links IH]; intros ids q m He Hr Hok; cbn [enqueue_links].
  { by exists m. }
  destruct (String.eqb (TrimSpace link) ""); [by apply (IH _ _ m)|].
  destruct (nextID now q) as [id q1] eqn:Hn.
  destruct (nextID_spec _ _ _ _ Hn) as (Hid & Hgen & Hs & Hw & Hst & Ha & Hp).
  destruct Hok as (HR & Hwi & Hpo & Hed). rewrite <- Hs in HR.
  destruct (save_law now (new_job id SourceCommand (TrimSpace link) 0 "" "" 0 (TrimSpace link)
    target targetName mode silent) _ m HR Hid) as (s' & -> & HR'); [by apply new_job_wf|].
  destruct (step_save now e (q_policy q0) (q_activeID q0) q (q_with_store q1 s') m
    (new_job id SourceCommand (TrimSpace link) 0 "" "" 0 (TrimSpace link) target targetName mode silent) s' m0)
    as (m' & ? & ? & Hpo' & ?); try done; try congruence; try by rewrite Hpo.
  { by right. }
  apply (IH _ _ m'); try done. rewrite Hpo in *. by split_and!.
Qed.

Lemma signal_ok now e q0 (q : @queue St) m0 m : queue_ok now e q0 q m0 m → queue_ok now e q0 (q_signal q) m0 m.
Proof. done. Qed.

Lemma step_enqueue now e (q q' : @queue St) m :
  is_enqueue e = true → wf_event e = true → represents (q_store q) m → worker_inv q m →
  q_step sha256_hex now q e = Some q' → ∃ m', queue_ok now e q q' m m'.
Proof.
  intros He Hwf HR Hw. assert (Hself : queue_ok now e q q m m) by (split_and!; try done; intros; apply edge_same).
  destruct e as [links target targetName mode silent|peer msg origin target targetName mode silent|
    source msg grouped origin d| | | | | | | | |]; try done; cbn [q_step]; intros [= <-].
  - unfold EnqueueLinks.
    destruct (enqueue_links_step now target targetName mode silent
      (QEnqueueLinks links target targetName mode silent) q m links [] q m) as [m' Hm']; try done.
    destruct (enqueue_links _ _ _ _ _ _ _ _) as [[ids e] q']. exists m'. simpl in *. by destruct (is_nil ids).
  - unfold enqueueMessage. destruct (nextID now q) as [id q1] eqn:Hn.
    destruct (nextID_spec _ _ _ _ Hn) as (Hid & Hgen & Hs & Hwk & Hst & Ha & Hp). rewrite <- Hs in HR.
    apply andb_prop in Hwf as [? ?].
    destruct (save_law now (new_job id SourceWatch "" (mp_ID peer) (mp_Kind peer) "" msg origin target
      targetName mode silent) _ m HR Hid) as (s' & -> & HR'); [by apply new_job_wf|].
    eapply (step_save now _ (q_policy q) (q_activeID q) q (q_signal (q_with_store q1 s')) m _ s' m); try exact HR'; try done; [by right|].
    by intros; apply edge_same.
  - unfold EnqueueRouted. set (id := routed_id _ _ _ _ _). rewrite (get_law id _ m HR).
    destruct (m !! id) as [j|] eqn:Hid; [by exists m|]. apply andb_prop in Hwf as [? ?].
    destruct (save_law now (new_job id SourceWatch "" (mp_ID source) (mp_Kind source) (fd_RuleID d) msg
      origin (fd_Target d) "" (fd_Mode d) (fd_Silent d)) _ m HR) as (s' & -> & HR');
      [by apply TrimSpace_solid|by apply new_job_wf|].
    eapply (step_save now _ (q_policy q) (q_activeID q) q (q_signal (q_with_store q s')) m _ s' m); try exact HR'; try done; [by left|].
    by intros; apply edge_same.
Qed.

(** *** Operator actions *)

Lemma status_set j st done att e sa fa na : j_Status (j_set j st done att e sa fa na) = st.
Proof. done. Qed.

Lemma pause_status j j' : pause_job j = Some j' → j_Status j' = StatusPaused.
Proof. unfold pause_job. destruct (status_in _ _); [|done]. by intros [= <-]. Qed.
Lemma resume_status j j' : resume_job j = Some j' → j_Status j' = StatusQueued.
Proof. unfold resume_job. destruct (status_in _ _); [|done]. by intros [= <-]. Qed.
Lemma recover_status j j' : recover_job j = Some j' → j_Status j' = StatusQueued.
Proof. unfold recover_job. destruct (status_in _ _); [|done]. by intros [= <-]. Qed.

Lemma step_update now e (q : @queue St) m ids f :
  good_change f → (∀ j j', f j = Some j' → j_Status j' ≠ StatusRunning) →
  (∀ id j j', id ∈ uniqueIDs ids → f j = Some j' → job_edge now (q_policy q) (q_activeID q) e id (Some j) (Some (j_with j' (j_ID j) now))) →
  represents (q_store q) m → worker_inv q m →
  ∃ m', queue_ok now e q (update now ids f q).2 m m'.
Proof.
  intros Hf Hst Hed HR Hw.
  destruct (update_spec now f ids q m Hf HR) as (r & s' & -> & HR' & _). simpl.
  eexists. split_and!; [exact HR'| |done|].
  - eapply worker_inv_weaken; [done|done|done|exact Hw|]. intros id j'.
    apply change_jobs_running; [apply uniqueIDs_NoDup|done].
  - apply change_jobs_edges; [apply uniqueIDs_NoDup| |done]. intros id x Hx. by destruct (rep_ids _ _ _ _ HR Hx).
Qed.

Lemma step_operator now e (q q' : @queue St) m :
  match e with QPause _ | QResume _ | QDelete _ | QStop => true | _ => false end = true →
  represents (q_store q) m → worker_inv q m →
  q_step sha256_hex now q e = Some q' → ∃ m', queue_ok now e q q' m m'.
Proof.
  intros He HR Hw.
  destruct e as [| | |ids|ids|ids| | | | | |]; try done; cbn [q_step]; intros [= <-].
  - apply step_update; try done; [apply pause_good| |].
    + by intros j j' ->%pause_status.
    + intros id j j' Hid Hj. by eapply edge_pause.
  - unfold Resume. destruct (step_update now (QResume ids) q m ids resume_job) as [m' Hm']; try done;
      [apply resume_good| | |].
    + by intros j j' ->%resume_status.
    + intros id j j' Hid Hj. by eapply edge_resume.
    + destruct (update _ _ _ _) as [r q']. by exists m'.
  - unfold Delete.
    destruct (delete_ids_spec (uniqueIDs ids) ar_empty q m) as (r & q' & -> & HR' & _ & Hwk & Hst & Ha & Hp & _);
      [by intros x ?%uniqueIDs_nonempty|done|].
    eexists. split_and!; [exact HR'| |done|].
    + eapply worker_inv_weaken; [exact Hwk|exact Hst|exact Ha|exact Hw|]. intros id j'. rewrite foldr_delete_lookup.
      case_decide; [done|eauto].
    + intros id. simpl. rewrite foldr_delete_lookup. case_decide; [|apply edge_same].
      destruct (m !! id); [by eapply edge_deleted|apply edge_same].
  - exists m. split_and!; try done; [|intros; apply edge_same].
    unfold worker_inv in *. simpl. destruct (q_worker q); done.
Qed.

(** *** The worker *)

Lemma rep_own (s : St) m : represents s m → ∀ id x, m !! id = Some x → j_ID x = id.
Proof. intros HR id x Hx. by destruct (rep_ids _ _ _ _ HR Hx). Qed.

Lemma rep_nonempty (s : St) m l : represents s m → l ≡ₚ (map_to_list m).*2 → ∀ j, j ∈ l → j_ID j ≠ "".
Proof.
  intros HR Hl j Hj. apply (elem_of_jobs m l) in Hj; [|by eapply rep_own|done].
  by destruct (rep_ids _ _ _ _ HR Hj) as (_ & ? & _).
Qed.

Lemma step_serve now (q q' : @queue St) m :
  represents (q_store q) m → serve_start now q = Some q' → ∃ m', queue_ok now QServe q q' m m'.
Proof.
  intros HR. unfold serve_start. destruct (q_worker q); try done. intros [= <-].
  unfold recoverRunning. cbn [q_stopped q_store].
  destruct (records_law _ m HR) as (l & s1 & -> & HR1 & _ & Hl).
  pose proof (recover_jobs_spec now l s1 m HR1 (rep_nonempty _ _ _ HR Hl)) as HR2.
  set (ids := j_ID <$> filter (λ j, running j = true) l) in *.
  assert (Hd : NoDup ids).
  { eapply sublist_NoDup; [apply (jobs_NoDup m l); [by eapply rep_own|done]|].
    apply fmap_sublist, sublist_filter. }
  eexists. split_and!; [exact HR2| |done|].
  - intros _ id j'. rewrite change_jobs_lookup by done. case_decide as Hin.
    + destruct (m !! id) as [j|] eqn:Hm; simpl; [|done]. intros [= <-].
      destruct (recover_job j) as [j1|] eqn:Hj.
      * apply recover_status in Hj. apply running_status. simpl. by rewrite Hj.
      * unfold recover_job in Hj. unfold running. by destruct (status_in j [StatusRunning]).
    + intros Hm. destruct (running j') eqn:Hr; [|done]. exfalso. apply Hin.
      apply list_elem_of_fmap. exists j'. split; [by rewrite (rep_own _ _ HR _ _ Hm)|].
      apply list_elem_of_filter. split; [done|]. apply (elem_of_jobs m l); [by eapply rep_own|done|].
      by rewrite (rep_own _ _ HR _ _ Hm).
  - apply change_jobs_edges; [done|by eapply rep_own|]. intros id j j' _ Hj. by apply edge_recover.
Qed.

Lemma step_iter now (q q' : @queue St) m :
  represents (q_store q) m → worker_inv q m → serve_iter now q = Some q' →
  ∃ m', queue_ok now QIter q q' m m' ∧ ∀ j, q_worker q' = WPicked j → m !! j_ID j = Some j ∧ eligible now j = true.
Proof.
  intros HR Hw. unfold serve_iter. destruct (q_worker q) eqn:Hq; try done.
  destruct (q_stopped q) eqn:Hst.
  { intros [= <-]. exists m. split; [split_and!; try done; intros; apply edge_same|done]. }
  unfold pickNext. rewrite Hst. destruct (records_law _ m HR) as (l & s1 & -> & HR1 & _ & Hl).
  assert (Hn : none_running m) by (unfold worker_inv in Hw; rewrite Hq in Hw; auto).
  set (m' := foldl (λ m j, delete (j_ID j) m) m (pruned (q_policy q) now l)).
  assert (HR2 : represents (pruneTerminal now (q_policy q) l false s1) m').
  { apply prune_fold; [done|]. intros j [Hj _]%pruned_terminal. by eapply rep_nonempty. }
  assert (Hn' : none_running m').
  { intros id j. unfold m'. rewrite foldl_delete_lookup. case_decide; [done|]. apply Hn. }
  assert (Hed : ∀ id, job_edge now (q_policy q) (q_activeID q) QIter id (m !! id) (m' !! id)).
  { intros id. unfold m'. rewrite foldl_delete_lookup. case_decide as Hin; [|apply edge_same].
    apply list_elem_of_fmap in Hin as (j & -> & Hj). apply pruned_terminal in Hj as [Hj Ht].
    apply (elem_of_jobs m l) in Hj; [|by eapply rep_own|done]. rewrite Hj. by apply edge_pruned. }
  destruct (pick now None l) as [j|] eqn:Hp; intros [= <-]; exists m'.
  - destruct (pick_spec _ _ _ _ Hp) as ([?|[Hj He]] & _); [done|]. split; [by split_and!|].
    intros j' [= <-]. split; [|done]. by apply (elem_of_jobs m l); [eapply rep_own| |].
  - split; [|by simpl; rewrite Hq]. split_and!; try done. unfold worker_inv. simpl. by rewrite Hq.
Qed.

Lemma back_ok (q : @queue St) m : none_running m ∨ q_stopped q = true → worker_inv (q_set_worker q "" false WLoop) m.
Proof. unfold worker_inv. simpl. intros [?| ->]; done. Qed.

Lemma step_claim now (q q' : @queue St) m :
  represents (q_store q) m → worker_inv q m → run_claim now q = Some q' → ∃ m', queue_ok now QClaim q q' m m'.
Proof.
  intros HR Hw. unfold run_claim. destruct (q_worker q) as [| |j|] eqn:Hq; try done.
  unfold worker_inv in Hw. rewrite Hq in Hw. destruct Hw as [Ha Hn].
  destruct (job_ctx q) eqn:Hc.
  { destruct (canceled_law (q_store q)) as (-> & _). intros [= <-]. exists m.
    split_and!; try done; [apply back_ok; auto|intros; apply edge_same]. }
  destruct (r_update_spec now (j_ID j) (claim_job now) _ m (claim_good now) HR) as (s' & -> & HR').
  intros Hq'. exists (change_job now (claim_job now) (j_ID j) m). unfold change_job in *.
  destruct (m !! j_ID j ≫= claim_job now) as [j1|] eqn:Hj; injection Hq' as <-; simpl in Hj.
  - apply bind_Some in Hj as (j0 & Hm & Hj). split_and!; [done| |done|].
    + split; [simpl; rewrite Ha|].
      * unfold claim_job in Hj. destruct (status_in j0 _); [|done]. injection Hj as <-. simpl.
        by rewrite (rep_own _ _ HR _ _ Hm).
      * intros id x [[<- <-]|[_ Hx]]%lookup_insert_Some Hr; [|by rewrite (Hn _ _ Hx) in Hr].
        unfold claim_job in Hj. destruct (status_in j0 _); [|done]. injection Hj as <-. simpl.
        by rewrite (rep_own _ _ HR _ _ Hm).
    + intros id. destruct (decide (id = j_ID j)) as [->|Hne].
      * rewrite lookup_insert_eq, Hm. pose proof (edge_claim now (q_policy q) (q_activeID q) QClaim (j_ID j) j0 j1 eq_refl (eq_sym Ha) Hj) as He.
        by rewrite (rep_own _ _ HR _ _ Hm) in He.
      * rewrite lookup_insert_ne by done. apply edge_same.
  - split_and!; try done; [apply back_ok; auto|intros; apply edge_same].
Qed.

Lemma progress_good p : wf_job p = true → good_change (progress_job p).
Proof.
  intros Hw j j' H0 Hs. unfold progress_job in H0. destruct (status_in _ _); [|done].
  injection H0 as <-. split; [exact Hw|done].
Qed.

Lemma change_one_edges now e p act f id0 m (s : St) : represents s m →
  (∀ j j', f j = Some j' → job_edge now p act e id0 (Some j) (Some (j_with j' (j_ID j) now))) →
  ∀ id, job_edge now p act e id (m !! id) (change_job now f id0 m !! id).
Proof.
  intros HR Hf. apply (change_jobs_edges now f e p act [id0] m); [|by eapply rep_own|].
  - repeat constructor. set_solver.
  - intros id j j' ->%list_elem_of_singleton. apply Hf.
Qed.

Lemma step_progress now p (q q' : @queue St) m j :
  represents (q_store q) m → worker_inv q m → wf_job p = true → q_worker q = WRunning j → j_ID p = j_ID j →
  run_progress now p q = Some q' → ∃ m', queue_ok now (QProgress p) q q' m m'.
Proof.
  intros HR Hw Hwf Hq Hid. unfold run_progress. rewrite Hq. destruct (job_ctx q).
  { intros [= <-]. exists m. split_and!; try done. intros; apply edge_same. }
  intros [= <-].
  destruct (r_update_spec now (j_ID p) (progress_job p) _ m (progress_good p Hwf) HR) as (s' & -> & HR').
  eexists. split_and!; [exact HR'| |done|].
  - eapply worker_inv_weaken; [done|done|done|exact Hw|]. intros id x. unfold change_job.
    destruct (m !! j_ID p ≫= progress_job p) as [j1|] eqn:Hj; [|eauto].
    intros [[<- <-]|[_ Hx]]%lookup_insert_Some Hr; [|eauto].
    apply bind_Some in Hj as (j0 & Hm & Hj). exists j0. split; [done|].
    unfold progress_job in Hj. unfold running. by destruct (status_in j0 _).
  - eapply change_one_edges; [exact HR|]. intros j0 j' Hj. eapply edge_progress; [done| |done].
    unfold worker_inv in Hw. rewrite Hq in Hw. destruct Hw as [-> _]. done.
Qed.

Lemma step_finish fin jr r (q q' : @queue St) m j :
  represents (q_store q) m → worker_inv q m → wf_job jr = true → q_worker q = WRunning j → j_ID jr = j_ID j →
  fst <$> run_finish fin jr r q = Some q' → ∃ m', queue_ok fin (QFinish jr r) q q' m m'.
Proof.
  intros HR Hw Hwf Hq Hid. unfold run_finish. rewrite Hq. unfold worker_inv in Hw. rewrite Hq in Hw.
  destruct Hw as [Ha Hrun]. destruct (q_stopped q) eqn:Hst.
  { intros [= <-]. exists m. split_and!; try done; [by apply back_ok; right|intros; apply edge_same]. }
  rewrite (get_law _ _ m HR). destruct (m !! j_ID jr) as [j0|] eqn:Hm.
  2: { intros [= <-]. exists m. split_and!; try done; [|intros; apply edge_same]. apply back_ok. left.
       intros id x Hx. destruct (running x) eqn:Hr; [|done]. rewrite (Hrun _ _ Hx Hr), <- Hid in Hx. congruence. }
  set (j' := finish_job (q_policy q) fin r jr).
  assert (Hg : good_change (replace_running j')).
  { intros x y Hx _. unfold replace_running in Hx. destruct (status_in _ _); [|done]. injection Hx as <-.
    by apply finish_storable. }
  destruct (r_update_spec fin (j_ID jr) (replace_running j') _ m Hg HR) as (s' & -> & HR').
  rewrite Hm. cbn [mbind option_bind].
  assert (Hed := change_one_edges fin (QFinish jr r) (q_policy q) (q_activeID q) (replace_running j') (j_ID jr) m _ HR
    ltac:(intros x y Hx; eapply edge_finish; [done|congruence|exact Hx])).
  assert (Hnr : none_running (change_job fin (replace_running j') (j_ID jr) m)).
  { intros id x. unfold change_job. rewrite Hm. cbn [mbind option_bind]. unfold replace_running.
    destruct (status_in j0 [StatusRunning]) eqn:Hj0.
    - intros [[<- <-]|[Hne Hx]]%lookup_insert_Some.
      + apply running_status. simpl. unfold j', finish_job. destruct r as [| |msg]; simpl; try done.
        by destruct (_ <=? _).
      + destruct (running x) eqn:Hr; [|done]. destruct Hne. by rewrite (Hrun _ _ Hx Hr).
    - intros Hx. destruct (running x) eqn:Hr; [|done]. rewrite (Hrun _ _ Hx Hr), <- Hid, Hm in Hx.
      injection Hx as ->. unfold running in Hr. congruence. }
  destruct (replace_running j' j0); intros [= <-]; (eexists; split_and!; [exact HR'| |done|done]);
    apply back_ok; by left.
Qed.

(** ** Every event follows the edges *)

Lemma q_step_ok now e (q q' : @queue St) m :
  wf_event e = true → represents (q_store q) m → worker_inv q m →
  q_step sha256_hex now q e = Some q' → ∃ m', queue_ok now e q q' m m'.
Proof.
  intros Hwf HR Hw Hs. destruct (is_enqueue e) eqn:He; [by eapply step_enqueue|].
  destruct e as [| | |ids|ids|ids| | | |p|jr r|]; try done; try (by eapply step_operator); cbn [q_step] in Hs.
  - by eapply step_serve.
  - destruct (step_iter now q q' m HR Hw Hs) as (m' & ? & _). by exists m'.
  - by eapply step_claim.
  - destruct (q_worker q) as [| | |j] eqn:Hq; try done. destruct (String.eqb_spec (j_ID p) (j_ID j)); [|done].
    by eapply step_progress.
  - destruct (q_worker q) as [| | |j] eqn:Hq; try done. destruct (String.eqb_spec (j_ID jr) (j_ID j)); [|done].
    by eapply step_finish.
Qed.

(** ** One running job *)

Definition one_running m : Prop :=
  ∀ id1 id2 j1 j2, m !! id1 = Some j1 → m !! id2 = Some j2 → running j1 = true → running j2 = true → id1 = id2.

(** Only a claim makes a job run, the worker's. *)
Lemma edge_running now p act e id o j' :
  job_edge now p act e id o (Some j') → running j' = true → (∃ j, o = Some j ∧ running j = true) ∨ (e = QClaim ∧ id = act).
Proof.
  intros He Hr. apply status_one in Hr. inversion He; subst; try (by right); left.
  - eexists. split; [done|]. by apply status_one.
  - match goal with H : j_Status _ = StatusQueued |- _ => rewrite H in Hr; discriminate Hr end.
  - match goal with H : pause_job _ = _ |- _ => apply pause_status in H; simpl in Hr; rewrite H in Hr; discriminate Hr end.
  - match goal with H : resume_job _ = _ |- _ => apply resume_status in H; simpl in Hr; rewrite H in Hr; discriminate Hr end.
  - match goal with H : recover_job _ = _ |- _ => apply recover_status in H; simpl in Hr; rewrite H in Hr; discriminate Hr end.
  - eexists. split; [done|]. match goal with H : progress_job _ ?j = _ |- _ => unfold progress_job in H; fold (running j) in H; by destruct (running j) end.
  - eexists. split; [done|]. match goal with H : replace_running _ ?j = _ |- _ => unfold replace_running in H; fold (running j) in H; by destruct (running j) end.
Qed.

Lemma one_running_step now e (q q' : @queue St) m m' :
  worker_inv q m → q_step sha256_hex now q e = Some q' → queue_ok now e q q' m m' → one_running m → one_running m'.
Proof.
  intros Hw Hs (_ & _ & _ & Hed) H1 id1 id2 j1 j2 Hj1 Hj2 Hr1 Hr2.
  pose proof (Hed id1) as E1. pose proof (Hed id2) as E2. rewrite Hj1 in E1. rewrite Hj2 in E2.
  assert (Hclaim : e = QClaim → none_running m).
  { intros ->. cbn [q_step] in Hs. unfold run_claim in Hs. unfold worker_inv in Hw. destruct (q_worker q); try done. apply Hw. }
  destruct (edge_running _ _ _ _ _ _ _ E1 Hr1) as [(x1 & Hx1 & Hx1r)|[-> ->]],
    (edge_running _ _ _ _ _ _ _ E2 Hr2) as [(x2 & Hx2 & Hx2r)|[He ->]]; [by eapply H1| | |done].
  - by rewrite (Hclaim He _ _ Hx1) in Hx1r.
  - by rewrite (Hclaim eq_refl _ _ Hx2) in Hx2r.
Qed.

(** ** A canceled run stays canceled *)

Definition at_work (q : @queue St) : Prop := match q_worker q with WPicked _ | WRunning _ => True | _ => False end.
(** What only the worker and [Delete] touch. *)
Definition same_work (q q' : @queue St) : Prop := q_worker q' = q_worker q ∧ q_jobCanceled q' = q_jobCanceled q.

Lemma enqueue_links_work now target targetName mode silent links : ∀ ids (q : @queue St),
  same_work q (enqueue_links now target targetName mode silent links ids q).2.
Proof.
  induction links as [|link links IH]; intros ids q; cbn [enqueue_links]; [done|]. destruct (String.eqb _ ""); [apply IH|].
  unfold nextID. destruct (r_save _ _ _ _) as [[?|x] s']; [|done].
  match goal with |- same_work _ (enqueue_links _ _ _ _ _ _ ?i ?q).2 => pose proof (IH i q) as [H1 H2] end. by split.
Qed.
Lemma update_work now ids f (q : @queue St) : same_work q (update now ids f q).2.
Proof. unfold update. by destruct (update_ids _ _ _ _ _). Qed.
Lemma delete_work ids : ∀ r (q : @queue St),
  q_worker (delete_ids ids r q).2 = q_worker q ∧ (q_jobCanceled q = true → q_jobCanceled (delete_ids ids r q).2 = true).
Proof.
  induction ids as [|id ids IH]; intros r q; cbn [delete_ids]; [done|].
  destruct (r_get id false (q_store q)) as [[[j|]|x] s']; [|apply (IH _ (q_with_store q s'))..].
  destruct (r_remove id false s') as [[?|x] s2]; [|apply (IH _ (q_with_store q s2))].
  destruct (IH (ar_hit r) (cancelIfActive id (q_with_store q s2))) as [H1 H2]. unfold cancelIfActive in *. cbn in *.
  destruct (String.eqb _ id); cbn in *; split; auto.
Qed.

Lemma canceled_stays now e (q q' : @queue St) :
  at_work q → q_jobCanceled q = true → q_step sha256_hex now q e = Some q' →
  (q_worker q' = q_worker q ∧ q_jobCanceled q' = true) ∨ q_worker q' = WLoop.
Proof.
  intros Hw Hc Hs. assert (Hsame : same_work q q' → q_worker q' = q_worker q ∧ q_jobCanceled q' = true).
  { intros [-> ->]. done. }
  destruct e; cbn [q_step] in Hs.
  - left. injection Hs as <-. apply Hsame. unfold EnqueueLinks.
    pose proof (enqueue_links_work now target targetName mode silent links [] q) as H'.
    destruct (enqueue_links _ _ _ _ _ _ _ _) as [[ids x] q1]. cbn in *. by destruct (is_nil ids).
  - left. injection Hs as <-. apply Hsame. unfold enqueueMessage, nextID. by destruct (r_save _ _ _ _) as [[?|?] ?].
  - left. injection Hs as <-. apply Hsame. unfold EnqueueRouted. destruct (r_get _ _ _) as [[[?|]|?] ?]; try done.
    by destruct (r_save _ _ _ _) as [[?|?] ?].
  - left. injection Hs as <-. apply Hsame, update_work.
  - left. injection Hs as <-. apply Hsame. unfold Resume. pose proof (update_work now ids resume_job q) as H'. by destruct (update _ _ _ _).
  - left. injection Hs as <-. unfold Delete. destruct (delete_work (uniqueIDs ids) ar_empty q) as [-> H']. auto.
  - unfold serve_start in Hs. unfold at_work in Hw. by destruct (q_worker q).
  - unfold serve_iter in Hs. unfold at_work in Hw. by destruct (q_worker q).
  - right. unfold run_claim in Hs. destruct (q_worker q) as [| |j|]; try done. unfold job_ctx in Hs. rewrite Hc in Hs.
    cbn [orb] in Hs. destruct (canceled_law (q_store q)) as (Hu & _). rewrite Hu in Hs. by injection Hs as <-.
  - left. destruct (q_worker q) as [| | |j] eqn:Hq; try done. destruct (String.eqb _ _); [|done]. unfold run_progress in Hs.
    rewrite Hq in Hs. unfold job_ctx in Hs. rewrite Hc in Hs. injection Hs as <-. by rewrite Hq.
  - right. destruct (q_worker q) as [| | |j0] eqn:Hq; try done. destruct (String.eqb _ _); [|done]. unfold run_finish in Hs.
    rewrite Hq in Hs. destruct (q_stopped q); [by injection Hs as <-|]. destruct (r_get _ _ _) as [[[?|]|?] ?]; try by injection Hs as <-.
    by destruct (r_update _ _ _ _ _) as [[[?|]|?] ?]; injection Hs as <-.
  - left. injection Hs as <-. done.
Qed.

(** Runs of the system from a stopped queue over a repository. *)
Fixpoint q_exec (q : @queue St) (evs : list (Z * qevent)) : option (@queue St) :=
  match evs with
  | [] => Some q
  | (now, e) :: evs => if wf_event e then q' ← q_step sha256_hex now q e; q_exec q' evs else None
  end.

Lemma q_exec_ok evs : ∀ (q q' : @queue St) m,
  represents (q_store q) m → worker_inv q m → q_exec q evs = Some q' →
  ∃ m', represents (q_store q') m' ∧ worker_inv q' m' ∧ q_policy q' = q_policy q ∧ (one_running m → one_running m').
Proof.
  induction evs as [|[now e] evs IH]; simpl; intros q q' m HR Hw.
  { intros [= <-]. by exists m. }
  destruct (wf_event e) eqn:He; [|done]. destruct (q_step _ now q e) as [q1|] eqn:Hs; simpl; [|done].
  intros Hx. destruct (q_step_ok now e q q1 m He HR Hw Hs) as (m1 & Hok). pose proof Hok as (HR1 & Hw1 & Hp1 & _).
  destruct (IH q1 q' m1 HR1 Hw1 Hx) as (m' & ? & ? & ? & Hone). exists m'. split_and!; [done|done|congruence|].
  intros Hm. apply Hone. exact (one_running_step now e q q1 m m1 Hw Hs Hok Hm).
Qed.
End queue.
