(* ===== verification/ForwardQueueProps.v ===== *)
(** * Forward queue: the properties

    Instantiated at the repository of forward_repository.go where the
    statement mentions stored jobs. *)

From stdpp Require Import sorting.
From S2P Require Import Prelude Strings Storage TaskTypes Taskhub CollectionSpec TaskRepos JobRepo ForwardQueue ForwardQueueInv ForwardQueueThms.

(** ** Retry delays *)

Lemma backoff_loop_bounds maximum n : ∀ delay,
  0 ≤ delay ≤ maximum → maximum ≤ max_int64 →
  delay ≤ backoff_loop maximum delay n ≤ maximum ∧
  backoff_loop maximum delay n ≤ backoff_loop maximum delay (S n).
Proof.
  induction n as [|n IH]; intros delay Hd Hm;
    pose proof (Z.quot_rem' maximum 2); pose proof (Z.rem_bound_pos maximum 2);
    cbn [backoff_loop].
  - destruct (Z.ltb_spec maximum delay); [lia|].
    destruct (Z.leb_spec (Z.quot maximum 2) delay); [lia|].
    rewrite wrap64_id by (unfold min_int64 in *; lia).
    destruct (Z.ltb_spec maximum (delay * 2)); lia.
  - cbn [backoff_loop] in IH. destruct (Z.leb_spec (Z.quot maximum 2) delay) as [H1|H1]; [lia|].
    rewrite wrap64_id by (unfold min_int64 in *; lia).
    destruct (IH (delay * 2)) as [HA HB]; [lia|done|]. split; [lia|done].
Qed.

(** Retry delays never exceed the configured maximum, never undercut the
    first delay, never overflow, and do not shrink as attempts accumulate. *)
Theorem policy_backoff_bounds p attempts :
  0 ≤ p_base p ≤ p_maximum p → p_maximum p ≤ max_int64 →
  p_base p ≤ policy_backoff p attempts ≤ p_maximum p ∧
  policy_backoff p attempts ≤ policy_backoff p (attempts + 1).
Proof.
  intros Hb Hm. unfold policy_backoff.
  destruct (backoff_loop_bounds (p_maximum p) (Z.to_nat (attempts - 1)) (p_base p) Hb Hm) as [H1 H2].
  split; [done|]. destruct (Z.le_gt_cases attempts 0).
  - replace (Z.to_nat (attempts + 1 - 1)) with (Z.to_nat (attempts - 1)) by lia. lia.
  - replace (Z.to_nat (attempts + 1 - 1)) with (S (Z.to_nat (attempts - 1))) by lia. done.
Qed.

Lemma policy_backoff_bounds_witness :
  policy_backoff defaultPolicy 6 = 160 * second ∧
  (5 * second ≤ policy_backoff defaultPolicy 6 ≤ 300 * second ∧
   policy_backoff defaultPolicy 6 ≤ policy_backoff defaultPolicy (6 + 1)).
Proof.
  split; [vm_compute; reflexivity|].
  apply (policy_backoff_bounds defaultPolicy 6); vm_compute; intuition discriminate.
Defined.

Lemma default_tail n : (6 ≤ n)%nat → backoff_loop backoffMax backoffBase n = backoffMax.
Proof. intros Hn. do 6 (destruct n as [|n]; [lia|]). reflexivity. Qed.

(** The stand-alone [backoff] (a 64-bit shift with its wrap-around) and the
    default policy's loop give the same delay for every number of attempts. *)
Theorem backoff_default attempts :
  backoff attempts = policy_backoff defaultPolicy attempts.
Proof.
  destruct (Z.le_gt_cases attempts 0) as [H0|H0].
  { unfold backoff, policy_backoff. rewrite (proj2 (Z.ltb_lt _ _)) by lia.
    replace (Z.to_nat (attempts - 1)) with O by lia. vm_compute. reflexivity. }
  destruct (Z.le_gt_cases attempts 64) as [H1|H1].
  - assert (∀ k, (k < 64)%nat → backoff (Z.of_nat k + 1) = policy_backoff defaultPolicy (Z.of_nat k + 1)) as Hk.
    { intros k Hk. do 64 (destruct k as [|k]; [vm_compute; reflexivity|]). lia. }
    replace attempts with (Z.of_nat (Z.to_nat (attempts - 1)) + 1) by lia. apply Hk. lia.
  - unfold backoff, policy_backoff. rewrite (proj2 (Z.ltb_ge attempts 1)) by lia.
    rewrite (proj2 (Z.leb_le 64 (attempts - 1))) by lia. rewrite default_tail by lia. reflexivity.
Qed.

(** A failed run counts one attempt: the job errors for good exactly when
    the limit is reached, and otherwise waits the policy's delay; a finished
    run is done; a canceled one is queued again. *)
Theorem finish_job_outcome p fin r j :
  in_int64 (j_Attempts j + 1) = true →
  let j' := finish_job p fin r j in
  match r with
  | FwdOk => j_Status j' = StatusDone ∧ j_Done j' = j_Total j ∧ j_FinishedAt j' = Some fin ∧ j_Error j' = ""
  | FwdCanceled => j_Status j' = StatusQueued ∧ j_Attempts j' = j_Attempts j ∧ j_StartedAt j' = None
  | FwdError msg =>
      j_Attempts j' = j_Attempts j + 1 ∧ j_Error j' = msg ∧ j_StartedAt j' = None ∧
      (if p_attempts p <=? j_Attempts j + 1
       then j_Status j' = StatusError ∧ j_NextAttemptAt j' = None ∧ j_FinishedAt j' = Some fin
       else j_Status j' = StatusRetrying ∧
            j_NextAttemptAt j' = Some (fin + policy_backoff p (j_Attempts j + 1)))
  end.
Proof.
  intros Hi. destruct r as [| |msg]; simpl; [by split_and!..|].
  unfold in_int64 in Hi. rewrite wrap64_id by lia.
  by destruct (p_attempts p <=? j_Attempts j + 1); split_and!.
Qed.

Definition failed_twice : ForwardJob :=
  j_set (new_job "x" SourceWatch "" 1 "" "" 2 "" "t" "" "default" false) StatusRunning 0 2 "" (Some 7) None None.
Lemma finish_job_outcome_witness :
  j_NextAttemptAt (finish_job defaultPolicy 100 (FwdError "flood") failed_twice) = Some (100 + 20 * second) ∧
  j_Attempts (finish_job defaultPolicy 100 (FwdError "flood") failed_twice) = 3.
Proof.
  split; [vm_compute; reflexivity|].
  apply (finish_job_outcome defaultPolicy 100 (FwdError "flood") failed_twice). vm_compute. reflexivity.
Defined.

(** ** The worker *)

Definition sha : string → string := λ s, s.

Section repo.
Context (sha256_hex : string → string).

(** What [Delete] does, as an event of the system. *)
Lemma delete_step now ids (q q' : @queue store) m :
  represents (q_store q) m → q_step sha256_hex now q (QDelete ids) = Some q' →
  ∃ m', represents (q_store q') m' ∧ q_worker q' = q_worker q ∧
    (∀ id, m' !! id = if decide (id ∈ uniqueIDs ids) then None else m !! id) ∧
    (q_jobCanceled q' = true ↔ q_jobCanceled q = true ∨ q_activeID q ∈ uniqueIDs ids ∧ is_Some (m !! q_activeID q)).
Proof.
  intros HR [= <-]. unfold Delete.
  destruct (delete_ids_spec (uniqueIDs ids) ar_empty q m) as (r & q' & -> & HR' & _ & Hw & _ & _ & _ & Hc);
    [by intros x ?%uniqueIDs_nonempty|done|].
  exists (foldr delete m (uniqueIDs ids)). split_and!; try done. intros id. apply foldr_delete_lookup.
Qed.

(** C3: Single flight: in every reachable state, however callers and the
    worker interleave, at most one stored job is running (unless the store had
    several when the process began); it is the active one, which the worker is
    forwarding, or the worker was stopped.  [Delete] removes exactly the
    listed jobs and cancels the worker's run exactly when its job is one of
    those found; a canceled run stays canceled until the worker leaves it. *)
Theorem queue_single_flight (s : store) p m0 evs (q : queue) :
  represents s m0 → q_exec sha256_hex (q_init s p) evs = Some q →
  ∃ m, represents (q_store q) m ∧ (one_running m0 → one_running m) ∧
    (∀ id j, m !! id = Some j → j_Status j = StatusRunning →
       (id = q_activeID q ∧ ∃ j', q_worker q = WRunning j' ∧ j_ID j' = id) ∨
       q_worker q = WOff ∨ (q_worker q = WLoop ∧ q_stopped q = true)) ∧
    (∀ now ids q', q_step sha256_hex now q (QDelete ids) = Some q' →
       ∃ m', represents (q_store q') m' ∧ q_worker q' = q_worker q ∧
         (∀ id, m' !! id = if decide (id ∈ uniqueIDs ids) then None else m !! id) ∧
         (q_jobCanceled q' = true ↔ q_jobCanceled q = true ∨ q_activeID q ∈ uniqueIDs ids ∧ is_Some (m !! q_activeID q))) ∧
    (∀ now e q', at_work q → q_jobCanceled q = true → q_step sha256_hex now q e = Some q' →
       (q_worker q' = q_worker q ∧ q_jobCanceled q' = true) ∨ q_worker q' = WLoop).
Proof.
  intros HR Hx.
  destruct (q_exec_ok sha256_hex evs (q_init s p) q m0 HR I Hx) as (m & HRm & Hw & _ & Hone).
  exists m. split_and!; [done|done| |intros now ids q'; by apply delete_step|intros now e q'; apply canceled_stays].
  intros id j Hj Hr. apply status_one in Hr. fold (running j) in Hr. unfold worker_inv in Hw.
  destruct (q_worker q) as [| |j0|j0]; [by right; left| | |].
  - destruct (q_stopped q); [by right; right|]. by rewrite (Hw eq_refl _ _ Hj) in Hr.
  - destruct Hw as [_ Hn]. by rewrite (Hn _ _ Hj) in Hr.
  - left. destruct Hw as [-> Hn]. rewrite (Hn _ _ Hj Hr). eauto.
Qed.

(** The job graph: the status an event may give to a job of another status,
    or of the same one for progress. *)
Definition graph (e : qevent) (from to : string) : Prop :=
  match e with
  | QPause _ => from ∈ [StatusQueued; StatusRetrying] ∧ to = StatusPaused
  | QResume _ => from ∈ [StatusPaused; StatusError; StatusRetrying] ∧ to = StatusQueued
  | QServe => from = StatusRunning ∧ to = StatusQueued
  | QClaim => from ∈ [StatusQueued; StatusRetrying] ∧ to = StatusRunning
  | QProgress _ => from = StatusRunning ∧ to = StatusRunning
  | QFinish _ FwdOk => from = StatusRunning ∧ to = StatusDone
  | QFinish _ FwdCanceled => from = StatusRunning ∧ to = StatusQueued
  | QFinish _ (FwdError _) => from = StatusRunning ∧ to ∈ [StatusError; StatusRetrying]
  | _ => False
  end.
(** The jobs an event may change: the listed ones, the interrupted ones, or
    the worker's. *)
Definition concerns (q : @queue store) (e : qevent) (id : string) : Prop :=
  match e with
  | QPause ids | QResume ids | QDelete ids => id ∈ uniqueIDs ids
  | QClaim | QProgress _ | QFinish _ _ => id = q_activeID q
  | _ => True
  end.

Lemma edge_graph now (q : @queue store) e id j j' :
  job_edge now (q_policy q) (q_activeID q) e id (Some j) (Some j') →
  j' = j ∨ (concerns q e id ∧ graph e (j_Status j) (j_Status j')) ∨
  (is_enqueue e = true ∧ is_routed e = false ∧ generated now id ∧ j_Status j' = StatusQueued).
Proof.
  assert (Hin : ∀ (b : ForwardJob) l (x y : ForwardJob), (if status_in b l then Some x else None) = Some y → j_Status b ∈ l ∧ x = y).
  { intros b l x y. destruct (status_in b l) eqn:E; [|done]. intros [= ->]. by apply status_in_spec in E. }
  intros He. inversion He; subst; [by left|right..].
  - right. match goal with H : Some _ = None ∨ _ |- _ => destruct H as [?|[? ?]] end; [done|]. by split_and!.
  - left. match goal with H : pause_job _ = _ |- _ => apply Hin in H as [? <-] end. by split_and!.
  - left. match goal with H : resume_job _ = _ |- _ => apply Hin in H as [? <-] end. by split_and!.
  - left. match goal with H : recover_job _ = _ |- _ => apply Hin in H as [?%list_elem_of_singleton <-] end. by split_and!.
  - left. match goal with H : claim_job _ _ = _ |- _ => apply Hin in H as [? <-] end. by split_and!.
  - left. match goal with H : progress_job _ _ = _ |- _ => apply Hin in H as [?%list_elem_of_singleton <-] end. by split_and!.
  - left. match goal with H : replace_running _ _ = _ |- _ => apply Hin in H as [Hrun%list_elem_of_singleton <-] end.
    split; [done|]. destruct r as [| |msg]; cbn; [done..|]. split; [done|]. destruct (_ <=? _); cbn; set_solver.
Qed.

(** C13: Every event changes the stored jobs along the job graph only.  In a
    reachable state, a job that an event leaves in the store is what it was,
    or is one the event concerns and gets a status that the graph allows from
    the one it had; a job goes away only by a Delete that lists it or, when it
    is finished, by pruning; and a job appears only when it is enqueued, as
    queued.  So a finished job never runs again unless a failed one is resumed,
    and a deleted one never comes back.  Only an enqueue that generates an
    identifier, from the clock and a counter, replaces a job that has it. *)
Theorem queue_finality (s : store) p m0 evs (q q' : queue) now e :
  represents s m0 → q_exec sha256_hex (q_init s p) evs = Some q →
  wf_event e = true → q_step sha256_hex now q e = Some q' →
  ∃ m m', represents (q_store q) m ∧ represents (q_store q') m' ∧ ∀ id,
    match m !! id, m' !! id with
    | None, None => True
    | None, Some j' => is_enqueue e = true ∧ j_Status j' = StatusQueued
    | Some j, None => concerns q e id ∧ ((∃ ids, e = QDelete ids) ∨ (e = QIter ∧ Terminal j = true))
    | Some j, Some j' =>
        j' = j ∨ (concerns q e id ∧ graph e (j_Status j) (j_Status j')) ∨
        (is_enqueue e = true ∧ is_routed e = false ∧ generated now id ∧ j_Status j' = StatusQueued)
    end.
Proof.
  intros HR Hx Hwf Hs. destruct (q_exec_ok sha256_hex evs (q_init s p) q m0 HR I Hx) as (m & HRm & Hw & _ & _).
  destruct (q_step_ok sha256_hex now e q q' m Hwf HRm Hw Hs) as (m' & HR' & _ & _ & Hed).
  exists m, m'. split_and!; [done|done|]. intros id. specialize (Hed id).
  destruct (m !! id) as [j|], (m' !! id) as [j'|]; [by apply edge_graph| | |done].
  - inversion Hed; subst; [split; [done|left; eauto]|split; [done|by right]].
  - inversion Hed; subst. done.
Qed.

(** Routing the same message to the same destination twice keeps the job
    of the first call, whatever state it has reached, and returns its ID. *)
Theorem routed_idempotent now source msg grouped origin d (q : @queue store) m j :
  represents (q_store q) m →
  m !! routed_id sha256_hex source msg grouped (fd_Target d) = Some j →
  EnqueueRouted sha256_hex now source msg grouped origin d q =
    (Ok (routed_id sha256_hex source msg grouped (fd_Target d)), q).
Proof.
  intros HR Hj. unfold EnqueueRouted. rewrite (get_law _ _ m HR), Hj. by destruct q.
Qed.
End repo.

(** [pickNext] returns an eligible job (queued or retrying, past its
    backoff) that is the oldest of the eligible ones, and nothing only when no
    job is eligible; the pruning it does first removes finished jobs only. *)
Theorem pick_next_oldest now (q : @queue store) m :
  represents (q_store q) m → q_stopped q = false →
  ∃ q' m', (pickNext now q).2 = q' ∧ represents (q_store q') m' ∧
    match (pickNext now q).1 with
    | Some j => m !! j_ID j = Some j ∧ eligible now j = true ∧
        ∀ id x, m !! id = Some x → eligible now x = true → j_CreatedAt j ≤ j_CreatedAt x
    | None => ∀ id x, m !! id = Some x → eligible now x = false
    end ∧
    ∀ id, m' !! id = m !! id ∨ m' !! id = None ∧ ∃ x, m !! id = Some x ∧ Terminal x = true.
Proof.
  intros HR Hst. unfold pickNext. rewrite Hst.
  destruct (records_law _ m HR) as (l & s1 & -> & HR1 & _ & Hl). cbn [fst snd].
  assert (Hin : ∀ id x, m !! id = Some x → x ∈ l).
  { intros id x Hx. apply (elem_of_jobs m l); [by eapply rep_own|done|]. by rewrite (rep_own _ _ HR _ _ Hx). }
  eexists _, (foldl (λ m j, delete (j_ID j) m) m (pruned (q_policy q) now l)).
  split; [done|]. split; [|split].
  - apply prune_fold; [done|]. intros j [Hj _]%pruned_terminal. by eapply rep_nonempty.
  - destruct (pick now None l) as [j|] eqn:Hp.
    + destruct (pick_spec _ _ _ _ Hp) as ([?|[Hj He]] & _ & Hold); [done|]. split_and!; [|done|].
      * by apply (elem_of_jobs m l); [eapply rep_own| |].
      * intros id x Hx. apply Hold. by eapply Hin.
    + destruct (pick_none _ _ _ Hp) as [_ Hn]. intros id x Hx. apply Hn. by eapply Hin.
  - intros id. rewrite foldl_delete_lookup. case_decide as Hd; [|by left]. right. split; [done|].
    apply list_elem_of_fmap in Hd as (x & -> & Hx). apply pruned_terminal in Hx as [Hx Ht].
    exists x. split; [|done]. by apply (elem_of_jobs m l); [eapply rep_own| |].
Qed.

Lemma kept_split (P : ForwardJob → Prop) `{∀ j, Decision (P j)} (jobs : list ForwardJob) :
  filter (λ j, Terminal j = true ∧ P j) jobs = filter P (filter (λ j, Terminal j = true) jobs).
Proof.
  induction jobs as [|j jobs IH]; [done|]. destruct (decide (Terminal j = true)) as [Ht|Ht].
  - rewrite (filter_cons_True (λ j, Terminal j = true)) by done. destruct (decide (P j)).
    + rewrite !filter_cons_True by done. by rewrite IH.
    + rewrite !filter_cons_False by naive_solver. done.
  - by rewrite !filter_cons_False by naive_solver.
Qed.

Lemma filter_none (P : ForwardJob → Prop) `{∀ j, Decision (P j)} (l : list ForwardJob) :
  (∀ x, x ∈ l → ¬ P x) → filter P l = [].
Proof.
  induction l as [|x l IH]; intros Hn; [done|]. rewrite filter_cons_False by (apply Hn; left).
  apply IH. intros y Hy. apply Hn. by right.
Qed.

(** After [pickNext]'s pruning at most [history] finished jobs are kept,
    all of them finished within the retention period. *)
Theorem prune_bounds p now jobs :
  0 ≤ p_history p →
  let kept := filter (λ j, Terminal j = true ∧ j_ID j ∉ (j_ID <$> pruned p now jobs)) jobs in
  Z.of_nat (length kept) ≤ p_history p ∧
  ∀ j, j ∈ kept → time_sub now (terminalTime j) ≤ p_retention p.
Proof.
  intros Hh kept. unfold kept. rewrite kept_split. unfold pruned.
  set (l := filter (λ j, Terminal j = true) jobs). set (t := merge_sort term_le l).
  assert (Ht : l ≡ₚ t) by (symmetry; apply merge_sort_Permutation). rewrite Ht.
  set (o := (length t - Z.to_nat (p_history p))%nat).
  set (late := filter (λ j, p_retention p < time_sub now (terminalTime j)) (drop o t)).
  assert (Heq : filter (λ j, j_ID j ∉ (j_ID <$> (take o t ++ late)%list)) t =
    filter (λ j, j_ID j ∉ (j_ID <$> (take o t ++ late)%list)) (drop o t)).
  { trans (filter (λ j, j_ID j ∉ (j_ID <$> (take o t ++ late)%list)) (take o t ++ drop o t)%list);
      [by rewrite take_drop|]. rewrite filter_app, filter_none; [done|].
    intros x Hx Hn. apply Hn. rewrite fmap_app. apply elem_of_app. left. apply list_elem_of_fmap. eauto. }
  rewrite Heq. split.
  - etrans; [apply inj_le, length_filter|]. rewrite length_drop. unfold o. lia.
  - intros j. rewrite Ht, Heq, list_elem_of_filter. intros [Hn Hj].
    destruct (Z.le_gt_cases (time_sub now (terminalTime j)) (p_retention p)) as [?|Hlate]; [done|].
    destruct Hn. rewrite fmap_app. apply elem_of_app. right. apply list_elem_of_fmap. exists j.
    split; [done|]. unfold late. apply list_elem_of_filter. split; [lia|done].
Qed.

(** [Delete] removes exactly the listed jobs and cancels the running job's
    context exactly when it is one of those found. *)
Theorem delete_removes ids (q : @queue store) m :
  represents (q_store q) m →
  ∃ r q' m', Delete ids q = (r, q') ∧ represents (q_store q') m' ∧ ar_Errors r = [] ∧
    (∀ id, m' !! id = if decide (id ∈ uniqueIDs ids) then None else m !! id) ∧
    (q_jobCanceled q' = true ↔
     q_jobCanceled q = true ∨ (q_activeID q ∈ uniqueIDs ids ∧ is_Some (m !! q_activeID q))).
Proof.
  intros HR. unfold Delete.
  destruct (delete_ids_spec (uniqueIDs ids) ar_empty q m) as (r & q' & -> & HR' & He & _ & _ & _ & _ & Hc);
    [by intros x ?%uniqueIDs_nonempty|done|].
  exists r, q', (foldr delete m (uniqueIDs ids)). split_and!; try done.
  intros id. apply foldr_delete_lookup.
Qed.

(** [Pause] stops the listed jobs that wait (queued or retrying) and
    [Resume] requeues, with a fresh attempt count, the listed ones that are
    paused, retrying or failed; every other job, the running one included,
    is left as it is. *)
Theorem pause_resume_effect (resume : bool) now ids (q : @queue store) m :
  represents (q_store q) m →
  ∃ m', represents (q_store (if resume then Resume now ids q else Pause now ids q).2) m' ∧
    ∀ id, m' !! id = (λ j,
      if bool_decide (id ∈ uniqueIDs ids) then
        if resume then
          if status_in j [StatusPaused; StatusError; StatusRetrying]
          then j_with (j_set j StatusQueued (j_Done j) 0 "" (j_StartedAt j) None None) id now else j
        else
          if status_in j [StatusQueued; StatusRetrying]
          then j_with (j_set j StatusPaused (j_Done j) (j_Attempts j) (j_Error j) (j_StartedAt j)
                         (j_FinishedAt j) None) id now else j
      else j) <$> m !! id.
Proof.
  intros HR.
  assert (Hgen : ∀ f, good_change f → ∃ m', represents (q_store (update now ids f q).2) m' ∧
    ∀ id, m' !! id = (λ j, if bool_decide (id ∈ uniqueIDs ids)
                          then match f j with Some j' => j_with j' id now | None => j end else j) <$> m !! id).
  { intros f Hf. destruct (update_spec now f ids q m Hf HR) as (r & s' & -> & HR' & _).
    eexists. split; [exact HR'|]. intros id. rewrite change_jobs_lookup by apply uniqueIDs_NoDup.
    case_bool_decide; [rewrite decide_True by done|rewrite decide_False by done]; by destruct (m !! id). }
  destruct resume.
  - destruct (Hgen resume_job resume_good) as (m' & HR' & Hm'). exists m'. split.
    { unfold Resume. by destruct (update now ids resume_job q). }
    intros id. rewrite Hm'. destruct (m !! id) as [j|]; [|done].
    cbn [fmap option_fmap option_map]. f_equal.
    case_bool_decide; [|done]. unfold resume_job. by destruct (status_in j _).
  - destruct (Hgen pause_job pause_good) as (m' & HR' & Hm'). exists m'. split; [exact HR'|].
    intros id. rewrite Hm'. destruct (m !! id) as [j|]; [|done].
    cbn [fmap option_fmap option_map]. f_equal.
    case_bool_decide; [|done]. unfold pause_job. by destruct (status_in j _).
Qed.

(** ** The repository refines a finite map *)

Inductive repo_cmd :=
  | CSave (now : Z) (j : ForwardJob)
  | CUpdate (now : Z) (id : string) (f : ForwardJob → option ForwardJob)
  | CRemove (id : string).
Definition cmd_ok (c : repo_cmd) : Prop :=
  match c with
  | CSave _ j => TrimSpace (j_ID j) ≠ "" ∧ wf_job j = true
  | CUpdate _ _ f => good_change f
  | CRemove id => id ≠ ""
  end.
(** The commands on the map, and on the stored collection. *)
Definition abs_cmd (m : gmap string ForwardJob) (c : repo_cmd) : gmap string ForwardJob :=
  match c with
  | CSave now j => <[j_ID j := j_defaults j now]> m
  | CUpdate now id f => change_job now f id m
  | CRemove id => delete id m
  end.
Definition conc_cmd (s : store) (c : repo_cmd) : store :=
  match c with
  | CSave now j => (FSave (NewForwardRepository true) now j false s).2
  | CUpdate now id f => (FUpdate (NewForwardRepository true) now id f false s).2
  | CRemove id => (FRemove (NewForwardRepository true) id false s).2
  end.

Lemma cmd_refines c s m : cmd_ok c → represents s m → represents (conc_cmd s c) (abs_cmd m c).
Proof.
  intros Hc HR. destruct c as [now j|now id f|id]; unfold conc_cmd; cbn [NewForwardRepository].
  - destruct Hc as [? ?]. by destruct (impl_save now j s m HR) as (s' & -> & ?).
  - destruct (r_update_spec now id f s m Hc HR) as (s' & Hs & ?).
    change (r_update now id f false s) with (FUpdate (Some Forward) now id f false s) in Hs. by rewrite Hs.
  - by destruct (impl_remove id s m HR Hc) as (s' & -> & ?).
Qed.

(** C28: The forward-job repository (an index plus one JSON record per job, in
    a transactional store) refines a finite map from IDs to jobs: after any
    sequence of saves, updates and removals, [Get] and [Records] answer from
    that map, the records sorted by creation time and then ID. *)
Theorem repository_refines cmds :
  Forall cmd_ok cmds →
  let s := foldl conc_cmd ∅ cmds in
  let m := foldl abs_cmd ∅ cmds in
  (∀ id, (FGet (NewForwardRepository true) id false s).1 = Ok (m !! id)) ∧
  ∃ l, (FRecords (NewForwardRepository true) false s).1 = Ok l ∧
    l ≡ₚ (map_to_list m).*2 ∧ StronglySorted job_le l.
Proof.
  intros Hall s m.
  assert (HR : represents s m).
  { subst s m. pose proof Rep_empty as HR. revert HR. generalize (∅ : store), (∅ : gmap string ForwardJob).
    induction Hall as [|c cmds Hc _ IH]; intros s m HR; simpl; [done|]. apply IH. by apply cmd_refines. }
  clearbody s m. cbn [NewForwardRepository]. split.
  - intros id. by rewrite (impl_get id s m HR).
  - destruct (impl_records s m HR) as (l & s' & Hl & _ & Hsort & Hperm).
    exists l. rewrite Hl. split; [reflexivity|split; assumption].
Qed.

(** ** Witnesses *)

Definition demo_peer : MessagePeer := mkPeer "channel" 42.
Definition demo_dest (t : string) : ForwardDestination := mkDest t "rule" "default" false.
Definition demo_events : list (Z * qevent) :=
  [(10, QEnqueueRouted demo_peer 5 0 "chan" (demo_dest "a"));
   (20, QEnqueueRouted demo_peer 5 0 "chan" (demo_dest "b"));
   (30, QServe); (40, QIter); (50, QClaim)].
Definition demo_queue (evs : list (Z * qevent)) : @queue store :=
  default (q_init ∅ defaultPolicy) (q_exec sha (q_init ∅ defaultPolicy) evs).
Lemma listed_map (m : gmap string ForwardJob) l :
  (∀ id x, m !! id = Some x → j_ID x = id) → l ≡ₚ (map_to_list m).*2 →
  list_to_map ((λ j, (j_ID j, j)) <$> l) = m.
Proof.
  intros Hid Hp. apply map_eq. intros id. destruct (m !! id) as [j|] eqn:Hm.
  - apply elem_of_list_to_map.
    + rewrite <- list_fmap_compose. by apply (jobs_NoDup m l).
    + apply list_elem_of_fmap. exists j. rewrite (Hid _ _ Hm). split; [done|].
      apply (elem_of_jobs m l); [done|done|]. by rewrite (Hid _ _ Hm).
  - apply not_elem_of_list_to_map. rewrite <- list_fmap_compose. intros (j & -> & Hj)%list_elem_of_fmap.
    apply (elem_of_jobs m l) in Hj; [|done|done]. simpl in Hm. congruence.
Qed.

Definition listed (s : store) : gmap string ForwardJob :=
  match (FRecords (Some Forward) false s).1 with
  | Ok l => list_to_map ((λ j, (j_ID j, j)) <$> l)
  | Err _ => ∅
  end.
Lemma listed_rep s m : represents s m → listed s = m.
Proof.
  intros HR. unfold listed. destruct (impl_records s m HR) as (l & s' & -> & _ & _ & Hp). cbn [fst].
  apply listed_map; [by eapply rep_own|done].
Qed.

Definition demo_jobs : gmap string ForwardJob := listed (q_store (demo_queue demo_events)).

Lemma demo_exec : q_exec sha (q_init ∅ defaultPolicy) demo_events = Some (demo_queue demo_events).
Proof. vm_compute. reflexivity. Qed.

Lemma demo_active_listed : q_activeID (demo_queue demo_events) ∈ uniqueIDs [q_activeID (demo_queue demo_events)].
Proof. vm_compute. left. Qed.

Lemma demo_represents : represents (q_store (demo_queue demo_events)) demo_jobs ∧
  worker_inv (demo_queue demo_events) demo_jobs.
Proof.
  destruct (q_exec_ok sha demo_events (q_init ∅ defaultPolicy) _ ∅ Rep_empty I demo_exec) as (m & HR & Hw & _).
  unfold demo_jobs. rewrite (listed_rep _ _ HR). exact (conj HR Hw).
Qed.

Lemma queue_single_flight_witness :
  ∃ m, represents (q_store (demo_queue demo_events)) m ∧ one_running m ∧
    ∃ q' m', q_step sha 60 (demo_queue demo_events) (QDelete [q_activeID (demo_queue demo_events)]) = Some q' ∧
      represents (q_store q') m' ∧ m' !! q_activeID (demo_queue demo_events) = None.
Proof.
  destruct (queue_single_flight sha ∅ defaultPolicy ∅ demo_events (demo_queue demo_events) Rep_empty demo_exec)
    as (m & HR & Hone & _ & Hdel & _).
  exists m. split; [exact HR|]. split; [apply Hone; intros id1 id2 j1 j2 H; rewrite lookup_empty in H; discriminate H|].
  destruct (Hdel 60 [q_activeID (demo_queue demo_events)] _ eq_refl) as (m' & HR' & _ & Hm' & _).
  eexists _, m'. split; [reflexivity|]. split; [exact HR'|]. rewrite Hm', decide_True; [reflexivity|apply demo_active_listed].
Defined.

Definition demo_job_a : ForwardJob :=
  new_job (routed_id sha demo_peer 5 0 "a") SourceWatch "" 42 "channel" "rule" 5 "chan" "a" "" "default" false.
Definition demo_finish : qevent := QFinish demo_job_a FwdOk.
Definition demo_finished : @queue store :=
  default (demo_queue []) (q_step sha 60 (demo_queue demo_events) demo_finish).
Lemma demo_finish_step : q_step sha 60 (demo_queue demo_events) demo_finish = Some demo_finished.
Proof. vm_compute. reflexivity. Qed.

Lemma queue_finality_witness :
  ∃ m m', represents (q_store (demo_queue demo_events)) m ∧ represents (q_store demo_finished) m' ∧
    (∀ id, m !! id = None → m' !! id = None) ∧
    ∀ id j j', m !! id = Some j → m' !! id = Some j' → j' = j ∨ (j_Status j = StatusRunning ∧ j_Status j' = StatusDone).
Proof.
  destruct (queue_finality sha ∅ defaultPolicy ∅ demo_events (demo_queue demo_events) demo_finished 60 demo_finish
    Rep_empty demo_exec eq_refl demo_finish_step) as (m & m' & HR & HR' & Hg).
  exists m, m'. split; [exact HR|]. split; [exact HR'|]. split.
  - intros id Hm. specialize (Hg id). rewrite Hm in Hg. destruct (m' !! id); [|reflexivity]. destruct Hg as [H _]. discriminate H.
  - intros id j j' Hj Hj'. specialize (Hg id). rewrite Hj, Hj' in Hg. destruct Hg as [->|[[_ H]|[H _]]]; [by left|by right|discriminate H].
Defined.

Lemma routed_idempotent_witness :
  EnqueueRouted sha 70 demo_peer 5 0 "chan" (demo_dest "b") (demo_queue demo_events) =
    (Ok (routed_id sha demo_peer 5 0 "b"), demo_queue demo_events).
Proof.
  eapply (routed_idempotent sha 70 demo_peer 5 0 "chan" (demo_dest "b") _ demo_jobs);
    [exact (proj1 demo_represents)|vm_compute; reflexivity].
Defined.

Lemma pick_next_oldest_witness :
  ∃ q' m', (pickNext 60 (demo_queue demo_events)).2 = q' ∧ represents (q_store q') m' ∧
    ∀ id, m' !! id = demo_jobs !! id ∨ m' !! id = None ∧ ∃ x, demo_jobs !! id = Some x ∧ Terminal x = true.
Proof.
  destruct (pick_next_oldest 60 (demo_queue demo_events) demo_jobs) as (q' & m' & H1 & H2 & _ & H3);
    [exact (proj1 demo_represents)|vm_compute; reflexivity|]. exists q', m'. split; [exact H1|split; [exact H2|exact H3]].
Defined.

Definition old_job (id : string) (t : Z) : ForwardJob :=
  j_set (new_job id SourceWatch "" 1 "" "" 2 "" "t" "" "default" false) StatusDone 1 0 "" None (Some t) None.
Lemma prune_bounds_witness :
  let p := mkPolicy 1 1 1 hour 3 1 in
  let jobs := [old_job "a" 5; old_job "b" (3 * hour); old_job "c" (2 * hour)] in
  filter (λ j, Terminal j = true ∧ j_ID j ∉ (j_ID <$> pruned p (3 * hour) jobs)) jobs = [old_job "b" (3 * hour)] ∧
  Z.of_nat (length (filter (λ j, Terminal j = true ∧ j_ID j ∉ (j_ID <$> pruned p (3 * hour) jobs)) jobs)) ≤ 1.
Proof.
  intros p jobs. split; [vm_compute; reflexivity|].
  apply (prune_bounds p (3 * hour) jobs). vm_compute. discriminate.
Defined.

Lemma delete_removes_witness :
  ∃ r q' m', Delete [q_activeID (demo_queue demo_events)] (demo_queue demo_events) = (r, q') ∧
    represents (q_store q') m' ∧ m' !! q_activeID (demo_queue demo_events) = None.
Proof.
  destruct (delete_removes [q_activeID (demo_queue demo_events)] (demo_queue demo_events) demo_jobs)
    as (r & q' & m' & H1 & H2 & _ & H3 & _); [exact (proj1 demo_represents)|].
  exists r, q', m'. split; [exact H1|split; [exact H2|]]. rewrite H3. vm_compute. reflexivity.
Defined.

Lemma pause_resume_effect_witness :
  ∃ m', represents (q_store (Pause 60 [routed_id sha demo_peer 5 0 "b"] (demo_queue demo_events)).2) m' ∧
    (j_Status <$> m' !! routed_id sha demo_peer 5 0 "b") = Some StatusPaused.
Proof.
  destruct (pause_resume_effect false 60 [routed_id sha demo_peer 5 0 "b"] (demo_queue demo_events) demo_jobs)
    as (m' & H1 & H2); [exact (proj1 demo_represents)|].
  exists m'. split; [exact H1|]. rewrite H2. vm_compute. reflexivity.
Defined.

Lemma repository_refines_witness :
  let cmds := [CSave 10 demo_job_a; CUpdate 20 (j_ID demo_job_a) pause_job] in
  (FGet (NewForwardRepository true) (j_ID demo_job_a) false (foldl conc_cmd ∅ cmds)).1 =
    Ok (foldl abs_cmd ∅ cmds !! j_ID demo_job_a) ∧
  (j_Status <$> foldl abs_cmd ∅ cmds !! j_ID demo_job_a) = Some StatusPaused.
Proof.
  split; [|vm_compute; reflexivity].
  apply (repository_refines [CSave 10 demo_job_a; CUpdate 20 (j_ID demo_job_a) pause_job]).
  constructor; [split; [vm_compute; discriminate|vm_compute; reflexivity]|].
  constructor; [apply pause_good|constructor].
Defined.
