(* ===== verification/TaskhubProps.v ===== *)
(** * Task repositories: the properties *)

From S2P Require Import Prelude Strings Storage TaskTypes Taskhub CollectionSpec MutationSpec TaskRepos.

Definition hub_collections : list Collection := [Forward; Links; Aria2; Local].

Lemma hub_wf c : c ∈ hub_collections → Cwf c.
Proof.
  unfold hub_collections. rewrite !elem_of_cons, elem_of_nil.
  intros [->|[->|[->|[->|[]]]]]; [apply Forward_wf|apply Links_wf|apply Aria2_wf|apply Local_wf].
Qed.

Lemma hub_scopes c1 c2 id :
  c1 ∈ hub_collections → c2 ∈ hub_collections → c1 ≠ c2 →
  in_scope (c_scope c1) (key c2 id) = false ∧ in_scope (c_scope c1) (c_indexKey c2) = false.
Proof.
  unfold hub_collections. rewrite !elem_of_cons, !elem_of_nil.
  intros [->|[->|[->|[->|[]]]]] [->|[->|[->|[->|[]]]]] Hne; try done; split; reflexivity.
Qed.

(** Datasets are exclusive: whatever is registered, a key belongs to at
    most one dataset, and only that dataset's owner gets a writer for it. *)
Theorem datasets_exclusive r n1 n2 d1 d2 owner scope k :
  registered r → r_datasets r !! n1 = Some d1 → r_datasets r !! n2 = Some d2 →
  contains d1 k = true → contains d2 k = true →
  n1 = n2 ∧ (Writer r n1 owner = Ok scope → owner = ds_Writer d1 ∧ scope = [d1]).
Proof.
  intros Hr H1 H2 Hk1 Hk2. destruct (registered_inv r Hr) as [_ Hex]. split; [by eapply Hex|].
  unfold Writer, WriterSet. simpl. rewrite H1.
  destruct (String.eqb_spec owner (ds_Writer d1)); simpl; [|done]. by intros [= <-].
Qed.

Definition dataset_a := mkDataset "a" "w" "a." [].
Definition dataset_b := mkDataset "b" "v" "" ["key"].
Definition one_dataset : Registry := ok_or NewRegistry (Register NewRegistry dataset_a).
Definition two_datasets : Registry := ok_or NewRegistry (Register one_dataset dataset_b).
Lemma datasets_exclusive_witness :
  "b"%string = "b"%string ∧ (Writer two_datasets "b" "v" = Ok [dataset_b] →
    "v"%string = "v"%string ∧ [dataset_b] = [dataset_b]).
Proof.
  apply (datasets_exclusive two_datasets "b" "b" dataset_b dataset_b
    "v" [dataset_b] "key"); try (vm_compute; reflexivity).
  apply (registered_add one_dataset dataset_b); [|vm_compute; reflexivity].
  apply (registered_add NewRegistry dataset_a); [apply registered_new|vm_compute; reflexivity].
Defined.

(** C29: The four task collections never touch each other's data: whatever an
    operation on one of them does, with whatever callback, every record and
    the index of the others are unchanged; and an operation that fails leaves
    the whole store as it was. *)
Theorem collections_isolated c1 c2 o canceled s :
  c1 ∈ hub_collections → c2 ∈ hub_collections → c1 ≠ c2 →
  (∀ id, (run_op c1 o canceled s).2 !! key c2 id = s !! key c2 id) ∧
  (run_op c1 o canceled s).2 !! c_indexKey c2 = s !! c_indexKey c2 ∧
  (∀ x, (run_op c1 o canceled s).1 = Err x → (run_op c1 o canceled s).2 = s).
Proof.
  intros H1 H2 Hne. split_and!.
  - intros id. apply run_op_confined. by apply hub_scopes.
  - apply run_op_confined. by apply (hub_scopes c1 c2 "").
  - intros x. apply run_op_atomic.
Qed.

Definition sample_store : store :=
  (Put Forward "j" (VJson (JObj ∅)) 5 false (Put Links "l" (VJson (JObj ∅)) 6 false ∅).2).2.
Lemma collections_isolated_witness :
  (∀ id, (run_op Links (OpRemove "l") false sample_store).2 !! key Forward id = sample_store !! key Forward id) ∧
  (run_op Links (OpRemove "l") false sample_store).2 !! c_indexKey Forward = sample_store !! c_indexKey Forward ∧
  (∀ x, (run_op Links (OpRemove "l") false sample_store).1 = Err x →
        (run_op Links (OpRemove "l") false sample_store).2 = sample_store).
Proof.
  apply (collections_isolated Links Forward (OpRemove "l") false sample_store).
  - right. left.
  - left.
  - intros H. apply (f_equal c_prefix) in H. vm_compute in H. discriminate H.
Defined.

(** A record written with [Put] is what [Get] returns and what [Records]
    lists under its ID, next to the records already there; after [Remove] it
    is gone and the others stay. *)
Theorem put_get_remove c id data t s idx :
  c ∈ hub_collections → (∀ i, no_clash c i ∨ idx !! i = None) → no_clash c id →
  id ≠ "" → json_valid data = true → index_of c s = Ok idx →
  let s1 := (Put c id data t false s).2 in
  (CGet c id false s1).1 = Ok data ∧
  (Records c false s1).1 = Ok (<[id := data]> (contents c s idx)) ∧
  (Records c false (Remove c id false s1).2).1 = Ok (delete id (contents c s idx)).
Proof.
  intros Hc Hcl Hid Hne Hv Hi s1. pose proof (hub_wf c Hc) as Hwf.
  assert (Hs1 : s1 = <[c_indexKey c := VJson (JObj (JTime <$> <[id := t]> idx))]> (<[key c id := data]> s)).
  { subst s1. by rewrite (Put_ok c Hwf _ _ _ s idx). }
  assert (Hi1 : index_of c s1 = Ok (<[id := t]> idx)) by (rewrite Hs1; apply index_of_save).
  assert (Hk : ∀ i, no_clash c i → i ≠ id → s1 !! key c i = s !! key c i).
  { intros i Hci Hn. rewrite Hs1, lookup_insert_ne by (by apply not_eq_sym).
    rewrite lookup_insert_ne; [done|]. intros H%key_inj. done. }
  assert (Hkid : s1 !! key c id = Some data).
  { rewrite Hs1, lookup_insert_ne by (by apply not_eq_sym). apply lookup_insert_eq. }
  split_and!.
  - rewrite (CGet_ok c Hwf). by rewrite Hkid.
  - destruct (Records_ok c Hwf s1 (<[id := t]> idx) Hi1) as (s2 & -> & _).
    { intros i. destruct (decide (i = id)) as [->|Hn]; [by left|]. rewrite lookup_insert_ne by done. auto. }
    cbn [fst]. f_equal. apply map_eq. intros i. rewrite contents_lookup.
    destruct (decide (i = id)) as [->|Hn]; [by rewrite !lookup_insert_eq, Hkid|].
    rewrite !lookup_insert_ne, contents_lookup by done.
    destruct (idx !! i) as [ti|] eqn:Hti; [|done]. simpl. apply Hk; [|done]. by destruct (Hcl i) as [?|?]; [|congruence].
  - rewrite (Remove_ok c Hwf id s1 _ Hi1). cbn [snd].
    assert (Hdel : delete id (<[id := t]> idx) = delete id idx) by apply delete_insert_eq.
    rewrite Hdel. set (s2 := <[c_indexKey c := _]> _).
    destruct (Records_ok c Hwf s2 (delete id idx)) as (s3 & -> & _); [apply index_of_save| |].
    { intros i. destruct (decide (i = id)) as [->|Hn]; [by left|]. rewrite lookup_delete_ne by done. auto. }
    cbn [fst]. f_equal. apply map_eq. intros i. rewrite contents_lookup.
    destruct (decide (i = id)) as [->|Hn]; [by rewrite !lookup_delete_eq|].
    rewrite !lookup_delete_ne, contents_lookup by done.
    destruct (idx !! i) as [ti|] eqn:Hti; [|done]. simpl. unfold s2.
    destruct (Hcl i) as [Hci|?]; [|congruence].
    rewrite lookup_insert_ne by (by apply not_eq_sym). rewrite lookup_delete_ne by (intros H%key_inj; done).
    by apply Hk.
Qed.

Lemma put_get_remove_witness :
  (CGet Local "d" false (Put Local "d" (VJson JNull) 9 false sample_store).2).1 = Ok (VJson JNull) ∧
  (Records Local false (Put Local "d" (VJson JNull) 9 false sample_store).2).1 =
    Ok (<["d" := VJson JNull]> (contents Local sample_store ∅)) ∧
  (Records Local false (Remove Local "d" false (Put Local "d" (VJson JNull) 9 false sample_store).2).2).1 =
    Ok (delete "d" (contents Local sample_store ∅)).
Proof.
  apply (put_get_remove Local "d" (VJson JNull) 9 sample_store ∅).
  - right. right. right. left.
  - intros i. left. apply local_no_clash.
  - apply local_no_clash.
  - discriminate.
  - reflexivity.
  - vm_compute. reflexivity.
Defined.
