(* ===== verification/RetentionProps.v ===== *)
(** * Submission, deletion and maintenance: the properties

    [CreateLinked], [LinkRepository.Remove] and the maintenance guard, which
    run across collections in one unscoped transaction. *)

From S2P Require Import Prelude Strings Storage TaskTypes Taskhub CollectionSpec MutationSpec TaskRepos TaskhubProps.

(** ** Unscoped transactions *)

Definition root : env := mkEnv false [].
Lemma root_get k s : try_get (tx_get k) root s = Ok (s !! k, s).
Proof.
  unfold try_get, tx_get, mbind, tx_bind, check, tx_ctx, prim, root. cbn [e_scopes e_canceled forallb].
  by destruct (s !! k).
Qed.
Lemma root_set k v s : tx_set k v root s = Ok (tt, <[k := v]> s).
Proof. done. Qed.
Lemma root_delete k s : tx_delete k root s = Ok (tt, delete k s).
Proof. done. Qed.
Lemma root_index c s :
  index c root s = match index_of c s with Ok idx => Ok (idx, s) | Err x => Err x end.
Proof.
  unfold index, index_of. rewrite (bind_ok _ _ _ _ _ _ (root_get _ s)).
  destruct (s !! c_indexKey c); [|done]. unfold lift. by destruct (decode_index _).
Qed.
Lemma root_save c idx s :
  saveIndex c idx root s = Ok (tt, <[c_indexKey c := VJson (JObj (JTime <$> idx))]> s).
Proof. done. Qed.
Lemma Update_root {A} (m : tx A) s :
  Update m false s = match m root s with Ok (a, s') => (Ok a, s') | Err x => (Err x, s) end.
Proof. done. Qed.

(** ** Submitting a linked download *)

Section submit.
Context (sha256_hex : value → string).

(** The identity check of a submission. *)
Definition source_verdict (s : store) (source : ObservedLink) : res err unit :=
  match s !! (LinkPrefix +:+ p_ID (ol_Task source)) with
  | None => Err (ErrMsg "download source was deleted before submission")
  | Some data =>
      if String.eqb (linkVersion sha256_hex data) (ol_Version source) then Ok tt
      else Err (ErrMsg "download source changed before submission")
  end.

Lemma CreateLinked_run now source rec s :
  p_ID (ol_Task source) ≠ "" → l_TaskID rec = p_ID (ol_Task source) → ol_Version source ≠ "" → l_ID rec ≠ "" →
  CreateLinked sha256_hex true now source rec false s =
  match source_verdict s source with
  | Err x => (Err x, s)
  | Ok _ =>
      match s !! key Local (l_ID rec) with
      | Some data => (decodeLocalRecord (l_ID rec) data, s)
      | None =>
          match index_of Local s with
          | Err x => (Err x, s)
          | Ok idx =>
              let r := l_defaults rec now 1 in
              (Ok r, <[LocalIndex := VJson (JObj (JTime <$> <[l_ID rec := l_CreatedAt r]> idx))]>
                       (<[key Local (l_ID rec) := marshal r]> s))
          end
      end
  end.
Proof.
  intros Hp Ht Hv Hid. unfold CreateLinked. rewrite Ht.
  destruct (String.eqb_spec (p_ID (ol_Task source)) "") as [|_]; [done|].
  destruct (String.eqb_spec (ol_Version source) "") as [|_]; [done|]. rewrite String.eqb_refl. cbn [negb orb].
  unfold create. destruct (String.eqb_spec (l_ID rec) "") as [|_]; [done|]. cbn [negb orb].
  unfold with_init. rewrite (cw_init Local Local_wf), Update_root.
  set (sub := scoped (c_scope Local) _).
  assert (Hsub : sub root s = match s !! key Local (l_ID rec) with
    | Some data => match decodeLocalRecord (l_ID rec) data with Ok r => Ok (r, s) | Err x => Err x end
    | None => match index_of Local s with
      | Err x => Err x
      | Ok idx => let r := l_defaults rec now 1 in
         Ok (r, <[LocalIndex := VJson (JObj (JTime <$> <[l_ID rec := l_CreatedAt r]> idx))]>
                  (<[key Local (l_ID rec) := marshal r]> s)) end end).
  { unfold sub, scoped. change (mkEnv _ _) with (live (c_scope Local)).
    rewrite (bind_ok _ _ _ _ _ _ (run_try_get _ _ (cw_key Local Local_wf _) s)).
    destruct (s !! key Local (l_ID rec)) as [data|]; [unfold lift; by destruct (decodeLocalRecord _ _)|].
    destruct (index_of Local s) as [idx|x] eqn:Hi;
      [|by rewrite (bind_err _ _ _ _ _ (run_index_err Local Local_wf _ _ Hi))].
    rewrite (bind_ok _ _ _ _ _ _ (run_index Local Local_wf _ _ Hi)). cbv zeta.
    rewrite (bind_ok _ _ _ _ _ _ (run_set _ _ (cw_key Local Local_wf _) _ _)).
    by rewrite (bind_ok _ _ _ _ _ _ (run_save Local Local_wf _ _)). }
  clearbody sub. unfold source_verdict, mbind, tx_bind. rewrite root_get.
  destruct (s !! (LinkPrefix +:+ _)) as [data|]; [|done].
  destruct (String.eqb _ (ol_Version source)); [|done]. cbn [mret tx_ret]. rewrite Hsub.
  destruct (s !! key Local (l_ID rec)) as [old|]; [by destruct (decodeLocalRecord _ _)|].
  by destruct (index_of Local s).
Qed.

Lemma link_key_local id1 id2 : LinkPrefix +:+ id1 ≠ key Local id2.
Proof. by vm_compute. Qed.
Lemma link_key_local_index id1 : LinkPrefix +:+ id1 ≠ LocalIndex.
Proof. by vm_compute. Qed.
Lemma local_key_index id1 : key Local id1 ≠ LocalIndex.
Proof. by vm_compute. Qed.

(** Submitting a linked download is checked and idempotent.  It is
    refused, and nothing is stored, when the link was deleted or replaced
    since it was observed; progress recorded on the link is not a
    replacement.  Otherwise the first submission stores the record at
    revision 1 and every later one with the same ID returns that record and
    changes nothing. *)
Theorem create_linked now source rec s idx :
  p_ID (ol_Task source) ≠ "" → l_TaskID rec = p_ID (ol_Task source) → ol_Version source ≠ "" → l_ID rec ≠ "" →
  index_of Local s = Ok idx → s !! key Local (l_ID rec) = None →
  wf_local rec = true → valid_local (l_ID rec) (l_defaults rec now 1) = true →
  (∀ x, source_verdict s source = Err x → CreateLinked sha256_hex true now source rec false s = (Err x, s)) ∧
  (∀ raw f j, f ∈ ["last_active_at"; "downloaded"; "http_delivery"] →
     let s2 := <[LinkPrefix +:+ p_ID (ol_Task source) := VJson (JObj (<[f := j]> raw))]> s in
     s !! (LinkPrefix +:+ p_ID (ol_Task source)) = Some (VJson (JObj raw)) →
     source_verdict s2 source = source_verdict s source) ∧
  (source_verdict s source = Ok tt →
   ∃ s', CreateLinked sha256_hex true now source rec false s = (Ok (l_defaults rec now 1), s') ∧
     LGet true (l_ID rec) false s' = (Ok (Some (l_defaults rec now 1)), s') ∧
     ∀ now2 rec2, l_ID rec2 = l_ID rec → l_TaskID rec2 = l_TaskID rec →
       CreateLinked sha256_hex true now2 source rec2 false s' = (Ok (l_defaults rec now 1), s')).
Proof.
  intros Hp Ht Hv Hid Hi Hn Hwf Hval. split_and!.
  - intros x Hx. rewrite CreateLinked_run by done. by rewrite Hx.
  - intros raw f j Hf s2 Hs. unfold source_verdict, s2. rewrite lookup_insert_eq, Hs.
    unfold linkVersion. do 2 f_equal. cbn [link_identity].
    enough (delete "http_delivery" (delete "downloaded" (delete "last_active_at" (<[f := j]> raw))) =
            delete "http_delivery" (delete "downloaded" (delete "last_active_at" raw))) as -> by done.
    rewrite !elem_of_cons, elem_of_nil in Hf. destruct Hf as [->|[->|[->|[]]]];
      repeat first [rewrite delete_insert_eq | rewrite delete_insert_ne by (by vm_compute) | f_equal]; reflexivity.
  - intros Hok. set (r := l_defaults rec now 1) in *.
    set (s' := <[LocalIndex := VJson (JObj (JTime <$> <[l_ID rec := l_CreatedAt r]> idx))]>
                 (<[key Local (l_ID rec) := marshal r]> s)).
    assert (Hrun : CreateLinked sha256_hex true now source rec false s = (Ok r, s')).
    { rewrite CreateLinked_run by done. by rewrite Hok, Hn, Hi. }
    assert (Hs' : s' !! key Local (l_ID rec) = Some (marshal r)).
    { unfold s'. rewrite lookup_insert_ne by (apply not_eq_sym, local_key_index). apply lookup_insert_eq. }
    assert (Hdec : decodeLocalRecord (l_ID rec) (marshal r) = Ok r).
    { unfold decodeLocalRecord. rewrite unmarshal_marshal; [cbn [mbind res_bind]; by rewrite Hval|].
      unfold r. revert Hwf. change (wf_rec (l_defaults rec now 1)) with (wf_local (l_defaults rec now 1)).
      unfold wf_local. cbn. rewrite !andb_true_iff. tauto. }
    exists s'. split; [exact Hrun|]. split.
    + unfold LGet. destruct (String.eqb_spec (l_ID rec) "") as [|_]; [done|]. cbn [negb orb].
      rewrite (CGet_ok Local Local_wf), Hs'. by rewrite Hdec.
    + intros now2 rec2 H1 H2. rewrite CreateLinked_run; [|done|by rewrite H2|done|by rewrite H1].
      assert (source_verdict s' source = Ok tt) as ->.
      { rewrite <- Hok. unfold source_verdict, s'.
        rewrite lookup_insert_ne by (apply not_eq_sym, link_key_local_index).
        by rewrite lookup_insert_ne by (apply not_eq_sym, link_key_local). }
      rewrite H1, Hs'. by rewrite Hdec.
Qed.
End submit.

Definition demo_hash (v : value) : string := match v with VJson _ => "v" | VRaw _ => "w" end.
Definition demo_link : value := VJson (JObj {["id" := JStr "t1"]}).
Definition demo_source : ObservedLink := mkObserved (mkLink "t1" 7 8 "f" 10 5 5 false) "v".
Definition demo_record : LocalRecord := mkLocal "" 0 "d" "t1" "f" "" "" "" 10 0 "" "" 0 None 0 0.
Definition demo_links : store := (Put Links "t1" demo_link 5 false ∅).2.
Lemma create_linked_witness :
  source_verdict demo_hash demo_links demo_source = Ok tt ∧
  ∃ s', CreateLinked demo_hash true 9 demo_source demo_record false demo_links = (Ok (l_defaults demo_record 9 1), s') ∧
    LGet true "d" false s' = (Ok (Some (l_defaults demo_record 9 1)), s').
Proof.
  assert (Hok : source_verdict demo_hash demo_links demo_source = Ok tt) by (vm_compute; reflexivity).
  split; [exact Hok|].
  destruct (create_linked demo_hash 9 demo_source demo_record demo_links ∅) as (_ & _ & H);
    [discriminate|reflexivity|discriminate|discriminate|vm_compute; reflexivity..|].
  destruct (H Hok) as (s' & H1 & H2 & _). exists s'. split; [exact H1|exact H2].
Defined.

(** ** Maintenance *)

Lemma drop_run k cs s b s1 :
  drop_from_index k cs root s = Ok (b, s1) →
  (b = true ∧ s1 = s ∧ ∀ c, c ∈ cs → k ≠ c_indexKey c ∧ HasPrefix k (c_prefix c) = false) ∨
  (b = false ∧ s1 = s ∧ ∃ c, c ∈ cs ∧ k = c_indexKey c) ∨
  (b = true ∧ ∃ c id idx, c ∈ cs ∧ k ≠ c_indexKey c ∧ k = key c id ∧ index_of c s = Ok idx ∧
     s1 = <[c_indexKey c := VJson (JObj (JTime <$> delete id idx))]> s).
Proof.
  induction cs as [|c cs IH]; cbn [drop_from_index].
  { intros [= <- <-]. left. split_and!; try done. intros c Hc. by apply elem_of_nil in Hc. }
  destruct (String.eqb_spec k (c_indexKey c)) as [Hk|Hk].
  { intros [= <- <-]. right. left. split_and!; [done..|]. exists c. split; [left|done]. }
  destruct (HasPrefix k (c_prefix c)) eqn:Hp.
  - intros (idx & s0 & Hi & H)%tx_bind_inv. rewrite root_index in Hi.
    destruct (index_of c s) as [idx'|] eqn:Hi'; [|done]. injection Hi as -> ->.
    destruct (HasPrefix_inv _ _ Hp) as (id & Hid). unfold mbind, tx_bind in H. rewrite root_save in H. injection H as <- <-.
    right. right. split; [done|]. exists c, id, idx. rewrite Hid, TrimPrefix_app. split; [left|].
    split_and!; try done. by rewrite <- Hid.
  - intros [(-> & -> & H)|[(-> & -> & c' & Hc & ?)|(-> & c' & id & idx & Hc & ?)]]%IH.
    + left. split_and!; try done. intros c' [->|Hc]%elem_of_cons; [done|by apply H].
    + right. left. split_and!; [done..|]. exists c'. split; [by right|done].
    + right. right. split; [done|]. exists c', id, idx. split; [by right|done].
Qed.

Definition hub_order : list Collection := [Links; Aria2; Local; Forward].
Lemma hub_order_in c : c ∈ hub_order ↔ c ∈ hub_collections.
Proof. unfold hub_order, hub_collections. rewrite !elem_of_cons, !elem_of_nil. tauto. Qed.

Lemma snapshot_run same k s r s' :
  DeleteSnapshotKey same k false s = (r, s') →
  (r ≠ Ok true ∧ s' = s) ∨
  (r = Ok true ∧ ∃ v s1, s !! k = Some v ∧ same v = true ∧
     drop_from_index k hub_order root s = Ok (true, s1) ∧ s' = delete k s1).
Proof.
  unfold DeleteSnapshotKey. rewrite Update_root. unfold mbind at 1, tx_bind. rewrite root_get.
  destruct (s !! k) as [v|] eqn:Hv; [|intros [= <- <-]; by left].
  destruct (same v) eqn:Hsame; cbn [negb]; [|intros [= <- <-]; by left].
  fold hub_order. unfold mbind at 1, tx_bind. destruct (drop_from_index k hub_order root s) as [[b s1]|x] eqn:Hd.
  - destruct b.
    + intros [= <- <-]. right. split; [done|]. exists v, s1. done.
    + intros [= <- <-]. left. split; [done|]. by apply drop_run in Hd as [(? & _)|[(_ & ? & _)|(? & _)]].
  - intros [= <- <-]. by left.
Qed.

(** Keys of one collection are not keys of another. *)
Lemma other_key c c' id : c ∈ hub_collections → c' ∈ hub_collections → c ≠ c' →
  key c id ≠ c_indexKey c' ∧ ∀ id', key c id ≠ key c' id'.
Proof.
  intros Hc Hc' Hne. destruct (hub_scopes c' c id Hc' Hc (not_eq_sym Hne)) as [Hk _].
  pose proof (hub_wf c' Hc') as Hwf. split; [|intros id']; intros E; rewrite E in Hk.
  - by rewrite (cw_index c' Hwf) in Hk.
  - by rewrite (cw_key c' Hwf) in Hk.
Qed.
Lemma hub_index_inj c c' : c ∈ hub_collections → c' ∈ hub_collections → c_indexKey c = c_indexKey c' → c = c'.
Proof.
  unfold hub_collections. rewrite !elem_of_cons, !elem_of_nil.
  intros [->|[->|[->|[->|[]]]]] [->|[->|[->|[->|[]]]]] H;
    lazymatch goal with |- ?x = ?x => reflexivity | _ => vm_compute in H; discriminate H end.
Qed.

Lemma index_of_other c s k v : k ≠ c_indexKey c → index_of c (<[k := v]> s) = index_of c s.
Proof. intros H. unfold index_of. by rewrite lookup_insert_ne. Qed.
Lemma index_of_delete c s k : k ≠ c_indexKey c → index_of c (delete k s) = index_of c s.
Proof. intros H. unfold index_of. by rewrite lookup_delete_ne. Qed.

(** Maintenance removes only what it may.  A successful deletion removed
    exactly the key whose value had not changed since the snapshot, never
    account data or an index, and took it out of its collection's index and
    no other entry out of any index; any other answer, errors included,
    leaves the store as it was. *)
Theorem maintenance_guard configured k same canceled s :
  let r := (DeleteUnchanged configured k same canceled s).1 in
  let s' := (DeleteUnchanged configured k same canceled s).2 in
  (r ≠ Ok true → s' = s) ∧
  (r = Ok true →
     s' !! k = None ∧ (∃ v, s !! k = Some v ∧ same v = true) ∧
     protectedCleanupKey k = false ∧ (∀ c, c ∈ hub_collections → k ≠ c_indexKey c) ∧
     (∀ k', k' ≠ k → (∀ c, c ∈ hub_collections → k' ≠ c_indexKey c) → s' !! k' = s !! k') ∧
     ∀ c idx, c ∈ hub_collections → index_of c s = Ok idx →
       ∃ idx', index_of c s' = Ok idx' ∧
         ∀ id, idx' !! id = if String.eqb (key c id) k then None else idx !! id).
Proof.
  unfold DeleteUnchanged. destruct (protectedCleanupKey k) eqn:Hprot; [by split|].
  destruct configured; cbn [negb]; [|by split]. destruct canceled; [by split|].
  destruct (DeleteSnapshotKey same k false s) as [r s'] eqn:Hu. cbn [fst snd].
  destruct (snapshot_run _ _ _ _ _ Hu) as [[Hr ->]|(-> & v & s1 & Hv & Hsame & Hd & ->)]; [by split|].
  split; [done|]. intros _. split; [apply lookup_delete_eq|]. split; [eauto|]. split; [done|].
  apply drop_run in Hd as [(_ & -> & Hno)|[(? & _)|(_ & c & id & idx & Hc & Hk & -> & Hi & ->)]]; [|done|].
  - setoid_rewrite hub_order_in in Hno. split; [intros c Hc; by apply Hno|]. split.
    + intros k' Hk' _. by rewrite lookup_delete_ne.
    + intros c idx Hc Hi. destruct (Hno c Hc) as [Hk Hp]. exists idx. rewrite index_of_delete by done.
      split; [done|]. intros id. destruct (String.eqb_spec (key c id) k) as [<-|_]; [|done].
      unfold key in Hp. by rewrite HasPrefix_app in Hp.
  - apply hub_order_in in Hc.
    assert (Hother : ∀ c', c' ∈ hub_collections → c' ≠ c → key c id ≠ c_indexKey c' ∧ ∀ id', key c id ≠ key c' id').
    { intros c' Hc' Hne. by apply other_key. }
    split; [|split].
    + intros c' Hc' E. destruct (decide (c_indexKey c' = c_indexKey c)) as [E'|E']; [congruence|].
      destruct (Hother c' Hc') as [? _]; [by intros ->|done].
    + intros k' Hk' Hx. rewrite lookup_delete_ne by done. rewrite lookup_insert_ne; [done|]. apply not_eq_sym. by apply Hx.
    + intros c' idx' Hc' Hi'. destruct (decide (c_indexKey c' = c_indexKey c)) as [E|E].
      * apply hub_index_inj in E as ->; [|done|done]. rewrite Hi in Hi'. injection Hi' as <-.
        exists (delete id idx). rewrite index_of_delete, index_of_save by done. split; [done|]. intros id'.
        destruct (String.eqb_spec (key c id') (key c id)) as [->%key_inj|Hne]; [apply lookup_delete_eq|].
        rewrite lookup_delete_ne; [done|]. by intros ->.
      * destruct (Hother c' Hc') as [H1 H2]; [by intros ->|]. exists idx'.
        rewrite index_of_delete, index_of_other by done. split; [done|]. intros id'.
        destruct (String.eqb_spec (key c' id') (key c id)) as [E'|_]; [by destruct (H2 id')|done].
Qed.

Lemma maintenance_guard_witness :
  (DeleteUnchanged true "watch.download.t1" json_valid false demo_links).1 = Ok true ∧
  (DeleteUnchanged true "watch.download.t1" json_valid false demo_links).2 !! "watch.download.t1" = None.
Proof.
  assert (H : (DeleteUnchanged true "watch.download.t1" json_valid false demo_links).1 = Ok true) by (vm_compute; reflexivity).
  split; [exact H|].
  exact (proj1 (proj2 (maintenance_guard true "watch.download.t1" json_valid false demo_links) H)).
Defined.
