(* ===== verification/DownloadProps.v ===== *)
(** * Downloads and their leases: the properties

    The local download state machine, optimistic concurrency of aria2
    observations, control leases, submission of linked downloads and the
    maintenance guard, over TaskRepos.v. *)

From S2P Require Import Prelude Strings Storage TaskTypes Taskhub CollectionSpec MutationSpec TaskRepos TaskhubProps RetentionProps.

(** ** Inverting a mutation *)

(** A successful mutation found a record its callback accepted. *)
Lemma Mutate_inv {A} c (Hc : Cwf c) id (fn : value → Z → res err (A * (option value * Z))) s a s' :
  no_clash c id → Mutate c id fn false s = (Ok a, s') →
  ∃ idx data next stamp, index_of c s = Ok idx ∧ s !! key c id = Some data ∧
    fn data (default 0 (idx !! id)) = Ok (a, (next, stamp)) ∧
    s' !! key c id = next ∧
    index_of c s' = Ok (match next with Some _ => <[id := stamp]> idx | None => delete id idx end).
Proof.
  intros Hcl H. destruct (index_of c s) as [idx|x] eqn:Hi.
  2:{ revert H. unfold Mutate, with_init. rewrite (cw_init c Hc), Update_live.
      by rewrite (bind_err _ _ _ _ _ (run_index_err c Hc _ _ Hi)). }
  destruct (s !! key c id) as [data|] eqn:Hs; [|by rewrite (Mutate_missing c Hc _ _ s idx) in H].
  destruct (fn data (default 0 (idx !! id))) as [[b [next stamp]]|x] eqn:Hf;
    [|by rewrite (Mutate_refused c Hc _ _ s idx data x) in H].
  exists idx, data, next, stamp.
  destruct next as [v|].
  - destruct (json_valid v) eqn:Hv.
    + destruct (Mutate_ok c Hc id fn s idx data b (Some v) stamp) as (s1 & Hm & ? & ? & _); try done.
      rewrite Hm in H. by injection H as -> ->.
    + revert H. unfold Mutate, with_init. rewrite (cw_init c Hc), Update_live.
      rewrite (bind_ok _ _ _ _ _ _ (run_index c Hc _ _ Hi)).
      assert (Hg : tx_get (key c id) (live (c_scope c)) s = Ok (data, s))
        by (by rewrite (run_get _ _ (cw_key c Hc id)), Hs).
      rewrite (bind_ok _ _ _ _ _ _ Hg). unfold mbind, tx_bind, lift. rewrite Hf. cbn [fst snd]. by rewrite Hv.
  - destruct (Mutate_ok c Hc id fn s idx data b None stamp) as (s1 & Hm & ? & ? & _); try done.
    rewrite Hm in H. by injection H as -> ->.
Qed.

(** A mutation whose callback keeps what it read changes nothing. *)
Lemma Mutate_kept {A} c (Hc : Cwf c) id (fn : value → Z → res err (A * (option value * Z))) s idx data a t :
  index_of c s = Ok idx → no_clash c id → s !! key c id = Some data → idx !! id = Some t →
  json_valid data = true → fn data t = Ok (a, (Some data, t)) →
  Mutate c id fn false s = (Ok a, s).
Proof.
  intros Hi Hcl Hs Ht Hv Hf. unfold Mutate, with_init. rewrite (cw_init c Hc), Update_live.
  rewrite (bind_ok _ _ _ _ _ _ (run_index c Hc _ _ Hi)).
  assert (Hg : tx_get (key c id) (live (c_scope c)) s = Ok (data, s))
    by (by rewrite (run_get _ _ (cw_key c Hc id)), Hs).
  rewrite (bind_ok _ _ _ _ _ _ Hg). clear Hg. rewrite Ht. cbn [default].
  assert (Hl : lift (fn data t) (live (c_scope c)) s = Ok ((a, (Some data, t)), s)) by (unfold lift; by rewrite Hf).
  rewrite (bind_ok _ _ _ _ _ _ Hl). cbn [fst snd]. rewrite Hv.
  unfold mbind, tx_bind, mret, tx_ret. rewrite (run_set _ _ (cw_key c Hc id)).
  rewrite bool_decide_true by done. by rewrite insert_id.
Qed.

(** A sweep that fails changes nothing. *)
Lemma Sweep_err c (Hc : Cwf c) expired s x s' : Sweep c expired false s = (Err x, s') → s' = s.
Proof.
  unfold Sweep, with_init. rewrite (cw_init c Hc), Update_live.
  match goal with |- match ?r with _ => _ end = _ → _ => generalize r end. intros [[a s1]|y] H; [discriminate H|congruence].
Qed.
Lemma Sweep_lost c (Hc : Cwf c) expired s x : index_of c s = Err x → Sweep c expired false s = (Err x, s).
Proof.
  intros Hi. unfold Sweep, with_init. rewrite (cw_init c Hc), Update_live.
  by rewrite (bind_err _ _ _ _ _ (run_index_err c Hc _ _ Hi)).
Qed.

(** ** Decoding *)

Lemma unmarshal_inv {A} `{Codec A} v (a : A) :
  unmarshal v = Ok a → ∃ m, as_object v = Ok m ∧ decode m = Some a.
Proof.
  unfold unmarshal. intros (m & Hm & H')%res_bind_ok. exists m. split; [done|].
  destruct (decode m); [|done]. by injection H' as ->.
Qed.

Lemma DecodeAria2_inv data gid r :
  DecodeAria2Record data gid = Ok r →
  ∃ m, as_object data = Ok m ∧ decode_aria2 m = Some r ∧ valid_aria2 gid r = true.
Proof.
  unfold DecodeAria2Record. intros (r' & Hr & H)%res_bind_ok.
  destruct (valid_aria2 gid r') eqn:Hv; [|done]. injection H as ->.
  apply unmarshal_inv in Hr as (m & ? & ?). by exists m.
Qed.

Lemma DecodeAria2_obj m gid r :
  decode_aria2 m = Some r → valid_aria2 gid r = true → DecodeAria2Record (VJson (JObj m)) gid = Ok r.
Proof. intros Hd Hv. unfold DecodeAria2Record, unmarshal. simpl. rewrite Hd. simpl. by rewrite Hv. Qed.

Ltac binds H := repeat (apply bind_Some in H as (? & ? & H)).
Ltac field := repeat first
  [ rewrite lookup_insert_eq | rewrite lookup_insert_ne by (by vm_compute)
  | rewrite lookup_delete_eq | rewrite lookup_delete_ne by (by vm_compute) ].

(** What the record decodes to after an observation. *)
Definition observed_record (cur o : Aria2Record) (revision : Z) : Aria2Record :=
  mkAria2 (a_PauseOwner cur) (a_Deleted cur) (a_ControlUntil cur) (NormalizeDownloadState (a_Status o))
    (u64_succ revision) (a_GID cur) (a_TaskID cur) (a_DownloadURL cur) (a_Dir cur) (a_Out cur)
    (a_CreatedAt cur) (a_Status o) (a_Total o) (a_Completed o) (a_Error o).

Lemma u64_succ_range z : in_uint64 (u64_succ z) = true.
Proof. unfold in_uint64, u64_succ. pose proof (Z.mod_pos_bound (z + 1) (2^64) ltac:(lia)). lia. Qed.

Lemma decode_put_observation o revision raw cur :
  decode_aria2 raw = Some cur → in_int64 (a_Total o) = true → in_int64 (a_Completed o) = true →
  decode_aria2 (put_observation o revision raw) = Some (observed_record cur o revision).
Proof.
  intros H Ht Hc. unfold decode_aria2 in H. binds H. injection H as <-.
  unfold decode_aria2, put_observation, fieldStatus, fieldState, fieldTotal, fieldCompleted, fieldError, fieldRevision.
  field. rewrite !as_str_some, !as_int64_num by done. rewrite (as_uint64_num _ (u64_succ_range _)).
  repeat match goal with E : _ = Some _ |- _ => rewrite E; clear E end. reflexivity.
Qed.

Lemma u64_succ_ne z : in_uint64 z = true → u64_succ z ≠ z.
Proof.
  unfold in_uint64, u64_succ. intros H. destruct (decide (z + 1 = 2^64)) as [E|?].
  - rewrite E, Z.mod_same by lia. lia.
  - rewrite Z.mod_small by lia. lia.
Qed.

Lemma as_uint64_range o z : as_uint64 o = Some z → in_uint64 z = true.
Proof.
  unfold as_uint64, get_with. destruct o as [[| |n| | | |]|]; try done; try (by intros [= <-]).
  destruct (_ && _) eqn:E; [|done]. by intros [= <-].
Qed.

Lemma decode_aria2_range m r : decode_aria2 m = Some r → in_uint64 (a_Revision r) = true.
Proof. intros H. unfold decode_aria2 in H. binds H. injection H as <-. simpl. by eapply as_uint64_range. Qed.

(** ** aria2 observations *)

Lemma valid_observed cur o revision gid :
  valid_aria2 gid cur = true → u64_succ revision ≠ 0 →
  NormalizeDownloadState (a_Status o) ≠ DownloadUnknown →
  valid_aria2 gid (observed_record cur o revision) = true.
Proof.
  unfold valid_aria2, observed_record. simpl. intros H Hr Hu.
  rewrite !andb_true_iff in H. destruct H as [[[[-> ->] _] _] _].
  rewrite String.eqb_refl. destruct (Z.eqb_spec (u64_succ revision) 0); [done|].
  by destruct (String.eqb_spec (NormalizeDownloadState (a_Status o)) DownloadUnknown).
Qed.

Lemma valid_known gid r : valid_aria2 gid r = true → NormalizeDownloadState (a_Status r) ≠ DownloadUnknown.
Proof.
  unfold valid_aria2. rewrite !andb_true_iff. intros [[_ H] _].
  by destruct (String.eqb_spec (NormalizeDownloadState (a_Status r)) DownloadUnknown).
Qed.

Lemma transition_known from to :
  DownloadTransition from to = true → from ≠ DownloadUnknown → to ≠ DownloadUnknown.
Proof.
  unfold DownloadTransition. intros H Hf ->. destruct (String.eqb_spec from DownloadUnknown); done.
Qed.

Lemma fresh_revision cur o rev now : observation_fresh cur o rev now = true →
  a_Revision cur = rev ∧ ¬ now < a_ControlUntil cur ∧ a_Deleted cur = false ∧
  DownloadTransition (NormalizeDownloadState (a_Status cur)) (NormalizeDownloadState (a_Status o)) = true.
Proof.
  unfold observation_fresh. rewrite !andb_true_iff, !negb_true_iff. intros [[[[? _] ?] ?] ?].
  split_and!; [lia|lia|done|done].
Qed.

Lemma stale_revision cur o rev now : a_Revision cur ≠ rev → observation_fresh cur o rev now = false.
Proof. intros H. unfold observation_fresh. destruct (Z.eqb_spec (a_Revision cur) rev); [done|]. by rewrite !andb_false_r. Qed.

Lemma controlled_stale cur o rev now : now < a_ControlUntil cur → observation_fresh cur o rev now = false.
Proof. intros H. unfold observation_fresh. destruct (Z.ltb_spec now (a_ControlUntil cur)); [|lia]. by rewrite !andb_false_r. Qed.

Lemma decoded_json data gid r : DecodeAria2Record data gid = Ok r → json_valid data = true.
Proof. intros (m & H & _)%DecodeAria2_inv. by destruct data. Qed.

(** A stale observation leaves the store as it is. *)
Lemma Report_stale o rev now s idx data cur t :
  index_of Aria2 s = Ok idx → s !! key Aria2 (a_GID o) = Some data → idx !! a_GID o = Some t →
  DecodeAria2Record data (a_GID o) = Ok cur → observation_fresh cur o rev now = false →
  Report o rev now false s = (Ok false, s).
Proof.
  intros Hi Hs Ht Hd Hf. unfold Report.
  apply (Mutate_kept Aria2 Aria2_wf _ _ s idx data false t Hi (aria2_no_clash _) Hs Ht).
  - by eapply decoded_json.
  - unfold report_step. rewrite Hd. cbn [mbind res_bind]. by rewrite Hf.
Qed.

(** Observations of an aria2 task are applied with optimistic concurrency.
    A stored record accepts an observation made at its own revision, of the
    same task, outside a control lease and along a legal state transition; it
    then holds the observed progress, a normalised state and the next
    revision, and every observation made at the old revision, by whoever and
    whenever, is dropped without a trace.  One that is not fresh changes
    nothing either. *)
Theorem observation_once o rev now s idx data cur t :
  index_of Aria2 s = Ok idx → idx !! a_GID o = Some t →
  s !! key Aria2 (a_GID o) = Some data → DecodeAria2Record data (a_GID o) = Ok cur →
  in_int64 (a_Total o) = true → in_int64 (a_Completed o) = true → u64_succ (a_Revision cur) ≠ 0 →
  if observation_fresh cur o rev now then
    ∃ s' data', Report o rev now false s = (Ok true, s') ∧
      s' !! key Aria2 (a_GID o) = Some data' ∧
      DecodeAria2Record data' (a_GID o) = Ok (observed_record cur o rev) ∧
      ∀ o2 now2, a_GID o2 = a_GID o → Report o2 rev now2 false s' = (Ok false, s')
  else Report o rev now false s = (Ok false, s).
Proof.
  intros Hi Ht Hs Hd Hn Hc Hr. destruct (observation_fresh cur o rev now) eqn:Hf; [|by eapply Report_stale].
  destruct (fresh_revision _ _ _ _ Hf) as (Hrev & _ & _ & Htr).
  destruct (DecodeAria2_inv _ _ _ Hd) as (raw & Hraw & Hdec & Hv).
  set (stamp := if String.eqb (NormalizeDownloadState (a_Status o)) DownloadComplete then t else now).
  set (data' := VJson (JObj (put_observation o rev raw))).
  assert (Hstep : report_step o rev now data (default 0 (idx !! a_GID o)) = Ok (true, (Some data', stamp))).
  { unfold report_step. rewrite Hd. cbn [mbind res_bind]. rewrite Hf, Hraw. simpl. by rewrite Ht. }
  destruct (Mutate_ok Aria2 Aria2_wf (a_GID o) (report_step o rev now) s idx data true (Some data') stamp
    Hi (aria2_no_clash _) Hs Hstep eq_refl) as (s' & Hm & Hs' & Hi' & _). clearbody stamp. clear Hstep.
  assert (Hd' : DecodeAria2Record data' (a_GID o) = Ok (observed_record cur o rev)).
  { apply DecodeAria2_obj; [by apply decode_put_observation|]. apply valid_observed; [done|by rewrite <- Hrev|].
    eapply transition_known; [exact Htr|]. by eapply valid_known. }
  clearbody data'. exists s', data'. split; [exact Hm|]. split; [exact Hs'|]. split; [exact Hd'|]. intros o2 now2 Hg.
  eapply (Report_stale o2 rev now2 s' _ data' _ stamp); rewrite ?Hg; [exact Hi'|exact Hs'|apply lookup_insert_eq|exact Hd'|].
  apply stale_revision. simpl. rewrite <- Hrev. apply u64_succ_ne. by eapply decode_aria2_range.
Qed.

Definition sample_observed : Aria2Record := mkAria2 "" false 0 "active" 3 "g1" "t1" "" "" "" 5 "active" 10 4 "".
Definition sample_aria2 : store :=
  (Put Aria2 "g1" (marshal sample_observed) 5 false ∅).2.
Lemma observation_once_witness :
  ∃ s' data', Report sample_observed 3 9 false sample_aria2 = (Ok true, s') ∧
    s' !! key Aria2 "g1" = Some data' ∧
    DecodeAria2Record data' "g1" = Ok (observed_record sample_observed sample_observed 3) ∧
    ∀ o2 now2, a_GID o2 = "g1" → Report o2 3 now2 false s' = (Ok false, s').
Proof.
  apply (observation_once sample_observed 3 9 sample_aria2 {["g1" := 5]} (marshal sample_observed) sample_observed 5);
    try (vm_compute; reflexivity). vm_compute. discriminate.
Defined.

(** ** aria2 control leases *)

Lemma decode_lease raw cur revision until :
  decode_aria2 raw = Some cur →
  decode_aria2 (<[fieldControlUntil := JTime until]> (<[fieldRevision := JNum (u64_succ revision)]> raw)) =
    Some (a_lease cur (u64_succ revision) until).
Proof.
  intros H. unfold decode_aria2 in H. binds H. injection H as <-.
  unfold decode_aria2, fieldControlUntil, fieldRevision. field.
  rewrite as_time_some, (as_uint64_num _ (u64_succ_range _)).
  repeat match goal with E : _ = Some _ |- _ => rewrite E; clear E end. reflexivity.
Qed.

(** Whether [FinishControl] adopts the status, and what the record becomes. *)
Definition finish_applies (cur : Aria2Record) (status : string) : bool :=
  negb (String.eqb status "") &&
  DownloadTransition (NormalizeDownloadState (a_Status cur)) (NormalizeDownloadState status).
Definition finished_record (cur lease : Aria2Record) (status : string) (remove : bool) : Aria2Record :=
  let status := if remove then DownloadRemoved else status in
  let ok := finish_applies cur status in
  mkAria2
    (if ok then if String.eqb status DownloadPaused then a_PauseOwner lease else "" else a_PauseOwner cur)
    (a_Deleted cur || remove) 0
    (if ok then NormalizeDownloadState status else a_State cur) (u64_succ (a_Revision cur))
    (a_GID cur) (a_TaskID cur) (a_DownloadURL cur) (a_Dir cur) (a_Out cur) (a_CreatedAt cur)
    (if ok then status else a_Status cur) (a_Total cur) (a_Completed cur) (a_Error cur).

Lemma decode_finish raw cur lease status remove :
  decode_aria2 raw = Some cur →
  decode_aria2 (<[fieldRevision := JNum (u64_succ (a_Revision cur))]> (finish_fields cur lease status remove raw)) =
    Some (finished_record cur lease status remove).
Proof.
  intros H. unfold finish_fields, finished_record, fieldControlUntil, fieldState, fieldStatus, fieldRevision.
  fold (finish_applies cur (if remove then DownloadRemoved else status)).
  set (st := if remove then DownloadRemoved else status).
  destruct (finish_applies cur st) eqn:Ha; destruct remove;
    try (destruct (String.eqb st DownloadPaused), (String.eqb_spec (a_PauseOwner lease) "") as [Hp|Hp]; try rewrite Hp);
    clearbody st; clear Ha; unfold decode_aria2 in H; binds H; injection H as <-; simpl;
    unfold decode_aria2; field;
    rewrite ?as_str_some, ?as_bool_some, (as_uint64_num _ (u64_succ_range _));
    repeat match goal with E : _ = Some _ |- _ => rewrite E; clear E end; simpl; rewrite ?orb_true_r, ?orb_false_r; reflexivity.
Qed.

Lemma valid_lease cur revision until gid :
  valid_aria2 gid cur = true → revision ≠ 0 → valid_aria2 gid (a_lease cur revision until) = true.
Proof.
  unfold valid_aria2, a_lease. simpl. rewrite !andb_true_iff. intros [[[[-> ->] _] ->] ->] H.
  by destruct (Z.eqb_spec revision 0).
Qed.

Lemma valid_finished cur lease status remove gid :
  valid_aria2 gid cur = true → u64_succ (a_Revision cur) ≠ 0 →
  valid_aria2 gid (finished_record cur lease status remove) = true.
Proof.
  intros Hv Hr. pose proof (valid_known _ _ Hv) as Hk. unfold valid_aria2, finished_record in *. simpl.
  rewrite !andb_true_iff in *. destruct Hv as [[[[-> ->] _] Hu] Hst].
  destruct (Z.eqb_spec (u64_succ (a_Revision cur)) 0); [done|].
  destruct (finish_applies cur (if remove then DownloadRemoved else status)) eqn:Ha; [|done].
  unfold finish_applies in Ha. apply andb_true_iff in Ha as [_ Ht]. rewrite String.eqb_refl.
  apply (transition_known _ _ Ht) in Hk. by destruct (String.eqb_spec
    (NormalizeDownloadState (if remove then DownloadRemoved else status)) DownloadUnknown).
Qed.

Lemma or_missing_ok {A} (d a : A) (m : op A) c s s' :
  or_missing d m c s = (Ok a, s') → m c s = (Ok a, s') ∨ a = d.
Proof. unfold or_missing. destruct (m c s) as [[b|[]] s1]; intros [= <- <-]; auto. Qed.

(** What a granted reservation leaves in the store. *)
Lemma ReserveControl_inv exp until now s lease s' :
  ReserveControl exp until now false s = (Ok (lease, true), s') → u64_succ (a_Revision exp) ≠ 0 →
  ∃ cur idx data', now < until ∧ a_Revision cur = a_Revision exp ∧ ¬ now < a_ControlUntil cur ∧
    lease = a_lease cur (u64_succ (a_Revision cur)) until ∧
    index_of Aria2 s' = Ok (<[a_GID exp := now]> idx) ∧
    s' !! key Aria2 (a_GID exp) = Some data' ∧ DecodeAria2Record data' (a_GID exp) = Ok lease.
Proof.
  unfold ReserveControl. destruct (Z.ltb_spec now until) as [Hu|]; cbn [negb]; [|done].
  intros [Hm|Hm]%or_missing_ok Hr; [|congruence].
  destruct (Mutate_inv Aria2 Aria2_wf _ _ _ _ _ (aria2_no_clash _) Hm)
    as (idx & data & next & stamp & _ & _ & Hf & Hs' & Hi'). clear Hm.
  unfold reserve_step in Hf. apply res_bind_ok in Hf as (cur & Hd & Hf).
  destruct (a_Deleted cur || _ || _ || _) eqn:Hg; [by injection Hf|].
  apply res_bind_ok in Hf as (raw & Hraw & Hf).
  apply (inj Ok) in Hf. injection Hf as Hl Hn Hst. subst stamp next.
  rewrite !orb_false_iff, !negb_false_iff in Hg. destruct Hg as [[[_ Hrev] _] Hc].
  destruct (DecodeAria2_inv _ _ _ Hd) as (raw' & Hraw' & Hdec & Hv).
  assert (raw' = raw) as -> by congruence. exists cur, idx. eexists.
  split_and!; [done|lia|lia|done|exact Hi'|exact Hs'|]. subst lease. apply Z.eqb_eq in Hrev.
  apply DecodeAria2_obj; [by apply decode_lease|]. apply valid_lease; [done|]. by rewrite Hrev.
Qed.

Lemma reserve_held exp2 until2 now2 s idx data lease t :
  index_of Aria2 s = Ok idx → idx !! a_GID exp2 = Some t → s !! key Aria2 (a_GID exp2) = Some data →
  DecodeAria2Record data (a_GID exp2) = Ok lease → now2 < a_ControlUntil lease → now2 < until2 →
  ReserveControl exp2 until2 now2 false s = (Ok (lease, false), s).
Proof.
  intros Hi Ht Hs Hd Hl Hu. unfold ReserveControl. destruct (Z.ltb_spec now2 until2); [|lia]. cbn [negb].
  unfold or_missing. erewrite (Mutate_kept Aria2 Aria2_wf _ _ s idx data (lease, false) t Hi (aria2_no_clash _) Hs Ht);
    [done|by eapply decoded_json|].
  unfold reserve_step. rewrite Hd. cbn [mbind res_bind].
  destruct (Z.ltb_spec now2 (a_ControlUntil lease)); [|lia]. by rewrite !orb_true_r.
Qed.

Lemma finish_ok lease status remove now s idx data t cur :
  index_of Aria2 s = Ok idx → idx !! a_GID lease = Some t → s !! key Aria2 (a_GID lease) = Some data →
  DecodeAria2Record data (a_GID lease) = Ok cur → u64_succ (a_Revision cur) ≠ 0 →
  if (a_Revision cur =? a_Revision lease) && String.eqb (a_TaskID cur) (a_TaskID lease) then
    ∃ s' data', FinishControl lease status remove now false s = (Ok true, s') ∧
      index_of Aria2 s' = Ok (<[a_GID lease := now]> idx) ∧ s' !! key Aria2 (a_GID lease) = Some data' ∧
      DecodeAria2Record data' (a_GID lease) = Ok (finished_record cur lease status remove)
  else FinishControl lease status remove now false s = (Ok false, s).
Proof.
  intros Hi Ht Hs Hd Hr. unfold FinishControl, or_missing.
  destruct (DecodeAria2_inv _ _ _ Hd) as (raw & Hraw & Hdec & Hv).
  destruct (_ && _) eqn:Hg.
  - set (data' := VJson (JObj (<[fieldRevision := JNum (u64_succ (a_Revision cur))]>
                                 (finish_fields cur lease status remove raw)))).
    assert (Hstep : finish_step lease status remove now data (default 0 (idx !! a_GID lease)) =
      Ok (true, (Some data', now))).
    { unfold finish_step. rewrite Hd. cbn [mbind res_bind]. apply andb_true_iff in Hg as [-> ->].
      cbn [negb orb]. by rewrite Hraw. }
    destruct (Mutate_ok Aria2 Aria2_wf _ _ s idx data true (Some data') now Hi (aria2_no_clash _) Hs Hstep eq_refl)
      as (s' & Hm & Hs' & Hi' & _). clear Hstep. rewrite Hm.
    exists s', data'. split; [reflexivity|]. split; [exact Hi'|]. split; [exact Hs'|].
    apply DecodeAria2_obj; [apply decode_finish; exact Hdec|]. apply valid_finished; [exact Hv|exact Hr].
  - erewrite (Mutate_kept Aria2 Aria2_wf _ _ s idx data false t Hi (aria2_no_clash _) Hs Ht);
      [done|by eapply decoded_json|].
    unfold finish_step. rewrite Hd. cbn [mbind res_bind].
    rewrite <- negb_andb, Hg. done.
Qed.

(** *** A held record under retention and observations *)

(** A record under [gid] whose lease has not ended at [now]. *)
Definition controlled (gid : string) (now : Z) (s : store) : Prop :=
  ∃ data r, s !! key Aria2 gid = Some data ∧ DecodeAria2Record data gid = Ok r ∧ now < a_ControlUntil r.
(** The record and its index entry are what they were. *)
Definition kept (gid : string) (s s' : store) : Prop :=
  s' !! key Aria2 gid = s !! key Aria2 gid ∧
  ∀ idx, index_of Aria2 s = Ok idx → ∃ idx', index_of Aria2 s' = Ok idx' ∧ idx' !! gid = idx !! gid.
Lemma kept_refl gid s : kept gid s s.
Proof. split; eauto. Qed.

(** What the sweeps read of a stored record. *)
Lemma decode_aria2_fields m r : decode_aria2 m = Some r →
  is_Some (as_str (m !! "task_id")) ∧ is_Some (as_bool (m !! "deleted")) ∧ as_time (m !! "control_until") = Some (a_ControlUntil r).
Proof.
  intros H. unfold decode_aria2 in H. binds H. injection H as <-. cbn [a_ControlUntil].
  split_and!; [by eexists; eassumption..|assumption].
Qed.

Lemma aria2_link_apart id gid : key Aria2 gid ≠ LinkPrefix +:+ id.
Proof. by vm_compute. Qed.
Lemma aria2_index_apart gid : key Aria2 gid ≠ LinkIndex.
Proof. by vm_compute. Qed.

Section held.
Context (gid : string) (now : Z).

Lemma clean_links_kept ttl l : ∀ idx s idx' s',
  tx_iter (clean_link_step now ttl) idx l root s = Ok (idx', s') → s' !! key Aria2 gid = s !! key Aria2 gid.
Proof.
  induction l as [|[id stamp] l IH]; intros idx s idx' s'; cbn [tx_iter]; [by intros [= _ ->]|].
  intros (idx1 & s1 & H1 & H2)%tx_bind_inv. rewrite (IH _ _ _ _ H2). clear H2.
  unfold clean_link_step in H1. apply tx_bind_inv in H1 as (o & s2 & H2 & H1). rewrite root_get in H2. injection H2 as <- <-.
  apply tx_bind_inv in H1 as (stamp' & s2 & H2 & H1).
  assert (s2 = s) as ->.
  { destruct (s !! _) as [data|]; [|by injection H2]. unfold lift in H2. by destruct (LinkActivity data); [injection H2|]. }
  destruct (_ && _); [by injection H1 as _ ->|].
  apply tx_bind_inv in H1 as ([] & s3 & H3 & H1). rewrite root_delete in H3. injection H3 as <-. injection H1 as _ <-.
  apply lookup_delete_ne, not_eq_sym, aria2_link_apart.
Qed.

Lemma clean_aria2_kept ttl id stamp idx s idx' s' :
  clean_aria2_step now ttl idx (id, stamp) root s = Ok (idx', s') → controlled gid now s →
  s' !! key Aria2 gid = s !! key Aria2 gid ∧ idx' !! gid = idx !! gid.
Proof.
  intros H (data & r & Hs & Hd & Hu). unfold clean_aria2_step in H. apply tx_bind_inv in H as (o & s1 & H1 & H).
  change (Aria2Prefix +:+ id) with (key Aria2 id) in H1, H. rewrite root_get in H1. injection H1 as <- <-.
  destruct (decide (id = gid)) as [->|Hne].
  - rewrite Hs in H. destruct (DecodeAria2_inv _ _ _ Hd) as (m & Hm & Hdec & _).
    destruct (decode_aria2_fields _ _ Hdec) as ([t Ht] & [b Hb] & Hc).
    apply tx_bind_inv in H as (remove & s1 & H1 & H). unfold lift in H1. rewrite Hm in H1.
    apply tx_bind_inv in H1 as (m' & s2 & H2 & H1). injection H2 as <- <-. rewrite Ht, Hb, Hc in H1.
    destruct (Z.ltb_spec now (a_ControlUntil r)) as [_|]; [|lia]. injection H1 as <- <-. by injection H as <- <-.
  - apply tx_bind_inv in H as (remove & s1 & H1 & H).
    assert (s1 = s) as ->.
    { destruct (s !! key Aria2 id) as [d|]; [|by injection H1]. apply tx_bind_inv in H1 as (m & s2 & H2 & H1).
      unfold lift in H2. destruct (as_object d); [|done]. injection H2 as <- <-.
      destruct (as_str _) as [taskID|]; [|done]. destruct (as_bool _) as [deleted|]; [|done]. destruct (as_time _) as [until|]; [|done].
      destruct (now <? until); [by injection H1|].
      destruct (_ && _); [|by injection H1]. apply tx_bind_inv in H1 as (o & s3 & H3 & H1). rewrite root_get in H3.
      injection H3 as <- <-. by injection H1. }
    destruct remove; [|by injection H as <- <-]. apply tx_bind_inv in H as ([] & s2 & H2 & H). rewrite root_delete in H2.
    injection H2 as <-. injection H as <- <-. split; [|by apply lookup_delete_ne]. apply lookup_delete_ne. by intros ?%key_inj.
Qed.

Lemma clean_all_kept ttl l : ∀ idx s idx' s',
  tx_iter (clean_aria2_step now ttl) idx l root s = Ok (idx', s') → controlled gid now s →
  s' !! key Aria2 gid = s !! key Aria2 gid ∧ idx' !! gid = idx !! gid.
Proof.
  induction l as [|[id stamp] l IH]; intros idx s idx' s'; cbn [tx_iter]; [by intros [= -> ->]|].
  intros (idx1 & s1 & H1 & H2)%tx_bind_inv Hc. destruct (clean_aria2_kept _ _ _ _ _ _ _ H1 Hc) as [E1 E2].
  rewrite <- E1, <- E2. apply (IH _ _ _ _ H2). unfold controlled. by rewrite E1.
Qed.

(** The maintenance of links and associations, whether it succeeds or not. *)
Lemma maintenance_kept ttl canceled s : controlled gid now s → kept gid s (CleanupLinksAndAria2 now ttl canceled s).2.
Proof.
  intros Hc. unfold CleanupLinksAndAria2. destruct canceled; [apply kept_refl|]. rewrite Update_root.
  match goal with |- kept _ _ (match ?m root s with _ => _ end).2 => destruct (m root s) as [[[] s']|] eqn:H end; [|apply kept_refl].
  apply tx_bind_inv in H as (links & s1 & H1 & H). rewrite root_index in H1. destruct (index_of Links s); [|done]. injection H1 as _ <-.
  apply tx_bind_inv in H as (aria & s1 & H1 & H). rewrite root_index in H1. destruct (index_of Aria2 s) as [idx|] eqn:Hi; [|done].
  injection H1 as <- <-. apply tx_bind_inv in H as (links' & s1 & H1 & H). pose proof (clean_links_kept _ _ _ _ _ _ H1) as E1.
  apply tx_bind_inv in H as (aria' & s2 & H2 & H).
  destruct (clean_all_kept _ _ _ _ _ _ H2) as [E2 E3]; [unfold controlled; by rewrite E1|].
  apply tx_bind_inv in H as ([] & s3 & H3 & H). rewrite root_save in H3. injection H3 as <-. rewrite root_save in H. injection H as <-.
  split.
  - cbn [snd]. rewrite lookup_insert_ne by apply not_eq_sym, aria2_no_clash.
    rewrite lookup_insert_ne by apply not_eq_sym, aria2_index_apart. by rewrite E2, E1.
  - intros idx0 H0. rewrite Hi in H0. injection H0 as <-. exists aria'. split; [apply index_of_save|done].
Qed.

Lemma expired_held data r ttl stamp :
  DecodeAria2Record data gid = Ok r → now < a_ControlUntil r → aria2_expired now ttl data stamp = Ok false.
Proof.
  unfold DecodeAria2Record, aria2_expired. intros (r' & -> & Hd)%res_bind_ok Hu. cbn [mbind res_bind].
  destruct (valid_aria2 gid r'); [|done]. injection Hd as ->. destruct (Z.ltb_spec now (a_ControlUntil r)); [done|lia].
Qed.

(** The expiry sweep of the aria2 repository. *)
Lemma sweep_kept ttl canceled s : controlled gid now s → kept gid s (cleanup now ttl canceled s).2.
Proof.
  intros (data & r & Hs & Hd & Hu). unfold cleanup. destruct (ttl <=? 0); [apply kept_refl|].
  destruct canceled; [apply kept_refl|]. destruct (index_of Aria2 s) as [idx|] eqn:Hi.
  2:{ rewrite (Sweep_lost Aria2 Aria2_wf _ _ _ Hi). apply kept_refl. }
  destruct (Sweep Aria2 (aria2_expired now ttl) false s) as [[[]|x] s'] eqn:H.
  - destruct (Sweep_ok Aria2 Aria2_wf _ _ _ _ Hi H) as (idx' & Hi' & Hk). destruct (Hk gid (aria2_no_clash _)) as [_ Hk']. clear H Hk.
    destruct Hk' as [E1 E2].
    + intros (t & _ & [Hn|(d & Hd' & He)]); [rewrite Hs in Hn; discriminate Hn|]. rewrite Hs in Hd'. injection Hd' as <-.
      rewrite (expired_held _ _ _ _ Hd Hu) in He. discriminate He.
    + split; [exact E2|]. intros idx0 H0. rewrite Hi in H0. injection H0 as <-. by exists idx'.
  - rewrite (Sweep_err Aria2 Aria2_wf _ _ _ _ H). apply kept_refl.
Qed.

(** Applying a snapshot's observation. *)
Lemma Apply_held sha256_hex source o create ttl canceled s :
  a_GID o = gid → controlled gid now s →
  (Apply sha256_hex source o create now ttl canceled s).1 ≠ Ok true ∧ (Apply sha256_hex source o create now ttl canceled s).2 = s.
Proof.
  intros Hg (data & r & Hs & Hd & Hu). unfold Apply. destruct (_ || _); [done|]. destruct canceled; [done|]. rewrite Update_root.
  enough (H : match apply_body sha256_hex source o create now ttl root s with Ok (b, s') => b = false ∧ s' = s | Err _ => True end)
    by (destruct (apply_body _ _ _ _ _ _ _ _) as [[b s']|]; [destruct H as [-> ->]|]; done).
  destruct (apply_body sha256_hex source o create now ttl root s) as [[b s']|] eqn:H; [|done]. unfold apply_body in H.
  apply tx_bind_inv in H as (linked & s1 & H1 & H).
  assert (s1 = s) as ->.
  { destruct (String.eqb _ ""); [by destruct create; injection H1|]. destruct (negb _); [done|].
    apply tx_bind_inv in H1 as (d & s2 & H2 & H1). rewrite root_get in H2. injection H2 as <- <-. by injection H1. }
  destruct linked as [linkData|]; [|by injection H as <- <-]. apply tx_bind_inv in H as (d & s1 & H2 & H).
  rewrite Hg in H2. change (Aria2Prefix +:+ gid) with (key Aria2 gid) in H2. rewrite root_get, Hs in H2. injection H2 as <- <-.
  apply tx_bind_inv in H as (base & s1 & H2 & H). unfold lift in H2.
  assert (base = None ∧ s1 = s) as [-> ->].
  { unfold observed_base in H2. destruct create; [by injection H2 as <- <-|]. cbn [andb] in H2. rewrite Hg, Hd in H2. cbn [mbind res_bind] in H2.
    rewrite controlled_stale in H2 by done. by injection H2 as <- <-. }
  by injection H as <- <-.
Qed.
End held.

(** C14: A granted control lease is exclusive until it ends.  Up to its
    deadline no other reservation succeeds, no observation is applied, neither
    a report nor one made from a snapshot, and both retention sweeps, the
    repository's and the maintenance of links and associations, keep the record
    and its index entry, whatever else they do; its holder can finish it, which
    clears the deadline, moves the revision on and marks a removal; finishing
    it a second time, or with the same lease after someone else, changes
    nothing. *)
Theorem control_lease exp until now s lease s' status remove now3 :
  ReserveControl exp until now false s = (Ok (lease, true), s') →
  u64_succ (a_Revision exp) ≠ 0 → u64_succ (a_Revision lease) ≠ 0 →
  (∀ now2, now2 < until →
     (∀ exp2 until2, a_GID exp2 = a_GID exp → now2 < until2 →
        ReserveControl exp2 until2 now2 false s' = (Ok (lease, false), s')) ∧
     (∀ o rev, a_GID o = a_GID exp → Report o rev now2 false s' = (Ok false, s')) ∧
     (∀ sha256_hex source o create ttl canceled, a_GID o = a_GID exp →
        (Apply sha256_hex source o create now2 ttl canceled s').1 ≠ Ok true ∧
        (Apply sha256_hex source o create now2 ttl canceled s').2 = s') ∧
     (∀ ttl canceled, kept (a_GID exp) s' (cleanup now2 ttl canceled s').2 ∧
        kept (a_GID exp) s' (CleanupLinksAndAria2 now2 ttl canceled s').2)) ∧
  (∃ data' idx', s' !! key Aria2 (a_GID exp) = Some data' ∧ DecodeAria2Record data' (a_GID exp) = Ok lease ∧
     index_of Aria2 s' = Ok idx' ∧ idx' !! a_GID exp = Some now) ∧
  ∃ s'' data'', FinishControl lease status remove now3 false s' = (Ok true, s'') ∧
    s'' !! key Aria2 (a_GID exp) = Some data'' ∧
    DecodeAria2Record data'' (a_GID exp) = Ok (finished_record lease lease status remove) ∧
    ∀ status2 remove2 now4, FinishControl lease status2 remove2 now4 false s'' = (Ok false, s'').
Proof.
  intros H He Hl. destruct (ReserveControl_inv _ _ _ _ _ _ H He)
    as (cur & idx & data' & Hu & Hrev & Hc & Hle & Hi & Hs & Hd). clear H.
  assert (Hcu : a_ControlUntil lease = until) by (by rewrite Hle).
  destruct (DecodeAria2_inv _ _ _ Hd) as (raw & Hraw & Hdec & Hv).
  assert (Hg : a_GID lease = a_GID exp).
  { unfold valid_aria2 in Hv. rewrite !andb_true_iff in Hv. destruct Hv as [[[[_ Hg] _] _] _].
    by apply String.eqb_eq in Hg. }
  split_and!.
  - intros now2 H2. assert (Hheld : controlled (a_GID exp) now2 s') by (exists data', lease; split_and!; [exact Hs|exact Hd|by rewrite Hcu]).
    split_and!.
    + intros exp2 until2 Hg2 H3.
      apply (reserve_held exp2 until2 now2 s' (<[a_GID exp := now]> idx) data' lease now); rewrite ?Hg2, ?Hcu;
        [exact Hi|apply lookup_insert_eq|exact Hs|exact Hd|done|done].
    + intros o rev Hg2. apply (Report_stale o rev now2 s' (<[a_GID exp := now]> idx) data' lease now); rewrite ?Hg2;
        [exact Hi|exact Hs|apply lookup_insert_eq|exact Hd|]. apply controlled_stale. by rewrite Hcu.
    + intros sha source o create ttl canceled Hg2. by apply (Apply_held (a_GID exp)).
    + intros ttl canceled. split; [by apply sweep_kept|by apply maintenance_kept].
  - exists data', (<[a_GID exp := now]> idx). split_and!; [exact Hs|exact Hd|exact Hi|apply lookup_insert_eq].
  - assert (Ht : (<[a_GID exp := now]> idx) !! a_GID lease = Some now) by (rewrite Hg; apply lookup_insert_eq).
    pose proof (finish_ok lease status remove now3 s' (<[a_GID exp := now]> idx) data' now lease Hi Ht) as Hf. rewrite Hg in Hf.
    specialize (Hf Hs Hd Hl). rewrite Z.eqb_refl, String.eqb_refl in Hf. cbn [andb] in Hf.
    destruct Hf as (s'' & data'' & Hf & Hi'' & Hs'' & Hd''). exists s'', data''.
    split; [exact Hf|]. split; [exact Hs''|]. split; [exact Hd''|]. intros status2 remove2 now4.
    destruct (decide (u64_succ (a_Revision (finished_record lease lease status remove)) = 0)) as [Hz|Hz].
    + unfold FinishControl, or_missing. rewrite Hg.
      rewrite (Mutate_kept Aria2 Aria2_wf (a_GID exp) (finish_step lease status2 remove2 now4) s'' _ data'' false now3
        Hi'' (aria2_no_clash _) Hs'' (lookup_insert_eq _ _ _)); [reflexivity|by eapply decoded_json|].
      unfold finish_step. rewrite Hg, Hd''. cbn [mbind res_bind]. cbn [finished_record a_Revision].
      destruct (Z.eqb_spec (u64_succ (a_Revision lease)) (a_Revision lease)) as [E|_]; [|done].
      exfalso. revert E. apply u64_succ_ne. by eapply decode_aria2_range.
    + pose proof (finish_ok lease status2 remove2 now4 s'' _ data'' now3 (finished_record lease lease status remove) Hi'') as Hf2. rewrite Hg in Hf2.
      specialize (Hf2 (lookup_insert_eq _ _ _) Hs'' Hd'' Hz). revert Hf2. cbn [finished_record a_Revision].
      destruct (Z.eqb_spec (u64_succ (a_Revision lease)) (a_Revision lease)) as [E|_]; [|done].
      exfalso. revert E. apply u64_succ_ne. by eapply decode_aria2_range.
Qed.

Definition sample_leased := ReserveControl sample_observed 20 9 false sample_aria2.
Definition sample_lease : Aria2Record := a_lease sample_observed 4 20.
Lemma control_lease_witness :
  ReserveControl sample_observed 20 9 false sample_aria2 = (Ok (sample_lease, true), sample_leased.2) ∧
  ∃ s'' data'', FinishControl sample_lease "paused" false 12 false sample_leased.2 = (Ok true, s'') ∧
    s'' !! key Aria2 "g1" = Some data'' ∧
    DecodeAria2Record data'' "g1" = Ok (finished_record sample_lease sample_lease "paused" false).
Proof.
  assert (H : ReserveControl sample_observed 20 9 false sample_aria2 = (Ok (sample_lease, true), sample_leased.2))
    by (vm_compute; reflexivity).
  split; [exact H|].
  assert (H1 : u64_succ (a_Revision sample_observed) ≠ 0) by (vm_compute; discriminate).
  assert (H2 : u64_succ (a_Revision sample_lease) ≠ 0) by (vm_compute; discriminate).
  destruct (control_lease sample_observed 20 9 sample_aria2 sample_lease sample_leased.2 "paused" false 12 H H1 H2)
    as (_ & _ & s'' & data'' & Hf & Hs & Hd & _).
  exists s'', data''. split; [exact Hf|]. split; [exact Hs|exact Hd].
Defined.

(** ** Local downloads *)

(** One accepted update: the next record under its old identity. *)
Definition local_next (now : Z) (id : string) (r r' : LocalRecord) : LocalRecord :=
  l_set r' (NormalizeDownloadState (l_Status r')) (u64_succ (l_Revision r)) id (l_TaskID r')
    (l_Status r') (l_CreatedAt r') now.

(** The record a store holds under [id], whatever its validity. *)
Definition local_stored (s : store) (id : string) (r : LocalRecord) : Prop :=
  ∃ idx t data, index_of Local s = Ok idx ∧ idx !! id = Some t ∧ s !! key Local id = Some data ∧
    unmarshal data = Ok r.

Lemma unmarshal_local_range v (r : LocalRecord) : unmarshal v = Ok r → in_uint64 (l_Revision r) = true.
Proof.
  intros (m & _ & H)%unmarshal_inv. change (decode_local m = Some r) in H.
  unfold decode_local in H. binds H. injection H as <-. simpl. by eapply as_uint64_range.
Qed.

(** Each update either leaves the store or moves the stored record along. *)
Lemma LUpdate_step now id change s r :
  local_stored s id r → (∀ a b, change a = Some b → wf_local b = true) →
  ((LUpdate true now id change false s).2 = s ∧ (LUpdate true now id change false s).1 ≠ Ok true) ∨
  (∃ r', change r = Some r' ∧ (LUpdate true now id change false s).1 = Ok true ∧
     DownloadTransition (l_State r) (NormalizeDownloadState (l_Status r')) = true ∧
     local_stored (LUpdate true now id change false s).2 id (local_next now id r r')).
Proof.
  intros (idx & t & data & Hi & Ht & Hs & Hu) Hwf. unfold LUpdate, or_missing. cbn [negb].
  assert (Hfst : ∀ (x : err), (match x with ErrNotFound => (Ok false, s) | _ => (Err x, s) end).2 = s ∧
     (match x with ErrNotFound => (Ok false, s) | _ => (Err x, s) end : res err bool * store).1 ≠ Ok true)
    by (intros []; done).
  destruct (local_change now id change data (default 0 (idx !! id))) as [[b [next stamp]]|x] eqn:Hf.
  2:{ rewrite (Mutate_refused Local Local_wf id _ s idx data x Hi Hs Hf). left. destruct (Hfst x). by destruct x. }
  pose proof Hf as Hf0. unfold local_change in Hf. rewrite Ht in Hf. cbn [default] in Hf.
  apply res_bind_ok in Hf as (r0 & Hr0 & Hf). unfold decodeLocalRecord in Hr0. rewrite Hu in Hr0. cbn [mbind res_bind] in Hr0.
  destruct (valid_local id r) eqn:Hv; [|done]. apply (inj Ok) in Hr0. subst r0.
  destruct (change r) as [r'|] eqn:Hch.
  - destruct (DownloadTransition (l_State r) _) eqn:Htr; cbn [negb] in Hf; [|done].
    apply (inj Ok) in Hf. injection Hf as <- <- <-.
    destruct (Mutate_ok Local Local_wf id _ s idx data _ _ _ Hi (local_no_clash _) Hs Hf0 eq_refl)
      as (s' & Hm & Hs' & Hi' & _). rewrite Hm. right. exists r'. split; [done|]. split; [reflexivity|]. split; [done|].
    exists (<[id := t]> idx), t. eexists. split; [exact Hi'|]. split; [apply lookup_insert_eq|]. split; [exact Hs'|].
    apply unmarshal_marshal. specialize (Hwf _ _ Hch). unfold wf_rec; cbn [LocalRecord_codec].
    unfold wf_local in *. cbn. rewrite !andb_true_iff in *. split_and!; try apply Hwf. apply u64_succ_range.
  - apply (inj Ok) in Hf. injection Hf as <- <- <-. rewrite Ht in Hf0.
    rewrite (Mutate_kept Local Local_wf id _ s idx data false t Hi (local_no_clash _) Hs Ht); [by left| |done].
    destruct data; [done|]. unfold unmarshal in Hu. simpl in Hu. done.
Qed.

Definition accepted (r : res err bool) : Z := match r with Ok true => 1 | _ => 0 end.
(** A run of updates of one record: how many were accepted, and the store. *)
Fixpoint local_run (id : string) (l : list (Z * (LocalRecord → option LocalRecord))) (s : store) : Z * store :=
  match l with
  | [] => (0, s)
  | (now, change) :: l =>
      let p := LUpdate true now id change false s in
      let q := local_run id l p.2 in (accepted p.1 + q.1, q.2)
  end.

Lemma accepted_refused r : r ≠ Ok true → accepted r = 0.
Proof. by destruct r as [[]|]. Qed.

Lemma local_stored_fun s id a b : local_stored s id a → local_stored s id b → a = b.
Proof. intros (? & ? & ? & _ & _ & H1 & H2) (? & ? & ? & _ & _ & H3 & H4). congruence. Qed.

(** The life of a local download under any run of updates, with any
    callbacks: the record stays stored under its ID, its revision counts the
    accepted updates, each accepted update keeps the identity, a removed
    download stays removed, a complete one stays complete or is removed, and
    updates that were all refused leave the store as it was. *)
Theorem local_history id l s r :
  local_stored s id r → Forall (λ p, ∀ a b, snd p a = Some b → wf_local b = true) l →
  ∃ r', local_stored (local_run id l s).2 id r' ∧
    l_Revision r' = (l_Revision r + (local_run id l s).1) `mod` 2^64 ∧
    ((local_run id l s).1 = 0 → (local_run id l s).2 = s) ∧
    (0 < (local_run id l s).1 → l_ID r' = id) ∧
    (l_State r = DownloadRemoved → l_State r' = DownloadRemoved) ∧
    (l_State r = DownloadComplete → l_State r' = DownloadComplete ∨ l_State r' = DownloadRemoved).
Proof.
  intros Hst Hl. revert s r Hst. induction Hl as [|[now change] l Hc Hl IH]; intros s r Hst; cbn [local_run fst snd].
  { exists r. split; [done|]. split; [|split_and!; try done; auto].
    destruct Hst as (? & ? & ? & _ & _ & _ & Hu%unmarshal_local_range). unfold in_uint64 in Hu.
    by rewrite Z.add_0_r, Z.mod_small by lia. }
  assert (Hpos : ∀ s, 0 ≤ (local_run id l s).1).
  { clear. induction l as [|[n c] l IH]; intros s; cbn [local_run fst]; [lia|].
    specialize (IH (LUpdate true n id c false s).2). unfold accepted. destruct (LUpdate _ _ _ _ _ _).1 as [[]|]; lia. }
  destruct (LUpdate_step now id change s r Hst Hc) as [[-> Hr]|(r' & _ & Hr & Htr & Hst')].
  - rewrite (accepted_refused _ Hr), !Z.add_0_l. by apply IH.
  - rewrite Hr. cbn [accepted]. destruct (IH _ _ Hst') as (r2 & H1 & H2 & H3 & H4 & H5 & H6).
    destruct (transition_terminal _ _ Htr) as [Hrem Hcom]. specialize (Hpos (LUpdate true now id change false s).2).
    set (n := (local_run id l _).1) in *. exists r2. split; [exact H1|]. split_and!.
    + rewrite H2. cbn [local_next l_set l_Revision]. unfold u64_succ. rewrite Zplus_mod_idemp_l. f_equal. lia.
    + lia.
    + intros _. destruct (decide (0 < n)) as [|Hn]; [by apply H4|].
      rewrite H3 in H1 by lia. by rewrite (local_stored_fun _ _ _ _ H1 Hst').
    + intros E. apply H5. cbn. by apply Hrem.
    + intros E. destruct (Hcom E) as [E'|E']; [apply H6|right; apply H5]; by cbn.
Qed.

Definition sample_local : LocalRecord := mkLocal "active" 1 "d" "t1" "" "" "" "" 10 0 "active" "" 0 None 5 5.
Definition sample_finish (r : LocalRecord) : option LocalRecord :=
  Some (mkLocal "" 0 "" "t1" "" "" "" "" 10 10 "complete" "" 0 None 5 5).
Definition sample_local_store : store := (Put Local "d" (marshal sample_local) 5 false ∅).2.
Lemma local_history_witness :
  ∃ r', local_stored (local_run "d" [(8, sample_finish); (9, λ r, None)] sample_local_store).2 "d" r' ∧
    l_Revision r' = (1 + (local_run "d" [(8, sample_finish); (9, λ r, None)] sample_local_store).1) `mod` 2^64.
Proof.
  assert (Hst : local_stored sample_local_store "d" sample_local).
  { exists {["d" := 5]}, 5, (marshal sample_local). split_and!; vm_compute; reflexivity. }
  assert (Hl : Forall (λ p, ∀ a b, snd p a = Some b → wf_local b = true) [(8, sample_finish); (9, λ r, None)]).
  { repeat constructor; intros a b H; [|discriminate H]. apply (inj Some) in H. by rewrite <- H. }
  destruct (local_history "d" [(8, sample_finish); (9, λ r, None)] sample_local_store sample_local Hst Hl)
    as (r' & H1 & H2 & _). exists r'. split; [exact H1|exact H2].
Defined.
