(* ===== verification/Config.v ===== *)
(** * Component configuration (rte/config/view.go, interfaces/manifest)

    Schema-checked configuration values.  A value is a JSON document, kept as
    text below the depth the schema looks at; [url.Parse] is a parameter that
    answers with the scheme and the host name. *)

From S2P Require Import Prelude Strings Storage.

(** ** JSON values of a field *)

Inductive atom :=
  | ANull
  | ABool (b : bool)
  | AInt (z : Z)          (* a number without fraction or exponent *)
  | AFloat (text : string)
  | AStr (s : string)
  | AObj (text : string)
  | AArr (text : string).
#[export] Instance atom_eq : EqDecision atom.
Proof. solve_decision. Defined.

Inductive cval := CAtom (a : atom) | CArr (l : list atom).
#[export] Instance cval_eq : EqDecision cval.
Proof. solve_decision. Defined.

(** ** manifest.ConfigField *)

Definition FString := "string".
Definition FInt := "int".
Definition FBool := "bool".
Definition FStrings := "strings".
Definition FObjects := "objects".

Record ConfigField := mkField {
  f_Name : string; f_Type : string; f_Default : cval;
  f_Choices : list string; f_Format : string; f_Secret : bool;
  f_Min : option Z; f_Max : option Z;
}.

Definition unmarshal_error {A} : res err A := Err (ErrMsg "json: cannot unmarshal").
Definition blanks : string := String (Ascii.ascii_of_nat 13) (String (Ascii.ascii_of_nat 10) (String (Ascii.ascii_of_nat 9) (String (Ascii.ascii_of_nat 32) EmptyString))).

(** config.View *)
Record View := mkView { v_values : gmap string cval; v_secrets : gmap string bool }.

Section config.
(** [url.Parse]: scheme and host name. *)
Context (url_parse : string → option (string * string)).

Definition valid_url (format value : string) : res err unit :=
  if String.eqb value "" then Ok tt
  else match url_parse value with
       | None => Err (ErrMsg "invalid url")
       | Some (scheme, host) =>
           if String.eqb host "" || ContainsAny value blanks then Err (ErrMsg "invalid url")
           else
             let allowed := (["http"; "https"] ++ (if String.eqb format "proxy" then ["socks5"; "socks5h"] else []))%list in
             if bool_decide (scheme ∈ allowed) then Ok tt else Err (ErrMsg "unsupported scheme")
       end.

Definition validate_string (f : ConfigField) (value : string) : res err unit :=
  if negb (is_nil (f_Choices f)) && negb (bool_decide (value ∈ f_Choices f))
  then Err (ErrMsg "must be one of the choices")
  else if String.eqb (f_Format f) "" then Ok tt
  else if String.eqb (f_Format f) "nonempty"
  then if String.eqb (TrimSpace value) "" then Err (ErrMsg "must not be empty") else Ok tt
  else if String.eqb (f_Format f) "url" || String.eqb (f_Format f) "proxy"
  then valid_url (f_Format f) value
  else Err (ErrMsg "unsupported string format").

Definition below (z : Z) (bound : option Z) : bool := match bound with Some m => z <? m | None => false end.
Definition above (z : Z) (bound : option Z) : bool := match bound with Some m => m <? z | None => false end.
Definition is_text (a : atom) : bool := match a with AStr _ | ANull => true | _ => false end.

Fixpoint validate_objects (l : list atom) : res err unit :=
  match l with
  | [] => Ok tt
  | ANull :: _ => Err (ErrMsg "object is required")
  | _ :: l => validate_objects l
  end.

Definition validate (f : ConfigField) (raw : cval) : res err unit :=
  if bool_decide (raw = CAtom ANull) then Err (ErrMsg "value is required")
  else if String.eqb (f_Type f) FString then
    match raw with CAtom (AStr s) => validate_string f s | _ => unmarshal_error end
  else if String.eqb (f_Type f) FBool then
    match raw with CAtom (ABool _) => Ok tt | _ => unmarshal_error end
  else if String.eqb (f_Type f) FObjects then
    match raw with
    | CArr l => if forallb (λ a, match a with AObj _ | ANull => true | _ => false end) l
                then validate_objects l else unmarshal_error
    | _ => unmarshal_error
    end
  else if String.eqb (f_Type f) FStrings then
    match raw with CArr l => if forallb is_text l then Ok tt else unmarshal_error | _ => unmarshal_error end
  else if String.eqb (f_Type f) FInt then
    match raw with
    | CAtom (AInt z) =>
        if negb (in_int64 z) then unmarshal_error
        else if below z (f_Min f) then Err (ErrMsg "below the minimum")
        else if above z (f_Max f) then Err (ErrMsg "above the maximum")
        else Ok tt
    | _ => unmarshal_error
    end
  else Err (ErrMsg "unsupported field type").

Fixpoint config_fields (schema : list ConfigField) (values : gmap string cval) (v : View) : res err View :=
  match schema with
  | [] => Ok v
  | f :: schema =>
      if String.eqb (f_Name f) "" then Err (ErrMsg "empty config field name")
      else match v_values v !! f_Name f with
           | Some _ => Err (ErrMsg "duplicate field")
           | None =>
               let raw := default (f_Default f) (values !! f_Name f) in
               _ ← validate f raw;
               config_fields schema values
                 (mkView (<[f_Name f := raw]> (v_values v)) (<[f_Name f := f_Secret f]> (v_secrets v)))
           end
  end.

(** config.New *)
Definition ConfigNew (schema : list ConfigField) (values : gmap string cval) : res err View :=
  v ← config_fields schema values (mkView ∅ ∅);
  if forallb (λ '(name, _), bool_decide (is_Some (v_values v !! name))) (map_to_list values)
  then Ok v else Err (ErrMsg "undeclared config field").
End config.

(** View.Equal *)
Definition ViewEqual (v other : View) : bool :=
  bool_decide (size (v_values v) = size (v_values other)) &&
  forallb (λ '(name, raw), bool_decide (v_values other !! name = Some raw)) (map_to_list (v_values v)).

(** View.Get *)
Definition ViewGet (v : View) (name : string) : res err cval :=
  match v_values v !! name with Some raw => Ok raw | None => Err (ErrMsg "config access denied") end.

(** ** What a view holds *)

Lemma ViewEqual_spec v o : ViewEqual v o = true ↔ v_values v = v_values o.
Proof.
  unfold ViewEqual. rewrite andb_true_iff, bool_decide_eq_true, forallb_forall. split.
  - intros [Hs Hf]. apply map_subseteq_size_eq; [|lia]. apply map_subseteq_spec. intros k x Hk.
    specialize (Hf (k, x)). rewrite bool_decide_eq_true in Hf. apply Hf.
    apply list_elem_of_In. by apply elem_of_map_to_list.
  - intros ->. split; [done|]. intros [k x] Hk. apply list_elem_of_In, elem_of_map_to_list in Hk.
    by apply bool_decide_eq_true.
Qed.

Lemma config_fields_spec up schema values v v' :
  config_fields up schema values v = Ok v' →
  NoDup (f_Name <$> schema) ∧
  (∀ f, f ∈ schema → v_values v !! f_Name f = None ∧
     v_values v' !! f_Name f = Some (default (f_Default f) (values !! f_Name f)) ∧
     validate up f (default (f_Default f) (values !! f_Name f)) = Ok tt) ∧
  (∀ n, n ∉ f_Name <$> schema → v_values v' !! n = v_values v !! n).
Proof.
  revert v. induction schema as [|f schema IH]; intros v; cbn [config_fields fmap list_fmap].
  { intros [= <-]. split_and!; [constructor|intros f Hf; by apply elem_of_nil in Hf|done]. }
  destruct (String.eqb _ _); [done|]. destruct (v_values v !! f_Name f) eqn:Hf; [done|].
  intros ([] & Hv & H)%res_bind_ok. destruct (IH _ H) as (Hd & Hin & Hout). cbn [v_values] in *. clear IH H.
  assert (Hfresh : f_Name f ∉ f_Name <$> schema).
  { intros (g & Hg & Hgs)%list_elem_of_fmap. destruct (Hin g Hgs) as [Hnone _]. by rewrite <- Hg, lookup_insert_eq in Hnone. }
  split_and!.
  - by constructor.
  - intros g [->|Hg]%elem_of_cons.
    + split; [done|]. by rewrite Hout, lookup_insert_eq by done.
    + destruct (Hin g Hg) as (H1 & H2 & H3). split; [|done]. rewrite lookup_insert_ne in H1; [done|].
      intros E. rewrite E in Hfresh. apply Hfresh. by apply list_elem_of_fmap_2.
  - intros n Hn. rewrite not_elem_of_cons in Hn. destruct Hn as [Hn1 Hn2].
    rewrite Hout by done. by rewrite lookup_insert_ne.
Qed.

(** A view holds exactly the schema's fields, each valid, from the values
    given or the defaults. *)
Lemma ConfigNew_spec up schema values v :
  ConfigNew up schema values = Ok v →
  NoDup (f_Name <$> schema) ∧
  (∀ f, f ∈ schema → v_values v !! f_Name f = Some (default (f_Default f) (values !! f_Name f)) ∧
     validate up f (default (f_Default f) (values !! f_Name f)) = Ok tt) ∧
  (∀ n, is_Some (v_values v !! n) ↔ n ∈ f_Name <$> schema) ∧
  (∀ n, is_Some (values !! n) → n ∈ f_Name <$> schema).
Proof.
  unfold ConfigNew. intros (v' & H & Hf)%res_bind_ok.
  destruct (forallb _ _) eqn:Hall; [|done]. injection Hf as ->.
  destruct (config_fields_spec _ _ _ _ _ H) as (Hd & Hin & Hout).
  assert (Hdom : ∀ n, is_Some (v_values v !! n) ↔ n ∈ f_Name <$> schema).
  { intros n. split.
    - destruct (decide (n ∈ f_Name <$> schema)) as [|Hn]; [done|]. rewrite (Hout _ Hn). cbn. rewrite lookup_empty. by intros [].
    - intros (f & -> & Hfs)%list_elem_of_fmap. destruct (Hin f Hfs) as (_ & -> & _). eauto. }
  split; [done|]. split; [intros f Hfs; by apply Hin|]. split; [done|].
  intros n [x Hn]. apply Hdom. rewrite forallb_forall in Hall.
  specialize (Hall (n, x)). rewrite bool_decide_eq_true in Hall. apply Hall.
  apply list_elem_of_In. by apply elem_of_map_to_list.
Qed.
