(* ===== verification/Rte.v ===== *)
(** * Component runtime (rte/rte.go, rte/reconcile_components.go)

    Registration, the static dependency check and start order of [Build], and
    the lifecycle operations [Start], [Stop], [Reconfigure] and
    [ReconcileComponents].  Components, the event bus and the runnables are
    outside the runtime: every call to them is answered by [hook], an
    arbitrary function with a state of its own, and recorded in a log.  All
    operations hold the runtime's mutex, so they are sequential. *)

From stdpp Require Import sorting.
From S2P Require Import Prelude Strings Storage Config.
Local Open Scope list_scope.

(** ** Manifests *)

(** A [reflect.Type]: its identity and whether it is an interface. *)
Record ptype := mkType { pt_id : string; pt_interface : bool }.
#[export] Instance ptype_eq : EqDecision ptype.
Proof. solve_decision. Defined.

Record Port := mkPort { po_Name : string; po_Major : Z; po_Minor : Z; po_Type : option ptype }.
Record Require := mkRequire { rq_Port : Port; rq_Optional : bool }.
Record Page := mkPage { pg_Path : string; pg_Title : string }.
Record Manifest := mkManifest {
  m_ID : string; m_Provides : list Port; m_Requires : list Require;
  m_Config : list ConfigField; m_Pages : list Page;
}.

(** A factory by its identity. *)
Record Registration := mkRegistration { rg_Manifest : Manifest; rg_New : Z }.
Abbreviation registry := (gmap string Registration).

Section register.
(** [url.ParseRequestURI]: host and scheme. *)
Context (parse_request_uri : string → option (string * string)).

Definition page_ok (p : Page) (seen : list string) : bool :=
  match parse_request_uri (pg_Path p) with
  | None => false
  | Some (host, scheme) =>
      HasPrefix (pg_Path p) "/" && negb (HasPrefix (pg_Path p) "//") && negb (ContainsAny (pg_Path p) "\")
      && String.eqb host "" && String.eqb scheme "" && negb (String.eqb (pg_Title p) "")
      && negb (bool_decide (pg_Path p ∈ seen))
  end.
Fixpoint pages_ok (pages : list Page) (seen : list string) : bool :=
  match pages with [] => true | p :: pages => page_ok p seen && pages_ok pages (pg_Path p :: seen) end.

(** [Registry.Register]; [None] is the nil factory. *)
Definition RteRegister (r : registry) (m : Manifest) (factory : option Z) : res err registry :=
  match factory with
  | None => Err (ErrMsg "component ID and factory are required")
  | Some f =>
      if String.eqb (m_ID m) "" then Err (ErrMsg "component ID and factory are required")
      else match r !! m_ID m with
           | Some _ => Err (ErrMsg "duplicate component")
           | None =>
               if pages_ok (m_Pages m) [] then Ok (<[m_ID m := mkRegistration m f]> r)
               else Err (ErrMsg "invalid or duplicate component page")
           end
  end.
End register.

(** ** Instances *)

Inductive State := Starting | Stopping | Running | Failed | Blocked | Stopped.
#[export] Instance State_eq : EqDecision State.
Proof. solve_decision. Defined.

Record Status := mkStatus { st_ID : string; st_State : State; st_Detail : string }.

(** A port value: its identity, whether [isNil] holds of it and the interface
    types it implements. *)
Record pvalue := mkValue { pv_id : Z; pv_nil : bool; pv_implements : list ptype }.

Record observation := mkObservation {
  ob_status : Status; ob_config : View; ob_bindings : gmap string pvalue }.

Record instance := mkInstance {
  in_registration : Registration;
  in_config : View;
  in_status : Status;
  in_initialized : bool;
  in_ctx : option bool;       (* its context: not made yet, live or canceled *)
  in_runnables : bool;        (* the runnable group exists *)
  in_bindings : gmap string pvalue;
  in_observation : option observation;
}.
Definition in_manifest (i : instance) : Manifest := rg_Manifest (in_registration i).
Definition in_state (i : instance) : State := st_State (in_status i).
Definition is_running (i : instance) : bool := bool_decide (in_state i = Running).

(** [setStatus] *)
Definition setStatus (s : Status) (i : instance) : instance :=
  mkInstance (in_registration i) (in_config i) s (in_initialized i) (in_ctx i) (in_runnables i)
    (in_bindings i) (Some (mkObservation s (in_config i) (in_bindings i))).
Definition set_initialized (b : bool) (i : instance) : instance :=
  mkInstance (in_registration i) (in_config i) (in_status i) b (in_ctx i) (in_runnables i)
    (in_bindings i) (in_observation i).
Definition set_ctx (c : option bool) (r : bool) (i : instance) : instance :=
  mkInstance (in_registration i) (in_config i) (in_status i) (in_initialized i) c r
    (in_bindings i) (in_observation i).
Definition set_bindings (b : gmap string pvalue) (i : instance) : instance :=
  mkInstance (in_registration i) (in_config i) (in_status i) (in_initialized i) (in_ctx i) (in_runnables i)
    b (in_observation i).
Definition set_config (v : View) (i : instance) : instance :=
  mkInstance (in_registration i) v (in_status i) (in_initialized i) (in_ctx i) (in_runnables i)
    (in_bindings i) (in_observation i).
(** [if item.cancel != nil { item.cancel() }] *)
Definition cancel_ctx (i : instance) : instance :=
  set_ctx (match in_ctx i with Some _ => Some false | None => None end) (in_runnables i) i.

Record Runtime := mkRuntime {
  rt_registry : registry;
  rt_order : list string;
  rt_instances : gmap string instance;
  rt_observed : list string;
  rt_providers : gmap string string;
  rt_ports : gmap string pvalue;
  rt_account : string;
  rt_started : bool; rt_stopped : bool; rt_stopping : bool;
}.

(** ** Build *)

Definition validatePort (p : Port) : res err unit :=
  if String.eqb (po_Name p) "" || (po_Major p <? 1) || (po_Minor p <? 0)
     || negb (match po_Type p with Some t => pt_interface t | None => false end)
  then Err (ErrMsg "invalid port declaration") else Ok tt.

Fixpoint fold_res {A B} (f : A → B → res err B) (l : list A) (b : B) : res err B :=
  match l with [] => Ok b | x :: l => b' ← f x b; fold_res f l b' end.

(** Instances and providers gathered by the first pass. *)
Record graph := mkGraph {
  g_instances : gmap string instance; g_providers : gmap string string; g_provided : gmap string Port }.

Definition add_provider (id : string) (p : Port) (g : graph) : res err graph :=
  _ ← validatePort p;
  match g_providers g !! po_Name p with
  | Some _ => Err (ErrMsg "port provided twice")
  | None => Ok (mkGraph (g_instances g) (<[po_Name p := id]> (g_providers g)) (<[po_Name p := p]> (g_provided g)))
  end.

Section build.
Context (url_parse : string → option (string * string)).

Definition new_instance (entry : Registration) (id : string) (view : View) : instance :=
  mkInstance entry view (mkStatus id Stopped "") false None false ∅ None.

Definition add_component (r : registry) (values : gmap string (gmap string cval)) (id : string) (g : graph)
    : res err graph :=
  match r !! id with
  | None => Ok g
  | Some entry =>
      view ← ConfigNew url_parse (m_Config (rg_Manifest entry)) (default ∅ (values !! id));
      fold_res (add_provider id) (m_Provides (rg_Manifest entry))
        (mkGraph (<[id := new_instance entry id view]> (g_instances g)) (g_providers g) (g_provided g))
  end.

(** One requirement of a component: the names seen and the dependencies. *)
Definition add_requirement (g : graph) (req : Require) (acc : list string * list string)
    : res err (list string * list string) :=
  let '(seen, deps) := acc in
  let p := rq_Port req in
  _ ← validatePort p;
  if bool_decide (po_Name p ∈ seen) then Err (ErrMsg "duplicate required port")
  else match g_providers g !! po_Name p with
       | None => if rq_Optional req then Ok (po_Name p :: seen, deps) else Err (ErrMsg "no enabled provider")
       | Some provider =>
           match g_provided g !! po_Name p with
           | None => Err (ErrMsg "no enabled provider")
           | Some q =>
               if bool_decide (po_Type q = po_Type p) && (po_Major q =? po_Major p) && negb (po_Minor q <? po_Minor p)
               then Ok (po_Name p :: seen, deps ++ [provider])
               else Err (ErrMsg "incompatible port")
           end
       end.

Definition component_deps (r : registry) (g : graph) (id : string) (deps : gmap string (list string))
    : res err (gmap string (list string)) :=
  match r !! id with
  | None => Ok deps
  | Some entry =>
      '(_, l) ← fold_res (add_requirement g) (m_Requires (rg_Manifest entry)) ([], []);
      Ok (<[id := l]> deps)
  end.

(** Depth-first order; [ErrMsg] is a cycle, fuel is the number of components. *)
Record dfs := mkDfs { d_visiting : list string; d_done : list string; d_order : list string }.
Definition cycle_error : err := ErrMsg "component dependency cycle".
Definition fuel_error : err := ErrNotFound.

Fixpoint visit (deps : gmap string (list string)) (fuel : nat) (id : string) (d : dfs) : res err dfs :=
  match fuel with
  | O => Err fuel_error
  | S fuel =>
      if bool_decide (id ∈ d_visiting d) then Err cycle_error
      else if bool_decide (id ∈ d_done d) then Ok d
      else
        d' ← fold_res (visit deps fuel) (default [] (deps !! id))
               (mkDfs (id :: d_visiting d) (d_done d) (d_order d));
        Ok (mkDfs (filter (λ x, x ≠ id) (d_visiting d')) (id :: d_done d') (d_order d' ++ [id]))
  end.

(** The order of the components, given their sorted IDs. *)
Definition topo (deps : gmap string (list string)) (ids : list string) : res err (list string) :=
  d ← fold_res (visit deps (S (length ids))) ids (mkDfs [] [] []);
  Ok (d_order d).

(** [sort.Strings] *)
Definition str_le (a b : string) : Prop := str_leb a b = true.
#[export] Instance str_le_dec : RelDecision str_le.
Proof. intros a b. unfold str_le. apply _. Defined.

Definition is_enabled (enabled : option (gmap string bool)) (id : string) : bool :=
  match enabled with None => true | Some e => default false (e !! id) end.
Definition enabled_ids (r : registry) (enabled : option (gmap string bool)) : list string :=
  merge_sort str_le
    (filter (λ id, is_enabled enabled id = true) (map_to_list r).*1).

Definition known (r : registry) {A} (m : gmap string A) : bool :=
  forallb (λ '(id, _), bool_decide (is_Some (r !! id))) (map_to_list m).

Definition Build (r : registry) (account : string) (enabled : option (gmap string bool))
    (values : gmap string (gmap string cval)) : res err Runtime :=
  if String.eqb account "" then Err (ErrMsg "account is required")
  else if negb (match enabled with None => true | Some e => known r e end) then Err (ErrMsg "unknown component")
  else if negb (known r values) then Err (ErrMsg "unknown component config")
  else
    let ids := enabled_ids r enabled in
    g ← fold_res (add_component r values) ids (mkGraph ∅ ∅ ∅);
    deps ← fold_res (component_deps r g) ids ∅;
    order ← topo deps ids;
    Ok (mkRuntime r order ((λ i, setStatus (in_status i) i) <$> g_instances g) order
          (g_providers g) ∅ account false false false).
End build.

(** ** Calls to the components *)

Inductive call :=
  | CNew (id : string) (factory : Z)
  | CInit (id : string) (config : View) (required : gmap string pvalue)
  | CStart (id : string)
  | CStop (id : string)
  | CReconfigure (id : string) (config : View)
  | CWaitScope (id : string)      (* bus.WaitScope of the component's context *)
  | CDrain (id : string)          (* runnables.Stop *)
  | CBusClose.

(** The error, panics included, and the ports [Init] provided. *)
Record answer := mkAnswer { an_error : option string; an_provides : list (string * pvalue) }.

Section lifecycle.
Context (url_parse : string → option (string * string)).
Context {W : Type} (hook : call → W → answer * W).

Record sys := mkSys { y_rt : Runtime; y_world : W; y_log : list (call * answer) }.

Definition do_call (c : call) (y : sys) : answer * sys :=
  let '(a, w) := hook c (y_world y) in (a, mkSys (y_rt y) w (y_log y ++ [(c, a)])).
Definition with_rt (f : Runtime → Runtime) (y : sys) : sys := mkSys (f (y_rt y)) (y_world y) (y_log y).

Definition set_instances (m : gmap string instance) (r : Runtime) : Runtime :=
  mkRuntime (rt_registry r) (rt_order r) m (rt_observed r) (rt_providers r) (rt_ports r) (rt_account r)
    (rt_started r) (rt_stopped r) (rt_stopping r).
Definition set_ports (p : gmap string pvalue) (r : Runtime) : Runtime :=
  mkRuntime (rt_registry r) (rt_order r) (rt_instances r) (rt_observed r) (rt_providers r) p (rt_account r)
    (rt_started r) (rt_stopped r) (rt_stopping r).
Definition set_flags (started stopped stopping : bool) (r : Runtime) : Runtime :=
  mkRuntime (rt_registry r) (rt_order r) (rt_instances r) (rt_observed r) (rt_providers r) (rt_ports r)
    (rt_account r) started stopped stopping.
Definition upd_instance (id : string) (f : instance → instance) (r : Runtime) : Runtime :=
  set_instances (alter f id (rt_instances r)) r.
Definition item (id : string) (y : sys) : option instance := rt_instances (y_rt y) !! id.
Definition upd (id : string) (f : instance → instance) : sys → sys := with_rt (upd_instance id f).

(** [delete(r.ports, p.Name)] for every provided port. *)
Definition drop_ports (m : Manifest) (ports : gmap string pvalue) : gmap string pvalue :=
  foldl (λ ps p, delete (po_Name p) ps) ports (m_Provides m).
Definition release_ports (m : Manifest) : sys → sys :=
  with_rt (λ r, set_ports (drop_ports m (rt_ports r)) r).

Definition statuses (r : Runtime) : list Status :=
  omap (λ id, in_status <$> rt_instances r !! id) (rt_order r).

(** The first required provider that is not running. *)
Fixpoint unavailable (r : Runtime) (reqs : list Require) : option string :=
  match reqs with
  | [] => None
  | req :: reqs =>
      let provider := default "" (rt_providers r !! po_Name (rq_Port req)) in
      if negb (rq_Optional req)
         && negb (match rt_instances r !! provider with Some i => is_running i | None => false end)
      then Some provider else unavailable r reqs
  end.

(** [kernel.provide], for the ports Init offers in turn. *)
Definition provide (m : Manifest) (bindings : gmap string pvalue) (x : string * pvalue) : gmap string pvalue :=
  let '(name, v) := x in
  match list_find (λ p, po_Name p = name) (m_Provides m) with
  | None => bindings
  | Some (_, p) =>
      if pv_nil v || negb (match po_Type p with Some t => bool_decide (t ∈ pv_implements v) | None => false end)
      then bindings
      else match bindings !! name with Some _ => bindings | None => <[name := v]> bindings end
  end.
Definition bind_ports (m : Manifest) (l : list (string * pvalue)) : gmap string pvalue :=
  foldl (provide m) ∅ l.

Definition required_ports (r : Runtime) (m : Manifest) : gmap string pvalue :=
  list_to_map (omap (λ req, pair (po_Name (rq_Port req)) <$> rt_ports r !! po_Name (rq_Port req)) (m_Requires m)).

Definition all_bound (m : Manifest) (ports : gmap string pvalue) : bool :=
  forallb (λ p, bool_decide (is_Some (ports !! po_Name p))) (m_Provides m).

(** The body run under [invoke]: the error of New, Init, binding or Start. *)
Definition bring_up (id : string) (i : instance) (y : sys) : option string * sys :=
  let m := in_manifest i in
  let required := required_ports (y_rt y) m in
  let '(a, y) := do_call (CNew id (rg_New (in_registration i))) y in
  match an_error a with
  | Some e => (Some e, y)
  | None =>
      let y := upd id (set_initialized true) y in
      let '(a, y) := do_call (CInit id (in_config i) required) y in
      match an_error a with
      | Some e => (Some e, y)
      | None =>
          let b := bind_ports m (an_provides a) in
          let y := with_rt (λ r, set_ports (b ∪ rt_ports r) r) (upd id (set_bindings b) y) in
          if all_bound m (rt_ports (y_rt y)) then
            let '(a, y) := do_call (CStart id) y in (an_error a, y)
          else (Some "port was not bound", y)
      end
  end.

(** Cleaning up after a failed start. *)
Definition bring_down (id : string) (m : Manifest) (e : string) (y : sys) : sys :=
  let y := upd id cancel_ctx y in
  let '(a1, y) := do_call (CWaitScope id) y in
  let '(a2, y) := do_call (CDrain id) y in
  let initialized := match item id y with Some i => in_initialized i | None => false end in
  let y :=
    match an_error a1, an_error a2 with
    | None, None =>
        if initialized then
          let '(a, y) := do_call (CStop id) y in
          upd id (set_initialized (match an_error a with Some _ => true | None => false end)) y
        else y
    | _, _ => y
    end in
  upd id (setStatus (mkStatus id Failed e)) (release_ports m y).

(** One component of [startLocked]. *)
Definition start_component (id : string) (y : sys) : sys :=
  match item id y with
  | None => y
  | Some i =>
      if is_running i then y
      else
        let y := match unavailable (y_rt y) (m_Requires (in_manifest i)) with
                 | Some p => upd id (setStatus (mkStatus id Blocked ("dependency unavailable: " +:+ p))) y
                 | None => y
                 end in
        if match item id y with Some i => bool_decide (in_state i = Blocked) | None => true end then y
        else
          let y := upd id (setStatus (mkStatus id Starting "")) (upd id (set_ctx (Some true) true) y) in
          match bring_up id i y with
          | (Some e, y) => bring_down id (in_manifest i) e y
          | (None, y) => upd id (setStatus (mkStatus id Running "")) y
          end
  end.

Definition startLocked (y : sys) : list Status * sys :=
  let y := with_rt (λ r, set_flags true (rt_stopped r) (rt_stopping r) r) y in
  let y := foldl (λ y id, start_component id y) y (rt_order (y_rt y)) in
  (statuses (y_rt y), y).

(** [Start] *)
Definition RteStart (y : sys) : list Status * sys :=
  let r := y_rt y in
  if rt_started r || rt_stopped r || rt_stopping r then (statuses r, y) else startLocked y.

(** [resolveComponentPort]; [""] asks any component. *)
Definition resolveComponentPort (r : Runtime) (id name : string) : res err pvalue :=
  match omap (λ x, i ← rt_instances r !! x; o ← in_observation i;
               if bool_decide (st_State (ob_status o) = Running)
                  && (String.eqb id "" || String.eqb (st_ID (ob_status o)) id)
               then ob_bindings o !! name else None) (rt_observed r) with
  | v :: _ => Ok v
  | [] => Err (ErrMsg "port unavailable")
  end.

(** [Reconfigure] *)
Definition RteReconfigure (id : string) (values : gmap string cval) (canceled : bool) (y : sys) : res err unit * sys :=
  if canceled then (Err ErrCanceled, y)
  else match item id y with
       | None => (Err (ErrMsg "unknown component"), y)
       | Some i =>
           match ConfigNew url_parse (m_Config (in_manifest i)) values with
           | Err x => (Err x, y)
           | Ok view =>
               if negb (is_running i) then (Err (ErrMsg "component is not running"), y)
               else if ViewEqual (in_config i) view then (Ok tt, y)
               else
                 let '(a, y) := do_call (CReconfigure id view) y in
                 match an_error a with
                 | Some e => (Err (ErrMsg e), y)
                 | None => (Ok tt, upd id (λ i, setStatus (in_status i) (set_config view i)) y)
                 end
           end
       end.

(** ** Stop *)

Definition stop_mark (i : instance) : instance :=
  let i := if in_initialized i then setStatus (mkStatus (st_ID (in_status i)) Stopping "") i else i in
  cancel_ctx i.

(** Drain the runnables in order, up to the first failure. *)
Fixpoint drain_all (ids : list string) (y : sys) : option string * sys :=
  match ids with
  | [] => (None, y)
  | id :: ids =>
      if match item id y with Some i => in_runnables i | None => false end then
        let '(a, y) := do_call (CDrain id) y in
        match an_error a with
        | Some e => (Some e, upd id (setStatus (mkStatus id Failed e)) y)
        | None => drain_all ids y
        end
      else drain_all ids y
  end.

(** Release the components of [ids], the reversed start order. *)
Fixpoint stop_all (ids : list string) (y : sys) : option string * sys :=
  match ids with
  | [] => (None, y)
  | id :: ids =>
      match item id y with
      | None => stop_all ids y
      | Some i =>
          if negb (in_initialized i) then stop_all ids (upd id (setStatus (mkStatus id Stopped "")) y)
          else
            let '(a, y) := do_call (CStop id) y in
            match an_error a with
            | Some e => (Some e, upd id (setStatus (mkStatus id Failed e)) y)
            | None =>
                stop_all ids (release_ports (in_manifest i)
                  (upd id (λ i, setStatus (mkStatus id Stopped "") (set_initialized false i)) y))
            end
      end
  end.

(** [Stop] *)
Definition RteStop (y : sys) : option string * sys :=
  let r := y_rt y in
  if rt_stopped r then (None, y)
  else
    let y := with_rt (λ r, set_instances (stop_mark <$> rt_instances r)
                             (set_flags (rt_started r) (rt_stopped r) true r)) y in
    let '(a, y) := do_call CBusClose y in
    match an_error a with
    | Some e =>
        (Some e, with_rt (λ r, set_instances ((λ i, if in_initialized i
           then setStatus (mkStatus (st_ID (in_status i)) Failed e) i else i) <$> rt_instances r) r) y)
    | None =>
        match drain_all (rt_order (y_rt y)) y with
        | (Some e, y) => (Some e, y)
        | (None, y) =>
            match stop_all (rev (rt_order (y_rt y))) y with
            | (Some e, y) => (Some e, y)
            | (None, y) =>
                (None, with_rt (λ r, set_flags (rt_started r) true (rt_stopping r) (set_ports ∅ r)) y)
            end
        end
    end.

(** ** ReconcileComponents *)

(** The components that are gone or not running. *)
Definition seeds (r desired : Runtime) : list string :=
  (filter (λ '(id, i), rt_instances desired !! id = None ∨ in_state i ≠ Running) (map_to_list (rt_instances r))).*1.

(** A provider of [i] disappears, changes or is itself affected. *)
Definition rebinds (r desired : Runtime) (affected : list string) (i : instance) : bool :=
  existsb (λ req, let n := po_Name (rq_Port req) in
             let old := default "" (rt_providers r !! n) in
             negb (String.eqb old (default "" (rt_providers desired !! n))) || bool_decide (old ∈ affected))
    (m_Requires (in_manifest i)).
Definition closure_pass (r desired : Runtime) (affected : list string) : list string :=
  foldl (λ aff '(id, i), if negb (bool_decide (id ∈ aff)) && rebinds r desired aff i then id :: aff else aff)
    affected (map_to_list (rt_instances r)).
(** [for changed := true; changed;]: every round but the last adds one. *)
Fixpoint closure (r desired : Runtime) (fuel : nat) (affected : list string) : list string :=
  match fuel with
  | O => affected
  | S fuel =>
      let next := closure_pass r desired affected in
      if bool_decide (next = affected) then affected else closure r desired fuel next
  end.
Definition affected_by (r desired : Runtime) : list string :=
  closure r desired (S (size (rt_instances r))) (seeds r desired).

(** Drain and stop the affected components of [ids], the reversed order. *)
Fixpoint retire (affected ids : list string) (y : sys) : option string * sys :=
  match ids with
  | [] => (None, y)
  | id :: ids =>
      if negb (bool_decide (id ∈ affected)) then retire affected ids y
      else match item id y with
      | None => retire affected ids y
      | Some i =>
          let finish y := retire affected ids
            (upd id (setStatus (mkStatus id Stopped "")) (release_ports (in_manifest i) y)) in
          let '(a, y) := do_call (CWaitScope id) y in
          match an_error a with
          | Some e => (Some e, y)
          | None =>
              let '(e, y) := if in_runnables i then let '(a, y) := do_call (CDrain id) y in (an_error a, y)
                             else (None, y) in
              match e with
              | Some e => (Some e, y)
              | None =>
                  if in_initialized i then
                    let '(a, y) := do_call (CStop id) y in
                    match an_error a with
                    | Some e => (Some e, y)
                    | None => finish (upd id (set_initialized false) y)
                    end
                  else finish y
              end
          end
      end
  end.

Definition adopt (affected : list string) (r desired : Runtime) : Runtime :=
  mkRuntime (rt_registry desired) (rt_order desired)
    (map_imap (λ id i, match rt_instances r !! id with
                       | Some current => if bool_decide (id ∈ affected) then Some i else Some current
                       | None => Some i
                       end) (rt_instances desired))
    (rt_order desired) (rt_providers desired) (rt_ports r) (rt_account r)
    (rt_started r) (rt_stopped r) (rt_stopping r).

(** The result lists the components left failed or blocked. *)
Definition ReconcileComponents (desired : option Runtime) (canceled : bool) (y : sys) : res err (list Status) * sys :=
  let r := y_rt y in
  if canceled then (Err ErrCanceled, y)
  else match desired with
  | None => (Err (ErrMsg "invalid component reconciliation lifecycle"), y)
  | Some d =>
      if rt_stopping r || rt_stopped r || rt_started d || negb (String.eqb (rt_account d) (rt_account r))
      then (Err (ErrMsg "invalid component reconciliation lifecycle"), y)
      else
        let aff := affected_by r d in
        let y := with_rt (set_instances (map_imap (λ id i, Some (if bool_decide (id ∈ aff)
                   then setStatus (mkStatus id Stopping "") (cancel_ctx i) else i)) (rt_instances r))) y in
        match retire aff (rev (rt_order r)) y with
        | (Some e, y) => (Err (ErrMsg e), y)
        | (None, y) =>
            let '(sts, y) := startLocked (with_rt (λ r, adopt aff r d) y) in
            (Ok (filter (λ s, st_State s = Failed ∨ st_State s = Blocked) sts), y)
        end
  end.

(** [ReconcileSaved], with the documents [store.Load] returned. *)
Definition ReconcileSaved (enabled : gmap string bool) (values : gmap string (gmap string cval))
    (canceled : bool) (y : sys) : res err (list Status) * sys :=
  let r := y_rt y in
  if rt_stopped r || rt_stopping r then (Ok [], y)
  else match Build url_parse (rt_registry r) (rt_account r) (Some enabled) values with
       | Err x => (Err x, y)
       | Ok d => ReconcileComponents (Some d) canceled y
       end.

(** ** The operations *)

Inductive rt_op :=
  | OpStart
  | OpReconfigure (id : string) (values : gmap string cval) (canceled : bool)
  | OpReconcile (enabled : option (gmap string bool)) (values : gmap string (gmap string cval)) (canceled : bool)
  | OpStop.

Definition rt_step (o : rt_op) (y : sys) : sys :=
  match o with
  | OpStart => (RteStart y).2
  | OpReconfigure id values canceled => (RteReconfigure id values canceled y).2
  | OpReconcile enabled values canceled =>
      match Build url_parse (rt_registry (y_rt y)) (rt_account (y_rt y)) enabled values with
      | Ok d => (ReconcileComponents (Some d) canceled y).2
      | Err _ => y
      end
  | OpStop => (RteStop y).2
  end.
Definition rt_run (l : list rt_op) (y : sys) : sys := foldl (λ y o, rt_step o y) y l.
End lifecycle.
