(* ===== verification/RteBuild.v ===== *)
(** * The start order of the runtime

    Correctness of the depth-first order of Rte.v, and what a successful
    [Build] establishes. *)

From stdpp Require Import sorting relations.
From S2P Require Import Prelude Strings Storage Config Rte.
Local Open Scope list_scope.

(** ** [fold_res] *)

Lemma fold_res_inv {A B} (f : A → B → res err B) (P : B → Prop) l : ∀ b b',
  P b → (∀ x b b', x ∈ l → P b → f x b = Ok b' → P b') → fold_res f l b = Ok b' → P b'.
Proof.
  induction l as [|x l IH]; intros b b' Hb Hf; cbn [fold_res]; [by intros [= <-]|].
  intros (b1 & H1 & H2)%res_bind_ok. eapply (IH b1); [|intros; eapply Hf; eauto; by right|exact H2].
  eapply Hf; [left|exact Hb|exact H1].
Qed.

Lemma fold_res_app {A B} (f : A → B → res err B) l1 l2 b :
  fold_res f (l1 ++ l2) b = b' ← fold_res f l1 b; fold_res f l2 b'.
Proof.
  revert b. induction l1 as [|x l1 IH]; intros b; [done|]. cbn [fold_res app].
  destruct (f x b) as [b1|e]; [|done]. cbn [mbind res_bind]. apply IH.
Qed.

(** Each element was visited at some intermediate value. *)
Lemma fold_res_at {A B} (f : A → B → res err B) l b b' x :
  fold_res f l b = Ok b' → x ∈ l →
  ∃ l1 l2 b1 b2, l = l1 ++ x :: l2 ∧ fold_res f l1 b = Ok b1 ∧ f x b1 = Ok b2 ∧ fold_res f l2 b2 = Ok b'.
Proof.
  intros H (l1 & l2 & ->)%list_elem_of_split. rewrite fold_res_app in H.
  apply res_bind_ok in H as (b1 & H1 & H). cbn [fold_res] in H. apply res_bind_ok in H as (b2 & H2 & H3).
  by exists l1, l2, b1, b2.
Qed.

(** ** Depth-first order *)

Section dfs.
Context (deps : gmap string (list string)).

Definition edge (x y : string) : Prop := y ∈ default [] (deps !! x).

(** Everything in [l] comes after what it depends on. *)
Definition sorted_by (l : list string) : Prop :=
  ∀ x l1 l2, l = l1 ++ x :: l2 → ∀ y, edge x y → y ∈ l1.

Record dfs_inv (d : dfs) : Prop := {
  di_same : ∀ x, x ∈ d_done d ↔ x ∈ d_order d;
  di_nodup : NoDup (d_order d);
  di_sorted : sorted_by (d_order d);
  di_fresh : ∀ x, x ∈ d_visiting d → x ∉ d_done d;
}.

Definition dfs_step (id : string) (d d' : dfs) : Prop :=
  dfs_inv d' ∧ d_visiting d' = d_visiting d ∧ id ∈ d_done d' ∧
  (∃ l, d_order d' = d_order d ++ l ∧ ∀ x, x ∈ l → rtc edge id x).

Lemma sorted_snoc l x : sorted_by l → x ∉ l → (∀ y, edge x y → y ∈ l) → sorted_by (l ++ [x]).
Proof.
  intros Hl Hx Hy z l1 l2 H w Hw. destruct l2 as [|u l2 _] using rev_ind.
  - apply app_inj_tail in H as [-> ->]. by apply Hy.
  - rewrite app_comm_cons, app_assoc in H. apply app_inj_tail in H as [H _]. by eapply Hl.
Qed.

Lemma filter_fresh (id : string) l : id ∉ l → filter (λ x, x ≠ id) (id :: l) = l.
Proof.
  intros H. rewrite filter_cons_False by auto. induction l as [|x l IH]; [done|].
  rewrite not_elem_of_cons in H. destruct H as [Hx Hl]. rewrite filter_cons_True by auto. f_equal. by apply IH.
Qed.

Lemma sorted_tc x y : tc edge x y → ∀ l1 l2, sorted_by (l1 ++ x :: l2) → y ∈ l1.
Proof.
  induction 1 as [x y Hxy|x z y Hxz _ IH]; intros l1 l2 Hs; [by eapply Hs|].
  assert (Hz : z ∈ l1) by by eapply Hs. apply list_elem_of_split in Hz as (a & b & ->).
  rewrite <- app_assoc in Hs. cbn [app] in Hs. apply elem_of_app. left. by eapply IH.
Qed.

Lemma sorted_acyclic l x : sorted_by l → NoDup l → x ∈ l → ¬ tc edge x x.
Proof.
  intros Hs Hn (l1 & l2 & ->)%list_elem_of_split Hc. apply NoDup_app in Hn as (_ & Hn & _).
  apply (Hn x); [by eapply sorted_tc|left].
Qed.

(** Visiting a list of dependencies. *)
Lemma fold_visit (f : string → dfs → res err dfs) id l : ∀ d d',
  (∀ x d d', x ∈ l → dfs_inv d → f x d = Ok d' → dfs_step x d d') →
  (∀ x, x ∈ l → edge id x) → dfs_inv d → fold_res f l d = Ok d' →
  dfs_inv d' ∧ d_visiting d' = d_visiting d ∧ (∀ x, x ∈ l → x ∈ d_done d') ∧
  (∃ l', d_order d' = d_order d ++ l' ∧ ∀ x, x ∈ l' → tc edge id x).
Proof.
  induction l as [|x l IH]; intros d d' Hf He Hd; cbn [fold_res].
  { intros [= <-]. split_and!; try done; [set_solver|]. exists []. rewrite app_nil_r. split; [done|set_solver]. }
  intros (d1 & H1 & H2)%res_bind_ok.
  destruct (Hf x d d1 (list_elem_of_here _ _) Hd H1) as (Hd1 & Hv1 & Hx1 & l1 & Ho1 & Hr1).
  destruct (IH d1 d') as (Hd' & Hv' & Hx' & l2 & Ho2 & Hr2); [intros; eapply Hf; eauto; by right| |done..|].
  { intros y Hy. apply He. by right. }
  split_and!; [done|by rewrite Hv'| |].
  - intros y [->|Hy]%elem_of_cons; [|by apply Hx']. apply (di_same _ Hd'). rewrite Ho2.
    apply elem_of_app. left. by apply (di_same _ Hd1).
  - exists (l1 ++ l2). rewrite Ho2, Ho1, app_assoc. split; [done|]. intros y [Hy|Hy]%elem_of_app; [|by apply Hr2].
    eapply tc_rtc_r; [apply tc_once, He; left|by apply Hr1].
Qed.

Lemma visit_ok fuel : ∀ id d d', dfs_inv d → visit deps fuel id d = Ok d' → dfs_step id d d'.
Proof.
  induction fuel as [|fuel IH]; intros id d d' Hd; cbn [visit]; [done|].
  case_bool_decide as Hv; [done|]. case_bool_decide as Hdone.
  { intros [= <-]. split_and!; try done. exists []. rewrite app_nil_r. split; [done|set_solver]. }
  intros (d1 & H1 & H2)%res_bind_ok. injection H2 as <-.
  assert (Hd0 : dfs_inv (mkDfs (id :: d_visiting d) (d_done d) (d_order d))).
  { destruct Hd as [H2 H3 H4 H5]. split; simpl; try done. intros x [->|Hx]%elem_of_cons; [done|by apply H5]. }
  destruct (fold_visit (visit deps fuel) id _ _ d1 (λ x d d' _, IH x d d') (λ x Hx, Hx) Hd0 H1)
    as ([H3 H4 H5 H6] & Hv1 & Hx1 & l & Ho & Hr).
  cbn [d_visiting d_done d_order] in *.
  assert (Hid : id ∉ d_order d1).
  { intros Hin. apply H3 in Hin. apply (H6 id); [rewrite Hv1; left|done]. }
  split_and!; cbn [d_visiting d_done d_order].
  - split; cbn [d_visiting d_done d_order].
    + intros x. rewrite elem_of_cons, elem_of_app, list_elem_of_singleton, H3. tauto.
    + apply NoDup_app. split_and!; [done| |apply NoDup_singleton]. intros x Hx ->%list_elem_of_singleton. done.
    + apply sorted_snoc; [done..|]. intros y Hy. apply H3. by apply Hx1.
    + intros x Hx. apply list_elem_of_filter in Hx as [Hne Hx]. intros [->|Hx']%elem_of_cons; [done|]. by apply (H6 x).
  - rewrite Hv1. by apply filter_fresh.
  - left.
  - exists (l ++ [id]). rewrite Ho, app_assoc. split; [done|].
    intros x [Hx|Hx]%elem_of_app; [by apply tc_rtc, Hr|]. apply list_elem_of_singleton in Hx as ->. apply rtc_refl.
Qed.

(** ** Failure means a cycle *)

Lemma fold_res_err {A B} (f : A → B → res err B) (P : B → Prop) l : ∀ b e,
  P b → (∀ x b b', x ∈ l → P b → f x b = Ok b' → P b') → fold_res f l b = Err e →
  ∃ x b, x ∈ l ∧ P b ∧ f x b = Err e.
Proof.
  induction l as [|x l IH]; intros b e Hb Hf; cbn [fold_res]; [done|].
  destruct (f x b) as [b1|e1] eqn:H1; cbn [mbind res_bind].
  - intros H. destruct (IH b1 e) as (y & c & Hy & Hc & He);
      [eapply Hf; [left|exact Hb|exact H1]|intros; eapply Hf; eauto; by right|done|].
    exists y, c. split_and!; [by right|done..].
  - intros [= ->]. exists x, b. split_and!; [left|done..].
Qed.

Context (ids : list string) (Hids : ∀ x y, x ∈ ids → edge x y → y ∈ ids).

Lemma visit_err fuel : ∀ id d e,
  dfs_inv d → id ∈ ids → NoDup (d_visiting d) → (∀ v, v ∈ d_visiting d → v ∈ ids ∧ tc edge v id) →
  (length ids < fuel + length (d_visiting d))%nat →
  visit deps fuel id d = Err e → e = cycle_error ∧ ∃ x, tc edge x x.
Proof.
  induction fuel as [|fuel IH]; intros id d e Hd Hid Hn Hp Hf.
  { exfalso. assert (Hl : (length (d_visiting d) ≤ length ids)%nat); [|simpl in Hf; lia].
    apply submseteq_length, NoDup_submseteq; [done|]. intros v Hv. by apply Hp. }
  cbn [visit]. case_bool_decide as Hv.
  { intros [= <-]. split; [done|]. exists id. by apply Hp. }
  case_bool_decide as Hdone; [done|].
  destruct (fold_res _ _ _) as [d1|e1] eqn:H1; cbn [mbind res_bind]; [done|]. intros [= ->].
  set (d0 := mkDfs (id :: d_visiting d) (d_done d) (d_order d)) in *.
  assert (Hd0 : dfs_inv d0).
  { destruct Hd as [H2 H3 H4 H5]. split; simpl; try done. intros x [->|Hx]%elem_of_cons; [done|by apply H5]. }
  destruct (fold_res_err (visit deps fuel) (λ b, dfs_inv b ∧ d_visiting b = d_visiting d0) (default [] (deps !! id)) d0 e)
    as (x & b & Hx & [Hb Hvb] & He); [done| |exact H1|].
  { intros x b b' _ [Hb1 Hb2] Hok. destruct (visit_ok _ _ _ _ Hb1 Hok) as (? & Hv' & _). by rewrite Hv'. }
  apply (IH x b); rewrite ?Hvb; try done.
  - by apply (Hids id).
  - by constructor.
  - intros v [->|Hvv]%elem_of_cons; [split; [done|by apply tc_once]|].
    destruct (Hp v Hvv). split; [done|]. eapply tc_r; eauto.
  - unfold d0. simpl. lia.
Qed.

Lemma topo_covers fuel l d d' x :
  dfs_inv d → fold_res (visit deps fuel) l d = Ok d' → x ∈ l → x ∈ d_order d'.
Proof.
  intros Hd H Hx. destruct (fold_res_at _ _ _ _ _ H Hx) as (l1 & l2 & b1 & b2 & -> & H1 & H2 & H3).
  assert (Hb1 : dfs_inv b1).
  { apply (fold_res_inv (visit deps fuel) dfs_inv l1 d b1); [done| |done]. intros y b b' _ Hb Hok. by apply (visit_ok _ _ _ _ Hb Hok). }
  destruct (visit_ok _ _ _ _ Hb1 H2) as (Hb2 & _ & Hxd & _). apply (di_same _ Hb2) in Hxd.
  apply (fold_res_inv (visit deps fuel) (λ d, dfs_inv d ∧ x ∈ d_order d) l2 b2 d'); [done| |done].
  intros y b b' _ [Hb Hxb] Hok. destruct (visit_ok _ _ _ _ Hb Hok) as (? & _ & _ & l & Ho & _).
  split; [done|]. rewrite Ho. apply elem_of_app. by left.
Qed.

(** The order exists exactly when the dependencies have no cycle. *)
Lemma topo_spec :
  match topo deps ids with
  | Ok order =>
      NoDup order ∧ sorted_by order ∧ (∀ x, x ∈ order ↔ x ∈ ids) ∧ ∀ x, x ∈ ids → ¬ tc edge x x
  | Err e => e = cycle_error ∧ ∃ x, tc edge x x
  end.
Proof.
  unfold topo. set (d0 := mkDfs [] [] []).
  assert (Hd0 : dfs_inv d0).
  { split; simpl; [done|apply NoDup_nil_2|intros x l1 l2 H; by destruct l1|]. intros x H. by apply elem_of_nil in H. }
  destruct (fold_res _ ids d0) as [d|e] eqn:H; cbn [mbind res_bind].
  - assert (Hinv : dfs_inv d ∧ d_visiting d = [] ∧ ∀ x, x ∈ d_order d → x ∈ ids).
    { apply (fold_res_inv (visit deps (S (length ids))) (λ d, dfs_inv d ∧ d_visiting d = [] ∧ ∀ x, x ∈ d_order d → x ∈ ids) ids d0 d); [|intros|done].
      - split_and!; try done. simpl. intros x Hx. by apply elem_of_nil in Hx.
      - destruct H1 as (Hb & Hvb & Hob). destruct (visit_ok _ _ _ _ Hb H2) as (? & ? & _ & l & Ho & Hr).
        split_and!; [done|congruence|]. intros y. rewrite Ho. intros [Hy|Hy]%elem_of_app; [by apply Hob|].
        specialize (Hr y Hy). clear -Hr Hids H0. induction Hr as [|x y z Hxy _ IHr]; [done|]. apply IHr. by apply (Hids x). }
    destruct Hinv as (Hi & _ & Hin).
    assert (Hall : ∀ x, x ∈ ids → x ∈ d_order d) by (intros x; by apply (topo_covers _ _ _ _ _ Hd0 H)).
    split_and!; [apply Hi|apply Hi|intros x; by split; auto|].
    intros x Hx. apply (sorted_acyclic (d_order d)); [apply Hi|apply Hi|by apply Hall].
  - destruct (fold_res_err (visit deps (S (length ids))) (λ b, dfs_inv b ∧ d_visiting b = []) ids d0 e) as (x & b & Hx & [Hb Hvb] & He); [done| |done|].
    { intros x b b' _ [Hb Hvb] Hok. destruct (visit_ok _ _ _ _ Hb Hok) as (? & ? & _). split; [done|congruence]. }
    apply (visit_err (S (length ids)) x b e Hb Hx); rewrite ?Hvb; [apply NoDup_nil_2| |cbn; lia|done].
    intros v Hv. by apply elem_of_nil in Hv.
Qed.
End dfs.

(** ** The graph *)

Lemma fold_res_prefix {A B} (f : A → B → res err B) (P : list A → B → Prop) l b b' :
  P [] b → (∀ l1 x l2 b b', l = l1 ++ x :: l2 → P l1 b → f x b = Ok b' → P (l1 ++ [x]) b') →
  fold_res f l b = Ok b' → P l b'.
Proof.
  intros Hb Hf H. change l with ([] ++ l) in Hf.
  enough (Hg : ∀ l2 l1 b, [] ++ l = l1 ++ l2 → P l1 b → fold_res f l2 b = Ok b' → P (l1 ++ l2) b') by (by apply (Hg l [] b)).
  clear Hb H b. induction l2 as [|x l2 IH]; intros l1 b Hl Hb; cbn [fold_res].
  { intros [= <-]. by rewrite app_nil_r. }
  intros (b1 & H1 & H2)%res_bind_ok. rewrite cons_middle, app_assoc. apply (IH _ b1); [by rewrite <- app_assoc| |done].
  by eapply Hf.
Qed.

Definition compatible (q p : Port) : Prop :=
  po_Name q = po_Name p ∧ po_Type q = po_Type p ∧ po_Major q = po_Major p ∧ po_Minor p ≤ po_Minor q.

(** [x] comes before [y]. *)
Definition before (l : list string) (x y : string) : Prop := ∃ l1 l2, l = l1 ++ y :: l2 ∧ x ∈ l1.

Section graph.
Context (url_parse : string → option (string * string)) (r : registry) (values : gmap string (gmap string cval)).

(** The providers are those of the pairs [ps]. *)
Definition providers_ok (ps : list (string * Port)) (g : graph) : Prop :=
  (∀ n p, g_providers g !! n = Some p → ∃ q, (p, q) ∈ ps ∧ po_Name q = n ∧ g_provided g !! n = Some q) ∧
  (∀ id q, (id, q) ∈ ps → g_providers g !! po_Name q = Some id).

Definition offers (l : list string) : list (string * Port) :=
  l ≫= λ id, match r !! id with Some e => pair id <$> m_Provides (rg_Manifest e) | None => [] end.

Lemma offers_spec l id q :
  (id, q) ∈ offers l ↔ id ∈ l ∧ ∃ e, r !! id = Some e ∧ q ∈ m_Provides (rg_Manifest e).
Proof.
  unfold offers. rewrite list_elem_of_bind. split.
  - intros (x & Hx & Hl). destruct (r !! x) as [e|] eqn:He; [|by apply elem_of_nil in Hx].
    apply list_elem_of_fmap in Hx as (q' & [= -> ->] & Hq). eauto.
  - intros (Hl & e & He & Hq). exists id. rewrite He. split; [|done]. by apply list_elem_of_fmap_2.
Qed.

Lemma add_provider_ok id q ps g g' :
  providers_ok ps g → add_provider id q g = Ok g' → providers_ok (ps ++ [(id, q)]) g' ∧ g_instances g' = g_instances g.
Proof.
  intros [H1 H2]. unfold add_provider. intros ([] & _ & H)%res_bind_ok.
  destruct (g_providers g !! po_Name q) eqn:Hn; [done|]. injection H as <-. split; [|done]. split; cbn.
  - intros n p. rewrite !lookup_insert_Some. intros [[<- <-]|[Hne Hp]].
    + exists q. rewrite lookup_insert_eq. set_solver.
    + destruct (H1 n p Hp) as (q' & ? & ? & ?). exists q'. rewrite lookup_insert_ne by done. set_solver.
  - intros i q' [Hin|Hin]%elem_of_app.
    + rewrite lookup_insert_ne; [by apply H2|]. intros E. apply H2 in Hin. congruence.
    + apply list_elem_of_singleton in Hin. injection Hin as -> ->. apply lookup_insert_eq.
Qed.

Lemma add_providers_ok id l ps g g' :
  providers_ok ps g → fold_res (add_provider id) l g = Ok g' →
  providers_ok (ps ++ (pair id <$> l)) g' ∧ g_instances g' = g_instances g.
Proof.
  intros Hg. apply (fold_res_prefix (add_provider id)
    (λ l g', providers_ok (ps ++ (pair id <$> l)) g' ∧ g_instances g' = g_instances g)).
  - by rewrite app_nil_r.
  - intros l1 q l2 b b' _ [Hb Hi] H. destruct (add_provider_ok _ _ _ _ _ Hb H) as [? ->].
    by rewrite fmap_app, app_assoc.
Qed.

Definition built (id : string) (i : instance) : Prop :=
  ∃ e view, r !! id = Some e ∧ ConfigNew url_parse (m_Config (rg_Manifest e)) (default ∅ (values !! id)) = Ok view ∧
    i = new_instance e id view.

Lemma components_ok ids g :
  (∀ id, id ∈ ids → is_Some (r !! id)) →
  fold_res (add_component url_parse r values) ids (mkGraph ∅ ∅ ∅) = Ok g →
  providers_ok (offers ids) g ∧ (∀ id, is_Some (g_instances g !! id) ↔ id ∈ ids) ∧
  (∀ id i, g_instances g !! id = Some i → built id i).
Proof.
  intros Hids. apply (fold_res_prefix _ (λ l g, providers_ok (offers l) g ∧
    (∀ id, is_Some (g_instances g !! id) ↔ id ∈ l) ∧ (∀ id i, g_instances g !! id = Some i → built id i))).
  - split_and!; [split; [intros n p|intros id q H; by apply elem_of_nil in H]|intros id|intros id i];
      cbn; rewrite lookup_empty; [done| |done]. split; [by intros []|intros H; by apply elem_of_nil in H].
  - intros l1 id l2 b b' -> (Hp & Hd & Hb) H. destruct (Hids id) as [e He]; [set_solver|].
    unfold add_component in H. rewrite He in H. apply res_bind_ok in H as (view & Hv & H).
    apply (add_providers_ok _ _ (offers l1)) in H as [Hp' Hi]; [|exact Hp]. cbn [g_instances] in Hi.
    assert (Ho : offers (l1 ++ [id]) = offers l1 ++ (pair id <$> m_Provides (rg_Manifest e))).
    { unfold offers. rewrite bind_app. f_equal. cbn [mbind list_bind]. rewrite He. apply app_nil_r. }
    rewrite Ho, Hi. split; [done|]. split.
    + intros x. rewrite elem_of_app, list_elem_of_singleton, lookup_insert_is_Some, Hd. split.
      * intros [<-|[_ ?]]; auto.
      * intros [?| ->]; [destruct (decide (id = x)); auto|auto].
    + intros x i. rewrite lookup_insert_Some. intros [[<- <-]|[_ ?]]; [|by apply Hb]. exists e, view. done.
Qed.

(** A requirement met by the graph, by [deps] when it has a provider. *)
Definition req_met (g : graph) (deps : list string) (req : Require) : Prop :=
  match g_providers g !! po_Name (rq_Port req) with
  | None => rq_Optional req = true
  | Some p => p ∈ deps ∧ ∃ q, g_provided g !! po_Name (rq_Port req) = Some q ∧ po_Type q = po_Type (rq_Port req) ∧
      po_Major q = po_Major (rq_Port req) ∧ po_Minor (rq_Port req) ≤ po_Minor q
  end.

Lemma req_met_mono g d1 d2 req : req_met g d1 req → (∀ x, x ∈ d1 → x ∈ d2) → req_met g d2 req.
Proof. unfold req_met. destruct (g_providers g !! _); [|done]. intros [? ?] ?. auto. Qed.

Lemma requirements_ok g reqs seen deps :
  fold_res (add_requirement g) reqs ([], []) = Ok (seen, deps) →
  (∀ req, req ∈ reqs → req_met g deps req) ∧
  (∀ p, p ∈ deps → ∃ req, req ∈ reqs ∧ g_providers g !! po_Name (rq_Port req) = Some p).
Proof.
  apply (fold_res_prefix _ (λ l acc, (∀ req, req ∈ l → req_met g acc.2 req) ∧
    (∀ p, p ∈ acc.2 → ∃ req, req ∈ l ∧ g_providers g !! po_Name (rq_Port req) = Some p))).
  - split; intros x Hx; by apply elem_of_nil in Hx.
  - intros l1 req l2 [sn d] [sn' d'] _ [H1 H2]. cbn [snd] in *. unfold add_requirement.
    intros ([] & _ & H)%res_bind_ok. destruct (bool_decide _); [done|].
    destruct (g_providers g !! po_Name (rq_Port req)) as [p|] eqn:Hp.
    + destruct (g_provided g !! po_Name (rq_Port req)) as [q|] eqn:Hq; [|done].
      destruct (_ && _) eqn:Hc; [|done]. injection H as <- <-.
      rewrite !andb_true_iff, bool_decide_eq_true, negb_true_iff in Hc. destruct Hc as [[Ht Hm] Hn]. split.
      * intros x [Hx|Hx]%elem_of_app; [eapply req_met_mono; [by apply H1|set_solver]|].
        apply list_elem_of_singleton in Hx as ->. unfold req_met. rewrite Hp, Hq. split; [set_solver|]. exists q. split_and!; [done|done|lia|lia].
      * intros x [Hx|Hx]%elem_of_app; [destruct (H2 x Hx) as (y & ? & ?); exists y; set_solver|].
        apply list_elem_of_singleton in Hx as ->. exists req. set_solver.
    + destruct (rq_Optional req) eqn:Ho; [|done]. injection H as <- <-. split.
      * intros x [Hx|Hx]%elem_of_app; [by apply H1|]. apply list_elem_of_singleton in Hx as ->. unfold req_met. by rewrite Hp.
      * intros x Hx. destruct (H2 x Hx) as (y & ? & ?). exists y. set_solver.
Qed.

Lemma deps_ok g ids deps :
  NoDup ids → (∀ id, id ∈ ids → is_Some (r !! id)) → fold_res (component_deps r g) ids ∅ = Ok deps →
  (∀ id, is_Some (deps !! id) → id ∈ ids) ∧
  ∀ id e, id ∈ ids → r !! id = Some e → ∃ l, deps !! id = Some l ∧
    (∀ req, req ∈ m_Requires (rg_Manifest e) → req_met g l req) ∧
    (∀ p, p ∈ l → ∃ req, req ∈ m_Requires (rg_Manifest e) ∧ g_providers g !! po_Name (rq_Port req) = Some p).
Proof.
  intros Hn Hids. apply (fold_res_prefix _ (λ ids deps, (∀ id, is_Some (deps !! id) → id ∈ ids) ∧
    ∀ id e, id ∈ ids → r !! id = Some e → ∃ l, deps !! id = Some l ∧
    (∀ req, req ∈ m_Requires (rg_Manifest e) → req_met g l req) ∧
    (∀ p, p ∈ l → ∃ req, req ∈ m_Requires (rg_Manifest e) ∧ g_providers g !! po_Name (rq_Port req) = Some p))).
  - split; [intros id; rewrite lookup_empty; by intros []|intros id e Hx; by apply elem_of_nil in Hx].
  - intros l1 id l2 b b' -> [Hd Hb] H. destruct (Hids id) as [e He]; [set_solver|].
    unfold component_deps in H. rewrite He in H. apply res_bind_ok in H as ([seen l] & Hl & H). injection H as <-.
    apply NoDup_app in Hn as (_ & Hn & _). split.
    + intros x. rewrite lookup_insert_is_Some. intros [<-|[_ ?]]; [set_solver|]. apply elem_of_app. auto.
    + intros x e' [Hx|Hx]%elem_of_app Hxe.
      * rewrite lookup_insert_ne; [by apply Hb|]. intros ->. apply (Hn x Hx). left.
      * apply list_elem_of_singleton in Hx as ->. rewrite lookup_insert_eq. exists l. split; [done|].
        assert (e' = e) as -> by congruence. by eapply requirements_ok.
Qed.
End graph.

(** ** Build *)

Lemma enabled_spec (r : registry) enabled id :
  id ∈ enabled_ids r enabled ↔ is_Some (r !! id) ∧ is_enabled enabled id = true.
Proof.
  unfold enabled_ids. rewrite (merge_sort_Permutation str_le), list_elem_of_filter, list_elem_of_fmap. split.
  - intros [? ([k e] & -> & H%elem_of_map_to_list)]. eauto.
  - intros [[e He] ?]. split; [done|]. exists (id, e). by rewrite elem_of_map_to_list.
Qed.

Lemma enabled_NoDup (r : registry) enabled : NoDup (enabled_ids r enabled).
Proof.
  unfold enabled_ids. rewrite (merge_sort_Permutation str_le). apply NoDup_filter, NoDup_fst_map_to_list.
Qed.

(** A finished build: every enabled component once, after its providers. *)
Record build_ok (up : string → option (string * string)) (r : registry) (enabled : option (gmap string bool))
    (values : gmap string (gmap string cval)) (run : Runtime) : Prop := {
  bo_order : NoDup (rt_order run) ∧ ∀ id, id ∈ rt_order run ↔ is_Some (r !! id) ∧ is_enabled enabled id = true;
  bo_instances : ∀ id, is_Some (rt_instances run !! id) ↔ id ∈ rt_order run;
  bo_instance : ∀ id i, rt_instances run !! id = Some i → ∃ e view, r !! id = Some e ∧
    ConfigNew up (m_Config (rg_Manifest e)) (default ∅ (values !! id)) = Ok view ∧
    i = setStatus (mkStatus id Stopped "") (new_instance e id view);
  bo_provider : ∀ n p, rt_providers run !! n = Some p ↔
    p ∈ rt_order run ∧ ∃ e q, r !! p = Some e ∧ q ∈ m_Provides (rg_Manifest e) ∧ po_Name q = n;
  bo_required : ∀ id e req, id ∈ rt_order run → r !! id = Some e → req ∈ m_Requires (rg_Manifest e) →
    match rt_providers run !! po_Name (rq_Port req) with
    | None => rq_Optional req = true
    | Some p => before (rt_order run) p id ∧
        ∃ pe q, r !! p = Some pe ∧ q ∈ m_Provides (rg_Manifest pe) ∧ compatible q (rq_Port req)
    end;
}.

Definition deps_of (up : string → option (string * string)) (r : registry) (enabled : option (gmap string bool))
    (values : gmap string (gmap string cval)) : res err (gmap string (list string)) :=
  g ← fold_res (add_component up r values) (enabled_ids r enabled) (mkGraph ∅ ∅ ∅);
  fold_res (component_deps r g) (enabled_ids r enabled) ∅.

Section build_proof.
Context (up : string → option (string * string)) (r : registry) (enabled : option (gmap string bool))
  (values : gmap string (gmap string cval)).
Abbreviation ids := (enabled_ids r enabled).

Lemma ids_registered id : id ∈ ids → is_Some (r !! id).
Proof. by rewrite enabled_spec; intros []. Qed.

(** Dependencies stay within the enabled components. *)
Lemma edges_closed g deps :
  fold_res (add_component up r values) ids (mkGraph ∅ ∅ ∅) = Ok g →
  fold_res (component_deps r g) ids ∅ = Ok deps →
  ∀ x y, x ∈ ids → edge deps x y → y ∈ ids.
Proof.
  intros Hg Hd x y Hx Hy. destruct (components_ok _ _ _ _ _ ids_registered Hg) as ([Hp _] & _ & _).
  destruct (deps_ok up r _ _ _ (enabled_NoDup r enabled) ids_registered Hd) as [_ H].
  destruct (ids_registered x Hx) as [e He]. destruct (H x e Hx He) as (l & Hl & _ & Hin).
  unfold edge in Hy. rewrite Hl in Hy. destruct (Hin y Hy) as (req & _ & Hr).
  destruct (Hp _ _ Hr) as (q & Ho & _). by apply offers_spec in Ho as [? _].
Qed.

Lemma Build_inv account run :
  Build up r account enabled values = Ok run →
  ∃ g deps order, fold_res (add_component up r values) ids (mkGraph ∅ ∅ ∅) = Ok g ∧
    fold_res (component_deps r g) ids ∅ = Ok deps ∧ topo deps ids = Ok order ∧
    run = mkRuntime r order ((λ i, setStatus (in_status i) i) <$> g_instances g) order
            (g_providers g) ∅ account false false false.
Proof.
  unfold Build. destruct (String.eqb _ _); [done|]. destruct (negb _); [done|]. destruct (negb _); [done|].
  intros (g & Hg & H)%res_bind_ok. apply res_bind_ok in H as (deps & Hd & H).
  apply res_bind_ok in H as (order & Ho & H). injection H as <-. by exists g, deps, order.
Qed.

Lemma Build_ok account run : Build up r account enabled values = Ok run → build_ok up r enabled values run.
Proof.
  intros (g & deps & order & Hg & Hd & Ho & ->)%Build_inv.
  destruct (components_ok _ _ _ _ _ ids_registered Hg) as ([Hp Hall] & Hdom & Hb).
  destruct (deps_ok up r _ _ _ (enabled_NoDup r enabled) ids_registered Hd) as [_ Hreq].
  pose proof (topo_spec deps ids (edges_closed g deps Hg Hd)) as Ht. rewrite Ho in Ht.
  destruct Ht as (Hn & Hs & Hm & _).
  assert (Hprov : ∀ n p, g_providers g !! n = Some p ↔
    p ∈ order ∧ ∃ e q, r !! p = Some e ∧ q ∈ m_Provides (rg_Manifest e) ∧ po_Name q = n).
  { intros n p. split.
    - intros H. destruct (Hp n p H) as (q & (Hin & e & He & Hq)%offers_spec & Hnm & _). split; [by apply Hm|eauto].
    - intros (Hin & e & q & He & Hq & <-). apply Hall, offers_spec. split; [by apply Hm|eauto]. }
  split; cbn.
  - split; [done|]. intros id. by rewrite Hm, enabled_spec.
  - intros id. rewrite lookup_fmap, fmap_is_Some, Hdom. by rewrite Hm.
  - intros id i (i0 & <- & Hi)%lookup_fmap_Some. destruct (Hb id i0 Hi) as (e & view & ? & ? & ->). eauto.
  - done.
  - intros id e req Hid He Hr. apply Hm in Hid as Hid'. destruct (Hreq id e Hid' He) as (l & Hl & Hmet & _).
    specialize (Hmet req Hr). unfold req_met in Hmet.
    destruct (g_providers g !! po_Name (rq_Port req)) as [p|] eqn:Hpr; [|done].
    destruct Hmet as (Hpl & q & Hq & Hty & Hmaj & Hmin). destruct (Hp _ _ Hpr) as (q' & Hoff & Hnm & Hq').
    assert (q' = q) as -> by congruence. apply offers_spec in Hoff as (_ & pe & Hpe & Hqe). split.
    + apply list_elem_of_split in Hid as (l1 & l2 & ->). exists l1, l2. split; [done|].
      apply (Hs id l1 l2); [done|]. unfold edge. by rewrite Hl.
    + exists pe, q. split_and!; [done|done|split_and!; done].
Qed.

(** With its static checks passed, [Build] succeeds exactly when no component
    depends on itself. *)
Lemma Build_acyclic account deps :
  deps_of up r enabled values = Ok deps → account ≠ "" →
  (match enabled with None => true | Some e => known r e end) = true → known r values = true →
  match Build up r account enabled values with
  | Ok _ => ∀ x, ¬ tc (edge deps) x x
  | Err e => e = cycle_error ∧ ∃ x, tc (edge deps) x x
  end.
Proof.
  intros H Ha Hk1 Hk2. apply res_bind_ok in H as (g & Hg & Hd). unfold Build.
  destruct (String.eqb_spec account "") as [|_]; [done|]. rewrite Hk1, Hk2. cbn [negb].
  rewrite Hg. cbn [mbind res_bind]. rewrite Hd. cbn [mbind res_bind].
  pose proof (topo_spec deps ids (edges_closed g deps Hg Hd)) as Ht.
  destruct (topo deps ids) as [order|e]; cbn [mbind res_bind]; [|done].
  destruct Ht as (_ & _ & _ & Hc). intros x Hx. apply (Hc x); [|done].
  assert (He : ∃ y, edge deps x y) by (inversion Hx; subst; eauto). destruct He as [y Hy]. unfold edge in Hy.
  destruct (deps !! x) as [l|] eqn:Hl; [|by apply elem_of_nil in Hy].
  destruct (deps_ok up r _ _ _ (enabled_NoDup r enabled) ids_registered Hd) as [Hin _]. apply Hin. by rewrite Hl.
Qed.
End build_proof.
