(* ===== verification/RteInv.v ===== *)
(** * The runtime's invariant

    The protocol every component is driven through, read off the log of
    calls, and the invariant tying it to the runtime's state. *)

From stdpp Require Import sorting relations.
From S2P Require Import Prelude Strings Storage Config Rte RteBuild.
Local Open Scope list_scope.

(** ** The lifecycle protocol of one component *)

(** [PBroken]: a hook failed and the component still has to be stopped. *)
Inductive phase := PIdle | PMade | PInited | PUp | PBroken.
#[export] Instance phase_eq : EqDecision phase.
Proof. solve_decision. Defined.

Definition failed (a : answer) : bool := match an_error a with Some _ => true | None => false end.

(** One call about [id]: the phase, and whether its runnables were drained
    since it was made; [None] when the call is out of order. *)
Definition pstep (id : string) (s : option (phase * bool)) (x : call * answer) : option (phase * bool) :=
  let '(c, a) := x in
  match s with
  | None => None
  | Some (p, drained) =>
      match c with
      | CNew id' _ =>
          if String.eqb id' id then
            match p with PIdle => Some (if failed a then (PIdle, false) else (PMade, false)) | _ => None end
          else s
      | CInit id' _ _ =>
          if String.eqb id' id then
            match p with PMade => Some (if failed a then PBroken else PInited, drained) | _ => None end
          else s
      | CStart id' =>
          if String.eqb id' id then
            match p with PInited => Some (if failed a then PBroken else PUp, drained) | _ => None end
          else s
      | CReconfigure id' _ =>
          if String.eqb id' id then match p with PUp => s | _ => None end else s
      | CStop id' =>
          if String.eqb id' id then
            match p with
            | PInited | PUp | PBroken => if drained then Some (if failed a then PBroken else PIdle, true) else None
            | _ => None
            end
          else s
      | CDrain id' => if String.eqb id' id then Some (p, drained || negb (failed a)) else s
      | CWaitScope _ | CBusClose => s
      end
  end.
Definition protocol (log : list (call * answer)) (id : string) : option (phase * bool) :=
  foldl (pstep id) (Some (PIdle, false)) log.

Lemma protocol_snoc log x id : protocol (log ++ [x]) id = pstep id (protocol log id) x.
Proof. unfold protocol. by rewrite foldl_app. Qed.

(** The component a call is about. *)
Definition subject (c : call) : string :=
  match c with
  | CNew id _ | CInit id _ _ | CStart id | CStop id | CReconfigure id _ | CWaitScope id | CDrain id => id
  | CBusClose => ""
  end.

Lemma pstep_other id s c a : (∀ x, c = x → c = CBusClose ∨ subject c ≠ id) → pstep id s (c, a) = s.
Proof.
  intros H. specialize (H c eq_refl). destruct s as [[p d]|]; [|done].
  destruct c; cbn in *; try done; (destruct (String.eqb_spec id0 id); [|done]); subst; by destruct H.
Qed.

(** ** Instances at rest *)

Definition stoppable (p : phase) : Prop := p = PInited ∨ p = PUp ∨ p = PBroken.

Record inst_ok (reg : registry) (log : list (call * answer)) (id : string) (i : instance) : Prop := {
  io_reg : reg !! id = Some (in_registration i);
  io_id : st_ID (in_status i) = id;
  io_obs : in_observation i = Some (mkObservation (in_status i) (in_config i) (in_bindings i));
  io_idle : in_initialized i = false → ∃ d, protocol log id = Some (PIdle, d);
  io_init : in_initialized i = true → in_runnables i = true ∧ ∃ p d, protocol log id = Some (p, d) ∧ stoppable p;
  io_running : in_state i = Running → in_initialized i = true ∧ (∃ d, protocol log id = Some (PUp, d)) ∧
    in_ctx i = Some true ∧ all_bound (in_manifest i) (in_bindings i) = true;
  io_down : in_state i = Stopped ∨ in_state i = Blocked → in_initialized i = false;
}.

(** Ready to be started. *)
Definition fresh (i : instance) : Prop := in_initialized i = false ∧ in_state i ≠ Blocked.

Section inv.
Context {W : Type} (hook : call → W → answer * W).
Abbreviation S := (sys (W := W)).

(** A required provider runs while its user runs. *)
Definition running (y : S) (id : string) : Prop :=
  ∃ i, item id y = Some i ∧ in_state i = Running.

(** The static part, set by [Build]. *)
Record static_ok (r : Runtime) : Prop := {
  so_order : NoDup (rt_order r);
  so_dom : ∀ id, is_Some (rt_instances r !! id) ↔ id ∈ rt_order r;
  so_provider : ∀ id e q, id ∈ rt_order r → rt_registry r !! id = Some e → q ∈ m_Provides (rg_Manifest e) →
    rt_providers r !! po_Name q = Some id;
  so_required : ∀ id e req, id ∈ rt_order r → rt_registry r !! id = Some e → req ∈ m_Requires (rg_Manifest e) →
    match rt_providers r !! po_Name (rq_Port req) with
    | None => rq_Optional req = true
    | Some p => before (rt_order r) p id
    end;
  so_observed : rt_observed r = rt_order r;
}.

Record sys_ok (y : S) : Prop := {
  yo_static : static_ok (y_rt y);
  yo_inst : ∀ id i, item id y = Some i → inst_ok (rt_registry (y_rt y)) (y_log y) id i;
  yo_gone : ∀ id, item id y = None → ∃ d, protocol (y_log y) id = Some (PIdle, d);
  yo_deps : ∀ id i req p, item id y = Some i → in_state i = Running → req ∈ m_Requires (in_manifest i) →
    rq_Optional req = false → rt_providers (y_rt y) !! po_Name (rq_Port req) = Some p → running y p;
  yo_ports : ∀ id i q, item id y = Some i → in_state i = Running → q ∈ m_Provides (in_manifest i) →
    rt_ports (y_rt y) !! po_Name q = in_bindings i !! po_Name q ∧ is_Some (in_bindings i !! po_Name q);
  yo_owned : ∀ n, is_Some (rt_ports (y_rt y) !! n) → ∃ id i q, item id y = Some i ∧ in_initialized i = true ∧
    q ∈ m_Provides (in_manifest i) ∧ po_Name q = n;
  yo_stopping : rt_stopping (y_rt y) = true → ∀ id, ¬ running y id;
  yo_stopped : rt_stopped (y_rt y) = true →
    rt_stopping (y_rt y) = true ∧ rt_ports (y_rt y) = ∅ ∧ ∀ id i, item id y = Some i → in_initialized i = false ∧ in_state i = Stopped;
  yo_unstarted : rt_started (y_rt y) = false → rt_stopping (y_rt y) = false →
    ∀ id i, item id y = Some i → fresh i;
}.

(** ** Steps about one component *)

(** Everything but component [id], the ports of [m] and the calls about [id]
    stays as it is. *)
Record touch (id : string) (m : Manifest) (y y' : S) : Prop := {
  to_registry : rt_registry (y_rt y') = rt_registry (y_rt y);
  to_order : rt_order (y_rt y') = rt_order (y_rt y);
  to_observed : rt_observed (y_rt y') = rt_observed (y_rt y);
  to_providers : rt_providers (y_rt y') = rt_providers (y_rt y);
  to_account : rt_account (y_rt y') = rt_account (y_rt y);
  to_started : rt_started (y_rt y') = rt_started (y_rt y);
  to_stopped : rt_stopped (y_rt y') = rt_stopped (y_rt y);
  to_stopping : rt_stopping (y_rt y') = rt_stopping (y_rt y);
  to_item : ∀ x, x ≠ id → item x y' = item x y;
  to_dom : is_Some (item id y') ↔ is_Some (item id y);
  to_ports : ∀ n, (∀ q, q ∈ m_Provides m → po_Name q ≠ n) → rt_ports (y_rt y') !! n = rt_ports (y_rt y) !! n;
  to_protocol : ∀ x, x ≠ id → protocol (y_log y') x = protocol (y_log y) x;
}.

Lemma touch_refl id m y : touch id m y y.
Proof. by split. Qed.
Lemma touch_trans id m y1 y2 y3 : touch id m y1 y2 → touch id m y2 y3 → touch id m y1 y3.
Proof.
  intros [] []. split; try congruence; intros.
  - rewrite to_item1, to_item0 by done. done.
  - by rewrite to_dom1, to_dom0.
  - rewrite to_ports1, to_ports0 by done. done.
  - rewrite to_protocol1, to_protocol0 by done. done.
Qed.

Lemma item_upd id f (y : S) x : item x (upd id f y) = if decide (x = id) then f <$> item id y else item x y.
Proof.
  unfold item, upd, with_rt, upd_instance, set_instances. cbn. case_decide as H.
  - subst. apply lookup_alter_eq.
  - by apply lookup_alter_ne.
Qed.
Lemma item_upd_eq id f (y : S) : item id (upd id f y) = f <$> item id y.
Proof. rewrite item_upd. by rewrite decide_True. Qed.

Lemma touch_upd id m f (y : S) : touch id m y (upd id f y).
Proof.
  split; try done; intros; [by rewrite item_upd, decide_False|]. rewrite item_upd_eq. apply fmap_is_Some.
Qed.

Lemma touch_call c (y : S) m a y' : do_call hook c y = (a, y') → c ≠ CBusClose → touch (subject c) m y y'.
Proof.
  unfold do_call. destruct (hook c (y_world y)) as [b w]. intros [= <- <-] Hc. split; try done. cbn [y_log].
  intros x Hx. rewrite protocol_snoc. apply pstep_other. intros _ _. right. by apply not_eq_sym.
Qed.

Lemma drop_ports_lookup m ports n :
  drop_ports m ports !! n = if decide (n ∈ po_Name <$> m_Provides m) then None else ports !! n.
Proof.
  unfold drop_ports. revert ports. induction (m_Provides m) as [|q l IH]; intros ports; cbn [foldl fmap list_fmap]; [done|].
  rewrite IH. destruct (decide (n ∈ po_Name <$> l)).
  - by rewrite decide_True by by right.
  - destruct (decide (n = po_Name q)) as [->|Hne].
    + rewrite lookup_delete_eq, decide_True; [done|left].
    + rewrite lookup_delete_ne, decide_False; [done|set_solver|by apply not_eq_sym].
Qed.

Lemma touch_release id m (y : S) : touch id m y (release_ports m y).
Proof.
  split; try done. intros n Hn. cbn. rewrite drop_ports_lookup, decide_False; [done|].
  intros (q & -> & Hq)%list_elem_of_fmap. by apply (Hn q Hq).
Qed.

(** [Init] binds only declared ports. *)
Lemma bind_ports_declared m l n :
  is_Some (bind_ports m l !! n) → ∃ q, q ∈ m_Provides m ∧ po_Name q = n.
Proof.
  unfold bind_ports. enough (H : ∀ b, (∀ n, is_Some (b !! n) → ∃ q, q ∈ m_Provides m ∧ po_Name q = n) →
    is_Some (foldl (provide m) b l !! n) → ∃ q, q ∈ m_Provides m ∧ po_Name q = n).
  { apply H. intros k. rewrite lookup_empty. by intros []. }
  induction l as [|[k v] l IH]; intros b Hb; cbn [foldl]; [apply Hb|]. apply IH. clear IH. intros n'.
  unfold provide. destruct (list_find _ _) as [[j q]|] eqn:Hf; [|apply Hb].
  apply list_find_Some in Hf as (Hq & Hk & _). destruct (_ || _); [apply Hb|].
  destruct (b !! k); [apply Hb|]. rewrite lookup_insert_is_Some. intros [<-|[_ ?]]; [|by apply Hb].
  exists q. split; [by eapply list_elem_of_lookup_2|done].
Qed.

Lemma touch_bind id m l (y : S) :
  touch id m y (with_rt (λ r, set_ports (bind_ports m l ∪ rt_ports r) r) y).
Proof.
  split; try done. intros n Hn. cbn. apply lookup_union_r. apply eq_None_not_Some.
  intros (q & Hq & Hn')%bind_ports_declared. by apply (Hn q Hq).
Qed.

(** ** Starting one component *)

Lemma call_same c (y : S) a y' : do_call hook c y = (a, y') →
  y_rt y' = y_rt y ∧ (∀ x, item x y' = item x y) ∧ y_log y' = y_log y ++ [(c, a)].
Proof. unfold do_call. destruct (hook c (y_world y)) as [b w]. by intros [= <- <-]. Qed.

(** The tracker after one more call. *)
Lemma call_protocol id c (y : S) a y' s : do_call hook c y = (a, y') → protocol (y_log y) id = s →
  protocol (y_log y') id = pstep id s (c, a).
Proof. intros (_ & _ & ->)%call_same <-. apply protocol_snoc. Qed.

(** What stays of an instance while its component is driven. *)
Definition same_shell (i i' : instance) : Prop :=
  in_registration i' = in_registration i ∧ in_config i' = in_config i ∧ in_runnables i' = in_runnables i.

(** The link between the flag and the protocol. *)
Definition flag_ok (i : instance) (s : option (phase * bool)) : Prop :=
  if in_initialized i then ∃ p d, s = Some (p, d) ∧ stoppable p else ∃ d, s = Some (PIdle, d).

Lemma all_bound_spec m ports :
  all_bound m ports = true ↔ ∀ q, q ∈ m_Provides m → is_Some (ports !! po_Name q).
Proof.
  unfold all_bound. rewrite forallb_forall. split; intros H q Hq.
  - specialize (H q). rewrite bool_decide_eq_true in H. apply H. by apply list_elem_of_In.
  - rewrite bool_decide_eq_true. apply H. by apply list_elem_of_In.
Qed.

Lemma bring_up_spec id i i0 (y : S) e y' d :
  bring_up hook id i y = (e, y') → item id y = Some i0 → in_initialized i0 = false →
  protocol (y_log y) id = Some (PIdle, d) →
  touch id (in_manifest i) y y' ∧ ∃ i', item id y' = Some i' ∧ same_shell i0 i' ∧
    in_status i' = in_status i0 ∧ in_ctx i' = in_ctx i0 ∧ flag_ok i' (protocol (y_log y') id) ∧
    (e = None → in_initialized i' = true ∧ (∃ d, protocol (y_log y') id = Some (PUp, d)) ∧
       all_bound (in_manifest i) (rt_ports (y_rt y')) = true ∧
       rt_ports (y_rt y') = in_bindings i' ∪ rt_ports (y_rt y)).
Proof.
  intros H Hi0 Hf Hp. unfold bring_up in H.
  destruct (do_call hook (CNew id _) y) as [a1 y1] eqn:H1.
  pose proof (touch_call _ _ (in_manifest i) _ _ H1 ltac:(done)) as T1. cbn [subject] in T1.
  pose proof (call_protocol id _ _ _ _ _ H1 Hp) as P1. destruct (call_same _ _ _ _ H1) as (R1 & I1 & _).
  cbn in P1. rewrite String.eqb_refl in P1. unfold failed in P1.
  destruct (an_error a1) as [e1|].
  { injection H as <- <-. split; [done|]. exists i0. rewrite I1. split_and!; try done.
    unfold flag_ok. rewrite Hf. by eexists. }
  set (y2 := upd id (set_initialized true) y1) in *.
  assert (Hi2 : item id y2 = Some (set_initialized true i0)) by (unfold y2; rewrite item_upd_eq, I1, Hi0; done).
  destruct (do_call hook (CInit id _ _) y2) as [a2 y3] eqn:H2.
  pose proof (touch_call _ _ (in_manifest i) _ _ H2 ltac:(done)) as T2. cbn [subject] in T2.
  pose proof (call_protocol id _ _ _ _ _ H2 P1) as P2. destruct (call_same _ _ _ _ H2) as (R2 & I2 & _).
  cbn in P2. rewrite String.eqb_refl in P2. unfold failed in P2.
  assert (T3 : touch id (in_manifest i) y y3) by (eapply touch_trans; [exact T1|]; eapply touch_trans; [apply touch_upd|exact T2]).
  destruct (an_error a2) as [e2|].
  { injection H as <- <-. split; [done|]. eexists. rewrite I2. split; [exact Hi2|]. split_and!; try done.
    rewrite P2. exists PBroken. eexists. split; [done|]. by right; right. }
  set (b := bind_ports (in_manifest i) (an_provides a2)) in *.
  set (y4 := with_rt _ (upd id (set_bindings b) y3)) in *.
  assert (T4 : touch id (in_manifest i) y y4).
  { eapply touch_trans; [exact T3|]. eapply touch_trans; [apply touch_upd|]. apply touch_bind. }
  assert (Hi4 : item id y4 = Some (set_bindings b (set_initialized true i0))).
  { change (item id (upd id (set_bindings b) y3) = Some (set_bindings b (set_initialized true i0))).
    by rewrite item_upd_eq, I2, Hi2. }
  assert (P4 : protocol (y_log y4) id = Some (PInited, false)) by exact P2.
  assert (Hports : rt_ports (y_rt y4) = b ∪ rt_ports (y_rt y)).
  { unfold y4. cbn. rewrite R2. unfold y2. cbn. by rewrite R1. }
  clearbody y4. destruct (all_bound _ _) eqn:Hall.
  - destruct (do_call hook (CStart id) y4) as [a3 y5] eqn:H3. injection H as <- <-.
    pose proof (touch_call _ _ (in_manifest i) _ _ H3 ltac:(done)) as T5. cbn [subject] in T5.
    pose proof (call_protocol id _ _ _ _ _ H3 P4) as P5. destruct (call_same _ _ _ _ H3) as (R3 & I3 & _).
    cbn in P5. rewrite String.eqb_refl in P5. unfold failed in P5.
    split; [by eapply touch_trans|]. eexists. rewrite I3. split; [exact Hi4|]. split_and!; try done.
    + rewrite P5. destruct (an_error a3); eexists _, _; (split; [done|]); [by right; right|by right; left].
    + intros E. rewrite E in P5. split_and!; [done|by eexists|by rewrite R3|by rewrite R3].
  - injection H as <- <-. split; [done|]. eexists. split; [exact Hi4|]. split_and!; try done.
    rewrite P4. eexists _, _. split; [done|]. by left.
Qed.

Lemma bring_down_spec id m e i0 (y : S) :
  item id y = Some i0 → in_runnables i0 = true → flag_ok i0 (protocol (y_log y) id) →
  let y' := bring_down hook id m e y in
  touch id m y y' ∧ ∃ i', item id y' = Some i' ∧ same_shell i0 i' ∧ in_status i' = mkStatus id Failed e ∧
    in_observation i' = Some (mkObservation (in_status i') (in_config i') (in_bindings i')) ∧
    flag_ok i' (protocol (y_log y') id) ∧
    (∀ q, q ∈ m_Provides m → rt_ports (y_rt y') !! po_Name q = None).
Proof.
  intros Hi Hr Hf. unfold bring_down.
  destruct (do_call hook (CWaitScope id) _) as [a1 y1] eqn:H1.
  destruct (do_call hook (CDrain id) y1) as [a2 y2] eqn:H2.
  pose proof (touch_call _ _ m _ _ H1 ltac:(done)) as T1. pose proof (touch_call _ _ m _ _ H2 ltac:(done)) as T2.
  cbn [subject] in T1, T2.
  destruct (call_same _ _ _ _ H1) as (_ & I1 & _). destruct (call_same _ _ _ _ H2) as (_ & I2 & _).
  pose proof (call_protocol id _ _ _ _ _ H1 eq_refl) as P1. pose proof (call_protocol id _ _ _ _ _ H2 P1) as P2.
  change (protocol (y_log (upd id cancel_ctx y)) id) with (protocol (y_log y) id) in P2.
  assert (T : touch id m y y2) by (eapply touch_trans; [apply touch_upd|]; by eapply touch_trans).
  assert (Hi2 : item id y2 = Some (cancel_ctx i0)) by (by rewrite I2, I1, item_upd_eq, Hi).
  rewrite Hi2. cbn [in_initialized cancel_ctx set_ctx].
  (* the state before the ports are released *)
  assert (Hmid : ∀ y3 i3, touch id m y y3 → item id y3 = Some i3 → same_shell i0 i3 → flag_ok i3 (protocol (y_log y3) id) →
    let y' := upd id (setStatus (mkStatus id Failed e)) (release_ports m y3) in
    touch id m y y' ∧ ∃ i', item id y' = Some i' ∧ same_shell i0 i' ∧ in_status i' = mkStatus id Failed e ∧
      in_observation i' = Some (mkObservation (in_status i') (in_config i') (in_bindings i')) ∧
      flag_ok i' (protocol (y_log y') id) ∧ (∀ q, q ∈ m_Provides m → rt_ports (y_rt y') !! po_Name q = None)).
  { intros y3 i3 T3 Hi3 Hs3 Hf3 y'. split.
    - eapply touch_trans; [exact T3|]. eapply touch_trans; [apply touch_release|apply touch_upd].
    - exists (setStatus (mkStatus id Failed e) i3). unfold y'. rewrite item_upd_eq.
      change (item id (release_ports m y3)) with (item id y3). rewrite Hi3. split_and!; try done; try apply Hs3.
      intros q Hq. cbn. rewrite drop_ports_lookup, decide_True; [done|]. by apply list_elem_of_fmap_2. }
  assert (Hf2 : flag_ok (cancel_ctx i0) (protocol (y_log y2) id)).
  { rewrite P2. unfold flag_ok in *. cbn [in_initialized cancel_ctx set_ctx].
    destruct (in_initialized i0).
    - destruct Hf as (p & d & -> & Hp). cbn. rewrite String.eqb_refl. eauto.
    - destruct Hf as (d & ->). cbn. rewrite String.eqb_refl. eauto. }
  destruct (an_error a1); [by apply (Hmid y2 (cancel_ctx i0))|].
  destruct (an_error a2) eqn:E2; [by apply (Hmid y2 (cancel_ctx i0))|].
  destruct (in_initialized i0) eqn:Hini; [|by apply (Hmid y2 (cancel_ctx i0))].
  destruct (do_call hook (CStop id) y2) as [a3 y3] eqn:H3.
  pose proof (touch_call _ _ m _ _ H3 ltac:(done)) as T3. cbn [subject] in T3.
  destruct (call_same _ _ _ _ H3) as (_ & I3 & _). pose proof (call_protocol id _ _ _ _ _ H3 P2) as P3.
  set (y4 := upd id (set_initialized _) y3).
  apply (Hmid y4 (set_initialized (failed a3) (cancel_ctx i0))).
  - eapply touch_trans; [exact T|]. eapply touch_trans; [exact T3|apply touch_upd].
  - unfold y4. rewrite item_upd_eq, I3, Hi2. done.
  - done.
  - change (protocol (y_log y4) id) with (protocol (y_log y3) id). rewrite P3.
    unfold flag_ok in Hf. rewrite Hini in Hf. destruct Hf as (p & d & -> & Hp).
    change (pstep id (Some (p, d)) (CWaitScope id, a1)) with (Some (p, d)).
    assert (pstep id (Some (p, d)) (CDrain id, a2) = Some (p, true)) as ->.
    { cbn. rewrite String.eqb_refl. unfold failed. rewrite E2. cbn. by rewrite orb_true_r. }
    unfold flag_ok. cbn. rewrite String.eqb_refl.
    destruct Hp as [->|[->| ->]]; destruct (failed a3); eauto; eexists _, _; (split; [done|]); by right; right.
Qed.

(** ** One component changes, the rest keeps the invariant *)

Lemma item_dom (y : S) id : sys_ok y → is_Some (item id y) ↔ id ∈ rt_order (y_rt y).
Proof. intros H. apply (so_dom _ (yo_static _ H)). Qed.

Lemma item_reg (y : S) id i : sys_ok y → item id y = Some i →
  id ∈ rt_order (y_rt y) ∧ rt_registry (y_rt y) !! id = Some (in_registration i).
Proof. intros H Hi. split; [apply item_dom; eauto|]. by eapply io_reg, yo_inst. Qed.

(** Two components never provide the same port. *)
Lemma provider_unique (y : S) id1 id2 i1 i2 q1 q2 :
  sys_ok y → item id1 y = Some i1 → item id2 y = Some i2 →
  q1 ∈ m_Provides (in_manifest i1) → q2 ∈ m_Provides (in_manifest i2) → po_Name q1 = po_Name q2 → id1 = id2.
Proof.
  intros H H1 H2 Hq1 Hq2 E. destruct (item_reg _ _ _ H H1) as [Ho1 Hr1]. destruct (item_reg _ _ _ H H2) as [Ho2 Hr2].
  pose proof (so_provider _ (yo_static _ H) _ _ _ Ho1 Hr1 Hq1) as P1.
  pose proof (so_provider _ (yo_static _ H) _ _ _ Ho2 Hr2 Hq2) as P2. rewrite E in P1. congruence.
Qed.

Lemma inst_ok_other reg log log' x i : (protocol log' x = protocol log x) → inst_ok reg log x i → inst_ok reg log' x i.
Proof. intros E []. split; try rewrite E; auto. Qed.

Lemma touch_static id m (y y' : S) : touch id m y y' → static_ok (y_rt y) → static_ok (y_rt y').
Proof.
  intros [] []. split; rewrite ?to_registry0, ?to_order0, ?to_providers0, ?to_observed0; try done.
  intros x. rewrite <- so_dom0. destruct (decide (x = id)) as [->|Hne]; [apply to_dom0|].
  specialize (to_item0 x Hne). unfold item in to_item0. by rewrite to_item0.
Qed.

Lemma touch_ok id i i' (y y' : S) :
  sys_ok y → item id y = Some i → in_state i ≠ Running → touch id (in_manifest i) y y' →
  item id y' = Some i' → in_registration i' = in_registration i →
  inst_ok (rt_registry (y_rt y)) (y_log y') id i' →
  (in_state i' = Running → (∀ req p, req ∈ m_Requires (in_manifest i) → rq_Optional req = false →
     rt_providers (y_rt y) !! po_Name (rq_Port req) = Some p → running y p) ∧
   (∀ q, q ∈ m_Provides (in_manifest i) → rt_ports (y_rt y') !! po_Name q = in_bindings i' !! po_Name q ∧
      is_Some (in_bindings i' !! po_Name q)) ∧ rt_stopping (y_rt y) = false) →
  (in_initialized i' = true ∨ ∀ q, q ∈ m_Provides (in_manifest i) → rt_ports (y_rt y') !! po_Name q = None) →
  rt_stopped (y_rt y) = false → (rt_started (y_rt y) = false → rt_stopping (y_rt y) = false → fresh i') →
  sys_ok y'.
Proof.
  intros H Hi Hnr T Hi' Hreg Hok Hrun Hown Hst Hun. destruct T.
  assert (Hm : in_manifest i' = in_manifest i) by (unfold in_manifest; by rewrite Hreg).
  assert (Hkeep : ∀ x, running y x → x ≠ id) by (intros x (ix & Hx & Hrx) ->; congruence).
  assert (Hrun' : ∀ x, running y x → running y' x).
  { intros x Hx. pose proof (Hkeep x Hx). destruct Hx as (ix & Hx & Hrx). exists ix. by rewrite to_item0. }
  assert (Hback : ∀ x, x ≠ id → running y' x → running y x).
  { intros x Hne (ix & Hx & Hrx). exists ix. by rewrite <- to_item0. }
  split.
  - eapply (touch_static id (in_manifest i)); [by split|apply H].
  - intros x ix Hx. rewrite to_registry0. destruct (decide (x = id)) as [->|Hne]; [by simplify_eq|].
    rewrite to_item0 in Hx by done. eapply inst_ok_other; [by apply to_protocol0|]. by apply (yo_inst _ H).
  - intros x Hx. destruct (decide (x = id)) as [->|Hne]; [congruence|].
    rewrite to_protocol0 by done. rewrite to_item0 in Hx by done. by apply (yo_gone _ H).
  - intros x ix req p Hx Hrx Hreq Hopt. rewrite to_providers0. intros Hp. apply Hrun'.
    destruct (decide (x = id)) as [->|Hne].
    + rewrite Hi' in Hx. injection Hx as <-. rewrite Hm in Hreq. by eapply Hrun.
    + rewrite to_item0 in Hx by done. by eapply (yo_deps _ H).
  - intros x ix q Hx Hrx Hq. destruct (decide (x = id)) as [->|Hne].
    + rewrite Hi' in Hx. injection Hx as <-. rewrite Hm in Hq. by apply Hrun.
    + rewrite to_item0 in Hx by done. rewrite to_ports0; [by apply (yo_ports _ H x)|].
      intros q' Hq' E. apply Hne. eapply (provider_unique y); eauto.
  - intros n Hn. destruct (decide (n ∈ po_Name <$> m_Provides (in_manifest i))) as [Hin|Hin].
    + apply list_elem_of_fmap in Hin as (q & -> & Hq). exists id, i', q. rewrite Hm. split_and!; try done.
      destruct Hown as [?|Hno]; [done|]. rewrite (Hno q Hq) in Hn. by destruct Hn.
    + rewrite to_ports0 in Hn; [|intros q Hq <-; apply Hin; by apply list_elem_of_fmap_2].
      destruct (yo_owned _ H n Hn) as (x & ix & q & Hx & Hini & Hq & <-). exists x, ix, q.
      rewrite to_item0; [done|]. intros ->. apply Hin. rewrite Hi in Hx. injection Hx as <-. by apply list_elem_of_fmap_2.
  - rewrite to_stopping0. intros Hs x Hx. destruct (decide (x = id)) as [->|Hne].
    + destruct Hx as (ix & Hx & Hrx). rewrite Hi' in Hx. injection Hx as <-. destruct (Hrun Hrx) as (_ & _ & ?). congruence.
    + apply (yo_stopping _ H Hs x). by apply Hback.
  - rewrite to_stopped0. congruence.
  - rewrite to_started0, to_stopping0. intros Hs Hs' x ix Hx. destruct (decide (x = id)) as [->|Hne].
    + rewrite Hi' in Hx. injection Hx as <-. by apply Hun.
    + rewrite to_item0 in Hx by done. by eapply (yo_unstarted _ H).
Qed.

(** A component that is not initialized owns no port. *)
Lemma idle_ports id i (y : S) q : sys_ok y → item id y = Some i → in_initialized i = false →
  q ∈ m_Provides (in_manifest i) → rt_ports (y_rt y) !! po_Name q = None.
Proof.
  intros H Hi Hini Hq. apply eq_None_not_Some. intros (x & ix & q' & Hx & Hx' & Hq' & E)%(yo_owned _ H).
  assert (x = id) as -> by (eapply (provider_unique y); eauto). congruence.
Qed.

Lemma unavailable_none (r : Runtime) reqs req p :
  unavailable r reqs = None → req ∈ reqs → rq_Optional req = false →
  rt_providers r !! po_Name (rq_Port req) = Some p → ∃ i, rt_instances r !! p = Some i ∧ in_state i = Running.
Proof.
  induction reqs as [|x reqs IH]; cbn [unavailable]; [intros _ H; by apply elem_of_nil in H|].
  destruct (negb (rq_Optional x) && _) eqn:E; [done|]. intros Hu [->|Hin]%elem_of_cons Ho Hp; [|by apply IH].
  rewrite Ho, Hp in E. cbn in E. destruct (rt_instances r !! p) as [i|]; [|done].
  exists i. split; [done|]. unfold is_running in E. cbn in E. apply negb_false_iff in E. by apply bool_decide_eq_true in E.
Qed.

Lemma set_status_ok reg log id i s :
  inst_ok reg log id i → in_initialized i = false → st_ID s = id → st_State s ≠ Running →
  inst_ok reg log id (setStatus s i).
Proof. intros [] Hf Hid Hs. split; try done; cbn; try congruence; auto. Qed.

Lemma start_component_ok id (y : S) :
  sys_ok y → rt_started (y_rt y) = true → rt_stopping (y_rt y) = false → rt_stopped (y_rt y) = false →
  (∀ i, item id y = Some i → in_state i = Running ∨ fresh i) →
  sys_ok (start_component hook id y) ∧ ∃ m, touch id m y (start_component hook id y).
Proof.
  intros H Hs1 Hs2 Hs3 Hst. unfold start_component. destruct (item id y) as [i|] eqn:Hi;
    [|split; [done|]; exists (mkManifest "" [] [] [] []); apply touch_refl].
  destruct (is_running i) eqn:Hrun; [split; [done|]; exists (in_manifest i); apply touch_refl|].
  unfold is_running in Hrun. apply bool_decide_eq_false in Hrun.
  destruct (Hst i eq_refl) as [|[Hini Hstop]]; [done|]. pose proof (yo_inst _ H _ _ Hi) as Hok.
  destruct (unavailable (y_rt y) (m_Requires (in_manifest i))) as [p|] eqn:Hu.
  - rewrite item_upd_eq, Hi. cbn [fmap option_fmap option_map]. rewrite bool_decide_true by done.
    set (st := mkStatus id Blocked _).
    pose proof (touch_upd id (in_manifest i) (setStatus st) y) as T. split; [|by exists (in_manifest i)].
    apply (touch_ok id i (setStatus st i) y _ H Hi Hrun T); [by rewrite item_upd_eq, Hi|done| |done|right|done|by rewrite Hs1].
    + by apply set_status_ok.
    + intros q Hq. by eapply (idle_ports id i y).
  - rewrite Hi. rewrite bool_decide_false by congruence.
    set (i0 := setStatus (mkStatus id Starting "") (set_ctx (Some true) true i)).
    set (y0 := upd id (setStatus (mkStatus id Starting "")) (upd id (set_ctx (Some true) true) y)).
    assert (Hi0 : item id y0 = Some i0) by (unfold y0; rewrite !item_upd_eq, Hi; done).
    assert (T0 : touch id (in_manifest i) y y0) by (eapply touch_trans; apply touch_upd).
    destruct (io_idle _ _ _ _ Hok Hini) as [d Hd].
    assert (Hnone : ∀ q, q ∈ m_Provides (in_manifest i) → rt_ports (y_rt y0) !! po_Name q = None).
    { intros q Hq. by eapply (idle_ports id i y). }
    assert (Hlog : y_log y0 = y_log y) by done. clearbody y0.
    destruct (bring_up hook id i y0) as [[e|] y1] eqn:Hb.
    + destruct (bring_up_spec id i i0 y0 _ y1 d Hb Hi0 Hini ltac:(by rewrite Hlog)) as (T1 & i1 & Hi1 & (Hr1 & Hc1 & Hn1) & _ & _ & Hf1 & _).
      destruct (bring_down_spec id (in_manifest i) e i1 y1 Hi1 ltac:(by rewrite Hn1) Hf1)
        as (T2 & i2 & Hi2 & (Hr2 & Hc2 & Hn2) & Hst2 & Hob2 & Hf2 & Hp2).
      assert (T : touch id (in_manifest i) y (bring_down hook id (in_manifest i) e y1))
        by (eapply touch_trans; [exact T0|]; by eapply touch_trans).
      split; [|by exists (in_manifest i)].
      assert (Hreg2 : in_registration i2 = in_registration i) by (rewrite Hr2, Hr1; done).
      assert (Hs : in_state i2 = Failed) by (unfold in_state; by rewrite Hst2).
      apply (touch_ok id i i2 y _ H Hi Hrun T); [done|done| |by rewrite Hs|by right|done|by rewrite Hs1].
      unfold flag_ok in Hf2. split.
      * rewrite Hreg2. apply Hok.
      * by rewrite Hst2.
      * exact Hob2.
      * intros E. by rewrite E in Hf2.
      * intros E. rewrite E in Hf2. by rewrite Hn2, Hn1.
      * by rewrite Hs.
      * rewrite Hs. by intros [|].
    + destruct (bring_up_spec id i i0 y0 _ y1 d Hb Hi0 Hini ltac:(by rewrite Hlog)) as (T1 & i1 & Hi1 & (Hr1 & Hc1 & Hn1) & _ & Hctx & Hf1 & Hup).
      destruct (Hup eq_refl) as (Hin1 & Hph & Hall & Hports).
      set (i2 := setStatus (mkStatus id Running "") i1).
      assert (T : touch id (in_manifest i) y (upd id (setStatus (mkStatus id Running "")) y1)).
      { eapply touch_trans; [exact T0|]. eapply touch_trans; [exact T1|apply touch_upd]. }
      split; [|by exists (in_manifest i)].
      assert (Hbind : ∀ q, q ∈ m_Provides (in_manifest i) → rt_ports (y_rt y1) !! po_Name q = in_bindings i1 !! po_Name q
         ∧ is_Some (in_bindings i1 !! po_Name q)).
      { intros q Hq. rewrite all_bound_spec in Hall. specialize (Hall q Hq).
        rewrite Hports, lookup_union_l in Hall |- *; [done|by apply Hnone..]. }
      assert (Hreg1 : in_registration i1 = in_registration i) by (rewrite Hr1; done).
      assert (Hm1 : in_manifest i1 = in_manifest i) by (unfold in_manifest; by rewrite Hreg1).
      apply (touch_ok id i i2 y _ H Hi Hrun T); [by rewrite item_upd_eq, Hi1|done| | |by left|done|by rewrite Hs1].
      * change (y_log (upd id (setStatus (mkStatus id Running "")) y1)) with (y_log y1).
        split; cbn; try done.
        -- rewrite Hreg1. apply Hok.
        -- by rewrite Hin1.
        -- intros _. split; [by rewrite Hn1|]. destruct Hph as [d' ->]. exists PUp, d'. split; [done|]. by right; left.
        -- intros _. split_and!; try done. change (in_manifest i2) with (in_manifest i1).
           rewrite Hm1. apply all_bound_spec. intros q Hq. by apply Hbind.
        -- intros [|]; done.
      * intros _. split_and!; [|apply Hbind|done]. intros req p Hreq Hopt Hp.
        destruct (unavailable_none _ _ _ _ Hu Hreq Hopt Hp) as (ip & ? & ?). by exists ip.
Qed.
End inv.
