(* ===== verification/RteOps.v ===== *)
(** * The runtime's operations keep its invariant

    [Start], [Reconfigure], [Stop] and [ReconcileComponents] of Rte.v, with
    whatever the components answer. *)

From stdpp Require Import sorting relations.
From S2P Require Import Prelude Strings Storage Config Rte RteBuild RteInv.
Local Open Scope list_scope.

Section ops.
Context (up : string → option (string * string)) {W : Type} (hook : call → W → answer * W).
Abbreviation S := (sys (W := W)).

(** ** Start *)

Definition restartable (y : S) (id : string) : Prop :=
  ∀ i, item id y = Some i → in_state i = Running ∨ fresh i.

Lemma start_fold l : ∀ y : S,
  NoDup l → sys_ok y → rt_started (y_rt y) = true → rt_stopping (y_rt y) = false → rt_stopped (y_rt y) = false →
  (∀ id, id ∈ l → restartable y id) →
  sys_ok (foldl (λ y id, start_component hook id y) y l).
Proof.
  induction l as [|id l IH]; intros y Hn H H1 H2 H3 Hl; cbn [foldl]; [done|].
  apply NoDup_cons in Hn as [Hid Hn].
  destruct (start_component_ok hook id y H H1 H2 H3 (Hl id (list_elem_of_here _ _))) as (H' & m & T).
  destruct T. apply IH; try done; try congruence.
  intros x Hx i. rewrite to_item; [by apply Hl; right|]. by intros ->.
Qed.

Lemma flags_ok (y : S) : sys_ok y → rt_stopping (y_rt y) = false → rt_stopped (y_rt y) = false →
  sys_ok (with_rt (λ r, set_flags true (rt_stopped r) (rt_stopping r) r) y).
Proof. intros [[] ] H1 H2. by split. Qed.

Lemma startLocked_ok (y : S) :
  sys_ok y → rt_stopping (y_rt y) = false → rt_stopped (y_rt y) = false → (∀ id, restartable y id) →
  sys_ok (startLocked hook y).2.
Proof.
  intros H H1 H2 Hr. unfold startLocked. cbn [snd]. apply start_fold; try done.
  - apply (so_order _ (yo_static _ H)).
  - by apply flags_ok.
  - intros id _. apply Hr.
Qed.

Lemma RteStart_ok (y : S) : sys_ok y → sys_ok (RteStart hook y).2.
Proof.
  intros H. unfold RteStart.
  destruct (rt_started (y_rt y)) eqn:E1, (rt_stopped (y_rt y)) eqn:E2, (rt_stopping (y_rt y)) eqn:E3; try done.
  apply startLocked_ok; try done. intros id i Hi. right. by eapply (yo_unstarted _ H).
Qed.

(** ** Reconfigure *)

(** Every instance is rewritten, none is started. *)
Lemma remap_ok (f : string → instance → instance) (y y' : S) :
  sys_ok y → rt_stopped (y_rt y) = false →
  (∀ id, item id y' = f id <$> item id y) →
  rt_registry (y_rt y') = rt_registry (y_rt y) → rt_order (y_rt y') = rt_order (y_rt y) →
  rt_observed (y_rt y') = rt_observed (y_rt y) → rt_providers (y_rt y') = rt_providers (y_rt y) →
  rt_ports (y_rt y') = rt_ports (y_rt y) → rt_stopped (y_rt y') = false →
  (∀ id i, item id y = Some i → inst_ok (rt_registry (y_rt y)) (y_log y') id (f id i) ∧
     in_registration (f id i) = in_registration i ∧ in_initialized (f id i) = in_initialized i ∧
     in_bindings (f id i) = in_bindings i ∧ (in_state (f id i) = Running → in_state i = Running)) →
  (∀ id, item id y = None → protocol (y_log y') id = protocol (y_log y) id) →
  (∀ id i req p, running y' id → item id y = Some i → req ∈ m_Requires (in_manifest i) → rq_Optional req = false →
     rt_providers (y_rt y) !! po_Name (rq_Port req) = Some p → running y p → running y' p) →
  (rt_stopping (y_rt y') = true → ∀ id, ¬ running y' id) →
  (rt_started (y_rt y') = false → rt_stopping (y_rt y') = false → ∀ id i, item id y' = Some i → fresh i) →
  sys_ok y'.
Proof.
  intros H Hst Hit Hreg Hord Hobs Hprov Hports Hst' Hf Hgone Hdeps Hstop Hun.
  assert (Hinv : ∀ x i', item x y' = Some i' → ∃ i, item x y = Some i ∧ i' = f x i).
  { intros x i' Hx. rewrite Hit in Hx. by apply fmap_Some in Hx. }
  assert (Hm : ∀ x i, item x y = Some i → in_manifest (f x i) = in_manifest i).
  { intros x i Hx. destruct (Hf x i Hx) as (_ & E & _). unfold in_manifest. by rewrite E. }
  split.
  - destruct (yo_static _ H) as [H1 H2 H3 H4 H5]. split; rewrite ?Hreg, ?Hord, ?Hprov, ?Hobs; try done.
    intros x. rewrite <- H2. change (is_Some (item x y') ↔ is_Some (item x y)). rewrite Hit. apply fmap_is_Some.
  - intros x i' Hx. rewrite Hreg. destruct (Hinv x i' Hx) as (i & Hi & ->). by apply Hf.
  - intros x Hx. rewrite Hit in Hx. apply fmap_None in Hx. rewrite Hgone by done. by apply (yo_gone _ H).
  - intros x i' req p Hx Hr Hreq Ho. rewrite Hprov. intros Hp. destruct (Hinv x i' Hx) as (i & Hi & ->).
    rewrite (Hm x i Hi) in Hreq. eapply Hdeps; try done; [by exists (f x i)|].
    eapply (yo_deps _ H); try done. by eapply Hf.
  - intros x i' q Hx Hr Hq. rewrite Hports. destruct (Hinv x i' Hx) as (i & Hi & ->).
    rewrite (Hm x i Hi) in Hq. destruct (Hf x i Hi) as (_ & _ & _ & -> & Hrun). by apply (yo_ports _ H x); [|apply Hrun|].
  - intros n. rewrite Hports. intros (x & i & q & Hx & Hi & Hq & E)%(yo_owned _ H). exists x, (f x i), q.
    destruct (Hf x i Hx) as (_ & _ & E1 & _). rewrite Hit, Hx, (Hm x i Hx), E1. done.
  - done.
  - congruence.
  - done.
Qed.

Lemma running_item (y y' : S) f id i : (∀ id, item id y' = f id <$> item id y) → item id y = Some i →
  running y' id → in_state (f id i) = Running.
Proof. intros Hit Hi (i' & Hx & Hr). rewrite Hit, Hi in Hx. by injection Hx as <-. Qed.

(** A call that moves no component's protocol. *)
Lemma call_ok c (y : S) a y' : sys_ok y → rt_stopped (y_rt y) = false → do_call hook c y = (a, y') →
  (∀ x s, protocol (y_log y) x = Some s → ∃ d, pstep x (Some s) (c, a) = Some (fst s, d) ∧ (snd s = true → d = true)) →
  sys_ok y'.
Proof.
  intros H Hst Hc Hp. destruct (call_same _ _ _ _ _ Hc) as (Hrt & Hit & Hlog).
  assert (Hph : ∀ x p d, protocol (y_log y) x = Some (p, d) → ∃ d', protocol (y_log y') x = Some (p, d')).
  { intros x p d E. rewrite Hlog, protocol_snoc, E. destruct (Hp x _ E) as (d' & -> & _). eauto. }
  split; rewrite ?Hrt; [apply H|..].
  - intros x i Hx. rewrite Hit in Hx. pose proof (yo_inst _ H _ _ Hx) as Hok. split; try apply Hok.
    + intros E. destruct (io_idle _ _ _ _ Hok E) as [d Hd]. by eapply Hph.
    + intros E. destruct (io_init _ _ _ _ Hok E) as (? & p & d & Hd & Hs). split; [done|].
      destruct (Hph _ _ _ Hd) as [d' ?]. eauto.
    + intros E. destruct (io_running _ _ _ _ Hok E) as (? & [d Hd] & ? & ?). split_and!; try done. by eapply Hph.
  - intros x Hx. rewrite Hit in Hx. destruct (yo_gone _ H x Hx) as [d Hd]. by eapply Hph.
  - intros x i req p Hx. rewrite Hit in Hx. intros Hr Hq Ho Hpv. destruct (yo_deps _ H x i req p Hx Hr Hq Ho Hpv) as (ip & ? & ?).
    exists ip. by rewrite Hit.
  - intros x i q Hx. rewrite Hit in Hx. by apply (yo_ports _ H x).
  - intros n Hn. destruct (yo_owned _ H n Hn) as (x & i & q & ?). exists x, i, q. by rewrite Hit.
  - intros Hs x (i & Hx & Hr). rewrite Hit in Hx. apply (yo_stopping _ H Hs x). by exists i.
  - congruence.
  - intros H1 H2 x i. rewrite Hit. by apply (yo_unstarted _ H H1 H2 x).
Qed.

Lemma RteReconfigure_ok id values canceled (y : S) : sys_ok y → sys_ok (RteReconfigure up hook id values canceled y).2.
Proof.
  intros H. unfold RteReconfigure. destruct canceled; [done|]. destruct (item id y) as [i|] eqn:Hi; [|done].
  destruct (ConfigNew _ _ _) as [v|x]; [|done]. destruct (is_running i) eqn:Hr; [|done]. cbn [negb].
  destruct (ViewEqual _ _); [done|]. destruct (do_call hook _ y) as [a y1] eqn:Hc.
  apply bool_decide_eq_true in Hr.
  assert (Hns : rt_stopped (y_rt y) = false).
  { destruct (rt_stopped (y_rt y)) eqn:E; [|done]. destruct (yo_stopped _ H E) as (Hs & _ & _).
    exfalso. apply (yo_stopping _ H Hs id). by exists i. }
  destruct (io_running _ _ _ _ (yo_inst _ H _ _ Hi) Hr) as (_ & [d Hd] & _ & _).
  assert (H1 : sys_ok y1).
  { eapply call_ok; try done. intros x [p d'] Hx. cbn. destruct (String.eqb_spec id x) as [<-|]; [|eauto].
    rewrite Hd in Hx. injection Hx as <- <-. eauto. }
  destruct (call_same _ _ _ _ _ Hc) as (Hrt & Hit & _).
  destruct (an_error a); [done|]. cbn [snd].
  set (g := λ i : instance, setStatus (in_status i) (set_config v i)).
  apply (remap_ok (λ x j, if decide (x = id) then g j else j) y1); try (change (y_rt (upd id g y1)) with (upd_instance id g (y_rt y1)); rewrite ?Hrt; done).
  - intros x. rewrite item_upd. case_decide; [by subst|]. by destruct (item x y1).
  - intros x j Hx. pose proof (yo_inst _ H1 _ _ Hx) as Hok.
    change (y_log (upd id g y1)) with (y_log y1). case_decide; [|split_and!; try done; apply Hok]. split_and!; try done. destruct Hok. by split.
  - intros x j req p _ _ _ _ _ (ip & Hp & Hpr). exists (if decide (p = id) then g ip else ip).
    rewrite item_upd. destruct (decide (p = id)) as [->|]; by rewrite Hp.
  - change (y_rt (upd id g y1)) with (upd_instance id g (y_rt y1)). rewrite Hrt.
    intros Hs. exfalso. apply (yo_stopping _ H Hs id). by exists i.
  - change (y_rt (upd id g y1)) with (upd_instance id g (y_rt y1)). rewrite Hrt.
    intros Hs Hs' x j. rewrite item_upd, !Hit. intros Hj.
    assert (Hk : ∃ k, item x y = Some k ∧ in_state j = in_state k ∧ in_initialized j = in_initialized k).
    { destruct (decide (x = id)) as [->|]; [|by exists j]. rewrite Hi in Hj. injection Hj as <-. by exists i. }
    destruct Hk as (k & Hk & Ek1 & Ek2). unfold fresh. rewrite Ek1, Ek2. by apply (yo_unstarted _ H Hs Hs' x).
Qed.

(** ** Stop *)

Definition is_init (y : S) (id : string) : bool :=
  match item id y with Some i => in_initialized i | None => false end.
Definition has_runnables (y : S) (id : string) : bool :=
  match item id y with Some i => in_runnables i | None => false end.
Definition drained (y : S) (id : string) : Prop := ∃ p, protocol (y_log y) id = Some (p, true).

(** Shutting down: nothing runs any more. *)
Definition closing (y : S) : Prop :=
  sys_ok y ∧ rt_stopping (y_rt y) = true ∧ rt_stopped (y_rt y) = false.

Lemma closing_not_running y id i : closing y → item id y = Some i → in_state i ≠ Running.
Proof. intros (H & Hs & _) Hi Hr. apply (yo_stopping _ H Hs id). by exists i. Qed.

(** A component changes while nothing runs. *)
Lemma closing_touch id i i' (y y' : S) :
  closing y → item id y = Some i → touch id (in_manifest i) y y' → item id y' = Some i' →
  in_registration i' = in_registration i → inst_ok (rt_registry (y_rt y)) (y_log y') id i' →
  in_state i' ≠ Running →
  (in_initialized i' = true ∨ ∀ q, q ∈ m_Provides (in_manifest i) → rt_ports (y_rt y') !! po_Name q = None) →
  closing y'.
Proof.
  intros Hc Hi T Hi' Hreg Hok Hr Hown. pose proof (closing_not_running y id i Hc Hi) as Hnr.
  destruct Hc as (H & Hs & Hst). split; [|rewrite (to_stopping _ _ _ _ T), (to_stopped _ _ _ _ T); done].
  apply (touch_ok id i i' y y' H Hi Hnr T); try done. intros _. congruence.
Qed.

Lemma fail_ok id i e (y : S) : closing y → item id y = Some i →
  closing (upd id (setStatus (mkStatus id Failed e)) y).
Proof.
  intros Hc Hi. pose proof (yo_inst _ (proj1 Hc) _ _ Hi) as Hok.
  apply (closing_touch id i (setStatus (mkStatus id Failed e) i) y); try done.
  - apply touch_upd.
  - by rewrite item_upd_eq, Hi.
  - destruct Hok. split; try done. by intros [|].
  - destruct (in_initialized i) eqn:E; [by left|right]. intros q Hq.
    change (rt_ports (y_rt y) !! po_Name q = None). eapply (idle_ports id i y q); [apply Hc|done..].
Qed.

Lemma drain_call_ok id (y : S) a y' : closing y → do_call hook (CDrain id) y = (a, y') →
  closing y' ∧ y_rt y' = y_rt y ∧ (∀ x, drained y x → drained y' x) ∧
  (failed a = false → is_init y id = true → drained y' id).
Proof.
  intros (H & Hs & Hst) Hc. destruct (call_same _ _ _ _ _ Hc) as (Hrt & Hit & Hlog).
  assert (Hp : ∀ x s, protocol (y_log y) x = Some s → ∃ d, pstep x (Some s) (CDrain id, a) = Some (fst s, d) ∧ (snd s = true → d = true)).
  { intros x [p d] _. cbn. destruct (String.eqb id x); [|eauto]. eexists. split; [done|]. by intros ->. }
  split; [split; [by eapply call_ok|by rewrite Hrt]|]. split; [done|]. split.
  - intros x [p Hx]. destruct (Hp x _ Hx) as (d & Hd & Ht). exists p.
    rewrite Hlog, protocol_snoc, Hx, Hd. cbn. by rewrite Ht.
  - intros Hf Hi. unfold is_init in Hi. destruct (item id y) as [i|] eqn:Hid; [|done].
    destruct (io_init _ _ _ _ (yo_inst _ H _ _ Hid) Hi) as (_ & p & d & Hd & _). exists p.
    rewrite Hlog, protocol_snoc, Hd. cbn. by rewrite String.eqb_refl, Hf, orb_true_r.
Qed.

Lemma drain_all_spec ids : ∀ (y : S) e y', closing y → drain_all hook ids y = (e, y') →
  closing y' ∧ rt_order (y_rt y') = rt_order (y_rt y) ∧
  (e = None → y_rt y' = y_rt y ∧ (∀ x, drained y x → drained y' x) ∧
     (∀ id, id ∈ ids → is_init y id = true → drained y' id) ∧
     ∃ l, y_log y' = y_log y ++ l ∧ l.*1 = CDrain <$> filter (λ id, has_runnables y id = true) ids).
Proof.
  induction ids as [|id ids IH]; intros y e y' Hc; cbn [drain_all].
  { intros [= <- <-]. split_and!; try done. intros _. split_and!; try done; [intros id Hid; by apply elem_of_nil in Hid|].
    exists []. by rewrite app_nil_r. }
  destruct (match item id y with Some i => in_runnables i | None => false end) eqn:Hr.
  - destruct (do_call hook (CDrain id) y) as [a y1] eqn:H1.
    destruct (drain_call_ok id y a y1 Hc H1) as (Hc1 & Hrt & Hmono & Hd).
    destruct (call_same _ _ _ _ _ H1) as (_ & Hit & Hlog). destruct (an_error a) as [er|] eqn:Ea.
    + intros [= <- <-]. destruct (item id y) as [i|] eqn:Hi; [|done].
      split; [apply (fail_ok id i); [done|by rewrite Hit]|]. split; [cbn; by rewrite Hrt|done].
    + intros H. destruct (IH y1 e y' Hc1 H) as (Hc' & Ho & Hok). split; [done|]. split; [by rewrite Ho, Hrt|].
      intros He. destruct (Hok He) as (Hrt' & Hmono' & Hdr & l & Hl & Hl1). rewrite Hrt', Hrt.
      split_and!; [done|by auto| |].
      * intros x [->|Hx]%elem_of_cons Hi; [apply Hmono', Hd; [unfold failed; by rewrite Ea|done]|].
        apply Hdr; [done|]. unfold is_init. by rewrite Hit.
      * exists ((CDrain id, a) :: l). rewrite Hl, Hlog, <- app_assoc. split; [done|].
        cbn [fmap list_fmap]. rewrite filter_cons_True by done. cbn. f_equal. rewrite Hl1. f_equal.
        apply list_filter_iff. intros x. unfold has_runnables. by rewrite Hit.
  - intros H. destruct (IH y e y' Hc H) as (Hc' & Ho & Hok). split_and!; [done..|]. intros He.
    destruct (Hok He) as (Hrt' & Hmono' & Hdr & l & Hl & Hl1). split_and!; [done..| |].
    + intros x [->|Hx]%elem_of_cons Hi; [|by apply Hdr]. exfalso. unfold is_init in Hi.
      destruct (item id y) as [i|] eqn:Hid; [|done].
      destruct (io_init _ _ _ _ (yo_inst _ (proj1 Hc) _ _ Hid) Hi) as [E _]. congruence.
    + exists l. split; [done|]. rewrite filter_cons_False; [done|]. unfold has_runnables. by rewrite Hr.
Qed.

Definition is_down (y : S) (id : string) : Prop :=
  ∀ i, item id y = Some i → in_initialized i = false ∧ in_state i = Stopped.

Lemma list_filter_iff' {A} (P Q : A → Prop) `{!∀ x, Decision (P x), !∀ x, Decision (Q x)} (l : list A) :
  (∀ x, x ∈ l → P x ↔ Q x) → filter P l = filter Q l.
Proof.
  induction l as [|x l IH]; intros Hl; [done|]. assert (Hx : P x ↔ Q x) by (apply Hl; left).
  rewrite !filter_cons. rewrite IH by (intros; apply Hl; by right).
  destruct (decide (P x)), (decide (Q x)); naive_solver.
Qed.

(** One component is released. *)
Lemma release_ok id i i' (y y' : S) :
  closing y → item id y = Some i → touch id (in_manifest i) y y' → item id y' = Some i' →
  in_registration i' = in_registration i → in_status i' = mkStatus id Stopped "" → in_initialized i' = false →
  in_observation i' = Some (mkObservation (in_status i') (in_config i') (in_bindings i')) →
  (∃ d, protocol (y_log y') id = Some (PIdle, d)) →
  (∀ q, q ∈ m_Provides (in_manifest i) → rt_ports (y_rt y') !! po_Name q = None) → closing y'.
Proof.
  intros Hc Hi T Hi' Hreg Hst Hini Hob Hp Hports. apply (closing_touch id i i' y y' Hc Hi T Hi' Hreg); [| |by right].
  - split.
    + rewrite Hreg. eapply io_reg, yo_inst; [apply Hc|done].
    + by rewrite Hst.
    + done.
    + done.
    + congruence.
    + unfold in_state. by rewrite Hst.
    + done.
  - unfold in_state. by rewrite Hst.
Qed.

Lemma stop_call_ok id i (y : S) a y' :
  closing y → item id y = Some i → in_initialized i = true → drained y id → do_call hook (CStop id) y = (a, y') →
  protocol (y_log y') id = Some (if failed a then PBroken else PIdle, true).
Proof.
  intros Hc Hi Hini [p Hp] Hcall. rewrite (call_protocol hook id _ _ _ _ _ Hcall Hp).
  destruct (io_init _ _ _ _ (yo_inst _ (proj1 Hc) _ _ Hi) Hini) as (_ & p' & d & Hd & Hs).
  assert (p' = p) as -> by congruence. cbn. rewrite String.eqb_refl. by destruct Hs as [->|[->| ->]].
Qed.

Lemma stop_all_spec ids : ∀ (y : S) e y', closing y → NoDup ids →
  (∀ id, id ∈ ids → is_init y id = true → drained y id) → stop_all hook ids y = (e, y') →
  closing y' ∧ rt_order (y_rt y') = rt_order (y_rt y) ∧
  (∀ x, x ∉ ids → item x y' = item x y) ∧
  (e = None → (∀ id, id ∈ ids → is_down y' id) ∧
     ∃ l, y_log y' = y_log y ++ l ∧ l.*1 = CStop <$> filter (λ id, is_init y id = true) ids).
Proof.
  induction ids as [|id ids IH]; intros y e y' Hc Hn Hd; cbn [stop_all].
  { intros [= <- <-]. split_and!; try done. intros _. split; [intros x Hx; by apply elem_of_nil in Hx|].
    exists []. by rewrite app_nil_r. }
  apply NoDup_cons in Hn as [Hid Hn].
  destruct (item id y) as [i|] eqn:Hi.
  2:{ intros H. destruct (IH y e y' Hc Hn) as (Hc' & Ho & Hk & Hok); [intros; apply Hd; [by right|done]|done|].
      split; [done|]. split; [done|]. split; [intros x Hx; apply Hk; set_solver|]. intros He. destruct (Hok He) as (Hdn & l & Hl & Hl1).
      split.
      - intros x [->|Hx]%elem_of_cons; [|by apply Hdn]. intros j. rewrite Hk, Hi by done. done.
      - exists l. split; [done|]. rewrite filter_cons_False; [done|]. unfold is_init. by rewrite Hi. }
  destruct (in_initialized i) eqn:Hini; cbn [negb].
  - destruct (do_call hook (CStop id) y) as [a y1] eqn:H1.
    destruct (call_same _ _ _ _ _ H1) as (Hrt & Hit & Hlog).
    pose proof (touch_call _ _ _ (in_manifest i) _ _ H1 ltac:(done)) as T1. cbn [subject] in T1.
    assert (Hinit : is_init y id = true) by (unfold is_init; by rewrite Hi).
    pose proof (stop_call_ok id i y a y1 Hc Hi Hini (Hd id (list_elem_of_here _ _) Hinit) H1) as Hp.
    unfold failed in Hp. destruct (an_error a) as [er|] eqn:Ea.
    + intros [= <- <-]. split; [|split; [cbn; by rewrite Hrt|split; [|done]]].
      * eapply (closing_touch id i (setStatus (mkStatus id Failed er) i) y); try done;
          [eapply touch_trans; [exact T1|apply touch_upd]|by rewrite item_upd_eq, Hit, Hi| |by left].
        change (y_log (upd id (setStatus (mkStatus id Failed er)) y1)) with (y_log y1).
        pose proof (yo_inst _ (proj1 Hc) _ _ Hi) as Hok.
        split; [apply Hok|done|done| | |done|by intros [|]]; cbn; rewrite Hini; [done|].
        intros _. split; [by apply (io_init _ _ _ _ Hok)|]. exists PBroken, true. split; [exact Hp|]. by right; right.
      * intros x Hx. rewrite item_upd, decide_False by set_solver. by rewrite Hit.
    + set (y2 := release_ports _ _). intros H.
      set (i2 := setStatus (mkStatus id Stopped "") (set_initialized false i)).
      assert (Hi2 : item id y2 = Some i2).
      { change (item id (upd id (λ i, setStatus (mkStatus id Stopped "") (set_initialized false i)) y1) = Some i2).
        by rewrite item_upd_eq, Hit, Hi. }
      assert (T2 : touch id (in_manifest i) y y2).
      { eapply touch_trans; [exact T1|]. eapply touch_trans; [apply touch_upd|apply touch_release]. }
      assert (Hlog2 : y_log y2 = y_log y ++ [(CStop id, a)]) by done.
      assert (Hc2 : closing y2).
      { apply (release_ok id i i2 y y2 Hc Hi T2 Hi2); try done; [by exists true|].
        intros q Hq. unfold y2. cbn. rewrite drop_ports_lookup, decide_True; [done|]. by apply list_elem_of_fmap_2. }
      assert (Hoth : ∀ x, x ≠ id → item x y2 = item x y) by apply T2.
      destruct (IH y2 e y' Hc2 Hn) as (Hc' & Ho & Hk & Hok); [|done|].
      { intros x Hx Hxi. assert (Hne : x ≠ id) by set_solver. unfold is_init in Hxi. rewrite Hoth in Hxi by done.
        destruct (Hd x) as [p Hpx]; [by right|done|]. exists p. rewrite (to_protocol _ _ _ _ T2) by done. done. }
      split; [done|]. split; [by rewrite Ho, (to_order _ _ _ _ T2)|].
      split; [intros x Hx; rewrite Hk by set_solver; apply Hoth; set_solver|].
      intros He. destruct (Hok He) as (Hdn & l & Hl & Hl1). split.
      * intros x [->|Hx]%elem_of_cons; [|by apply Hdn]. intros j. rewrite Hk, Hi2 by done. by intros [= <-].
      * exists ((CStop id, a) :: l). rewrite Hl, Hlog2, <- app_assoc. split; [done|].
        rewrite filter_cons_True by done. cbn. f_equal. rewrite Hl1. f_equal. apply list_filter_iff'.
        intros x Hx. unfold is_init. rewrite Hoth; [done|]. by intros ->.
  - set (y2 := upd id _ y). intros H.
    set (i2 := setStatus (mkStatus id Stopped "") i).
    assert (Hi2 : item id y2 = Some i2) by (unfold y2; by rewrite item_upd_eq, Hi).
    pose proof (touch_upd id (in_manifest i) (setStatus (mkStatus id Stopped "")) y) as T2. fold y2 in T2.
    assert (Hc2 : closing y2).
    { apply (release_ok id i i2 y y2 Hc Hi T2 Hi2); try done.
      - by eapply io_idle; [apply (yo_inst _ (proj1 Hc))|].
      - intros q Hq. change (rt_ports (y_rt y) !! po_Name q = None). eapply (idle_ports id i y q); [apply Hc|done..]. }
    assert (Hoth : ∀ x, x ≠ id → item x y2 = item x y) by apply T2.
    destruct (IH y2 e y' Hc2 Hn) as (Hc' & Ho & Hk & Hok); [|done|].
    { intros x Hx Hxi. assert (Hne : x ≠ id) by set_solver. unfold is_init in Hxi. rewrite Hoth in Hxi by done.
      destruct (Hd x) as [p Hpx]; [by right|done|]. by exists p. }
    split; [done|]. split; [done|].
    split; [intros x Hx; rewrite Hk by set_solver; apply Hoth; set_solver|].
    intros He. destruct (Hok He) as (Hdn & l & Hl & Hl1). split.
    + intros x [->|Hx]%elem_of_cons; [|by apply Hdn]. intros j. rewrite Hk, Hi2 by done. by intros [= <-].
    + exists l. split; [done|]. rewrite filter_cons_False by (unfold is_init; rewrite Hi; congruence).
      rewrite Hl1. f_equal. apply list_filter_iff'. intros x Hx. unfold is_init. rewrite Hoth; [done|]. by intros ->.
Qed.

(** Contexts are canceled and the initialized components marked. *)
Definition stop_marked (y : S) : S :=
  with_rt (λ r, set_instances (stop_mark <$> rt_instances r) (set_flags (rt_started r) (rt_stopped r) true r)) y.

Lemma item_marked (y : S) id : item id (stop_marked y) = stop_mark <$> item id y.
Proof. unfold item, stop_marked. cbn. apply lookup_fmap. Qed.

Lemma stop_mark_same i : in_registration (stop_mark i) = in_registration i ∧
  in_initialized (stop_mark i) = in_initialized i ∧ in_bindings (stop_mark i) = in_bindings i ∧
  in_runnables (stop_mark i) = in_runnables i.
Proof. unfold stop_mark. destruct (in_initialized i) eqn:E; cbn; by rewrite ?E. Qed.

Lemma stop_mark_state i : in_state (stop_mark i) = (if in_initialized i then Stopping else in_state i).
Proof. unfold stop_mark. by destruct (in_initialized i). Qed.

Lemma stop_mark_ok reg log id i : inst_ok reg log id i → inst_ok reg log id (stop_mark i).
Proof.
  intros H. destruct (stop_mark_same i) as (E1 & E2 & E3 & E4). split; rewrite ?E1, ?E2, ?E3, ?E4.
  - apply H.
  - unfold stop_mark. destruct (in_initialized i); apply H.
  - unfold stop_mark. destruct (in_initialized i); [done|apply H].
  - apply H.
  - apply H.
  - rewrite stop_mark_state. destruct (in_initialized i) eqn:E; [done|]. intros Hr.
    destruct (io_running _ _ _ _ H Hr). congruence.
  - rewrite stop_mark_state. destruct (in_initialized i) eqn:E; [by intros [|]|done].
Qed.

Lemma stop_marked_ok (y : S) : sys_ok y → rt_stopped (y_rt y) = false → closing (stop_marked y).
Proof.
  intros H Hst. split; [|done]. apply (remap_ok (λ _ i, stop_mark i) y); try done.
  - intros id. apply item_marked.
  - intros id i Hi. destruct (stop_mark_same i) as (? & ? & ? & ?). pose proof (yo_inst _ H _ _ Hi) as Hok. split_and!; try done.
    + by apply stop_mark_ok.
    + rewrite stop_mark_state. destruct (in_initialized i) eqn:E; [done|]. intros Hr.
      destruct (io_running _ _ _ _ Hok Hr). congruence.
  - intros id i req p (i' & Hx & Hr) Hi. rewrite item_marked, Hi in Hx. injection Hx as <-.
    rewrite stop_mark_state in Hr. destruct (in_initialized i) eqn:E; [done|].
    destruct (io_running _ _ _ _ (yo_inst _ H _ _ Hi) Hr). congruence.
  - intros _ id (i' & Hx & Hr). rewrite item_marked in Hx. destruct (item id y) as [i|] eqn:Hi; [|done]. injection Hx as <-.
    rewrite stop_mark_state in Hr. destruct (in_initialized i) eqn:E; [done|].
    destruct (io_running _ _ _ _ (yo_inst _ H _ _ Hi) Hr). congruence.
Qed.

Lemma bus_close_ok (y : S) a y' : closing y → do_call hook CBusClose y = (a, y') → closing y' ∧
  y_rt y' = y_rt y ∧ y_log y' = y_log y ++ [(CBusClose, a)].
Proof.
  intros (H & Hs & Hst) Hc. destruct (call_same _ _ _ _ _ Hc) as (Hrt & _ & Hlog). split; [|done].
  split; [|by rewrite Hrt]. eapply call_ok; try done. intros x [p d] _. by exists d.
Qed.

Definition fail_init (e : string) (i : instance) : instance :=
  if in_initialized i then setStatus (mkStatus (st_ID (in_status i)) Failed e) i else i.

Lemma fail_all_ok e (y : S) : closing y →
  closing (with_rt (λ r, set_instances (fail_init e <$> rt_instances r) r) y).
Proof.
  intros (H & Hs & Hst). split; [|done].
  assert (Hit : ∀ id, item id (with_rt (λ r, set_instances (fail_init e <$> rt_instances r) r) y) = fail_init e <$> item id y)
    by (intros id; apply lookup_fmap).
  assert (Hno : ∀ id i, item id y = Some i → in_state (fail_init e i) ≠ Running).
  { intros id i Hi. unfold fail_init. destruct (in_initialized i) eqn:E; [done|]. intros Hr. apply (yo_stopping _ H Hs id). by exists i. }
  apply (remap_ok (λ _ i, fail_init e i) y); try done.
  - intros id i Hi. pose proof (yo_inst _ H _ _ Hi) as Hok. pose proof (Hno _ _ Hi). split; [|unfold fail_init; destruct (in_initialized i) eqn:E; cbn; by rewrite ?E].
    unfold fail_init. destruct (in_initialized i) eqn:E; [|done]. destruct Hok. split; try done. by intros [|].
  - intros id i req p (i' & Hx & Hr) Hi. rewrite Hit, Hi in Hx. injection Hx as <-. by destruct (Hno _ _ Hi).
  - intros _ id (i' & Hx & Hr). rewrite Hit in Hx. destruct (item id y) as [i|] eqn:Hi; [|done]. injection Hx as <-. by apply (Hno _ _ Hi).
  - intros _ Hs'. cbn in Hs'. congruence.
Qed.

(** The shutdown as a whole: whatever fails, the invariant holds; when it
    succeeds everything is down. *)
Lemma RteStop_spec (y : S) e y' : sys_ok y → RteStop hook y = (e, y') →
  sys_ok y' ∧ (rt_stopped (y_rt y) = false → e = None →
    rt_stopped (y_rt y') = true ∧
    ∃ l, y_log y' = y_log y ++ l ∧ l.*1 = CBusClose ::
      (CDrain <$> filter (λ id, has_runnables y id = true) (rt_order (y_rt y))) ++
      (CStop <$> filter (λ id, is_init y id = true) (rev (rt_order (y_rt y))))).
Proof.
  intros H. unfold RteStop. destruct (rt_stopped (y_rt y)) eqn:Hst; [by intros [= <- <-]|].
  change (with_rt _ y) with (stop_marked y).
  pose proof (stop_marked_ok y H Hst) as Hc. destruct (do_call hook CBusClose (stop_marked y)) as [a y1] eqn:H1.
  destruct (bus_close_ok _ _ _ Hc H1) as (Hc1 & Hrt1 & Hlog1). destruct (an_error a) as [er|].
  { intros [= <- <-]. split; [|done]. apply (fail_all_ok er y1 Hc1). }
  destruct (drain_all hook (rt_order (y_rt y1)) y1) as [[er|] y2] eqn:H2.
  { intros [= <- <-]. destruct (drain_all_spec _ _ _ _ Hc1 H2) as (Hc2 & _). split; [apply Hc2|done]. }
  destruct (drain_all_spec _ _ _ _ Hc1 H2) as (Hc2 & _ & Hok2). destruct (Hok2 eq_refl) as (Hrt2 & _ & Hdr & l2 & Hl2 & Hc2').
  assert (Hitem : ∀ id, item id y2 = stop_mark <$> item id y).
  { intros id. unfold item. rewrite Hrt2, Hrt1. apply item_marked. }
  assert (Hord : rt_order (y_rt y2) = rt_order (y_rt y)) by (by rewrite Hrt2, Hrt1).
  assert (Hn : NoDup (rev (rt_order (y_rt y2)))).
  { rewrite <- Permutation_rev. apply (so_order _ (yo_static _ (proj1 Hc2))). }
  assert (Hdr2 : ∀ id, id ∈ rev (rt_order (y_rt y2)) → is_init y2 id = true → drained y2 id).
  { intros id. rewrite <- Permutation_rev. intros Hid Hi. apply Hdr; [by rewrite <- Hrt2|].
    unfold is_init, item in *. by rewrite <- Hrt2. }
  destruct (stop_all hook (rev (rt_order (y_rt y2))) y2) as [e3 y3] eqn:H3.
  destruct (stop_all_spec _ _ _ _ Hc2 Hn Hdr2 H3) as (Hc3 & Ho3 & _ & Hok3). destruct e3 as [er|].
  { intros [= <- <-]. split; [apply Hc3|done]. }
  destruct (Hok3 eq_refl) as (Hdown & l3 & Hl3 & Hc3'). intros [= <- <-].
  assert (Hdown' : ∀ id, is_down y3 id).
  { intros id i Hi. apply (Hdown id); [|done]. rewrite <- Permutation_rev, <- Ho3. apply (item_dom _ _ (proj1 Hc3)). eauto. }
  split.
  - destruct Hc3 as (H3' & Hs3 & _). split.
    + destruct (yo_static _ H3'). by split.
    + apply (yo_inst _ H3').
    + apply (yo_gone _ H3').
    + apply (yo_deps _ H3').
    + intros id i q Hi Hr. by destruct (Hdown' id i Hi) as [_ E]; rewrite E in Hr.
    + intros n [x Hn']. cbn in Hn'. by rewrite lookup_empty in Hn'.
    + apply (yo_stopping _ H3').
    + intros _. split_and!; [done|done|]. intros id i Hi. apply (Hdown' id i Hi).
    + intros _ E. cbn in E. congruence.
  - intros _ _. split; [done|]. exists ((CBusClose, a) :: l2 ++ l3). split.
    + cbn [y_log with_rt]. rewrite Hl3, Hl2, Hlog1, <- !app_assoc. done.
    + cbn [fmap list_fmap fst]. f_equal. rewrite fmap_app, Hc2', Hc3', Hrt1. f_equal; f_equal; [|rewrite Hord]; apply list_filter_iff'; intros id _.
      * unfold has_runnables. assert (item id y1 = stop_mark <$> item id y) as -> by (unfold item; rewrite Hrt1; apply item_marked).
        destruct (item id y) as [i|]; [|done]. cbn [fmap option_fmap option_map]. by destruct (stop_mark_same i) as (_ & _ & _ & ->).
      * unfold is_init. rewrite Hitem. destruct (item id y) as [i|]; [|done]. cbn [fmap option_fmap option_map]. by destruct (stop_mark_same i) as (_ & -> & _).
Qed.
End ops.
