(* ===== verification/RteReconcile.v ===== *)
(** * Reconciliation keeps the runtime's invariant

    The affected components are closed under dependants, they are retired in
    reverse order, and the merged runtime is again a well-formed one. *)

From stdpp Require Import sorting relations.
From S2P Require Import Prelude Strings Storage Config Rte RteBuild RteInv RteOps.
Local Open Scope list_scope.

(** ** The affected components *)

Section affected.
Context (r d : Runtime).

Abbreviation step := (λ (aff : list string) '((id, i) : string * instance),
  if negb (bool_decide (id ∈ aff)) && rebinds r d aff i then id :: aff else aff).

Lemma pass_spec l : ∀ aff,
  let res := foldl step aff l in
  (∀ x, x ∈ aff → x ∈ res) ∧ (∀ x, x ∈ res → x ∈ aff ∨ x ∈ l.*1) ∧ (NoDup aff → NoDup res) ∧
  (length aff ≤ length res)%nat ∧
  (length res = length aff → res = aff ∧ ∀ id i, (id, i) ∈ l → id ∉ aff → rebinds r d aff i = false).
Proof.
  induction l as [|[id i] l IH]; intros aff res.
  { split_and!; try done; auto. intros _. split; [done|]. intros id i H. by apply elem_of_nil in H. }
  subst res. cbn [foldl fmap list_fmap fst].
  destruct (negb (bool_decide (id ∈ aff)) && rebinds r d aff i) eqn:E.
  - apply andb_true_iff in E as [E1 E2]. apply negb_true_iff, bool_decide_eq_false in E1.
    destruct (IH (id :: aff)) as (H1 & H2 & H3 & H4 & H5). cbn [length] in *. split_and!.
    + intros x Hx. apply H1. by right.
    + intros x Hx. destruct (H2 x Hx) as [[->|?]%elem_of_cons|?]; [right; left|by left|right; by right].
    + intros Hn. apply H3. by constructor.
    + lia.
    + lia.
  - destruct (IH aff) as (H1 & H2 & H3 & H4 & H5). split_and!; try done.
    + intros x Hx. destruct (H2 x Hx) as [?|?]; [by left|right; by right].
    + intros Hl. destruct (H5 Hl) as [H6 H7]. split; [done|]. intros id' i' [[= -> ->]|Hin]%elem_of_cons Hno; [|by eapply H7].
      destruct (rebinds r d aff i); [|done]. by rewrite bool_decide_false in E.
Qed.

Definition closed_under (aff : list string) : Prop :=
  ∀ id i, rt_instances r !! id = Some i → id ∉ aff → rebinds r d aff i = false.

Lemma closure_spec fuel : ∀ aff,
  NoDup aff → (∀ x, x ∈ aff → is_Some (rt_instances r !! x)) → (size (rt_instances r) < fuel + length aff)%nat →
  let res := closure r d fuel aff in
  (∀ x, x ∈ aff → x ∈ res) ∧ (∀ x, x ∈ res → is_Some (rt_instances r !! x)) ∧ closed_under res.
Proof.
  assert (Hkeys : ∀ x, x ∈ (map_to_list (rt_instances r)).*1 ↔ is_Some (rt_instances r !! x)).
  { intros x. rewrite list_elem_of_fmap. split.
    - intros ([k i] & -> & H%elem_of_map_to_list). eauto.
    - intros [i H]. exists (x, i). by rewrite elem_of_map_to_list. }
  induction fuel as [|fuel IH]; intros aff Hn Hd Hf; cbn zeta.
  { exfalso. assert (Hl : (length aff ≤ length (map_to_list (rt_instances r)).*1)%nat).
    { apply submseteq_length, NoDup_submseteq; [done|]. intros x Hx. apply Hkeys. by apply Hd. }
    rewrite length_fmap, length_map_to_list in Hl. lia. }
  cbn [closure]. destruct (pass_spec (map_to_list (rt_instances r)) aff) as (H1 & H2 & H3 & H4 & H5).
  change (foldl step aff (map_to_list (rt_instances r))) with (closure_pass r d aff) in *.
  case_bool_decide as E.
  - split; [done|]. split; [done|]. destruct H5 as [_ H5]; [by rewrite E|]. intros id i Hi. apply H5.
    by apply elem_of_map_to_list.
  - destruct (IH (closure_pass r d aff)) as (I1 & I2 & I3).
    + by apply H3.
    + intros x Hx. destruct (H2 x Hx) as [?|?]; [by apply Hd|by apply Hkeys].
    + assert (length (closure_pass r d aff) ≠ length aff) by (intros E'; by destruct (H5 E')). lia.
    + split_and!; [|done|done]. intros x Hx. by apply I1, H1.
Qed.

Lemma affected_spec :
  let aff := affected_by r d in
  (∀ x, x ∈ aff → is_Some (rt_instances r !! x)) ∧ closed_under aff ∧
  (∀ id i, rt_instances r !! id = Some i → id ∉ aff → is_Some (rt_instances d !! id) ∧ in_state i = Running).
Proof.
  assert (Hseed : ∀ x, x ∈ seeds r d ↔ ∃ i, rt_instances r !! x = Some i ∧ (rt_instances d !! x = None ∨ in_state i ≠ Running)).
  { intros x. unfold seeds. rewrite list_elem_of_fmap. split.
    - intros ([k i] & -> & [Hp H%elem_of_map_to_list]%list_elem_of_filter). eauto.
    - intros (i & Hi & Hp). exists (x, i). split; [done|]. apply list_elem_of_filter. split; [done|]. by apply elem_of_map_to_list. }
  unfold affected_by. destruct (closure_spec (S (size (rt_instances r))) (seeds r d)) as (H1 & H2 & H3).
  - unfold seeds. refine (sublist_NoDup _ _ (NoDup_fst_map_to_list (rt_instances r)) _). apply fmap_sublist, sublist_filter.
  - intros x (i & Hi & _)%Hseed. eauto.
  - lia.
  - split_and!; [done|done|]. intros id i Hi Hno.
    assert (Hns : id ∉ seeds r d) by (intros Hin; apply Hno; by apply H1). rewrite Hseed in Hns.
    destruct (rt_instances d !! id) eqn:Hd; [|destruct Hns; eauto].
    split; [eauto|]. destruct (decide (in_state i = Running)); [done|]. destruct Hns. eauto.
Qed.

(** A kept component sees the same running providers as before. *)
Lemma rebinds_keep aff i req p :
  rebinds r d aff i = false → req ∈ m_Requires (in_manifest i) →
  rt_providers d !! po_Name (rq_Port req) = Some p → is_Some (rt_providers r !! po_Name (rq_Port req)) →
  rt_providers r !! po_Name (rq_Port req) = Some p ∧ p ∉ aff.
Proof.
  intros Hr Hreq Hp [o Ho]. unfold rebinds in Hr.
  assert (Hf : ∀ req, req ∈ m_Requires (in_manifest i) →
    negb (String.eqb (default "" (rt_providers r !! po_Name (rq_Port req))) (default "" (rt_providers d !! po_Name (rq_Port req))))
     || bool_decide (default "" (rt_providers r !! po_Name (rq_Port req)) ∈ aff) = false).
  { intros x Hx. apply not_true_iff_false. intros E. apply not_true_iff_false in Hr. apply Hr.
    apply existsb_exists. exists x. by rewrite <- list_elem_of_In. }
  specialize (Hf req Hreq). rewrite Ho, Hp in Hf. cbn in Hf. apply orb_false_iff in Hf as [H1 H2].
  apply negb_false_iff, String.eqb_eq in H1 as ->. apply bool_decide_eq_false in H2. done.
Qed.
End affected.

(** ** Retiring *)

Section retire.
Context (up : string → option (string * string)) {W : Type} (hook : call → W → answer * W).
Abbreviation S := (sys (W := W)).

(** A reconciliation under way: what is affected does not run. *)
Record retiring (aff : list string) (y : S) : Prop := {
  re_ok : sys_ok y;
  re_stopping : rt_stopping (y_rt y) = false;
  re_stopped : rt_stopped (y_rt y) = false;
  re_quiet : ∀ id i, id ∈ aff → item id y = Some i → in_state i ≠ Running;
}.

(** What a retirement never changes. *)
Record frame (y y' : S) : Prop := {
  fr_registry : rt_registry (y_rt y') = rt_registry (y_rt y);
  fr_order : rt_order (y_rt y') = rt_order (y_rt y);
  fr_providers : rt_providers (y_rt y') = rt_providers (y_rt y);
  fr_account : rt_account (y_rt y') = rt_account (y_rt y);
}.
#[local] Instance frame_trans : Transitive frame.
Proof. intros y1 y2 y3 [] []. split; congruence. Qed.
#[local] Instance frame_refl : Reflexive frame.
Proof. done. Qed.

Lemma touch_frame id m (y y' : S) : touch id m y y' → frame y y'.
Proof. intros []. by split. Qed.
Lemma same_rt_frame (y y' : S) : y_rt y' = y_rt y → frame y y'.
Proof. intros E. split; by rewrite E. Qed.

Lemma retiring_call c aff (y : S) a y' :
  retiring aff y → do_call hook c y = (a, y') → (∃ id, c = CWaitScope id ∨ c = CDrain id) →
  retiring aff y' ∧ y_rt y' = y_rt y ∧ (∀ x, item x y' = item x y) ∧
  (∀ x, drained y x → drained y' x) ∧
  (∀ id, c = CDrain id → failed a = false → is_init y id = true → drained y' id).
Proof.
  intros H Hc (id & Hid). destruct (call_same _ _ _ _ _ Hc) as (Hrt & Hit & Hlog).
  assert (Hp : ∀ x s, protocol (y_log y) x = Some s → ∃ d, pstep x (Some s) (c, a) = Some (fst s, d) ∧ (snd s = true → d = true)).
  { intros x [p d] _. destruct Hid as [->| ->]; cbn; [eauto|]. destruct (String.eqb id x); [|eauto].
    eexists. split; [done|]. by intros ->. }
  split_and!; try done.
  - split; try by rewrite Hrt; apply H.
    + eapply call_ok; [apply H|apply H|done|done].
    + intros x i Hx. rewrite Hit. by apply (re_quiet _ _ H).
  - intros x [p Hx]. destruct (Hp x _ Hx) as (d & Hd & Ht). exists p.
    rewrite Hlog, protocol_snoc, Hx, Hd. cbn. by rewrite Ht.
  - intros x -> Hf Hi. unfold is_init in Hi. destruct (item x y) as [i|] eqn:Hx; [|done].
    destruct (io_init _ _ _ _ (yo_inst _ (re_ok _ _ H) _ _ Hx) Hi) as (_ & p & d & Hd & _). exists p.
    rewrite Hlog, protocol_snoc, Hd. cbn. by rewrite String.eqb_refl, Hf, orb_true_r.
Qed.

(** One component changes while it does not run. *)
Lemma retiring_touch aff id i i' (y y' : S) :
  retiring aff y → item id y = Some i → in_state i ≠ Running → touch id (in_manifest i) y y' →
  item id y' = Some i' → in_registration i' = in_registration i →
  inst_ok (rt_registry (y_rt y)) (y_log y') id i' → in_state i' ≠ Running →
  (in_initialized i' = true ∨ ∀ q, q ∈ m_Provides (in_manifest i) → rt_ports (y_rt y') !! po_Name q = None) →
  (rt_started (y_rt y) = false → fresh i') → retiring aff y'.
Proof.
  intros H Hi Hnr T Hi' Hreg Hok Hr Hown Hfr. split.
  - apply (touch_ok id i i' y y' (re_ok _ _ H) Hi Hnr T); try done; [apply H|]. intros Hs _. by apply Hfr.
  - rewrite (to_stopping _ _ _ _ T). apply H.
  - rewrite (to_stopped _ _ _ _ T). apply H.
  - intros x ix Hx Hix. destruct (decide (x = id)) as [->|Hne]; [congruence|].
    rewrite (to_item _ _ _ _ T) in Hix by done. by apply (re_quiet _ _ H x).
Qed.

Lemma retire_stop aff id i (y : S) a y' :
  retiring aff y → item id y = Some i → id ∈ aff → in_initialized i = true → drained y id →
  do_call hook (CStop id) y = (a, y') →
  protocol (y_log y') id = Some (if failed a then PBroken else PIdle, true) ∧ touch id (in_manifest i) y y' ∧
  (failed a = true → retiring aff y').
Proof.
  intros H Hi Hin Hini [p Hp] Hcall.
  pose proof (yo_inst _ (re_ok _ _ H) _ _ Hi) as Hok.
  assert (E : protocol (y_log y') id = Some (if failed a then PBroken else PIdle, true)).
  { rewrite (call_protocol hook id _ _ _ _ _ Hcall Hp).
    destruct (io_init _ _ _ _ Hok Hini) as (_ & p' & d & Hd & Hs).
    assert (p' = p) as -> by congruence. cbn. rewrite String.eqb_refl. by destruct Hs as [->|[->| ->]]. }
  pose proof (touch_call _ _ _ (in_manifest i) _ _ Hcall ltac:(done)) as T. cbn [subject] in T.
  split_and!; [done|done|]. intros Hf. rewrite Hf in E. destruct (call_same _ _ _ _ _ Hcall) as (_ & Hit & _).
  apply (retiring_touch aff id i i y y' H Hi); try done; [by eapply re_quiet|by rewrite Hit| |by eapply re_quiet|by left|].
  - split; try apply Hok; [congruence| |].
    + intros _. split; [by apply (io_init _ _ _ _ Hok)|]. exists PBroken, true. split; [done|]. by right; right.
    + intros Hr. by destruct (re_quiet _ _ H _ _ Hin Hi).
  - intros Hs. apply (yo_unstarted _ (re_ok _ _ H) Hs (re_stopping _ _ H) _ _ Hi).
Qed.

(** The final step of retiring one component. *)
Lemma retire_finish aff id i j (y y' : S) :
  retiring aff y → item id y = Some i → in_state i ≠ Running → touch id (in_manifest i) y y' →
  item id y' = Some j → in_registration j = in_registration i → in_initialized j = false →
  (∃ d, protocol (y_log y') id = Some (PIdle, d)) →
  let y2 := upd id (setStatus (mkStatus id Stopped "")) (release_ports (in_manifest i) y') in
  retiring aff y2 ∧ frame y y2 ∧ (∀ x, x ≠ id → item x y2 = item x y) ∧ is_down y2 id ∧
  (∀ x, x ≠ id → protocol (y_log y2) x = protocol (y_log y) x).
Proof.
  intros H Hi Hnr T Hj Hreg Hini Hp y2.
  assert (T2 : touch id (in_manifest i) y y2).
  { eapply touch_trans; [exact T|]. eapply touch_trans; [apply touch_release|apply touch_upd]. }
  assert (Hj2 : item id y2 = Some (setStatus (mkStatus id Stopped "") j)).
  { unfold y2. rewrite item_upd_eq. change (item id (release_ports (in_manifest i) y')) with (item id y'). by rewrite Hj. }
  split_and!.
  - apply (retiring_touch aff id i _ y y2 H Hi Hnr T2 Hj2 Hreg); [|done|right|done].
    + change (y_log y2) with (y_log y'). split; try done; [|cbn; congruence]. cbn. rewrite Hreg.
      eapply io_reg, (yo_inst _ (re_ok _ _ H)). done.
    + intros q Hq. unfold y2. cbn. rewrite drop_ports_lookup, decide_True; [done|]. by apply list_elem_of_fmap_2.
  - by eapply touch_frame.
  - apply T2.
  - intros k. rewrite Hj2. by intros [= <-].
  - apply T2.
Qed.

Lemma retire_spec aff ids : ∀ (y : S) e y', NoDup ids → retiring aff y → retire hook aff ids y = (e, y') →
  retiring aff y' ∧ frame y y' ∧ (∀ x, x ∉ aff → item x y' = item x y) ∧ (∀ x, x ∉ ids → item x y' = item x y) ∧
  (e = None → ∀ id, id ∈ ids → id ∈ aff → is_down y' id).
Proof.
  induction ids as [|id ids IH]; intros y e y' Hn H; cbn [retire].
  { intros [= <- <-]. split_and!; try done. intros _ x Hx. by apply elem_of_nil in Hx. }
  apply NoDup_cons in Hn as [Hid Hn]. case_bool_decide as Hin; cbn [negb].
  2:{ intros Hrun. destruct (IH y e y' Hn H Hrun) as (H1 & H2 & H3 & H4 & H5). split_and!; [done..| |].
      - intros x Hx. apply H4. set_solver.
      - intros He x [->|Hx]%elem_of_cons; [done|by apply H5]. }
  destruct (item id y) as [i|] eqn:Hi.
  2:{ intros Hrun. destruct (IH y e y' Hn H Hrun) as (H1 & H2 & H3 & H4 & H5). split_and!; [done..| |].
      - intros x Hx. apply H4. set_solver.
      - intros He x [->|Hx]%elem_of_cons Hxa; [|by apply H5]. intros j. by rewrite H4, Hi. }
  pose proof (re_quiet _ _ H _ _ Hin Hi) as Hnr.
  destruct (do_call hook (CWaitScope id) y) as [a1 y1] eqn:C1.
  destruct (retiring_call _ _ _ _ _ H C1 ltac:(eauto)) as (R1 & E1 & I1 & D1 & _).
  destruct (an_error a1) as [er|].
  { intros [= <- <-]. split_and!; [done|by apply same_rt_frame|intros x _; apply I1|intros x _; apply I1|done]. }
  set (drain := if in_runnables i then _ else _).
  destruct drain as [e2 y2] eqn:C2. subst drain.
  assert (R2 : retiring aff y2 ∧ y_rt y2 = y_rt y ∧ (∀ x, item x y2 = item x y) ∧
    (e2 = None → in_initialized i = true → drained y2 id)).
  { destruct (in_runnables i) eqn:Hrun.
    - destruct (do_call hook (CDrain id) y1) as [a2 y3] eqn:C3. injection C2 as <- <-.
      destruct (retiring_call _ _ _ _ _ R1 C3 ltac:(eauto)) as (R3 & E3 & I3 & _ & D3).
      split_and!; [done|by rewrite E3|by intros x; rewrite I3|]. intros He Hini. apply (D3 id eq_refl).
      + unfold failed. by rewrite He.
      + unfold is_init. by rewrite I1, Hi.
    - injection C2 as <- <-. split_and!; try done. intros _ Hini.
      destruct (io_init _ _ _ _ (yo_inst _ (re_ok _ _ H) _ _ Hi) Hini). congruence. }
  clear R1 E1 I1 D1 C1 C2. destruct R2 as (R2 & E2 & I2 & D2).
  destruct e2 as [er|].
  { intros [= <- <-]. split_and!; [done|by apply same_rt_frame|intros x _; apply I2|intros x _; apply I2|done]. }
  assert (Hi2 : item id y2 = Some i) by (by rewrite I2).
  (* the component released, the rest follows by induction *)
  assert (Hrest : ∀ y3 j, touch id (in_manifest i) y2 y3 → item id y3 = Some j → in_registration j = in_registration i →
    in_initialized j = false → (∃ d, protocol (y_log y3) id = Some (PIdle, d)) →
    retire hook aff ids (upd id (setStatus (mkStatus id Stopped "")) (release_ports (in_manifest i) y3)) = (e, y') →
    retiring aff y' ∧ frame y y' ∧ (∀ x, x ∉ aff → item x y' = item x y) ∧ (∀ x, x ∉ id :: ids → item x y' = item x y) ∧
    (e = None → ∀ x, x ∈ id :: ids → x ∈ aff → is_down y' x)).
  { intros y3 j T Hj Hreg Hini Hp Hrun.
    destruct (retire_finish aff id i j y2 y3 R2 Hi2 Hnr T Hj Hreg Hini Hp) as (R3 & F3 & I3 & Hdn & _).
    destruct (IH _ e y' Hn R3 Hrun) as (H1 & H2 & H3 & H4 & H5). split_and!; [done| | | |].
    - transitivity y2; [by apply same_rt_frame|]. by etransitivity.
    - intros x Hx. rewrite H3, I3, I2; [done|by intros ->|done].
    - intros x Hx. rewrite H4, I3, I2; [done|set_solver|set_solver].
    - intros He x [->|Hx]%elem_of_cons Hxa; [|by apply H5]. intros k. rewrite H4 by done. apply Hdn. }
  destruct (in_initialized i) eqn:Hini.
  - destruct (do_call hook (CStop id) y2) as [a3 y3] eqn:C3.
    destruct (retire_stop aff id i y2 a3 y3 R2 Hi2 Hin Hini (D2 eq_refl eq_refl) C3) as (P3 & T3 & R3).
    unfold failed in P3, R3. destruct (call_same _ _ _ _ _ C3) as (E3 & I3 & _).
    destruct (an_error a3) as [er|].
    + intros [= <- <-]. split_and!; [by apply R3|apply same_rt_frame; by rewrite E3| | |done]; intros x Hx; by rewrite I3.
    + intros Hrun. apply (Hrest (upd id (set_initialized false) y3) (set_initialized false i)); try done.
      * eapply touch_trans; [exact T3|apply touch_upd].
      * by rewrite item_upd_eq, I3, Hi2.
      * by exists true.
  - intros Hrun. apply (Hrest y2 i); try done.
    exact (io_idle _ _ _ _ (yo_inst _ (re_ok _ _ R2) _ _ Hi2) Hini).
Qed.
End retire.

(** ** Adopting the desired components *)

Section adopt.
Context (up : string → option (string * string)) {W : Type} (hook : call → W → answer * W).
Abbreviation S := (sys (W := W)).

(** [d] is a fresh build over the runtime's own registry. *)
Record desired_ok (enabled : option (gmap string bool)) (values : gmap string (gmap string cval)) (reg : registry)
    (d : Runtime) : Prop := {
  de_build : build_ok up reg enabled values d;
  de_registry : rt_registry d = reg;
}.

Lemma built_item enabled values reg d log id i :
  desired_ok enabled values reg d → rt_instances d !! id = Some i → (∃ b, protocol log id = Some (PIdle, b)) →
  inst_ok reg log id i ∧ fresh i ∧ in_state i = Stopped.
Proof.
  intros [[_ _ Hi _ _] _] Hd Hp. destruct (Hi id i Hd) as (e & view & He & _ & ->). split; [by split|done].
Qed.

Lemma desired_static enabled values reg d m r :
  desired_ok enabled values reg d → (∀ id, is_Some (m !! id) ↔ is_Some (rt_instances d !! id)) →
  static_ok (mkRuntime (rt_registry d) (rt_order d) m (rt_order d) (rt_providers d) (rt_ports r) (rt_account r)
    (rt_started r) (rt_stopped r) (rt_stopping r)).
Proof.
  intros [[[Hn _] Hdom _ Hprov Hreq] ->] Hm. split; cbn.
  - exact Hn.
  - intros id. rewrite Hm. apply Hdom.
  - intros id e q Hid He Hq. apply Hprov. split; [done|]. by exists e, q.
  - intros id e req Hid He Hr. specialize (Hreq id e req Hid He Hr).
    destruct (rt_providers d !! _); [by destruct Hreq|done].
  - done.
Qed.

Context (enabled : option (gmap string bool)) (values : gmap string (gmap string cval)).
Context (y0 y : S) (d : Runtime).
Abbreviation aff := (affected_by (y_rt y0) d).
Context (H0 : sys_ok y0) (Hd : desired_ok enabled values (rt_registry (y_rt y)) d) (Hr : retiring aff y).
Context (Hframe : frame y0 y) (Hkeep : ∀ x, x ∉ aff → item x y = item x y0)
  (Hdown : ∀ x, x ∈ aff → is_down y x).

Lemma kept id i : item id y = Some i → id ∉ aff →
  item id y0 = Some i ∧ is_Some (rt_instances d !! id) ∧ in_state i = Running ∧ rebinds (y_rt y0) d aff i = false.
Proof.
  intros Hi Hno. rewrite Hkeep in Hi by done. destruct (affected_spec (y_rt y0) d) as (_ & Hcl & Hrun).
  destruct (Hrun id i Hi Hno) as [? ?]. split_and!; try done. by apply (Hcl id i).
Qed.

Lemma adopt_item id : item id (with_rt (λ r, adopt aff r d) y) =
  i ← rt_instances d !! id;
  match item id y with
  | Some c => if bool_decide (id ∈ aff) then Some i else Some c
  | None => Some i
  end.
Proof. unfold item. cbn. apply map_lookup_imap. Qed.

(** Every component of the merged runtime is kept or fresh. *)
Lemma adopt_cases id i : item id (with_rt (λ r, adopt aff r d) y) = Some i →
  (item id y = Some i ∧ id ∉ aff) ∨
  (rt_instances d !! id = Some i ∧ ∃ b, protocol (y_log y) id = Some (PIdle, b)).
Proof.
  rewrite adopt_item. intros (j & Hj & H)%bind_Some. destruct (item id y) as [c|] eqn:Hc.
  - case_bool_decide as Ha; injection H as ->; [|by left]. right. split; [done|].
    destruct (Hdown id Ha c Hc) as [Hini _]. eapply io_idle; [|exact Hini]. by apply (yo_inst _ (re_ok _ _ Hr)).
  - injection H as ->. right. split; [done|]. by apply (yo_gone _ (re_ok _ _ Hr)).
Qed.

Lemma adopt_kept id i : item id y = Some i → id ∉ aff → item id (with_rt (λ r, adopt aff r d) y) = Some i.
Proof.
  intros Hi Hno. destruct (kept id i Hi Hno) as (_ & [j Hj] & _). rewrite adopt_item, Hj. cbn.
  rewrite Hi. by rewrite bool_decide_false.
Qed.

Lemma adopt_ok : sys_ok (with_rt (λ r, adopt aff r d) y) ∧ ∀ id, restartable (with_rt (λ r, adopt aff r d) y) id.
Proof.
  pose proof (re_ok _ _ Hr) as H. split; [|intros id i [[Hi Hno]|[Hi Hb]]%adopt_cases].
  2:{ left. by destruct (kept id i Hi Hno) as (_ & _ & ? & _). }
  2:{ right. by destruct (built_item _ _ _ _ (y_log y) id i Hd Hi Hb) as (_ & ? & _). }
  split.
  - apply (desired_static enabled values (rt_registry (y_rt y))); [done|]. intros id.
    change (is_Some (item id (with_rt (λ r, adopt aff r d) y)) ↔ is_Some (rt_instances d !! id)). rewrite adopt_item.
    destruct (rt_instances d !! id); [|done]. cbn. destruct (item id y); [case_bool_decide|]; split; eauto.
  - intros id i Hc. change (rt_registry (y_rt (with_rt (λ r, adopt aff r d) y))) with (rt_registry d).
    rewrite (de_registry _ _ _ _ Hd). destruct (adopt_cases id i Hc) as [[Hi Hno]|[Hi Hb]].
    + by apply (yo_inst _ H).
    + by apply (built_item _ _ _ _ (y_log y) id i Hd Hi Hb).
  - intros id Hno. destruct (item id y) as [i|] eqn:Hi; [|by apply (yo_gone _ H)].
    destruct (decide (id ∈ aff)) as [Ha|Ha].
    + destruct (Hdown id Ha i Hi) as [Hini _]. eapply io_idle; [|exact Hini]. by apply (yo_inst _ H).
    + by rewrite (adopt_kept id i Hi Ha) in Hno.
  - intros id i req p Hc Hrun Hreq Hopt Hp.
    destruct (adopt_cases id i Hc) as [[Hi Hno]|[Hi Hb]].
    2:{ destruct (built_item _ _ _ _ (y_log y) id i Hd Hi Hb) as (_ & _ & E). congruence. }
    destruct (kept id i Hi Hno) as (Hi0 & _ & _ & Hreb).
    change (rt_providers d !! po_Name (rq_Port req) = Some p) in Hp.
    assert (Hold : is_Some (rt_providers (y_rt y0) !! po_Name (rq_Port req))).
    { destruct (rt_providers (y_rt y0) !! po_Name (rq_Port req)) eqn:E; [eauto|]. exfalso.
      destruct (item_reg _ _ _ H0 Hi0) as [Ho He].
      pose proof (so_required _ (yo_static _ H0) _ _ _ Ho He Hreq) as Hq. rewrite E in Hq. congruence. }
    destruct (rebinds_keep _ _ _ _ _ _ Hreb Hreq Hp Hold) as [Hp0 Hpa].
    destruct (yo_deps _ H0 id i req p Hi0 Hrun Hreq Hopt Hp0) as (ip & Hip & Hrp).
    exists ip. split; [|done]. apply adopt_kept; [by rewrite Hkeep|done].
  - intros id i q Hc Hrun Hq. destruct (adopt_cases id i Hc) as [[Hi Hno]|[Hi Hb]].
    + by apply (yo_ports _ H id).
    + destruct (built_item _ _ _ _ (y_log y) id i Hd Hi Hb) as (_ & _ & E). congruence.
  - intros n Hn. destruct (yo_owned _ H n Hn) as (id & i & q & Hi & Hini & Hq). exists id, i, q.
    split; [|done]. apply adopt_kept; [done|]. intros Ha. destruct (Hdown id Ha i Hi). congruence.
  - intros Hs. exfalso. pose proof (re_stopping _ _ Hr). cbn in Hs. congruence.
  - intros Hs. exfalso. pose proof (re_stopped _ _ Hr). cbn in Hs. congruence.
  - intros Hs Hs' id i Hc. destruct (adopt_cases id i Hc) as [[Hi Hno]|[Hi Hb]].
    + by apply (yo_unstarted _ H Hs Hs' id).
    + by apply (built_item _ _ _ _ (y_log y) id i Hd Hi Hb).
Qed.
End adopt.

(** ** The operations *)

Section steps.
Context (up : string → option (string * string)) {W : Type} (hook : call → W → answer * W).
Abbreviation S := (sys (W := W)).

Definition mark_affected (aff : list string) (id : string) (i : instance) : instance :=
  if bool_decide (id ∈ aff) then setStatus (mkStatus id Stopping "") (cancel_ctx i) else i.
Definition marked (aff : list string) (y : S) : S :=
  with_rt (set_instances (map_imap (λ id i, Some (mark_affected aff id i)) (rt_instances (y_rt y)))) y.

Lemma item_map (aff : list string) (y : S) id : item id (marked aff y) = mark_affected aff id <$> item id y.
Proof. unfold item, marked. cbn. rewrite map_lookup_imap. by destruct (rt_instances (y_rt y) !! id). Qed.

Lemma marked_ok d (y : S) :
  sys_ok y → rt_stopping (y_rt y) = false → rt_stopped (y_rt y) = false →
  retiring (affected_by (y_rt y) d) (marked (affected_by (y_rt y) d) y).
Proof.
  intros H Hs1 Hs2. set (aff := affected_by (y_rt y) d).
  destruct (affected_spec (y_rt y) d) as (Hdom & Hcl & Hrun). fold aff in Hdom, Hcl, Hrun.
  assert (Hq : ∀ id i, id ∈ aff → in_state (mark_affected aff id i) = Stopping).
  { intros id i Hin. unfold mark_affected. by rewrite bool_decide_true. }
  assert (Hs : ∀ id i, id ∉ aff → mark_affected aff id i = i).
  { intros id i Hno. unfold mark_affected. by rewrite bool_decide_false. }
  split; [|done|done|].
  2:{ intros id i Hin. rewrite item_map. destruct (item id y) as [j|]; [|done]. intros [= <-]. by rewrite Hq. }
  apply (remap_ok (mark_affected aff) y); try done.
  - intros id. apply item_map.
  - intros id i Hi. destruct (decide (id ∈ aff)) as [Hin|Hno]; [|rewrite Hs by done; split_and!; try done; by apply (yo_inst _ H)].
    pose proof (yo_inst _ H _ _ Hi) as Hok. pose proof (Hq id i Hin) as E. unfold mark_affected in *.
    rewrite bool_decide_true in * by done. split_and!; try done.
    split; try done; cbn; [apply Hok|apply Hok|apply Hok|by intros [|]].
  - intros id i req p (i' & Hx & Hr) Hi Hreq Ho Hp (ip & Hip & Hrp). rewrite item_map, Hi in Hx. injection Hx as <-.
    destruct (decide (id ∈ aff)) as [Hin|Hno]; [rewrite Hq in Hr by done; done|].
    assert (Hpa : p ∉ aff).
    { pose proof (Hcl id i Hi Hno) as Hreb. unfold rebinds in Hreb. intros Hpa.
      apply not_true_iff_false in Hreb. apply Hreb. apply existsb_exists. exists req.
      rewrite <- list_elem_of_In. split; [done|]. rewrite Hp. cbn. rewrite bool_decide_true by done. apply orb_true_r. }
    exists ip. rewrite item_map, Hip. cbn. by rewrite Hs.
  - intros Hst. cbn in Hst. congruence.
  - intros Hst Hst' id i. rewrite item_map. destruct (item id y) as [j|] eqn:Hj; [|done]. intros [= <-].
    destruct (yo_unstarted _ H Hst Hst' id j Hj) as [E1 E2]. unfold mark_affected. case_bool_decide; by split.
Qed.

Lemma Build_desired reg account enabled values d :
  Build up reg account enabled values = Ok d → desired_ok up enabled values reg d.
Proof.
  intros H. split; [by eapply Build_ok|]. destruct (Build_inv _ _ _ _ _ _ H) as (g & deps & order & _ & _ & _ & ->). done.
Qed.

Lemma Reconcile_ok enabled values d canceled (y : S) :
  sys_ok y → desired_ok up enabled values (rt_registry (y_rt y)) d →
  sys_ok (ReconcileComponents hook (Some d) canceled y).2.
Proof.
  intros H Hd. unfold ReconcileComponents. destruct canceled; [done|].
  destruct (rt_stopping (y_rt y)) eqn:Hs1; [done|]. destruct (rt_stopped (y_rt y)) eqn:Hs2; [done|].
  destruct (rt_started d); [done|]. destruct (String.eqb (rt_account d) _); [|done]. cbn [orb negb].
  change (with_rt (set_instances ?m) y) with (marked (affected_by (y_rt y) d) y).
  pose proof (marked_ok d y H Hs1 Hs2) as Hm.
  assert (Hn : NoDup (rev (rt_order (y_rt y)))).
  { rewrite <- Permutation_rev. apply (so_order _ (yo_static _ H)). }
  destruct (retire hook _ _ _) as [e y2] eqn:Hret.
  destruct (retire_spec up hook _ _ _ _ _ Hn Hm Hret) as (R & F & K1 & _ & Kd). destruct e as [er|]; [apply R|].
  assert (F0 : frame y y2) by (destruct F; by split).
  assert (Hkeep : ∀ x, x ∉ affected_by (y_rt y) d → item x y2 = item x y).
  { intros x Hx. rewrite K1, item_map by done. unfold mark_affected. rewrite bool_decide_false by done. by destruct (item x y). }
  assert (Hdown : ∀ x, x ∈ affected_by (y_rt y) d → is_down y2 x).
  { intros x Hx. apply Kd; [done| |done]. rewrite <- Permutation_rev. apply (item_dom _ _ H).
    by apply (affected_spec (y_rt y) d). }
  rewrite <- (fr_registry _ _ F0) in Hd.
  destruct (adopt_ok up enabled values y y2 d H Hd R Hkeep Hdown) as [Ha Hr].
  pose proof (startLocked_ok hook _ Ha (re_stopping _ _ R) (re_stopped _ _ R) Hr) as Hfin.
  destruct (startLocked hook _) as [sts y3]. exact Hfin.
Qed.

Lemma rt_step_ok o (y : S) : sys_ok y → sys_ok (rt_step up hook o y).
Proof.
  intros H. destruct o as [|id values canceled|enabled values canceled|]; cbn [rt_step].
  - by apply RteStart_ok.
  - by apply RteReconfigure_ok.
  - destruct (Build _ _ _ _ _) as [d|] eqn:Hb; [|done]. eapply Reconcile_ok; [done|]. by eapply Build_desired.
  - destruct (RteStop hook y) as [e y'] eqn:E. by apply (RteStop_spec up hook y e y').
Qed.

(** A fresh build satisfies the invariant. *)
Lemma Build_sys_ok reg account enabled values run (w : W) :
  Build up reg account enabled values = Ok run → sys_ok (mkSys run w []).
Proof.
  intros H. destruct (Build_inv _ _ _ _ _ _ H) as (g & deps & order & _ & _ & _ & E).
  pose proof (Build_desired _ _ _ _ _ H) as Hd.
  assert (Hit : ∀ id i, item id (mkSys run w []) = Some i → inst_ok reg [] id i ∧ fresh i ∧ in_state i = Stopped).
  { intros id i Hi. apply (built_item up _ _ _ _ [] id i Hd Hi). by exists false. }
  split.
  - pose proof (desired_static up _ _ _ _ (rt_instances run) run Hd ltac:(done)) as Hs. rewrite E in Hs |- *. destruct Hs. by split.
  - intros id i Hi. change (inst_ok (rt_registry run) [] id i). rewrite (de_registry _ _ _ _ _ Hd). by apply Hit.
  - intros id _. by exists false.
  - intros id i req p Hi Hr. destruct (Hit id i Hi) as (_ & _ & ?). congruence.
  - intros id i q Hi Hr. destruct (Hit id i Hi) as (_ & _ & ?). congruence.
  - intros n [x Hn]. rewrite E in Hn. cbn in Hn. by rewrite lookup_empty in Hn.
  - intros Hs. rewrite E in Hs. done.
  - intros Hs. rewrite E in Hs. done.
  - intros _ _ id i Hi. apply (Hit id i Hi).
Qed.

Lemma rt_run_ok reg account enabled values run (w : W) l :
  Build up reg account enabled values = Ok run → sys_ok (rt_run up hook l (mkSys run w [])).
Proof.
  intros H. pose proof (Build_sys_ok _ _ _ _ _ w H) as Hok. revert Hok. generalize (mkSys run w []).
  unfold rt_run. induction l as [|o l IH]; intros y Hy; cbn [foldl]; [done|]. apply IH. by apply rt_step_ok.
Qed.
End steps.
