(* ===== verification/RteProps.v ===== *)
(** * Properties of the component runtime

    What [Build], the lifecycle operations and the configuration views
    guarantee, for arbitrary components: the hook answers every call as it
    likes, panics and errors included. *)

From stdpp Require Import sorting relations.
From S2P Require Import Prelude Strings Storage Config Rte RteBuild RteInv RteOps RteReconcile.
Local Open Scope list_scope.

Section props.
Context (up : string → option (string * string)) {W : Type} (hook : call → W → answer * W).

(** C30: A runtime that [Build] returns starts every enabled registered
    component exactly once, every provided port has the one component that
    declares it, and every requirement is served by an earlier component
    whose port has the same type and major version and at least the minor
    version asked for; only optional requirements may stay unserved. *)
Theorem build_order reg account enabled values run :
  Build up reg account enabled values = Ok run →
  (NoDup (rt_order run) ∧ ∀ id, id ∈ rt_order run ↔ is_Some (reg !! id) ∧ is_enabled enabled id = true) ∧
  (∀ n p, rt_providers run !! n = Some p ↔
    p ∈ rt_order run ∧ ∃ e q, reg !! p = Some e ∧ q ∈ m_Provides (rg_Manifest e) ∧ po_Name q = n) ∧
  (∀ id e req, id ∈ rt_order run → reg !! id = Some e → req ∈ m_Requires (rg_Manifest e) →
    match rt_providers run !! po_Name (rq_Port req) with
    | None => rq_Optional req = true
    | Some p => before (rt_order run) p id ∧
        ∃ pe q, reg !! p = Some pe ∧ q ∈ m_Provides (rg_Manifest pe) ∧ compatible q (rq_Port req)
    end).
Proof. intros H%Build_ok. split_and!; apply H. Qed.

(** C31: Once manifests and configuration pass their checks, [Build] fails
    exactly when some component transitively depends on itself, and then with
    the cycle error: the depth-first search neither misses a cycle nor
    reports one that is not there. *)
Theorem build_cycle_iff reg account enabled values deps :
  deps_of up reg enabled values = Ok deps → account ≠ "" →
  match enabled with None => true | Some e => known reg e end = true → known reg values = true →
  match Build up reg account enabled values with
  | Ok _ => ∀ x, ¬ tc (edge deps) x x
  | Err e => e = cycle_error ∧ ∃ x, tc (edge deps) x x
  end.
Proof. apply Build_acyclic. Qed.

(** C15: Whatever the components do and however starts, reconfigurations,
    reconciliations and stops follow each other, a running component has all
    its required providers running and every port it declares bound and
    published; once stopping, nothing runs any more. *)
Theorem runtime_dependencies reg account enabled values run (w : W) l :
  Build up reg account enabled values = Ok run →
  let y := rt_run up hook l (mkSys run w []) in
  (∀ id i, item id y = Some i → in_state i = Running →
    (∀ req, req ∈ m_Requires (in_manifest i) → rq_Optional req = false →
       ∃ p, rt_providers (y_rt y) !! po_Name (rq_Port req) = Some p ∧ running y p ∧ before (rt_order (y_rt y)) p id) ∧
    (∀ q, q ∈ m_Provides (in_manifest i) →
       rt_providers (y_rt y) !! po_Name q = Some id ∧
       ∃ v, in_bindings i !! po_Name q = Some v ∧ rt_ports (y_rt y) !! po_Name q = Some v)) ∧
  (rt_stopping (y_rt y) = true → ∀ id, ¬ running y id).
Proof.
  intros H y. pose proof (rt_run_ok up hook _ _ _ _ _ w l H) as Hok. fold y in Hok.
  split; [|apply (yo_stopping _ Hok)]. intros id i Hi Hr.
  destruct (item_reg _ _ _ Hok Hi) as [Hid He]. pose proof (yo_static _ Hok) as Hs. split.
  - intros req Hreq Hopt. pose proof (so_required _ Hs id _ req Hid He Hreq) as Hp.
    destruct (rt_providers (y_rt y) !! _) as [p|] eqn:E; [|congruence].
    exists p. split_and!; [done| |done]. by apply (yo_deps _ Hok id i req p).
  - intros q Hq. split; [by apply (so_provider _ Hs id _ q Hid He)|].
    destruct (yo_ports _ Hok id i q Hi Hr Hq) as [E [v Hv]]. exists v. by rewrite E.
Qed.

(** C16: Every component is driven through its lifecycle in order, across
    failures and restarts: New, then Init, then Start, reconfigured only while
    up, stopped only after its runnables were drained, and never made again
    before its last instance was stopped.  A running component is up, and one
    not marked initialized has nothing left to stop. *)
Theorem lifecycle_protocol reg account enabled values run (w : W) l :
  Build up reg account enabled values = Ok run →
  let y := rt_run up hook l (mkSys run w []) in
  ∀ id, is_Some (protocol (y_log y) id) ∧
    match item id y with
    | None => ∃ d, protocol (y_log y) id = Some (PIdle, d)
    | Some i =>
        (in_state i = Running → ∃ d, protocol (y_log y) id = Some (PUp, d)) ∧
        (in_initialized i = false ↔ ∃ d, protocol (y_log y) id = Some (PIdle, d))
    end.
Proof.
  intros H y id. pose proof (rt_run_ok up hook _ _ _ _ _ w l H) as Hok. fold y in Hok.
  destruct (item id y) as [i|] eqn:Hi.
  2:{ pose proof (yo_gone _ Hok id Hi) as [d E]. split; eauto. }
  pose proof (yo_inst _ Hok id i Hi) as Hin.
  assert (Hup : in_state i = Running → ∃ d, protocol (y_log y) id = Some (PUp, d)).
  { intros Hr. apply (io_running _ _ _ _ Hin Hr). }
  destruct (in_initialized i) eqn:Hini.
  - destruct (io_init _ _ _ _ Hin Hini) as (_ & p & d & E & Hp). split_and!; [eauto|done|].
    split; [done|]. intros [d' E']. rewrite E in E'. injection E' as -> _. by destruct Hp as [|[|]].
  - destruct (io_idle _ _ _ _ Hin Hini) as [d E]. split_and!; [eauto|done|]. by split; [exists d|].
Qed.

(** A successful [Stop] closes the event bus first, then drains the
    runnables of every component in start order, and only then stops the
    initialized components in the reverse order; afterwards no component is
    initialized or running and no port is published. *)
Theorem stop_order reg account enabled values run (w : W) l y' :
  Build up reg account enabled values = Ok run →
  let y := rt_run up hook l (mkSys run w []) in
  rt_stopped (y_rt y) = false → RteStop hook y = (None, y') →
  (∃ log, y_log y' = y_log y ++ log ∧ log.*1 = CBusClose ::
     (CDrain <$> filter (λ id, has_runnables y id = true) (rt_order (y_rt y))) ++
     (CStop <$> filter (λ id, is_init y id = true) (rev (rt_order (y_rt y))))) ∧
  rt_ports (y_rt y') = ∅ ∧ (∀ id i, item id y' = Some i → in_initialized i = false ∧ in_state i = Stopped).
Proof.
  intros H y Hst Hrun. pose proof (rt_run_ok up hook _ _ _ _ _ w l H) as Hok. fold y in Hok.
  destruct (RteStop_spec up hook y None y' Hok Hrun) as [Hok' Hs]. destruct (Hs Hst eq_refl) as [E Hl].
  split; [exact Hl|]. by destruct (yo_stopped _ Hok' E) as (_ & ? & ?).
Qed.

(** The port lookup only ever answers with the value a running component
    bound under that name, and of the component asked for. *)
Theorem resolve_running reg account enabled values run (w : W) l id name v :
  Build up reg account enabled values = Ok run →
  let y := rt_run up hook l (mkSys run w []) in
  resolveComponentPort (y_rt y) id name = Ok v →
  ∃ x i, item x y = Some i ∧ in_state i = Running ∧ (id = "" ∨ x = id) ∧ in_bindings i !! name = Some v.
Proof.
  intros H y. pose proof (rt_run_ok up hook _ _ _ _ _ w l H) as Hok. fold y in Hok.
  unfold resolveComponentPort. destruct (omap _ _) as [|u us] eqn:E; [done|]. intros [= ->].
  assert (Hv : v ∈ v :: us) by (by left). rewrite <- E in Hv. clear E.
  apply list_elem_of_omap in Hv as (x & _ & Hx). apply bind_Some in Hx as (i & Hi & Hx).
  apply bind_Some in Hx as (o & Ho & Hx). pose proof (yo_inst _ Hok x i Hi) as Hin.
  rewrite (io_obs _ _ _ _ Hin) in Ho. injection Ho as <-. cbn in Hx. rewrite (io_id _ _ _ _ Hin) in Hx.
  exists x, i. case_bool_decide; cbn in Hx; [|done]. destruct (String.eqb_spec id "") as [->|Hid]; [by eauto 6|].
  destruct (String.eqb_spec x id) as [->|]; [by eauto 6|done].
Qed.

(** The closure of the components a reconciliation restarts ends: its
    rounds, one more than there are components, reach a set in which no kept
    component uses a provider that disappears, changes or is restarted, and
    every kept component runs and stays enabled. *)
Theorem affected_closure (r desired : Runtime) :
  let aff := affected_by r desired in
  (∀ x, x ∈ aff → is_Some (rt_instances r !! x)) ∧
  closure_pass r desired aff = aff ∧
  (∀ id i, rt_instances r !! id = Some i → id ∉ aff →
     is_Some (rt_instances desired !! id) ∧ in_state i = Running ∧ rebinds r desired aff i = false).
Proof.
  destruct (affected_spec r desired) as (H1 & H2 & H3). cbn zeta. split_and!; [done| |].
  - unfold closure_pass. set (aff := affected_by r desired) in *.
    assert (Hl : ∀ l, (∀ x, x ∈ l → x ∈ map_to_list (rt_instances r)) →
      foldl (λ aff0 '(id, i), if negb (bool_decide (id ∈ aff0)) && rebinds r desired aff0 i then id :: aff0 else aff0) aff l = aff).
    { intros l. induction l as [|[id i] l IH]; intros Hl; [done|]. cbn [foldl].
      destruct (decide (id ∈ aff)) as [Hin|Hno].
      - rewrite bool_decide_true by done. cbn. apply IH. intros x Hx. apply Hl. by right.
      - rewrite bool_decide_false, (H2 id i) by (done || apply elem_of_map_to_list, Hl; by left).
        cbn. apply IH. intros x Hx. apply Hl. by right. }
    by apply Hl.
  - intros id i Hi Hno. destruct (H3 id i Hi Hno). split_and!; try done. by apply (H2 id i).
Qed.

(** C39: [Reconfigure] is all or nothing: an error, from the schema, from the
    component's state or from the component itself, leaves the runtime as it
    was; success leaves every other component as it was and the component
    with a view that holds exactly its schema's fields. *)
Theorem reconfigure_atomic id values canceled (y : sys (W := W)) :
  let '(res, y') := RteReconfigure up hook id values canceled y in
  match res with
  | Err _ => y_rt y' = y_rt y
  | Ok _ => ∃ i i', item id y = Some i ∧ item id y' = Some i' ∧ in_state i' = Running ∧
      in_status i' = in_status i ∧ in_bindings i' = in_bindings i ∧
      (∀ x, x ≠ id → item x y' = item x y) ∧ rt_ports (y_rt y') = rt_ports (y_rt y) ∧
      ∃ view, ConfigNew up (m_Config (in_manifest i)) values = Ok view ∧ v_values (in_config i') = v_values view
  end.
Proof.
  unfold RteReconfigure. destruct canceled; [done|]. destruct (item id y) as [i|] eqn:Hi; [|done].
  destruct (ConfigNew _ _ _) as [view|] eqn:Hc; [|done].
  destruct (is_running i) eqn:Hr; [|done]. unfold is_running in Hr. apply bool_decide_eq_true in Hr. cbn [negb].
  destruct (ViewEqual _ _) eqn:Hv.
  { apply ViewEqual_spec in Hv. exists i, i. split_and!; try done. eauto. }
  destruct (do_call _ _ _) as [a y1] eqn:H1. destruct (call_same _ _ _ _ _ H1) as (E & Hit & _).
  destruct (an_error a); [done|]. exists i. eexists. rewrite item_upd_eq, Hit, Hi. split_and!; [done|done|done..| | |].
  - intros x Hx. by rewrite item_upd, decide_False, Hit.
  - cbn. by rewrite E.
  - eauto.
Qed.

(** C40: A configuration view that [New] returns is well typed: the schema's
    field names are distinct, the view holds exactly those, each with the
    value given or else the default and passing the field's own validation,
    and no undeclared value was given. *)
Theorem config_typed schema values v :
  ConfigNew up schema values = Ok v →
  NoDup (f_Name <$> schema) ∧
  (∀ f, f ∈ schema → ∃ raw, ViewGet v (f_Name f) = Ok raw ∧ validate up f raw = Ok tt ∧
     raw = default (f_Default f) (values !! f_Name f)) ∧
  (∀ n, ViewGet v n = Err (ErrMsg "config access denied") ↔ n ∉ f_Name <$> schema) ∧
  (∀ n, is_Some (values !! n) → n ∈ f_Name <$> schema).
Proof.
  intros H%ConfigNew_spec. destruct H as (Hd & Hf & Hn & Hv). split_and!; [done| | |done].
  - intros f Hin. destruct (Hf f Hin) as [E1 E2]. eexists. unfold ViewGet. by rewrite E1.
  - intros n. rewrite <- Hn. unfold ViewGet. destruct (v_values v !! n).
    + split; [done|]. intros []. eauto.
    + split; [|done]. by intros _ [? ?].
Qed.
End props.

(** ** Witnesses

    A store, a service that requires it and a component that may use it. *)

Definition demo_type : ptype := mkType "Store" true.
Definition demo_port : Port := mkPort "store" 1 0 (Some demo_type).
Definition demo_field : ConfigField := mkField "level" FInt (CAtom (AInt 3)) [] "" false (Some 1) (Some 9).
Definition demo_registry : registry :=
  <["store" := mkRegistration (mkManifest "store" [demo_port] [] [demo_field] []) 1]> (
  <["api" := mkRegistration (mkManifest "api" [] [mkRequire demo_port false] [] []) 2]> (
  <["extra" := mkRegistration (mkManifest "extra" [] [mkRequire demo_port true] [] []) 3]> ∅)).
Definition demo_url (_ : string) : option (string * string) := None.
(** The store binds its port; the second start of [extra] fails. *)
Definition demo_hook (c : call) (n : nat) : answer * nat :=
  match c with
  | CInit id _ _ => (mkAnswer None (if String.eqb id "store" then [("store", mkValue 7 false [demo_type])] else []), S n)
  | CStart id => (mkAnswer (if String.eqb id "extra" then Some "boom" else None) [], S n)
  | _ => (mkAnswer None [], S n)
  end.
Definition demo_runtime : Runtime :=
  match Build demo_url demo_registry "main" None ∅ with
  | Ok r => r
  | Err _ => mkRuntime ∅ [] ∅ [] ∅ ∅ "" false false false
  end.
Definition demo_ops : list rt_op := [OpStart; OpReconfigure "store" {["level" := CAtom (AInt 5)]} false].
Definition demo_system : sys := rt_run demo_url demo_hook demo_ops (mkSys demo_runtime 0%nat []).
Definition demo_deps : gmap string (list string) :=
  match deps_of demo_url demo_registry None ∅ with Ok d => d | Err _ => ∅ end.

Lemma demo_built : Build demo_url demo_registry "main" None ∅ = Ok demo_runtime.
Proof. vm_compute. reflexivity. Qed.

Lemma build_order_witness : rt_order demo_runtime = ["store"; "api"; "extra"] ∧ NoDup (rt_order demo_runtime).
Proof.
  split; [vm_compute; reflexivity|].
  exact (proj1 (proj1 (build_order demo_url demo_registry "main" None ∅ demo_runtime demo_built))).
Defined.

Lemma build_cycle_iff_witness : ¬ tc (edge demo_deps) "api" "api".
Proof.
  assert (Hd : deps_of demo_url demo_registry None ∅ = Ok demo_deps) by (vm_compute; reflexivity).
  pose proof (build_cycle_iff demo_url demo_registry "main" None ∅ demo_deps Hd ltac:(discriminate)
    eq_refl ltac:(vm_compute; reflexivity)) as H.
  rewrite demo_built in H. exact (H "api").
Defined.

Lemma runtime_dependencies_witness : running demo_system "api" ∧ running demo_system "store".
Proof.
  assert (Ha : (λ i, (in_state i, m_Requires (in_manifest i))) <$> item "api" demo_system = Some (Running, [mkRequire demo_port false]))
    by (vm_compute; reflexivity).
  destruct (item "api" demo_system) as [i|] eqn:Hi; [|discriminate]. injection Ha as Hr Hm.
  assert (Hq : mkRequire demo_port false ∈ m_Requires (in_manifest i)) by (rewrite Hm; by left).
  split; [exact (ex_intro _ i (conj Hi Hr))|].
  destruct (runtime_dependencies demo_url demo_hook demo_registry "main" None ∅ demo_runtime 0%nat demo_ops demo_built) as [H _].
  destruct (proj1 (H "api" i Hi Hr) _ Hq eq_refl) as (p & Hp & Hrun & _).
  assert (E : rt_providers (y_rt demo_system) !! "store" = Some "store") by (vm_compute; reflexivity).
  assert (Hsome : Some p = Some "store") by exact (eq_trans (eq_sym Hp) E). injection Hsome as ->. exact Hrun.
Defined.

Lemma lifecycle_protocol_witness : is_Some (protocol (y_log demo_system) "extra").
Proof.
  exact (proj1 (lifecycle_protocol demo_url demo_hook demo_registry "main" None ∅ demo_runtime 0%nat demo_ops demo_built "extra")).
Defined.

Lemma stop_order_witness :
  (y_log (RteStop demo_hook demo_system).2).*1 =
  (y_log demo_system).*1 ++ [CBusClose; CDrain "store"; CDrain "api"; CDrain "extra"; CStop "api"; CStop "store"].
Proof.
  assert (Hs : RteStop demo_hook demo_system = (None, (RteStop demo_hook demo_system).2)) by (vm_compute; reflexivity).
  destruct (stop_order demo_url demo_hook demo_registry "main" None ∅ demo_runtime 0%nat demo_ops _ demo_built
    ltac:(vm_compute; reflexivity) Hs) as [(log & E & L) _].
  change (y_log (RteStop demo_hook demo_system).2 = y_log demo_system ++ log) in E.
  rewrite E, fmap_app, L. f_equal; vm_compute; reflexivity.
Defined.

Lemma resolve_running_witness : ∃ x, running demo_system x.
Proof.
  destruct (resolve_running demo_url demo_hook demo_registry "main" None ∅ demo_runtime 0%nat demo_ops "" "store"
    (mkValue 7 false [demo_type]) demo_built ltac:(vm_compute; reflexivity)) as (x & i & Hi & Hr & _).
  exact (ex_intro _ x (ex_intro _ i (conj Hi Hr))).
Defined.

Lemma config_typed_witness :
  validate demo_url demo_field (CAtom (AInt 5)) = Ok tt.
Proof.
  destruct (ConfigNew demo_url [demo_field] {["level" := CAtom (AInt 5)]}) as [v|e] eqn:Hv.
  2:{ exfalso. revert Hv. vm_compute. discriminate. }
  destruct (config_typed demo_url [demo_field] _ v Hv) as (_ & H & _).
  destruct (H demo_field ltac:(by left)) as (raw & _ & Hok & E).
  change (raw = CAtom (AInt 5)) in E. by subst raw.
Defined.
