(* ===== verification/StringFacts.v ===== *)
(** * Facts about byte strings

    Predicates on all bytes, concatenation, reversal and decimal numbers, as
    shared by the proofs about headers and paths. *)

From Stdlib Require Import Ascii.
From stdpp Require Import pretty.
From S2P Require Import Prelude Strings.
Local Open Scope list_scope.
Local Arguments Ascii.eqb : simpl never.
Local Arguments String.append !_ _ /.

(** ** Strings whose bytes satisfy a predicate *)

Fixpoint all_chars (P : ascii → bool) (s : string) : bool :=
  match s with String a s' => P a && all_chars P s' | EmptyString => true end.

Lemma all_chars_impl (P Q : ascii → bool) s :
  (∀ a, P a = true → Q a = true) → all_chars P s = true → all_chars Q s = true.
Proof. intros H. induction s as [|a s IH]; cbn; [done|]. rewrite !andb_true_iff. intros [? ?]. auto. Qed.

Lemma all_chars_app P s1 s2 : all_chars P (s1 +:+ s2) = all_chars P s1 && all_chars P s2.
Proof. 
  induction s1 as [|a s1 IH]; [done|].
  change (P a && all_chars P (s1 +:+ s2) = P a && all_chars P s1 && all_chars P s2). by rewrite IH, andb_assoc.
Qed.

Lemma all_chars_rev P s : all_chars P (String.rev s) = all_chars P s.
Proof.
  induction s as [|a s IH]; [done|]. unfold String.rev. cbn [String.rev_app]. rewrite rev_app_spec, all_chars_app, IH.
  cbn. by rewrite andb_true_r, andb_comm.
Qed.

Lemma str_app_assoc s1 s2 s3 : (s1 +:+ s2) +:+ s3 = s1 +:+ (s2 +:+ s3).
Proof. induction s1 as [|a s1 IH]; [done|]. exact (f_equal (String a) IH). Qed.
Lemma str_app_nil s : s +:+ "" = s.
Proof. induction s as [|a s IH]; [done|]. exact (f_equal (String a) IH). Qed.

Lemma rev_app_str s1 s2 : String.rev (s1 +:+ s2) = String.rev s2 +:+ String.rev s1.
Proof.
  induction s1 as [|a s1 IH]; [change (String.rev s2 = String.rev s2 +:+ ""); by rewrite str_app_nil|].
  change (String a s1 +:+ s2) with (String a (s1 +:+ s2)).
  unfold String.rev. cbn [String.rev_app]. rewrite !rev_app_spec, IH. by rewrite str_app_nil, str_app_assoc.
Qed.
Lemma rev_rev_str s : String.rev (String.rev s) = s.
Proof.
  induction s as [|a s IH]; [done|]. unfold String.rev at 2. cbn [String.rev_app]. rewrite rev_app_spec, rev_app_str, IH. done.
Qed.

(** ** Decimal numbers *)

Definition is_digit (a : ascii) : bool := (48 <=? byte a) && (byte a <=? 57).

Lemma pretty_char_digit n : (n < 10)%N → is_digit (pretty_N_char n) = true ∧ byte (pretty_N_char n) = 48 + Z.of_N n.
Proof.
  intros H. assert (Hn : n ∈ (N.of_nat <$> seq 0 10)).
  { apply list_elem_of_fmap. exists (N.to_nat n). split; [lia|]. apply elem_of_seq. lia. }
  cbn in Hn. rewrite !elem_of_cons, elem_of_nil in Hn. destruct_or?; subst; done.
Qed.

Lemma pretty_go_digits x s :
  (all_chars is_digit s = true → all_chars is_digit (pretty_N_go x s) = true) ∧ (s ≠ "" → pretty_N_go x s ≠ "").
Proof.
  revert s. induction (N.lt_wf_0 x) as [x _ IH]; intros s. destruct (decide (x = 0)%N) as [->|Hx].
  { by rewrite pretty_N_go_0. }
  rewrite pretty_N_go_step by lia.
  destruct (IH (x `div` 10)%N ltac:(apply N.div_lt; lia) (String (pretty_N_char (x `mod` 10)) s)) as (H2 & H3).
  destruct (pretty_char_digit (x `mod` 10)%N ltac:(by apply N.mod_lt)) as [D _].
  split; [|by intros _; apply H3]. intros Hs. apply H2. cbn. by rewrite D, Hs.
Qed.

Lemma Itoa_pos p : Itoa (Z.pos p) = pretty_N_go (N.pos p) "".
Proof. done. Qed.

Lemma Itoa_all_digits z : 0 ≤ z → all_chars is_digit (Itoa z) = true ∧ Itoa z ≠ "".
Proof.
  intros Hz. destruct z as [|p|p]; [done| |lia]. rewrite Itoa_pos. destruct (pretty_go_digits (N.pos p) "") as (H2 & _).
  split; [by apply H2|]. rewrite pretty_N_go_step by done. by apply pretty_go_digits.
Qed.

(** ** Cutting a string in two *)

Lemma app_str_inj_r a b s : a +:+ s = b +:+ s → a = b.
Proof.
  intros H. apply (f_equal String.rev) in H. rewrite !rev_app_str in H. apply app_inj_l in H.
  rewrite <- (rev_rev_str a), <- (rev_rev_str b). by rewrite H.
Qed.

(** The text before the first byte that breaks [P] is determined. *)
Lemma split_unique P a b c d s t :
  all_chars P a = true → all_chars P b = true → P c = false → P d = false →
  a +:+ String c s = b +:+ String d t → a = b ∧ String c s = String d t.
Proof.
  revert b. induction a as [|x a IH]; intros [|y b]; cbn; intros Ha Hb Hc Hd.
  - intros H. split; [done|exact H].
  - intros [= <- _]. by rewrite Hc in Hb.
  - intros [= -> _]. by rewrite Hd in Ha.
  - apply andb_true_iff in Ha as [_ Ha]. apply andb_true_iff in Hb as [_ Hb]. intros [= <- H].
    destruct (IH b Ha Hb Hc Hd H) as [-> ?]. done.
Qed.
