(* ===== verification/Text.v ===== *)
(** * Cutting text and reading numbers

    [strings.Cut], [strings.Split] and [strconv.ParseInt], with what they do
    to text that was put together from its parts. *)

From Stdlib Require Import Ascii.
From stdpp Require Import pretty.
From S2P Require Import Prelude Strings StringFacts.
Local Open Scope list_scope.
Local Arguments Ascii.eqb : simpl never.
Local Arguments String.append !_ _ /.

(** ** Definitions *)

(** [strings.Cut] at a byte. *)
Fixpoint Cut (sep : Ascii.ascii) (s : string) : string * string * bool :=
  match s with
  | EmptyString => ("", "", false)
  | String a s' =>
      if Ascii.eqb a sep then ("", s', true)
      else let '(before, after, ok) := Cut sep s' in
           if ok then (String a before, after, true) else (String a before, "", false)
  end.
(** [strings.SplitSeq] at a byte. *)
Fixpoint Split (sep : Ascii.ascii) (s : string) : list string :=
  match s with
  | EmptyString => [""]
  | String a s' =>
      if Ascii.eqb a sep then "" :: Split sep s'
      else match Split sep s' with x :: l => String a x :: l | [] => [String a EmptyString] end
  end.

(** [strconv.ParseInt] in base 10; [None] for a syntax or range error. *)
Definition digit (a : Ascii.ascii) : option Z :=
  let z := byte a in if (48 <=? z) && (z <=? 57) then Some (z - 48) else None.
Fixpoint digits (acc : Z) (s : string) : option Z :=
  match s with
  | EmptyString => Some acc
  | String a s' => match digit a with Some d => digits (10 * acc + d) s' | None => None end
  end.
Definition ParseUnsigned (s : string) : option Z := match s with EmptyString => None | _ => digits 0 s end.
Definition ParseInt (s : string) : option Z :=
  z ← match s with
      | String "+"%char s' => ParseUnsigned s'
      | String "-"%char s' => Z.opp <$> ParseUnsigned s'
      | _ => ParseUnsigned s
      end;
  if in_int64 z then Some z else None.

(** ** Text put together *)

Definition differs (sep a : ascii) : bool := negb (Ascii.eqb a sep).

Lemma Cut_app sep p s : all_chars (differs sep) p = true → Cut sep (p +:+ String sep s) = (p, s, true).
Proof.
  induction p as [|a p IH]; cbn; [by rewrite Ascii.eqb_refl|].
  unfold differs at 1. intros [->%negb_true_iff H]%andb_true_iff. by rewrite (IH H).
Qed.
Lemma Split_app sep p s : all_chars (differs sep) p = true → Split sep (p +:+ String sep s) = p :: Split sep s.
Proof.
  induction p as [|a p IH]; cbn; [by rewrite Ascii.eqb_refl|].
  unfold differs at 1. intros [->%negb_true_iff H]%andb_true_iff. by rewrite (IH H).
Qed.
Lemma Split_one sep p : all_chars (differs sep) p = true → Split sep p = [p].
Proof.
  induction p as [|a p IH]; cbn; [done|].
  unfold differs at 1. intros [->%negb_true_iff H]%andb_true_iff. by rewrite (IH H).
Qed.


Lemma Split_nonempty sep s : Split sep s ≠ [].
Proof. destruct s as [|a s]; cbn; [done|]. destruct (Ascii.eqb a sep); [done|]. by destruct (Split sep s). Qed.
Lemma Split_one_inv sep s x : Split sep s = [x] → s = x.
Proof.
  revert x. induction s as [|a s IH]; intros x; cbn; [by intros [= <-]|].
  destruct (Ascii.eqb a sep); [intros [= _ H]; by apply Split_nonempty in H|].
  destruct (Split sep s) as [|y [|z l]] eqn:E; [by apply Split_nonempty in E| |done].
  intros [= <-]. by rewrite <- (IH y).
Qed.
Lemma Split_two sep s x y : Split sep s = [x; y] → s = x +:+ String sep y.
Proof.
  revert x. induction s as [|a s IH]; intros x; cbn; [done|].
  destruct (Ascii.eqb_spec a sep) as [->|].
  - intros [= <- H]. by apply Split_one_inv in H as <-.
  - destruct (Split sep s) as [|u l] eqn:E; [done|]. intros [= <- ->]. cbn. by rewrite <- (IH u eq_refl).
Qed.

(** ** Decimal numbers *)

Lemma digit_char n : (n < 10)%N → digit (pretty_N_char n) = Some (Z.of_N n) ∧ is_digit (pretty_N_char n) = true.
Proof.
  intros [Hd Hb]%pretty_char_digit. split; [|done]. unfold is_digit in Hd. unfold digit. rewrite Hd, Hb. f_equal. lia.
Qed.

Lemma digits_pretty_go x s : digits 0 (pretty_N_go x s) = digits (Z.of_N x) s.
Proof.
  revert s. induction (N.lt_wf_0 x) as [x _ IH]; intros s. destruct (decide (x = 0)%N) as [->|Hx].
  { by rewrite pretty_N_go_0. }
  rewrite pretty_N_go_step, IH by (lia || (apply N.div_lt; lia)).
  destruct (digit_char (x `mod` 10)%N ltac:(by apply N.mod_lt)) as [D1 _].
  cbn [digits]. rewrite D1. f_equal. pose proof (N.div_mod x 10 ltac:(done)). lia.
Qed.

Lemma Itoa_digits z : 0 ≤ z →
  digits 0 (Itoa z) = Some z ∧ all_chars is_digit (Itoa z) = true ∧ Itoa z ≠ "".
Proof.
  intros Hz. split; [|by apply Itoa_all_digits]. destruct z as [|p|p]; [done| |lia].
  rewrite Itoa_pos, digits_pretty_go. done.
Qed.

Lemma ParseInt_Itoa z : 0 ≤ z ≤ max_int64 → ParseInt (Itoa z) = Some z.
Proof.
  intros Hz. destruct (Itoa_digits z ltac:(lia)) as (H1 & H2 & H3).
  assert (Hp : ParseUnsigned (Itoa z) = Some z) by (unfold ParseUnsigned; by destruct (Itoa z)).
  unfold ParseInt. destruct (Itoa z) as [|a s]; [done|]. cbn in H2. apply andb_true_iff in H2 as [Ha _].
  assert (Hi : in_int64 z = true) by (unfold in_int64, min_int64; lia).
  destruct a as [[] [] [] [] [] [] [] []]; try (vm_compute in Ha; discriminate); rewrite Hp; cbn [mbind option_bind]; by rewrite Hi.
Qed.
