(* ===== verification/RangeProxy.v ===== *)
(** * HTTP Range proxy (application/proxy.range/handler.go)

    One download request: the [Range] header, the waits for the transport,
    the response's status and headers, and the body, single or multipart.
    The source of the bytes answers through [env]; what the handler asks of it
    and sends is returned as a reply and a list of calls.  [mime]'s tables and
    SHA-256 are parameters. *)

From Stdlib Require Import Ascii.
From S2P Require Import Prelude Strings Storage Text.
Local Open Scope list_scope.

(** ** Text of headers *)

Definition CRLF : string := String (Ascii.ascii_of_nat 13) (String (Ascii.ascii_of_nat 10) EmptyString).
Definition quote : string := String (Ascii.ascii_of_nat 34) EmptyString.

(** [textproto.TrimString] *)
Definition ascii_space (a : Ascii.ascii) : bool :=
  let z := byte a in (z =? 32) || (z =? 9) || (z =? 10) || (z =? 13).
Fixpoint trim_ascii (s : string) : string :=
  match s with String a s' => if ascii_space a then trim_ascii s' else s | EmptyString => "" end.
Definition TrimString (s : string) : string := rev_str (trim_ascii (rev_str (trim_ascii s))).

(** [strings.EqualFold] against a word of ASCII letters: U+017F folds to [s]
    and U+212A to [k]. *)
Fixpoint EqualFold (s word : string) : bool :=
  match word, s with
  | EmptyString, EmptyString => true
  | String w word', String a s1 =>
      if Ascii.eqb (lower_byte a) (lower_byte w) then EqualFold s1 word'
      else match s1 with
           | String b s2 =>
               if (byte a =? 0xC5) && (byte b =? 0xBF) then Ascii.eqb (lower_byte w) "s"%char && EqualFold s2 word'
               else match s2 with
                    | String c s3 =>
                        (byte a =? 0xE2) && (byte b =? 0x84) && (byte c =? 0xAA)
                        && Ascii.eqb (lower_byte w) "k"%char && EqualFold s3 word'
                    | EmptyString => false
                    end
           | EmptyString => false
           end
  | _, _ => false
  end.

(** ** Ranges *)

Record downloadRange := mkRange { r_start : Z; r_end : Z }.
#[export] Instance downloadRange_eq : EqDecision downloadRange.
Proof. solve_decision. Defined.

Definition r_length (r : downloadRange) : Z := if r_end r <? r_start r then 0 else r_end r - r_start r + 1.
Definition contentRange (r : downloadRange) (size : Z) : string :=
  "bytes " +:+ Itoa (r_start r) +:+ "-" +:+ Itoa (r_end r) +:+ "/" +:+ Itoa size.

Definition errNoOverlap : string := "requested range does not overlap content".

(** One element of the list: a range, none because it lies past the end, or
    an error. *)
Definition parse_range (raw : string) (size : Z) : res string (option downloadRange) :=
  let raw := TrimString raw in
  if String.eqb raw "" then Err "invalid empty range"
  else match Cut "-"%char raw with
  | (_, _, false) => Err "invalid range format"
  | (first, last, true) =>
      let first := TrimString first in
      let last := TrimString last in
      if String.eqb first "" then
        match ParseInt last with
        | None => Err "invalid suffix range"
        | Some suffix =>
            if suffix <=? 0 then Err "invalid suffix range"
            else
              let suffix := if size <? suffix then size else suffix in
              if suffix =? 0 then Ok None else Ok (Some (mkRange (size - suffix) (size - 1)))
        end
      else match ParseInt first with
      | None => Err "invalid range start"
      | Some start =>
          if start <? 0 then Err "invalid range start"
          else if size <=? start then Ok None
          else if String.eqb last "" then Ok (Some (mkRange start (size - 1)))
          else match ParseInt last with
               | None => Err "invalid range bounds"
               | Some stop =>
                   if stop <? start then Err "invalid range bounds"
                   else Ok (Some (mkRange start (if size <=? stop then size - 1 else stop)))
               end
      end
  end.

(** The loop over the list: [None] where it sets [noOverlap]. *)
Fixpoint parse_list (specs : list string) (size : Z) : res string (list (option downloadRange)) :=
  match specs with
  | [] => Ok []
  | raw :: specs => r ← parse_range raw size; rs ← parse_list specs size; Ok (r :: rs)
  end.

Definition parseDownloadRanges (header : string) (size : Z) : res string (list downloadRange) :=
  if size <? 0 then Err "invalid content length"
  else if String.eqb (TrimSpace header) "" then Ok []
  else match Cut "="%char header with
  | (_, _, false) => Err "invalid range unit"
  | (unit, spec, true) =>
      if negb (EqualFold (TrimSpace unit) "bytes") then Err "invalid range unit"
      else
        l ← parse_list (Split ","%char spec) size;
        let ranges := omap id l in
        if bool_decide (None ∈ l) && is_nil ranges then Err errNoOverlap else Ok ranges
  end.

Fixpoint sizeExceeds (ranges : list downloadRange) (size total : Z) : bool :=
  match ranges with
  | [] => false
  | r :: ranges => if wrap64 (size - total) <? r_length r then true else sizeExceeds ranges size (wrap64 (total + r_length r))
  end.
Definition downloadRangesSizeExceeds (ranges : list downloadRange) (size : Z) : bool := sizeExceeds ranges size 0.

(** ** The body *)

(** What is written to the client: text, or [n] bytes of the file from [start]. *)
Inductive chunk := CText (s : string) | CData (start n : Z).
Definition chunk_length (c : chunk) : Z :=
  match c with CText s => Z.of_nat (String.length s) | CData _ n => n end.
Definition body_length (l : list chunk) : Z := foldr (λ c n, chunk_length c + n) 0 l.

(** [multipart.Writer]: [CreatePart] with the two headers of a part, sorted,
    and [Close]. *)
Definition part_header (boundary contentType : string) (size : Z) (first : bool) (r : downloadRange) : string :=
  (if first then "" else CRLF) +:+ "--" +:+ boundary +:+ CRLF
  +:+ "Content-Range: " +:+ contentRange r size +:+ CRLF
  +:+ "Content-Type: " +:+ contentType +:+ CRLF +:+ CRLF.
Definition closing (boundary : string) : string := CRLF +:+ "--" +:+ boundary +:+ "--" +:+ CRLF.

(** The counting writer of [multipartDownloadRangesSize]. *)
Fixpoint count_parts (boundary contentType : string) (size : Z) (first : bool) (ranges : list downloadRange)
    (encoded : Z) : Z :=
  match ranges with
  | [] => wrap64 (encoded + Z.of_nat (String.length (closing boundary)))
  | r :: ranges =>
      let encoded := wrap64 (encoded + Z.of_nat (String.length (part_header boundary contentType size first r))) in
      count_parts boundary contentType size false ranges (wrap64 (encoded + r_length r))
  end.
Definition multipartDownloadRangesSize (ranges : list downloadRange) (contentType : string) (size : Z) (boundary : string) : Z :=
  count_parts boundary contentType size true ranges 0.

(** ** The request and its surroundings *)

Record request := mkRequest { q_method : string; q_path : string; q_range : string; q_if_range : string }.
Record RangeResource := mkResource { rr_ID : string; rr_FileName : string; rr_FileSize : Z; rr_Available : bool }.

(** A failure, and whether it is [context.Canceled]. *)
Record failure := mkFailure { fa_canceled : bool; fa_text : string }.

(** What the transport and the connection answer; [e_stream] is asked with the
    number of the range and says how many bytes reached the client. *)
Record env := mkEnv {
  e_open : res failure (option RangeResource);
  e_closer : bool;
  e_boundary : string;
  e_ready : option failure;
  e_gone : bool;                                    (* r.Context().Err() after Ready failed *)
  e_acquire : option failure;
  e_part : nat → option failure;
  e_stream : nat → downloadRange → Z * option failure;
  e_close_parts : option failure;
}.

Inductive tcall := TReady | TAcquire | TStream (r : downloadRange) | TReport (spans : list downloadRange) | TRelease | TClose.

(** [RError] is [http.Error], with the headers set for it; [RNone] is a return
    that writes nothing. *)
Inductive reply :=
  | RNone
  | RError (status : Z) (headers : list (string * string)) (text : string)
  | RServe (status : Z) (headers : list (string * string)) (body : list chunk).

Section handler.
(** [mime.TypeByExtension] of the file name's extension, [mime.FormatMediaType]
    with the file name, and the first 16 bytes of SHA-256 in hexadecimal. *)
Context (mime_type disposition : string → string) (hash : string → string).

Definition ETag (task : RangeResource) : string :=
  quote +:+ hash (rr_ID task +:+ ":" +:+ Itoa (rr_FileSize task)) +:+ quote.

Definition is_get (q : request) : bool := String.eqb (q_method q) "GET".
Definition is_head (q : request) : bool := String.eqb (q_method q) "HEAD".

(** The ranges to serve, none for the whole file. *)
Definition request_ranges (q : request) (task : RangeResource) : res string (list downloadRange) :=
  let etag := ETag task in
  let header := if is_head q then "" else q_range q in
  let ifRange := TrimSpace (q_if_range q) in
  let header := if negb (String.eqb ifRange "") && negb (String.eqb ifRange etag) then "" else header in
  let parsed :=
    match parseDownloadRanges header (rr_FileSize task) with
    | Err e => if String.eqb e errNoOverlap && (rr_FileSize task =? 0) then Ok [] else Err e
    | Ok l => Ok l
    end in
  ranges ← parsed;
  Ok (if downloadRangesSizeExceeds ranges (rr_FileSize task) then [] else ranges).

Definition contentType_of (task : RangeResource) : string :=
  let t := mime_type (rr_FileName task) in if String.eqb t "" then "application/octet-stream" else t.

(** Status and headers of a response that is served. *)
Definition response_head (task : RangeResource) (ranges : list downloadRange) (boundary : string)
    : Z * list (string * string) :=
  let size := rr_FileSize task in
  let ct := contentType_of task in
  let fixed := [("Accept-Ranges", "bytes"); ("ETag", ETag task); ("Content-Disposition", disposition (rr_FileName task))] in
  match ranges with
  | [] => (200, fixed ++ [("Content-Type", ct); ("Content-Length", Itoa size)])
  | [r] => (206, fixed ++ [("Content-Type", ct); ("Content-Length", Itoa (r_length r)); ("Content-Range", contentRange r size)])
  | _ => (206, fixed ++ [("Content-Type", "multipart/byteranges; boundary=" +:+ boundary);
                         ("Content-Length", Itoa (multipartDownloadRangesSize ranges ct size boundary))])
  end.

(** [streamDownloadRanges] from the [n]-th range on. *)
Fixpoint stream_ranges (e : env) (ct : string) (size : Z) (multi : bool) (n : nat) (ranges : list downloadRange)
    : list chunk * list tcall * option failure :=
  match ranges with
  | [] =>
      if multi then
        match e_close_parts e with
        | Some x => ([], [], Some x)
        | None => ([CText (closing (e_boundary e))], [], None)
        end
      else ([], [], None)
  | r :: ranges =>
      match (if multi then e_part e n else None) with
      | Some x => ([], [], Some x)
      | None =>
          let head := if multi then [CText (part_header (e_boundary e) ct size (Nat.eqb n 0) r)] else [] in
          let '(sent, x) := e_stream e n r in
          match x with
          | Some x => (head ++ [CData (r_start r) sent], [TStream r], Some x)
          | None =>
              let '(body, calls, x) := stream_ranges e ct size multi (S n) ranges in
              (head ++ CData (r_start r) sent :: body, TStream r :: calls, x)
          end
      end
  end.

(** From the wait for the transport on; the calls end with the release. *)
Definition serve_body (e : env) (q : request) (task : RangeResource) (ranges : list downloadRange) : reply * list tcall :=
  let size := rr_FileSize task in
  let '(status, headers) := response_head task ranges (e_boundary e) in
  if is_head q then (RServe status headers [], [])
  else if size =? 0 then (RServe status headers [], [TReport []])
  else
    let responseRanges := match ranges with [] => [mkRange 0 (size - 1)] | _ => ranges end in
    let multi := match ranges with _ :: _ :: _ => true | _ => false end in
    let '(body, calls, x) := stream_ranges e (contentType_of task) size multi 0 responseRanges in
    (RServe status headers body,
     calls ++ match x with Some _ => [] | None => [TReport responseRanges] end).

Definition serve_task (e : env) (q : request) (task : RangeResource) (ranges : list downloadRange) : reply * list tcall :=
  if negb (is_head q) && (0 <? rr_FileSize task) then
    if negb (rr_Available task) then (RError 500 [] "download media is unavailable", [])
    else match e_ready e with
    | Some _ =>
        if e_gone e then (RNone, [TReady])
        else (RError 503 [("Retry-After", "3")] "telegram download backend is not ready", [TReady])
    | None =>
        match e_acquire e with
        | Some x =>
            if fa_canceled x then (RNone, [TReady; TAcquire])
            else (RError 500 [] "failed to acquire download slot", [TReady; TAcquire])
        | None =>
            let '(rep, calls) := serve_body e q task ranges in
            (rep, TReady :: TAcquire :: calls ++ [TRelease])
        end
    end
  else serve_body e q task ranges.

Definition serveHTTP (e : env) (q : request) : reply * list tcall :=
  if negb (is_get q) && negb (is_head q) then (RError 405 [("Allow", "GET, HEAD")] "method not allowed", [])
  else
    let taskID := TrimPrefix (q_path q) "/download/" in
    if String.eqb taskID "" || contains_char "/"%char taskID then (RError 404 [] "404 page not found", [])
    else match e_open e with
    | Err _ => (RError 500 [] "failed to load download task", [])
    | Ok None => (RError 404 [] "404 page not found", [])
    | Ok (Some task) =>
        let '(rep, calls) :=
          if rr_FileSize task <? 0 then (RError 500 [] "invalid download size", [])
          else match request_ranges q task with
          | Err x => (RError 416 [("Content-Range", "bytes */" +:+ Itoa (rr_FileSize task))] x, [])
          | Ok ranges => serve_task e q task ranges
          end in
        (rep, calls ++ if e_closer e then [TClose] else [])
    end.
End handler.
