(* ===== verification/RangeProxyProps.v ===== *)
(** * Properties of the HTTP Range proxy *)

From Stdlib Require Import Ascii.
From stdpp Require Import pretty.
From S2P Require Import Prelude Strings Storage StringFacts Text RangeProxy.
Local Open Scope list_scope.
Local Arguments Ascii.eqb : simpl never.
Local Arguments String.append !_ _ /.

(** ** Splitting and trimming *)

Definition nospace (a : ascii) : bool := negb (ascii_space a).

Lemma trim_ascii_id s : all_chars nospace s = true → trim_ascii s = s.
Proof. destruct s as [|a s]; [done|]. cbn. unfold nospace. by intros [->%negb_true_iff _]%andb_true_iff. Qed.
Lemma TrimString_id s : all_chars nospace s = true → TrimString s = s.
Proof.
  intros H. unfold TrimString, rev_str. rewrite (trim_ascii_id s H), trim_ascii_id by (by rewrite all_chars_rev).
  apply rev_rev_str.
Qed.

Lemma Itoa_clean z : 0 ≤ z →
  all_chars nospace (Itoa z) = true ∧ all_chars (differs "-") (Itoa z) = true ∧ all_chars (differs ",") (Itoa z) = true.
Proof.
  intros Hz. destruct (Itoa_digits z Hz) as (_ & H & _).
  split_and!; eapply all_chars_impl; try exact H; intros a; unfold is_digit, nospace, ascii_space, differs; intros Ha.
  - rewrite negb_true_iff. lia.
  - apply negb_true_iff, Ascii.eqb_neq. intros ->. by vm_compute in Ha.
  - apply negb_true_iff, Ascii.eqb_neq. intros ->. by vm_compute in Ha.
Qed.

(** ** The header *)

Definition within (size : Z) (r : downloadRange) : Prop := 0 ≤ r_start r ∧ r_start r ≤ r_end r ∧ r_end r < size.
Definition render_range (r : downloadRange) : string := Itoa (r_start r) +:+ "-" +:+ Itoa (r_end r).
Fixpoint render_ranges (rs : list downloadRange) : string :=
  match rs with
  | [] => ""
  | [r] => render_range r
  | r :: rs => render_range r +:+ "," +:+ render_ranges rs
  end.

Lemma parse_render_range r size : within size r → size ≤ max_int64 + 1 →
  parse_range (render_range r) size = Ok (Some r) ∧ all_chars (differs ",") (render_range r) = true.
Proof.
  intros (H1 & H2 & H3) Hs. destruct (Itoa_clean (r_start r) ltac:(lia)) as (A1 & A2 & A3).
  destruct (Itoa_clean (r_end r) ltac:(lia)) as (B1 & _ & B3). split.
  2:{ unfold render_range. rewrite !all_chars_app, A3, B3. done. }
  unfold parse_range.
  assert (Ht : TrimString (render_range r) = render_range r).
  { apply TrimString_id. unfold render_range. rewrite !all_chars_app, A1, B1. done. }
  rewrite Ht. destruct (Itoa_digits (r_start r) ltac:(lia)) as (_ & _ & N1).
  destruct (Itoa_digits (r_end r) ltac:(lia)) as (_ & _ & N2).
  destruct (String.eqb_spec (render_range r) "") as [E|_].
  { unfold render_range in E. by destruct (Itoa (r_start r)). }
  unfold render_range. change ("-" +:+ Itoa (r_end r)) with (String "-" (Itoa (r_end r))). rewrite Cut_app by done.
  rewrite !TrimString_id by done. destruct (String.eqb_spec (Itoa (r_start r)) ""); [done|].
  rewrite ParseInt_Itoa by lia. destruct (Z.ltb_spec (r_start r) 0); [lia|]. destruct (Z.leb_spec size (r_start r)); [lia|].
  destruct (String.eqb_spec (Itoa (r_end r)) ""); [done|]. rewrite ParseInt_Itoa by lia.
  destruct (Z.ltb_spec (r_end r) (r_start r)); [lia|]. destruct (Z.leb_spec size (r_end r)); [lia|]. by destruct r.
Qed.

Lemma parse_render_list rs size : rs ≠ [] → Forall (within size) rs → size ≤ max_int64 + 1 →
  parse_list (Split "," (render_ranges rs)) size = Ok (Some <$> rs).
Proof.
  intros Hn H Hs. induction H as [|r rs Hr H IH]; [done|]. destruct (parse_render_range r size Hr Hs) as [E1 E2].
  destruct rs as [|r' rs].
  - change (render_ranges [r]) with (render_range r). rewrite Split_one by done. cbn [parse_list]. by rewrite E1.
  - change (render_ranges (r :: r' :: rs)) with (render_range r +:+ String "," (render_ranges (r' :: rs))).
    rewrite Split_app by done.
    cbn [parse_list]. rewrite E1. cbn [mbind res_bind]. by rewrite IH.
Qed.

Lemma omap_id_some {A} (l : list A) : omap id (Some <$> l) = l.
Proof. induction l as [|x l IH]; [done|]. cbn. by rewrite IH. Qed.

(** Every non-empty list of spans inside the file, written as a Range
    header, is parsed back to exactly these spans. *)
Theorem range_roundtrip rs size :
  rs ≠ [] → Forall (within size) rs → size ≤ max_int64 →
  parseDownloadRanges ("bytes=" +:+ render_ranges rs) size = Ok rs.
Proof.
  intros Hn H Hs. assert (Hpos : 0 < size).
  { destruct H as [|r rs (? & ? & ?) _]; [done|lia]. }
  unfold parseDownloadRanges. destruct (Z.ltb_spec size 0); [lia|].
  destruct (String.eqb_spec (TrimSpace ("bytes=" +:+ render_ranges rs)) "") as [E|_].
  { by apply (TrimSpace_solid "b") in E. }
  change ("bytes=" +:+ render_ranges rs) with ("bytes" +:+ String "=" (render_ranges rs)). rewrite Cut_app by done.
  change (EqualFold (TrimSpace "bytes") "bytes") with true. cbn [negb].
  rewrite parse_render_list by (done || lia). cbn [mbind res_bind]. rewrite omap_id_some.
  by destruct rs; [|rewrite andb_false_r].
Qed.

(** ** What a parsed header holds *)

Lemma parse_range_within raw size r :
  0 ≤ size → parse_range raw size = Ok (Some r) → within size r.
Proof.
  intros Hs. unfold parse_range. destruct (String.eqb _ ""); [done|].
  destruct (Cut _ _) as [[first last] []]; [|done]. destruct (String.eqb (TrimString first) "").
  - destruct (ParseInt _) as [suffix|]; [|done]. destruct (Z.leb_spec suffix 0); [done|].
    set (k := if size <? suffix then size else suffix).
    assert (0 ≤ k ≤ size) by (unfold k; destruct (Z.ltb_spec size suffix); lia).
    destruct (Z.eqb_spec k 0); [done|]. intros [= <-]. unfold within. cbn. lia.
  - destruct (ParseInt (TrimString first)) as [start|]; [|done]. destruct (Z.ltb_spec start 0); [done|].
    destruct (Z.leb_spec size start); [done|]. destruct (String.eqb _ ""); [intros [= <-]; unfold within; cbn; lia|].
    destruct (ParseInt _) as [stop|]; [|done]. destruct (Z.ltb_spec stop start); [done|].
    destruct (Z.leb_spec size stop); intros [= <-]; unfold within; cbn; lia.
Qed.

Lemma parse_list_within specs size l :
  0 ≤ size → parse_list specs size = Ok l → Forall (within size) (omap id l).
Proof.
  intros Hs. revert l. induction specs as [|raw specs IH]; intros l; cbn [parse_list]; [by intros [= <-]|].
  intros (r & Hr & (rs & Hrs & [= <-])%res_bind_ok)%res_bind_ok. cbn.
  destruct r as [r|]; [|by apply IH]. constructor; [by eapply parse_range_within|by apply IH].
Qed.

Lemma parse_within header size rs : parseDownloadRanges header size = Ok rs → Forall (within size) rs.
Proof.
  unfold parseDownloadRanges. destruct (Z.ltb_spec size 0); [done|]. destruct (String.eqb _ _); [by intros [= <-]|].
  destruct (Cut _ _) as [[unit spec] []]; [|done]. destruct (negb _); [done|].
  intros (l & Hl & H1)%res_bind_ok. destruct (_ && _); [done|]. injection H1 as <-. by eapply parse_list_within.
Qed.

(** ** Lengths *)

Definition total_length (rs : list downloadRange) : Z := foldr (λ r n, r_length r + n) 0 rs.

Lemma r_length_within size r : within size r → 0 < r_length r ≤ size.
Proof. intros (? & ? & ?). unfold r_length. destruct (Z.ltb_spec (r_end r) (r_start r)); lia. Qed.
Lemma total_nonneg size rs : Forall (within size) rs → 0 ≤ total_length rs.
Proof.
  induction 1 as [|r rs Hr H IH]; cbn; [lia|]. pose proof (r_length_within size r Hr). unfold total_length in IH. lia.
Qed.

(** The abuse check is exact: no overflow hides an excess. *)
Lemma sizeExceeds_spec rs size total :
  Forall (within size) rs → 0 ≤ total ≤ size → size ≤ max_int64 →
  sizeExceeds rs size total = true ↔ size < total + total_length rs.
Proof.
  intros H. revert total. induction H as [|r rs Hr H IH]; intros total Ht Hs; cbn [sizeExceeds total_length foldr].
  { split; [done|lia]. }
  pose proof (r_length_within size r Hr) as Hl. pose proof (total_nonneg size rs H) as Hn.
  fold (total_length rs). rewrite (wrap64_id (size - total)) by (unfold min_int64, max_int64 in *; lia).
  destruct (Z.ltb_spec (size - total) (r_length r)) as [Hx|Hx]; [split; [lia|done]|].
  rewrite (wrap64_id (total + r_length r)) by (unfold min_int64, max_int64 in *; lia).
  rewrite IH by lia. split; lia.
Qed.

Lemma wrap64_add a b : wrap64 (wrap64 a + b) = wrap64 (a + b).
Proof.
  unfold wrap64. f_equal. replace ((a + 2^63) `mod` 2^64 - 2^63 + b + 2^63) with ((a + 2^63) `mod` 2^64 + b) by lia.
  rewrite Zplus_mod_idemp_l. f_equal. lia.
Qed.

(** Bytes of a multipart body. *)
Fixpoint parts_length (boundary ct : string) (size : Z) (first : bool) (rs : list downloadRange) : Z :=
  match rs with
  | [] => Z.of_nat (String.length (closing boundary))
  | r :: rs => Z.of_nat (String.length (part_header boundary ct size first r)) + r_length r
               + parts_length boundary ct size false rs
  end.

Lemma count_parts_spec boundary ct size first rs n :
  count_parts boundary ct size first rs n = wrap64 (n + parts_length boundary ct size first rs).
Proof.
  revert first n. induction rs as [|r rs IH]; intros first n; cbn [count_parts parts_length]; [done|].
  rewrite IH, wrap64_add. rewrite <- Z.add_assoc, wrap64_add. f_equal. lia.
Qed.

Lemma body_length_app l1 l2 : body_length (l1 ++ l2) = body_length l1 + body_length l2.
Proof.
  induction l1 as [|c l1 IH]; [done|].
  change (chunk_length c + body_length (l1 ++ l2) = chunk_length c + body_length l1 + body_length l2). lia.
Qed.

(** ** Streaming *)

(** A transport that reports success has written the whole span. *)
Definition faithful (e : env) : Prop := ∀ n r k, e_stream e n r = (k, None) → k = r_length r.

Lemma stream_ranges_spec e ct size multi rs n body calls x :
  faithful e → stream_ranges e ct size multi n rs = (body, calls, x) →
  (∃ k, calls = TStream <$> take k rs) ∧
  (x = None → calls = TStream <$> rs ∧
     body_length body = if multi then parts_length (e_boundary e) ct size (Nat.eqb n 0) rs else total_length rs).
Proof.
  intros Hf. revert n body calls x. induction rs as [|r rs IH]; intros n body calls x; cbn [stream_ranges].
  { intros H. assert (calls = []) as -> by (destruct multi; [destruct (e_close_parts e)|]; congruence).
    split; [by exists 0%nat|]. intros ->. split; [done|].
    destruct multi; [destruct (e_close_parts e); [done|]|]; injection H as <-;
      cbn [body_length foldr parts_length chunk_length total_length]; lia. }
  destruct (if multi then e_part e n else None) as [f|]; [intros [= <- <- <-]; split; [by exists 0%nat|done]|].
  destruct (e_stream e n r) as [sent [f|]] eqn:Hs; [intros [= <- <- <-]; split; [by exists 1%nat|done]|].
  destruct (stream_ranges _ _ _ _ _ _) as [[b c] y] eqn:Hrun. intros [= <- <- <-].
  destruct (IH _ _ _ _ Hrun) as [[k ->] H]. split; [by exists (S k)|]. intros ->. destruct (H eq_refl) as [-> Hl].
  split; [done|]. rewrite body_length_app. change (body_length (CData (r_start r) sent :: b)) with (sent + body_length b).
  rewrite Hl, (Hf _ _ _ Hs). change (Nat.eqb (S n) 0) with false.
  destruct multi; cbn [body_length foldr chunk_length parts_length total_length]; [lia|done].
Qed.

Lemma request_ranges_ok hash q task ranges :
  0 ≤ rr_FileSize task ≤ max_int64 → request_ranges hash q task = Ok ranges →
  Forall (within (rr_FileSize task)) ranges ∧ total_length ranges ≤ rr_FileSize task ∧ (is_head q = true → ranges = []).
Proof.
  intros Hs. unfold request_ranges.
  set (header := if _ : bool then "" else if is_head q then "" else q_range q). intros (rs & Hp & H)%res_bind_ok.
  assert (Hw : Forall (within (rr_FileSize task)) rs).
  { destruct (parseDownloadRanges header _) as [l|er] eqn:E; [injection Hp as <-; by eapply parse_within|].
    destruct (String.eqb er errNoOverlap && (rr_FileSize task =? 0)); [by injection Hp as <-|done]. }
  assert (Hh : is_head q = true → rs = []).
  { intros Hq. assert (header = "") as E by (unfold header; rewrite Hq; by destruct (_ && _)). rewrite E in Hp.
    unfold parseDownloadRanges in Hp. destruct (Z.ltb_spec (rr_FileSize task) 0); [lia|]. by injection Hp as <-. }
  unfold downloadRangesSizeExceeds in H. destruct (sizeExceeds _ _ _) eqn:E; injection H as <-; [split_and!; [done|cbn; lia|done]|].
  split_and!; [done| |done]. apply not_true_iff_false in E. rewrite sizeExceeds_spec in E by (done || lia). lia.
Qed.

(** ** The response *)

Section response.
Context (mime_type disposition hash : string → string).

Definition served (task : RangeResource) (ranges : list downloadRange) : list downloadRange :=
  if rr_FileSize task =? 0 then [] else if is_nil ranges then [mkRange 0 (rr_FileSize task - 1)] else ranges.

Lemma serve_body_spec e q task ranges rep calls :
  faithful e → Forall (within (rr_FileSize task)) ranges → 0 ≤ rr_FileSize task ≤ max_int64 →
  total_length ranges ≤ rr_FileSize task → (is_head q = true → ranges = []) →
  serve_body mime_type disposition hash e q task ranges = (rep, calls) →
  ∃ headers body, rep = RServe (if is_nil ranges then 200 else 206) headers body ∧
    (is_head q = true → body = [] ∧ calls = [] ∧ ("Content-Length", Itoa (rr_FileSize task)) ∈ headers) ∧
    ∃ k report, calls = (TStream <$> take k (served task ranges)) ++ report ∧
      (report = [] ∨ report = [TReport (served task ranges)] ∧ ("Content-Length", Itoa (wrap64 (body_length body))) ∈ headers).
Proof.
  intros Hf Hw Hs Ht Hh. unfold serve_body. destruct (response_head _ _ _ _ _ _) as [status headers] eqn:Hr.
  assert (Hst : status = (if is_nil ranges then 200 else 206)) by (by destruct ranges as [|? [|? ?]]; injection Hr as <- _).
  rewrite Hst. clear Hst. set (size := rr_FileSize task) in *.
  destruct (is_head q) eqn:Hq.
  { intros [= <- <-]. exists headers, []. split; [done|]. split; [|by exists 0%nat, []; auto]. intros _. split_and!; [done..|].
    rewrite (Hh eq_refl) in Hr. injection Hr as _ <-. set_solver. }
  unfold served. fold size. destruct (Z.eqb_spec size 0) as [E|E].
  { intros [= <- <-]. exists headers, []. split; [done|]. split; [done|]. exists 0%nat, [TReport []]. split; [done|]. right. split; [done|].
    destruct ranges as [|r ranges]; [|destruct (Forall_inv Hw) as (? & ? & ?); lia].
    injection Hr as _ <-. cbn [body_length foldr]. fold size. rewrite E. set_solver. }
  set (rs := match ranges with [] => [mkRange 0 (size - 1)] | _ :: _ => ranges end).
  assert (Hrs : (if is_nil ranges then [mkRange 0 (size - 1)] else ranges) = rs) by (by destruct ranges). rewrite Hrs.
  destruct (stream_ranges _ _ _ _ _ _) as [[body c] x] eqn:Hrun. intros [= <- <-].
  destruct (stream_ranges_spec _ _ _ _ _ _ _ _ _ Hf Hrun) as [[k Hk] Hx].
  exists headers, body. split; [done|]. split; [done|]. destruct x as [x|]; [exists k, []; split; [by rewrite Hk|by left]|].
  destruct (Hx eq_refl) as [-> Hl]. exists (length rs), [TReport rs]. split; [by rewrite firstn_all|]. right. split; [done|].
  rewrite Hl. destruct ranges as [|r [|r' ranges]]; injection Hr as _ <-.
  - cbn. unfold r_length. cbn. destruct (Z.ltb_spec (size - 1) 0); [lia|].
    rewrite wrap64_id by (unfold min_int64, max_int64 in *; lia). replace (size - 1 - 0 + 1 + 0) with size by lia. set_solver.
  - change (total_length rs) with (r_length r + 0). pose proof (r_length_within size r (Forall_inv Hw)).
    rewrite Z.add_0_r, wrap64_id by (unfold min_int64, max_int64 in *; lia). set_solver.
  - unfold multipartDownloadRangesSize. rewrite count_parts_spec. rewrite Z.add_0_l. set_solver.
Qed.

(** C32: A served download response tells the truth: its spans lie inside the
    file and together never exceed it, the status is 206 exactly when spans
    were selected, a body that was delivered completely is exactly as long as
    the Content-Length announced (modulo the width of the counter) and is
    what is reported, nothing is streamed outside the one lease, which is
    released, and HEAD gets the whole file's length and no body. *)
Theorem range_response e q task status headers body calls :
  e_open e = Ok (Some task) → 0 ≤ rr_FileSize task ≤ max_int64 → faithful e →
  serveHTTP mime_type disposition hash e q = (RServe status headers body, calls) →
  ∃ ranges, request_ranges hash q task = Ok ranges ∧
    Forall (within (rr_FileSize task)) ranges ∧ total_length ranges ≤ rr_FileSize task ∧
    status = (if is_nil ranges then 200 else 206) ∧
    (∀ spans, TReport spans ∈ calls →
       spans = served task ranges ∧ ("Content-Length", Itoa (wrap64 (body_length body))) ∈ headers) ∧
    (∀ r, TStream r ∈ calls → r ∈ served task ranges ∧ e_acquire e = None ∧
       ∃ l1 l2, calls = TReady :: TAcquire :: (l1 ++ (TRelease :: l2)) ∧ TStream r ∈ l1 ∧ (TRelease ∉ l1) ∧ l2 ⊆ [TClose]) ∧
    (is_head q = true → body = [] ∧ calls ⊆ [TClose] ∧ ("Content-Length", Itoa (rr_FileSize task)) ∈ headers).
Proof.
  intros Ho Hs Hf. unfold serveHTTP. destruct (negb _ && _); [done|].
  destruct (String.eqb _ "" || _); [done|]. rewrite Ho. destruct (Z.ltb_spec (rr_FileSize task) 0); [lia|].
  destruct (request_ranges hash q task) as [ranges|] eqn:Hreq; [|done].
  destruct (request_ranges_ok _ _ _ _ Hs Hreq) as (Hw & Ht & Hh).
  set (post := if e_closer e then [TClose] else []).
  assert (Hpost : post ⊆ [TClose]) by (unfold post; destruct (e_closer e); set_solver).
  destruct (serve_task _ _ _ _ _ _ _) as [rep l] eqn:Hrun. intros [= -> <-]. exists ranges. split; [done|].
  assert (Hbody : ∀ c, serve_body mime_type disposition hash e q task ranges = (RServe status headers body, c) →
    status = (if is_nil ranges then 200 else 206) ∧
    (is_head q = true → body = [] ∧ c = [] ∧ ("Content-Length", Itoa (rr_FileSize task)) ∈ headers) ∧
    ∃ k report, c = (TStream <$> take k (served task ranges)) ++ report ∧
      (report = [] ∨ report = [TReport (served task ranges)] ∧ ("Content-Length", Itoa (wrap64 (body_length body))) ∈ headers)).
  { intros c Hc. destruct (serve_body_spec _ _ _ _ _ _ Hf Hw Hs Ht Hh Hc) as (h & b & [= -> <- <-] & ?). done. }
  split; [done|]. split; [done|]. unfold serve_task in Hrun.
  destruct (negb (is_head q) && (0 <? rr_FileSize task)) eqn:Hget.
  - destruct (negb (rr_Available task)); [done|]. destruct (e_ready e); [by destruct (e_gone e)|].
    destruct (e_acquire e) as [f|] eqn:Hacq; [by destruct (fa_canceled f)|].
    destruct (serve_body _ _ _ _ _ _ _) as [rep c] eqn:Hc. injection Hrun as -> <-.
    destruct (Hbody c eq_refl) as (Hst & Hhead & k & report & -> & Hrep). split; [done|]. split_and!.
    + intros spans Hin. destruct Hrep as [->|[-> Hcl]]; [exfalso|].
      * rewrite app_nil_r in Hin. clear -Hin Hpost; set_solver.
      * split; [|done]. clear -Hin Hpost. set_solver.
    + intros r Hin. assert (TStream r ∈ TStream <$> take k (served task ranges)) as Hst'.
      { clear -Hrep Hin Hpost. destruct Hrep as [->|[-> _]]; set_solver. }
      split; [|split; [done|]].
      { apply list_elem_of_fmap in Hst' as (r' & [= <-] & Hr'). rewrite <- (take_drop k (served task ranges)).
        apply elem_of_app. by left. }
      exists ((TStream <$> take k (served task ranges)) ++ report), post. split_and!; [|set_solver| |done].
      * cbn. by rewrite <- !app_assoc.
      * clear -Hrep Hpost. destruct Hrep as [->|[-> _]]; set_solver.
    + intros Hq. rewrite Hq in Hget. done.
  - destruct (Hbody l Hrun) as (Hst & Hhead & k & report & -> & Hrep). split; [done|].
    assert (Hno : take k (served task ranges) = [] ∨ is_head q = true).
    { apply andb_false_iff in Hget as [Hq%negb_false_iff|Hz]; [by right|]. left. unfold served.
      destruct (Z.eqb_spec (rr_FileSize task) 0); [by destruct k|lia]. }
    split_and!.
    + intros spans Hin. destruct Hrep as [->|[-> Hcl]]; [exfalso|split; [|done]]; clear -Hin Hpost; set_solver.
    + intros r Hin. exfalso. destruct Hno as [E|Hq].
      * rewrite E in Hin. clear -Hin Hrep Hpost. destruct Hrep as [->|[-> _]]; set_solver.
      * destruct (Hhead Hq) as (_ & E & _). rewrite E in Hin. clear -Hin Hpost. set_solver.
    + intros Hq. destruct (Hhead Hq) as (-> & -> & Hcl). done.
Qed.
End response.

(** ** Witnesses *)

Definition demo_spans : list downloadRange := [mkRange 0 9; mkRange 20 29].
Definition demo_task : RangeResource := mkResource "t" "a.bin" 100 true.
Definition demo_env : env :=
  mkEnv (Ok (Some demo_task)) true "b" None false None (λ _, None) (λ _ r, (r_length r, None)) None.
Definition demo_request : request := mkRequest "GET" "/download/t" "bytes=0-9, 20-29" "".
Definition demo_reply := serveHTTP (λ _, "") (λ s, s) (λ s, s) demo_env demo_request.

Lemma range_roundtrip_witness : parseDownloadRanges "bytes=0-9,20-29" 100 = Ok demo_spans.
Proof.
  assert (H : Forall (within 100) demo_spans).
  { repeat apply Forall_cons_2; [unfold within; cbn; lia|unfold within; cbn; lia|apply Forall_nil_2]. }
  exact (range_roundtrip demo_spans 100 ltac:(discriminate) H ltac:(unfold max_int64; lia)).
Defined.

Lemma range_response_witness :
  demo_reply.2 = [TReady; TAcquire; TStream (mkRange 0 9); TStream (mkRange 20 29); TReport demo_spans; TRelease; TClose] ∧
  ∃ headers body, demo_reply.1 = RServe 206 headers body ∧
    ("Content-Length", Itoa (wrap64 (body_length body))) ∈ headers.
Proof.
  split; [vm_compute; reflexivity|]. destruct demo_reply as [rep calls] eqn:E.
  assert (Hc : calls = demo_reply.2) by (by rewrite E). vm_compute in Hc.
  destruct rep as [| |status headers body]; [vm_compute in E; discriminate..|].
  assert (Hs : status = 206) by (vm_compute in E; congruence). subst status. exists headers, body. split; [done|].
  destruct (range_response (λ _, "") (λ s, s) (λ s, s) demo_env demo_request demo_task 206 headers body calls
    eq_refl ltac:(unfold max_int64; cbn; lia) ltac:(intros n r k [= <-]; reflexivity) E)
    as (ranges & _ & _ & _ & _ & Hreport & _).
  destruct (Hreport demo_spans) as [_ H]; [|exact H]. rewrite Hc. do 4 apply list_elem_of_further. apply list_elem_of_here.
Defined.
