(* ===== verification/TargetPath.v ===== *)
(** * Download target paths (rte/targetpath/path.go)

    Splitting, limiting and joining of target paths, on byte strings, with
    the functions of [path/filepath] as they are on Unix.  [filenamify] is a
    parameter. *)

From Stdlib Require Import Ascii.
From S2P Require Import Prelude Strings Storage.
Local Open Scope list_scope.

Definition slash : ascii := "/".
Definition backslash : ascii := "\".
Definition is_sep (a : ascii) : bool := Ascii.eqb a slash || Ascii.eqb a backslash.

(** ** Byte strings *)

Fixpoint take_str (n : nat) (s : string) : string :=
  match n, s with
  | S n, String a s => String a (take_str n s)
  | _, _ => ""
  end.

(** The text after the last byte satisfying [p], and what precedes it with
    that byte; [None] without one. *)
Fixpoint split_last (p : ascii → bool) (s : string) : option (string * string) :=
  match s with
  | EmptyString => None
  | String a s' =>
      match split_last p s' with
      | Some (before, after) => Some (String a before, after)
      | None => if p a then Some (String a EmptyString, s') else None
      end
  end.

(** [strings.FieldsFunc] for a predicate on ASCII bytes. *)
Fixpoint fields_aux (p : ascii → bool) (s : string) (cur : string) : list string :=
  match s with
  | EmptyString => if String.eqb cur "" then [] else [rev_str cur]
  | String a s' =>
      if p a then if String.eqb cur "" then fields_aux p s' "" else rev_str cur :: fields_aux p s' ""
      else fields_aux p s' (String a cur)
  end.
Definition FieldsFunc (p : ascii → bool) (s : string) : list string := fields_aux p s "".

Fixpoint trim_left_set (p : ascii → bool) (s : string) : string :=
  match s with String a s' => if p a then trim_left_set p s' else s | EmptyString => "" end.
Definition TrimRight (p : ascii → bool) (s : string) : string := rev_str (trim_left_set p (rev_str s)).
Definition Trim (p : ascii → bool) (s : string) : string := TrimRight p (trim_left_set p s).

Fixpoint Join (l : list string) (sep : string) : string :=
  match l with
  | [] => ""
  | [x] => x
  | x :: l => x +:+ sep +:+ Join l sep
  end.

(** [filepath.Ext]: from the last dot of the last element. *)
Fixpoint ext_aux (s : string) : string :=
  match s with
  | EmptyString => ""
  | String a s' =>
      let e := ext_aux s' in
      if negb (String.eqb e "") then e
      else if Ascii.eqb a "." && negb (contains_char slash s') then s else ""
  end.
Definition Ext (s : string) : string := ext_aux s.
(** [strings.TrimSuffix], for a suffix that is there. *)
Definition TrimSuffix (s suffix : string) : string := take_str (String.length s - String.length suffix) s.

(** [filepath.Clean] *)
Fixpoint clean_parts (rooted : bool) (l out : list string) : list string :=
  match l with
  | [] => rev out
  | x :: l =>
      if String.eqb x "" || String.eqb x "." then clean_parts rooted l out
      else if String.eqb x ".." then
        match out with
        | y :: out' => if String.eqb y ".." then clean_parts rooted l (x :: out) else clean_parts rooted l out'
        | [] => if rooted then clean_parts rooted l [] else clean_parts rooted l [x]
        end
      else clean_parts rooted l (x :: out)
  end.
Definition Clean (path : string) : string :=
  let rooted := HasPrefix path "/" in
  let joined := Join (clean_parts rooted (FieldsFunc (Ascii.eqb slash) path) []) "/" in
  if rooted then "/" +:+ joined else if String.eqb joined "" then "." else joined.
(** [filepath.Dir] *)
Definition Dir (path : string) : string :=
  match split_last (Ascii.eqb slash) path with Some (before, _) => Clean before | None => "." end.

(** ** UTF-8

    Width of the rune a string starts with, and [utf8.RuneLen] of what a
    [range] loop yields for it: an invalid byte counts 1 and yields U+FFFD, of
    length 3. *)

Definition between (lo hi : Z) (a : ascii) : bool := (lo <=? byte a) && (byte a <=? hi).
Definition cont : ascii → bool := between 0x80 0xBF.
Definition second3 (a b : ascii) : bool :=
  if byte a =? 0xE0 then between 0xA0 0xBF b else if byte a =? 0xED then between 0x80 0x9F b else cont b.
Definition second4 (a b : ascii) : bool :=
  if byte a =? 0xF0 then between 0x90 0xBF b else if byte a =? 0xF4 then between 0x80 0x8F b else cont b.
Definition rune_width (s : string) : option (nat * bool) :=
  match s with
  | EmptyString => None
  | String a s1 =>
      if byte a <? 0x80 then Some (1%nat, true)
      else if between 0xC2 0xDF a then
        match s1 with String b _ => Some (if cont b then (2%nat, true) else (1%nat, false)) | _ => Some (1%nat, false) end
      else if between 0xE0 0xEF a then
        match s1 with
        | String b (String c _) => Some (if second3 a b && cont c then (3%nat, true) else (1%nat, false))
        | _ => Some (1%nat, false)
        end
      else if between 0xF0 0xF4 a then
        match s1 with
        | String b (String c (String d _)) =>
            Some (if second4 a b && cont c && cont d then (4%nat, true) else (1%nat, false))
        | _ => Some (1%nat, false)
        end
      else Some (1%nat, false)
  end.
Definition rune_len (w : nat * bool) : Z := if w.2 then Z.of_nat w.1 else 3.

(** ** Limits *)

(** The [range] loop from [s] on; every round consumes a byte. *)
Fixpoint trunc_loop (fuel : nat) (s : string) (n max : Z) : Z :=
  match fuel with
  | O => n
  | S fuel =>
      match rune_width s with
      | None => n
      | Some w => if max <? n + rune_len w then n else trunc_loop fuel (drop_str w.1 s) (n + rune_len w) max
      end
  end.
Definition str_len (s : string) : Z := Z.of_nat (String.length s).
Definition TruncateBytesKeepingRunes (s : string) (maxBytes : Z) : string :=
  if str_len s <=? maxBytes then s
  else take_str (Z.to_nat (trunc_loop (String.length s) s 0 maxBytes)) s.

Definition LimitFileNameSegmentBytes (name : string) (maxBytes : Z) : string :=
  if maxBytes <=? 0 then ""
  else if str_len name <=? maxBytes then name
  else
    let ext := Ext name in
    if negb (String.eqb ext "") && (str_len ext <? maxBytes)
    then TruncateBytesKeepingRunes (TrimSuffix name ext) (maxBytes - str_len ext) +:+ ext
    else TruncateBytesKeepingRunes name maxBytes.

Definition SplitRenderedNameLeaf (rendered : string) : string * string :=
  match split_last is_sep rendered with Some (prefix, leaf) => (prefix, leaf) | None => ("", rendered) end.
Definition RenderedNameLeafByteLen (rendered : string) : Z := str_len (SplitRenderedNameLeaf rendered).2.
Definition LimitRenderedNameLeafBytes (rendered : string) (maxBytes : Z) : string :=
  let '(prefix, leaf) := SplitRenderedNameLeaf rendered in
  prefix +:+ LimitFileNameSegmentBytes leaf maxBytes.

(** ** Joining *)

Definition is_letter (a : ascii) : bool := between 65 90 a || between 97 122 a.
Definition LooksWindowsPath (path : string) : bool :=
  if HasPrefix path "\\" then true
  else match path with
       | String d (String c (String s _)) => is_letter d && Ascii.eqb c ":" && is_sep s
       | _ => false
       end.
Definition TargetPathSeparator (base : string) : string := if LooksWindowsPath base then "\" else "/".

Definition skipped (part : string) : bool := String.eqb part "" || String.eqb part "." || String.eqb part "..".

Definition SplitPathParts (value : string) : list string :=
  filter (λ x, skipped x = false) (TrimSpace <$> FieldsFunc is_sep value).

Definition JoinTargetPath (originalBase : string) (parts : list string) : string :=
  let sep := TargetPathSeparator originalBase in
  let base := TrimRight is_sep originalBase in
  let base := if String.eqb base "" && HasPrefix originalBase "/" then "/" else base in
  let cleanParts := filter (λ x, skipped x = false) (Trim is_sep <$> parts) in
  if String.eqb base "/" then
    match cleanParts with [] => "/" | _ => "/" +:+ Join cleanParts "/" end
  else Join ((if String.eqb base "" then [] else [base]) ++ cleanParts) sep.

Definition PathCleanSlash (path : string) : string :=
  let clean := Join (SplitPathParts path) "/" in
  if HasPrefix path "/" then "/" +:+ clean else if String.eqb clean "" then "." else clean.
Definition CleanTargetRoot (root : string) : string :=
  let root := TrimSpace root in
  if String.eqb root "" then "" else if LooksWindowsPath root then Clean root else PathCleanSlash root.

Section safe.
(** [filenamify.FilenamifyV2] *)
Context (filenamify : string → option string).

Definition SafePathSegment (value : string) : string :=
  let value := TrimSpace value in
  if String.eqb value "" then ""
  else match filenamify value with
       | None => "invalid-filename"
       | Some safe => if String.eqb safe "" then "invalid-filename" else safe
       end.

(** Directory, file name and full path. *)
Definition ResolveTargetPath (baseDir renderedName : string) : string * string * string :=
  match last (SplitPathParts renderedName) with
  | None =>
      let out := SafePathSegment renderedName in
      (baseDir, out, JoinTargetPath baseDir [out])
  | Some out =>
      let parts := SplitPathParts renderedName in
      let dir := match parts with
                 | [_] => baseDir
                 | _ => JoinTargetPath baseDir (removelast parts)
                 end in
      (dir, out, JoinTargetPath dir [out])
  end.
End safe.
