(* ===== verification/Naming.v ===== *)
(** * Directory and file names (application/naming.rules)

    Rendering of the directory template, the length limits of message titles
    and file names, and the suffixes that keep the names of one batch apart.
    The parsed [text/template] of file names, [filenamify], the table of Han
    runes and Unicode lower-casing are parameters. *)

From Stdlib Require Import Ascii.
From S2P Require Import Prelude Strings Storage TargetPath.
Local Open Scope list_scope.

(** ** Runes

    A rune is kept as its encoding; invalid bytes read as U+FFFD. *)

Definition rune_error : string := String (ascii_of_nat 239) (String (ascii_of_nat 191) (String (ascii_of_nat 189) "")).
Fixpoint runes_loop (fuel : nat) (s : string) : list string :=
  match fuel with
  | O => []
  | S fuel =>
      match rune_width s with
      | None => []
      | Some w => (if w.2 then take_str w.1 s else rune_error) :: runes_loop fuel (drop_str w.1 s)
      end
  end.
Definition runes (s : string) : list string := runes_loop (String.length s) s.
Definition of_runes (l : list string) : string := foldr String.append "" l.

(** ** Message titles (directory.go) *)

Definition safeMessageTitleMaxRunes : Z := 80.
Definition safeMessageTitleHeadRunes : Z := 48.
Definition safeMessageTitleTailRunes : Z := 30.
Definition safeMessageTitleMarker : string := "...".

Definition len {A} (l : list A) : Z := Z.of_nat (length l).
Definition first_runes (n : Z) (l : list string) : string := of_runes (take (Z.to_nat n) l).
Definition last_runes (n : Z) (l : list string) : string := of_runes (drop (Z.to_nat (len l - n)) l).

Definition limitFileNameRunes (l : list string) (maxRunes : Z) : string :=
  if (maxRunes <=? 0) || is_nil l then ""
  else if len l <=? maxRunes then of_runes l
  else
    let marker := 3 in
    if maxRunes <=? marker + 1 then first_runes maxRunes l
    else
      let available := maxRunes - marker in
      let tail := Z.min safeMessageTitleTailRunes (available / 2) in
      let head := Z.min safeMessageTitleHeadRunes (available - tail) in
      let head := if head + tail <? available then head + (available - head - tail) else head in
      first_runes head l +:+ safeMessageTitleMarker +:+ last_runes tail l.

Section naming.
Context (filenamify : string → option string).
(** [unicode.Is(unicode.Han, r)] and [strings.ToLower]. *)
Context (is_han : string → bool) (to_lower : string → string).

Definition isMessageTitleFilenameRune (r : string) : bool :=
  match r with
  | String a EmptyString => between 97 122 a || between 65 90 a || between 48 57 a
  | _ => is_han r
  end.

Definition safeMessageTitleSegmentWithMax (value : string) (maxRunes : Z) : string :=
  if maxRunes <=? 0 then ""
  else
    let value := TrimSpace value in
    let kept := filter (λ r, isMessageTitleFilenameRune r = true) (runes value) in
    if String.eqb value "" || is_nil kept then limitFileNameRunes (runes "untitled") maxRunes
    else limitFileNameRunes kept maxRunes.
Definition safeMessageTitleSegment (value : string) : string :=
  safeMessageTitleSegmentWithMax value safeMessageTitleMaxRunes.

(** ** Directories (directory.go) *)

(** The date is the one [time.Time] gives in its location. *)
Record downloadDirData := mkDirData {
  dd_ID : string; dd_Name : string; dd_MessageTitle : string; dd_MessageID : string;
  dd_TriggerMessageID : string; dd_FileName : string; dd_AlbumID : string;
  dd_Year : Z; dd_Month : Z; dd_Day : Z;
}.

(** [%0wd] for a number that is not negative. *)
Definition pad (w : nat) (z : Z) : string :=
  let s := Itoa z in of_runes (replicate (w - String.length s) "0") +:+ s.

Definition downloadTemplateValue (r : string) (d : downloadDirData) : option string :=
  if String.eqb r "F" then Some (TrimSuffix (dd_FileName d) (Ext (dd_FileName d)))
  else if String.eqb r "I" then Some (safeMessageTitleSegment (dd_MessageTitle d))
  else if String.eqb r "G" then Some (dd_Name d)
  else if String.eqb r "P" then Some (dd_ID d)
  else if String.eqb r "S" then Some (dd_MessageID d)
  else if String.eqb r "R" then Some (dd_TriggerMessageID d)
  else if String.eqb r "A" then Some (dd_AlbumID d)
  else if String.eqb r "Y" then Some (pad 4 (dd_Year d))
  else if String.eqb r "M" then Some (pad 2 (dd_Month d))
  else if String.eqb r "D" then Some (pad 2 (dd_Day d))
  else None.

Definition renderDownloadDirSegment (segment : string) (d : downloadDirData) : string :=
  of_runes ((λ r, if String.eqb r "&" then "" else default r (downloadTemplateValue r d)) <$> runes segment).

Definition renderDownloadDir (pattern : string) (d : downloadDirData) : list string :=
  let pattern := TrimSpace pattern in
  if String.eqb pattern "" then []
  else filter (λ x, x ≠ "") ((λ raw, SafePathSegment filenamify (renderDownloadDirSegment raw d)) <$> SplitPathParts pattern).

(** ** File names (filename.go) *)

Definition HasSuffix (s p : string) : bool := HasPrefix (rev_str s) (rev_str p).

(** [strings.ReplaceAll(s, cc, c)] for a byte [c]. *)
Fixpoint halve (c : ascii) (s : string) : string :=
  match s with
  | String a s1 =>
      match s1 with
      | String b s2 => if Ascii.eqb a c && Ascii.eqb b c then String c (halve c s2) else String a (halve c s1)
      | EmptyString => s
      end
  | EmptyString => ""
  end.
Fixpoint has_pair (c : ascii) (s : string) : bool :=
  match s with
  | String a (String b _ as s1) => (Ascii.eqb a c && Ascii.eqb b c) || has_pair c s1
  | _ => false
  end.
(** [for strings.Contains(leaf, cc)]; every round shortens the text. *)
Fixpoint collapse (fuel : nat) (c : ascii) (s : string) : string :=
  match fuel with
  | O => s
  | S fuel => if has_pair c s then collapse fuel c (halve c s) else s
  end.
Definition collapsed (c : ascii) (s : string) : string := collapse (String.length s) c s.

Definition appendExt (ext s : string) : string :=
  let '(prefix, leaf) := SplitRenderedNameLeaf s in
  let s := prefix +:+ collapsed "_" (collapsed "-" leaf) in
  if negb (String.eqb ext "") && negb (HasSuffix s ext) then s +:+ ext else s.

Definition filenameHardMaxBytes : Z := 255.
Definition max_bytes (configured : Z) : Z :=
  if (configured <=? 0) || (filenameHardMaxBytes <? configured) then filenameHardMaxBytes else configured.

(** The template applied to the data of one file, given the shortened title. *)
Section file.
Context (execute : string → res err string).

Definition render (title ext : string) (titleMax : Z) : res err string :=
  s ← execute (safeMessageTitleSegmentWithMax title titleMax); Ok (appendExt ext s).

(** The binary search for the longest title that fits. *)
Fixpoint search (fuel : nat) (title ext : string) (maxBytes low high : Z) (best : option string) : res err (option string) :=
  match fuel with
  | O => Ok best
  | S fuel =>
      if high <? low then Ok best
      else
        let mid := (low + high) / 2 in
        candidate ← render title ext mid;
        if RenderedNameLeafByteLen candidate <=? maxBytes
        then search fuel title ext maxBytes (mid + 1) high (Some candidate)
        else search fuel title ext maxBytes low (mid - 1) best
  end.
Definition search_fuel : nat := 82.

Definition renderFileName (hasI : bool) (configured : Z) (fileName title : string) : res err string :=
  let ext := Ext fileName in
  rendered ← render title ext safeMessageTitleMaxRunes;
  let maxBytes := max_bytes configured in
  if RenderedNameLeafByteLen rendered <=? maxBytes then Ok rendered
  else
    found ← (if hasI then search search_fuel title ext maxBytes 0 safeMessageTitleMaxRunes None else Ok None);
    match found with
    | Some best => Ok best
    | None => Ok (LimitRenderedNameLeafBytes rendered maxBytes)
    end.
End file.

(** ** Keeping the names of a batch apart (unique.go) *)

Record NamingResult := mkNaming {
  n_FileName : string; n_Dir : string; n_Out : string; n_FullPath : string; n_MaxBytes : Z }.

(** [Rules.Render], once the file name is rendered. *)
Definition Render (directory baseDir name : string) (d : downloadDirData) (maxBytes : Z) : NamingResult :=
  let base := JoinTargetPath baseDir (renderDownloadDir directory d) in
  let '(dir, out, full) := ResolveTargetPath filenamify base name in
  mkNaming name dir out full maxBytes.

Definition unique_key (dir candidate : string) : string := to_lower (Clean (JoinTargetPath dir [candidate])).

Definition suffix (sequence : Z) : string := " (" +:+ Itoa sequence +:+ ")".
(** The candidate of a sequence number, [None] when the limit cannot hold the
    suffix and the extension. *)
Definition next_candidate (original : string) (maximum sequence : Z) : option string :=
  let ext := Ext original in
  let rest := str_len (suffix sequence) + str_len ext in
  if maximum <? rest then None
  else Some (TruncateBytesKeepingRunes (TrimSuffix original ext) (maximum - str_len (suffix sequence) - str_len ext)
             +:+ suffix sequence +:+ ext).

(** [for sequence := 2; ; sequence++]; every round but the last meets a used
    key, and only the first can repeat the key of another. *)
Fixpoint pick_name (fuel : nat) (used : gset string) (dir original candidate : string) (maximum sequence : Z)
    : res err string :=
  match fuel with
  | O => Err ErrNotFound
  | S fuel =>
      if bool_decide (unique_key dir candidate ∈ used) then
        match next_candidate original maximum sequence with
        | None => Err (ErrMsg "filename byte limit cannot fit a conflict suffix and extension")
        | Some candidate => pick_name fuel used dir original candidate maximum (sequence + 1)
        end
      else Ok candidate
  end.

Definition unique_one (maxBytes : Z) (used : gset string) (r : NamingResult) : res err (NamingResult * gset string) :=
  let maximum := if (n_MaxBytes r <=? 0) || (255 <? n_MaxBytes r) then maxBytes else n_MaxBytes r in
  name ← pick_name (S (S (size used))) used (n_Dir r) (n_Out r) (n_Out r) maximum 2;
  let full := JoinTargetPath (n_Dir r) [name] in
  let '(prefix, _) := SplitRenderedNameLeaf (n_FileName r) in
  Ok (mkNaming (prefix +:+ name) (n_Dir r) name full (n_MaxBytes r), {[unique_key (n_Dir r) name]} ∪ used).

Fixpoint unique_loop (maxBytes : Z) (input : list NamingResult) (used : gset string) : res err (list NamingResult) :=
  match input with
  | [] => Ok []
  | r :: input =>
      '(r, used) ← unique_one maxBytes used r;
      rest ← unique_loop maxBytes input used;
      Ok (r :: rest)
  end.
(** [ctx.Err()] is taken once. *)
Definition Unique (maxBytes : Z) (canceled : bool) (input : list NamingResult) : res err (list NamingResult) :=
  if canceled && negb (is_nil input) then Err ErrCanceled else unique_loop maxBytes input ∅.
End naming.
