(* ===== verification/NamingProps.v ===== *)
(** * Properties of target paths and names *)

From Stdlib Require Import Ascii.
From S2P Require Import Prelude Strings Storage StringFacts TargetPath Naming.
Local Open Scope list_scope.
Local Arguments Ascii.eqb : simpl never.
Local Arguments String.append !_ _ /.

(** ** Cutting *)

Lemma take_drop_str n s : take_str n s +:+ drop_str n s = s.
Proof. revert s. induction n as [|n IH]; intros [|a s]; try done. exact (f_equal (String a) (IH s)). Qed.

Lemma take_str_length n s : (n ≤ String.length s)%nat → String.length (take_str n s) = n.
Proof. revert s. induction n as [|n IH]; intros [|a s]; cbn; try lia. intros H. rewrite IH; lia. Qed.

Lemma str_length_app s1 s2 : String.length (s1 +:+ s2) = (String.length s1 + String.length s2)%nat.
Proof. induction s1 as [|a s1 IH]; [done|]. exact (f_equal S IH). Qed.
Lemma str_len_app s1 s2 : str_len (s1 +:+ s2) = str_len s1 + str_len s2.
Proof. unfold str_len. rewrite str_length_app. lia. Qed.
Lemma str_len_nonneg s : 0 ≤ str_len s.
Proof. unfold str_len. lia. Qed.

Lemma all_chars_take P n s : all_chars P s = true → all_chars P (take_str n s) = true.
Proof.
  intros H. rewrite <- (take_drop_str n s) in H. rewrite all_chars_app in H. by apply andb_true_iff in H as [? _].
Qed.

Lemma ext_suffix s : ∃ p, s = p +:+ Ext s.
Proof.
  unfold Ext. induction s as [|a s [p IH]]; [by exists ""|]. cbn [ext_aux].
  destruct (String.eqb_spec (ext_aux s) "") as [E|E]; cbn [negb].
  - destruct (Ascii.eqb a "." && _); [by exists ""|]. exists (String a s). by rewrite str_app_nil.
  - exists (String a p). exact (f_equal (String a) IH).
Qed.

Lemma take_str_app p t : take_str (String.length p) (p +:+ t) = p.
Proof. induction p as [|a p IH]; [by destruct t|]. exact (f_equal (String a) IH). Qed.
Lemma TrimSuffix_app p e : TrimSuffix (p +:+ e) e = p.
Proof.
  unfold TrimSuffix. rewrite str_length_app.
  replace (String.length p + String.length e - String.length e)%nat with (String.length p) by lia. apply take_str_app.
Qed.
Lemma trim_suffix s : s = TrimSuffix s (Ext s) +:+ Ext s.
Proof.
  destruct (ext_suffix s) as [p Hp]. pose proof (TrimSuffix_app p (Ext s)) as E. rewrite <- Hp in E. by rewrite E.
Qed.

(** ** Truncation *)

Lemma rune_width_bounds s w : rune_width s = Some w → (1 ≤ w.1)%nat ∧ (w.2 = true → (w.1 ≤ String.length s)%nat) ∧ 1 ≤ rune_len w.
Proof.
  unfold rune_width. destruct s as [|a [|b [|c [|d s]]]]; [done|..];
    repeat match goal with |- context [if ?b then _ else _] => destruct b end; intros [= <-]; cbn; lia.
Qed.

Lemma trunc_loop_bounds fuel s n max : n ≤ max → n ≤ trunc_loop fuel s n max ≤ max.
Proof.
  revert s n. induction fuel as [|fuel IH]; intros s n Hn; cbn [trunc_loop]; [lia|].
  destruct (rune_width s) as [w|] eqn:Hw; [|lia]. destruct (rune_width_bounds s w Hw) as (_ & _ & H).
  destruct (Z.ltb_spec max (n + rune_len w)); [lia|]. specialize (IH (drop_str w.1 s) (n + rune_len w)). lia.
Qed.

Lemma truncate_len s max : 0 ≤ max → str_len (TruncateBytesKeepingRunes s max) ≤ max.
Proof.
  intros Hm. unfold TruncateBytesKeepingRunes. destruct (Z.leb_spec (str_len s) max) as [|Hl]; [done|].
  pose proof (trunc_loop_bounds (String.length s) s 0 max Hm) as H. unfold str_len in *. rewrite take_str_length; lia.
Qed.

Lemma truncate_prefix s max : ∃ n, TruncateBytesKeepingRunes s max = take_str n s.
Proof.
  unfold TruncateBytesKeepingRunes. destruct (_ <=? _); [|eauto]. exists (String.length s).
  induction s as [|a s IH]; [done|]. exact (f_equal (String a) IH).
Qed.

(** Text that is a sequence of valid runes. *)
Inductive utf8 : string → Prop :=
  | utf8_nil : utf8 ""
  | utf8_rune s w : rune_width s = Some (w, true) → utf8 (drop_str w s) → utf8 s.

(** A rune is recognised by its own bytes. *)
Lemma rune_width_self s w t : rune_width s = Some (w, true) →
  rune_width (take_str w s +:+ t) = Some (w, true) ∧ drop_str w (take_str w s +:+ t) = t.
Proof.
  unfold rune_width. destruct s as [|a [|b [|c [|d s]]]]; [done|..];
    repeat match goal with |- context [if ?b then _ else _] => destruct b eqn:? end; intros [= <-];
    cbn [take_str drop_str String.append];
    repeat match goal with H : _ = true |- _ => rewrite H | H : _ = false |- _ => rewrite H end; by destruct t.
Qed.

Lemma utf8_app s t : utf8 s → utf8 t → utf8 (s +:+ t).
Proof.
  intros Hs Ht. induction Hs as [|s w Hw Hd IH]; [done|]. destruct (rune_width_self s w (drop_str w s +:+ t) Hw) as [H1 H2].
  rewrite <- (take_drop_str w s), str_app_assoc. by eapply utf8_rune; [exact H1|rewrite H2].
Qed.

(** On valid text the cut falls between two runes and as late as possible. *)
Lemma trunc_loop_utf8 fuel s n max : utf8 s → (String.length s ≤ fuel)%nat → 0 ≤ n →
  ∃ p t, s = p +:+ t ∧ utf8 p ∧ utf8 t ∧ trunc_loop fuel s n max = n + str_len p ∧
    (t = "" ∨ ∃ w, rune_width t = Some (w, true) ∧ max < n + str_len p + Z.of_nat w).
Proof.
  intros Hs. revert fuel n. induction Hs as [|s w Hw Hd IH]; intros fuel n Hf Hn.
  { exists "", "". split_and!; [done|apply utf8_nil|apply utf8_nil|unfold str_len; destruct fuel; cbn; lia|by left]. }
  destruct (rune_width_bounds s _ Hw) as (H1 & H2 & _). cbn in H1, H2. specialize (H2 eq_refl).
  destruct fuel as [|fuel]; [lia|]. cbn [trunc_loop]. rewrite Hw. unfold rune_len. cbn [fst snd].
  assert (Hl : String.length s = (w + String.length (drop_str w s))%nat).
  { rewrite <- (take_drop_str w s) at 1. rewrite str_length_app, take_str_length; lia. }
  destruct (Z.ltb_spec max (n + Z.of_nat w)).
  { exists "", s. split_and!; [done|apply utf8_nil|by apply (utf8_rune s w)|unfold str_len; cbn; lia|]. right. exists w. split; [done|]. unfold str_len; cbn. lia. }
  destruct (IH fuel (n + Z.of_nat w)) as (p & t & Hp & U1 & U2 & E & Hm); [lia|lia|].
  assert (Hsplit : s = (take_str w s +:+ p) +:+ t) by (by rewrite str_app_assoc, <- Hp, take_drop_str).
  assert (Hlen : str_len (take_str w s +:+ p) = Z.of_nat w + str_len p).
  { rewrite str_len_app. unfold str_len at 1. rewrite take_str_length by lia. done. }
  exists (take_str w s +:+ p), t. split_and!; [done| |done|rewrite E, Hlen; lia|].
  - destruct (rune_width_self s w p Hw) as [R1 R2]. apply (utf8_rune _ w); [exact R1|]. by rewrite R2.
  - destruct Hm as [|(w' & ? & ?)]; [by left|]. right. exists w'. split; [done|]. lia.
Qed.

Lemma truncate_utf8 s max : utf8 s →
  ∃ t, s = TruncateBytesKeepingRunes s max +:+ t ∧ utf8 (TruncateBytesKeepingRunes s max) ∧
    (t = "" ∨ ∃ w, rune_width t = Some (w, true) ∧ max < str_len (TruncateBytesKeepingRunes s max) + Z.of_nat w).
Proof.
  intros Hs. unfold TruncateBytesKeepingRunes. destruct (Z.leb_spec (str_len s) max).
  { exists "". rewrite str_app_nil. auto. }
  destruct (trunc_loop_utf8 (String.length s) s 0 max Hs ltac:(lia) ltac:(lia)) as (p & t & Hp & U1 & U2 & -> & Hm).
  replace (Z.to_nat (0 + str_len p)) with (String.length p) by (unfold str_len; lia).
  assert (E : take_str (String.length p) s = p) by (rewrite Hp; apply take_str_app). rewrite E.
  exists t. split_and!; [done|done|]. destruct Hm as [|(w & ? & ?)]; [by left|]. right. exists w. split; [done|lia].
Qed.

(** ** Leaves *)

Definition nosep (a : ascii) : bool := negb (is_sep a).

Lemma split_last_spec p s :
  match split_last p s with
  | Some (before, after) => s = before +:+ after ∧ all_chars (λ a, negb (p a)) after = true ∧
      ∃ q a, before = q +:+ String a "" ∧ p a = true
  | None => all_chars (λ a, negb (p a)) s = true
  end.
Proof.
  induction s as [|a s IH]; [done|]. cbn [split_last]. destruct (split_last p s) as [[before after]|].
  - destruct IH as (-> & H & q & x & -> & Hx). split_and!; [done|done|]. by exists (String a q), x.
  - destruct (p a) eqn:Ha; [|by cbn; rewrite Ha, IH]. split_and!; [done|done|]. by exists "", a.
Qed.

Lemma split_last_none p s : all_chars (λ a, negb (p a)) s = true → split_last p s = None.
Proof.
  induction s as [|a s IH]; [done|]. cbn. intros [Ha%negb_true_iff H]%andb_true_iff. by rewrite IH, Ha.
Qed.
Lemma split_last_app p q a s : p a = true → all_chars (λ a, negb (p a)) s = true →
  split_last p (q +:+ String a s) = Some (q +:+ String a "", s).
Proof.
  intros Ha Hs. induction q as [|x q IH].
  - cbn. by rewrite (split_last_none p s Hs), Ha.
  - change (split_last p (String x (q +:+ String a s)) = Some (String x (q +:+ String a ""), s)).
    cbn [split_last]. by rewrite IH.
Qed.

(** Replacing the leaf by other text without separators. *)
Lemma split_leaf rendered leaf : all_chars nosep leaf = true →
  SplitRenderedNameLeaf ((SplitRenderedNameLeaf rendered).1 +:+ leaf) = ((SplitRenderedNameLeaf rendered).1, leaf).
Proof.
  intros Hl. unfold SplitRenderedNameLeaf at 2 3. pose proof (split_last_spec is_sep rendered) as H.
  destruct (split_last is_sep rendered) as [[before after]|]; cbn.
  - destruct H as (_ & _ & q & a & -> & Ha). unfold SplitRenderedNameLeaf. rewrite str_app_assoc.
    change (String a "" +:+ leaf) with (String a leaf). by rewrite (split_last_app is_sep q a leaf Ha Hl).
  - unfold SplitRenderedNameLeaf. by rewrite (split_last_none is_sep leaf Hl).
Qed.

Lemma leaf_nosep rendered : all_chars nosep (SplitRenderedNameLeaf rendered).2 = true.
Proof.
  unfold SplitRenderedNameLeaf. pose proof (split_last_spec is_sep rendered) as H.
  destruct (split_last is_sep rendered) as [[before after]|]; [apply H|exact H].
Qed.
Lemma leaf_whole rendered : rendered = (SplitRenderedNameLeaf rendered).1 +:+ (SplitRenderedNameLeaf rendered).2.
Proof.
  unfold SplitRenderedNameLeaf. pose proof (split_last_spec is_sep rendered) as H.
  destruct (split_last is_sep rendered) as [[before after]|]; [apply H|done].
Qed.

Lemma limit_segment name max : 0 < max →
  str_len (LimitFileNameSegmentBytes name max) ≤ max ∧
  (all_chars nosep name = true → all_chars nosep (LimitFileNameSegmentBytes name max) = true).
Proof.
  intros Hm. unfold LimitFileNameSegmentBytes. destruct (Z.leb_spec max 0); [lia|].
  destruct (Z.leb_spec (str_len name) max) as [|Hl]; [done|]. destruct (negb _ && _) eqn:He.
  - apply andb_true_iff in He as [_ He%Z.ltb_lt].
    destruct (truncate_prefix (TrimSuffix name (Ext name)) (max - str_len (Ext name))) as [n Hn]. split.
    + rewrite str_len_app. pose proof (truncate_len (TrimSuffix name (Ext name)) (max - str_len (Ext name)) ltac:(lia)). lia.
    + rewrite (trim_suffix name) at 1. rewrite !all_chars_app, Hn, !andb_true_iff. intros [H1 H2].
      split; [by apply all_chars_take|done].
  - split; [apply truncate_len; lia|]. destruct (truncate_prefix name max) as [n ->]. apply all_chars_take.
Qed.

(** ** The length of a rendered file name *)

Section file.
Context (is_han : string → bool) (execute : string → res err string).

Lemma search_fits fuel title ext max low high best found :
  search is_han execute fuel title ext max low high best = Ok found →
  (∀ b, best = Some b → RenderedNameLeafByteLen b ≤ max) → ∀ b, found = Some b → RenderedNameLeafByteLen b ≤ max.
Proof.
  revert low high best. induction fuel as [|fuel IH]; intros low high best; cbn [search]; [by intros [= ->]|].
  destruct (high <? low); [by intros [= ->]|]. intros (c & Hc & H)%res_bind_ok Hb.
  destruct (Z.leb_spec (RenderedNameLeafByteLen c) max); [|by eapply IH].
  eapply IH; [exact H|]. by intros b [= <-].
Qed.

(** A rendered file name never exceeds the byte limit, whatever the
    template, the title and the extension; a name that fits is kept as it is,
    and a truncated one keeps its directories and its extension where that is
    shorter than the limit. *)
Theorem filename_limit hasI configured fileName title name :
  renderFileName is_han execute hasI configured fileName title = Ok name →
  RenderedNameLeafByteLen name ≤ max_bytes configured ∧ max_bytes configured ≤ 255 ∧
  ∃ rendered, render is_han execute title (Ext fileName) safeMessageTitleMaxRunes = Ok rendered ∧
    (RenderedNameLeafByteLen rendered ≤ max_bytes configured → name = rendered) ∧
    (hasI = false → max_bytes configured < RenderedNameLeafByteLen rendered →
       let '(prefix, leaf) := SplitRenderedNameLeaf rendered in
       let ext := Ext leaf in
       SplitRenderedNameLeaf name = (prefix, LimitFileNameSegmentBytes leaf (max_bytes configured)) ∧
       (ext ≠ "" → str_len ext < max_bytes configured → ∃ stem, name = prefix +:+ stem +:+ ext)).
Proof.
  intros (rendered & Hr & H)%res_bind_ok. cbv zeta in H.
  assert (Hm : 0 < max_bytes configured ≤ 255).
  { unfold max_bytes, filenameHardMaxBytes. destruct (Z.leb_spec configured 0), (Z.ltb_spec 255 configured); cbn; lia. }
  assert (Hlim : ∀ n, n = LimitRenderedNameLeafBytes rendered (max_bytes configured) →
    SplitRenderedNameLeaf n = ((SplitRenderedNameLeaf rendered).1,
      LimitFileNameSegmentBytes (SplitRenderedNameLeaf rendered).2 (max_bytes configured))).
  { intros n ->. unfold LimitRenderedNameLeafBytes. pose proof (split_leaf rendered) as Hs. pose proof (leaf_nosep rendered) as Hn.
    destruct (SplitRenderedNameLeaf rendered) as [prefix leaf]. apply Hs. apply limit_segment; [lia|done]. }
  split; [|split; [lia|exists rendered; split; [done|]]].
  - destruct (Z.leb_spec (RenderedNameLeafByteLen rendered) (max_bytes configured)); [by injection H as <-|].
    apply res_bind_ok in H as (found & Hf & H). destruct found as [best|]; injection H as <-.
    + destruct hasI; [|done]. by eapply search_fits.
    + unfold RenderedNameLeafByteLen at 1. rewrite (Hlim _ eq_refl). cbn. apply limit_segment; lia.
  - destruct (Z.leb_spec (RenderedNameLeafByteLen rendered) (max_bytes configured)) as [Hfit|Hlong].
    { injection H as <-. split; [done|lia]. }
    split; [lia|]. intros -> _. cbn in H. injection H as <-. specialize (Hlim _ eq_refl).
    unfold LimitRenderedNameLeafBytes in *. unfold RenderedNameLeafByteLen in Hlong.
    destruct (SplitRenderedNameLeaf rendered) as [prefix leaf]. cbn in *. split; [done|].
    intros He Hl. unfold LimitFileNameSegmentBytes. destruct (Z.leb_spec (max_bytes configured) 0); [lia|].
    destruct (Z.leb_spec (str_len leaf) (max_bytes configured)); [lia|].
    destruct (String.eqb_spec (Ext leaf) ""); [done|]. destruct (Z.ltb_spec (str_len (Ext leaf)) (max_bytes configured)); [|lia].
    cbn [negb andb]. eauto.
Qed.
End file.

(** Truncating valid UTF-8 text cuts between two runes, never exceeds the
    limit and keeps as many runes as fit. *)
Theorem truncate_keeps_runes s maxBytes :
  utf8 s → 0 ≤ maxBytes →
  ∃ t, s = TruncateBytesKeepingRunes s maxBytes +:+ t ∧ utf8 (TruncateBytesKeepingRunes s maxBytes) ∧
    str_len (TruncateBytesKeepingRunes s maxBytes) ≤ maxBytes ∧
    (t = "" ∨ ∃ w, rune_width t = Some (w, true) ∧ maxBytes < str_len (TruncateBytesKeepingRunes s maxBytes) + Z.of_nat w).
Proof.
  intros Hs Hm. destruct (truncate_utf8 s maxBytes Hs) as (t & H1 & H2 & H3). exists t.
  split_and!; try done. by apply truncate_len.
Qed.

(** Two bytes that are no text, then two runes of three bytes: cut to six
    bytes, the first rune loses its tail. *)
Definition bytes_of (l : list nat) : string := foldr (λ n, String (ascii_of_nat n)) "" l.
Lemma truncate_splits_rune :
  TruncateBytesKeepingRunes (bytes_of [255; 255; 228; 184; 150; 231; 149; 140]%nat) 7 = bytes_of [255; 255; 228; 184; 150; 231]%nat.
Proof. vm_compute. reflexivity. Qed.

(** ** Separators at the end *)

Lemma trim_left_set_app p q c t : p c = false →
  trim_left_set p (q +:+ String c t) = trim_left_set p q +:+ String c t.
Proof.
  intros Hc. induction q as [|a q IH]; [by cbn; rewrite Hc|]. cbn. by destruct (p a).
Qed.

Lemma rev_str_snoc q a : rev_str (q +:+ String a "") = String a (rev_str q).
Proof. unfold rev_str. by rewrite rev_app_str. Qed.

Lemma TrimRight_snoc p q a : p a = false → TrimRight p (q +:+ String a "") = q +:+ String a "".
Proof.
  intros Ha. unfold TrimRight. rewrite rev_str_snoc. cbn [trim_left_set]. rewrite Ha, <- rev_str_snoc. apply rev_rev_str.
Qed.

Lemma str_snoc s : s = "" ∨ ∃ q a, s = q +:+ String a "".
Proof.
  destruct (String.rev s) as [|a q] eqn:E.
  - left. rewrite <- (rev_rev_str s), E. done.
  - right. exists (String.rev q), a. rewrite <- (rev_rev_str s), E. unfold String.rev at 1. cbn [String.rev_app].
    by rewrite rev_app_spec.
Qed.

Lemma trim_left_set_head p s : trim_left_set p s = "" ∨ ∃ a t, trim_left_set p s = String a t ∧ p a = false.
Proof.
  induction s as [|a s IH]; [by left|]. cbn. destruct (p a) eqn:Ha; [done|]. right. eauto.
Qed.

Lemma TrimRight_end p s : TrimRight p s = "" ∨ ∃ q a, TrimRight p s = q +:+ String a "" ∧ p a = false.
Proof.
  unfold TrimRight. destruct (trim_left_set_head p (rev_str s)) as [->|(a & t & -> & Ha)]; [by left|].
  right. exists (rev_str t), a. split; [|done]. unfold rev_str, String.rev at 1. cbn [String.rev_app]. by rewrite rev_app_spec.
Qed.

Lemma trim_clean x : all_chars nosep x = true → Trim is_sep x = x.
Proof.
  intros H. unfold Trim. assert (E : trim_left_set is_sep x = x).
  { destruct x as [|a x]; [done|]. cbn in H |- *. apply andb_true_iff in H as [->%negb_true_iff _]. done. }
  rewrite E. destruct (str_snoc x) as [->|(q & a & ->)]; [done|]. apply TrimRight_snoc.
  rewrite all_chars_app in H. cbn in H. rewrite !andb_true_iff in H. by destruct H as (_ & ?%negb_true_iff & _).
Qed.

(** ** Paths below a base *)

Definition clean_part (x : string) : Prop := skipped x = false ∧ all_chars nosep x = true.
(** Segments appended, each after a separator. *)
Definition appended (l : list (ascii * string)) : string := foldr (λ p s, String p.1 (p.2 +:+ s)) "" l.
Definition good_parts (l : list (ascii * string)) : Prop := Forall (λ p, is_sep p.1 = true ∧ clean_part p.2) l.
Definition below (base full : string) : Prop := ∃ l, good_parts l ∧ full = TrimRight is_sep base +:+ appended l.

Lemma appended_app l1 l2 : appended (l1 ++ l2) = appended l1 +:+ appended l2.
Proof.
  induction l1 as [|[c x] l1 IH]; [done|]. 
  change (String c (x +:+ appended (l1 ++ l2)) = String c ((x +:+ appended l1) +:+ appended l2)).
  by rewrite IH, str_app_assoc.
Qed.

Lemma Join_below sep base l : Join (base :: l) (String sep "") = base +:+ appended (pair sep <$> l).
Proof.
  revert base. induction l as [|x l IH]; intros base; [by cbn; rewrite str_app_nil|].
  change (Join (base :: x :: l) (String sep "")) with (base +:+ String sep (Join (x :: l) (String sep ""))).
  by rewrite IH.
Qed.

Lemma appended_end l : good_parts l → l ≠ [] → ∃ q a, appended l = q +:+ String a "" ∧ is_sep a = false.
Proof.
  intros H Hn. destruct (last l) as [[c x]|] eqn:El; [|by apply last_None in El].
  apply last_Some in El as [l' ->]. apply Forall_app in H as [_ H]. apply Forall_inv in H as [_ [Hs Hx]]. cbn in Hs, Hx.
  rewrite appended_app. destruct (str_snoc x) as [->|(q & a & ->)]; [done|].
  exists (appended l' +:+ String c q), a. cbn. split.
  - by rewrite str_app_nil, str_app_assoc.
  - rewrite all_chars_app in Hx. cbn in Hx. rewrite !andb_true_iff in Hx. by destruct Hx as (_ & ?%negb_true_iff & _).
Qed.

Lemma below_trim base l : TrimRight is_sep base ≠ "" → good_parts l →
  TrimRight is_sep (TrimRight is_sep base +:+ appended l) = TrimRight is_sep base +:+ appended l.
Proof.
  intros Hb Hl. destruct (decide (l = [])) as [->|Hn].
  - cbn. rewrite str_app_nil. destruct (TrimRight_end is_sep base) as [|(q & a & E & Ha)]; [done|].
    rewrite E. by apply TrimRight_snoc.
  - destruct (appended_end l Hl Hn) as (q & a & -> & Ha). rewrite <- str_app_assoc. by apply TrimRight_snoc.
Qed.

Lemma Join_target base parts :
  TrimRight is_sep base ≠ "" → Forall (λ x, all_chars nosep x = true) parts → below base (JoinTargetPath base parts).
Proof.
  intros Hb Hp. unfold JoinTargetPath.
  assert (Hmap : Trim is_sep <$> parts = parts).
  { induction Hp as [|x parts Hx Hp IH]; [done|]. cbn. by rewrite IH, trim_clean. }
  rewrite Hmap. destruct (String.eqb_spec (TrimRight is_sep base) ""); [done|]. cbn [andb].
  destruct (String.eqb_spec (TrimRight is_sep base) "/") as [E|_].
  { exfalso. destruct (TrimRight_end is_sep base) as [|(q & a & E' & Ha)]; [done|]. rewrite E in E'.
    destruct q as [|x [|y q]]; try done. injection E' as <-. done. }
  destruct (String.eqb_spec (TrimRight is_sep base) ""); [done|]. cbn [app].
  set (sep := if LooksWindowsPath base then backslash else slash).
  assert (Hsep : TargetPathSeparator base = String sep "") by (unfold TargetPathSeparator, sep; by destruct (LooksWindowsPath base)).
  rewrite Hsep, Join_below. eexists. split; [|done]. unfold good_parts. apply Forall_fmap, Forall_forall.
  intros x [Hx Hin]%list_elem_of_filter. rewrite Forall_forall in Hp. split; [|by split; [|apply Hp]].
  cbn. unfold sep. by destruct (LooksWindowsPath base).
Qed.

Lemma below_trans a b c : TrimRight is_sep a ≠ "" → below a b → below b c → below a c.
Proof.
  intros Ha (l1 & H1 & ->) (l2 & H2 & ->). exists (l1 ++ l2). split; [by apply Forall_app|].
  rewrite below_trim by done. by rewrite appended_app, str_app_assoc.
Qed.
Lemma below_nonempty a b : TrimRight is_sep a ≠ "" → below a b → TrimRight is_sep b ≠ "".
Proof.
  intros Ha (l & H & ->). rewrite below_trim by done. by destruct (TrimRight is_sep a).
Qed.

(** ** The parts of a path *)

Lemma fields_aux_clean p s cur : all_chars (λ a, negb (p a)) cur = true →
  Forall (λ x, all_chars (λ a, negb (p a)) x = true) (fields_aux p s cur).
Proof.
  assert (Hrev : ∀ c, all_chars (λ a, negb (p a)) c = true → all_chars (λ a, negb (p a)) (rev_str c) = true)
    by (intros c Hc; unfold rev_str; by rewrite all_chars_rev).
  revert cur. induction s as [|a s IH]; intros cur Hc; cbn [fields_aux].
  - destruct (String.eqb _ _); [done|]. apply Forall_singleton. by apply Hrev.
  - destruct (p a) eqn:Ha; [|apply IH; cbn; by rewrite Ha, Hc].
    destruct (String.eqb _ _); [by apply IH|]. constructor; [by apply Hrev|by apply IH].
Qed.

Lemma trim_left_suffix s : ∃ p, s = p +:+ trim_left s.
Proof.
  assert (H : ∀ n s, (String.length s < n)%nat → ∃ p, s = p +:+ trim_left s); [|by eapply (H (S (String.length s))); lia].
  clear s. induction n as [|n IH]; intros s Hn; [lia|]. destruct s as [|a s1]; [by exists ""|]. cbn in Hn. cbn [trim_left].
  destruct (space1 a); [destruct (IH s1) as [p Hp]; [lia|]; exists (String a p); exact (f_equal (String a) Hp)|].
  destruct s1 as [|b s2]; [by exists ""|]. cbn in Hn.
  destruct (space2 a b); [destruct (IH s2) as [p Hp]; [lia|]; exists (String a (String b p)); exact (f_equal (λ x, String a (String b x)) Hp)|].
  destruct s2 as [|c s3]; [by exists ""|]. cbn in Hn.
  destruct (space3 a b c); [|by exists ""].
  destruct (IH s3) as [p Hp]; [lia|]. exists (String a (String b (String c p))). exact (f_equal (λ x, String a (String b (String c x))) Hp).
Qed.
Lemma trim_left_rev_suffix s : ∃ p, s = p +:+ trim_left_rev s.
Proof.
  assert (H : ∀ n s, (String.length s < n)%nat → ∃ p, s = p +:+ trim_left_rev s); [|by eapply (H (S (String.length s))); lia].
  clear s. induction n as [|n IH]; intros s Hn; [lia|]. destruct s as [|a s1]; [by exists ""|]. cbn in Hn. cbn [trim_left_rev].
  destruct (space1 a); [destruct (IH s1) as [p Hp]; [lia|]; exists (String a p); exact (f_equal (String a) Hp)|].
  destruct s1 as [|b s2]; [by exists ""|]. cbn in Hn.
  destruct (space2 b a); [destruct (IH s2) as [p Hp]; [lia|]; exists (String a (String b p)); exact (f_equal (λ x, String a (String b x)) Hp)|].
  destruct s2 as [|c s3]; [by exists ""|]. cbn in Hn.
  destruct (space3 c b a); [|by exists ""].
  destruct (IH s3) as [p Hp]; [lia|]. exists (String a (String b (String c p))). exact (f_equal (λ x, String a (String b (String c x))) Hp).
Qed.

Lemma all_chars_suffix P p s : all_chars P (p +:+ s) = true → all_chars P s = true.
Proof. rewrite all_chars_app. by intros [_ ?]%andb_true_iff. Qed.

Lemma all_chars_TrimSpace P s : all_chars P s = true → all_chars P (TrimSpace s) = true.
Proof.
  intros H. unfold TrimSpace, TrimRight_space, rev_str. rewrite all_chars_rev.
  destruct (trim_left_suffix s) as [p Hp]. rewrite Hp in H. apply all_chars_suffix in H.
  rewrite <- all_chars_rev in H. destruct (trim_left_rev_suffix (String.rev (trim_left s))) as [q Hq].
  rewrite Hq in H. by apply all_chars_suffix in H.
Qed.

Lemma SplitPathParts_clean value : Forall clean_part (SplitPathParts value).
Proof.
  apply Forall_forall. intros x [Hx Hin]%list_elem_of_filter. split; [done|].
  apply list_elem_of_fmap in Hin as (y & -> & Hy). apply all_chars_TrimSpace.
  pose proof (fields_aux_clean is_sep value "" eq_refl) as H. rewrite Forall_forall in H. by apply H.
Qed.

Section safe.
Context (filenamify : string → option string).
(** filenamify replaces every reserved character, the separators included. *)
Context (filenamify_nosep : ∀ s v, filenamify s = Some v → all_chars nosep v = true).

Lemma SafePathSegment_nosep value : all_chars nosep (SafePathSegment filenamify value) = true.
Proof.
  unfold SafePathSegment. destruct (String.eqb _ ""); [done|]. destruct (filenamify _) as [v|] eqn:E; [|done].
  destruct (String.eqb v ""); [done|]. by eapply filenamify_nosep.
Qed.

Lemma Resolve_below base name dir out full :
  TrimRight is_sep base ≠ "" → ResolveTargetPath filenamify base name = (dir, out, full) →
  (dir = base ∨ below base dir) ∧ all_chars nosep out = true ∧ below base full.
Proof.
  intros Hb. unfold ResolveTargetPath. pose proof (SplitPathParts_clean name) as Hc.
  destruct (last (SplitPathParts name)) as [x|] eqn:El.
  2:{ intros [= <- <- <-]. pose proof (SafePathSegment_nosep name). split_and!; [by left|done|].
      apply Join_target; [done|]. by apply Forall_singleton. }
  apply last_Some in El as [l Hl]. rewrite Hl in Hc |- *. apply Forall_app in Hc as [Hc [_ Hx]%Forall_singleton].
  rewrite removelast_last. intros [= <- <- <-].
  set (dir := match l ++ [x] with [_] => base | _ => JoinTargetPath base l end).
  assert (Hd : dir = base ∨ below base dir).
  { destruct l as [|y l]; [by left|]. right. assert (E : dir = JoinTargetPath base (y :: l)) by (unfold dir; by destruct l).
    rewrite E. apply Join_target; [done|]. eapply Forall_impl; [exact Hc|]. by intros ? []. }
  split; [done|]. split; [done|]. assert (Hx' : Forall (λ x, all_chars nosep x = true) [x]) by (by apply Forall_singleton).
  destruct Hd as [->|Hd]; [by apply Join_target|]. eapply below_trans; [done|exact Hd|].
  apply Join_target; [by eapply below_nonempty|done].
Qed.

(** C34: A download lands below its root: whatever the directory template,
    the names in the message and the rendered file name are, the full path is
    the root followed by segments that are not empty, not [.] or [..] and
    contain no separator. *)
Theorem target_contained is_han directory baseDir name d maxBytes :
  TrimRight is_sep baseDir ≠ "" →
  let r := Render filenamify is_han directory baseDir name d maxBytes in
  below baseDir (n_FullPath r) ∧ all_chars nosep (n_Out r) = true ∧ n_FileName r = name.
Proof.
  intros Hb. unfold Render. set (base := JoinTargetPath baseDir _).
  assert (Hbase : below baseDir base).
  { apply Join_target; [done|]. unfold renderDownloadDir. destruct (String.eqb _ ""); [done|].
    apply Forall_forall. intros x [_ (y & -> & _)%list_elem_of_fmap]%list_elem_of_filter. apply SafePathSegment_nosep. }
  destruct (ResolveTargetPath filenamify base name) as [[dir out] full] eqn:E. cbn zeta. cbn.
  destruct (Resolve_below base name dir out full (below_nonempty _ _ Hb Hbase) E) as (_ & Ho & Hf).
  split; [|done]. by eapply below_trans.
Qed.
End safe.

(** ** Keeping names apart *)

Definition noslash (a : ascii) : bool := negb (Ascii.eqb slash a).

Lemma contains_none c s : contains_char c s = false → all_chars (λ a, negb (Ascii.eqb c a)) s = true.
Proof.
  induction s as [|a s IH]; [done|]. cbn. intros [Ha Hs]%orb_false_iff. rewrite IH by done.
  rewrite Ascii.eqb_sym in Ha. by rewrite Ha.
Qed.

Lemma Ext_noslash s : all_chars noslash (Ext s) = true.
Proof.
  unfold Ext. induction s as [|a s IH]; [done|]. cbn [ext_aux].
  destruct (negb (String.eqb (ext_aux s) "")); [done|]. destruct (Ascii.eqb_spec a "."%char) as [->|]; [|done].
  destruct (contains_char slash s) eqn:E; [done|]. cbn [andb negb all_chars]. apply (contains_none slash s) in E. exact E.
Qed.

Lemma TrimRight_app p q c e : p c = false → TrimRight p (q +:+ String c e) = q +:+ String c (TrimRight p e).
Proof.
  intros Hc. unfold TrimRight, rev_str. rewrite rev_app_str. unfold String.rev at 2. cbn [String.rev_app].
  rewrite rev_app_spec, str_app_assoc. change (String c "" +:+ String.rev q) with (String c (String.rev q)).
  rewrite trim_left_set_app by done. rewrite rev_app_str. unfold String.rev at 1. cbn [String.rev_app].
  by rewrite rev_app_spec, rev_rev_str, str_app_assoc.
Qed.

Lemma TrimRight_noslash p s : all_chars noslash s = true → all_chars noslash (TrimRight p s) = true.
Proof.
  intros H. unfold TrimRight, rev_str. rewrite all_chars_rev. rewrite <- all_chars_rev in H. revert H.
  generalize (String.rev s) as t. intros t. induction t as [|a t IH]; [done|]. cbn [trim_left_set]. destruct (p a); [|done].
  cbn. intros [_ ?]%andb_true_iff. auto.
Qed.

Lemma fields_last p s w cur : all_chars (λ a, negb (p a)) w = true → w ≠ "" →
  ∃ l x, fields_aux p (s +:+ w) cur = l ++ [x +:+ w].
Proof.
  intros Hw Hn. revert cur. induction s as [|a s IH]; intros cur.
  - change ("" +:+ w) with w. exists [], (rev_str cur).
    assert (H : ∀ c, fields_aux p w c = if String.eqb (rev_str w +:+ c) "" then [] else [rev_str (rev_str w +:+ c)]).
    { clear Hn. induction w as [|a w IH]; intros c; [done|]. cbn in Hw. apply andb_true_iff in Hw as [Ha%negb_true_iff Hw].
      cbn [fields_aux]. rewrite Ha, (IH Hw). assert (E : rev_str (String a w) +:+ c = rev_str w +:+ String a c).
      { unfold rev_str. unfold String.rev at 1. cbn [String.rev_app]. by rewrite rev_app_spec, str_app_assoc. }
      by rewrite E. }
    rewrite H. destruct (String.eqb_spec (rev_str w +:+ cur) "") as [E|_].
    + exfalso. apply Hn. rewrite <- (rev_rev_str w). unfold rev_str in E. by destruct (String.rev w).
    + cbn [app]. f_equal. unfold rev_str. by rewrite rev_app_str, rev_rev_str.
  - change (String a s +:+ w) with (String a (s +:+ w)). cbn [fields_aux]. destruct (p a); [|apply IH].
    destruct (String.eqb cur ""); [apply IH|]. destruct (IH "") as (l & x & ->). by exists (rev_str cur :: l), x.
Qed.

Lemma clean_parts_last rooted l y out : skipped y = false →
  ∃ pre, clean_parts rooted (l ++ [y]) out = pre ++ [y].
Proof.
  unfold skipped. intros [[H1 H2]%orb_false_iff H3]%orb_false_iff. revert out. induction l as [|x l IH]; intros out.
  - cbn. rewrite H1, H2, H3. cbn. eauto.
  - cbn [app clean_parts]. destruct (String.eqb x "" || String.eqb x "."); [apply IH|].
    destruct (String.eqb x ".."); [|apply IH]. destruct out as [|z out]; [destruct rooted; apply IH|].
    destruct (String.eqb z ".."); apply IH.
Qed.

Lemma Join_last l y sep : ∃ z, Join (l ++ [y]) sep = z +:+ y.
Proof.
  induction l as [|x l [z IH]]; [by exists ""|]. cbn [app]. destruct (l ++ [y]) as [|u v] eqn:E; [by destruct l|].
  exists (x +:+ sep +:+ z). change (Join (x :: u :: v) sep) with (x +:+ sep +:+ Join (u :: v) sep).
  by rewrite IH, !str_app_assoc.
Qed.

(** [Clean] keeps the end of a path that ends in a real element. *)
Lemma Clean_end s w : all_chars noslash w = true → (∀ x, skipped (x +:+ w) = false) → ∃ z, Clean (s +:+ w) = z +:+ w.
Proof.
  intros Hw Hs. assert (Hn : w ≠ "") by (intros ->; specialize (Hs ""); done).
  unfold Clean, FieldsFunc. destruct (fields_last (Ascii.eqb slash) s w "" Hw Hn) as (l & x & ->).
  destruct (clean_parts_last (HasPrefix (s +:+ w) "/") l (x +:+ w) [] (Hs x)) as [pre ->].
  destruct (Join_last pre (x +:+ w) "/") as [z ->]. destruct (HasPrefix _ _).
  - exists ("/" +:+ z +:+ x). by rewrite !str_app_assoc.
  - destruct (String.eqb_spec (z +:+ x +:+ w) "") as [E|_].
    + exfalso. apply (f_equal String.length) in E. rewrite !str_length_app in E. by destruct w; [|cbn in E; lia].
    + exists (z +:+ x). by rewrite str_app_assoc.
Qed.

Lemma Join_one dir c : skipped (Trim is_sep c) = false → ∃ p, JoinTargetPath dir [c] = p +:+ Trim is_sep c.
Proof.
  intros Hs. unfold JoinTargetPath. rewrite fmap_cons, fmap_nil, filter_cons_True, filter_nil by done.
  set (base := if String.eqb _ "" && _ then "/" else _). destruct (String.eqb base "/"); [by exists "/"|].
  destruct (String.eqb base ""); cbn; [by exists ""|]. exists (base +:+ TargetPathSeparator dir). by rewrite str_app_assoc.
Qed.

Section unique.
Context (to_lower : string → string).
(** Lower-casing works rune by rune, and on ASCII as usual. *)
Context (lower_nil : to_lower "" = "").
Context (lower_ascii : ∀ s a t, byte a < 128 → to_lower (s +:+ String a t) = to_lower s +:+ String (lower_byte a) (to_lower t)).

Lemma lower_cons a t : byte a < 128 → to_lower (String a t) = String (lower_byte a) (to_lower t).
Proof. intros H. change (String a t) with ("" +:+ String a t). by rewrite lower_ascii, lower_nil. Qed.

Lemma lower_digits s t : all_chars is_digit s = true → to_lower (s +:+ t) = s +:+ to_lower t.
Proof.
  induction s as [|a s IH]; [done|]. cbn [all_chars]. intros [Ha Hs]%andb_true_iff.
  change (String a s +:+ t) with (String a (s +:+ t)). change (String a s +:+ to_lower t) with (String a (s +:+ to_lower t)).
  unfold is_digit in Ha. rewrite lower_cons, IH by (done || lia). f_equal. unfold lower_byte.
  destruct (Z.leb_spec 65 (byte a)); [lia|done].
Qed.

(** The end of the key of a numbered candidate. *)
Definition key_end (n : Z) (e : string) : string := String " " (String "(" (Itoa n +:+ String ")" e)).

Lemma candidate_key dir original maximum n c : 0 ≤ n → next_candidate original maximum n = Some c →
  ∃ a, unique_key to_lower dir c = a +:+ key_end n (to_lower (TrimRight is_sep (Ext original))).
Proof.
  intros Hn. unfold next_candidate. destruct (maximum <? _); [done|].
  set (q := TruncateBytesKeepingRunes _ _). set (ext := Ext original). intros Hsome. apply (inj Some) in Hsome. subst c.
  destruct (Itoa_all_digits n Hn) as [Hd Hne]. set (e := TrimRight is_sep ext).
  assert (He : all_chars noslash e = true) by (apply TrimRight_noslash, Ext_noslash).
  assert (Ht : Trim is_sep (q +:+ suffix n +:+ ext) = trim_left_set is_sep q +:+ key_end n e).
  { unfold Trim, suffix. change (" (" +:+ Itoa n +:+ ")") with (String " " (String "(" (Itoa n +:+ ")"))).
    change (String " " (String "(" (Itoa n +:+ ")")) +:+ ext) with (String " " (String "(" ((Itoa n +:+ ")") +:+ ext))).
    rewrite trim_left_set_app by done. rewrite str_app_assoc. change (")" +:+ ext) with (String ")" ext).
    change (String " " (String "(" (Itoa n +:+ String ")" ext))) with (" (" +:+ (Itoa n +:+ String ")" ext)).
    rewrite <- !str_app_assoc, TrimRight_app by done. rewrite !str_app_assoc. done. }
  assert (Hsk : ∀ x, skipped (x +:+ key_end n e) = false).
  { intros x. unfold skipped. assert (H3 : (3 ≤ String.length (x +:+ key_end n e))%nat).
    { rewrite str_length_app. unfold key_end. cbn. rewrite str_length_app. cbn. lia. }
    by destruct (String.eqb_spec (x +:+ key_end n e) "") as [E|_], (String.eqb_spec (x +:+ key_end n e) ".") as [E'|_],
      (String.eqb_spec (x +:+ key_end n e) "..") as [E''|_]; try (rewrite ?E, ?E', ?E'' in H3; cbn in H3; lia). }
  assert (Hns : all_chars noslash (key_end n e) = true).
  { unfold key_end. cbn [all_chars]. rewrite all_chars_app. cbn [all_chars]. rewrite He, andb_true_r.
    assert (all_chars noslash (Itoa n) = true) as ->; [|done]. eapply all_chars_impl; [|exact Hd].
    intros a Ha. unfold noslash. apply negb_true_iff, Ascii.eqb_neq. intros <-. by vm_compute in Ha. }
  unfold unique_key. destruct (Join_one dir (q +:+ suffix n +:+ ext)) as [p ->]; [by rewrite Ht|]. rewrite Ht, <- str_app_assoc.
  destruct (Clean_end (p +:+ trim_left_set is_sep q) (key_end n e) Hns Hsk) as [z ->]. exists (to_lower z).
  unfold key_end. rewrite lower_ascii, lower_cons by (vm_compute; done).
  rewrite lower_digits by done. rewrite lower_cons by (vm_compute; done). done.
Qed.

Lemma key_end_inj a b n m e : 0 ≤ n → 0 ≤ m → a +:+ key_end n e = b +:+ key_end m e → n = m.
Proof.
  intros Hn Hm H. unfold key_end in H.
  assert (Hr : ∀ x k, x +:+ String " " (String "(" (Itoa k +:+ String ")" e)) = (x +:+ " (" +:+ Itoa k +:+ ")") +:+ e).
  { intros x k. rewrite !str_app_assoc. done. }
  rewrite !Hr in H. apply app_str_inj_r in H. apply (f_equal String.rev) in H.
  rewrite !rev_app_str in H. change (String.rev ")") with ")" in H. rewrite !str_app_assoc in H.
  change (")" +:+ ?x) with (String ")" x) in H. injection H as H.
  assert (Hs : ∀ x k, String.rev (Itoa k) +:+ String.rev " (" +:+ String.rev x = String.rev (Itoa k) +:+ String "(" (String " " (String.rev x))) by done.
  destruct (split_unique is_digit (String.rev (Itoa n)) (String.rev (Itoa m)) "(" "(" (String " " (String.rev a)) (String " " (String.rev b)))
    as [E _]; [rewrite all_chars_rev; by apply Itoa_all_digits|rewrite all_chars_rev; by apply Itoa_all_digits|done|done|exact H|].
  apply (f_equal String.rev) in E. rewrite !rev_rev_str in E. by apply (inj pretty) in E.
Qed.

Lemma candidate_len original maximum n c : next_candidate original maximum n = Some c → str_len c ≤ maximum.
Proof.
  unfold next_candidate. cbv zeta. set (a := str_len (suffix n)). set (b := str_len (Ext original)).
  destruct (Z.ltb_spec maximum (a + b)) as [|Hm]; [done|]. intros H. apply (inj Some) in H. subst c.
  rewrite !str_len_app. fold a b. pose proof (truncate_len (TrimSuffix original (Ext original)) (maximum - a - b) ltac:(lia)). lia.
Qed.

(** The search ends: [ks] are the distinct used keys met so far. *)
Lemma pick_name_spec fuel used dir original candidate maximum sequence (ks : list string) :
  2 ≤ sequence → NoDup ks → (size used < fuel + length ks)%nat →
  (∀ k, k ∈ ks → k ∈ used ∧ ∃ n c, 2 ≤ n < sequence - 1 ∧ next_candidate original maximum n = Some c ∧ k = unique_key to_lower dir c) →
  next_candidate original maximum (sequence - 1) = Some candidate → 2 ≤ sequence - 1 →
  match pick_name to_lower fuel used dir original candidate maximum sequence with
  | Ok c => (unique_key to_lower dir c ∉ used) ∧ str_len c ≤ maximum
  | Err e => e ≠ ErrNotFound
  end.
Proof.
  revert candidate sequence ks. induction fuel as [|fuel IH]; intros candidate sequence ks H2 Hnd Hsz Hks Hc Hs.
  { exfalso. assert (Hsub : (list_to_set ks : gset string) ⊆ used) by (intros k Hk; apply elem_of_list_to_set in Hk; by apply Hks).
    apply subseteq_size in Hsub. rewrite size_list_to_set in Hsub by done. lia. }
  cbn [pick_name]. case_bool_decide as Hin; [|split; [done|by eapply candidate_len]].
  destruct (next_candidate original maximum sequence) as [c|] eqn:E; [|done].
  apply (IH c (sequence + 1) (unique_key to_lower dir candidate :: ks)); [lia| |cbn; lia| |by replace (sequence + 1 - 1) with sequence by lia|lia].
  - constructor; [|done]. intros Hk. destruct (Hks _ Hk) as (_ & n & c' & Hn & Hc' & Hkey).
    destruct (candidate_key dir original maximum (sequence - 1) candidate ltac:(lia) Hc) as [a Ea].
    destruct (candidate_key dir original maximum n c' ltac:(lia) Hc') as [b Eb]. rewrite Ea, Eb in Hkey.
    apply key_end_inj in Hkey; lia.
  - intros k [->|Hk]%elem_of_cons.
    + split; [done|]. exists (sequence - 1), candidate. split_and!; [lia|lia|done|done].
    + destruct (Hks k Hk) as (? & n & c' & ? & ? & ?). split; [done|]. exists n, c'. split_and!; try done; lia.
Qed.

Definition name_limit (maxBytes : Z) (r : NamingResult) : Z :=
  if (n_MaxBytes r <=? 0) || (255 <? n_MaxBytes r) then maxBytes else n_MaxBytes r.

Lemma unique_one_spec maxBytes used r :
  match unique_one to_lower maxBytes used r with
  | Ok (o, used') => (unique_key to_lower (n_Dir o) (n_Out o) ∉ used) ∧
      used' = {[unique_key to_lower (n_Dir o) (n_Out o)]} ∪ used ∧
      n_Dir o = n_Dir r ∧ n_FullPath o = JoinTargetPath (n_Dir r) [n_Out o] ∧
      (n_Out o = n_Out r ∨ unique_key to_lower (n_Dir r) (n_Out r) ∈ used ∧ str_len (n_Out o) ≤ name_limit maxBytes r)
  | Err e => e ≠ ErrNotFound
  end.
Proof.
  unfold unique_one. fold (name_limit maxBytes r). set (maximum := name_limit maxBytes r).
  destruct (pick_name _ _ _ _ _ _ _ _) as [c|e] eqn:Hp; cbn [mbind res_bind].
  - destruct (SplitRenderedNameLeaf _) as [prefix leaf]. cbn. cbn [pick_name] in Hp. case_bool_decide as Hin.
    + destruct (next_candidate (n_Out r) maximum 2) as [c2|] eqn:E; [|done].
      pose proof (pick_name_spec (S (size used)) used (n_Dir r) (n_Out r) c2 maximum 3 [] ltac:(lia)
        (NoDup_nil_2) ltac:(cbn; lia) ltac:(intros k Hk; by apply elem_of_nil in Hk) E ltac:(lia)) as H.
      change (2 + 1) with 3 in Hp. cbn [pick_name] in H. rewrite Hp in H. destruct H. split_and!; auto.
    + injection Hp as <-. split_and!; auto.
  - cbn [pick_name] in Hp. case_bool_decide; [|done]. destruct (next_candidate (n_Out r) maximum 2) as [c2|] eqn:E; [|by injection Hp as <-].
    pose proof (pick_name_spec (S (size used)) used (n_Dir r) (n_Out r) c2 maximum 3 [] ltac:(lia)
        (NoDup_nil_2) ltac:(cbn; lia) ltac:(intros k Hk; by apply elem_of_nil in Hk) E ltac:(lia)) as Hq.
    change (2 + 1) with 3 in Hp. cbn [pick_name] in Hq. by rewrite Hp in Hq.
Qed.

Lemma unique_loop_spec maxBytes input used :
  match unique_loop to_lower maxBytes input used with
  | Ok out => NoDup ((λ o, unique_key to_lower (n_Dir o) (n_Out o)) <$> out) ∧
      (∀ o, o ∈ out → unique_key to_lower (n_Dir o) (n_Out o) ∉ used) ∧
      Forall2 (λ r o, n_Dir o = n_Dir r ∧ n_FullPath o = JoinTargetPath (n_Dir r) [n_Out o] ∧
        (n_Out o = n_Out r ∨ str_len (n_Out o) ≤ name_limit maxBytes r)) input out
  | Err e => e ≠ ErrNotFound
  end.
Proof.
  revert used. induction input as [|r input IH]; intros used; cbn [unique_loop].
    { split_and!; [apply NoDup_nil_2|intros o Ho; by apply elem_of_nil in Ho|constructor]. }
    pose proof (unique_one_spec maxBytes used r) as H1. destruct (unique_one _ _ _ _) as [[o used']|e]; cbn [mbind res_bind]; [|done].
    destruct H1 as (Hk & -> & Hd & Hf & Hout). specialize (IH ({[unique_key to_lower (n_Dir o) (n_Out o)]} ∪ used)).
    destruct (unique_loop _ _ _ _) as [rest|e]; cbn [mbind res_bind]; [|done]. destruct IH as (I1 & I2 & I3). split_and!.
    - cbn. constructor; [|done]. intros (o' & E & Ho')%list_elem_of_fmap. apply (I2 o' Ho'). rewrite <- E. set_solver.
    - intros o' [->|Ho']%elem_of_cons; [done|]. specialize (I2 o' Ho'). set_solver.
    - constructor; [|done]. split_and!; [done|done|]. destruct Hout as [|[_ ?]]; [by left|by right].
Qed.

(** Telling the names of a batch apart always ends: the numbered
    candidates never repeat a key, so one of them is free or the byte limit is
    reported; in the result no two entries name the same file, however the
    case of letters, each stays in its directory, and only a name already
    taken is replaced, by one within the limit. *)
Theorem unique_terminates maxBytes input :
  match Unique to_lower maxBytes false input with
  | Ok out =>
      NoDup ((λ o, unique_key to_lower (n_Dir o) (n_Out o)) <$> out) ∧
      Forall2 (λ r o, n_Dir o = n_Dir r ∧ n_FullPath o = JoinTargetPath (n_Dir r) [n_Out o] ∧
        (n_Out o = n_Out r ∨ str_len (n_Out o) ≤ name_limit maxBytes r)) input out
  | Err e => e ≠ ErrNotFound
  end.
Proof.
  unfold Unique. cbn [andb]. pose proof (unique_loop_spec maxBytes input ∅) as H.
  destruct (unique_loop _ _ _ _); [|done]. destruct H as (? & _ & ?). done.
Qed.
End unique.

(** ** Witnesses *)

Definition demo_execute (title : string) : res err string := Ok ("dir/" +:+ title +:+ "_report").
Lemma filename_limit_witness :
  renderFileName (λ _, false) demo_execute false 12 "a.txt" "Quarterly figures" = Ok "dir/Quarterl.txt" ∧
  RenderedNameLeafByteLen "dir/Quarterl.txt" ≤ max_bytes 12.
Proof.
  assert (H : renderFileName (λ _, false) demo_execute false 12 "a.txt" "Quarterly figures" = Ok "dir/Quarterl.txt")
    by (vm_compute; reflexivity).
  split; [exact H|]. exact (proj1 (filename_limit _ _ _ _ _ _ _ H)).
Defined.

Lemma truncate_keeps_runes_witness :
  TruncateBytesKeepingRunes (bytes_of [97; 228; 184; 150; 231; 149; 140]%nat) 6 = bytes_of [97; 228; 184; 150]%nat ∧
  utf8 (bytes_of [97; 228; 184; 150]%nat).
Proof.
  assert (E : TruncateBytesKeepingRunes (bytes_of [97; 228; 184; 150; 231; 149; 140]%nat) 6 = bytes_of [97; 228; 184; 150]%nat)
    by (vm_compute; reflexivity).
  split; [exact E|].
  assert (Hu : utf8 (bytes_of [97; 228; 184; 150; 231; 149; 140]%nat)).
  { apply (utf8_rune _ 1); [vm_compute; reflexivity|]. apply (utf8_rune _ 3); [vm_compute; reflexivity|].
    apply (utf8_rune _ 3); [vm_compute; reflexivity|]. apply utf8_nil. }
  destruct (truncate_keeps_runes _ 6 Hu ltac:(lia)) as (t & _ & H & _). rewrite E in H. exact H.
Defined.

(** Separators dropped, as a stand-in for filenamify. *)
Fixpoint drop_seps (s : string) : string :=
  match s with String a s => if is_sep a then drop_seps s else String a (drop_seps s) | EmptyString => "" end.
Lemma drop_seps_nosep s v : Some (drop_seps s) = Some v → all_chars nosep v = true.
Proof.
  intros [= <-]. induction s as [|a s IH]; [done|]. cbn [drop_seps]. destruct (is_sep a) eqn:Ha; [done|].
  cbn [all_chars]. unfold nosep at 1. by rewrite Ha.
Qed.

Definition demo_dir : downloadDirData := mkDirData "42" "../../etc" "Hi" "7" "8" "f.bin" "" 2024 5 6.
Lemma target_contained_witness :
  n_FullPath (Render (λ s, Some (drop_seps s)) (λ _, false) "G/Y&M" "/data/" "../x/../y.bin" demo_dir 255) =
    "/data/....etc/202405/x/y.bin" ∧
  below "/data/" "/data/....etc/202405/x/y.bin".
Proof.
  assert (E : n_FullPath (Render (λ s, Some (drop_seps s)) (λ _, false) "G/Y&M" "/data/" "../x/../y.bin" demo_dir 255) =
    "/data/....etc/202405/x/y.bin") by (vm_compute; reflexivity).
  split; [exact E|]. rewrite <- E.
  exact (proj1 (target_contained (λ s, Some (drop_seps s)) drop_seps_nosep (λ _, false) "G/Y&M" "/data/" "../x/../y.bin" demo_dir 255
    ltac:(vm_compute; discriminate))).
Defined.

(** ASCII lower-casing. *)
Fixpoint ascii_lower (s : string) : string :=
  match s with String a s => String (lower_byte a) (ascii_lower s) | EmptyString => "" end.
Lemma ascii_lower_law s a t : byte a < 128 → ascii_lower (s +:+ String a t) = ascii_lower s +:+ String (lower_byte a) (ascii_lower t).
Proof. intros _. induction s as [|x s IH]; [done|]. exact (f_equal (String (lower_byte x)) IH). Qed.

Definition demo_names : list NamingResult :=
  [mkNaming "Photo.jpg" "/d" "Photo.jpg" "/d/Photo.jpg" 16; mkNaming "photo.JPG" "/d" "photo.JPG" "/d/photo.JPG" 16;
   mkNaming "PHOTO.jpg" "/d" "PHOTO.jpg" "/d/PHOTO.jpg" 16].
Lemma unique_terminates_witness :
  ∃ out, Unique ascii_lower 255 false demo_names = Ok out ∧ n_Out <$> out = ["Photo.jpg"; "photo (2).JPG"; "PHOTO (3).jpg"] ∧
    NoDup ((λ o, unique_key ascii_lower (n_Dir o) (n_Out o)) <$> out).
Proof.
  pose proof (unique_terminates ascii_lower eq_refl ascii_lower_law 255 demo_names) as H.
  destruct (Unique ascii_lower 255 false demo_names) as [out|e] eqn:E.
  - exists out. split; [reflexivity|]. split; [|exact (proj1 H)]. vm_compute in E. apply (inj Ok) in E. subst out. reflexivity.
  - exfalso. vm_compute in E. discriminate E.
Defined.
