(* ===== verification/LocalWorker.v ===== *)
(** * Local downloader (application/downloader.local)

    The worker that runs stored downloads, one goroutine per task, its queue,
    the progress writer, and the controller that pauses, starts, deletes and
    lists tasks.  Every store operation, file-system call and locked section
    is one step; what the source, the file system and the store answer comes
    with the step.  The store is the map of records its repository keeps
    (TaskRepos.v); files are sizes, with inodes, since an open file survives
    its removal. *)

From S2P Require Import Prelude Lts Strings Storage TaskTypes Taskhub TaskRepos DownloadProps TargetPath.
Local Open Scope list_scope.

(** ** Records (worker_util.go, worker.go) *)

Definition shouldRunLocalDownload (status : string) : bool :=
  String.eqb status DownloadQueued || String.eqb status DownloadError.
Definition shouldPauseLocalDownloadForShutdown (status : string) : bool :=
  negb (String.eqb status DownloadComplete || String.eqb status DownloadRemoved || String.eqb status DownloadPaused).

Definition sameExecution (current previous : LocalRecord) : bool :=
  (l_CreatedAt current =? l_CreatedAt previous) &&
  match l_StartedAt current, l_StartedAt previous with
  | None, None => true
  | Some a, Some b => a =? b
  | _, _ => false
  end.

Fixpoint unique_local (seen ids : list string) : list string :=
  match ids with
  | [] => []
  | id :: ids =>
      let id := TrimSpace id in
      if String.eqb id "" || bool_decide (id ∈ seen) then unique_local seen ids
      else id :: unique_local (id :: seen) ids
  end.
Definition uniqueLocalDownloadIDs (ids : list string) : list string := unique_local [] ids.

(** The fields the callbacks write. *)
Definition l_put (r : LocalRecord) (dir path : string) (total completed : Z) (status error : string) (speed : Z)
    (started : option Z) : LocalRecord :=
  mkLocal (l_State r) (l_Revision r) (l_ID r) (l_TaskID r) (l_FileName r) dir (l_Out r) path total completed
    status error speed started (l_CreatedAt r) (l_UpdatedAt r).
Definition l_status (r : LocalRecord) (status error : string) (speed : Z) : LocalRecord :=
  l_put r (l_Dir r) (l_Path r) (l_Total r) (l_Completed r) status error speed (l_StartedAt r).

(** The callbacks given to [store.Update]. *)
Definition shutdown_record (r : LocalRecord) : option LocalRecord :=
  if shouldPauseLocalDownloadForShutdown (l_Status r) then Some (l_status r DownloadPaused "" 0) else None.
Definition recover_record (r : LocalRecord) : option LocalRecord :=
  if String.eqb (l_Status r) DownloadActive then Some (l_status r DownloadQueued "" (l_DownloadSpeed r)) else None.
Definition claim_record (exec : LocalRecord) (now : Z) (current : LocalRecord) : option LocalRecord :=
  if negb (sameExecution current exec) || negb (shouldRunLocalDownload (l_Status current)) then None
  else Some (l_put current (l_Dir current) (l_Path current) (l_Total exec) (l_Completed exec) DownloadActive "" 0 (Some now)).
Definition runnable_record (current : LocalRecord) : bool :=
  String.eqb (l_Status current) DownloadActive || shouldRunLocalDownload (l_Status current).
Definition complete_record (exec current : LocalRecord) : option LocalRecord :=
  if negb (sameExecution current exec) || negb (runnable_record current) then None
  else Some (l_put current (l_Dir current) (l_Path current) (l_Total exec) (l_Total exec) DownloadComplete "" 0 (l_StartedAt current)).
Definition error_record (exec : LocalRecord) (cause : string) (current : LocalRecord) : option LocalRecord :=
  if negb (sameExecution current exec) || negb (runnable_record current) then None
  else Some (l_status current DownloadError cause 0).
(** worker_writer.go: [flush] *)
Definition flush_record (exec : LocalRecord) (completed speed : Z) (current : LocalRecord) : option LocalRecord :=
  if negb (String.eqb (l_Status current) DownloadActive) || negb (sameExecution current exec) then None
  else Some (l_put current (l_Dir current) (l_Path current) (if l_Total current <=? 0 then l_Total exec else l_Total current)
               completed (l_Status current) (l_Error current) speed (l_StartedAt current)).
(** controller.go *)
Definition pause_record (r : LocalRecord) : option LocalRecord :=
  if shouldPauseLocalDownloadForShutdown (l_Status r) then Some (l_status r DownloadPaused "" (l_DownloadSpeed r)) else None.
Definition start_record (r : LocalRecord) : option LocalRecord :=
  if String.eqb (l_Status r) DownloadComplete || String.eqb (l_Status r) DownloadRemoved then None
  else Some (l_put r (l_Dir r) (l_Path r) (l_Total r) (l_Completed r) DownloadQueued "" (l_DownloadSpeed r) None).
Definition delete_record (r : LocalRecord) : option LocalRecord :=
  Some (if String.eqb (l_Status r) DownloadComplete then r else l_status r DownloadRemoved (l_Error r) (l_DownloadSpeed r)).
Definition refresh_record (size : Z) (r : LocalRecord) : option LocalRecord :=
  if String.eqb (l_Status r) DownloadRemoved then None
  else
    let size := if (0 <? l_Total r) && (l_Total r <? size) then l_Total r else size in
    let finished := (0 <? l_Total r) && (l_Total r <=? size)
                    && negb (String.eqb (l_Status r) DownloadPaused) && negb (String.eqb (l_Status r) DownloadComplete) in
    if negb (l_Completed r =? size) || finished
    then Some (l_put r (l_Dir r) (l_Path r) (l_Total r) size (if finished then DownloadComplete else l_Status r)
                 (if finished then "" else l_Error r) (l_DownloadSpeed r) (l_StartedAt r))
    else None.

(** ** The store *)

Abbreviation lrepo := (gmap string LocalRecord).

(** [Update] on the decoded records; see [lr_update_refines]. *)
Definition lr_update (now : Z) (id : string) (change : LocalRecord → option LocalRecord) (m : lrepo) : res err bool * lrepo :=
  match m !! id with
  | None => (Ok false, m)
  | Some r =>
      match change r with
      | None => (Ok false, m)
      | Some r' =>
          if DownloadTransition (l_State r) (NormalizeDownloadState (l_Status r'))
          then (Ok true, <[id := local_next now id r r']> m)
          else (Err (ErrMsg "invalid download state transition"), m)
      end
  end.

(** ** Files *)

Record disk := mkDisk { d_paths : gmap string nat; d_sizes : gmap nat Z }.
Definition inode_size (d : disk) (ino : nat) : Z := default 0 (d_sizes d !! ino).
Definition file_size (d : disk) (path : string) : option Z := inode_size d <$> d_paths d !! path.
Definition set_size (d : disk) (ino : nat) (size : Z) : disk := mkDisk (d_paths d) (<[ino := size]> (d_sizes d)).
(** [os.Remove] *)
Definition unlink (path : string) (d : disk) : disk := mkDisk (delete path (d_paths d)) (d_sizes d).
(** [os.OpenFile] with [O_CREATE] *)
Definition open_file (path : string) (d : disk) : nat * disk :=
  match d_paths d !! path with
  | Some ino => (ino, d)
  | None =>
      let ino := fresh (dom (d_sizes d)) in
      (ino, mkDisk (<[path := ino]> (d_paths d)) (<[ino := 0]> (d_sizes d)))
  end.

(** partial.go: the size to resume from; an oversized file starts again. *)
Definition prepareInternalPartialFile (path : string) (total : Z) (d : disk) : Z * disk :=
  match d_paths d !! path with
  | None => (0, d)
  | Some ino =>
      if (0 <? total) && (total <? inode_size d ino) then (0, set_size d ino 0) else (inode_size d ino, d)
  end.

(** ** One execution *)

(** Where [Execute] stands; [r] is its [record], whose [l_Completed] stays the
    size it resumed from, and [pos] the writer's [completed]. *)
Inductive pc :=
  | PLoad
  | PSource (r : LocalRecord)
  | PDisk (r : LocalRecord)
  | PAcquire (r : LocalRecord)
  | PClaim (r : LocalRecord)
  | POpen (r : LocalRecord)
  | PStream (r : LocalRecord) (ino : nat) (pos : Z)    (* in source.Stream, between writes *)
  | PWrite (r : LocalRecord) (ino : nat) (pos : Z)     (* checkStatus passed *)
  | PFlush (r : LocalRecord) (ino : nat) (pos : Z)     (* bytes written, progress not yet *)
  | PEnd (r : LocalRecord) (pos : Z)                   (* before the last flush *)
  | PComplete (r : LocalRecord)                        (* markComplete *)
  | PMark (task : string)                              (* its MarkDownloaded *)
  | PError (r : LocalRecord) (cause : string)          (* markError *)
  | PLeave.

(** [x_writes]: the offsets and lengths written so far. *)
Record exec := mkExec { x_id : string; x_pc : pc; x_lease : bool; x_writes : list (Z * Z) }.
Definition x_at (x : exec) (p : pc) : exec := mkExec (x_id x) p (x_lease x) (x_writes x).

Inductive source_answer :=
  | SrcError (e : string)
  | SrcMissing
  | SrcTask (available : bool) (size : Z).
Inductive stop_kind := StopQuiet | StopError (e : string).   (* canceled, paused or removed; anything else *)

(** What the surroundings answer to one step. *)
Inductive answer :=
  | AFail                                  (* the store or the system call failed *)
  | AStore (now : Z)                       (* a store operation *)
  | ASource (s : source_answer)
  | ADisk
  | ACanceled                              (* Acquire: context.Canceled *)
  | ALease
  | AChunk                                 (* Stream calls Write *)
  | AData (n : Z)                          (* the file took n bytes *)
  | ASkipFlush
  | AFlush (now speed : Z)
  | AReturn (e : option stop_kind) (close_error : bool).

Definition with_path (r : LocalRecord) (total : Z) : LocalRecord :=
  let path := if String.eqb (l_Path r) "" then JoinTargetPath (l_Dir r) [l_Out r] else l_Path r in
  let dir := if String.eqb (l_Dir r) "" then Dir path else l_Dir r in
  l_put r dir path total (l_Completed r) (l_Status r) (l_Error r) (l_DownloadSpeed r) (l_StartedAt r).
Definition with_completed (r : LocalRecord) (completed : Z) : LocalRecord :=
  l_put r (l_Dir r) (l_Path r) (l_Total r) completed (l_Status r) (l_Error r) (l_DownloadSpeed r) (l_StartedAt r).

(** [source.Get] and the checks after it *)
Definition after_source (r : LocalRecord) (s : source_answer) : pc :=
  match s with
  | SrcError e => PError r e
  | SrcMissing => PError r "download link record not found"
  | SrcTask available size =>
      if negb available then PError r "download media is not available"
      else
        let total := if 0 <? size then size else l_Total r in
        if total <=? 0 then PError (l_put r (l_Dir r) (l_Path r) total (l_Completed r) (l_Status r) (l_Error r)
                                      (l_DownloadSpeed r) (l_StartedAt r)) "invalid file size"
        else PDisk (with_path r total)
  end.

(** [checkStatus] *)
Definition status_allows (r : LocalRecord) (o : option LocalRecord) : bool :=
  match o with
  | None => false
  | Some current => sameExecution current r &&
      negb (String.eqb (l_Status current) DownloadPaused || String.eqb (l_Status current) DownloadRemoved)
  end.

(** After [Stream] returned and the file was closed. *)
Definition after_stream (r : LocalRecord) (pos : Z) (e : option stop_kind) (close_error : bool) : pc :=
  match e with
  | Some StopQuiet => PLeave
  | Some (StopError e) => PError r e
  | None =>
      if close_error then PError r "close"
      else if negb (pos =? l_Total r) then PError r "unexpected EOF"
      else PEnd r pos
  end.

Definition world := (lrepo * disk)%type.

(** One step of [Execute] and of the writer. *)
Definition exec_step (x : exec) (a : answer) (w : world) : option (exec * world) :=
  let '(m, d) := w in
  match x_pc x, a with
  | PLoad, AFail => Some (x_at x PLeave, w)
  | PLoad, AStore _ =>
      match m !! x_id x with
      | Some r => Some (x_at x (if shouldRunLocalDownload (l_Status r) then PSource r else PLeave), w)
      | None => Some (x_at x PLeave, w)
      end
  | PSource r, ASource s => Some (x_at x (after_source r s), w)
  | PDisk r, AFail => Some (x_at x (PError r "prepare target file"), w)
  | PDisk r, ADisk =>
      let '(completed, d) := prepareInternalPartialFile (l_Path r) (l_Total r) d in
      let r := with_completed r completed in
      Some (x_at x (if l_Total r <=? completed then PComplete r else PAcquire r), (m, d))
  | PAcquire r, ACanceled => Some (x_at x PLeave, w)
  | PAcquire r, AFail => Some (x_at x (PError r "acquire"), w)
  | PAcquire r, ALease => Some (mkExec (x_id x) (PClaim r) true (x_writes x), w)
  | PClaim r, AFail => Some (x_at x PLeave, w)
  | PClaim r, AStore now =>
      (* the callback's [record = *current] *)
      let claimed := m !! x_id x ≫= claim_record r now in
      match lr_update now (x_id x) (claim_record r now) m, claimed with
      | (Ok true, m), Some r => Some (x_at x (POpen r), (m, d))
      | (_, m), _ => Some (x_at x PLeave, (m, d))
      end
  | POpen r, AFail => Some (x_at x (PError r "open target file"), w)
  | POpen r, ADisk =>
      if String.eqb (l_Path r) "" then Some (x_at x (PError r "open target file"), w)
      else let '(ino, d) := open_file (l_Path r) d in Some (x_at x (PStream r ino (l_Completed r)), (m, d))
  | PStream r ino pos, AChunk =>
      Some (x_at x (if status_allows r (m !! x_id x) then PWrite r ino pos else PStream r ino pos), w)
  | PStream r ino pos, AFail => Some (x, w)      (* Write fails on the status check *)
  | PStream r ino pos, AReturn e c => Some (x_at x (after_stream r pos e c), w)
  | PWrite r ino pos, AData n =>
      if n <? 0 then None
      else if n =? 0 then Some (x_at x (PStream r ino pos), w)
      else Some (mkExec (x_id x) (PFlush r ino (pos + n)) (x_lease x) (x_writes x ++ [(pos, n)]),
                 (m, set_size d ino (Z.max (inode_size d ino) (pos + n))))
  | PFlush r ino pos, ASkipFlush =>
      if l_Total r <=? pos then None else Some (x_at x (PStream r ino pos), w)
  | PFlush r ino pos, AFlush now speed =>
      Some (x_at x (PStream r ino pos), ((lr_update now (x_id x) (flush_record r pos speed) m).2, d))
  | PFlush r ino pos, AFail => Some (x_at x (PStream r ino pos), w)
  | PEnd r pos, AFlush now speed => Some (x_at x (PComplete r), ((lr_update now (x_id x) (flush_record r pos speed) m).2, d))
  | PEnd r pos, AFail => Some (x_at x (PComplete r), w)
  | PComplete r, AStore now =>
      match lr_update now (x_id x) (complete_record r) m with
      | (Ok true, m) => Some (x_at x (PMark (l_TaskID r)), (m, d))
      | (_, m) => Some (x_at x PLeave, (m, d))
      end
  | PComplete r, AFail => Some (x_at x PLeave, w)
  (* [LMarkDownloaded] of the task's link, in another collection: an error is only logged *)
  | PMark task, AStore _ | PMark task, AFail => Some (x_at x PLeave, w)
  | PError r cause, AStore now => Some (x_at x PLeave, ((lr_update now (x_id x) (error_record r cause) m).2, d))
  | PError r cause, AFail => Some (x_at x PLeave, w)
  | _, _ => None
  end.

(** ** The worker *)

Definition localDownloadQueueSize : nat := 100.

(** [w_sending]: calls of [queueID] between the two locked parts, with the
    queue they will send to; a restart makes a new queue. *)
Record sys := mkSys {
  w_repo : lrepo;
  w_disk : disk;
  w_running : bool;
  w_looping : bool;                      (* the loop still receives *)
  w_canceled : bool;
  w_generation : nat;
  w_queue : list string;
  w_queued : gset string;
  w_active : gset string;
  w_sending : list (nat * string);
  w_threads : gmap nat exec;
  w_next : nat;
}.
Definition with_world (w : world) (y : sys) : sys :=
  mkSys w.1 w.2 (w_running y) (w_looping y) (w_canceled y) (w_generation y) (w_queue y) (w_queued y) (w_active y)
    (w_sending y) (w_threads y) (w_next y).
Definition with_queue (queue : list string) (queued : gset string) (sending : list (nat * string)) (y : sys) : sys :=
  mkSys (w_repo y) (w_disk y) (w_running y) (w_looping y) (w_canceled y) (w_generation y) queue queued (w_active y)
    sending (w_threads y) (w_next y).
Definition with_threads (queued active : gset string) (threads : gmap nat exec) (next : nat) (y : sys) : sys :=
  mkSys (w_repo y) (w_disk y) (w_running y) (w_looping y) (w_canceled y) (w_generation y) (w_queue y) queued active
    (w_sending y) threads next.

(** [Start], up to the goroutine. *)
Definition worker_start (y : sys) : sys :=
  if w_running y then y
  else mkSys (w_repo y) (w_disk y) true true false (S (w_generation y)) [] ∅ ∅ (w_sending y) (w_threads y) (w_next y).
(** [Stop] and a canceled context *)
Definition worker_cancel (y : sys) : sys :=
  mkSys (w_repo y) (w_disk y) (w_running y) (w_looping y) true (w_generation y) (w_queue y) (w_queued y) (w_active y)
    (w_sending y) (w_threads y) (w_next y).
Definition loop_stop (y : sys) : option sys :=
  if w_canceled y && w_looping y
  then Some (mkSys (w_repo y) (w_disk y) (w_running y) false true (w_generation y) (w_queue y) (w_queued y) (w_active y)
               (w_sending y) (w_threads y) (w_next y))
  else None.
(** The loop has returned: [wg.Wait] and the deferred reset. *)
Definition worker_exit (y : sys) : option sys :=
  if w_running y && negb (w_looping y) && bool_decide (w_threads y = ∅)
  then Some (mkSys (w_repo y) (w_disk y) false false (w_canceled y) (w_generation y) [] ∅ ∅ (w_sending y) ∅ (w_next y))
  else None.

(** [queueID]: the first locked part, then the send. *)
Definition queue_begin (id : string) (y : sys) : sys :=
  if negb (w_running y) || bool_decide (id ∈ w_queued y) || bool_decide (id ∈ w_active y) then y
  else with_queue (w_queue y) ({[id]} ∪ w_queued y) ((w_generation y, id) :: w_sending y) y.
(** [full] tells whether a queue that is no longer received from is full. *)
Definition queue_send (k : nat) (full : bool) (y : sys) : option sys :=
  '(g, id) ← w_sending y !! k;
  let sending := delete k (w_sending y) in
  let current := bool_decide (g = w_generation y) && w_running y in
  let full := if current then bool_decide (localDownloadQueueSize ≤ length (w_queue y))%nat else full in
  Some (if full then with_queue (w_queue y) (w_queued y ∖ {[id]}) sending y
        else with_queue (if current then w_queue y ++ [id] else w_queue y) (w_queued y) sending y).

(** The loop takes an ID from the queue: [markRunning]. *)
Definition receive (y : sys) : option sys :=
  match w_queue y with
  | id :: queue =>
      if negb (w_looping y) then None
      else
        let queued := w_queued y ∖ {[id]} in
        let y := with_queue queue queued (w_sending y) y in
        if String.eqb id "" || bool_decide (id ∈ w_active y) then Some y
        else Some (with_threads queued ({[id]} ∪ w_active y)
                     (<[w_next y := mkExec id PLoad false []]> (w_threads y)) (S (w_next y)) y)
  | [] => None
  end.

(** A step of a goroutine; leaving releases the lease and runs
    [markStopped]. *)
Definition thread_step (k : nat) (a : answer) (y : sys) : option sys :=
  x ← w_threads y !! k;
  match x_pc x with
  | PLeave => Some (with_threads (w_queued y) (w_active y ∖ {[x_id x]}) (delete k (w_threads y)) (w_next y) y)
  | _ =>
      '(x', w) ← exec_step x a (w_repo y, w_disk y);
      Some (with_world w (with_threads (w_queued y) (w_active y) (<[k := x']> (w_threads y)) (w_next y) y))
  end.

(** [enqueuePending], of which every [queueID] is a step; [Recover] and
    [PauseForShutdown], one record at a time. *)
Definition pending_ids (m : lrepo) : list string :=
  (filter (λ '(_, r), shouldRunLocalDownload (l_Status r) = true) (map_to_list m)).*1.
Fixpoint update_all (now : Z) (change : LocalRecord → option LocalRecord) (ids : list string) (m : lrepo)
    : res err (list string) * lrepo :=
  match ids with
  | [] => (Ok [], m)
  | id :: ids =>
      match lr_update now id change m with
      | (Err x, m) => (Err x, m)
      | (Ok changed, m) =>
          let '(r, m) := update_all now change ids m in
          ((λ l, if changed then id :: l else l) <$> r, m)
      end
  end.
Definition Recover (now : Z) (m : lrepo) : res err (list string) * lrepo :=
  update_all now recover_record (map_to_list m).*1 m.
Definition PauseForShutdown (now : Z) (m : lrepo) : res err (list string) * lrepo :=
  update_all now shutdown_record (map_to_list m).*1 m.

(** [Add]: the record a submission creates. *)
Definition added_record (now : Z) (id fileName dir out path : string) (size : Z) : LocalRecord :=
  mkLocal "" 0 id id fileName dir out path size 0 DownloadQueued "" 0 None now 0.

(** ** The controller (controller.go) *)

Record action_result := mkResult { c_matched : Z; c_changed : Z; c_skipped : Z; c_errors : list string }.
Definition no_result : action_result := mkResult 0 0 0 [].
Definition one_changed (r : action_result) : action_result := mkResult (c_matched r + 1) (c_changed r + 1) (c_skipped r) (c_errors r).
Definition one_skipped (r : action_result) : action_result := mkResult (c_matched r) (c_changed r) (c_skipped r + 1) (c_errors r).
Definition one_error (id : string) (r : action_result) : action_result :=
  mkResult (c_matched r) (c_changed r) (c_skipped r) (c_errors r ++ [id]).

(** [fail] tells the IDs for which the store fails. *)
Fixpoint update_statuses (fail : string → bool) (now : Z) (update : LocalRecord → option LocalRecord) (ids : list string)
    (res : action_result) (m : lrepo) : action_result * lrepo :=
  match ids with
  | [] => (res, m)
  | id :: ids =>
      if fail id then update_statuses fail now update ids (one_error id res) m
      else match lr_update now id update m with
           | (Err _, m) => update_statuses fail now update ids (one_error id res) m
           | (Ok true, m) => update_statuses fail now update ids (one_changed res) m
           | (Ok false, m) => update_statuses fail now update ids (one_skipped res) m
           end
  end.
Definition updateStatuses fail now update (ids : list string) (m : lrepo) : action_result * lrepo :=
  update_statuses fail now update (uniqueLocalDownloadIDs ids) no_result m.
Definition CtlPause fail now ids (m : lrepo) := updateStatuses fail now pause_record ids m.
Definition CtlStart fail now ids (m : lrepo) := updateStatuses fail now start_record ids m.
Definition with_status (statuses : list string) (m : lrepo) : list string :=
  (filter (λ '(_, r), l_Status r ∈ statuses) (map_to_list m)).*1.
Definition PauseAll fail now (m : lrepo) :=
  CtlPause fail now (with_status [DownloadQueued; DownloadActive; DownloadError] m) m.
Definition StartAll fail now (m : lrepo) := CtlStart fail now (with_status [DownloadPaused; DownloadError] m) m.

(** [Delete] of one task; [fails] is the call that fails, if one does. *)
Inductive delete_failure := DeleteGet | DeleteUpdate | DeleteFile | DeleteRecord.
#[export] Instance delete_failure_eq : EqDecision delete_failure.
Proof. solve_decision. Defined.
Definition delete_one (fails : option delete_failure) (now : Z) (id : string) (res : action_result) (w : world)
    : action_result * world :=
  let '(m, d) := w in
  if bool_decide (fails = Some DeleteGet) then (one_error id res, w)
  else match m !! id with
  | None => (one_skipped res, w)
  | Some _ =>
      let res := mkResult (c_matched res + 1) (c_changed res) (c_skipped res) (c_errors res) in
      let record := m !! id ≫= delete_record in
      if bool_decide (fails = Some DeleteUpdate) then (one_error id res, w)
      else match lr_update now id delete_record m, record with
      | (Ok true, m), Some record =>
          let partial := negb (String.eqb (l_Status record) DownloadComplete) && negb (String.eqb (l_Path record) "") in
          if partial && bool_decide (fails = Some DeleteFile) then (one_error id res, (m, d))
          else
            let d := if partial then unlink (l_Path record) d else d in
            if bool_decide (fails = Some DeleteRecord) then (one_error id res, (m, d))
            else (mkResult (c_matched res) (c_changed res + 1) (c_skipped res) (c_errors res), (delete id m, d))
      | (Err _, m), _ => (one_error id res, (m, d))
      | (_, m), _ => (one_skipped res, (m, d))
      end
  end.
Definition CtlDelete (fails : string → option delete_failure) (now : Z) (ids : list string) (w : world) : action_result * world :=
  foldl (λ '(res, w) id, delete_one (fails id) now id res w) (no_result, w) (uniqueLocalDownloadIDs ids).
Definition DeleteAllByStatus (fails : string → option delete_failure) (now : Z) (statuses : list string) (w : world)
    : action_result * world :=
  let statuses := match statuses with [] => [DownloadComplete; DownloadError] | _ => (λ s, ToLower_ascii (TrimSpace s)) <$> statuses end in
  CtlDelete fails now (with_status statuses w.1) w.

(** [refreshRecordFromDisk], given [os.Stat]'s size of a file that exists; the
    mark it puts on the link of a file found complete is left out. *)
Definition refreshRecordFromDisk (now : Z) (id : string) (size : Z) (m : lrepo) : lrepo :=
  (lr_update now id (refresh_record size) m).2.

Record overview := mkOverview { o_total : Z; o_active : Z; o_queued : Z; o_paused : Z; o_complete : Z; o_error : Z }.
Definition count_status (status : string) (m : lrepo) : Z := msum (λ r, if String.eqb (l_Status r) status then 1 else 0) m.
Definition Overview (m : lrepo) : overview :=
  mkOverview (Z.of_nat (size m)) (count_status DownloadActive m) (count_status DownloadQueued m) (count_status DownloadPaused m)
    (count_status DownloadComplete m) (count_status DownloadError m).

(** ** Everything together *)

Inductive event :=
  | EStart
  | ECancel
  | ELoopStop
  | EExit
  | EQueue (id : string)                       (* Add, or a record of enqueuePending *)
  | ESend (k : nat) (full : bool)
  | EReceive
  | EThread (k : nat) (a : answer)
  | ERecover (now : Z) (id : string)
  | EShutdown (now : Z) (id : string)
  | ECreate (r : LocalRecord)                  (* the record Create stored *)
  | EPause (now : Z) (id : string)
  | EResume (now : Z) (id : string)
  | EMarkDeleted (now : Z) (id : string)
  | EUnlink (path : string)
  | ERemove (id : string)
  | ERefresh (now : Z) (id : string) (size : Z).

Definition upd_repo (f : lrepo → lrepo) (y : sys) : sys := with_world (f (w_repo y), w_disk y) y.

Definition w_step (e : event) (y : sys) : option sys :=
  match e with
  | EStart => Some (worker_start y)
  | ECancel => Some (worker_cancel y)
  | ELoopStop => loop_stop y
  | EExit => worker_exit y
  | EQueue id => Some (queue_begin id y)
  | ESend k full => queue_send k full y
  | EReceive => receive y
  | EThread k a => thread_step k a y
  | ERecover now id => Some (upd_repo (λ m, (lr_update now id recover_record m).2) y)
  | EShutdown now id => Some (upd_repo (λ m, (lr_update now id shutdown_record m).2) y)
  | ECreate r => Some (upd_repo (λ m, match m !! l_ID r with Some _ => m | None => <[l_ID r := r]> m end) y)
  | EPause now id => Some (upd_repo (λ m, (lr_update now id pause_record m).2) y)
  | EResume now id => Some (upd_repo (λ m, (lr_update now id start_record m).2) y)
  | EMarkDeleted now id => Some (upd_repo (λ m, (lr_update now id delete_record m).2) y)
  | EUnlink path => Some (with_world (w_repo y, unlink path (w_disk y)) y)
  | ERemove id => Some (upd_repo (delete id) y)
  | ERefresh now id size => Some (upd_repo (refreshRecordFromDisk now id size) y)
  end.
Definition w_run (l : list event) (y : sys) : option sys := steps w_step l y.
(** A fresh worker over stored records and files. *)
Definition w_init (m : lrepo) (d : disk) : sys := mkSys m d false false false 0 [] ∅ ∅ [] ∅ 0.
