(* ===== verification/LocalProps.v ===== *)
(** * Properties of the local downloader *)

From S2P Require Import Prelude Lts Strings Storage TaskTypes Taskhub TaskRepos DownloadProps TargetPath LocalWorker.
Local Open Scope list_scope.

(** ** The store behind the worker *)

(** An update of the repository is refused and changes nothing, or does what
    [lr_update] does. *)
Lemma lr_update_refines now id change (s : store) (m : lrepo) r :
  local_stored s id r → m !! id = Some r → (∀ a b, change a = Some b → wf_local b = true) →
  ((LUpdate true now id change false s).2 = s ∧ (LUpdate true now id change false s).1 ≠ Ok true) ∨
  ∃ r', lr_update now id change m = (Ok true, <[id := r']> m) ∧ (LUpdate true now id change false s).1 = Ok true ∧
    local_stored (LUpdate true now id change false s).2 id r'.
Proof.
  intros Hs Hm Hw. destruct (LUpdate_step now id change s r Hs Hw) as [?|(r' & Hc & H1 & Ht & H2)]; [by left|].
  right. exists (local_next now id r r'). unfold lr_update. rewrite Hm, Hc, Ht.
  split; [reflexivity|]. split; [exact H1|exact H2].
Qed.

Lemma lr_update_cases now id change (m : lrepo) :
  (lr_update now id change m).2 = m ∨
  ∃ r r', m !! id = Some r ∧ change r = Some r' ∧ (lr_update now id change m).1 = Ok true ∧
    (lr_update now id change m).2 = <[id := local_next now id r r']> m.
Proof.
  unfold lr_update. destruct (m !! id) as [r|]; [|by left]. destruct (change r) as [r'|] eqn:E; [|by left].
  destruct (DownloadTransition _ _); [|by left]. right. by exists r, r'.
Qed.

(** ** Bytes written *)

(** Contiguous, non-empty writes from [a] to [b]. *)
Fixpoint tiles (l : list (Z * Z)) (a b : Z) : Prop :=
  match l with [] => a = b | (o, n) :: l => o = a ∧ 0 < n ∧ tiles l (a + n) b end.
Lemma tiles_snoc l a b n : tiles l a b → 0 < n → tiles (l ++ [(b, n)]) a (b + n).
Proof.
  revert a. induction l as [|[o k] l IH]; intros a; cbn; [by intros -> ?|]. intros (-> & ? & ?) ?. split_and!; auto.
Qed.
Lemma tiles_le l a b : tiles l a b → a ≤ b.
Proof. revert a. induction l as [|[o k] l IH]; intros a; cbn; [lia|]. intros (-> & ? & ?%IH). lia. Qed.

Definition writes_ok (x : exec) : Prop :=
  match x_pc x with
  | PLoad | PSource _ | PDisk _ | PAcquire _ | PClaim _ | POpen _ => x_writes x = []
  | PStream r _ pos | PWrite r _ pos | PFlush r _ pos => tiles (x_writes x) (l_Completed r) pos
  | PEnd r pos => tiles (x_writes x) (l_Completed r) pos ∧ pos = l_Total r
  | PComplete r => tiles (x_writes x) (l_Completed r) (Z.max (l_Completed r) (l_Total r))
  | PMark _ | PError _ _ | PLeave => True
  end.

Lemma exec_step_ok x a w x' w' : exec_step x a w = Some (x', w') → writes_ok x →
  x_id x' = x_id x ∧ writes_ok x'.
Proof.
  unfold exec_step. destruct w as [m d]. unfold writes_ok at 1.
  destruct (x_pc x) as [|r|r|r|r|r|r ino pos|r ino pos|r ino pos|r pos|r|task|r c|] eqn:Hpc, a; try done; intros H Hw.
  all: try (injection H as <- <-; split; [done|]; unfold writes_ok; cbn [x_at x_pc x_writes x_id]; done).
  - destruct (m !! x_id x) as [r|]; injection H as <- <-; split; try done.
    unfold writes_ok. cbn [x_at x_pc x_writes]. by destruct (shouldRunLocalDownload _).
  - injection H as <- <-. split; [done|]. unfold writes_ok. cbn [x_at x_pc x_writes]. unfold after_source.
    destruct s as [|  |av sz]; try done. destruct (negb av); [done|]. by destruct (_ <=? 0).
  - destruct (prepareInternalPartialFile _ _ _) as [completed d']. injection H as <- <-. split; [done|].
    unfold writes_ok. cbn [x_at x_pc x_writes]. cbn [with_completed l_put l_Total].
    destruct (Z.leb_spec (l_Total r) completed); [|done]. rewrite Hw. cbn. lia.
  - set (claimed := m !! x_id x ≫= claim_record r now) in *.
    destruct (lr_update _ _ _ _) as [[[]|] m'], claimed as [q|]; injection H as <- <-; done.
  - destruct (String.eqb _ _); [by injection H as <- <-|]. destruct (open_file _ _) as [ino d']. injection H as <- <-.
    split; [done|]. unfold writes_ok. cbn [x_at x_pc x_writes]. by rewrite Hw.
  - injection H as <- <-. split; [done|]. unfold writes_ok. rewrite Hpc. done.
  - injection H as <- <-. split; [done|]. unfold writes_ok. cbn [x_at x_pc x_writes]. by destruct (status_allows _ _).
  - injection H as <- <-. split; [done|]. unfold writes_ok. cbn [x_at x_pc x_writes]. unfold after_stream.
    destruct e as [[]|]; try done. destruct close_error; [done|]. by destruct (Z.eqb_spec pos (l_Total r)).
  - destruct (Z.ltb_spec n 0); [done|]. destruct (Z.eqb_spec n 0); injection H as <- <-; split; try done.
    unfold writes_ok. cbn [x_pc x_writes]. apply tiles_snoc; [done|lia].
  - destruct (_ <=? _); [done|]. by injection H as <- <-.
  - injection H as <- <-. split; [done|]. unfold writes_ok. cbn [x_at x_pc x_writes]. destruct Hw as [Ht ->].
    pose proof (tiles_le _ _ _ Ht). by rewrite Z.max_r.
  - injection H as <- <-. split; [done|]. unfold writes_ok. cbn [x_at x_pc x_writes]. destruct Hw as [Ht ->].
    pose proof (tiles_le _ _ _ Ht). by rewrite Z.max_r.
  - destruct (lr_update _ _ _ _) as [[[]|] m1]; by injection H as <- <-.
Qed.

(** ** The invariant *)

Record w_ok (y : sys) : Prop := {
  ok_active : ∀ k x, w_threads y !! k = Some x → x_id x ∈ w_active y;
  ok_single : ∀ k k' x x', w_threads y !! k = Some x → w_threads y !! k' = Some x' → x_id x = x_id x' → k = k';
  ok_next : ∀ k, is_Some (w_threads y !! k) → (k < w_next y)%nat;
  ok_idle : w_running y = false → w_threads y = ∅;
  ok_loop : w_looping y = true → w_running y = true;
  ok_queue : (length (w_queue y) ≤ localDownloadQueueSize)%nat;
  ok_writes : ∀ k x, w_threads y !! k = Some x → writes_ok x;
}.

Ltac no_threads := intros;
  match goal with
  | H : ∅ !! _ = Some _ |- _ => by rewrite lookup_empty in H
  | H : is_Some (∅ !! _) |- _ => by rewrite lookup_empty in H; destruct H
  end.
Lemma w_ok_frame y y' : w_ok y →
  w_threads y' = w_threads y → w_active y' = w_active y → w_next y' = w_next y → w_running y' = w_running y →
  (w_looping y' = true → w_looping y = true) → (length (w_queue y') ≤ localDownloadQueueSize)%nat → w_ok y'.
Proof.
  intros [] Ht Ha Hn Hr Hl Hq. split; rewrite ?Ht, ?Ha, ?Hn, ?Hr; try done. auto.
Qed.

Lemma w_step_ok e y y' : w_ok y → w_step e y = Some y' → w_ok y'.
Proof.
  intros H. pose proof (ok_queue _ H) as Hq.
  destruct e; cbn [w_step]; try (intros [= <-]; by apply (w_ok_frame y); try done).
  - intros [= <-]. unfold worker_start. destruct (w_running y) eqn:Hr; [done|].
    pose proof (ok_idle _ H Hr) as E. split; cbn; rewrite ?E; try done; try no_threads.
    + unfold localDownloadQueueSize. lia.
  - unfold loop_stop. destruct (_ && _) eqn:E; [|done]. intros [= <-]. by apply (w_ok_frame y).
  - unfold worker_exit. destruct (_ && _); [|done]. intros [= <-]. split; cbn; try done; try no_threads.
    + unfold localDownloadQueueSize. lia.
  - unfold queue_begin. destruct (_ || _); intros [= <-]; [done|]. by apply (w_ok_frame y).
  - unfold queue_send. intros ([g id] & _ & Hs)%bind_Some. revert Hs.
    destruct (bool_decide (g = w_generation y) && w_running y) eqn:Ec; intros [= <-].
    + destruct (bool_decide (localDownloadQueueSize <= length (w_queue y))%nat) eqn:Hl; apply (w_ok_frame y); try done.
      apply bool_decide_eq_false in Hl. cbn. rewrite length_app. unfold localDownloadQueueSize in *. cbn. lia.
    + by destruct full; apply (w_ok_frame y).
  - unfold receive. destruct (w_queue y) as [|id queue] eqn:Hqe; [done|]. cbn in Hq. destruct (w_looping y) eqn:Hloop; [|done].
    cbn [negb]. destruct (String.eqb id "" || _) eqn:Hid; intros [= <-]; [apply (w_ok_frame y); try done; cbn; lia|].
    apply orb_false_iff in Hid as [_ Hna%bool_decide_eq_false]. cbn in Hna.
    assert (Hfresh : w_threads y !! w_next y = None).
    { destruct (w_threads y !! w_next y) eqn:E; [|done]. pose proof (ok_next _ H (w_next y) ltac:(eauto)). lia. }
    split; cbn.
    + intros k x [[<- <-]|[_ Hx]]%lookup_insert_Some; [cbn; set_solver|]. pose proof (ok_active _ H k x Hx). set_solver.
    + intros k k' x x' [[<- <-]|[Hk Hx]]%lookup_insert_Some [[<- <-]|[Hk' Hx']]%lookup_insert_Some He; try done.
      * exfalso. apply Hna. cbn in He. rewrite He. by apply (ok_active _ H k').
      * exfalso. apply Hna. cbn in He. rewrite <- He. by apply (ok_active _ H k).
      * by apply (ok_single _ H k k' x x').
    + intros k [x [[<- _]|[_ Hx]]%lookup_insert_Some]; [lia|]. pose proof (ok_next _ H k ltac:(eauto)). lia.
    + intros Hr. pose proof (ok_loop _ H Hloop). congruence.
    + apply (ok_loop _ H).
    + lia.
    + intros k x [[<- <-]|[_ Hx]]%lookup_insert_Some; [done|by apply (ok_writes _ H k)].
  - unfold thread_step. intros (x & Hx & Hs)%bind_Some.
    assert (Hleave : x_pc x = PLeave → Some (with_threads (w_queued y) (w_active y ∖ {[x_id x]}) (delete k (w_threads y)) (w_next y) y) = Some y' → w_ok y').
    { intros _ [= <-]. split; cbn; try apply H.
      - intros k' x' [Hk Hx']%lookup_delete_Some. pose proof (ok_active _ H k' x' Hx') as Ha.
        assert (x_id x' ≠ x_id x); [|set_solver]. intros E. apply Hk. by apply (ok_single _ H k k' x x').
      - intros k1 k2 x1 x2 [_ H1]%lookup_delete_Some [_ H2]%lookup_delete_Some. by apply (ok_single _ H k1 k2).
      - intros k' [x' [_ Hx']%lookup_delete_Some]. apply (ok_next _ H). eauto.
      - intros Hr. rewrite (ok_idle _ H Hr). apply delete_empty.
      - intros k' x' [_ Hx']%lookup_delete_Some. by apply (ok_writes _ H k'). }
    assert (Hmain : ('(x', w) ← exec_step x a (w_repo y, w_disk y);
      Some (with_world w (with_threads (w_queued y) (w_active y) (<[k := x']> (w_threads y)) (w_next y) y))) = Some y' → w_ok y').
    { intros ([x' w] & He & Hy)%bind_Some. injection Hy as <-.
      destruct (exec_step_ok _ _ _ _ _ He (ok_writes _ H k x Hx)) as [Eid Hw]. split; cbn; try apply H.
      - intros k' x1 [[<- <-]|[_ Hx1]]%lookup_insert_Some; [rewrite Eid|]; by eapply (ok_active _ H).
      - intros k1 k2 x1 x2 [[<- <-]|[Hk1 H1]]%lookup_insert_Some [[<- <-]|[Hk2 H2]]%lookup_insert_Some E; try done.
        + rewrite Eid in E. by apply (ok_single _ H k k2 x x2).
        + rewrite Eid in E. by apply (ok_single _ H k1 k x1 x).
        + by apply (ok_single _ H k1 k2 x1 x2).
      - intros k' [x1 [[<- _]|[_ Hx1]]%lookup_insert_Some]; apply (ok_next _ H); eauto.
      - intros Hr. rewrite (ok_idle _ H Hr) in Hx. by rewrite lookup_empty in Hx.
      - intros k' x1 [[<- <-]|[_ Hx1]]%lookup_insert_Some; [done|by apply (ok_writes _ H k')]. }
    destruct (x_pc x) eqn:Hpc; auto.
Qed.

Lemma w_init_ok m d : w_ok (w_init m d).
Proof.
  split; cbn; try done; try no_threads.
  - unfold localDownloadQueueSize. lia.
Qed.

Lemma w_run_ok l m d y : w_run l (w_init m d) = Some y → w_ok y.
Proof.
  apply steps_inv; [|apply w_init_ok]. intros e y1 y2. apply w_step_ok.
Qed.

(** ** What a goroutine does to the records *)

Definition open_status (s : string) : bool :=
  String.eqb s DownloadQueued || String.eqb s DownloadActive || String.eqb s DownloadError.

Lemma runnable_open r : runnable_record r = true → open_status (l_Status r) = true.
Proof.
  unfold runnable_record, shouldRunLocalDownload, open_status.
  destruct (String.eqb _ DownloadQueued), (String.eqb _ DownloadActive), (String.eqb _ DownloadError); done.
Qed.

(** A change a worker may make to the record of [x], [r] becoming [r']. *)
Record worker_change (x : exec) (r r' : LocalRecord) : Prop := {
  wc_from : open_status (l_Status r) = true;
  wc_to : l_Status r' = DownloadActive ∨ l_Status r' = DownloadError ∨ l_Status r' = DownloadComplete;
  wc_done : l_Status r' = DownloadComplete →
    ∃ q, x_pc x = PComplete q ∧ sameExecution r q = true ∧
      tiles (x_writes x) (l_Completed q) (Z.max (l_Completed q) (l_Total q)) ∧
      l_Completed r' = l_Total q ∧ l_Total r' = l_Total q;
}.

Lemma claim_inv exec now r r' : claim_record exec now r = Some r' →
  open_status (l_Status r) = true ∧ l_Status r' = DownloadActive.
Proof.
  unfold claim_record. destruct (sameExecution r exec); [|done]. cbn [negb orb].
  destruct (shouldRunLocalDownload (l_Status r)) eqn:E; [|done]. intros H. apply (inj Some) in H. subst r'.
  split; [|reflexivity]. apply runnable_open. unfold runnable_record. by rewrite E, orb_true_r.
Qed.
Lemma flush_inv exec completed speed r r' : flush_record exec completed speed r = Some r' →
  l_Status r = DownloadActive ∧ l_Status r' = DownloadActive.
Proof.
  unfold flush_record. destruct (String.eqb_spec (l_Status r) DownloadActive) as [E|]; [|done]. cbn [negb orb].
  destruct (sameExecution r exec); [|done]. cbn [negb]. intros H. apply (inj Some) in H. subst r'. by cbn.
Qed.
Lemma complete_inv exec r r' : complete_record exec r = Some r' →
  open_status (l_Status r) = true ∧ sameExecution r exec = true ∧ l_Status r' = DownloadComplete ∧
  l_Completed r' = l_Total exec ∧ l_Total r' = l_Total exec.
Proof.
  unfold complete_record. destruct (sameExecution r exec) eqn:Es; [|done]. cbn [negb orb].
  destruct (runnable_record r) eqn:E; [|done]. intros H. apply (inj Some) in H. subst r'.
  apply runnable_open in E. by cbn.
Qed.
Lemma error_inv exec cause r r' : error_record exec cause r = Some r' →
  open_status (l_Status r) = true ∧ l_Status r' = DownloadError.
Proof.
  unfold error_record. destruct (sameExecution r exec); [|done]. cbn [negb orb].
  destruct (runnable_record r) eqn:E; [|done]. intros H. apply (inj Some) in H. subst r'.
  apply runnable_open in E. by cbn.
Qed.

(** Every update of an execution, by the callback it gives. *)
Lemma lr_update_worker x now change m :
  (∀ r r', change r = Some r' → worker_change x r (local_next now (x_id x) r r')) →
  (lr_update now (x_id x) change m).2 = m ∨
  ∃ r r', m !! x_id x = Some r ∧ (lr_update now (x_id x) change m).2 = <[x_id x := r']> m ∧ worker_change x r r'.
Proof.
  intros Hc. destruct (lr_update_cases now (x_id x) change m) as [?|(r & r' & Hm & Hr & _ & Hu)]; [by left|].
  right. exists r, (local_next now (x_id x) r r'). auto.
Qed.
Lemma worker_change_plain x now r r' : open_status (l_Status r) = true →
  l_Status r' = DownloadActive ∨ l_Status r' = DownloadError →
  worker_change x r (local_next now (x_id x) r r').
Proof.
  intros Ho Hs. split; [done| |]; cbn [local_next l_set l_Status]; [tauto|].
  intros E. exfalso. rewrite E in Hs. by destruct Hs.
Qed.

Lemma exec_step_repo x a m d x' m' d' : exec_step x a (m, d) = Some (x', (m', d')) → writes_ok x →
  m' = m ∨ ∃ r r', m !! x_id x = Some r ∧ m' = <[x_id x := r']> m ∧ worker_change x r r'.
Proof.
  unfold exec_step. unfold writes_ok.
  destruct (x_pc x) as [|r|r|r|r|r|r ino pos|r ino pos|r ino pos|r pos|r|task|r c|] eqn:Hpc, a; try done; intros H Hw.
  all: try (injection H as _ <- _; by left).
  - destruct (m !! x_id x) as [r|]; injection H as _ <- _; by left.
  - destruct (prepareInternalPartialFile _ _ _). injection H as _ <- _. by left.
  - set (claimed := m !! x_id x ≫= claim_record r now) in *.
    assert (m' = (lr_update now (x_id x) (claim_record r now) m).2) as ->.
    { destruct (lr_update _ _ _ _) as [[[]|] m1], claimed as [q|]; by injection H as _ <- _. }
    apply lr_update_worker. intros q q' [? ?]%claim_inv. apply worker_change_plain; auto.
  - destruct (String.eqb _ _); [injection H as _ <- _; by left|]. destruct (open_file _ _).
    injection H as _ <- _. by left.
  - destruct (_ <? _); [done|]. destruct (_ =? _); injection H as _ <- _; by left.
  - destruct (_ <=? _); [done|]. injection H as _ <- _. by left.
  - injection H as _ <- _. apply lr_update_worker. intros q q' [E ?]%flush_inv.
    apply worker_change_plain; [by rewrite E|auto].
  - injection H as _ <- _. apply lr_update_worker. intros q q' [E ?]%flush_inv.
    apply worker_change_plain; [by rewrite E|auto].
  - assert (m' = (lr_update now (x_id x) (complete_record r) m).2) as ->.
    { destruct (lr_update _ _ _ _) as [[[]|] m1]; by injection H as _ <- _. }
    apply lr_update_worker. intros q q' (? & ? & Es & Ec & Et)%complete_inv.
    split; [done| |]; cbn [local_next l_set l_Status l_Completed l_Total]; [tauto|]. intros _. exists r. auto.
  - injection H as _ <- _. apply lr_update_worker. intros q q' [? ?]%error_inv. apply worker_change_plain; auto.
Qed.

(** ** The properties *)

(** No download runs twice at once: whatever is queued, restarted, added
    or deleted in between, two goroutines never execute the same task, every
    task that executes is marked active, goroutines exist only while the
    worker runs, and the queue stays within its capacity. *)
Theorem local_single_flight l m d y :
  w_run l (w_init m d) = Some y →
  (∀ k k' x x', w_threads y !! k = Some x → w_threads y !! k' = Some x' → x_id x = x_id x' → k = k') ∧
  (∀ k x, w_threads y !! k = Some x → x_id x ∈ w_active y ∧ w_running y = true) ∧
  (length (w_queue y) ≤ localDownloadQueueSize)%nat.
Proof.
  intros H%w_run_ok. split; [apply H|]. split; [|apply H]. intros k x Hx. split; [by apply (ok_active _ H k)|].
  destruct (w_running y) eqn:Hr; [done|]. rewrite (ok_idle _ H Hr) in Hx. by rewrite lookup_empty in Hx.
Qed.

Definition sample_download : LocalRecord := mkLocal "queued" 1 "d" "d" "f" "/t" "f" "/t/f" 4 0 "queued" "" 0 None 5 5.
(** A download of four bytes, up to its completion. *)
Definition sample_events : list event :=
  [EStart; EQueue "d"; ESend 0 false; EReceive; EThread 0 (AStore 10); EThread 0 (ASource (SrcTask true 4));
   EThread 0 ADisk; EThread 0 ALease; EThread 0 (AStore 11); EThread 0 ADisk; EThread 0 AChunk; EThread 0 (AData 3);
   EThread 0 ASkipFlush; EQueue "d"; EThread 0 AChunk; EThread 0 (AData 1); EThread 0 (AFlush 12 100);
   EThread 0 (AReturn None false); EThread 0 (AFlush 13 100)].
Definition sample_start : lrepo := {["d" := sample_download]}.
Definition sample_y : sys := default (w_init ∅ (mkDisk ∅ ∅)) (w_run sample_events (w_init sample_start (mkDisk ∅ ∅))).
Lemma sample_y_run : w_run sample_events (w_init sample_start (mkDisk ∅ ∅)) = Some sample_y.
Proof. vm_compute. reflexivity. Qed.

Lemma local_single_flight_witness :
  w_run sample_events (w_init sample_start (mkDisk ∅ ∅)) = Some sample_y ∧
  (∀ k k' x x', w_threads sample_y !! k = Some x → w_threads sample_y !! k' = Some x' → x_id x = x_id x' → k = k').
Proof.
  split; [exact sample_y_run|].
  exact (proj1 (local_single_flight sample_events sample_start (mkDisk ∅ ∅) sample_y sample_y_run)).
Defined.

(** C19: A goroutine of the worker changes no record but its own, and that one
    only while it is queued, active or in error: a download paused, removed or
    completed meanwhile is never touched again, even when the goroutine has not
    yet noticed.  It leaves the record active, in error, or complete; and it
    completes a record only for the very execution it was started for, after
    contiguous writes from the size it resumed from to the whole size. *)
Theorem local_worker_effect l m d y k a y' :
  w_run l (w_init m d) = Some y → thread_step k a y = Some y' →
  w_repo y' = w_repo y ∨
  ∃ x r r', w_threads y !! k = Some x ∧ w_repo y !! x_id x = Some r ∧ w_repo y' = <[x_id x := r']> (w_repo y) ∧
    (l_Status r ∉ [DownloadPaused; DownloadRemoved; DownloadComplete]) ∧
    (l_Status r' = DownloadActive ∨ l_Status r' = DownloadError ∨ l_Status r' = DownloadComplete) ∧
    (l_Status r' = DownloadComplete →
      ∃ q, x_pc x = PComplete q ∧ sameExecution r q = true ∧
        tiles (x_writes x) (l_Completed q) (Z.max (l_Completed q) (l_Total q)) ∧
        l_Completed r' = l_Total q ∧ l_Total r' = l_Total q).
Proof.
  intros Hy%w_run_ok. unfold thread_step. intros (x & Hx & Hs)%bind_Some.
  assert (Hmain : ('(x', w) ← exec_step x a (w_repo y, w_disk y);
    Some (with_world w (with_threads (w_queued y) (w_active y) (<[k := x']> (w_threads y)) (w_next y) y))) = Some y' →
    w_repo y' = w_repo y ∨ ∃ r r', w_repo y !! x_id x = Some r ∧ w_repo y' = <[x_id x := r']> (w_repo y) ∧ worker_change x r r').
  { intros ([x' [m' d']] & He & Hy')%bind_Some. injection Hy' as <-.
    exact (exec_step_repo _ _ _ _ _ _ _ He (ok_writes _ Hy k x Hx)). }
  destruct (x_pc x) eqn:Hpc; try (injection Hs as <-; by left).
  all: destruct (Hmain Hs) as [?|(cur & nxt & Hcur & Hnxt & [Hf Ht Hd])]; [by left|right; exists x, cur, nxt].
  all: split_and!; auto.
  all: revert Hf; unfold open_status; rewrite !not_elem_of_cons; intros Hf.
  all: split_and!; try apply not_elem_of_nil; intros E; rewrite E in Hf; discriminate Hf.
Qed.

Definition sample_y' : sys := default sample_y (thread_step 0 (AStore 14) sample_y).
Lemma local_worker_effect_witness :
  l_Status <$> (w_repo sample_y !! "d") = Some DownloadActive ∧
  l_Status <$> (w_repo sample_y' !! "d") = Some DownloadComplete ∧
  (w_repo sample_y' = w_repo sample_y ∨
   ∃ x r r', w_threads sample_y !! 0%nat = Some x ∧ w_repo sample_y !! x_id x = Some r ∧
     w_repo sample_y' = <[x_id x := r']> (w_repo sample_y) ∧
     (l_Status r ∉ [DownloadPaused; DownloadRemoved; DownloadComplete]) ∧
     (l_Status r' = DownloadActive ∨ l_Status r' = DownloadError ∨ l_Status r' = DownloadComplete) ∧
     (l_Status r' = DownloadComplete →
       ∃ q, x_pc x = PComplete q ∧ sameExecution r q = true ∧
         tiles (x_writes x) (l_Completed q) (Z.max (l_Completed q) (l_Total q)) ∧
         l_Completed r' = l_Total q ∧ l_Total r' = l_Total q)).
Proof.
  split; [vm_compute; reflexivity|]. split; [vm_compute; reflexivity|].
  assert (E : thread_step 0 (AStore 14) sample_y = Some sample_y') by (vm_compute; reflexivity).
  exact (local_worker_effect sample_events sample_start (mkDisk ∅ ∅) sample_y 0 (AStore 14) sample_y' sample_y_run E).
Defined.
