(* ===== verification/Rules.v ===== *)
(** * Forwarding and filtering rules (application/forward.rules, application/filter.rules)

    How a list of forwarding rules becomes the table of destinations per
    source, what makes a list of rules unacceptable, and which files the
    download filter lets through. *)

From Stdlib Require Import Ascii.
From S2P Require Import Prelude Strings Storage TargetPath Naming StringFacts Text Rte ForwardQueue.
Local Open Scope list_scope.

(** ** forward.rules *)

Record ForwardRule := mkRule {
  fr_ID : string; fr_Name : string; fr_Enabled : bool;
  fr_Sources : list string; fr_Targets : list string; fr_Mode : string; fr_Silent : bool;
}.

Abbreviation routes := (gmap string (list ForwardDestination)).
Definition defaultMode : string := "default".

Definition validRef (ref : string) (self : bool) : bool :=
  if self && String.eqb ref "self" then true
  else match Split ":"%char ref with
       | [kind; number] =>
           (String.eqb kind "user" || String.eqb kind "chat" || String.eqb kind "channel") &&
           match ParseInt number with Some id => (0 <? id) && String.eqb (Itoa id) number | None => false end
       | _ => false
       end.

Definition destination (rule : ForwardRule) (target : string) : ForwardDestination :=
  mkDest target (fr_ID rule) (fr_Mode rule) (fr_Silent rule).

(** One source and one target of a rule. *)
Definition add_target (rule : ForwardRule) (source target : string) (next : routes) : res err routes :=
  if negb (validRef target true) || String.eqb source target then Err (ErrMsg "invalid target")
  else if negb (fr_Enabled rule) then Ok next
  else
    let present := default [] (next !! source) in
    if existsb (λ route, String.eqb (fd_Target route) target) present then Ok next
    else Ok (<[source := present ++ [destination rule target]]> next).
Definition add_source (rule : ForwardRule) (source : string) (next : routes) : res err routes :=
  if negb (validRef source false) then Err (ErrMsg "invalid source")
  else fold_res (add_target rule source) (fr_Targets rule) next.

Definition rule_fits (rule : ForwardRule) : bool :=
  negb ((100 <? Z.of_nat (length (runes (fr_Name rule)))) || (500 <? Z.of_nat (length (fr_Sources rule)))
        || (100 <? Z.of_nat (length (fr_Targets rule)))).
Definition mode_valid (mode : string) : bool := String.eqb mode defaultMode || String.eqb mode "clone".

Definition add_rule (rule : ForwardRule) (acc : routes * gset string) : res err (routes * gset string) :=
  let '(next, ids) := acc in
  if String.eqb (TrimSpace (fr_ID rule)) "" || bool_decide (fr_ID rule ∈ ids) then Err (ErrMsg "rule ID")
  else if negb (rule_fits rule) then Err (ErrMsg "rule limits")
  else if is_nil (fr_Sources rule) || is_nil (fr_Targets rule) then Err (ErrMsg "rule is empty")
  else if negb (mode_valid (fr_Mode rule)) then Err (ErrMsg "rule mode")
  else
    next ← fold_res (add_source rule) (fr_Sources rule) next;
    Ok (next, {[fr_ID rule]} ∪ ids).

(** The search for a cycle; [Err cycle_error] is the closure's [true]. *)
Record marks := mkMarks { k_visiting : gset string; k_visited : gset string }.
Fixpoint cycle (next : routes) (fuel : nat) (source : string) (k : marks) : res err marks :=
  match fuel with
  | O => Err fuel_error
  | S fuel =>
      if bool_decide (source ∈ k_visiting k) then Err cycle_error
      else if bool_decide (source ∈ k_visited k) then Ok k
      else
        k ← fold_res (λ d, cycle next fuel (fd_Target d)) (default [] (next !! source))
              (mkMarks ({[source]} ∪ k_visiting k) (k_visited k));
        Ok (mkMarks (k_visiting k ∖ {[source]}) ({[source]} ∪ k_visited k))
  end.

Definition all_targets (next : routes) : list string :=
  concat ((λ p : string * list ForwardDestination, fd_Target <$> p.2) <$> map_to_list next).
(** Every source and every target. *)
Definition refs (next : routes) : list string := (map_to_list next).*1 ++ all_targets next.
Definition cycle_fuel (next : routes) : nat := S (length (refs next)).

(** [range] is the order in which Go visits the keys. *)
Definition PrepareForwardRules (range : routes → list string) (canceled : bool) (rules : res err (list ForwardRule))
    : res err routes :=
  if canceled then Err ErrCanceled
  else
    rules ← rules;
    if 200 <? Z.of_nat (length rules) then Err (ErrMsg "too many rules")
    else
      '(next, _) ← fold_res add_rule rules (∅, ∅);
      _ ← fold_res (cycle next (cycle_fuel next)) (range next) (mkMarks ∅ ∅);
      Ok next.

(** [Rules.Reconfigure]: the prepared table replaces the current one. *)
Definition ReconfigureForwardRules range canceled rules (current : option routes) : res err unit * option routes :=
  match PrepareForwardRules range canceled rules with
  | Ok next => (Ok tt, Some next)
  | Err e => (Err e, current)
  end.
Definition Destinations (current : option routes) (source : string) : list ForwardDestination :=
  match current with Some next => default [] (next !! source) | None => [] end.

(** ** filter.rules *)

Inductive Reason := Allowed | ExtensionExcluded | SizeExcluded.
Record filter_settings := mkFilter {
  fs_include : gset string; fs_exclude : gset string; fs_min : Z; fs_max : Z;
}.

Definition mbToBytes (mb : Z) : Z :=
  if mb <=? 0 then 0 else if max_int64 `quot` (1024 * 1024) <? mb then max_int64 else mb * (1024 * 1024).

Section filter.
(** [strings.ToLower] *)
Context (to_lower : string → string).

Definition normalizeExtension (value : string) : string :=
  let value := to_lower (TrimSpace value) in
  match value with
  | EmptyString => value
  | String c _ => if Ascii.eqb c "."%char then value else String "." value
  end.
Definition extensions (values : list string) : gset string := list_to_set (normalizeExtension <$> values).

Definition PrepareFilterRules (include exclude : list string) (minMB maxMB : Z) : res err filter_settings :=
  if (0 <? maxMB) && (maxMB <? minMB) then Err (ErrMsg "minimum file size exceeds maximum")
  else Ok (mkFilter (extensions include) (extensions exclude) (mbToBytes minMB) (mbToBytes maxMB)).

Definition ShouldHandle (current : option filter_settings) (name : string) (size : Z) : bool * Reason :=
  match current with
  | None => (false, SizeExcluded)
  | Some s =>
      let ext := normalizeExtension (Ext name) in
      if negb (bool_decide (fs_include s = ∅)) && negb (bool_decide (ext ∈ fs_include s)) then (false, ExtensionExcluded)
      else if bool_decide (ext ∈ fs_exclude s) then (false, ExtensionExcluded)
      else if ((0 <? fs_min s) && (size <? fs_min s)) || ((0 <? fs_max s) && (fs_max s <? size)) then (false, SizeExcluded)
      else (true, Allowed)
  end.
End filter.
