(* ===== verification/RulesProps.v ===== *)
(** * Properties of the forwarding and filtering rules *)

From Stdlib Require Import Ascii.
From stdpp Require Import relations.
From S2P Require Import Prelude Strings Storage TargetPath Naming StringFacts Text Rte RteBuild ForwardQueue Rules.
Local Open Scope list_scope.

(** ** The table of destinations *)

(** Every combination of rule, source and target, in the order of the code. *)
Definition triple := (ForwardRule * string * string)%type.
Definition source_triples (r : ForwardRule) (s : string) : list triple := (λ t, (r, s, t)) <$> fr_Targets r.
Definition rule_triples (r : ForwardRule) : list triple := fr_Sources r ≫= source_triples r.
Definition triples (rules : list ForwardRule) : list triple := rules ≫= rule_triples.

Definition matches (s t : string) (x : triple) : Prop :=
  fr_Enabled x.1.1 = true ∧ x.1.2 = s ∧ x.2 = t.
#[export] Instance matches_dec s t x : Decision (matches s t x).
Proof. unfold matches. apply _. Defined.
(** The first rule that sends [s] to [t]. *)
Definition first_rule (l : list triple) (s t : string) : option ForwardRule :=
  (λ x : triple, x.1.1) <$> head (filter (matches s t) l).

Lemma first_rule_snoc l x s t :
  first_rule (l ++ [x]) s t =
    match first_rule l s t with
    | Some r => Some r
    | None => if decide (matches s t x) then Some x.1.1 else None
    end.
Proof.
  unfold first_rule. rewrite filter_app. destruct (filter (matches s t) l) as [|y l'] eqn:E; [|done].
  cbn [app head fmap option_fmap option_map]. case_decide.
  - rewrite filter_cons_True by done. done.
  - rewrite filter_cons_False by done. done.
Qed.

Lemma first_rule_some l s t r : first_rule l s t = Some r → (r, s, t) ∈ l ∧ fr_Enabled r = true.
Proof.
  unfold first_rule. destruct (filter (matches s t) l) as [|[[r' s'] t'] l'] eqn:E; [done|]. cbn. intros [= ->].
  assert (H : (r, s', t') ∈ filter (matches s t) l) by (rewrite E; left).
  apply list_elem_of_filter in H as [(H1 & H2 & H3) H]. cbn in *. by subst.
Qed.
Lemma first_rule_none l s t r : first_rule l s t = None → (r, s, t) ∈ l → fr_Enabled r = false.
Proof.
  unfold first_rule. intros H Hin. destruct (fr_Enabled r) eqn:Hr; [|done]. exfalso.
  assert (Hf : (r, s, t) ∈ filter (matches s t) l) by (apply list_elem_of_filter; done).
  destruct (filter (matches s t) l); [by apply elem_of_nil in Hf|done].
Qed.

(** [add_target] past its checks *)
Definition put (next : routes) (x : triple) : routes :=
  let '(r, s, t) := x in
  if negb (fr_Enabled r) then next
  else
    let present := default [] (next !! s) in
    if existsb (λ route, String.eqb (fd_Target route) t) present then next
    else <[s := present ++ [destination r t]]> next.

Definition table_ok (l : list triple) (next : routes) : Prop :=
  ∀ s, NoDup (fd_Target <$> default [] (next !! s)) ∧
    ∀ d, d ∈ default [] (next !! s) ↔ ∃ r, first_rule l s (fd_Target d) = Some r ∧ d = destination r (fd_Target d).

Lemma existsb_target (present : list ForwardDestination) t :
  existsb (λ route, String.eqb (fd_Target route) t) present = true ↔ t ∈ fd_Target <$> present.
Proof.
  rewrite existsb_exists, list_elem_of_fmap. split.
  - intros (d & Hd & E). apply String.eqb_eq in E. exists d. split; [done|]. by apply list_elem_of_In.
  - intros (d & -> & Hd). exists d. split; [by apply list_elem_of_In|]. apply String.eqb_refl.
Qed.

Lemma table_put l next x : table_ok l next → table_ok (l ++ [x]) (put next x).
Proof.
  intros H s. destruct (H s) as [Hn Hd]. destruct x as [[r s'] t]. cbn [put].
  assert (Hold : ∀ d, (∃ q, first_rule l s (fd_Target d) = Some q ∧ d = destination q (fd_Target d)) →
    ∃ q, first_rule (l ++ [(r, s', t)]) s (fd_Target d) = Some q ∧ d = destination q (fd_Target d)).
  { intros d (q & Hq & E). exists q. rewrite first_rule_snoc, Hq. split; [done|exact E]. }
  assert (Hsame : (¬ matches s t (r, s', t) ∨ t ∈ fd_Target <$> default [] (next !! s)) →
    NoDup (fd_Target <$> default [] (next !! s)) ∧
    ∀ d, d ∈ default [] (next !! s) ↔ ∃ q, first_rule (l ++ [(r, s', t)]) s (fd_Target d) = Some q ∧ d = destination q (fd_Target d)).
  { intros Hm. split; [done|]. intros d. split; [intros Hin; by apply Hold, Hd|].
    intros (q & Hq & E0). rewrite first_rule_snoc in Hq.
    destruct (first_rule l s (fd_Target d)) as [q'|] eqn:E; [apply Hd; exists q; split; [congruence|exact E0]|].
    case_decide as Hc; [|done]. exfalso. destruct Hc as (He & Hs & Ht). cbn in He, Hs, Ht. subst t s'.
    destruct Hm as [Hm|Hm]; [by apply Hm|]. clear E0 Hold. revert E Hm. generalize (fd_Target d). clear d Hq. intros t E Hm.
    apply list_elem_of_fmap in Hm as (d & -> & Hin). apply Hd in Hin as (q0 & Hq0 & _). congruence. }
  destruct (fr_Enabled r) eqn:He; cbn [negb]; [|apply Hsame; left; intros (E & _); cbn in E; congruence].
  destruct (existsb _ _) eqn:Hex.
  - destruct (decide (s = s')) as [->|Hs]; apply Hsame; [right; by apply existsb_target|left; intros (_ & E & _); cbn in E; congruence].
  - destruct (decide (s = s')) as [->|Hs];
      [|rewrite lookup_insert_ne by done; apply Hsame; left; intros (_ & E & _); cbn in E; congruence].
    rewrite lookup_insert_eq.
    change (default [] (Some ?l)) with l.
    assert (Hnew : t ∉ fd_Target <$> default [] (next !! s')) by (rewrite <- existsb_target; by rewrite Hex).
    split.
    + rewrite fmap_app. apply NoDup_app. split_and!; [done| |apply NoDup_singleton].
      intros y Hy ->%list_elem_of_singleton. done.
    + intros d. rewrite elem_of_app, list_elem_of_singleton. split.
      * intros [Hin| ->]; [by apply Hold, Hd|]. exists r. split; [|done]. cbn [destination fd_Target].
        rewrite first_rule_snoc. destruct (first_rule l s' t) as [q|] eqn:E; [|by rewrite decide_True by done].
        exfalso. apply Hnew. apply list_elem_of_fmap. exists (destination q t). split; [done|]. apply Hd. by exists q.
      * intros (q & Hq & Hdq). rewrite first_rule_snoc in Hq.
        destruct (first_rule l s' (fd_Target d)) as [q'|] eqn:E; [left; apply Hd; injection Hq as ->; eauto|].
        case_decide as Hc; [|done]. right. destruct Hc as (_ & _ & Ht). cbn in Ht. injection Hq as <-. rewrite Hdq, <- Ht. done.
Qed.

Lemma table_foldl l : ∀ l0 next, table_ok l0 next → table_ok (l0 ++ l) (foldl put next l).
Proof.
  induction l as [|x l IH]; intros l0 next H; [by rewrite app_nil_r|]. cbn [foldl].
  rewrite cons_middle, app_assoc. apply IH. by apply table_put.
Qed.
Lemma table_triples rules : table_ok (triples rules) (foldl put ∅ (triples rules)).
Proof.
  apply (table_foldl _ [] ∅). intros s. rewrite lookup_empty. cbn. split; [apply NoDup_nil_2|].
  intros d. split; [intros H; by apply elem_of_nil in H|]. intros (r & H & _). done.
Qed.

(** ** What a list of rules must satisfy *)

Definition pair_ok (s t : string) : bool := validRef t true && negb (String.eqb s t).
Definition source_ok (r : ForwardRule) (s : string) : bool := validRef s false && forallb (pair_ok s) (fr_Targets r).
Definition rule_ok (r : ForwardRule) : bool :=
  negb (String.eqb (TrimSpace (fr_ID r)) "") && rule_fits r && negb (is_nil (fr_Sources r)) && negb (is_nil (fr_Targets r))
  && mode_valid (fr_Mode r) && forallb (source_ok r) (fr_Sources r).
Definition rules_ok (rules : list ForwardRule) : Prop :=
  Z.of_nat (length rules) ≤ 200 ∧ NoDup (fr_ID <$> rules) ∧ Forall (λ r, rule_ok r = true) rules.

(** A fold whose steps succeed exactly on the elements that pass a test. *)
Lemma fold_res_test {A B} (f : A → B → res err B) (test : A → bool) (g : B → A → B) l : ∀ b,
  (∀ x b, test x = true → f x b = Ok (g b x)) → (∀ x b, test x = false → is_ok (f x b) = false) →
  (forallb test l = true → fold_res f l b = Ok (foldl g b l)) ∧
  (forallb test l = false → is_ok (fold_res f l b) = false).
Proof.
  induction l as [|x l IH]; intros b Ht Hf; cbn [forallb fold_res foldl]; [done|].
  destruct (test x) eqn:E; cbn [andb].
  - rewrite (Ht x b E). cbn [mbind res_bind]. by apply IH.
  - split; [done|]. intros _. specialize (Hf x b E). by destruct (f x b).
Qed.

Lemma add_target_test r s t next :
  add_target r s t next = if pair_ok s t then Ok (put next (r, s, t)) else Err (ErrMsg "invalid target").
Proof.
  unfold add_target, pair_ok. destruct (validRef t true); cbn [negb orb andb]; [|done].
  destruct (String.eqb s t); cbn [negb]; [done|]. cbn [put]. destruct (fr_Enabled r); cbn [negb]; [|done].
  by destruct (existsb _ _).
Qed.
Lemma foldl_bind {A B C} (g : B → C → B) (f : A → list C) l b :
  foldl (λ b x, foldl g b (f x)) b l = foldl g b (l ≫= f).
Proof. revert b. induction l as [|x l IH]; intros b; [done|]. cbn [foldl mbind list_bind]. by rewrite foldl_app, IH. Qed.

Lemma add_source_test r s next :
  (source_ok r s = true → add_source r s next = Ok (foldl put next (source_triples r s))) ∧
  (source_ok r s = false → is_ok (add_source r s next) = false).
Proof.
  unfold source_ok, add_source, source_triples. destruct (validRef s false); cbn [negb andb]; [|done].
  destruct (fold_res_test (add_target r s) (pair_ok s) (λ b t, put b (r, s, t)) (fr_Targets r) next) as [H1 H2].
  - intros t b E. by rewrite add_target_test, E.
  - intros t b E. by rewrite add_target_test, E.
  - split; [|done]. intros E. rewrite (H1 E). f_equal. clear. revert next.
    induction (fr_Targets r) as [|t l IH]; intros next; [done|]. cbn [foldl fmap list_fmap]. apply IH.
Qed.

Lemma add_rule_test r next ids :
  (rule_ok r = true ∧ fr_ID r ∉ ids → add_rule r (next, ids) = Ok (foldl put next (rule_triples r), {[fr_ID r]} ∪ ids)) ∧
  (¬ (rule_ok r = true ∧ fr_ID r ∉ ids) → is_ok (add_rule r (next, ids)) = false).
Proof.
  unfold add_rule, rule_ok. destruct (String.eqb (TrimSpace _) ""); cbn [negb orb andb]; [split; [by intros [? _]|done]|].
  case_bool_decide as Hin; [split; [by intros [_ ?]|done]|].
  destruct (rule_fits r); cbn [negb andb]; [|split; [by intros [? _]|done]].
  destruct (is_nil (fr_Sources r)); cbn [negb andb orb]; [split; [by intros [? _]|done]|].
  destruct (is_nil (fr_Targets r)); cbn [negb andb orb]; [split; [by intros [? _]|done]|].
  destruct (mode_valid _); cbn [negb andb]; [|split; [by intros [? _]|done]].
  destruct (fold_res_test (add_source r) (source_ok r) (λ b s, foldl put b (source_triples r s)) (fr_Sources r) next) as [H1 H2].
  - intros s b. apply add_source_test.
  - intros s b. apply add_source_test.
  - destruct (forallb _ _) eqn:E.
    + split; [|intros H; exfalso; by apply H]. intros _. rewrite (H1 eq_refl). cbn [mbind res_bind].
      unfold rule_triples. by rewrite <- foldl_bind.
    + split; [by intros [? _]|]. intros _. specialize (H2 eq_refl). by destruct (fold_res _ _ _).
Qed.

Lemma add_rules_test rules : ∀ next ids,
  let good := NoDup (fr_ID <$> rules) ∧ Forall (λ r, rule_ok r = true) rules ∧ (∀ r, r ∈ rules → fr_ID r ∉ ids) in
  (good → ∃ ids', fold_res add_rule rules (next, ids) = Ok (foldl put next (triples rules), ids')) ∧
  (¬ good → is_ok (fold_res add_rule rules (next, ids)) = false).
Proof.
  induction rules as [|r rules IH]; intros next ids good; cbn [fold_res].
  { split; [by exists ids|]. intros H. exfalso. apply H. split; [apply NoDup_nil_2|]. split; [done|].
    intros r Hr. by apply elem_of_nil in Hr. }
  destruct (add_rule_test r next ids) as [H1 H2].
  destruct (decide (rule_ok r = true ∧ fr_ID r ∉ ids)) as [[Ha Hb]|Hn].
  - rewrite (H1 (conj Ha Hb)). cbn [mbind res_bind].
    destruct (IH (foldl put next (rule_triples r)) ({[fr_ID r]} ∪ ids)) as [I1 I2]. split.
    + intros (Hd & Hf & Hi). apply NoDup_cons in Hd as [Hd1 Hd2]. apply Forall_cons in Hf as [_ Hf].
      destruct I1 as [ids' E].
      { split; [done|]. split; [done|]. intros q Hq. apply not_elem_of_union. split; [|apply Hi; by right].
        intros E%elem_of_singleton. apply Hd1. rewrite <- E. by apply list_elem_of_fmap_2. }
      exists ids'. rewrite E. unfold triples at 2. cbn [mbind list_bind]. by rewrite foldl_app.
    + intros Hng. apply I2. intros (Hd & Hf & Hi). apply Hng. split; [|split].
      * cbn. apply NoDup_cons. split; [|done]. intros (q & E & Hq)%list_elem_of_fmap. apply (Hi q Hq).
        rewrite <- E. apply elem_of_union_l. by apply elem_of_singleton.
      * by constructor.
      * intros q [->|Hq]%elem_of_cons; [done|]. specialize (Hi q Hq). by apply not_elem_of_union in Hi as [_ ?].
  - split.
    + intros (_ & Hf & Hi). exfalso. apply Hn. apply Forall_cons in Hf as [? _]. split; [done|]. apply Hi. left.
    + intros _. specialize (H2 Hn). by destruct (add_rule r (next, ids)).
Qed.

(** ** The search for a cycle *)

Section cycle.
Context (next : routes).
Definition target_deps : gmap string (list string) := (λ l : list ForwardDestination, fd_Target <$> l) <$> next.

Lemma target_deps_at s : default [] (target_deps !! s) = fd_Target <$> default [] (next !! s).
Proof. unfold target_deps. rewrite lookup_fmap. by destruct (next !! s). Qed.

(** The marks are those of the runtime's depth-first order. *)
Definition marks_of (d : dfs) : marks := mkMarks (list_to_set (d_visiting d)) (list_to_set (d_done d)).

Lemma mark_left (source : string) l : list_to_set (filter (λ x, x ≠ source) l) = (list_to_set l : gset string) ∖ {[source]}.
Proof.
  apply leibniz_equiv. intros x. rewrite elem_of_difference, !elem_of_list_to_set, list_elem_of_filter, elem_of_singleton. tauto.
Qed.

Lemma cycle_visit fuel : ∀ source d,
  cycle next fuel source (marks_of d) = marks_of <$> visit target_deps fuel source d.
Proof.
  induction fuel as [|fuel IH]; intros source d; cbn [cycle visit]; [done|]. cbn [marks_of k_visiting k_visited].
  rewrite (bool_decide_ext (source ∈ list_to_set (d_visiting d)) (source ∈ d_visiting d)) by apply elem_of_list_to_set.
  rewrite (bool_decide_ext (source ∈ list_to_set (d_done d)) (source ∈ d_done d)) by apply elem_of_list_to_set.
  case_bool_decide; [done|]. case_bool_decide; [done|]. rewrite target_deps_at.
  assert (Hl : ∀ l d, fold_res (λ d, cycle next fuel (fd_Target d)) l (marks_of d) =
    marks_of <$> fold_res (visit target_deps fuel) (fd_Target <$> l) d).
  { clear -IH. induction l as [|x l IHl]; intros d; cbn [fold_res fmap list_fmap]; [done|]. rewrite IH.
    destruct (visit target_deps fuel (fd_Target x) d) as [d'|e]; cbn [fmap res_fmap mbind res_bind]; [apply IHl|done]. }
  rewrite (Hl _ (mkDfs (source :: d_visiting d) (d_done d) (d_order d))).
  destruct (fold_res (visit target_deps fuel) _ _) as [d'|e]; cbn [fmap res_fmap mbind res_bind]; [|done].
  unfold marks_of. cbn [d_visiting d_done k_visiting k_visited]. by rewrite mark_left.
Qed.

Lemma cycle_all fuel l d :
  fold_res (cycle next fuel) l (marks_of d) = marks_of <$> fold_res (visit target_deps fuel) l d.
Proof.
  revert d. induction l as [|x l IH]; intros d; cbn [fold_res]; [done|]. rewrite cycle_visit.
  destruct (visit target_deps fuel x d); cbn [fmap res_fmap mbind res_bind]; [apply IH|done].
Qed.

Lemma targets_in_refs s t : t ∈ fd_Target <$> default [] (next !! s) → t ∈ refs next.
Proof.
  intros H. apply elem_of_app. right. unfold all_targets. rewrite list_elem_of_In, in_concat.
  destruct (next !! s) as [l|] eqn:E; [|by apply elem_of_nil in H].
  exists (fd_Target <$> l). split; [|by apply list_elem_of_In].
  apply list_elem_of_In, list_elem_of_fmap. exists (s, l). split; [done|]. by apply elem_of_map_to_list.
Qed.

(** The search from [l] succeeds exactly when nothing reaches itself, and it
    never runs out of fuel. *)
Lemma cycle_spec l :
  l ≡ₚ (map_to_list next).*1 →
  match fold_res (cycle next (cycle_fuel next)) l (mkMarks ∅ ∅) with
  | Ok _ => ∀ x, ¬ tc (edge target_deps) x x
  | Err e => e = cycle_error ∧ ∃ x, tc (edge target_deps) x x
  end.
Proof.
  intros Hl. set (d0 := mkDfs [] [] []). change (mkMarks ∅ ∅) with (marks_of d0). rewrite cycle_all.
  assert (Hd0 : dfs_inv target_deps d0).
  { split; cbn; [done|apply NoDup_nil_2|intros x l1 l2 H; by destruct l1|]. intros x H. by apply elem_of_nil in H. }
  assert (Hin : ∀ x, x ∈ l ↔ is_Some (next !! x)).
  { intros x. rewrite Hl, list_elem_of_fmap. split.
    - intros ([k v] & -> & H). apply elem_of_map_to_list in H. eauto.
    - intros [v H]. exists (x, v). split; [done|]. by apply elem_of_map_to_list. }
  destruct (fold_res (visit target_deps (cycle_fuel next)) l d0) as [d|e] eqn:H; cbn [fmap res_fmap].
  - intros x Hx.
    assert (Hi : dfs_inv target_deps d).
    { apply (fold_res_inv (visit target_deps (cycle_fuel next)) (dfs_inv target_deps) l d0 d); [done| |done].
      intros y b b' _ Hb Hok. by apply (visit_ok _ _ _ _ _ Hb Hok). }
    apply (sorted_acyclic target_deps (d_order d) x); [apply Hi|apply Hi| |done].
    apply (topo_covers target_deps _ _ _ _ x Hd0 H), Hin.
    assert (He : ∃ y, edge target_deps x y) by (inversion Hx; subst; eauto). destruct He as [y Hy].
    unfold edge in Hy. rewrite target_deps_at in Hy. destruct (next !! x); [eauto|by apply elem_of_nil in Hy].
  - destruct (fold_res_err (visit target_deps (cycle_fuel next)) (λ b, dfs_inv target_deps b ∧ d_visiting b = []) l d0 e)
      as (x & b & Hx & [Hb Hvb] & He); [done| |done|].
    { intros x b b' _ [Hb Hvb] Hok. destruct (visit_ok _ _ _ _ _ Hb Hok) as (? & ? & _). split; [done|congruence]. }
    apply (visit_err target_deps (refs next)) with (fuel := cycle_fuel next) (id := x) (d := b); rewrite ?Hvb; try done.
    + intros u v _ Hv. unfold edge in Hv. rewrite target_deps_at in Hv. by eapply targets_in_refs.
    + apply elem_of_app. left. by rewrite <- Hl.
    + apply NoDup_nil_2.
    + intros v Hv. by apply elem_of_nil in Hv.
    + unfold cycle_fuel. cbn. lia.
Qed.
End cycle.

(** ** The properties *)

(** What the rules, read as a list, send where. *)
Definition sends (rules : list ForwardRule) (s t : string) : Prop := is_Some (first_rule (triples rules) s t).

Lemma edge_sends rules s t : edge (target_deps (foldl put ∅ (triples rules))) s t ↔ sends rules s t.
Proof.
  destruct (table_triples rules s) as [_ Hd]. unfold edge, sends. rewrite target_deps_at, list_elem_of_fmap. split.
  - intros (d & -> & Hin). apply Hd in Hin as (r & -> & _). eauto.
  - intros [r Hr]. exists (destination r t). split; [done|]. apply Hd. by exists r.
Qed.

Lemma tc_sends rules x y : tc (edge (target_deps (foldl put ∅ (triples rules)))) x y ↔ tc (sends rules) x y.
Proof.
  split; (induction 1 as [x y H|x y z H _ IH]; [apply tc_once; by apply edge_sends|eapply tc_l; [by apply edge_sends|done]]).
Qed.

(** C20: A list of forwarding rules is accepted exactly when every rule passes
    its checks, no two share an ID, and no chat would forward to itself through
    any chain of enabled rules; the search for such a chain always ends.  The
    table then lists for every source each target once, from the first enabled
    rule that sends the one to the other, with that rule's mode and silence. *)
Theorem forward_rules range rules (Hrange : ∀ m, range m ≡ₚ (map_to_list m).*1) :
  match PrepareForwardRules range false (Ok rules) with
  | Ok next =>
      rules_ok rules ∧ (∀ x, ¬ tc (sends rules) x x) ∧
      ∀ s, NoDup (fd_Target <$> Destinations (Some next) s) ∧
        ∀ d, d ∈ Destinations (Some next) s ↔
          ∃ r, first_rule (triples rules) s (fd_Target d) = Some r ∧ d = destination r (fd_Target d)
  | Err _ => ¬ rules_ok rules ∨ ∃ x, tc (sends rules) x x
  end.
Proof.
  unfold PrepareForwardRules, rules_ok. cbn [mbind res_bind].
  destruct (Z.ltb_spec 200 (Z.of_nat (length rules))); [left; lia|].
  destruct (add_rules_test rules ∅ ∅) as [H1 H2].
  set (good := NoDup (fr_ID <$> rules) ∧ Forall (λ r, rule_ok r = true) rules ∧ (∀ r, r ∈ rules → fr_ID r ∉ (∅ : gset string))) in *.
  destruct (decide (NoDup (fr_ID <$> rules) ∧ Forall (λ r, rule_ok r = true) rules)) as [[Hn Hf]|Hbad].
  - assert (Hg : good) by (split; [done|]; split; [done|]; intros r _; apply not_elem_of_empty).
    destruct (H1 Hg) as [ids' E]. rewrite E. cbn [mbind res_bind]. pose proof (cycle_spec _ _ (Hrange (foldl put ∅ (triples rules)))) as Hc.
    set (N := foldl put ∅ (triples rules)) in *.
    destruct (fold_res (cycle N (cycle_fuel N)) (range N) (mkMarks ∅ ∅)) as [k|e]; cbn [mbind res_bind].
    + split; [done|]. split; [intros x Hx; apply (Hc x); by apply tc_sends|]. intros s. apply table_triples.
    + right. destruct Hc as (_ & x & Hx). exists x. by apply tc_sends.
  - assert (Hg : ¬ good) by (intros (Ha & Hb & _); by apply Hbad). specialize (H2 Hg).
    destruct (fold_res add_rule rules (∅, ∅)); [done|]. cbn [mbind res_bind]. left. intros (_ & Ha & Hb). by apply Hbad.
Qed.

Definition rule_a : ForwardRule := mkRule "a" "first" true ["channel:1"] ["chat:2"; "self"] "default" false.
Definition rule_b : ForwardRule := mkRule "b" "second" true ["channel:1"; "chat:2"] ["user:3"; "self"] "clone" true.
Lemma forward_rules_witness :
  match PrepareForwardRules (λ m, (map_to_list m).*1) false (Ok [rule_a; rule_b]) with
  | Ok next => Destinations (Some next) "channel:1" =
      [mkDest "chat:2" "a" "default" false; mkDest "self" "a" "default" false; mkDest "user:3" "b" "clone" true] ∧
      ∀ x, ¬ tc (sends [rule_a; rule_b]) x x
  | Err _ => False
  end.
Proof.
  pose proof (forward_rules (λ m, (map_to_list m).*1) [rule_a; rule_b] (λ m, Permutation_refl _)) as H.
  destruct (PrepareForwardRules _ _ _) as [next|e] eqn:E; [|vm_compute in E; discriminate].
  split; [|apply H]. vm_compute in E. injection E as <-. vm_compute. reflexivity.
Defined.

(** ** The download filter *)

Lemma mbToBytes_spec mb : mb ≤ max_int64 →
  (mb ≤ 0 ∧ mbToBytes mb = 0) ∨ (0 < mb ∧ mbToBytes mb = Z.min max_int64 (mb * 2^20)).
Proof.
  intros Hm. unfold mbToBytes, max_int64 in *. destruct (Z.leb_spec mb 0); [by left|]. right. split; [done|].
  change (1024 * 1024) with (2^20). rewrite Z.quot_div_nonneg by lia.
  destruct (Z.ltb_spec ((2^63 - 1) `div` 2^20) mb); [|].
  - change ((2^63 - 1) `div` 2^20) with 8796093022207 in *. lia.
  - change ((2^63 - 1) `div` 2^20) with 8796093022207 in *. lia.
Qed.

(** Once its settings are accepted, the filter lets a file through exactly
    when its extension is listed (or nothing is), is not excluded, and its size
    lies between the limits in megabytes, counted without overflow; a limit of
    zero or less is none, and accepted limits are never contradictory. *)
Theorem filter_decides to_lower include exclude minMB maxMB s name size :
  PrepareFilterRules to_lower include exclude minMB maxMB = Ok s →
  in_int64 minMB = true → in_int64 maxMB = true → 0 ≤ size < max_int64 →
  ((ShouldHandle to_lower (Some s) name size).1 = true ↔
   (include = [] ∨ normalizeExtension to_lower (Ext name) ∈ normalizeExtension to_lower <$> include) ∧
   (normalizeExtension to_lower (Ext name) ∉ normalizeExtension to_lower <$> exclude) ∧
   (0 < minMB → minMB * 2^20 ≤ size) ∧ (0 < maxMB → size ≤ maxMB * 2^20)) ∧
  (0 < maxMB → minMB ≤ maxMB).
Proof.
  unfold PrepareFilterRules, in_int64. intros Hp Hmin Hmax Hs.
  destruct ((0 <? maxMB) && (maxMB <? minMB)) eqn:Hb; [done|]. apply (inj Ok) in Hp. subst s.
  split; [|lia]. unfold ShouldHandle, extensions. cbn [fs_include fs_exclude fs_min fs_max].
  set (ext := normalizeExtension to_lower (Ext name)).
  assert (He : list_to_set (normalizeExtension to_lower <$> include) = (∅ : gset string) ↔ include = []).
  { destruct include as [|x l]; [done|]. split; [|done]. cbn. intros E. exfalso.
    assert (normalizeExtension to_lower x ∈ (∅ : gset string)); [rewrite <- E; set_solver|set_solver]. }
  destruct (mbToBytes_spec minMB ltac:(lia)) as [[? ->]|[? ->]], (mbToBytes_spec maxMB ltac:(lia)) as [[? ->]|[? ->]].
  all: repeat case_bool_decide; cbn [negb andb];
    repeat match goal with
    | H : _ ∈ list_to_set _ |- _ => rewrite elem_of_list_to_set in H
    | H : _ ∉ list_to_set _ |- _ => rewrite elem_of_list_to_set in H
    end.
  all: match goal with |- (_, _).1 = _ ↔ _ => idtac | |- (if ?b then _ else _).1 = _ ↔ _ => destruct b eqn:Hz end.
  all: cbn [fst]; unfold max_int64 in *; try (split; [done|]); try (split; [|done]).
  all: try (intros (Hi & Hx & Hlo & Hhi); destruct Hi as [Hi|Hi]; [apply He in Hi|]; try done; exfalso; lia).
  all: try (intros _; split_and!; [tauto|done|lia|lia]).
Qed.

Lemma filter_decides_witness :
  (ShouldHandle ToLower_ascii (Some (mkFilter {[".mp4"]} {[".png"]} 1048576 9223372036854775807)) "a/B.MP4" 1048576).1 = true ↔
   (["MP4"] = [] ∨ normalizeExtension ToLower_ascii (Ext "a/B.MP4") ∈ normalizeExtension ToLower_ascii <$> ["MP4"]) ∧
   (normalizeExtension ToLower_ascii (Ext "a/B.MP4") ∉ normalizeExtension ToLower_ascii <$> [".png"]) ∧
   (0 < 1 → 1 * 2^20 ≤ 1048576) ∧ (0 < 8796093022208 → 1048576 ≤ 8796093022208 * 2^20).
Proof.
  apply (filter_decides ToLower_ascii ["MP4"] [".png"] 1 8796093022208 _ "a/B.MP4" 1048576);
    [vm_compute; reflexivity|reflexivity|reflexivity|unfold max_int64; lia].
Defined.
