(* ===== verification/Router.v ===== *)
(** * Message routing (application/forwarder/message_router.go)

    Admission and draining of calls, the choice between routing rules and the
    default route, the cache of resolved peers, and the claims that keep a
    message from being queued twice by the default route.  Calls run
    concurrently: every section under a lock, every call of another component
    and every check of a context is one step of one call; what those answer,
    and the clock, come with the step.  Deriving and canceling a call's
    context ([AfterFunc]) is left to the answers of its checks. *)

From S2P Require Import Prelude Lts Strings Storage ForwardQueue Rules.
Local Open Scope list_scope.

(** ** Messages and routes *)

Record ForwardMessage := mkMessage {
  fm_Account : string; fm_Peer : MessagePeer; fm_MessageID : Z; fm_GroupedID : Z; fm_Origin : string;
  fm_Automatic : bool; fm_Outgoing : bool;
}.
Record ForwardPeer := mkForwardPeer { fp_Reference : string; fp_Name : string; fp_LinkedDiscussion : string }.
Definition no_peer : ForwardPeer := mkForwardPeer "" "" "".

Definition forwardSource (peer : MessagePeer) : res err string :=
  if (mp_ID peer <=? 0)
     || (negb (String.eqb (mp_Kind peer) "user") && negb (String.eqb (mp_Kind peer) "chat") && negb (String.eqb (mp_Kind peer) "channel"))
  then Err (ErrMsg "forward source requires a typed peer")
  else Ok (mp_Kind peer +:+ ":" +:+ Itoa (mp_ID peer)).

(** [enqueueDefault]'s key *)
Definition bool_text (b : bool) : string := if b then "true" else "false".
Definition identity (m : ForwardMessage) : string :=
  if fm_GroupedID m =? 0 then "m:" +:+ Itoa (fm_MessageID m) else "g:" +:+ Itoa (fm_GroupedID m).
Definition claim_key (m : ForwardMessage) (d : ForwardDestination) : string :=
  mp_Kind (fm_Peer m) +:+ ":" +:+ Itoa (mp_ID (fm_Peer m)) +:+ "/" +:+ identity m +:+ "/" +:+ fd_Target d +:+ "/"
    +:+ fd_Mode d +:+ "/" +:+ bool_text (fd_Silent d).

(** ** Resolved peers *)

Record peerLookup := mkLookup { pl_peer : ForwardPeer; pl_err : option err; pl_expires : Z }.
Record resolution := mkResolution {
  rs_now : Z; rs_canceled : bool;          (* before the lookup *)
  rs_peer : ForwardPeer; rs_err : option err; rs_canceled_after : bool;
}.
Abbreviation peer_cache := (gmap string peerLookup).
Definition peer_key (raw : string) (comments : bool) : string := bool_text comments +:+ ":" +:+ TrimSpace raw.

(** [resolve]; the peer is returned with the error. *)
Definition resolve (has_peers : bool) (a : resolution) (raw : string) (comments : bool) (peers : peer_cache)
    : (ForwardPeer * option err) * peer_cache :=
  if negb has_peers then ((no_peer, Some (ErrMsg "forward peer resolver is unavailable")), peers)
  else if rs_canceled a then ((no_peer, Some ErrCanceled), peers)
  else
    let key := peer_key raw comments in
    let fetch :=
      if rs_canceled_after a then ((no_peer, Some ErrCanceled), peers)
      else
        let failure := match rs_err a with
          | None => if String.eqb (fp_Reference (rs_peer a)) "" then Some (ErrMsg "resolved forward peer has no typed reference") else None
          | e => e
          end in
        let ttl := match failure with None => 5 * minute | Some _ => 5 * second end in
        let peers := filter (λ '(_, cached), rs_now a < pl_expires cached) peers in
        ((rs_peer a, failure), <[key := mkLookup (rs_peer a) failure (rs_now a + ttl)]> peers) in
    match peers !! key with
    | Some cached => if rs_now a <? pl_expires cached then ((pl_peer cached, pl_err cached), peers) else fetch
    | None => fetch
    end.

(** ** The router *)

Record settings := mkSettings { se_Target : string; se_Mode : string; se_Silent : bool; se_dedupe : Z }.

(** A claim: the instant it expires, once accepted, and whether it is done. *)
Record forwardClaim := mkClaim { cl_expires : option Z; cl_done : bool }.

(** A call: [None] is [Interested], [Some] a message to submit. *)
Record call := mkCall { ca_account : string; ca_peer : MessagePeer; ca_message : option ForwardMessage }.
Definition ca_automatic (c : call) : bool := match ca_message c with Some m => fm_Automatic m | None => true end.

(** Where a call stands.  [CSend] has the destinations left, [CClaim] to
    [CEnqueue] those after the one being queued. *)
Inductive cpc :=
  | CBegin
  | CRoute (source : string)                                                        (* the routing rules, then [listens] *)
  | CListen (source : string) (raws : list string) (comments failed : bool)
  | CDefault
  | CSend (rest : list ForwardDestination) (default_route : bool) (ttl : Z) (failed : bool)
  | CClaim (d : ForwardDestination) (rest : list ForwardDestination) (ttl : Z) (failed : bool)
  | CWait (c : nat) (d : ForwardDestination) (rest : list ForwardDestination) (ttl : Z) (failed : bool)
  | CEnqueue (c : nat) (at_ : Z) (d : ForwardDestination) (rest : list ForwardDestination) (ttl : Z) (failed : bool)
  | CDone (result : res err bool).                                                  (* before the deferred [done] *)

(** [r_drains] counts how often [drained] was closed; [r_log] remembers what
    the default route queued: the key, when it was claimed, when accepted, and
    for how long. *)
Record queued := mkQueued { lg_key : string; lg_claimed : Z; lg_accepted : Z; lg_ttl : Z }.
#[export] Instance queued_eq : EqDecision queued.
Proof. solve_decision. Defined.
Record router := mkRouter {
  r_closed : bool;
  r_canceled : bool;
  r_active : Z;
  r_drains : nat;
  r_peers : peer_cache;
  r_claims : gmap string nat;
  r_heap : gmap nat forwardClaim;
  r_now : Z;
  r_threads : gmap nat (call * cpc);
  r_next : nat;
  r_log : list queued;
}.

Definition with_thread (k : nat) (t : option (call * cpc)) (y : router) : router :=
  mkRouter (r_closed y) (r_canceled y) (r_active y) (r_drains y) (r_peers y) (r_claims y) (r_heap y) (r_now y)
    (partial_alter (λ _, t) k (r_threads y)) (r_next y) (r_log y).
Definition with_peers (peers : peer_cache) (y : router) : router :=
  mkRouter (r_closed y) (r_canceled y) (r_active y) (r_drains y) peers (r_claims y) (r_heap y) (r_now y) (r_threads y)
    (r_next y) (r_log y).
Definition with_claims (claims : gmap string nat) (heap : gmap nat forwardClaim) (now : Z) (log : list queued) (y : router) : router :=
  mkRouter (r_closed y) (r_canceled y) (r_active y) (r_drains y) (r_peers y) claims heap now (r_threads y) (r_next y) log.
Definition with_gate (closed canceled : bool) (active : Z) (drains : nat) (y : router) : router :=
  mkRouter closed canceled active drains (r_peers y) (r_claims y) (r_heap y) (r_now y) (r_threads y) (r_next y) (r_log y).

(** [done] *)
Definition gate_done (y : router) : router :=
  let active := r_active y - 1 in
  with_gate (r_closed y) (r_canceled y) active (if r_closed y && (active =? 0) then S (r_drains y) else r_drains y) y.
(** The locked part of [Stop]. *)
Definition Stop (y : router) : router :=
  if r_closed y then y
  else with_gate true true (r_active y) (if r_active y =? 0 then S (r_drains y) else r_drains y) y.

(** Claims that are accepted and expired leave the table. *)
Definition expired (heap : gmap nat forwardClaim) (now : Z) (c : nat) : bool :=
  match heap !! c ≫= cl_expires with Some e => negb (now <? e) | None => false end.
Definition live_claims (y : router) (now : Z) : gmap string nat :=
  filter (λ '(_, c), expired (r_heap y) now c = false) (r_claims y).

Section router.
(** The account and the capabilities the router was made with. *)
Context (account : string) (has_rules has_listening has_peers has_queue : bool).

(** [begin] and the checks of [Interested] and [SubmitMessage]; [canceled] is
    the context at [SubmitMessage]'s first check. *)
Definition admission (canceled : bool) (c : call) : cpc :=
  match ca_message c with
  | None =>
      match forwardSource (ca_peer c) with
      | Err e => CDone (Err e)
      | Ok source => CRoute source
      end
  | Some m =>
      if canceled then CDone (Err ErrCanceled)
      else if fm_Outgoing m then CDone (Ok false)
      else match forwardSource (ca_peer c) with
           | Err e => CDone (Err e)
           | Ok source =>
               if (fm_MessageID m <=? 0) || negb has_queue then CDone (Err (ErrMsg "forward routing requires a message and queue"))
               else CRoute source
           end
  end.

(** What a call does with its destinations. *)
Definition routed (c : call) (l : list ForwardDestination) (default_route : bool) (ttl : Z) : cpc :=
  match ca_message c with
  | None => CDone (Ok (negb (is_nil l)))
  | Some _ => CSend l default_route ttl false
  end.

(** [rules.Destinations], then [listens] until the first resolution. *)
Definition route (c : call) (source : string) (rules : list ForwardDestination) (listening : res err (list string * bool)) : cpc :=
  if ca_automatic c && has_rules && negb (is_nil rules) then routed c rules false 0
  else if ca_automatic c then
    if negb has_listening then routed c [] true 0
    else match listening with
         | Err e => CDone (Err e)
         | Ok (raws, comments) => CListen source raws comments false
         end
  else CDefault.

Definition listen_match (source : string) (comments : bool) (peer : ForwardPeer) : bool :=
  String.eqb (fp_Reference peer) source || (comments && String.eqb (fp_LinkedDiscussion peer) source).

Definition mode_ok (mode : string) : bool := String.eqb mode "default" || String.eqb mode "clone".
(** The default route, its target resolved. *)
Definition default_route (c : call) (s : settings) (target : ForwardPeer * option err) : cpc :=
  match target with
  | (_, Some e) => CDone (Err e)
  | (peer, None) => routed c [mkDest (fp_Reference peer) "" (se_Mode s) (se_Silent s)] true (se_dedupe s)
  end.

Definition submit_result (failed : bool) : res err bool := if failed then Err (ErrMsg "forward routing") else Ok true.

Inductive answer :=
  | ABegin (canceled : bool)
  | ARoute (canceled : bool) (rules : list ForwardDestination) (listening : res err (list string * bool))
  | APeer (a : resolution)
  | ADefault (s : settings) (a : resolution)
  | ASend (canceled : bool) (ok : bool)        (* the context, and EnqueueRouted's answer *)
  | AClaim (canceled : bool) (now : Z)
  | AWake
  | ACancel
  | AQueued (ok : bool) (now : Z)
  | ALeave.

(** One step of call [k]. *)
Definition call_step (k : nat) (a : answer) (y : router) : option router :=
  '(c, p) ← r_threads y !! k;
  let goto (p : cpc) (y : router) := Some (with_thread k (Some (c, p)) y) in
  match p, a with
  | CBegin, ABegin canceled =>
      if r_closed y || r_canceled y || negb (String.eqb (ca_account c) account)
      then Some (with_thread k None y)
      else goto (admission canceled c) (with_gate (r_closed y) (r_canceled y) (r_active y + 1) (r_drains y) y)
  | CRoute source, ARoute canceled rules listening =>
      goto (if canceled then CDone (Err ErrCanceled) else route c source rules listening) y
  | CListen source [] comments failed, APeer _ =>
      goto (if failed then CDone (Err (ErrMsg "listening peers")) else routed c [] true 0) y
  | CListen source (raw :: raws) comments failed, APeer a =>
      if String.eqb (TrimSpace raw) "" then goto (CListen source raws comments failed) y
      else
        let '((peer, e), peers) := resolve has_peers a raw comments (r_peers y) in
        goto (if listen_match source comments peer then CDefault
              else CListen source raws comments (match e with Some _ => true | None => failed end)) (with_peers peers y)
  | CDefault, ADefault s a =>
      if negb has_queue then goto (CDone (Err (ErrMsg "forward queue is unavailable"))) y
      else if negb (mode_ok (se_Mode s)) then goto (CDone (Err (ErrMsg "invalid forward mode"))) y
      else
        let '(target, peers) := resolve has_peers a (se_Target s) false (r_peers y) in
        goto (default_route c s target) (with_peers peers y)
  | CSend [] _ _ failed, ASend _ _ => goto (CDone (submit_result failed)) y
  | CSend (d :: rest) default_route ttl failed, ASend canceled ok =>
      if canceled then goto (CDone (Err ErrCanceled)) y
      else if default_route then goto (CClaim d rest ttl failed) y
      else goto (CSend rest default_route ttl (failed || negb ok)) y
  | CClaim d rest ttl failed, AClaim canceled now =>
      if canceled then goto (CSend rest true ttl true) y
      else if now <? r_now y then None
      else
        match ca_message c with
        | None => None
        | Some m =>
            let key := claim_key m d in
            let claims := live_claims y now in
            match claims !! key with
            | Some existing =>
                let swept := with_claims claims (r_heap y) now (r_log y) y in
                match r_heap y !! existing ≫= cl_expires with
                | Some _ => goto (CSend rest true ttl failed) swept
                | None => goto (CWait existing d rest ttl failed) swept
                end
            | None =>
                let c := fresh (dom (r_heap y)) in
                goto (CEnqueue c now d rest ttl failed)
                  (with_claims (<[key := c]> claims) (<[c := mkClaim None false]> (r_heap y)) now (r_log y) y)
            end
        end
  | CWait existing d rest ttl failed, AWake =>
      match r_heap y !! existing with
      | Some claim => if cl_done claim then goto (CClaim d rest ttl failed) y else None
      | None => None
      end
  | CWait _ _ rest ttl _, ACancel => goto (CSend rest true ttl true) y
  | CEnqueue claim at_ d rest ttl failed, AQueued ok now =>
      if now <? r_now y then None
      else
        match ca_message c with
        | None => None
        | Some m =>
            let key := claim_key m d in
            if ok
            then goto (CSend rest true ttl failed)
                   (with_claims (r_claims y) (<[claim := mkClaim (Some (now + ttl)) true]> (r_heap y)) now
                      (mkQueued key at_ now ttl :: r_log y) y)
            else goto (CSend rest true ttl true)
                   (with_claims (delete key (r_claims y)) (<[claim := mkClaim None true]> (r_heap y)) now (r_log y) y)
        end
  | CDone _, ALeave => Some (gate_done (with_thread k None y))
  | _, _ => None
  end.

Inductive label :=
  | LInterested (account : string) (peer : MessagePeer)
  | LSubmit (m : ForwardMessage)
  | LStep (k : nat) (a : answer)
  | LStop
  | LCancel.                                    (* the connection's context ends *)

Definition new_call (c : call) (y : router) : router :=
  mkRouter (r_closed y) (r_canceled y) (r_active y) (r_drains y) (r_peers y) (r_claims y) (r_heap y) (r_now y)
    (<[r_next y := (c, CBegin)]> (r_threads y)) (S (r_next y)) (r_log y).
Definition r_step (l : label) (y : router) : option router :=
  match l with
  | LInterested a peer => Some (new_call (mkCall a peer None) y)
  | LSubmit m => Some (new_call (mkCall (fm_Account m) (fm_Peer m) (Some m)) y)
  | LStep k a => call_step k a y
  | LStop => Some (Stop y)
  | LCancel => Some (with_gate (r_closed y) true (r_active y) (r_drains y) y)
  end.
Definition r_run (l : list label) (y : router) : option router := steps r_step l y.
Definition r_init (now : Z) : router := mkRouter false false 0 0 ∅ ∅ ∅ now ∅ 0 [].
End router.
