(* ===== verification/RouterProps.v ===== *)
(** * Properties of the message router *)

From S2P Require Import Prelude Lts Strings Storage ForwardQueue Rules Router.
Local Open Scope list_scope.

(** ** Claims *)

Abbreviation threads := (gmap nat (call * cpc)).

(** The claim a call holds, since when, and for which key; the claim a call
    waits for. *)
Definition enq_of (t : call * cpc) : option (nat * Z * string) :=
  match t.2 with CEnqueue c at_ d _ _ _ => (λ m, (c, at_, claim_key m d)) <$> ca_message t.1 | _ => None end.
Definition wait_of (t : call * cpc) : option nat := match t.2 with CWait c _ _ _ _ => Some c | _ => None end.
Definition enq (T : threads) (k c : nat) (at_ : Z) (key : string) : Prop := T !! k ≫= enq_of = Some (c, at_, key).

Definition until (e : queued) : Z := lg_accepted e + lg_ttl e.
Definition apart (newer older : queued) : Prop := lg_key newer = lg_key older → until older ≤ lg_claimed newer.

Record claims_ok (claims : gmap string nat) (heap : gmap nat forwardClaim) (now : Z) (T : threads) (log : list queued) : Prop := {
  co_pending : ∀ key c, claims !! key = Some c → ∃ cl, heap !! c = Some cl ∧
    match cl_expires cl with
    | None => ∃ k at_, enq T k c at_ key
    | Some e => ∃ x, x ∈ log ∧ lg_key x = key ∧ until x = e
    end;
  co_held : ∀ k c at_ key, enq T k c at_ key → claims !! key = Some c ∧ heap !! c = Some (mkClaim None false) ∧ at_ ≤ now ∧
    ∀ x, x ∈ log → lg_key x = key → until x ≤ at_;
  co_one : ∀ k k' c at_ at' key key', enq T k c at_ key → enq T k' c at' key' → k = k';
  co_wait : ∀ k c, T !! k ≫= wait_of = Some c → ∃ cl, heap !! c = Some cl ∧ (cl_done cl = true ∨ ∃ k' at_ key, enq T k' c at_ key);
  co_log : ∀ x, x ∈ log → until x ≤ now ∨ ∃ c, claims !! lg_key x = Some c ∧ heap !! c = Some (mkClaim (Some (until x)) true);
  co_apart : ∀ l1 x l2 y l3, log = l1 ++ x :: l2 ++ y :: l3 → apart x y;
}.

(** The calls that neither hold a claim nor wait for one may change freely. *)
Lemma claims_frame claims heap now T T' log :
  claims_ok claims heap now T log →
  (∀ k, T' !! k ≫= enq_of = T !! k ≫= enq_of) →
  (∀ k c, T' !! k ≫= wait_of = Some c → T !! k ≫= wait_of = Some c) →
  claims_ok claims heap now T' log.
Proof.
  intros [H1 H2 H3 H4 H5 H6] He Hw.
  assert (E : ∀ k c at_ key, enq T' k c at_ key ↔ enq T k c at_ key) by (intros; unfold enq; by rewrite He).
  split; [|setoid_rewrite E|setoid_rewrite E| |done|done].
  - intros key c Hc. destruct (H1 key c Hc) as (cl & Hcl & H). exists cl. split; [done|].
    destruct (cl_expires cl); [done|]. setoid_rewrite E. done.
  - done.
  - done.
  - intros k c Hc. setoid_rewrite E. by apply (H4 k), Hw.
Qed.

Lemma enq_insert T k t k' c at_ key :
  enq (<[k := t]> T) k' c at_ key ↔ (k' = k ∧ enq_of t = Some (c, at_, key)) ∨ (k' ≠ k ∧ enq T k' c at_ key).
Proof.
  unfold enq. destruct (decide (k' = k)) as [->|Hne].
  - rewrite lookup_insert_eq. cbn. naive_solver.
  - rewrite lookup_insert_ne by done. naive_solver.
Qed.

Lemma live_claims_at y now key c :
  live_claims y now !! key = Some c ↔ r_claims y !! key = Some c ∧ expired (r_heap y) now c = false.
Proof. unfold live_claims. by rewrite map_lookup_filter_Some. Qed.

(** Clearing expired claims. *)
Lemma claims_clear y now T log :
  claims_ok (r_claims y) (r_heap y) (r_now y) T log → r_now y ≤ now →
  claims_ok (live_claims y now) (r_heap y) now T log.
Proof.
  intros [H1 H2 H3 H4 H5 H6] Hn. split; [| |done|done| |done].
  - intros key c [Hc _]%live_claims_at. by apply H1.
  - intros k c at_ key Hk. destruct (H2 k c at_ key Hk) as (Hc & Hh & Ha & Hl). split_and!; [|done|lia|done].
    apply live_claims_at. split; [done|]. unfold expired. by rewrite Hh.
  - intros x Hx. destruct (H5 x Hx) as [?|(c & Hc & Hh)]; [left; lia|].
    destruct (decide (until x ≤ now)); [by left|]. right. exists c. split; [|done]. apply live_claims_at. split; [done|].
    unfold expired. rewrite Hh. cbn. apply negb_false_iff. lia.
Qed.

(** Taking the claim of a key that has none. *)
Lemma claims_take claims heap now T log k t key c :
  claims_ok claims heap now T log → claims !! key = None → heap !! c = None →
  T !! k ≫= enq_of = None → enq_of t = Some (c, now, key) → wait_of t = None →
  claims_ok (<[key := c]> claims) (<[c := mkClaim None false]> heap) now (<[k := t]> T) log.
Proof.
  intros [H1 H2 H3 H4 H5 H6] Hkey Hc Hk Ht Hw.
  assert (Hfresh : ∀ cl, heap !! c = Some cl → False) by (intros cl E; congruence).
  split.
  - intros key' c' [[<- <-]|[Hne Hc']]%lookup_insert_Some.
    + exists (mkClaim None false). rewrite lookup_insert_eq. split; [done|]. cbn. exists k, now. apply enq_insert. by left.
    + destruct (H1 key' c' Hc') as (cl & Hcl & H). exists cl. split.
      { rewrite lookup_insert_ne; [done|]. intros <-. by eapply Hfresh. }
      destruct (cl_expires cl); [done|]. destruct H as (k' & at' & He). exists k', at'. apply enq_insert. right.
      split; [|done]. intros ->. unfold enq in He. congruence.
  - intros k' c' at' key' [[-> He]|[Hne He]]%enq_insert.
    + rewrite Ht in He. injection He as <- <- <-. rewrite !lookup_insert_eq. split_and!; [done..|].
      intros x Hx <-. destruct (H5 x Hx) as [?|(c' & Hc' & _)]; [done|congruence].
    + destruct (H2 _ _ _ _ He) as (Hc' & Hh & Ha & Hl). split_and!; try done.
      * rewrite lookup_insert_ne; [done|]. intros <-. congruence.
      * rewrite lookup_insert_ne; [done|]. intros <-. by eapply Hfresh.
  - intros k1 k2 c' a1 a2 key1 key2 [[-> E1]|[N1 E1]]%enq_insert [[-> E2]|[N2 E2]]%enq_insert; [done| | |by eapply H3].
    + rewrite Ht in E1. injection E1 as <- <- <-. destruct (H2 _ _ _ _ E2) as (_ & Hh & _). by destruct (Hfresh _ Hh).
    + rewrite Ht in E2. injection E2 as <- <- <-. destruct (H2 _ _ _ _ E1) as (_ & Hh & _). by destruct (Hfresh _ Hh).
  - intros k' c' Hk'. destruct (decide (k' = k)) as [->|Hne].
    { rewrite lookup_insert_eq in Hk'. cbn in Hk'. congruence. }
    rewrite lookup_insert_ne in Hk' by done. destruct (H4 _ _ Hk') as (cl & Hcl & H). exists cl. split.
    { rewrite lookup_insert_ne; [done|]. intros <-. by eapply Hfresh. }
    destruct H as [?|(k2 & at_ & key' & He)]; [by left|]. right. exists k2, at_, key'. apply enq_insert. right. split; [|done].
    intros ->. unfold enq in He. congruence.
  - intros x Hx. destruct (H5 x Hx) as [?|(c' & Hc' & Hh)]; [by left|]. right. exists c'. split.
    + rewrite lookup_insert_ne; [done|]. intros E. congruence.
    + rewrite lookup_insert_ne; [done|]. intros <-. by eapply Hfresh.
  - done.
Qed.

(** The holder is the only one that a claim left undecided points to. *)
Lemma held_others claims heap now T log k c at_ key k' c' at' key' :
  claims_ok claims heap now T log → enq T k c at_ key → enq T k' c' at' key' → k' ≠ k → c' ≠ c ∧ key' ≠ key.
Proof.
  intros [H1 H2 H3 H4 H5 H6] E E' Hne.
  assert (c' ≠ c) by (intros ->; apply Hne; by eapply H3). split; [done|]. intros ->.
  destruct (H2 _ _ _ _ E) as (E1 & _), (H2 _ _ _ _ E') as (E2 & _). congruence.
Qed.

(** After the holder of [key] moved on, with its claim [done]. *)
Lemma claims_decide claims claims' heap now now' T log log' k c at_ key t cl :
  claims_ok claims heap now T log → enq T k c at_ key → now ≤ now' →
  enq_of t = None → wait_of t = None → cl_done cl = true →
  (∀ key', key' ≠ key → claims' !! key' = claims !! key') →
  ((claims' = delete key claims ∧ log' = log) ∨
   (claims' = claims ∧ ∃ ttl, log' = mkQueued key at_ now' ttl :: log ∧ cl = mkClaim (Some (now' + ttl)) true)) →
  claims_ok claims' (<[c := cl]> heap) now' (<[k := t]> T) log'.
Proof.
  intros Hok E Hn Ht Hw Hd Hclaims Hcase.
  assert (Hlog : ∀ x, x ∈ log → x ∈ log') by (destruct Hcase as [[_ ->]|(_ & ttl & -> & _)]; set_solver).
  destruct Hok as [H1 H2 H3 H4 H5 H6] eqn:Heq; clear Heq. destruct (H2 _ _ _ _ E) as (Hkey & Hheap & Hat & Hle).
  assert (Hc' : ∀ key' c', key' ≠ key → claims !! key' = Some c' → c' ≠ c).
  { intros key' c' Hne Hk' ->. destruct (H1 key' c Hk') as (cl' & Hcl' & Hx). rewrite Hheap in Hcl'. injection Hcl' as <-.
    cbn in Hx. destruct Hx as (k2 & at2 & E2). assert (k2 = k) as -> by by eapply H3.
    unfold enq in E, E2. rewrite E in E2. congruence. }
  split.
  - intros key' c' Hk'. destruct (decide (key' = key)) as [->|Hne].
    + destruct Hcase as [[-> _]|(-> & ttl & -> & ->)]; [by rewrite lookup_delete_eq in Hk'|].
      assert (c' = c) as -> by congruence. rewrite lookup_insert_eq. eexists. split; [done|]. cbn.
      eexists. split; [left|]. done.
    + rewrite Hclaims in Hk' by done. pose proof (Hc' _ _ Hne Hk'). rewrite lookup_insert_ne by done.
      destruct (H1 key' c' Hk') as (cl' & Hcl' & H'). exists cl'. split; [done|]. destruct (cl_expires cl').
      * destruct H' as (x & Hx & ?). exists x. split; [by apply Hlog|done].
      * destruct H' as (k2 & at2 & E2). exists k2, at2. apply enq_insert. right. split; [|done]. intros ->.
        unfold enq in E, E2. congruence.
  - intros k' c' at' key' [[_ Hx]|[Hne E']]%enq_insert; [congruence|].
    destruct (held_others _ _ _ _ _ _ _ _ _ _ _ _ _ Hok E E' Hne) as [Hcc Hkk].
    destruct (H2 _ _ _ _ E') as (Hk' & Hh' & Ha' & Hl'). rewrite Hclaims, lookup_insert_ne by done.
    split_and!; [done|done|lia|]. intros x Hx Hxk.
    destruct Hcase as [[_ ->]|(_ & ttl & -> & _)]; [by apply Hl'|]. apply elem_of_cons in Hx as [->|Hx]; [done|by apply Hl'].
  - intros k1 k2 c' a1 a2 key1 key2 [[-> E1]|[N1 E1]]%enq_insert [[-> E2]|[N2 E2]]%enq_insert; [done|congruence|congruence|].
    by eapply H3.
  - intros k' c' Hk'. destruct (decide (k' = k)) as [->|Hne].
    { rewrite lookup_insert_eq in Hk'. cbn in Hk'. congruence. }
    rewrite lookup_insert_ne in Hk' by done. destruct (decide (c' = c)) as [->|Hcc].
    { exists cl. rewrite lookup_insert_eq. split; [done|by left]. }
    destruct (H4 _ _ Hk') as (cl' & Hcl' & H'). exists cl'. rewrite lookup_insert_ne by done. split; [done|].
    destruct H' as [?|(k2 & at2 & key2 & E2)]; [by left|]. right. exists k2, at2, key2. apply enq_insert. right. split; [|done].
    intros ->. unfold enq in E, E2. congruence.
  - intros x Hx. destruct (decide (lg_key x = key)) as [Hxk|Hxk].
    + destruct (decide (x ∈ log)) as [Hin|Hin]; [left; specialize (Hle x Hin Hxk); lia|].
      destruct Hcase as [[_ ->]|(-> & ttl & -> & ->)]; [done|]. apply elem_of_cons in Hx as [->|Hx]; [|done].
      right. exists c. cbn [lg_key]. rewrite lookup_insert_eq. done.
    + assert (Hin : x ∈ log).
      { destruct Hcase as [[_ ->]|(_ & ttl & -> & _)]; [done|]. apply elem_of_cons in Hx as [->|Hx]; [by destruct Hxk|done]. }
      destruct (H5 x Hin) as [?|(c' & Hx' & Hh')]; [left; lia|]. right. exists c'.
      rewrite Hclaims, lookup_insert_ne by (done || (intros <-; by eapply Hc')). done.
  - destruct Hcase as [[_ ->]|(_ & ttl & -> & _)]; [done|]. intros [|y l1] x l2 z l3; cbn; intros [= <- Hl].
    + intros Hk. cbn [lg_key lg_claimed] in *. apply (Hle z); [|done]. rewrite Hl. apply elem_of_app. right. left.
    + by eapply H6.
Qed.

(** A call that holds no claim moves on without one. *)
Lemma claims_move claims heap now T log k t :
  claims_ok claims heap now T log → T !! k ≫= enq_of = None → t ≫= enq_of = None → t ≫= wait_of = None →
  claims_ok claims heap now (partial_alter (λ _, t) k T) log.
Proof.
  intros H Hk Ht Hw. apply (claims_frame _ _ _ T); [done| |]; intros k'; destruct (decide (k' = k)) as [->|Hne].
  - by rewrite lookup_partial_alter_eq, Ht, Hk.
  - by rewrite lookup_partial_alter_ne.
  - intros c. by rewrite lookup_partial_alter_eq, Hw.
  - intros c. by rewrite lookup_partial_alter_ne.
Qed.

(** A call starts to wait for a claim that is still undecided. *)
Lemma claims_wait claims heap now T log k t key c :
  claims_ok claims heap now T log → T !! k ≫= enq_of = None → enq_of t = None → wait_of t = Some c →
  claims !! key = Some c → heap !! c ≫= cl_expires = None →
  claims_ok claims heap now (<[k := t]> T) log.
Proof.
  intros H Hk Ht Hw Hc Hh. pose proof H as [H1 H2 H3 H4 H5 H6].
  assert (E : ∀ k' c' at_ key', enq (<[k := t]> T) k' c' at_ key' ↔ enq T k' c' at_ key').
  { intros k' c' at_ key'. rewrite enq_insert. unfold enq. split; [intros [[_ ?]|[_ ?]]; [congruence|done]|].
    intros He. right. split; [|done]. intros ->. congruence. }
  split; [|setoid_rewrite E; done|setoid_rewrite E; done| |done|done].
  - intros key' c' Hk'. destruct (H1 _ _ Hk') as (cl & Hcl & Hx). exists cl. split; [done|]. destruct (cl_expires cl); [done|].
    setoid_rewrite E. done.
  - intros k' c' Hk'. setoid_rewrite E. destruct (decide (k' = k)) as [->|Hne]; [|rewrite lookup_insert_ne in Hk' by done; by eapply H4].
    rewrite lookup_insert_eq in Hk'. cbn in Hk'. rewrite Hw in Hk'. injection Hk' as <-.
    destruct (H1 _ _ Hc) as (cl & Hcl & Hx). exists cl. split; [done|]. right. rewrite Hcl in Hh. cbn in Hh. rewrite Hh in Hx.
    destruct Hx as (k2 & at_ & He). eauto.
Qed.

(** ** Admission *)

Definition begun (t : call * cpc) : Z := match t.2 with CBegin => 0 | _ => 1 end.
Definition drained_once (y : router) : nat := if r_closed y && (r_active y =? 0) then 1 else 0.
Record gate_ok (y : router) : Prop := {
  go_active : r_active y = msum begun (r_threads y);
  go_drains : r_drains y = drained_once y;
  go_next : ∀ k, is_Some (r_threads y !! k) → (k < r_next y)%nat;
}.
Record r_ok (y : router) : Prop := {
  ok_gate : gate_ok y;
  ok_claims : claims_ok (r_claims y) (r_heap y) (r_now y) (r_threads y) (r_log y);
}.

Lemma begun_nonneg (T : threads) : 0 ≤ msum begun T.
Proof. apply msum_nonneg. intros k [c []] _; cbn; lia. Qed.

Lemma gate_goto y k c p p' : gate_ok y → r_threads y !! k = Some (c, p) → begun (c, p) = begun (c, p') →
  gate_ok (with_thread k (Some (c, p')) y).
Proof.
  intros [H1 H2 H3] Hk Hb. split; cbn.
  - change (partial_alter (λ _, Some (c, p')) k (r_threads y)) with (<[k := (c, p')]> (r_threads y)).
    rewrite (msum_insert_Some _ _ _ (c, p)) by done. lia.
  - done.
  - intros k' Hk'. destruct (decide (k' = k)) as [->|]; [apply H3; eauto|]. rewrite lookup_partial_alter_ne in Hk' by done. by apply H3.
Qed.

(** A move that touches neither the claims nor the gate. *)
Lemma ok_goto y k c p p' :
  r_ok y → r_threads y !! k = Some (c, p) → begun (c, p) = begun (c, p') → enq_of (c, p) = None →
  enq_of (c, p') = None → wait_of (c, p') = None → r_ok (with_thread k (Some (c, p')) y).
Proof.
  intros [Hg Hc] Hk Hb He He' Hw. split; [by eapply gate_goto|]. cbn. apply claims_move; [done| |done|done]. by rewrite Hk.
Qed.
Lemma ok_peers y peers : r_ok y → r_ok (with_peers peers y).
Proof. by intros [[] ?]. Qed.

Lemma ok_begin y k c p : r_ok y → r_threads y !! k = Some (c, CBegin) → r_closed y = false → begun (c, p) = 1 →
  enq_of (c, p) = None → wait_of (c, p) = None →
  r_ok (with_thread k (Some (c, p)) (with_gate (r_closed y) (r_canceled y) (r_active y + 1) (r_drains y) y)).
Proof.
  intros [[H1 H2 H3] Hc] Hk Hcl Hb He Hw. split; [split; cbn|cbn].
  - change (partial_alter (λ _, Some (c, p)) k (r_threads y)) with (<[k := (c, p)]> (r_threads y)).
    rewrite (msum_insert_Some _ _ _ (c, CBegin)) by done. rewrite Hb. change (begun (c, CBegin)) with 0. lia.
  - rewrite H2. unfold drained_once. cbn. by rewrite Hcl.
  - intros k' Hk'. destruct (decide (k' = k)) as [->|]; [apply H3; eauto|]. rewrite lookup_partial_alter_ne in Hk' by done. by apply H3.
  - apply claims_move; [done| |done|done]. by rewrite Hk.
Qed.

Lemma ok_refused y k c : r_ok y → r_threads y !! k = Some (c, CBegin) → r_ok (with_thread k None y).
Proof.
  intros [[H1 H2 H3] Hc] Hk. split; [split; cbn|cbn].
  - change (partial_alter (λ _, None) k (r_threads y)) with (delete k (r_threads y)).
    rewrite (msum_delete_Some _ _ _ (c, CBegin)) by done. change (begun (c, CBegin)) with 0. lia.
  - done.
  - intros k' Hk'. destruct (decide (k' = k)) as [->|]; [apply H3; eauto|]. rewrite lookup_partial_alter_ne in Hk' by done. by apply H3.
  - apply claims_move; [done| |done|done]. by rewrite Hk.
Qed.

Lemma ok_leave y k c r : r_ok y → r_threads y !! k = Some (c, CDone r) → r_ok (gate_done (with_thread k None y)).
Proof.
  intros [[H1 H2 H3] Hc] Hk.
  pose proof (begun_nonneg (delete k (r_threads y))) as Hn. rewrite (msum_delete_Some _ _ _ (c, CDone r)) in Hn by done.
  change (begun (c, CDone r)) with 1 in Hn.
  split; [split; cbn|cbn].
  - change (partial_alter (λ _, None) k (r_threads y)) with (delete k (r_threads y)).
    rewrite (msum_delete_Some _ _ _ (c, CDone r)) by done. change (begun (c, CDone r)) with 1. lia.
  - rewrite H2. unfold drained_once. cbn. destruct (r_closed y); cbn [andb]; [|done].
    destruct (Z.eqb_spec (r_active y) 0); [lia|done].
  - intros k' Hk'. destruct (decide (k' = k)) as [->|]; [apply H3; eauto|]. rewrite lookup_partial_alter_ne in Hk' by done. by apply H3.
  - apply claims_move; [done| |done|done]. by rewrite Hk.
Qed.

Lemma ok_stop y : r_ok y → r_ok (Stop y).
Proof.
  intros [[H1 H2 H3] Hc]. unfold Stop. destruct (r_closed y) eqn:Hcl; [by split|]. split; [split; cbn|done]; try done.
  rewrite H2. unfold drained_once. cbn. rewrite Hcl. by destruct (r_active y =? 0).
Qed.

Lemma ok_new c y : r_ok y → r_ok (new_call c y).
Proof.
  intros [[H1 H2 H3] Hc].
  assert (Hk : r_threads y !! r_next y = None).
  { destruct (r_threads y !! r_next y) eqn:E; [|done]. pose proof (H3 (r_next y) ltac:(eauto)). lia. }
  split; [split; cbn|cbn].
  - rewrite msum_insert_None by done. change (begun (c, CBegin)) with 0. lia.
  - done.
  - intros k' Hk'. destruct (decide (k' = r_next y)) as [->|]; [lia|]. rewrite lookup_insert_ne in Hk' by done.
    specialize (H3 k' Hk'). lia.
  - change (<[r_next y := (c, CBegin)]> (r_threads y)) with (partial_alter (λ _, Some (c, CBegin)) (r_next y) (r_threads y)).
    apply claims_move; [done| |done|done]. by rewrite Hk.
Qed.

Lemma gate_claims claims heap now log y k c p p' : gate_ok y → r_threads y !! k = Some (c, p) → begun (c, p) = begun (c, p') →
  gate_ok (with_thread k (Some (c, p')) (with_claims claims heap now log y)).
Proof. intros [] Hk Hb. by apply (gate_goto (with_claims claims heap now log y) k c p). Qed.

(** ** Every step *)

Section steps.
Context (account : string) (has_rules has_listening has_peers has_queue : bool).
Abbreviation step := (r_step account has_rules has_listening has_peers has_queue).
Abbreviation run := (r_run account has_rules has_listening has_peers has_queue).

(** Outside [enqueueDefault] no call holds a claim or waits for one. *)
Lemma admission_free canceled c : let t := (c, admission has_queue canceled c) in begun t = 1 ∧ enq_of t = None ∧ wait_of t = None.
Proof.
  cbn. unfold admission. destruct (ca_message c); [destruct canceled; [done|]; destruct (fm_Outgoing _); [done|]|];
    destruct (forwardSource _); try done. by destruct (_ || _).
Qed.
Lemma routed_free c l d ttl : let t := (c, routed c l d ttl) in begun t = 1 ∧ enq_of t = None ∧ wait_of t = None.
Proof. cbn. unfold routed. by destruct (ca_message c). Qed.
Lemma route_free c source rules listening :
  let t := (c, route has_rules has_listening c source rules listening) in begun t = 1 ∧ enq_of t = None ∧ wait_of t = None.
Proof.
  cbn. unfold route. destruct (_ && _ && _); [apply routed_free|]. destruct (ca_automatic c); [|done].
  destruct has_listening; cbn [negb]; [by destruct listening as [[]|]|apply routed_free].
Qed.
Lemma default_free c s target : let t := (c, default_route c s target) in begun t = 1 ∧ enq_of t = None ∧ wait_of t = None.
Proof. cbn. unfold default_route. destruct target as [p [e|]]; [done|apply routed_free]. Qed.

Lemma ok_claim_step y k c d rest ttl failed canceled now y' :
  r_ok y → r_threads y !! k = Some (c, CClaim d rest ttl failed) →
  call_step account has_rules has_listening has_peers has_queue k (AClaim canceled now) y = Some y' → r_ok y'.
Proof.
  intros H Hk. unfold call_step. rewrite Hk. cbn [mbind option_bind].
  destruct canceled; [intros [= <-]; by eapply ok_goto|]. destruct (Z.ltb_spec now (r_now y)); [done|].
  destruct (ca_message c) as [m|] eqn:Hm; [|done].
  pose proof (claims_clear y now _ _ (ok_claims _ H) ltac:(lia)) as Hcl. destruct H as [Hg Hc].
  assert (Hke : r_threads y !! k ≫= enq_of = None) by by rewrite Hk.
  destruct (live_claims y now !! claim_key m d) as [existing|] eqn:Hex.
  - destruct (r_heap y !! existing ≫= cl_expires) as [e|] eqn:He; intros [= <-].
    + split; [by eapply gate_claims|]. cbn. by apply claims_move.
    + split; [by eapply gate_claims|]. cbn.
      change (partial_alter (λ _, Some ?t) k (r_threads y)) with (<[k := t]> (r_threads y)).
      by eapply (claims_wait _ _ _ _ _ _ _ (claim_key m d) existing).
  - intros [= <-]. split; [by eapply gate_claims|]. cbn.
    change (partial_alter (λ _, Some ?t) k (r_threads y)) with (<[k := t]> (r_threads y)).
    apply claims_take; [done|done| |done| |done].
    + apply not_elem_of_dom. apply is_fresh.
    + cbn. by rewrite Hm.
Qed.

Lemma ok_queued_step y k c claim at_ d rest ttl failed ok now y' :
  r_ok y → r_threads y !! k = Some (c, CEnqueue claim at_ d rest ttl failed) →
  call_step account has_rules has_listening has_peers has_queue k (AQueued ok now) y = Some y' → r_ok y'.
Proof.
  intros [Hg Hc] Hk. unfold call_step. rewrite Hk. cbn [mbind option_bind].
  destruct (Z.ltb_spec now (r_now y)); [done|]. destruct (ca_message c) as [m|] eqn:Hm; [|done].
  assert (He : enq (r_threads y) k claim at_ (claim_key m d)) by (unfold enq; rewrite Hk; cbn; by rewrite Hm).
  destruct ok; intros [= <-]; (split; [by eapply gate_claims|]); cbn;
    change (partial_alter (λ _, Some ?t) k (r_threads y)) with (<[k := t]> (r_threads y)).
  - eapply (claims_decide (r_claims y) (r_claims y)); try done. right. split; [done|]. by exists ttl.
  - eapply (claims_decide (r_claims y)); try done; [|by left]. intros key' Hne. by rewrite lookup_delete_ne.
Qed.

Lemma router_call_step_ok k a y y' : r_ok y → call_step account has_rules has_listening has_peers has_queue k a y = Some y' → r_ok y'.
Proof.
  intros H. destruct (r_threads y !! k) as [[c p]|] eqn:Hk; [|unfold call_step; rewrite Hk; intros E; discriminate E].
  assert (Hgo : ∀ p' y', r_ok y' → r_threads y' !! k = Some (c, p) → begun (c, p) = 1 → enq_of (c, p) = None →
    begun (c, p') = 1 ∧ enq_of (c, p') = None ∧ wait_of (c, p') = None → r_ok (with_thread k (Some (c, p')) y')).
  { intros p' y1 H1 Hk1 Hb He (Hb' & He' & Hw'). eapply ok_goto; try done. congruence. }
  destruct p as [|source|source raws comments failed| |rest dr ttl failed|d rest ttl failed|cl d rest ttl failed|cl at_ d rest ttl failed|r];
    destruct a as [canceled|canceled rules listening|a|s a|canceled ok|canceled now| | |ok now|];
    try (unfold call_step; rewrite Hk; cbn [mbind option_bind]; done);
    try (by eapply ok_claim_step); try (by eapply ok_queued_step);
    unfold call_step; rewrite Hk; cbn [mbind option_bind]; try (destruct raws; done); try (destruct rest; done).
  - destruct (r_closed y || r_canceled y || _) eqn:Eg; intros [= <-]; [by eapply ok_refused|].
    apply orb_false_iff in Eg as [[Hcl _]%orb_false_iff _]. destruct (admission_free canceled c) as (? & ? & ?). by apply ok_begin.
  - intros [= <-]. apply Hgo; try done. destruct canceled; [done|apply route_free].
  - destruct raws as [|raw raws]; [intros [= <-]; apply Hgo; [done..|]; destruct failed; [done|apply routed_free]|].
    destruct (String.eqb _ _); [intros [= <-]; by apply Hgo|].
    destruct (resolve _ _ _ _ _) as [[peer e] peers]. intros [= <-]. apply Hgo; try done; [by apply ok_peers|by destruct (listen_match _ _ _)].
  - destruct has_queue; cbn [negb]; [|intros [= <-]; by apply Hgo]. destruct (mode_ok _); cbn [negb]; [|intros [= <-]; by apply Hgo].
    destruct (resolve _ _ _ _ _) as [target peers]. intros [= <-]. apply Hgo; try done; [by apply ok_peers|apply default_free].
  - destruct rest as [|d rest]; [intros [= <-]; by apply Hgo|]. destruct canceled; [intros [= <-]; by apply Hgo|].
    destruct dr; intros [= <-]; by apply Hgo.
  - destruct (r_heap y !! cl) as [claim|]; [|done]. destruct (cl_done claim); [|done]. intros [= <-]. by apply Hgo.
  - intros [= <-]. by apply Hgo.
  - intros [= <-]. by eapply ok_leave.
Qed.

Lemma router_step_ok l y y' : r_ok y → step l y = Some y' → r_ok y'.
Proof.
  intros H. destruct l; cbn [r_step].
  - intros [= <-]. by apply ok_new.
  - intros [= <-]. by apply ok_new.
  - by apply router_call_step_ok.
  - intros [= <-]. by apply ok_stop.
  - intros [= <-]. by destruct H as [[] ?].
Qed.

Lemma router_init_ok now : r_ok (r_init now).
Proof.
  split; split; cbn.
  - done.
  - done.
  - intros k [t Hk]. by rewrite lookup_empty in Hk.
  - intros key c Hk. by rewrite lookup_empty in Hk.
  - intros k c at_ key Hk. unfold enq in Hk. by rewrite lookup_empty in Hk.
  - intros k k' c a a' key key' Hk. unfold enq in Hk. by rewrite lookup_empty in Hk.
  - intros k c Hk. by rewrite lookup_empty in Hk.
  - intros x Hx. by apply elem_of_nil in Hx.
  - intros [] x l2 z l3 Hl; done.
Qed.

Lemma router_run_ok l y y' : r_ok y → run l y = Some y' → r_ok y'.
Proof.
  apply steps_inv. intros e y1 y2. apply router_step_ok.
Qed.
End steps.

(** ** The properties *)

Section props.
Context (account : string) (has_rules has_listening has_peers has_queue : bool).
Abbreviation run := (r_run account has_rules has_listening has_peers has_queue).
Abbreviation cstep := (call_step account has_rules has_listening has_peers has_queue).

Lemma idle_begin y : r_ok y → r_active y = 0 ↔ ∀ k c p, r_threads y !! k = Some (c, p) → p = CBegin.
Proof.
  intros [[H1 _ _] _]. rewrite H1. split.
  - intros H0 k c p Hk. pose proof (msum_ge begun (r_threads y) k (c, p) ltac:(intros ? [? []] _; cbn; lia) Hk) as Hge.
    rewrite H0 in Hge. destruct p; cbn in Hge; try done; lia.
  - intros Hall. apply msum_zero. intros k [c p] Hk. by rewrite (Hall _ _ _ Hk).
Qed.

Lemma drained_iff y : r_ok y → r_drains y = 1%nat ↔ r_closed y = true ∧ ∀ k c p, r_threads y !! k = Some (c, p) → p = CBegin.
Proof.
  intros H. rewrite <- (idle_begin y H). destruct H as [[_ -> _] _]. unfold drained_once.
  destruct (r_closed y), (Z.eqb_spec (r_active y) 0); cbn; naive_solver.
Qed.

(** Once drained, a router only refuses calls. *)
Definition drained (y : router) : Prop := r_closed y = true ∧ ∀ k c p, r_threads y !! k = Some (c, p) → p = CBegin.
Lemma drained_step l y y' : drained y →
  r_step account has_rules has_listening has_peers has_queue l y = Some y' → drained y' ∧ r_log y' = r_log y.
Proof.
  intros [Hcl Hall]. destruct l as [a p|m|k a| |]; cbn [r_step].
  - intros [= <-]. split; [split; [done|]|done]. cbn. intros k c q [[_ [= _ <-]]|[_ Hk]]%lookup_insert_Some; [done|by eapply Hall].
  - intros [= <-]. split; [split; [done|]|done]. cbn. intros k c q [[_ [= _ <-]]|[_ Hk]]%lookup_insert_Some; [done|by eapply Hall].
  - unfold call_step. destruct (r_threads y !! k) as [[c p]|] eqn:Hk; cbn [mbind option_bind]; [|done].
    rewrite (Hall _ _ _ Hk). destruct a; try done. rewrite Hcl. cbn [orb]. intros [= <-]. split; [split; [done|]|done].
    cbn. intros k' c' q Hk'. destruct (decide (k' = k)) as [->|Hne]; [by rewrite lookup_partial_alter_eq in Hk'|].
    rewrite lookup_partial_alter_ne in Hk' by done. by eapply Hall.
  - unfold Stop. rewrite Hcl. by intros [= <-].
  - by intros [= <-].
Qed.
Lemma drained_run l y y' : drained y → run l y = Some y' → drained y' ∧ r_log y' = r_log y.
Proof.
  intros H Hr. split; [exact (steps_inv _ drained l y y' (λ e y1 y2 H1 H2, proj1 (drained_step e y1 y2 H1 H2)) H Hr)|].
  revert H Hr. apply (steps_rel _ drained (λ y y', r_log y' = r_log y)); [|done|].
  - intros e y1 y2 H1 H2. by apply (drained_step e y1 y2).
  - intros e y0 y1 y2 H1 <- H2. by apply (drained_step e y1 y2).
Qed.

(** C21: Over every interleaving of calls, the default route queues a message
    for a destination at most once per retention period: a later attempt with
    the same key is claimed only after the earlier acceptance has expired.  At
    most one call at a time attempts a key; a call that waits for another's
    attempt always has one to wait for, or its result; and a call is told that
    its message was accepted before only when it was, and not yet expired. *)
Theorem router_dedupe l start y :
  run l (r_init start) = Some y →
  (∀ l1 x l2 z l3, r_log y = l1 ++ x :: l2 ++ z :: l3 → lg_key x = lg_key z → lg_accepted z + lg_ttl z ≤ lg_claimed x) ∧
  (∀ k k' c c' at_ at' key, enq (r_threads y) k c at_ key → enq (r_threads y) k' c' at' key → k = k') ∧
  (∀ k c, r_threads y !! k ≫= wait_of = Some c →
     cl_done <$> r_heap y !! c = Some true ∨ ∃ k' at_ key, enq (r_threads y) k' c at_ key) ∧
  (∀ k ca d rest ttl failed m now y', r_threads y !! k = Some (ca, CClaim d rest ttl failed) → ca_message ca = Some m →
     cstep k (AClaim false now) y = Some y' → r_threads y' !! k = Some (ca, CSend rest true ttl failed) →
     ∃ x, x ∈ r_log y ∧ lg_key x = claim_key m d ∧ now < lg_accepted x + lg_ttl x).
Proof.
  intros H%router_run_ok; [|apply router_init_ok]. destruct (ok_claims _ H) as [H1 H2 H3 H4 H5 H6]. split_and!.
  - intros l1 x l2 z l3 Hl Hk. by apply (H6 l1 x l2 z l3).
  - intros k k' c c' a a' key E E'. destruct (H2 _ _ _ _ E) as (E1 & _), (H2 _ _ _ _ E') as (E2 & _).
    assert (c = c') as <- by congruence. by eapply H3.
  - intros k c Hk. destruct (H4 k c Hk) as (cl & -> & [Hd|Hd]); [left; cbn; by rewrite Hd|by right].
  - intros k ca d rest ttl failed m now y' Hk Hm. unfold call_step. rewrite Hk. cbn [mbind option_bind].
    destruct (now <? r_now y); [done|]. rewrite Hm.
    destruct (live_claims y now !! claim_key m d) as [c|] eqn:Hc.
    + apply live_claims_at in Hc as [Hc Hx]. destruct (H1 _ _ Hc) as (cl & Hcl & Hcase). unfold expired in Hx.
      rewrite Hcl in Hx |- *. cbn [mbind option_bind] in Hx |- *. destruct (cl_expires cl) as [e|]; intros [= <-]; cbn;
        rewrite lookup_partial_alter_eq; [|done].
      intros _. destruct Hcase as (x & Hin & Hkey & He). exists x. split; [done|]. split; [done|].
      unfold until in He. apply negb_false_iff in Hx. lia.
    + intros [= <-]. cbn. by rewrite lookup_partial_alter_eq.
Qed.

(** [Stop] waits exactly for the calls that were admitted: the channel it
    waits on is closed at most once, and it is closed precisely when the router
    is closed and no admitted call is left; from then on every call is refused
    and nothing is queued any more. *)
Theorem router_drain l start y :
  run l (r_init start) = Some y →
  (r_drains y ≤ 1)%nat ∧
  (r_drains y = 1%nat ↔ r_closed y = true ∧ ∀ k c p, r_threads y !! k = Some (c, p) → p = CBegin) ∧
  ∀ l' y', r_drains y = 1%nat → run l' y = Some y' →
    r_drains y' = 1%nat ∧ r_log y' = r_log y ∧ ∀ k c p, r_threads y' !! k = Some (c, p) → p = CBegin.
Proof.
  intros H%router_run_ok; [|apply router_init_ok]. split; [|split; [by apply drained_iff|]].
  - destruct (ok_gate _ H) as [_ -> _]. unfold drained_once. destruct (_ && _); lia.
  - intros l' y' Hd%drained_iff Hr; [|done]. destruct (drained_run _ _ _ Hd Hr) as [Hd' ?].
    split; [apply drained_iff; [by eapply router_run_ok|done]|]. split; [done|apply Hd'].
Qed.
End props.

Definition demo_message : ForwardMessage := mkMessage "acct" (mkPeer "channel" 7) 42 0 "" true false.
Definition demo_listen : res err (list string * bool) := Ok (["@news"], false).
Definition demo_peer (reference : string) : resolution := mkResolution 100 false (mkForwardPeer reference "" "") None false.
Definition demo_default : settings := mkSettings "@me" "default" false (10 * second).
(** Two calls carry the same message; the second waits for the first. *)
Definition demo_calls : list label :=
  [LSubmit demo_message; LSubmit demo_message; LStep 0 (ABegin false); LStep 1 (ABegin false);
   LStep 0 (ARoute false [] demo_listen); LStep 0 (APeer (demo_peer "channel:7")); LStep 0 (ADefault demo_default (demo_peer "user:1"));
   LStep 1 (ARoute false [] demo_listen); LStep 1 (APeer (demo_peer "channel:7")); LStep 1 (ADefault demo_default (demo_peer "user:1"));
   LStep 0 (ASend false true); LStep 1 (ASend false true); LStep 0 (AClaim false 200); LStep 1 (AClaim false 201);
   LStep 0 (AQueued true 300); LStep 1 AWake].
Definition demo_router : router := default (r_init 0) (r_run "acct" true true true true demo_calls (r_init 0)).
Lemma demo_router_run : r_run "acct" true true true true demo_calls (r_init 0) = Some demo_router.
Proof. vm_compute. reflexivity. Qed.
Definition demo_rest : list label :=
  [LStop; LStep 1 (AClaim false 400); LStep 0 (ASend false true); LStep 1 (ASend false true); LStep 0 ALeave; LStep 1 ALeave;
   LSubmit demo_message; LStep 2 (ABegin false)].
Definition demo_stopped : router := default demo_router (r_run "acct" true true true true (demo_calls ++ demo_rest) (r_init 0)).

Lemma router_dedupe_witness :
  lg_key <$> r_log demo_router = ["channel:7/m:42/user:1/default/false"] ∧
  snd <$> r_threads demo_router !! 1%nat = Some (CClaim (mkDest "user:1" "" "default" false) [] (10 * second) false) ∧
  (∀ k k' c c' at_ at' key, enq (r_threads demo_router) k c at_ key → enq (r_threads demo_router) k' c' at' key → k = k').
Proof.
  split; [vm_compute; reflexivity|]. split; [vm_compute; reflexivity|].
  exact (proj1 (proj2 (router_dedupe "acct" true true true true demo_calls 0 demo_router demo_router_run))).
Defined.

Lemma router_drain_witness :
  r_drains demo_stopped = 1%nat ∧ r_log demo_stopped = r_log demo_router ∧
  (r_drains demo_stopped ≤ 1)%nat.
Proof.
  split; [vm_compute; reflexivity|]. split; [vm_compute; reflexivity|].
  assert (E : r_run "acct" true true true true (demo_calls ++ demo_rest) (r_init 0) = Some demo_stopped) by (vm_compute; reflexivity).
  exact (proj1 (router_drain "acct" true true true true (demo_calls ++ demo_rest) 0 demo_stopped E)).
Defined.
