(* ===== verification/EventBus.v ===== *)
(** * Event bus (rte/eventbus/bus.go, rte/events.go)

    Subscribers with bounded queues, each served by its own goroutine; atomic
    publication; closing; and draining the handlers of one lifecycle.  Every
    locked section, channel operation and call of a handler is one step.  A
    context is its [Done] channel, a number; a panic that [invoke] recovers is
    an error of the handler. *)

From S2P Require Import Prelude Lts Strings Storage.
Local Open Scope list_scope.

Record Event := mkEvent { ev_Account : string; ev_Topic : string; ev_Payload : string }.
#[export] Instance Event_eq : EqDecision Event.
Proof. solve_decision. Defined.

(** ** Subscribers *)

Inductive gpc :=
  | GSelect                      (* the select of the loop *)
  | GGot (e : Event)             (* received, before the check of the context *)
  | GHandle (e : Event)          (* in the handler *)
  | GReport                      (* in the reporter *)
  | GExit                        (* the loop has returned *)
  | GCancel                      (* deregistered, [done] closed *)
  | GGone.                       (* after [wg.Done] *)

(** [s_sent] and [s_handled] remember what was queued for the subscriber and
    what its handler was called with, oldest first, and [s_since] how much had
    been published when it was registered. *)
Record subscriber := mkSub {
  s_topic : string; s_cap : nat; s_owner : nat; s_has_report : bool;
  s_queue : list Event; s_canceled : bool; s_registered : bool; s_done : bool; s_pc : gpc;
  s_sent : list Event; s_handled : list Event; s_since : nat;
}.
Definition s_at (pc : gpc) (s : subscriber) : subscriber :=
  mkSub (s_topic s) (s_cap s) (s_owner s) (s_has_report s) (s_queue s) (s_canceled s) (s_registered s) (s_done s) pc
    (s_sent s) (s_handled s) (s_since s).
Definition s_stop (s : subscriber) : subscriber :=
  mkSub (s_topic s) (s_cap s) (s_owner s) (s_has_report s) (s_queue s) true (s_registered s) (s_done s) (s_pc s)
    (s_sent s) (s_handled s) (s_since s).
Definition s_push (e : Event) (s : subscriber) : subscriber :=
  mkSub (s_topic s) (s_cap s) (s_owner s) (s_has_report s) (s_queue s ++ [e]) (s_canceled s) (s_registered s) (s_done s) (s_pc s)
    (s_sent s ++ [e]) (s_handled s) (s_since s).
Definition s_pop (pc : gpc) (queue : list Event) (s : subscriber) : subscriber :=
  mkSub (s_topic s) (s_cap s) (s_owner s) (s_has_report s) queue (s_canceled s) (s_registered s) (s_done s) pc
    (s_sent s) (s_handled s) (s_since s).
Definition s_handle (e : Event) (s : subscriber) : subscriber :=
  mkSub (s_topic s) (s_cap s) (s_owner s) (s_has_report s) (s_queue s) (s_canceled s) (s_registered s) (s_done s) (GHandle e)
    (s_sent s) (s_handled s ++ [e]) (s_since s).
Definition s_leave (s : subscriber) : subscriber :=
  mkSub (s_topic s) (s_cap s) (s_owner s) (s_has_report s) (s_queue s) (s_canceled s) false true GCancel
    (s_sent s) (s_handled s) (s_since s).

(** ** The bus *)

(** A call between its steps; a [Close] or [WaitScope] that returned without
    error stays.  [live] tells whether the lifecycle was canceled when
    [WaitScope] took its snapshot. *)
Inductive bcall :=
  | CSubscribe (owner : nat) (topic : string) (capacity : nat) (has_report : bool)
  | CClosing
  | CClosed
  | CScope (owner : nat) (canceled : bool) (pending : list nat)
  | CScoped (owner : nat) (canceled : bool).

Record bus := mkBus {
  b_account : string;
  b_closed : bool;
  b_subs : gmap nat subscriber;         (* every subscriber, also after it left *)
  b_next : nat;
  b_wg : Z;
  b_canceled : gset nat;                (* canceled lifecycles *)
  b_calls : gmap nat bcall;
  b_ncalls : nat;
  b_log : list Event;                   (* everything published *)
}.
Definition with_subs (subs : gmap nat subscriber) (y : bus) : bus :=
  mkBus (b_account y) (b_closed y) subs (b_next y) (b_wg y) (b_canceled y) (b_calls y) (b_ncalls y) (b_log y).
Definition with_sub (i : nat) (s : subscriber) (y : bus) : bus := with_subs (<[i := s]> (b_subs y)) y.
Definition with_wg (wg : Z) (y : bus) : bus :=
  mkBus (b_account y) (b_closed y) (b_subs y) (b_next y) wg (b_canceled y) (b_calls y) (b_ncalls y) (b_log y).
Definition with_call (k : nat) (c : option bcall) (y : bus) : bus :=
  mkBus (b_account y) (b_closed y) (b_subs y) (b_next y) (b_wg y) (b_canceled y) (partial_alter (λ _, c) k (b_calls y)) (b_ncalls y) (b_log y).
Definition new_bcall (c : bcall) (y : bus) : bus :=
  mkBus (b_account y) (b_closed y) (b_subs y) (b_next y) (b_wg y) (b_canceled y) (<[b_ncalls y := c]> (b_calls y)) (S (b_ncalls y)) (b_log y).

(** [ctx.Err() != nil] of a subscriber *)
Definition sub_stopped (y : bus) (s : subscriber) : bool := s_canceled s || bool_decide (s_owner s ∈ b_canceled y).

(** [Subscribe], before the lock. *)
Definition subscribe_begin (owner : nat) (topic : string) (capacity : nat) (has_handler has_report : bool) (y : bus) : res err bus :=
  if String.eqb topic "" || (capacity <? 1)%nat || negb has_handler then Err (ErrMsg "topic, positive capacity and handler are required")
  else if bool_decide (owner ∈ b_canceled y) then Err ErrCanceled
  else Ok (new_bcall (CSubscribe owner topic capacity has_report) y).
Definition ErrClosed : err := ErrMsg "event bus is closed".
Definition ErrFull : err := ErrMsg "subscriber queue is full".
(** The locked section: registration and the start of the goroutine. *)
Definition subscribe_end (owner : nat) (topic : string) (capacity : nat) (has_report : bool) (y : bus) : res err bus :=
  if b_closed y then Err ErrClosed
  else Ok (mkBus (b_account y) false
             (<[b_next y := mkSub topic capacity owner has_report [] false true false GSelect [] [] (length (b_log y))]> (b_subs y))
             (S (b_next y)) (b_wg y + 1) (b_canceled y) (b_calls y) (b_ncalls y) (b_log y)).

(** [Publish]; [payload] is the marshalled value, if it could be marshalled.
    A subscriber whose context ends during the loop counts as ended before the
    call when it is skipped, and after it otherwise. *)
Definition recipient (topic : string) (y : bus) (s : subscriber) : bool :=
  s_registered s && String.eqb (s_topic s) topic && negb (sub_stopped y s).
Definition full (s : subscriber) : bool := (length (s_queue s) =? s_cap s)%nat.
Definition Publish (canceled : bool) (topic : string) (payload : option string) (y : bus) : res err bus :=
  if canceled then Err ErrCanceled
  else if String.eqb topic "" then Err (ErrMsg "event topic is required")
  else match payload with
       | None => Err (ErrMsg "json: unsupported value")
       | Some data =>
           if b_closed y then Err ErrClosed
           else if existsb (λ p : nat * subscriber, recipient topic y p.2 && full p.2) (map_to_list (b_subs y)) then Err ErrFull
           else
             let e := mkEvent (b_account y) topic data in
             Ok (mkBus (b_account y) false ((λ s, if recipient topic y s then s_push e s else s) <$> b_subs y) (b_next y) (b_wg y)
                  (b_canceled y) (b_calls y) (b_ncalls y) (b_log y ++ [e]))
       end.

(** [Close], the locked section. *)
Definition close_begin (y : bus) : bus :=
  new_bcall CClosing
    (mkBus (b_account y) true ((λ s, if s_registered s then s_stop s else s) <$> b_subs y) (b_next y) (b_wg y) (b_canceled y)
       (b_calls y) (b_ncalls y) (b_log y)).

(** [WaitScope], the snapshot. *)
Definition scope_pending (owner : nat) (y : bus) : list nat :=
  (filter (λ '(_, s), s_registered s = true ∧ s_owner s = owner) (map_to_list (b_subs y))).*1.
Definition scope_begin (owner : nat) (y : bus) : bus :=
  new_bcall (CScope owner (bool_decide (owner ∈ b_canceled y)) (scope_pending owner y)) y.

(** One step of the goroutine of a subscriber. *)
Inductive ganswer := GaStop | GaReceive | GaCheck | GaReturn (ok : bool) | GaNext.
Definition sub_step (i : nat) (a : ganswer) (y : bus) : option bus :=
  s ← b_subs y !! i;
  match s_pc s, a with
  | GSelect, GaStop => if sub_stopped y s then Some (with_sub i (s_at GExit s) y) else None
  | GSelect, GaReceive => match s_queue s with e :: queue => Some (with_sub i (s_pop (GGot e) queue s) y) | [] => None end
  | GGot e, GaCheck => Some (with_sub i (if sub_stopped y s then s_at GExit s else s_handle e s) y)
  | GHandle _, GaReturn ok => Some (with_sub i (s_at (if negb ok && s_has_report s then GReport else GSelect) s) y)
  | GReport, GaNext => Some (with_sub i (s_at GSelect s) y)
  | GExit, GaNext => Some (with_sub i (s_leave s) y)
  | GCancel, GaNext => Some (with_wg (b_wg y - 1) (with_sub i (s_at GGone (s_stop s)) y))
  | _, _ => None
  end.

(** One step of a call; [abort] is the end of the caller's context. *)
Definition call_step (k : nat) (abort : bool) (y : bus) : option bus :=
  c ← b_calls y !! k;
  match c with
  | CSubscribe owner topic capacity has_report =>
      match subscribe_end owner topic capacity has_report y with
      | Ok y' => Some (with_call k None y')
      | Err _ => Some (with_call k None y)
      end
  | CClosing => if abort then Some (with_call k None y) else if b_wg y =? 0 then Some (with_call k (Some CClosed) y) else None
  | CScope owner canceled [] => if abort then None else Some (with_call k (Some (CScoped owner canceled)) y)
  | CScope owner canceled (i :: pending) =>
      if abort then Some (with_call k None y)
      else match b_subs y !! i with
           | Some s => if s_done s then Some (with_call k (Some (CScope owner canceled pending)) y) else None
           | None => None
           end
  | CClosed | CScoped _ _ => None
  end.

(** ** Events (rte/events.go): the capability of one component *)

Record Events := mkEvents { e_ctx : nat; e_publishes : list string; e_subscribes : list string }.
Definition EventsPublish (e : Events) (canceled : bool) (topic : string) (payload : option string) (y : bus) : res err bus :=
  if negb (bool_decide (topic ∈ e_publishes e)) then Err (ErrMsg "undeclared published topic")
  else if bool_decide (e_ctx e ∈ b_canceled y) then Err ErrCanceled
  else Publish canceled topic payload y.
Definition EventsSubscribe (e : Events) (topic : string) (capacity : nat) (has_handler : bool) (y : bus) : res err bus :=
  if negb (bool_decide (topic ∈ e_subscribes e)) then Err (ErrMsg "undeclared subscribed topic")
  else subscribe_begin (e_ctx e) topic capacity has_handler true y.

(** ** Everything together *)

Inductive label :=
  | LPublish (e : Events) (canceled : bool) (topic : string) (payload : option string)
  | LSubscribe (e : Events) (topic : string) (capacity : nat) (has_handler : bool)
  | LCall (k : nat) (abort : bool)
  | LGo (i : nat) (a : ganswer)
  | LUnsubscribe (i : nat)                     (* the function [Subscribe] returned *)
  | LCancel (owner : nat)                      (* the end of a lifecycle *)
  | LClose
  | LScope (owner : nat).

Definition b_step (l : label) (y : bus) : option bus :=
  match l with
  | LPublish e canceled topic payload => Some (ok_or y (EventsPublish e canceled topic payload y))
  | LSubscribe e topic capacity has_handler => Some (ok_or y (EventsSubscribe e topic capacity has_handler y))
  | LCall k abort => call_step k abort y
  | LGo i a => sub_step i a y
  | LUnsubscribe i => s ← b_subs y !! i; Some (with_sub i (s_stop s) y)
  | LCancel owner =>
      Some (mkBus (b_account y) (b_closed y) (b_subs y) (b_next y) (b_wg y) ({[owner]} ∪ b_canceled y) (b_calls y) (b_ncalls y) (b_log y))
  | LClose => Some (close_begin y)
  | LScope owner => Some (scope_begin owner y)
  end.
Definition b_run (l : list label) (y : bus) : option bus := steps b_step l y.
(** [New] *)
Definition b_init (account : string) : bus := mkBus account false ∅ 0 0 ∅ ∅ 0 [].
