(* ===== verification/EventBusProps.v ===== *)
(** * Properties of the event bus *)

From S2P Require Import Prelude Lts Strings Storage EventBus.
Local Open Scope list_scope.

(** ** Invariants *)

(** The events of one topic, among those published since. *)
Definition on_topic (topic : string) (l : list Event) : list Event := filter (λ e, ev_Topic e = topic) l.
(** What was received and neither handled nor dropped. *)
Definition in_flight (s : subscriber) : list Event := match s_pc s with GGot e => [e] | _ => [] end.
Definition leaving (p : gpc) : bool := match p with GExit | GCancel | GGone => true | _ => false end.
Definition handling (p : gpc) : bool := match p with GHandle _ | GReport => true | _ => false end.

Record sub_ok (stopped : bool) (log : list Event) (s : subscriber) : Prop := {
  so_cap : (length (s_queue s) ≤ s_cap s)%nat;
  so_since : (s_since s ≤ length log)%nat;
  so_sent : ∃ n, s_sent s = on_topic (s_topic s) (take n (drop (s_since s) log));
  so_all : stopped = false → s_sent s = on_topic (s_topic s) (drop (s_since s) log);
  so_order : ∃ d, s_sent s = s_handled s ++ d ++ s_queue s ∧ (leaving (s_pc s) = false → d = in_flight s);
  so_left : leaving (s_pc s) = true → stopped = true;
  so_registered : s_registered s = match s_pc s with GCancel | GGone => false | _ => true end;
  so_done : s_done s = negb (s_registered s);
}.

Definition at_work (s : subscriber) : Z := match s_pc s with GGone => 0 | _ => 1 end.

Definition call_ok (y : bus) (c : bcall) : Prop :=
  match c with
  | CSubscribe _ _ _ _ => True
  | CClosing => b_closed y = true
  | CClosed => b_closed y = true ∧ b_wg y = 0
  | CScope owner true pending =>
      owner ∈ b_canceled y ∧ ∀ i s, b_subs y !! i = Some s → s_owner s = owner → i ∈ pending ∨ handling (s_pc s) = false
  | CScoped owner true =>
      owner ∈ b_canceled y ∧ ∀ i s, b_subs y !! i = Some s → s_owner s = owner → handling (s_pc s) = false
  | CScope _ false _ | CScoped _ false => True
  end.

Record b_ok (y : bus) : Prop := {
  bo_subs : ∀ i s, b_subs y !! i = Some s → sub_ok (sub_stopped y s) (b_log y) s;
  bo_next : ∀ i, is_Some (b_subs y !! i) → (i < b_next y)%nat;
  bo_wg : b_wg y = msum at_work (b_subs y);
  bo_closed : b_closed y = true → ∀ i s, b_subs y !! i = Some s → s_registered s = true → s_canceled s = true;
  bo_calls : ∀ k c, b_calls y !! k = Some c → call_ok y c;
}.

Lemma sub_ok_stop log s b b' : sub_ok b log s → (b = true → b' = true) → sub_ok b' log s.
Proof.
  intros [H1 H2 H3 H4 H5 H6 H7 H8] Hb. split; try done.
  - intros ->. apply H4. destruct b; [|done]. by discriminate Hb.
  - intros Hl. by apply Hb, H6.
Qed.
Lemma sub_ok_stopped log s s' b :
  s' = s_stop s → sub_ok b log s → sub_ok true log s'.
Proof. intros -> H. apply (sub_ok_stop _ _ _ true) in H; [|done]. by destruct H. Qed.

(** Calls other than those about the subscribers that changed are unaffected. *)
Lemma call_ok_mono y y' c :
  call_ok y c → (b_closed y = true → b_closed y' = true) → (b_closed y = true → b_wg y = 0 → b_wg y' = 0) →
  (∀ o, o ∈ b_canceled y → o ∈ b_canceled y') →
  (∀ i s', b_subs y' !! i = Some s' → handling (s_pc s') = true → s_owner s' ∈ b_canceled y →
     ∃ s, b_subs y !! i = Some s ∧ handling (s_pc s) = true ∧ s_owner s = s_owner s') →
  call_ok y' c.
Proof.
  intros Hc Hcl Hwg Hcan Hsubs. destruct c as [o t n r| | |o [] pending|o []]; cbn [call_ok] in *;
    [exact I|auto|destruct Hc; auto| |exact I| |exact I].
  - destruct Hc as [Ho Hc]. split; [auto|]. intros i s' Hs' Hso. destruct (handling (s_pc s')) eqn:Hh; [|by right].
    destruct (Hsubs i s' Hs' Hh ltac:(by rewrite Hso)) as (s & Hs & Hh' & Hos).
    destruct (Hc i s Hs ltac:(congruence)) as [?|?]; [by left|congruence].
  - destruct Hc as [Ho Hc]. split; [auto|]. intros i s' Hs' Hso. destruct (handling (s_pc s')) eqn:Hh; [|done].
    destruct (Hsubs i s' Hs' Hh ltac:(by rewrite Hso)) as (s & Hs & Hh' & Hos).
    pose proof (Hc i s Hs ltac:(congruence)). congruence.
Qed.

(** One subscriber changes, and nothing else but perhaps the count. *)
Lemma ok_sub y i s s' wg :
  b_ok y → b_subs y !! i = Some s →
  sub_ok (sub_stopped y s') (b_log y) s' → wg = b_wg y - at_work s + at_work s' →
  (s_registered s' = true → s_registered s = true) → (s_canceled s = true → s_canceled s' = true) →
  s_owner s' = s_owner s → (handling (s_pc s') = true → handling (s_pc s) = true ∨ s_owner s ∉ b_canceled y) →
  (wg = 0 ∨ b_wg y ≠ 0) →
  b_ok (with_wg wg (with_sub i s' y)).
Proof.
  intros [H1 H2 H3 H4 H5] Hs Hok Hwg Hreg Hcan Ho Hh Hz. split; cbn.
  - intros j t [[<- <-]|[Hne Ht]]%lookup_insert_Some; [done|by apply H1 with (i := j)].
  - intros j [t [[<- _]|[_ Ht]]%lookup_insert_Some]; apply H2; eauto.
  - rewrite (msum_insert_Some _ _ _ s) by done. lia.
  - intros Hcl j t [[<- <-]|[_ Ht]]%lookup_insert_Some; [|by eapply H4].
    intros Hr. apply Hcan. eapply H4; [done..|]. by apply Hreg.
  - intros k c Hc. apply (call_ok_mono y); [by eapply H5|done| |done|].
    + cbn. intros _ E. by destruct Hz.
    + cbn. intros j t [[<- <-]|[_ Ht]]%lookup_insert_Some Hht Hot; [|by exists t].
      exists s. split; [done|]. split; [|done]. destruct (Hh Hht) as [?|Hn]; [done|]. by rewrite Ho in Hot.
Qed.

(** A call changes. *)
Lemma ok_call y k c : b_ok y → (∀ d, c = Some d → call_ok y d) → b_ok (with_call k c y).
Proof.
  intros [H1 H2 H3 H4 H5] Hc. split; cbn; try done. intros k' d Hd.
  assert (Hd' : call_ok y d).
  { destruct (decide (k' = k)) as [->|Hne]; [rewrite lookup_partial_alter_eq in Hd; by apply Hc|].
    rewrite lookup_partial_alter_ne in Hd by done. by eapply H5. }
  apply (call_ok_mono y); try done. intros i s Hs Hh _. by exists s.
Qed.
Lemma ok_new_call y c : b_ok y → call_ok y c → b_ok (new_bcall c y).
Proof.
  intros [H1 H2 H3 H4 H5] Hc. split; cbn; try done. intros k d Hd.
  assert (Hd' : call_ok y d) by (apply lookup_insert_Some in Hd as [[_ <-]|[_ Hd]]; [done|by eapply H5]).
  apply (call_ok_mono y); try done. intros i s Hs Hh _. by exists s.
Qed.

(** ** Every step *)

Lemma wg_pos y i s : b_ok y → b_subs y !! i = Some s → at_work s = 1 → b_wg y ≠ 0.
Proof.
  intros H Hs Hw. rewrite (bo_wg y H).
  pose proof (msum_ge at_work (b_subs y) i s ltac:(intros ? t _; unfold at_work; destruct (s_pc t); lia) Hs). lia.
Qed.

Lemma with_wg_id y : with_wg (b_wg y) y = y.
Proof. by destruct y. Qed.

(** A goroutine moves without leaving. *)
Lemma ok_move y i s s' : b_ok y → b_subs y !! i = Some s → at_work s = 1 → at_work s' = 1 →
  sub_ok (sub_stopped y s') (b_log y) s' → (s_registered s' = true → s_registered s = true) → s_canceled s' = s_canceled s →
  s_owner s' = s_owner s → (handling (s_pc s') = true → handling (s_pc s) = true ∨ s_owner s ∉ b_canceled y) →
  b_ok (with_sub i s' y).
Proof.
  intros H Hs Hw Hw' Hok Hr Hc Ho Hh. rewrite <- (with_wg_id (with_sub i s' y)).
  apply (ok_sub y i s s'); try done; [cbn; lia|by rewrite Hc|right; by eapply wg_pos].
Qed.

Lemma sub_step_ok i a y y' : b_ok y → sub_step i a y = Some y' → b_ok y'.
Proof.
  intros H. unfold sub_step. destruct (b_subs y !! i) as [s|] eqn:Hs; cbn [mbind option_bind]; [|done].
  pose proof (bo_subs y H i s Hs) as [H1 H2 H3 H4 (d & Ho & Hd) H6 H7 H8].
  destruct (s_pc s) as [|e|e| | | |] eqn:Hpc, a as [| | |ok|]; try done.
  - destruct (sub_stopped y s) eqn:Hst; [|done]. intros [= <-].
    apply (ok_move y i s); try done; [by unfold at_work; rewrite Hpc|].
    change (sub_stopped y (s_at GExit s)) with (sub_stopped y s). rewrite Hst. split; cbn; try done. exists d. by split.
  - destruct (s_queue s) as [|e queue] eqn:Hq; [done|]. intros [= <-].
    apply (ok_move y i s); try done; [by unfold at_work; rewrite Hpc|].
    change (sub_stopped y (s_pop (GGot e) queue s)) with (sub_stopped y s). split; cbn; try done; [cbn in H1; lia|].
    exists [e]. rewrite Ho, (Hd eq_refl). split; [|done]. unfold in_flight. by rewrite Hpc.
  - intros [= <-]. destruct (sub_stopped y s) eqn:Hst; (apply (ok_move y i s); try done; [by unfold at_work; rewrite Hpc|..]).
    + change (sub_stopped y (s_at GExit s)) with (sub_stopped y s). rewrite Hst. split; cbn; try done. exists d. by split.
    + change (sub_stopped y (s_handle e s)) with (sub_stopped y s). rewrite Hst. split; cbn; try done.
      * exists []. rewrite Ho, (Hd eq_refl). unfold in_flight. rewrite Hpc. split; [|done]. cbn. by rewrite <- app_assoc.
    + intros _. right. unfold sub_stopped in Hst. apply orb_false_iff in Hst as [_ Hst]. by apply bool_decide_eq_false in Hst.
  - intros [= <-]. set (p := if negb ok && s_has_report s then GReport else GSelect).
    apply (ok_move y i s); try done.
    + by unfold at_work; rewrite Hpc.
    + unfold at_work, p. cbn. by destruct (negb ok && s_has_report s).
    + change (sub_stopped y (s_at p s)) with (sub_stopped y s). unfold p.
      destruct (negb ok && s_has_report s); (split; cbn; try done); exists d; (split; [done|]); rewrite (Hd eq_refl); unfold in_flight; by rewrite Hpc.
    + intros _. left. by rewrite Hpc.
  - intros [= <-]. apply (ok_move y i s); try done; [by unfold at_work; rewrite Hpc|].
    change (sub_stopped y (s_at GSelect s)) with (sub_stopped y s). split; cbn; try done. exists d. split; [done|].
    rewrite (Hd eq_refl). unfold in_flight. by rewrite Hpc.
  - intros [= <-]. apply (ok_move y i s); try done; [by unfold at_work; rewrite Hpc|].
    change (sub_stopped y (s_leave s)) with (sub_stopped y s). split; cbn; try done. exists d. by split.
  - intros [= <-]. apply (ok_sub y i s); try done.
    + change (sub_stopped y (s_at GGone (s_stop s))) with true. specialize (H6 eq_refl). rewrite H6 in H4. split; cbn; try done. exists d. by split.
    + unfold at_work. rewrite Hpc. cbn. lia.
    + right. eapply wg_pos; [done..|]. by unfold at_work; rewrite Hpc.
Qed.

Lemma take_grow (log : list Event) since n e : (since ≤ length log)%nat →
  ∃ m, take m (drop since (log ++ [e])) = take n (drop since log).
Proof.
  intros Hs. exists (n `min` length (drop since log))%nat. rewrite drop_app_le by done. rewrite take_app_le by lia.
  rewrite <- take_take. by rewrite (take_ge _ _ (Nat.le_refl _)).
Qed.

Lemma publish_sub y s data topic :
  let e := mkEvent (b_account y) topic data in
  sub_ok (sub_stopped y s) (b_log y) s → (recipient topic y s = true → full s = false) →
  sub_ok (sub_stopped y s) (b_log y ++ [e]) (if recipient topic y s then s_push e s else s).
Proof.
  intros e [H1 H2 (n & Hn) H4 (d & Ho & Hd) H6 H7 H8] Hf. destruct (recipient topic y s) eqn:Hr.
  - unfold recipient in Hr. apply andb_true_iff in Hr as [[Hreg Ht]%andb_true_iff Hst%negb_true_iff].
    apply String.eqb_eq in Ht. specialize (Hf eq_refl). unfold full in Hf. apply Nat.eqb_neq in Hf. rewrite Hst in *.
    assert (Hall : s_sent s ++ [e] = on_topic (s_topic s) (drop (s_since s) (b_log y ++ [e]))).
    { rewrite drop_app_le by done. unfold on_topic. rewrite filter_app, (H4 eq_refl), filter_cons_True, filter_nil; done. }
    split; cbn; try done.
    + rewrite length_app. cbn. lia.
    + rewrite length_app. lia.
    + exists (length (drop (s_since s) (b_log y ++ [e]))). by rewrite take_ge.
    + exists d. split; [|done]. rewrite Ho. by rewrite <- !app_assoc.
  - assert (Hskip : sub_stopped y s = false → ev_Topic e ≠ s_topic s).
    { intros Hst E. unfold recipient in Hr. rewrite Hst in Hr.
      assert (Hreg : s_registered s = true) by (rewrite H7; destruct (s_pc s); try done; by rewrite H6 in Hst).
      rewrite Hreg in Hr. cbn in E. rewrite <- E, String.eqb_refl in Hr. done. }
    split; try done.
    + rewrite length_app. lia.
    + destruct (take_grow (b_log y) (s_since s) n e H2) as (m & Hm). exists m. by rewrite Hm.
    + intros Hst. rewrite drop_app_le by done. unfold on_topic. rewrite filter_app, filter_cons_False by (intros E; by apply Hskip).
      rewrite filter_nil, app_nil_r. by apply H4.
    + by exists d.
Qed.

Lemma publish_ok canceled topic payload y y' : b_ok y → Publish canceled topic payload y = Ok y' → b_ok y'.
Proof.
  intros H. unfold Publish. destruct canceled; [done|]. destruct (String.eqb topic ""); [done|].
  destruct payload as [data|]; [|done]. destruct (b_closed y) eqn:Hcl; [done|].
  destruct (existsb _ _) eqn:Hex; [done|]. intros HP. apply (inj Ok) in HP. subst y'.
  assert (Hf : ∀ i s, b_subs y !! i = Some s → recipient topic y s = true → full s = false).
  { intros i s Hs Hr. destruct (full s) eqn:E; [|done]. rewrite <- Hex. symmetry. apply existsb_exists. exists (i, s).
    split; [by apply list_elem_of_In, elem_of_map_to_list|]. cbn. by rewrite Hr, E. }
  set (e := mkEvent (b_account y) topic data). set (f := λ s, if recipient topic y s then s_push e s else s).
  destruct H as [H1 H2 H3 H4 H5]. split; cbn.
  - intros i s. rewrite lookup_fmap. destruct (b_subs y !! i) as [t|] eqn:Ht; [|done]. intros [= <-].
    replace (sub_stopped _ (f t)) with (sub_stopped y t); [|unfold f; by destruct (recipient topic y t)].
    apply publish_sub; [by apply (H1 i)|by apply (Hf i)].
  - intros i. rewrite lookup_fmap, fmap_is_Some. apply H2.
  - rewrite H3. clear. induction (b_subs y) as [|i s m Hi IH] using map_ind; [by rewrite fmap_empty|].
    rewrite fmap_insert, !msum_insert_None by (by rewrite ?lookup_fmap, ?Hi). rewrite IH. f_equal.
    unfold f. by destruct (recipient topic y s).
  - done.
  - intros k c Hc. apply (call_ok_mono y); [by eapply H5|congruence|done|done|].
    cbn. intros i s. rewrite lookup_fmap. destruct (b_subs y !! i) as [t|] eqn:Ht; [|done]. intros [= <-] Hh _.
    exists t. split; [done|]. unfold f in *. by destruct (recipient topic y t).
Qed.

Lemma subscribe_ok owner topic capacity has_report y y' : b_ok y →
  subscribe_end owner topic capacity has_report y = Ok y' → b_ok y'.
Proof.
  intros [H1 H2 H3 H4 H5]. unfold subscribe_end. destruct (b_closed y) eqn:Hcl; [done|].
  intros HP. apply (inj Ok) in HP. subst y'.
  assert (Hn : b_subs y !! b_next y = None).
  { destruct (b_subs y !! b_next y) eqn:E; [|done]. pose proof (H2 (b_next y) ltac:(eauto)). lia. }
  split; cbn.
  - intros i s [[<- <-]|[_ Hs]]%lookup_insert_Some; [|by apply (H1 i)]. split; cbn; try done; try lia.
    + exists 0%nat. by rewrite take_0.
    + intros _. by rewrite drop_all.
    + by exists [].
  - intros i [s [[<- _]|[_ Hs]]%lookup_insert_Some]; [lia|]. specialize (H2 i ltac:(eauto)). lia.
  - rewrite msum_insert_None by done. change (at_work _) with 1. lia.
  - done.
  - intros k c Hc. pose proof (H5 k c Hc) as Hok. apply (call_ok_mono y); [done|congruence|congruence|done|].
    cbn. intros i s [[<- <-]|[_ Hs]]%lookup_insert_Some Hh _; [done|by exists s].
Qed.

Lemma close_ok y : b_ok y → b_ok (close_begin y).
Proof.
  intros H. unfold close_begin. apply ok_new_call; [|done]. destruct H as [H1 H2 H3 H4 H5].
  set (f := λ s, if s_registered s then s_stop s else s). split; cbn.
  - intros i s. rewrite lookup_fmap. destruct (b_subs y !! i) as [t|] eqn:Ht; [|done]. intros [= <-].
    specialize (H1 i t Ht). unfold f. destruct (s_registered t); [by eapply sub_ok_stopped|].
    by apply (sub_ok_stop _ _ (sub_stopped y t)).
  - intros i. rewrite lookup_fmap, fmap_is_Some. apply H2.
  - rewrite H3. clear. induction (b_subs y) as [|i s m Hi IH] using map_ind; [by rewrite fmap_empty|].
    rewrite fmap_insert, !msum_insert_None by (by rewrite ?lookup_fmap, ?Hi). rewrite IH. f_equal.
    unfold f. by destruct (s_registered s).
  - intros _ i s. rewrite lookup_fmap. destruct (b_subs y !! i) as [t|] eqn:Ht; [|done]. intros [= <-].
    unfold f. by destruct (s_registered t) eqn:E; [|rewrite E].
  - intros k c Hc. apply (call_ok_mono y); [by eapply H5|done|done|done|].
    cbn. intros i s. rewrite lookup_fmap. destruct (b_subs y !! i) as [t|] eqn:Ht; [|done]. intros [= <-] Hh _.
    exists t. split; [done|]. unfold f in *. by destruct (s_registered t).
Qed.

Lemma unsubscribe_ok i s y : b_ok y → b_subs y !! i = Some s → b_ok (with_sub i (s_stop s) y).
Proof.
  intros H Hs. rewrite <- (with_wg_id (with_sub i (s_stop s) y)). apply (ok_sub y i s (s_stop s)); try done.
  - by eapply sub_ok_stopped, (bo_subs y H i).
  - unfold at_work. cbn. lia.
  - by left.
  - destruct (Z.eq_dec (b_wg y) 0); [by left|by right].
Qed.

Lemma cancel_ok owner y : b_ok y →
  b_ok (mkBus (b_account y) (b_closed y) (b_subs y) (b_next y) (b_wg y) ({[owner]} ∪ b_canceled y) (b_calls y) (b_ncalls y) (b_log y)).
Proof.
  intros [H1 H2 H3 H4 H5]. split; cbn; try done.
  - intros i s Hs. apply (sub_ok_stop _ _ (sub_stopped y s)); [by apply (H1 i)|]. unfold sub_stopped. cbn [b_canceled].
    destruct (s_canceled s); cbn [orb]; [done|]. rewrite !bool_decide_eq_true. set_solver.
  - intros k c Hc. apply (call_ok_mono y); [by eapply H5|done|done|cbn; set_solver|].
    cbn. intros i s Hs Hh _. by exists s.
Qed.

Lemma scope_pending_spec owner y i s : b_subs y !! i = Some s → s_registered s = true → s_owner s = owner → i ∈ scope_pending owner y.
Proof.
  intros Hs Hr Ho. unfold scope_pending. apply list_elem_of_fmap. exists (i, s). split; [done|].
  apply list_elem_of_filter. split; [done|]. by apply elem_of_map_to_list.
Qed.
Lemma scope_ok owner y : b_ok y → b_ok (scope_begin owner y).
Proof.
  intros H. apply ok_new_call; [done|]. cbn. case_bool_decide as Ho; [|done]. split; [done|].
  intros i s Hs Hso. destruct (s_registered s) eqn:Hr; [left; by eapply scope_pending_spec|]. right.
  destruct (bo_subs y H i s Hs) as [_ _ _ _ _ _ H7 _]. rewrite H7 in Hr. by destruct (s_pc s).
Qed.

Lemma bus_call_step_ok k abort y y' : b_ok y → call_step k abort y = Some y' → b_ok y'.
Proof.
  intros H. unfold call_step. destruct (b_calls y !! k) as [c|] eqn:Hc; cbn [mbind option_bind]; [|done].
  pose proof (bo_calls y H k c Hc) as Hok.
  destruct c as [owner topic capacity r| | |owner canceled [|i pending]|owner canceled]; [| |done| | |done].
  - destruct (subscribe_end owner topic capacity r y) as [y1|e] eqn:E; intros [= <-]; apply ok_call; try done.
    by eapply subscribe_ok.
  - destruct abort; [intros [= <-]; by apply ok_call|]. destruct (Z.eqb_spec (b_wg y) 0) as [E|]; [|done].
    intros [= <-]. apply ok_call; [done|]. by intros d [= <-].
  - destruct abort; [done|]. intros [= <-]. apply ok_call; [done|]. intros d [= <-]. destruct canceled; [|done].
    destruct Hok as [Ho Hs]. split; [done|]. intros i s Hi Hso. destruct (Hs i s Hi Hso) as [Hin|?]; [|done]. by apply elem_of_nil in Hin.
  - destruct abort; [intros [= <-]; by apply ok_call|]. destruct (b_subs y !! i) as [s|] eqn:Hs; [|done].
    destruct (s_done s) eqn:Hd; [|done]. intros [= <-]. apply ok_call; [done|]. intros d [= <-]. destruct canceled; [|done].
    destruct Hok as [Ho Hp]. split; [done|]. intros j t Ht Hso. destruct (Hp j t Ht Hso) as [[->|Hin]%elem_of_cons|?]; [right|by left|by right].
    assert (t = s) as -> by congruence. destruct (bo_subs y H i s Hs) as [_ _ _ _ _ _ H7 H8].
    rewrite Hd in H8. symmetry in H8. apply negb_true_iff in H8. rewrite H7 in H8. by destruct (s_pc s).
Qed.

Lemma bus_step_ok l y y' : b_ok y → b_step l y = Some y' → b_ok y'.
Proof.
  intros H. destruct l as [e canceled topic payload|e topic capacity h|k abort|i a|i|owner| |owner]; cbn [b_step].
  - intros [= <-]. unfold EventsPublish. destruct (negb _); [done|]. case_bool_decide; [done|].
    destruct (Publish canceled topic payload y) as [y1|] eqn:E; [by eapply publish_ok|done].
  - intros [= <-]. unfold EventsSubscribe, subscribe_begin. destruct (negb _); [done|]. destruct (_ || _ || _); [done|].
    case_bool_decide; [done|]. by apply ok_new_call.
  - by apply bus_call_step_ok.
  - by apply sub_step_ok.
  - destruct (b_subs y !! i) as [s|] eqn:Hs; cbn [mbind option_bind]; [|done]. intros [= <-]. by apply unsubscribe_ok.
  - intros [= <-]. by apply cancel_ok.
  - intros [= <-]. by apply close_ok.
  - intros [= <-]. by apply scope_ok.
Qed.

Lemma bus_init_ok account : b_ok (b_init account).
Proof.
  split; cbn.
  - intros i s Hs. by rewrite lookup_empty in Hs.
  - intros i [s Hs]. by rewrite lookup_empty in Hs.
  - done.
  - done.
  - intros k c Hc. by rewrite lookup_empty in Hc.
Qed.

Lemma bus_run_ok l y y' : b_ok y → b_run l y = Some y' → b_ok y'.
Proof.
  apply steps_inv. intros e y1 y2. apply bus_step_ok.
Qed.

(** ** After [Close] and [WaitScope] *)

(** The subscribers of [y'] that matter are those of [y], none of them handling
    anything, and none of them has handled more. *)
Definition still (P : subscriber → Prop) (y y' : bus) : Prop :=
  ∀ i s', b_subs y' !! i = Some s' → P s' → handling (s_pc s') = false ∧
    ∀ s, b_subs y !! i = Some s → P s ∧ s_handled s' = s_handled s.
Definition quiet (P : subscriber → Prop) (y : bus) : Prop :=
  ∀ i s, b_subs y !! i = Some s → P s → handling (s_pc s) = false.

(** One subscriber moves, its owner unchanged. *)
Lemma still_sub P y i s s' wg : quiet P y → b_subs y !! i = Some s → (P s' → P s) →
  (P s' → handling (s_pc s') = false ∧ s_handled s' = s_handled s) → still P y (with_wg wg (with_sub i s' y)).
Proof.
  intros Hq Hs Hp Hh j t. cbn. intros [[<- <-]|[_ Ht]]%lookup_insert_Some Hpt.
  - split; [by apply Hh|]. intros s0 Hs0. assert (s0 = s) as -> by congruence. split; [auto|by apply Hh].
  - split; [by eapply Hq|]. intros s0 Hs0. assert (s0 = t) as -> by congruence. done.
Qed.
Lemma still_same P y y' : quiet P y → b_subs y' = b_subs y → still P y y'.
Proof. intros Hq E j t. rewrite E. intros Ht Hpt. split; [by eapply Hq|]. intros s Hs. assert (s = t) as -> by congruence. done. Qed.
Lemma still_fmap P y y' (f : subscriber → subscriber) : quiet P y → b_subs y' = f <$> b_subs y →
  (∀ s, s_pc (f s) = s_pc s ∧ s_handled (f s) = s_handled s ∧ (P (f s) → P s)) → still P y y'.
Proof.
  intros Hq E Hf j t. rewrite E, lookup_fmap. destruct (b_subs y !! j) as [s|] eqn:Hs; [|done]. intros [= <-] Hp.
  destruct (Hf s) as (-> & -> & Hps). split; [by eapply Hq; [|apply Hps]|]. intros s0 [= <-]. auto.
Qed.

(** What a step may do to the subscribers, whatever it is. *)
Inductive effect (y y' : bus) : Prop :=
  | eff_same : b_subs y' = b_subs y → effect y y'
  | eff_map (f : subscriber → subscriber) : b_subs y' = f <$> b_subs y →
      (∀ s, s_pc (f s) = s_pc s ∧ s_handled (f s) = s_handled s ∧ s_owner (f s) = s_owner s) → effect y y'
  | eff_new s : b_closed y = false → b_subs y' = <[b_next y := s]> (b_subs y) → s_pc s = GSelect → effect y y'
  | eff_sub i s s' : b_subs y !! i = Some s → b_subs y' = <[i := s']> (b_subs y) → s_owner s' = s_owner s →
      (s_pc s = GGone → s_pc s' = GGone) →
      sub_stopped y s = false ∨ (s_handled s' = s_handled s ∧ (handling (s_pc s') = true → handling (s_pc s) = true)) → effect y y'.

Lemma publish_effect e canceled topic payload y :
  let y' := ok_or y (EventsPublish e canceled topic payload y) in
  effect y y' ∧ b_closed y' = b_closed y ∧ b_canceled y' = b_canceled y.
Proof.
  assert (Hs : effect y y) by by apply eff_same.
  unfold EventsPublish, Publish. destruct (negb _); [done|]. case_bool_decide; [done|]. destruct canceled; [done|].
  destruct (String.eqb topic ""); [done|]. destruct payload as [data|]; [|done]. destruct (b_closed y) eqn:Hc; [done|].
  destruct (existsb _ _); [done|]. split; [|done]. eapply eff_map; [done|]. intros s. cbn beta. by destruct (recipient topic y s).
Qed.
Lemma call_effect k abort y y' : call_step k abort y = Some y' →
  effect y y' ∧ b_closed y' = b_closed y ∧ b_canceled y' = b_canceled y.
Proof.
  unfold call_step. destruct (b_calls y !! k) as [c|]; cbn [mbind option_bind]; [|done].
  destruct c as [o topic capacity r| | |o canceled [|n pending]|o canceled]; [| |done| | |done].
  - unfold subscribe_end. destruct (b_closed y) eqn:Hc; intros [= <-]; [split; [by apply eff_same|done]|].
    split; [by eapply eff_new|done].
  - destruct abort; [|destruct (b_wg y =? 0); [|done]]; intros [= <-]; (split; [by apply eff_same|done]).
  - destruct abort; [done|]. intros [= <-]. split; [by apply eff_same|done].
  - destruct abort; [|destruct (b_subs y !! n) as [s|]; [|done]; destruct (s_done s); [|done]]; intros [= <-];
      (split; [by apply eff_same|done]).
Qed.
Lemma sub_effect i a y y' : sub_step i a y = Some y' →
  effect y y' ∧ b_closed y' = b_closed y ∧ b_canceled y' = b_canceled y.
Proof.
  unfold sub_step. destruct (b_subs y !! i) as [s|] eqn:Hs; cbn [mbind option_bind]; [|done].
  destruct (s_pc s) as [|e|e| | | |] eqn:Hpc, a as [| | |ok|]; try done.
  - destruct (sub_stopped y s); [|done]. intros [= <-]. split; [eapply (eff_sub y _ i s); try done; [by rewrite Hpc|by right]|done].
  - destruct (s_queue s); [done|]. intros [= <-]. split; [eapply (eff_sub y _ i s); try done; [by rewrite Hpc|by right]|done].
  - destruct (sub_stopped y s) eqn:Hst; intros [= <-]; (split; [eapply (eff_sub y _ i s); try done; [by rewrite Hpc|]|done]); [by right|by left].
  - intros [= <-]. split; [eapply (eff_sub y _ i s); try done; [by rewrite Hpc|right; by rewrite Hpc]|done].
  - intros [= <-]. split; [eapply (eff_sub y _ i s); try done; [by rewrite Hpc|right; by rewrite Hpc]|done].
  - intros [= <-]. split; [eapply (eff_sub y _ i s); try done; [by rewrite Hpc|by right]|done].
  - intros [= <-]. split; [eapply (eff_sub y _ i s); try done; by right|done].
Qed.
Lemma step_effect l y y' : b_step l y = Some y' →
  effect y y' ∧ (b_closed y = true → b_closed y' = true) ∧ b_canceled y ⊆ b_canceled y'.
Proof.
  destruct l as [e canceled topic payload|e topic capacity h|k abort|i a|i|o| |o]; cbn [b_step].
  - intros [= <-]. destruct (publish_effect e canceled topic payload y) as (? & -> & ->). done.
  - intros [= <-]. unfold EventsSubscribe, subscribe_begin. destruct (negb _); [split; [by apply eff_same|done]|].
    destruct (_ || _ || _); [split; [by apply eff_same|done]|]. case_bool_decide; (split; [by apply eff_same|done]).
  - intros (? & -> & ->)%call_effect. done.
  - intros (? & -> & ->)%sub_effect. done.
  - destruct (b_subs y !! i) as [s|] eqn:Hs; cbn [mbind option_bind]; [|done]. intros [= <-].
    split; [eapply (eff_sub y _ i s); try done; by right|done].
  - intros [= <-]. split; [by apply eff_same|]. split; [done|]. cbn. set_solver.
  - intros [= <-]. split; [|done]. eapply eff_map; [done|]. intros s. cbn beta. by destruct (s_registered s).
  - intros [= <-]. split; [by apply eff_same|done].
Qed.

(** The subscribers of a canceled lifecycle never start their handler. *)
Definition owned (owner : nat) (s : subscriber) : Prop := s_owner s = owner.
Lemma owned_step owner l y y' : b_ok y → owner ∈ b_canceled y → quiet (owned owner) y → b_step l y = Some y' →
  still (owned owner) y y'.
Proof.
  intros H Hc Hq [He _]%step_effect. destruct He as [E|f E Hf|s Hcl E Hs|i s s' Hs E Ho Hg Hh].
  - by apply still_same.
  - eapply still_fmap; [done|exact E|]. intros s. destruct (Hf s) as (? & ? & Hs). unfold owned. by rewrite Hs.
  - intros j t. rewrite E. intros [[<- <-]|[Hne Ht]]%lookup_insert_Some Hot.
    + split; [by rewrite Hs|]. intros s0 Hs0. pose proof (bo_next y H (b_next y) ltac:(eauto)). lia.
    + split; [by eapply Hq|]. intros s0 Hs0. assert (s0 = t) as -> by congruence. done.
  - intros j t. rewrite E. intros [[<- <-]|[Hne Ht]]%lookup_insert_Some Hot.
    + unfold owned in Hot. rewrite Ho in Hot. destruct Hh as [Hst|[Hh1 Hh2]].
      { unfold sub_stopped in Hst. by rewrite Hot, bool_decide_eq_true_2, orb_true_r in Hst. }
      pose proof (Hq i s Hs Hot) as Hqs. split; [destruct (handling (s_pc s')); [by rewrite Hh2 in Hqs|done]|].
      intros s0 Hs0. assert (s0 = s) as -> by congruence. done.
    + split; [by eapply Hq|]. intros s0 Hs0. assert (s0 = t) as -> by congruence. done.
Qed.

(** Nothing happens any more once the bus is closed and every goroutine gone. *)
Definition gone (y : bus) : Prop := b_closed y = true ∧ ∀ i s, b_subs y !! i = Some s → s_pc s = GGone.
Definition handled_same (y y' : bus) : Prop :=
  ∀ i s', b_subs y' !! i = Some s' → ∃ s, b_subs y !! i = Some s ∧ s_handled s' = s_handled s.
Lemma gone_step l y y' : b_ok y → gone y → b_step l y = Some y' → gone y' ∧ handled_same y y'.
Proof.
  intros H [Hc Hg] Hl. destruct (step_effect _ _ _ Hl) as (He & Hcl & _). specialize (Hcl Hc).
  destruct He as [E|f E Hf|s Hnc E Hs|i s s' Hs E Ho Hgs Hh]; [| |congruence|]; unfold gone, handled_same; rewrite E.
  - split; [done|]. eauto.
  - split; [split; [done|]|]; intros j t; rewrite lookup_fmap; destruct (b_subs y !! j) as [t0|] eqn:Ht; try done; intros [= <-];
      destruct (Hf t0) as (Ep & Eh & _); [rewrite Ep; by apply (Hg j)|by exists t0].
  - split; [split; [done|]|]; intros j t [[<- <-]|[_ Ht]]%lookup_insert_Some; [by apply Hgs, (Hg i)|by apply (Hg j)| |by exists t].
    exists s. split; [done|]. destruct Hh as [Hst|[? _]]; [|done]. exfalso.
    destruct (bo_subs y H i s Hs) as [_ _ _ _ _ H6 _ _]. rewrite (Hg i s Hs), Hst in H6. by specialize (H6 eq_refl).
Qed.

Lemma subs_kept l y y' i : b_step l y = Some y' → is_Some (b_subs y !! i) → is_Some (b_subs y' !! i).
Proof.
  intros [He _]%step_effect Hi. destruct He as [->|f -> Hf|s Hcl -> Hs|j s s' Hs -> Ho Hg Hh]; [done|by rewrite lookup_fmap, fmap_is_Some|..];
    apply lookup_insert_is_Some'; by right.
Qed.
Lemma still_quiet P y y' : still P y y' → quiet P y'.
Proof. intros H i s Hs Hp. by apply (H i s). Qed.
Lemma still_trans P y1 y2 y3 : still P y1 y2 → still P y2 y3 →
  (∀ i, is_Some (b_subs y1 !! i) → is_Some (b_subs y2 !! i)) → still P y1 y3.
Proof.
  intros H12 H23 Hk i s3 Hs3 Hp. destruct (H23 i s3 Hs3 Hp) as [Hh H3]. split; [done|]. intros s1 Hs1.
  destruct (Hk i ltac:(eauto)) as [s2 Hs2]. destruct (H3 s2 Hs2) as [Hp2 E2]. destruct (H12 i s2 Hs2 Hp2) as [_ H2].
  destruct (H2 s1 Hs1) as [Hp1 E1]. split; [done|]. by rewrite E2, E1.
Qed.

(** The lifecycle stays canceled and its handlers stay quiet. *)
Lemma owned_run owner l y y' : b_ok y → owner ∈ b_canceled y → quiet (owned owner) y → b_run l y = Some y' →
  still (owned owner) y y'.
Proof.
  intros H Ho Hq Hr.
  apply (steps_rel b_step (λ y, b_ok y ∧ owner ∈ b_canceled y ∧ quiet (owned owner) y)
    (λ y0 y1, (quiet (owned owner) y0 → still (owned owner) y0 y1) ∧ ∀ i, is_Some (b_subs y0 !! i) → is_Some (b_subs y1 !! i))
    l y y') in Hr as [Hs _]; [by apply Hs| | | |done].
  - intros e y1 y2 (H1 & Ho1 & Hq1) He. split; [by eapply bus_step_ok|]. split; [|by eapply still_quiet, owned_step].
    by apply (step_effect e y1 y2).
  - intros y1. split; [intros Hq1; by apply still_same|done].
  - intros e y0 y1 y2 (H1 & Ho1 & Hq1) [Hs Hk] He. split.
    + intros Hq0. apply (still_trans _ y0 y1 y2); [by apply Hs|by apply (owned_step owner e)|done].
    + intros i Hi. eapply subs_kept; [done|]. by apply Hk.
Qed.
Lemma gone_run l y y' : b_ok y → gone y → b_run l y = Some y' → gone y' ∧ handled_same y y'.
Proof.
  intros H Hg Hr. assert (Hi : ∀ e y1 y2, b_ok y1 ∧ gone y1 → b_step e y1 = Some y2 → b_ok y2 ∧ gone y2).
  { intros e y1 y2 [H1 G1] He. split; [by eapply bus_step_ok|by apply (gone_step e y1 y2)]. }
  split; [by apply (steps_inv _ _ _ _ _ Hi (conj H Hg) Hr)|].
  revert Hr. apply (steps_rel b_step (λ y, b_ok y ∧ gone y) handled_same); [done| | |done].
  - intros y1 i s Hs. by exists s.
  - intros e y0 y1 y2 [H1 G1] H01 He i s' Hs'. destruct (gone_step e y1 y2 H1 G1 He) as [_ H12].
    destruct (H12 i s' Hs') as (s1 & Hs1 & ->). by apply H01.
Qed.

(** ** The properties *)

(** C22: Every subscriber receives exactly the events published on its topic
    since its registration, in the order of publication, as long as its context
    lasts; its handler is called with them one after the other, none skipped,
    repeated or reordered; and its queue never exceeds its capacity. *)
Theorem bus_delivery l account y i s :
  b_run l (b_init account) = Some y → b_subs y !! i = Some s →
  (length (s_queue s) ≤ s_cap s)%nat ∧
  (∃ n, s_sent s = on_topic (s_topic s) (take n (drop (s_since s) (b_log y)))) ∧
  (sub_stopped y s = false → s_sent s = on_topic (s_topic s) (drop (s_since s) (b_log y))) ∧
  ∃ d, s_sent s = s_handled s ++ d ++ s_queue s ∧ (leaving (s_pc s) = false → d = in_flight s).
Proof.
  intros H%bus_run_ok Hs; [|apply bus_init_ok]. destruct (bo_subs y H i s Hs) as [? ? ? ? ? ? ? ?]. done.
Qed.

(** A [Close] that returned leaves nothing running and nothing will run
    again: every goroutine is gone, no later call registers a subscriber, and
    no handler is called any more.  A [WaitScope] for a lifecycle canceled
    before it was called leaves no handler of that lifecycle running, also not
    of a subscriber registered while it waited, and none will start. *)
Theorem bus_quiescent l account y k l' y' :
  b_run l (b_init account) = Some y → b_run l' y = Some y' →
  (b_calls y !! k = Some CClosed → gone y' ∧ handled_same y y') ∧
  (∀ owner, b_calls y !! k = Some (CScoped owner true) → still (owned owner) y y').
Proof.
  intros H%bus_run_ok; [|apply bus_init_ok]. intros Hr. split.
  - intros Hk. destruct (bo_calls y H k _ Hk) as [Hc Hw].
    assert (Hg : gone y).
    { split; [done|]. intros i s Hs. destruct (s_pc s) eqn:E; try done; exfalso;
        (apply (wg_pos y i s); [done|done|unfold at_work; by rewrite E|done]). }
    by apply (gone_run l').
  - intros owner Hk. destruct (bo_calls y H k _ Hk) as [Ho Hq]. by apply (owned_run owner l').
Qed.

(** Two components on one topic; the second is stopped while its handler runs. *)
Definition demo_events (ctx : nat) : Events := mkEvents ctx ["t"] ["t"].
Definition demo_bus_events : list label :=
  [LSubscribe (demo_events 1) "t" 2 true; LSubscribe (demo_events 2) "t" 1 true; LCall 0 false; LCall 1 false;
   LPublish (demo_events 1) false "t" (Some "a"); LPublish (demo_events 1) false "t" (Some "full");
   LGo 1 GaReceive; LPublish (demo_events 1) false "t" (Some "b"); LGo 1 GaCheck; LGo 0 GaReceive; LCancel 2; LScope 2;
   LGo 1 (GaReturn false); LGo 1 GaNext; LGo 1 GaStop; LGo 1 GaNext; LCall 2 false; LCall 2 false].
Definition demo_bus : bus := default (b_init "") (b_run demo_bus_events (b_init "acct")).
Lemma demo_bus_run : b_run demo_bus_events (b_init "acct") = Some demo_bus.
Proof. vm_compute. reflexivity. Qed.
Definition demo_sub (i : nat) : subscriber := default (mkSub "" 0 0 false [] false false false GGone [] [] 0) (b_subs demo_bus !! i).

Lemma bus_delivery_witness :
  ev_Payload <$> s_sent (demo_sub 0) = ["a"; "b"] ∧ ev_Payload <$> s_handled (demo_sub 1) = ["a"] ∧
  (sub_stopped demo_bus (demo_sub 0) = false →
   s_sent (demo_sub 0) = on_topic (s_topic (demo_sub 0)) (drop (s_since (demo_sub 0)) (b_log demo_bus))).
Proof.
  split; [vm_compute; reflexivity|]. split; [vm_compute; reflexivity|].
  assert (Hs : b_subs demo_bus !! 0%nat = Some (demo_sub 0)) by (vm_compute; reflexivity).
  exact (proj1 (proj2 (proj2 (bus_delivery demo_bus_events "acct" demo_bus 0 (demo_sub 0) demo_bus_run Hs)))).
Defined.
Lemma bus_quiescent_witness :
  b_calls demo_bus !! 2%nat = Some (CScoped 2 true) ∧ still (owned 2) demo_bus demo_bus.
Proof.
  assert (E : b_calls demo_bus !! 2%nat = Some (CScoped 2 true)) by (vm_compute; reflexivity).
  split; [exact E|].
  exact (proj2 (bus_quiescent demo_bus_events "acct" demo_bus 2 [] demo_bus demo_bus_run eq_refl) 2%nat E).
Defined.
