(* ===== verification/Schedule.v ===== *)
(** * Scheduled runnables (rte/schedule/group.go)

    A group of named runnables, each driven by one goroutine and one timer:
    one-shot, periodic, or with a period that changes.  Locked sections, the
    timer, the calls of the runnable and of the reporters are steps; the clock
    and what the calls answer come with the step.  A recovered panic is an
    error. *)

From S2P Require Import Prelude Lts Strings Storage.
Local Open Scope list_scope.

Record Status := mkStatus {
  st_Name : string; st_Running : bool; st_StartedAt : Z; st_FinishedAt : Z; st_Runs : Z; st_LastError : string;
  st_Period : Z; st_Overdue : bool;
}.

(** Where a goroutine stands. *)
Inductive rpc :=
  | RSelect              (* the select *)
  | RFired               (* the timer fired, before the check of the context *)
  | RStart               (* before the status is set to running *)
  | RCall                (* in the runnable *)
  | RStop (e : string)   (* it returned, "" for no error; before the status is set *)
  | RReport              (* observers are being told *)
  | RNext                (* before the next period *)
  | RGone.

(** [rn_timer] is the deadline of an armed timer.  [rn_due] remembers the
    deadline the last firing had, [rn_log] the calls: deadline, start, and
    finish, newest first. *)
Record invocation := mkInvocation { iv_due : Z; iv_start : Z; iv_finish : option Z }.
Record runnable := mkRunnable {
  rn_name : string; rn_dynamic : bool; rn_period : Z; rn_timer : option Z; rn_pc : rpc;
  rn_due : Z; rn_log : list invocation;
}.

(** A [Stop] between its two parts, or one that returned without error. *)
Inductive gcall := GStopping | GStopped.

Record group := mkGroup {
  g_canceled : bool;
  g_closed : bool;
  g_states : gmap string Status;           (* names and statuses *)
  g_wg : Z;
  g_runnables : gmap nat runnable;
  g_next : nat;
  g_now : Z;
  g_calls : gmap nat gcall;
  g_ncalls : nat;
}.
Definition with_runnable (i : nat) (r : runnable) (y : group) : group :=
  mkGroup (g_canceled y) (g_closed y) (g_states y) (g_wg y) (<[i := r]> (g_runnables y)) (g_next y) (g_now y) (g_calls y) (g_ncalls y).
Definition with_state (name : string) (s : Status) (y : group) : group :=
  mkGroup (g_canceled y) (g_closed y) (<[name := s]> (g_states y)) (g_wg y) (g_runnables y) (g_next y) (g_now y) (g_calls y) (g_ncalls y).
Definition at_time (now : Z) (y : group) : group :=
  mkGroup (g_canceled y) (g_closed y) (g_states y) (g_wg y) (g_runnables y) (g_next y) now (g_calls y) (g_ncalls y).
Definition with_gcall (k : nat) (c : option gcall) (y : group) : group :=
  mkGroup (g_canceled y) (g_closed y) (g_states y) (g_wg y) (g_runnables y) (g_next y) (g_now y)
    (partial_alter (λ _, c) k (g_calls y)) (g_ncalls y).

Definition no_status : Status := mkStatus "" false 0 0 0 "" 0 false.
Definition state_of (name : string) (y : group) : Status := default no_status (g_states y !! name).

(** [run]: registration and the start of the goroutine; [Run] is this with a
    fixed period, [RunDynamic] with the period the callback gives. *)
Definition run (name : string) (delay period : Z) (dynamic has_fn : bool) (y : group) : res err group :=
  if String.eqb name "" || (delay <? 0) || (period <? 0) || negb has_fn then Err (ErrMsg "invalid runnable")
  else if g_closed y || g_canceled y then Err (ErrMsg "runnable group is stopped")
  else match g_states y !! name with
       | Some _ => Err (ErrMsg "duplicate runnable")
       | None =>
           Ok (mkGroup (g_canceled y) (g_closed y) (<[name := mkStatus name false 0 0 0 "" period false]> (g_states y)) (g_wg y + 1)
                 (<[g_next y := mkRunnable name dynamic period (Some (g_now y + delay)) RSelect 0 []]> (g_runnables y))
                 (S (g_next y)) (g_now y) (g_calls y) (g_ncalls y))
       end.
Definition Run (name : string) (delay period : Z) (has_fn : bool) (y : group) : res err group :=
  run name delay period false has_fn y.
Definition RunDynamic (name : string) (delay : Z) (current : option Z) (has_fn : bool) (y : group) : res err group :=
  match current with
  | Some period => if period <=? 0 then Err (ErrMsg "invalid dynamic runnable period") else run name delay period true has_fn y
  | None => Err (ErrMsg "invalid dynamic runnable period")
  end.

(** [Statuses], one of them. *)
Definition observed (now : Z) (s : Status) : Status :=
  mkStatus (st_Name s) (st_Running s) (st_StartedAt s) (st_FinishedAt s) (st_Runs s) (st_LastError s) (st_Period s)
    (st_Running s && (0 <? st_Period s) && (st_Period s <? time_sub now (st_StartedAt s))).
Definition Statuses (y : group) : list Status := (λ p : string * Status, observed (g_now y) p.2) <$> map_to_list (g_states y).

Definition rn_set (period : Z) (timer : option Z) (pc : rpc) (due : Z) (log : list invocation) (r : runnable) : runnable :=
  mkRunnable (rn_name r) (rn_dynamic r) period timer pc due log.
Definition rn_at (pc : rpc) (r : runnable) : runnable := rn_set (rn_period r) (rn_timer r) pc (rn_due r) (rn_log r) r.
Definition finish_last (now : Z) (log : list invocation) : list invocation :=
  match log with i :: log => mkInvocation (iv_due i) (iv_start i) (Some now) :: log | [] => [] end.

(** One step of a goroutine. *)
Inductive ranswer :=
  | RaStop                       (* the context's branch, or its check, says it ended *)
  | RaChanged (period : Z)       (* a notification of a dynamic period *)
  | RaTimer
  | RaGo
  | RaReturn (e : string)
  | RaPeriod (period : Z).       (* what [currentPeriod] answers, if there is one *)
Definition runnable_step (i : nat) (a : ranswer) (y : group) : option group :=
  r ← g_runnables y !! i;
  let gone y := mkGroup (g_canceled y) (g_closed y) (g_states y) (g_wg y - 1) (<[i := rn_at RGone r]> (g_runnables y)) (g_next y)
                  (g_now y) (g_calls y) (g_ncalls y) in
  match rn_pc r, a with
  | RSelect, RaStop => if g_canceled y then Some (gone y) else None
  | RSelect, RaChanged period =>
      if rn_dynamic r then Some (with_runnable i (rn_set period (Some (g_now y + period)) RSelect (rn_due r) (rn_log r) r) y) else None
  | RSelect, RaTimer =>
      match rn_timer r with
      | Some due => if due <=? g_now y then Some (with_runnable i (rn_set (rn_period r) None RFired due (rn_log r) r) y) else None
      | None => None
      end
  | RFired, RaGo => Some (if g_canceled y then gone y else with_runnable i (rn_at RStart r) y)
  | RStart, RaGo =>
      let s := state_of (rn_name r) y in
      Some (with_runnable i (rn_set (rn_period r) (rn_timer r) RCall (rn_due r) (mkInvocation (rn_due r) (g_now y) None :: rn_log r) r)
              (with_state (rn_name r) (mkStatus (st_Name s) true (g_now y) (st_FinishedAt s) (st_Runs s) (st_LastError s) (rn_period r) (st_Overdue s)) y))
  | RCall, RaReturn e => Some (with_runnable i (rn_at (RStop e) r) y)
  | RStop e, RaGo =>
      let s := state_of (rn_name r) y in
      Some (with_runnable i (rn_set (rn_period r) (rn_timer r) (if String.eqb e "" then RNext else RReport) (rn_due r) (finish_last (g_now y) (rn_log r)) r)
              (with_state (rn_name r) (mkStatus (st_Name s) false (st_StartedAt s) (g_now y) (st_Runs s + 1) e (st_Period s) (st_Overdue s)) y))
  | RReport, RaGo => Some (with_runnable i (rn_at RNext r) y)
  | RNext, RaPeriod current =>
      let period := if rn_dynamic r then current else rn_period r in
      Some (if period =? 0 then gone y
            else with_runnable i (rn_set period (Some (g_now y + period)) RSelect (rn_due r) (rn_log r) r) y)
  | _, _ => None
  end.

(** [Stop]: the locked section, then the wait. *)
Definition stop_begin (y : group) : group :=
  mkGroup true true (g_states y) (g_wg y) (g_runnables y) (g_next y) (g_now y) (<[g_ncalls y := GStopping]> (g_calls y)) (S (g_ncalls y)).
Definition stop_step (k : nat) (abort : bool) (y : group) : option group :=
  c ← g_calls y !! k;
  match c with
  | GStopping => if abort then Some (with_gcall k None y) else if g_wg y =? 0 then Some (with_gcall k (Some GStopped) y) else None
  | GStopped => None
  end.

Inductive label :=
  | LRun (name : string) (delay period : Z) (has_fn : bool)
  | LRunDynamic (name : string) (delay : Z) (current : option Z) (has_fn : bool)
  | LRunnable (i : nat) (a : ranswer)
  | LTick (now : Z)
  | LCancel                            (* the context the group was made with ends *)
  | LStop
  | LStopWait (k : nat) (abort : bool).
Definition g_step (l : label) (y : group) : option group :=
  match l with
  | LRun name delay period has_fn => Some (ok_or y (Run name delay period has_fn y))
  | LRunDynamic name delay current has_fn => Some (ok_or y (RunDynamic name delay current has_fn y))
  | LRunnable i a => runnable_step i a y
  | LTick now => if now <? g_now y then None else Some (at_time now y)
  | LCancel => Some (mkGroup true (g_closed y) (g_states y) (g_wg y) (g_runnables y) (g_next y) (g_now y) (g_calls y) (g_ncalls y))
  | LStop => Some (stop_begin y)
  | LStopWait k abort => stop_step k abort y
  end.
Definition g_run (l : list label) (y : group) : option group := steps g_step l y.
(** [NewObserved] *)
Definition g_init (now : Z) : group := mkGroup false false ∅ 0 ∅ 0 now ∅ 0.
