(* ===== verification/ScheduleProps.v ===== *)
(** * Properties of scheduled runnables *)

From S2P Require Import Prelude Lts Strings Storage Schedule.
Local Open Scope list_scope.

(** ** Invariants *)

Definition in_call (p : rpc) : bool := match p with RCall | RStop _ => true | _ => false end.
Definition fired (p : rpc) : bool := match p with RFired | RStart => true | _ => false end.
Definition waiting (p : rpc) : bool := match p with RSelect | RGone => true | _ => false end.
Definition finished (a : invocation) : bool := match iv_finish a with Some _ => true | None => false end.
Definition count_finished (log : list invocation) : Z := Z.of_nat (length (filter (λ a, finished a = true) log)).

(** The call [a] came after [b]: not before it had finished, and a fixed period
    later if there is one. *)
Definition follows (r : runnable) (a b : invocation) : Prop :=
  ∃ f, iv_finish b = Some f ∧ f ≤ iv_start a ∧ (rn_dynamic r = false → f + rn_period r ≤ iv_due a).
Definition timely (now : Z) (a : invocation) : Prop :=
  iv_due a ≤ iv_start a ≤ now ∧ ∀ f, iv_finish a = Some f → iv_start a ≤ f ≤ now.
(** The next call is not due before [d]. *)
Definition not_before (r : runnable) (d : Z) : Prop :=
  match rn_log r with a :: _ => ∀ f, iv_finish a = Some f → f + rn_period r ≤ d | [] => True end.

Record rn_ok (now : Z) (r : runnable) : Prop := {
  ro_log : ∀ l1 a b l2, rn_log r = l1 ++ a :: b :: l2 → follows r a b;
  ro_each : Forall (timely now) (rn_log r);
  ro_last : match rn_log r with a :: _ => finished a = negb (in_call (rn_pc r)) | [] => in_call (rn_pc r) = false end;
  ro_timer : rn_dynamic r = false → ∀ d, rn_timer r = Some d → not_before r d;
  ro_fired : fired (rn_pc r) = true → rn_due r ≤ now ∧ (rn_dynamic r = false → not_before r (rn_due r));
  ro_period : rn_dynamic r = false → 0 ≤ rn_period r;
  ro_once : rn_dynamic r = false → rn_period r = 0 →
    (length (rn_log r) ≤ 1)%nat ∧ (rn_log r ≠ [] → rn_timer r = None ∧ fired (rn_pc r) = false);
  ro_armed : waiting (rn_pc r) = false → rn_timer r = None;
}.

Definition status_ok (y : group) (r : runnable) : Prop :=
  ∃ s, g_states y !! rn_name r = Some s ∧ st_Running s = in_call (rn_pc r) ∧ st_Runs s = count_finished (rn_log r).

Definition at_work (r : runnable) : Z := match rn_pc r with RGone => 0 | _ => 1 end.
Record g_ok (y : group) : Prop := {
  gk_rn : ∀ i r, g_runnables y !! i = Some r → rn_ok (g_now y) r ∧ status_ok y r;
  gk_names : ∀ i j r r', g_runnables y !! i = Some r → g_runnables y !! j = Some r' → rn_name r = rn_name r' → i = j;
  gk_next : ∀ i, is_Some (g_runnables y !! i) → (i < g_next y)%nat;
  gk_wg : g_wg y = msum at_work (g_runnables y);
  gk_stop : ∀ k c, g_calls y !! k = Some c → g_closed y = true ∧ (c = GStopped → g_wg y = 0);
}.

Lemma rn_ok_later now now' r : now ≤ now' → rn_ok now r → rn_ok now' r.
Proof.
  intros Hn [H1 H2 H3 H4 H5 H6 H7 H8]. split; try done.
  - eapply Forall_impl; [done|]. intros a [Ha Hf]. split; [lia|]. intros f E. specialize (Hf f E). lia.
  - intros Hf. destruct (H5 Hf) as [? ?]. split; [lia|done].
Qed.

(** What one step of a goroutine must keep. *)
Lemma g_ok_step y i r r' states' wg' :
  g_ok y → g_runnables y !! i = Some r → rn_name r' = rn_name r → rn_ok (g_now y) r' →
  (∀ n, n ≠ rn_name r → states' !! n = g_states y !! n) →
  (∃ s, states' !! rn_name r = Some s ∧ st_Running s = in_call (rn_pc r') ∧ st_Runs s = count_finished (rn_log r')) →
  wg' = g_wg y - at_work r + at_work r' → (wg' = 0 ∨ g_wg y ≠ 0) →
  g_ok (mkGroup (g_canceled y) (g_closed y) states' wg' (<[i := r']> (g_runnables y)) (g_next y) (g_now y) (g_calls y) (g_ncalls y)).
Proof.
  intros [H1 H2 H3 H4 H5] Hr Hn Hok Hst Hs Hw Hz. split; cbn.
  - intros j q [[<- <-]|[Hne Hq]]%lookup_insert_Some; [split; [done|]; unfold status_ok; cbn; by rewrite Hn|].
    destruct (H1 j q Hq) as [Hq1 (s & Hs1 & Hs2)]. split; [done|]. exists s. cbn. rewrite Hst; [done|].
    intros E. apply Hne. symmetry. by apply (H2 j i q r).
  - intros j k q q' [[<- <-]|[Hj Hq]]%lookup_insert_Some [[<- <-]|[Hk Hq']]%lookup_insert_Some; [done|rewrite Hn..|by apply H2];
      intros E; by eapply H2.
  - intros j [q [[<- _]|[_ Hq]]%lookup_insert_Some]; apply H3; eauto.
  - rewrite (msum_insert_Some _ _ _ r) by done. lia.
  - intros k c Hc. destruct (H5 k c Hc) as [Hcl Hg]. split; [done|]. intros E. specialize (Hg E). by destruct Hz.
Qed.

Lemma wg_at_work y i r : g_ok y → g_runnables y !! i = Some r → at_work r = 1 → g_wg y ≠ 0.
Proof.
  intros H Hr Hw. rewrite (gk_wg y H).
  pose proof (msum_ge at_work (g_runnables y) i r ltac:(intros ? q _; unfold at_work; destruct (rn_pc q); lia) Hr). lia.
Qed.

(** A goroutine that leaves its log and its status alone. *)
Lemma g_ok_quiet y i r period timer pc due :
  g_ok y → g_runnables y !! i = Some r → at_work r = 1 → at_work (rn_set period timer pc due (rn_log r) r) = 1 →
  in_call pc = in_call (rn_pc r) → rn_ok (g_now y) (rn_set period timer pc due (rn_log r) r) →
  g_ok (with_runnable i (rn_set period timer pc due (rn_log r) r) y).
Proof.
  intros H Hr Hw Hw' Hc Hok. apply (g_ok_step y i r _ (g_states y) (g_wg y)); try done.
  - destruct (gk_rn y H i r Hr) as [_ (s & Hs & Hrun & Hruns)]. exists s. cbn. by rewrite Hc.
  - lia.
  - right. by eapply wg_at_work.
Qed.
Lemma g_ok_gone y i r : g_ok y → g_runnables y !! i = Some r → at_work r = 1 → in_call (rn_pc r) = false →
  g_ok (mkGroup (g_canceled y) (g_closed y) (g_states y) (g_wg y - 1) (<[i := rn_at RGone r]> (g_runnables y)) (g_next y)
          (g_now y) (g_calls y) (g_ncalls y)).
Proof.
  intros H Hr Hw Hc. destruct (gk_rn y H i r Hr) as [[H1 H2 H3 H4 H5 H6 H7 H8] (s & Hs & Hrun & Hruns)].
  apply (g_ok_step y i r (rn_at RGone r)); try done.
  - split; cbn; try done; [by destruct (rn_log r); rewrite ?H3, ?Hc|]. intros Hd Hp. destruct (H7 Hd Hp) as (? & Ho).
    split; [done|]. intros E. by destruct (Ho E).
  - exists s. cbn. by rewrite Hrun, Hc.
  - rewrite Hw. change (at_work (rn_at RGone r)) with 0. lia.
  - right. by eapply wg_at_work.
Qed.

(** ** Every step *)

Lemma rn_quiet_ok now r period timer pc due :
  rn_ok now r → in_call pc = in_call (rn_pc r) →
  (rn_dynamic r = false → period = rn_period r ∧ (∀ d, timer = Some d → not_before r d)) →
  (fired pc = true → due ≤ now ∧ (rn_dynamic r = false → not_before r due)) →
  (rn_dynamic r = false → rn_period r = 0 → rn_log r ≠ [] → timer = None ∧ fired pc = false) →
  (waiting pc = false → timer = None) →
  rn_ok now (rn_set period timer pc due (rn_log r) r).
Proof.
  intros [H1 H2 H3 H4 H5 H6 H7 H8] Hc Hs Hf Ho Ha. split; cbn; try done.
  - intros l1 a b l2 E. destruct (H1 l1 a b l2 E) as (f & ? & ? & Hp). exists f. split; [done|]. split; [done|]. cbn.
    intros Hd. destruct (Hs Hd) as [-> _]. auto.
  - destruct (rn_log r); by rewrite Hc.
  - intros Hd d E. destruct (Hs Hd) as [-> Hn]. specialize (Hn d E). unfold not_before in *. by destruct (rn_log r).
  - intros E. destruct (Hf E) as [? Hn]. split; [done|]. intros Hd. destruct (Hs Hd) as [-> _]. specialize (Hn Hd).
    unfold not_before in *. by destruct (rn_log r).
  - intros Hd. destruct (Hs Hd) as [-> _]. auto.
  - intros Hd. destruct (Hs Hd) as [-> _]. intros Hp. destruct (H7 Hd Hp) as [? _]. split; [done|]. by apply Ho.
Qed.

(** The call begins. *)
Lemma rn_start_ok now r : rn_ok now r → rn_pc r = RStart →
  rn_ok now (rn_set (rn_period r) (rn_timer r) RCall (rn_due r) (mkInvocation (rn_due r) now None :: rn_log r) r).
Proof.
  intros [H1 H2 H3 H4 H5 H6 H7 H8] Hpc. rewrite Hpc in *. destruct (H5 eq_refl) as [Hdue Hnb]. specialize (H8 eq_refl). split; cbn; try done.
  - intros [|x l1] a b l2; cbn; intros [= <- E]; [|by apply (H1 l1 a b l2)].
    rewrite E in H2, H3. cbn in H3. unfold not_before in Hnb. rewrite E in Hnb. unfold finished in H3.
    destruct (iv_finish b) as [f|] eqn:Ef; [|done]. exists f. split; [done|]. cbn.
    apply Forall_cons in H2 as [[_ Hb] _]. specialize (Hb f Ef). split; [lia|]. intros Hd. by apply Hnb.
  - apply Forall_cons. split; [|done]. split; cbn; [lia|done].
  - intros Hd Hp. destruct (H7 Hd Hp) as [Hl Ho]. destruct (rn_log r) as [|x l]; [|by destruct Ho]. split; [cbn; lia|]. by intros _.
Qed.

(** The call ends. *)
Lemma rn_finish_ok now r pc e : rn_ok now r → rn_pc r = RStop e → pc = RNext ∨ pc = RReport →
  rn_ok now (rn_set (rn_period r) (rn_timer r) pc (rn_due r) (finish_last now (rn_log r)) r) ∧
  count_finished (finish_last now (rn_log r)) = count_finished (rn_log r) + 1.
Proof.
  intros [H1 H2 H3 H4 H5 H6 H7 H8] Hpc Hn. rewrite Hpc in *. specialize (H8 eq_refl).
  destruct (rn_log r) as [|a l] eqn:El; [done|]. cbn in H3. unfold finished in H3. destruct (iv_finish a) eqn:Ea; [done|].
  cbn [finish_last]. assert (Hin : in_call pc = false ∧ fired pc = false ∧ waiting pc = false) by (by destruct Hn as [->| ->]).
  destruct Hin as (Hc & Hf & Hw). split.
  - split; cbn; try done.
    + intros [|x l1] a' b l2; cbn; intros [= <- E].
      * destruct (H1 [] a b l2 ltac:(by rewrite E)) as (f & Hb). by exists f.
      * by apply (H1 (a :: l1) a' b l2); rewrite E.
    + apply Forall_cons in H2 as [[Ha _] Hl]. apply Forall_cons. split; [|done]. split; cbn; [done|]. intros f [= <-]. lia.
    + by rewrite Hc.
    + intros _ d E. by rewrite H8 in E.
    + by rewrite Hf.
    + intros Hd Hp. destruct (H7 Hd Hp) as [Hl Ho]. split; [done|]. by rewrite Hf.
  - assert (E : finished a = false) by (unfold finished; by rewrite Ea). unfold count_finished.
    rewrite filter_cons_True, filter_cons_False by (done || congruence). cbn [length]. lia.
Qed.

Lemma runnable_step_ok i a y y' : g_ok y → runnable_step i a y = Some y' → g_ok y'.
Proof.
  intros H. unfold runnable_step. destruct (g_runnables y !! i) as [r|] eqn:Hr; cbn [mbind option_bind]; [|done].
  destruct (gk_rn y H i r Hr) as [Hok (s & Hs & Hrun & Hruns)].
  assert (Hst : state_of (rn_name r) y = s) by (unfold state_of; by rewrite Hs).
  assert (Hw : rn_pc r ≠ RGone → at_work r = 1) by (intros ?; unfold at_work; by destruct (rn_pc r)).
  destruct (rn_pc r) as [| | | |e| | |] eqn:Hpc, a as [|period| | |e'|current]; try done.
  - destruct (g_canceled y) eqn:Ec; [|done]. intros [= <-]. rewrite <- Ec at 1. apply g_ok_gone; [done|done|by apply Hw|by rewrite Hpc].
  - destruct (rn_dynamic r) eqn:Hd; [|done]. intros [= <-]. apply g_ok_quiet; [done|done|by apply Hw|done|by rewrite Hpc|].
    apply rn_quiet_ok; rewrite ?Hpc, ?Hd; done.
  - destruct (rn_timer r) as [due|] eqn:Ht; [|done]. destruct (Z.leb_spec due (g_now y)); [|done]. intros [= <-].
    apply g_ok_quiet; [done|done|by apply Hw|done|by rewrite Hpc|]. apply rn_quiet_ok; rewrite ?Hpc; try done.
    + intros _. split; [done|]. intros Hd. by apply (ro_timer _ _ Hok).
    + intros Hd Hp Hl. destruct (ro_once _ _ Hok Hd Hp) as [_ Ho]. destruct (Ho Hl). congruence.
  - intros [= <-]. destruct (g_canceled y) eqn:Ec; [rewrite <- Ec at 1; apply g_ok_gone; [done|done|by apply Hw|by rewrite Hpc]|].
    apply g_ok_quiet; [done|done|by apply Hw|done|by rewrite Hpc|]. apply rn_quiet_ok; rewrite ?Hpc; try done.
    + intros Hd. split; [done|]. by apply (ro_timer _ _ Hok).
    + intros _. apply (ro_fired _ _ Hok). by rewrite Hpc.
    + intros Hd Hp Hl. destruct (ro_once _ _ Hok Hd Hp) as [_ Ho]. destruct (Ho Hl) as [_ Hfi]. by rewrite Hpc in Hfi.
    + intros _. apply (ro_armed _ _ Hok). by rewrite Hpc.
  - intros [= <-]. rewrite Hst. apply (g_ok_step y i r); [done|done|done|by apply rn_start_ok|..].
    + intros n Hn. cbn. by rewrite lookup_insert_ne.
    + cbn. eexists. rewrite lookup_insert_eq. split; [done|]. cbn. by rewrite Hruns.
    + rewrite Hw by done. cbn. lia.
    + right. eapply wg_at_work; [done..|]. by apply Hw.
  - intros [= <-]. apply g_ok_quiet; [done|done|by apply Hw|done|by rewrite Hpc|]. apply rn_quiet_ok; rewrite ?Hpc; try done.
    + intros Hd. split; [done|]. by apply (ro_timer _ _ Hok).
    + intros Hd Hp Hl. destruct (ro_once _ _ Hok Hd Hp) as [_ Ho]. destruct (Ho Hl). done.
    + intros _. apply (ro_armed _ _ Hok). by rewrite Hpc.
  - intros [= <-]. rewrite Hst. set (pc := if String.eqb e "" then RNext else RReport).
    destruct (rn_finish_ok (g_now y) r pc e Hok Hpc) as [Hok' Hcount]; [unfold pc; destruct (String.eqb e ""); auto|].
    apply (g_ok_step y i r); [done|done|done|exact Hok'|..].
    + intros n Hn. cbn. by rewrite lookup_insert_ne.
    + cbn. eexists. rewrite lookup_insert_eq. split; [done|]. cbn. split; [unfold pc; by destruct (String.eqb e "")|]. by rewrite Hcount, Hruns.
    + rewrite Hw by done. unfold at_work. cbn. unfold pc. destruct (String.eqb e ""); lia.
    + right. eapply wg_at_work; [done..|]. by apply Hw.
  - intros [= <-]. apply g_ok_quiet; [done|done|by apply Hw|done|by rewrite Hpc|]. apply rn_quiet_ok; rewrite ?Hpc; try done.
    + intros Hd. split; [done|]. by apply (ro_timer _ _ Hok).
    + intros Hd Hp Hl. destruct (ro_once _ _ Hok Hd Hp) as [_ Ho]. destruct (Ho Hl). done.
    + intros _. apply (ro_armed _ _ Hok). by rewrite Hpc.
  - set (p := if rn_dynamic r then current else rn_period r). destruct (Z.eqb_spec p 0) as [|Hp0]; intros [= <-].
    { apply g_ok_gone; [done|done|by apply Hw|by rewrite Hpc]. }
    apply g_ok_quiet; [done|done|by apply Hw|done|by rewrite Hpc|]. apply rn_quiet_ok; rewrite ?Hpc; try done.
    + intros Hd. unfold p in *. rewrite Hd in *. split; [done|]. intros d [= <-]. unfold not_before.
      destruct (rn_log r) as [|a l] eqn:El; [done|]. intros f Ef. pose proof (ro_each _ _ Hok) as He. rewrite El in He.
      apply Forall_cons in He as [[_ He] _]. specialize (He f Ef). lia.
    + intros Hd Hp. exfalso. unfold p in Hp0. rewrite Hd in Hp0. done.
Qed.

Lemma register_ok name delay period dynamic has_fn y y' : g_ok y → run name delay period dynamic has_fn y = Ok y' → g_ok y'.
Proof.
  intros [H1 H2 H3 H4 H5]. unfold run. destruct (_ || _ || _ || _) eqn:Hv; [done|].
  apply orb_false_iff in Hv as [[[_ Hd]%orb_false_iff Hp]%orb_false_iff _].
  destruct (g_closed y || g_canceled y) eqn:Hc; [done|]. apply orb_false_iff in Hc as [Hc _].
  destruct (g_states y !! name) eqn:Hs; [done|]. intros HP. apply (inj Ok) in HP. subst y'.
  assert (Hn : g_runnables y !! g_next y = None).
  { destruct (g_runnables y !! g_next y) eqn:E; [|done]. pose proof (H3 (g_next y) ltac:(eauto)). lia. }
  assert (Hfresh : ∀ i r, g_runnables y !! i = Some r → rn_name r ≠ name).
  { intros i r Hr E. destruct (H1 i r Hr) as [_ (s & Hst & _)]. congruence. }
  split; cbn.
  - intros i r [[<- <-]|[_ Hr]]%lookup_insert_Some.
    + split; [|eexists; cbn; by rewrite lookup_insert_eq]. split; cbn; try done; [intros l1 a b l2 E; by destruct l1|lia|intros _ _; split; [lia|done]].
    + destruct (H1 i r Hr) as [Hok (s & Hst & ?)]. split; [done|]. exists s. cbn.
      rewrite lookup_insert_ne; [done|]. intros E. by apply (Hfresh i r Hr).
  - intros i j r r' [[<- <-]|[_ Hr]]%lookup_insert_Some [[<- <-]|[_ Hr']]%lookup_insert_Some E; [done| | |by eapply H2].
    + cbn in E. by destruct (Hfresh j r' Hr').
    + cbn in E. by destruct (Hfresh i r Hr).
  - intros i [r [[<- _]|[_ Hr]]%lookup_insert_Some]; [lia|]. specialize (H3 i ltac:(eauto)). lia.
  - rewrite msum_insert_None by done. change (at_work _) with 1. lia.
  - intros k c Hk. destruct (H5 k c Hk). congruence.
Qed.

Lemma group_step_ok l y y' : g_ok y → g_step l y = Some y' → g_ok y'.
Proof.
  intros H. destruct l as [name delay period f|name delay current f|i a|now| | |k abort]; cbn [g_step].
  - intros [= <-]. unfold Run. destruct (run name delay period false f y) as [y1|] eqn:E; [by eapply register_ok|done].
  - intros [= <-]. unfold RunDynamic. destruct current as [period|]; [|done]. destruct (period <=? 0); [done|].
    destruct (run name delay period true f y) as [y1|] eqn:E; [by eapply register_ok|done].
  - by apply runnable_step_ok.
  - destruct (Z.ltb_spec now (g_now y)); [done|]. intros [= <-]. destruct H as [H1 H2 H3 H4 H5]. split; try done.
    intros i r Hr. destruct (H1 i r Hr). split; [by apply (rn_ok_later (g_now y))|done].
  - intros [= <-]. by destruct H.
  - intros [= <-]. destruct H as [H1 H2 H3 H4 H5]. split; try done. cbn.
    intros k c [[_ <-]|[_ Hc]]%lookup_insert_Some; [done|]. split; [done|]. by apply (H5 k).
  - unfold stop_step. destruct (g_calls y !! k) as [[]|] eqn:Hk; cbn [mbind option_bind]; [|done..].
    destruct H as [H1 H2 H3 H4 H5]. destruct (H5 k _ Hk) as [Hcl _].
    destruct abort; [|destruct (Z.eqb_spec (g_wg y) 0); [|done]]; intros [= <-]; split; try done; cbn; intros k' c;
      (destruct (decide (k' = k)) as [->|]; [rewrite lookup_partial_alter_eq|rewrite lookup_partial_alter_ne by done; by apply H5]);
      by intros [= <-].
Qed.

Lemma group_init_ok now : g_ok (g_init now).
Proof.
  split; cbn.
  - intros i r Hr. by rewrite lookup_empty in Hr.
  - intros i j r r' Hr. by rewrite lookup_empty in Hr.
  - intros i [r Hr]. by rewrite lookup_empty in Hr.
  - done.
  - intros k c Hc. by rewrite lookup_empty in Hc.
Qed.
Lemma group_run_ok l y y' : g_ok y → g_run l y = Some y' → g_ok y'.
Proof. apply steps_inv. intros e y1 y2. apply group_step_ok. Qed.

(** ** After [Stop] *)

Definition ended (y : group) : Prop := g_closed y = true ∧ ∀ i r, g_runnables y !! i = Some r → rn_pc r = RGone.
Lemma ended_step l y y' : ended y → g_step l y = Some y' → ended y' ∧ g_runnables y' = g_runnables y.
Proof.
  intros [Hc Hg]. destruct l as [name delay period f|name delay current f|i a|now| | |k abort]; cbn [g_step].
  - intros [= <-]. unfold Run, run. destruct (_ || _ || _ || _); [done|]. by rewrite Hc.
  - intros [= <-]. unfold RunDynamic, run. destruct current as [period|]; [|done]. destruct (period <=? 0); [done|].
    destruct (_ || _ || _ || _); [done|]. by rewrite Hc.
  - unfold runnable_step. destruct (g_runnables y !! i) as [r|] eqn:Hr; cbn [mbind option_bind]; [|done]. by rewrite (Hg i r Hr).
  - destruct (now <? g_now y); [done|]. by intros [= <-].
  - by intros [= <-].
  - by intros [= <-].
  - unfold stop_step. destruct (g_calls y !! k) as [[]|]; cbn [mbind option_bind]; [|done..].
    destruct abort; [|destruct (g_wg y =? 0); [|done]]; by intros [= <-].
Qed.
Lemma ended_run l y y' : ended y → g_run l y = Some y' → g_runnables y' = g_runnables y.
Proof.
  apply (steps_rel _ ended (λ y0 y1, g_runnables y1 = g_runnables y0)); [|done|].
  - intros e y1 y2 H He. by apply (ended_step e y1 y2).
  - intros e y0 y1 y2 H <- He. by apply (ended_step e y1 y2).
Qed.

(** ** The properties *)

(** The calls of a runnable never overlap and are never early: each starts
    when it is due or later and only after the one before it has finished; with
    a fixed period, a full period after that; and a runnable without a period
    is called at most once.  The status of a runnable tells whether it is being
    called, and counts the calls that finished. *)
Theorem runnable_spacing l start y i r :
  g_run l (g_init start) = Some y → g_runnables y !! i = Some r →
  (∀ l1 a b l2, rn_log r = l1 ++ a :: b :: l2 →
     ∃ f, iv_finish b = Some f ∧ f ≤ iv_start a ∧ (rn_dynamic r = false → f + rn_period r ≤ iv_due a)) ∧
  Forall (λ a, iv_due a ≤ iv_start a ≤ g_now y) (rn_log r) ∧
  (rn_dynamic r = false → rn_period r = 0 → (length (rn_log r) ≤ 1)%nat) ∧
  ∃ s, g_states y !! rn_name r = Some s ∧ st_Running s = in_call (rn_pc r) ∧ st_Runs s = count_finished (rn_log r).
Proof.
  intros H%group_run_ok Hr; [|apply group_init_ok]. destruct (gk_rn y H i r Hr) as [[H1 H2 H3 H4 H5 H6 H7 H8] Hs].
  split; [exact H1|]. split; [|split; [|exact Hs]].
  - eapply Forall_impl; [exact H2|]. intros a Ha. apply Ha.
  - intros Hd Hp. by apply H7.
Qed.

(** Once [Stop] has returned, every goroutine of the group has ended, and
    whatever happens later, no runnable is registered or called again. *)
Theorem group_stopped l start y k l' y' :
  g_run l (g_init start) = Some y → g_calls y !! k = Some GStopped → g_run l' y = Some y' →
  (∀ i r, g_runnables y !! i = Some r → rn_pc r = RGone) ∧ g_runnables y' = g_runnables y.
Proof.
  intros H%group_run_ok Hk Hr; [|apply group_init_ok]. destruct (gk_stop y H k _ Hk) as [Hc Hw].
  assert (He : ended y).
  { split; [done|]. intros i r Hi. destruct (rn_pc r) eqn:E; try done; exfalso;
      (apply (wg_at_work y i r); [done|done|unfold at_work; by rewrite E|by apply Hw]). }
  split; [apply He|by apply (ended_run l')].
Qed.

(** A task every ten ticks, stopped while it runs for the second time. *)
Definition demo_schedule : list label :=
  [LRun "poll" 5 10 true; LRun "poll" 0 0 true; LTick 7; LRunnable 0 RaTimer; LRunnable 0 RaGo; LRunnable 0 RaGo; LTick 9;
   LRunnable 0 (RaReturn "failed"); LRunnable 0 RaGo; LRunnable 0 RaGo; LRunnable 0 (RaPeriod 0); LTick 30; LRunnable 0 RaTimer;
   LRunnable 0 RaGo; LRunnable 0 RaGo; LStop; LRunnable 0 (RaReturn ""); LRunnable 0 RaGo; LRunnable 0 (RaPeriod 0); LRunnable 0 RaStop;
   LStopWait 0 false].
Definition demo_group : group := default (g_init 0) (g_run demo_schedule (g_init 0)).
Lemma demo_group_run : g_run demo_schedule (g_init 0) = Some demo_group.
Proof. vm_compute. reflexivity. Qed.
Definition demo_task : runnable := default (mkRunnable "" false 0 None RGone 0 []) (g_runnables demo_group !! 0%nat).
Lemma demo_task_at : g_runnables demo_group !! 0%nat = Some demo_task.
Proof. vm_compute. reflexivity. Qed.

Lemma runnable_spacing_witness :
  rn_log demo_task = [mkInvocation 19 30 (Some 30); mkInvocation 5 7 (Some 9)] ∧
  Forall (λ a, iv_due a ≤ iv_start a ≤ g_now demo_group) (rn_log demo_task).
Proof.
  split; [vm_compute; reflexivity|].
  exact (proj1 (proj2 (runnable_spacing _ _ demo_group 0 demo_task demo_group_run demo_task_at))).
Defined.
Lemma group_stopped_witness :
  g_calls demo_group !! 0%nat = Some GStopped ∧ g_runnables (stop_begin demo_group) = g_runnables demo_group.
Proof.
  assert (E : g_calls demo_group !! 0%nat = Some GStopped) by (vm_compute; reflexivity).
  split; [exact E|].
  exact (proj2 (group_stopped _ _ demo_group 0 [LStop] (stop_begin demo_group) demo_group_run E eq_refl)).
Defined.
