(* ===== verification/Prog.v ===== *)
(** * Programs that call their surroundings

    A handler that calls other components is a tree: it returns, or makes a
    call and goes on with the answer.  The calls and the types of their
    answers are the component's; a handler run under any answers leaves a log
    of calls, and [wp] states what holds of the log whatever is answered.  The
    trees are finite, so every handler returns once its calls do. *)

From S2P Require Import Prelude.
Local Open Scope list_scope.

Inductive prog (E : Type) (ans : E → Type) (A : Type) : Type :=
  | Ret (a : A)
  | Call (e : E) (k : ans e → prog E ans A).
Arguments Ret {E ans A} a.
Arguments Call {E ans A} e k.

Record event (E : Type) (ans : E → Type) := Ev { ev_call : E; ev_answer : ans ev_call }.
Arguments Ev {E ans} ev_call ev_answer.
Arguments ev_call {E ans} e.
Arguments ev_answer {E ans} e.

#[export] Instance prog_ret E ans : MRet (prog E ans) := λ A a, Ret a.
#[export] Instance prog_bind E ans : MBind (prog E ans) := λ A B k,
  fix go m := match m with Ret a => k a | Call e f => Call e (λ x, go (f x)) end.

Section prog.
Context {E : Type} {ans : E → Type}.
Abbreviation P := (prog E ans).
Abbreviation log := (list (event E ans)).

Definition call (e : E) : P (ans e) := Call e Ret.

(** Running against a handler that keeps a state. *)
Fixpoint run {A S} (h : ∀ e, S → ans e * S) (p : P A) (s : S) (l : log) : A * S * log :=
  match p with
  | Ret a => (a, s, l)
  | Call e k => let '(x, s) := h e s in run h (k x) s (l ++ [Ev e x])
  end.

(** [reaches p l q]: the calls and answers [l] lead from [p] to [q]. *)
Inductive reaches {A} : P A → log → P A → Prop :=
  | reaches_here p : reaches p [] p
  | reaches_call e k x l q : reaches (k x) l q → reaches (Call e k) (Ev e x :: l) q.

(** [I] holds of every log on the way, [Q] of the log and the result at the
    end. *)
Fixpoint wp {A} (I : log → Prop) (p : P A) (l : log) (Q : log → A → Prop) : Prop :=
  match p with
  | Ret a => Q l a
  | Call e k => ∀ x, I (l ++ [Ev e x]) ∧ wp I (k x) (l ++ [Ev e x]) Q
  end.

Lemma wp_bind {A B} I (p : P A) (k : A → P B) l Q :
  wp I (p ≫= k) l Q ↔ wp I p l (λ l a, wp I (k a) l Q).
Proof.
  revert l. induction p as [a|e f IH]; intros l; [done|]. split; intros H x.
  - destruct (H x) as [H1 H2]. split; [done|]. by apply IH.
  - destruct (H x) as [H1 H2]. split; [done|]. by apply IH.
Qed.

Lemma wp_mono {A} (I J : log → Prop) (p : P A) l (Q R : log → A → Prop) :
  (∀ l, I l → J l) → (∀ l a, Q l a → R l a) → wp I p l Q → wp J p l R.
Proof.
  intros HI HQ. revert l. induction p as [a|e f IH]; intros l; [apply HQ|]. intros H x.
  destruct (H x) as [H1 H2]. split; [by apply HI|by apply IH].
Qed.

Lemma wp_post {A} I (p : P A) l (Q R : log → A → Prop) :
  (∀ l a, Q l a → R l a) → wp I p l Q → wp I p l R.
Proof. intros. eapply wp_mono; [|done..]. done. Qed.

Lemma wp_run {A S} I (h : ∀ e, S → ans e * S) (p : P A) s l Q :
  wp I p l Q → let '(a, _, l') := run h p s l in Q l' a.
Proof.
  revert s l. induction p as [a|e f IH]; intros s l H; [done|]. cbn [run].
  destruct (h e s) as [x s']. apply IH, H.
Qed.

Lemma run_bind {A B S} (h : ∀ e, S → ans e * S) (p : P A) (k : A → P B) s l :
  run h (p ≫= k) s l = let '(a, s', l') := run h p s l in run h (k a) s' l'.
Proof. revert s l. induction p as [a|e f IH]; intros s l; [done|]. cbn [run mbind prog_bind]. destruct (h e s) as [x s']. apply IH. Qed.

Lemma run_reaches {A S} (h : ∀ e, S → ans e * S) (p : P A) s l :
  let '(a, _, l') := run h p s l in ∃ l1, l' = l ++ l1 ∧ reaches p l1 (Ret a).
Proof.
  revert s l. induction p as [a|e f IH]; intros s l; cbn [run].
  - exists []. split; [by rewrite app_nil_r|constructor].
  - destruct (h e s) as [x s']. specialize (IH x s' (l ++ [Ev e x])).
    destruct (run h (f x) s' (l ++ [Ev e x])) as [[a s''] l']. destruct IH as (l1 & -> & Hr).
    exists (Ev e x :: l1). split; [by rewrite <- app_assoc|by constructor].
Qed.

(** The first call of what a program has done. *)
Lemma reaches_first {A} (p q : P A) l :
  reaches p l q →
  match p with
  | Ret _ => l = []
  | Call e k => l = [] ∨ ∃ x l', l = Ev e x :: l' ∧ reaches (k x) l' q
  end.
Proof. intros [p'|e k x l' q' H]; [destruct p'; auto|]. right. eauto. Qed.

Lemma reaches_snoc {A} (p : P A) l e k x : reaches p l (Call e k) → reaches p (l ++ [Ev e x]) (k x).
Proof.
  intros H. remember (Call e k) as q eqn:Hq. induction H as [p|e' k' x' l q H IH].
  - subst p. cbn. constructor. constructor.
  - cbn. constructor. by apply IH.
Qed.

(** What [wp] promises holds at every state a program reaches. *)
Lemma wp_reaches {A} I (p q : P A) l0 l Q :
  I l0 → wp I p l0 Q → reaches p l q → I (l0 ++ l) ∧ wp I q (l0 ++ l) Q.
Proof.
  intros HI Hw H. revert l0 HI Hw. induction H as [p|e k x l q H IH]; intros l0 HI Hw.
  - by rewrite app_nil_r.
  - destruct (Hw x) as [H1 H2]. specialize (IH _ H1 H2). by rewrite <- app_assoc in IH.
Qed.

(** [wp] over the log from here on, and the rule for sequences it gives. *)
Lemma wp_shift {A} (I : log → Prop) (p : P A) l (Q : log → A → Prop) :
  wp I p l Q ↔ wp (λ t, I (l ++ t)) p [] (λ t a, Q (l ++ t) a).
Proof.
  enough (H : ∀ t, wp I p (l ++ t) Q ↔ wp (λ t, I (l ++ t)) p t (λ t a, Q (l ++ t) a)).
  { specialize (H []). by rewrite app_nil_r in H. }
  induction p as [a|e f IH]; intros t; [done|]. cbn.
  split; intros H x; destruct (H x) as [H1 H2]; rewrite <- app_assoc in *; (split; [done|]); by apply IH.
Qed.

Lemma wp_seq {A B} (I1 I : log → Prop) (p : P A) (k : A → P B) Q1 Q :
  wp I1 p [] Q1 → (∀ t, I1 t → I t) →
  (∀ t a, Q1 t a → wp (λ t', I (t ++ t')) (k a) [] (λ t' b, Q (t ++ t') b)) →
  wp I (p ≫= k) [] Q.
Proof.
  intros Hp HI Hk. apply wp_bind. eapply wp_mono; [exact HI| |exact Hp].
  intros t a Ha. apply wp_shift. by apply Hk.
Qed.

(** What a program does under an assumption about the past. *)
Lemma wp_impl {A} (H : Prop) (I : log → Prop) (p : P A) l (Q : log → A → Prop) :
  (H → wp I p l Q) → wp (λ t, H → I t) p l (λ t a, H → Q t a).
Proof.
  revert l. induction p as [a|e f IH]; intros l Hp; [exact Hp|]. intros x.
  split; [intros h; by apply Hp|]. apply IH. intros h. by apply Hp.
Qed.

Lemma wp_run_reaches {A} I (p q : P A) t Q :
  I [] → wp I p [] Q → reaches p t q → I t ∧ ∀ a, q = Ret a → Q t a.
Proof.
  intros H0 Hw Hr. destruct (wp_reaches I p q [] t Q H0 Hw Hr) as [H1 H2]. split; [done|]. by intros a ->.
Qed.

Lemma wp_true {A} (p : P A) l : wp (λ _, True) p l (λ _ _, True).
Proof. revert l. induction p as [a|e f IH]; intros l; [done|]. intros x. split; [done|apply IH]. Qed.

(** Every call the program may make satisfies a predicate. *)
Fixpoint all_calls {A} (good : E → Prop) (p : P A) : Prop :=
  match p with Ret _ => True | Call e k => good e ∧ ∀ x, all_calls good (k x) end.
Lemma all_calls_bind {A B} good (p : P A) (k : A → P B) :
  all_calls good p → (∀ a, all_calls good (k a)) → all_calls good (p ≫= k).
Proof.
  intros Hp Hk. induction p as [a|e f IH]; [apply Hk|]. destruct Hp as [He Hf].
  split; [done|]. intros x. by apply IH.
Qed.
Lemma all_calls_log {A} good (p q : P A) l :
  all_calls good p → reaches p l q → Forall (λ ev, good (ev_call ev)) l.
Proof.
  intros Hp H. induction H as [p|e k x l q H IH]; [constructor|]. destruct Hp as [He Hk]. constructor; [done|apply IH, Hk].
Qed.
(** Every call is allowed by what happened before it. *)
Definition good (allowed : log → E → Prop) (t : log) : Prop := ∀ t1 ev t2, t = t1 ++ ev :: t2 → allowed t1 (ev_call ev).
Lemma good_nil allowed : good allowed [].
Proof. by intros [] ?? ?. Qed.
Lemma good_snoc allowed t ev : good allowed t → allowed t (ev_call ev) → good allowed (t ++ [ev]).
Proof.
  intros Hg Ha t1 e t2 H. destruct t2 as [|e2 t2 _] using rev_ind.
  - apply app_inj_tail in H as [<- <-]. done.
  - rewrite app_comm_cons, app_assoc in H. apply app_inj_tail in H as [-> _]. by eapply Hg.
Qed.
End prog.

(** ** Go's errors, as [errors.Is] sees them

    Package-level error values are told apart by their name; [fmt.Errorf]
    wraps with its verb for that, and [errors.Join] keeps all it is given. *)
Inductive goerr :=
  | Sentinel (name : string)
  | NewError (text : string)
  | Wrapped (text : string) (e : goerr)
  | Joined (l : list goerr).

Fixpoint errors_Is (e : goerr) (target : string) : bool :=
  match e with
  | Sentinel name => String.eqb name target
  | NewError _ => false
  | Wrapped _ e => errors_Is e target
  | Joined l => existsb (λ e, errors_Is e target) l
  end.

(** [errors.Join]: nil when everything is. *)
Definition errors_Join (l : list (option goerr)) : option goerr :=
  match omap id l with [] => None | l => Some (Joined l) end.
Definition errors_Is_some (e : option goerr) (target : string) : bool :=
  match e with Some e => errors_Is e target | None => false end.

Lemma errors_Join_Is l target : errors_Is_some (errors_Join l) target = existsb (λ e, errors_Is_some e target) l.
Proof.
  assert (H : existsb (λ e, errors_Is e target) (omap id l) = existsb (λ e, errors_Is_some e target) l).
  { induction l as [|[e|] l IH]; cbn; [done| |done]. f_equal. exact IH. }
  unfold errors_Join. rewrite <- H. by destruct (omap id l).
Qed.
Lemma errors_Join_None l : errors_Join l = None ↔ ∀ e, e ∈ l → e = None.
Proof.
  unfold errors_Join. induction l as [|[e|] l IH]; cbn.
  - split; [intros _ e He; by apply elem_of_nil in He|done].
  - split; [done|]. intros H. specialize (H (Some e) ltac:(set_solver)). done.
  - rewrite IH. split; [intros H e [->|He]%elem_of_cons; auto|]. intros H e He. apply H. set_solver.
Qed.

Definition Canceled : string := "context.Canceled".
Definition DeadlineExceeded : string := "context.DeadlineExceeded".
