(* ===== verification/Submission.v ===== *)
(** * Download submission (application/download.control: pipeline.go, router.go)

    How a batch of media becomes download tasks: the batch is collected,
    filtered and named, and a bounded pool of goroutines registers each item
    and offers it to the configured executors in turn.  The calls of other
    components are the calls of a program (Prog.v): their answers are
    arbitrary, and in the part that recovers from panics, the executors of one
    item, a call may panic.  A panic of the collection, filter or naming is not
    an answer of the model: it leaves [SubmitBatch] before anything is
    submitted. *)

From S2P Require Import Prelude Strings Storage TargetPath Naming Prog.
Local Open Scope list_scope.

(** ** Data (interfaces/ports, interfaces/types) *)

Record NamingData := mkData {
  nd_DialogID : Z; nd_DirectoryID : string; nd_PeerName : string; nd_MessageID : Z; nd_TriggerMessageID : Z;
  nd_MessageDate : Z; nd_Caption : string; nd_MessageTitle : string; nd_AlbumID : string;
  nd_FileName : string; nd_FileSize : Z; nd_DownloadedAt : Z;
}.
Record DownloadMedia := mkMedia { dm_Token : string; dm_Data : NamingData }.
Record DownloadRoute := mkRoute { rt_Executors : list string; rt_LocalRoot : string }.
Record DownloadSubmission := mkSubmission {
  ds_Account : string; ds_TaskID : string; ds_DownloadURL : string; ds_Dir : string; ds_Out : string; ds_FullPath : string }.
Record DownloadResult := mkDownload { dr_Account : string; dr_Target : string; dr_ID : string; dr_Skipped : bool }.
Record DownloadIntent := mkIntent { di_Account : string; di_PeerID : Z; di_MessageID : Z; di_Link : string }.
Record GeneratedLink := mkLink { gl_FileName : string; gl_URL : string }.
Record Summary := mkSummary {
  s_Link : string; s_PeerID : Z; s_MessageID : Z;
  s_Total : Z; s_Queued : Z; s_Skipped : Z; s_Failed : Z; s_Uncertain : Z; s_Links : list GeneratedLink }.
#[export] Instance result_eq : EqDecision DownloadResult.
Proof. solve_decision. Defined.

(** The capabilities of one call: which of the optional ones are there, the
    executors that are not nil, and the defaults. *)
Record Resources := mkResources {
  rs_complete : bool;                (* Source, Filter, Naming and Files *)
  rs_Routing : bool;
  rs_Executors : list string;
  rs_RemoteRoot : string; rs_SkipSame : bool; rs_Limit : Z;
}.

Definition DefaultAccount : string := "default".
Definition localExecutor : string := "local".
Definition aria2Executor : string := "aria2".
Definition httpExecutor : string := "http".
Definition ErrDownloadNotAccepted : string := "ErrDownloadNotAccepted".
Definition not_accepted : goerr := Sentinel ErrDownloadNotAccepted.

Inductive Reason := Allowed | ExtensionExcluded | SizeExcluded | Unavailable (text : string).

Definition no_naming : NamingResult := mkNaming "" "" "" "" 0.
Definition no_download : DownloadResult := mkDownload "" "" "" false.

(** ** The calls *)

Inductive call :=
  | Begin                                        (* s.begin: the account, or the reason it refuses *)
  | CtxErr
  | GetRoute (own : bool)                        (* Routing.Route, or the service's own Route *)
  | Executable
  | Collect
  | ShouldHandle (name : string) (size : Z)
  | RenderName (baseDir : string) (data : NamingData)
  | UniqueNames (targets : list NamingResult)
  | Register (token fileName : string)
  | GetURL (id : string)
  | SameFile (path : string) (size : Z)
  | EnsureDirectory (dir : string)
  | SubmitTo (executor : string) (request : DownloadSubmission).

Definition ans (c : call) : Type :=
  match c with
  | Begin | CtxErr => option goerr
  | GetRoute _ => DownloadRoute * option goerr
  | Executable => option string
  | Collect => list DownloadMedia * bool * option goerr        (* whether there is a registration *)
  | ShouldHandle _ _ => bool * Reason
  | RenderName _ _ => NamingResult * option goerr
  | UniqueNames _ => list NamingResult * option goerr
  | Register _ _ | GetURL _ => option (string * option goerr)  (* [None]: the call panics *)
  | SameFile _ _ => option (bool * option goerr)
  | EnsureDirectory _ => option (option goerr)
  | SubmitTo _ _ => option (DownloadResult * option goerr)
  end.
Abbreviation pgm := (prog call ans).

(** Code that may panic and that writes [enteredExecutor]. *)
Definition P (A : Type) : Type := bool → pgm (bool * option A).
#[export] Instance P_ret : MRet P := λ A a entered, Ret (entered, Some a).
#[export] Instance P_bind : MBind P := λ A B k m entered,
  m entered ≫= λ '(entered, o), match o with Some a => k a entered | None => Ret (entered, None) end.
Definition may_panic {A} (m : pgm (option A)) : P A := λ entered, m ≫= λ o, Ret (entered, o).
Definition calm {A} (m : pgm A) : P A := λ entered, m ≫= λ a, Ret (entered, Some a).
Definition set_entered (b : bool) : P unit := λ _, Ret (b, Some tt).

Definition ctx_err : P (option goerr) := calm (Prog.call CtxErr : pgm (option goerr)).
Definition register (token fileName : string) : P (string * option goerr) :=
  may_panic (Prog.call (Register token fileName) : pgm (option (string * option goerr))).
Definition get_url (id : string) : P (string * option goerr) :=
  may_panic (Prog.call (GetURL id) : pgm (option (string * option goerr))).
Definition same_file (path : string) (size : Z) : P (bool * option goerr) :=
  may_panic (Prog.call (SameFile path size) : pgm (option (bool * option goerr))).
Definition ensure_directory (dir : string) : P (option goerr) :=
  may_panic (Prog.call (EnsureDirectory dir) : pgm (option (option goerr))).
Definition submit_to (name : string) (request : DownloadSubmission) : P (DownloadResult * option goerr) :=
  may_panic (Prog.call (SubmitTo name request) : pgm (option (DownloadResult * option goerr))).

(** ** Routing a submission (router.go) *)

(** An executor: its name and [Submit]; [None] is a nil executor. *)
Abbreviation submitter := (DownloadSubmission → P (DownloadResult * option goerr)).
Abbreviation executors := (list (option (string * submitter))).

Fixpoint try_executors (l : executors) (request : DownloadSubmission) (rejected : option goerr)
    : P (DownloadResult * option goerr) :=
  match l with
  | [] => mret (no_download, Some (default not_accepted rejected))
  | executor :: l =>
      e ← ctx_err;
      match e, executor with
      | Some e, _ => mret (no_download, Some e)
      | None, None => try_executors l request rejected
      | None, Some (name, submit) =>
          answer ← submit request;
          match answer with
          | (result, None) => mret (result, None)
          | (result, Some e) =>
              if negb (errors_Is e ErrDownloadNotAccepted) then mret (result, Some e)
              else if negb (String.eqb (dr_ID result) "") then mret (result, Some e)
              else try_executors l request (errors_Join [rejected; Some (Wrapped name e)])
          end
      end
  end.

(** [NewRouter(account, l...).Submit(ctx, request)] *)
Definition router_submit (account : string) (l : executors) (request : DownloadSubmission) : P (DownloadResult * option goerr) :=
  let account := if String.eqb account "" then DefaultAccount else account in
  if negb (String.eqb (ds_Account request) account) then mret (no_download, Some (NewError "download account mismatch"))
  else try_executors l request None.

Definition link_submit (request : DownloadSubmission) : P (DownloadResult * option goerr) :=
  e ← ctx_err;
  match e with
  | Some e => mret (no_download, Some e)
  | None =>
      if String.eqb (ds_DownloadURL request) "" || String.eqb (ds_TaskID request) ""
      then mret (no_download, Some (Wrapped "download link is unavailable" not_accepted))
      else mret (mkDownload (ds_Account request) httpExecutor (ds_TaskID request) false, None)
  end.

(** ** One item (pipeline.go) *)

Record downloadPlan := mkPlan {
  p_media : DownloadMedia;
  p_local : NamingResult; p_remote : NamingResult;
  p_localError : option goerr; p_remoteError : option goerr;
  p_fileName : string;
}.
Record outcome := mkOutcome { o_result : DownloadResult; o_link : GeneratedLink; o_err : option goerr }.
Definition no_link : GeneratedLink := mkLink "" "".
Definition no_outcome : outcome := mkOutcome no_download no_link None.

Definition contains (l : list string) (s : string) : bool := existsb (String.eqb s) l.
Definition rejectedTarget : goerr := Wrapped "download target unavailable" not_accepted.
Definition with_target (request : DownloadSubmission) (n : NamingResult) : DownloadSubmission :=
  mkSubmission (ds_Account request) (ds_TaskID request) (ds_DownloadURL request) (n_Dir n) (n_Out n) (n_FullPath n).

Section item.
Context (account : string) (rs : Resources) (route : DownloadRoute).

(** The end of a [batchExecutor]: the executor itself. *)
Definition enter_executor (name : string) (request : DownloadSubmission) : P (DownloadResult * option goerr) :=
  if contains (rs_Executors rs) name then
    e ← ctx_err;
    match e with
    | Some e => mret (no_download, errors_Join [Some e; Some not_accepted])
    | None =>
        _ ← set_entered true;
        answer ← submit_to name request;
        match answer with
        | (result, Some e) =>
            if errors_Is e ErrDownloadNotAccepted && String.eqb (dr_ID result) ""
            then _ ← set_entered false; mret (result, Some e)
            else mret (result, Some e)
        | (result, None) => mret (result, None)
        end
    end
  else mret (no_download, Some not_accepted).

Definition batch_local (plan : downloadPlan) (id : string) (request : DownloadSubmission) : P (DownloadResult * option goerr) :=
  match p_localError plan with
  | Some _ => mret (no_download, Some rejectedTarget)
  | None =>
      same ← (if rs_SkipSame rs then same_file (n_FullPath (p_local plan)) (nd_FileSize (dm_Data (p_media plan)))
              else mret (false, None));
      match same with
      | (_, Some _) => mret (no_download, Some rejectedTarget)
      | (true, None) => mret (mkDownload account localExecutor id true, None)
      | (false, None) =>
          if negb (contains (rs_Executors rs) localExecutor) then mret (no_download, Some not_accepted)
          else
            e ← ensure_directory (n_Dir (p_local plan));
            match e with
            | Some _ => mret (no_download, Some rejectedTarget)
            | None => enter_executor localExecutor (with_target request (p_local plan))
            end
      end
  end.

Definition batch_remote (plan : downloadPlan) (name downloadURL : string) (urlError : option goerr)
    (request : DownloadSubmission) : P (DownloadResult * option goerr) :=
  if bool_decide (is_Some urlError) || String.eqb downloadURL "" then mret (no_download, Some rejectedTarget)
  else if String.eqb name httpExecutor then link_submit request
  else match p_remoteError plan with
       | Some _ => mret (no_download, Some rejectedTarget)
       | None => enter_executor name (with_target request (p_remote plan))
       end.

Definition batch_submit (plan : downloadPlan) (id downloadURL : string) (urlError : option goerr) (name : string) : submitter :=
  λ request,
    if String.eqb name localExecutor then batch_local plan id request
    else batch_remote plan name downloadURL urlError request.

(** What follows the router: an error without a call of an executor is a
    rejection. *)
Definition item_outcome (plan : downloadPlan) (downloadURL : string) (result : DownloadResult) (e : option goerr) : P outcome :=
  λ entered,
    let e := if bool_decide (is_Some e) && negb entered then errors_Join [e; Some not_accepted] else e in
    let link := if String.eqb (dr_Target result) httpExecutor && bool_decide (e = None)
                then mkLink (p_fileName plan) downloadURL else no_link in
    Ret (entered, Some (mkOutcome result link e)).

(** [submitPrepared] up to its deferred function. *)
Definition submit_item (plan : downloadPlan) : P outcome :=
  e ← ctx_err;
  match e with
  | Some e => mret (mkOutcome no_download no_link (errors_Join [Some e; Some not_accepted]))
  | None =>
      registered ← register (dm_Token (p_media plan)) (p_fileName plan);
      match registered with
      | (id, e) =>
          if bool_decide (is_Some e) || String.eqb id ""
          then mret (mkOutcome no_download no_link (Some (Wrapped "register download source" not_accepted)))
          else
            url ← (if contains (rt_Executors route) aria2Executor || contains (rt_Executors route) httpExecutor
                   then get_url id else mret ("", None));
            let submitters : executors := map (λ name, Some (name, batch_submit plan id url.1 url.2 name)) (rt_Executors route) in
            '(result, e) ← router_submit account submitters (mkSubmission account id url.1 "" "" "");
            item_outcome plan url.1 result e
      end
  end.

Definition submitPrepared (plan : downloadPlan) : pgm outcome :=
  submit_item plan false ≫= λ '(entered, o),
    match o with
    | Some out => Ret out
    | None =>
        let e := Some (NewError "download adapter panic") in
        Ret (mkOutcome no_download no_link (if entered : bool then e else errors_Join [e; Some not_accepted]))
    end.
End item.

(** ** Preparing a batch *)

Definition add_failed (s : Summary) : Summary :=
  mkSummary (s_Link s) (s_PeerID s) (s_MessageID s) (s_Total s) (s_Queued s) (s_Skipped s) (s_Failed s + 1) (s_Uncertain s) (s_Links s).
Definition add_skipped (s : Summary) : Summary :=
  mkSummary (s_Link s) (s_PeerID s) (s_MessageID s) (s_Total s) (s_Queued s) (s_Skipped s + 1) (s_Failed s) (s_Uncertain s) (s_Links s).
Definition add_queued (s : Summary) : Summary :=
  mkSummary (s_Link s) (s_PeerID s) (s_MessageID s) (s_Total s) (s_Queued s + 1) (s_Skipped s) (s_Failed s) (s_Uncertain s) (s_Links s).
Definition add_uncertain (s : Summary) : Summary :=
  mkSummary (s_Link s) (s_PeerID s) (s_MessageID s) (s_Total s) (s_Queued s) (s_Skipped s) (s_Failed s) (s_Uncertain s + 1) (s_Links s).
Definition add_link (link : GeneratedLink) (s : Summary) : Summary :=
  if String.eqb (gl_URL link) "" then s
  else mkSummary (s_Link s) (s_PeerID s) (s_MessageID s) (s_Total s) (s_Queued s) (s_Skipped s) (s_Failed s) (s_Uncertain s)
         (s_Links s ++ [link]).
Definition with_total (total failed : Z) (s : Summary) : Summary :=
  mkSummary (s_Link s) (s_PeerID s) (s_MessageID s) total (s_Queued s) (s_Skipped s) failed (s_Uncertain s) (s_Links s).

(** [targetpath.LocalRoot], with the path of the executable *)
Definition LocalRoot (executable : option string) (configured : string) : res goerr string :=
  let root := TrimSpace configured in
  root ← (if String.eqb root "" then
            match executable with
            | None => Err (NewError "locate executable for local downloads")
            | Some executable => Ok (Clean (Dir executable +:+ "/" +:+ "download"))
            end
          else Ok root);
  if HasPrefix root "/" then Ok (Clean root) else Err (NewError "local download root must be empty or absolute").

Definition batchRoute (rs : Resources) : pgm (res goerr DownloadRoute) :=
  '(route, e) ← (Prog.call (GetRoute (negb (rs_Routing rs))) : pgm (DownloadRoute * option goerr));
  match e with
  | Some e => Ret (Err e)
  | None =>
      if is_nil (rt_Executors route) then Ret (Err (NewError "download executor list is empty"))
      else if contains (rt_Executors route) localExecutor then
        executable ← (if String.eqb (TrimSpace (rt_LocalRoot route)) "" then (Prog.call Executable : pgm (option string)) else Ret None);
        Ret ((λ root, mkRoute (rt_Executors route) root) <$> LocalRoot executable (rt_LocalRoot route))
      else Ret (Ok route)
  end.

Definition first_nonempty (a b : string) : string := if String.eqb a "" then b else a.

Section prepare.
Context (route : DownloadRoute) (rs : Resources).

(** The names of one item. *)
Definition render_plan (item : DownloadMedia) : pgm downloadPlan :=
  '(local, localError) ←
    (if contains (rt_Executors route) localExecutor
     then (Prog.call (RenderName (rt_LocalRoot route) (dm_Data item)) : pgm (NamingResult * option goerr))
     else Ret (no_naming, None));
  '(remote, remoteError) ←
    (if contains (rt_Executors route) aria2Executor || contains (rt_Executors route) httpExecutor
     then (Prog.call (RenderName (CleanTargetRoot (rs_RemoteRoot rs)) (dm_Data item)) : pgm (NamingResult * option goerr))
     else Ret (no_naming, None));
  Ret (mkPlan item local remote localError remoteError (first_nonempty (n_FileName local) (n_FileName remote))).

Definition valid_media (item : DownloadMedia) : bool :=
  negb (String.eqb (dm_Token item) "") && (0 <? nd_MessageID (dm_Data item)) && (0 <=? nd_FileSize (dm_Data item)).

Fixpoint prepare_items (media : list DownloadMedia) (plans : list downloadPlan) (failures : option goerr) (s : Summary)
    : pgm (list downloadPlan * option goerr * Summary) :=
  match media with
  | [] => Ret (plans, failures, s)
  | item :: media =>
      canceled ← (Prog.call CtxErr : pgm (option goerr));
      match canceled with
      | Some e => prepare_items media plans (errors_Join [failures; Some e]) (add_failed s)
      | None =>
          '(allowed, reason) ← (Prog.call (ShouldHandle (nd_FileName (dm_Data item)) (nd_FileSize (dm_Data item))) : pgm (bool * Reason));
          if negb allowed then
            match reason with
            | ExtensionExcluded | SizeExcluded => prepare_items media plans failures (add_skipped s)
            | _ => prepare_items media plans (errors_Join [failures; Some (NewError "filter unavailable")]) (add_failed s)
            end
          else if negb (valid_media item) then
            prepare_items media plans (errors_Join [failures; Some (NewError "invalid download media metadata")]) (add_failed s)
          else
            plan ← render_plan item;
            if String.eqb (p_fileName plan) "" then
              let cause := match errors_Join [p_localError plan; p_remoteError plan] with
                           | Some e => Wrapped "prepare message" e
                           | None => NewError "prepare message" end in
              prepare_items media plans (errors_Join [failures; Some cause]) (add_failed s)
            else prepare_items media (plans ++ [plan]) failures s
      end
  end.

Definition with_local (plan : downloadPlan) (n : NamingResult) : downloadPlan :=
  mkPlan (p_media plan) n (p_remote plan) (p_localError plan) (p_remoteError plan) (n_FileName n).
Definition with_local_error (plan : downloadPlan) (e : goerr) : downloadPlan :=
  mkPlan (p_media plan) (p_local plan) (p_remote plan) (Some e) (p_remoteError plan) (p_fileName plan).

(** The indexes of the plans with a local target, and what comes back for
    them, in the same order. *)
Fixpoint assign_targets (plans : list downloadPlan) (e : option goerr) (unique : list NamingResult) : list downloadPlan :=
  match plans with
  | [] => []
  | plan :: plans =>
      match p_localError plan, e with
      | Some _, _ => plan :: assign_targets plans e unique
      | None, Some err => with_local_error plan err :: assign_targets plans e unique
      | None, None =>
          match unique with
          | n :: unique => with_local plan n :: assign_targets plans e unique
          | [] => plan :: assign_targets plans e []
          end
      end
  end.
Definition local_targets (plans : list downloadPlan) : list NamingResult :=
  omap (λ plan, match p_localError plan with None => Some (p_local plan) | Some _ => None end) plans.

Definition prepareBatch (media : list DownloadMedia) (s : Summary) : pgm (list downloadPlan * option goerr * Summary) :=
  '(plans, failures, s) ← prepare_items media [] None s;
  let targets := local_targets plans in
  if negb (contains (rt_Executors route) localExecutor) || is_nil targets then Ret (plans, failures, s)
  else
    '(unique, e) ← (Prog.call (UniqueNames targets) : pgm (list NamingResult * option goerr));
    let e := if bool_decide (e = None) && negb (Nat.eqb (length unique) (length targets))
             then Some (NewError "naming returned an invalid target count") else e in
    Ret (assign_targets plans e unique, failures, s).
End prepare.

(** ** [SubmitBatch] *)

Section batch.
Context (account : string) (request : DownloadIntent) (rs : Resources).

(** Up to the pool: the batch returns early or goes on with its plans. *)
Inductive front :=
  | FReturn (s : Summary) (e : option goerr)
  | FPlans (s : Summary) (plans : list downloadPlan) (route : DownloadRoute) (failures : option goerr).

Definition start_summary : Summary := mkSummary (di_Link request) (di_PeerID request) (di_MessageID request) 0 0 0 0 0 [].

Definition submit_front : pgm front :=
  let s := start_summary in
  refused ← (Prog.call Begin : pgm (option goerr));
  match refused with
  | Some e => Ret (FReturn s (Some e))
  | None =>
      if negb (String.eqb (di_Account request) account) || (di_MessageID request <=? 0)
      then Ret (FReturn s (Some (NewError "invalid download intent account or message")))
      else if negb (rs_complete rs) then Ret (FReturn s (Some (NewError "download pipeline resources are unavailable")))
      else
        routed ← batchRoute rs;
        match routed with
        | Err e => Ret (FReturn s (Some e))
        | Ok route =>
            '(media, registration, e) ← (Prog.call Collect : pgm (list DownloadMedia * bool * option goerr));
            match e with
            | Some e => Ret (FReturn s (Some e))
            | None =>
                let total := Z.of_nat (length media) in
                if is_nil media then Ret (FReturn (with_total total 0 s) None)
                else if negb registration
                then Ret (FReturn (with_total total total s) (Some (NewError "download source registration is unavailable")))
                else
                  '(plans, failures, s) ← prepareBatch route rs media (with_total total 0 s);
                  Ret (FPlans s plans route failures)
            end
        end
  end.

(** The tally of the outcomes. *)
Inductive class := Skipped | Queued | Failed | Uncertain.
Definition classify (out : outcome) : class :=
  if dr_Skipped (o_result out) then Skipped
  else if bool_decide (o_err out = None) || negb (String.eqb (dr_ID (o_result out)) "") then Queued
  else if errors_Is_some (o_err out) ErrDownloadNotAccepted then Failed
  else Uncertain.
Definition count_outcome (s : Summary) (out : outcome) : Summary :=
  let s := match classify out with
           | Skipped => add_skipped s
           | Queued => add_queued s
           | Failed => add_failed s
           | Uncertain => add_uncertain s
           end in
  add_link (o_link out) s.
Definition join_outcome (e : option goerr) (out : outcome) : option goerr :=
  match o_err out with Some err => errors_Join [e; Some (Wrapped "message" err)] | None => e end.
Definition tally (s : Summary) (failures : option goerr) (outcomes : list outcome) : Summary * option goerr :=
  (foldl count_outcome s outcomes, foldl join_outcome failures outcomes).

(** A goroutine of the pool. *)
Inductive worker := WIdle | WBusy (index : nat) (p : pgm outcome) | WLeft.
Record pool := mkPool {
  pl_summary : Summary; pl_failures : option goerr; pl_plans : list downloadPlan; pl_route : DownloadRoute;
  pl_indexes : list nat;               (* the channel *)
  pl_workers : list worker;
  pl_outcomes : list outcome;
}.
Definition pool_size (plans : list downloadPlan) : nat := Nat.min (Z.to_nat (Z.max 1 (rs_Limit rs))) (length plans).
Definition start_pool (s : Summary) (plans : list downloadPlan) (route : DownloadRoute) (failures : option goerr) : pool :=
  mkPool s failures plans route (seq 0 (length plans)) (replicate (pool_size plans) WIdle) (replicate (length plans) no_outcome).

Inductive phase :=
  | PFront (p : pgm front)
  | PPool (pl : pool)
  | PReturn (s : Summary) (e : option goerr).

(** [b_log]: every call with its answer, and the item it was made for. *)
Record batch := mkBatch {
  b_ctx : option goerr;
  b_clock : nat;
  b_log : list (option nat * event call ans);
  b_phase : phase;
}.
Definition start_batch : batch := mkBatch None 0 [] (PFront submit_front).

(** The context answers [ctx.Err()]; the other answers come from outside,
    one for every moment. *)
Definition reply (o : nat → ∀ c, ans c) (y : batch) (c : call) : ans c :=
  match c return ans c with
  | CtxErr => b_ctx y
  | c => o (b_clock y) c
  end.
Definition after_call (who : option nat) (ev : event call ans) (ph : phase) (y : batch) : batch :=
  mkBatch (b_ctx y) (S (b_clock y)) (b_log y ++ [(who, ev)]) ph.
Definition in_phase (ph : phase) (y : batch) : batch := mkBatch (b_ctx y) (b_clock y) (b_log y) ph.
Definition set_worker (k : nat) (w : worker) (indexes : list nat) (outcomes : list outcome) (pl : pool) : pool :=
  mkPool (pl_summary pl) (pl_failures pl) (pl_plans pl) (pl_route pl) indexes (<[k := w]> (pl_workers pl)) outcomes.

Inductive label :=
  | LCancel (deadline : bool)     (* the caller's context, or the service stops *)
  | LFront                        (* the next call before the pool *)
  | LWork (k : nat)               (* worker k: takes an index, makes a call, or stores its outcome *)
  | LFinish.                      (* workers.Wait returns *)

Definition work (o : nat → ∀ c, ans c) (k : nat) (pl : pool) (y : batch) : option batch :=
  match pl_workers pl !! k with
  | Some WIdle =>
      match pl_indexes pl with
      | [] => Some (in_phase (PPool (set_worker k WLeft [] (pl_outcomes pl) pl)) y)
      | i :: indexes =>
          plan ← pl_plans pl !! i;
          Some (in_phase (PPool (set_worker k (WBusy i (submitPrepared account rs (pl_route pl) plan)) indexes (pl_outcomes pl) pl)) y)
      end
  | Some (WBusy i (Ret out)) =>
      Some (in_phase (PPool (set_worker k WIdle (pl_indexes pl) (<[i := out]> (pl_outcomes pl)) pl)) y)
  | Some (WBusy i (Call c f)) =>
      let x := reply o y c in
      Some (after_call (Some i) (Ev c x) (PPool (set_worker k (WBusy i (f x)) (pl_indexes pl) (pl_outcomes pl) pl)) y)
  | _ => None
  end.

Definition all_left (pl : pool) : bool := forallb (λ w, match w with WLeft => true | _ => false end) (pl_workers pl).

Definition batch_step (o : nat → ∀ c, ans c) (l : label) (y : batch) : option batch :=
  match l, b_phase y with
  | LCancel deadline, _ =>
      let e := Sentinel (if deadline then DeadlineExceeded else Canceled) in
      Some (mkBatch (Some (default e (b_ctx y))) (b_clock y) (b_log y) (b_phase y))
  | LFront, PFront (Ret (FReturn s e)) => Some (in_phase (PReturn s e) y)
  | LFront, PFront (Ret (FPlans s plans route failures)) => Some (in_phase (PPool (start_pool s plans route failures)) y)
  | LFront, PFront (Call c f) => let x := reply o y c in Some (after_call None (Ev c x) (PFront (f x)) y)
  | LWork k, PPool pl => work o k pl y
  | LFinish, PPool pl =>
      if all_left pl then
        let '(s, e) := tally (pl_summary pl) (pl_failures pl) (pl_outcomes pl) in Some (in_phase (PReturn s e) y)
      else None
  | _, _ => None
  end.
End batch.
