(* ===== verification/SubmissionItem.v ===== *)
(** * One submitted item: what its calls and its outcome say

    The program logic of Prog.v applied to [submitPrepared]: whatever the
    adapters answer, and wherever they panic. *)

From S2P Require Import Prelude Strings TargetPath Naming Storage Prog Submission.
Local Open Scope list_scope.

(** ** The offers in a log *)

(** A definite rejection: no task was created. *)
Definition rejection (x : option (DownloadResult * option goerr)) : bool :=
  match x with
  | Some (r, Some e) => errors_Is e ErrDownloadNotAccepted && String.eqb (dr_ID r) ""
  | _ => false
  end.
(** An executor took the task. *)
Definition acceptance (x : option (DownloadResult * option goerr)) : bool :=
  match x with
  | Some (r, e) => bool_decide (e = None) || negb (String.eqb (dr_ID r) "")
  | None => false
  end.

Definition offer (ev : event call ans) : option (option (DownloadResult * option goerr)) :=
  match ev_call ev as c return ans c → option (option (DownloadResult * option goerr)) with
  | SubmitTo _ _ => Some
  | _ => λ _, None
  end (ev_answer ev).
Definition offers (l : list (event call ans)) : list (option (DownloadResult * option goerr)) := omap offer l.

Definition is_register (ev : event call ans) : bool := match ev_call ev with Register _ _ => true | _ => false end.
Definition is_offer (ev : event call ans) : bool := match ev_call ev with SubmitTo _ _ => true | _ => false end.

(** No executor is asked after one that may have taken the task. *)
Definition one_taker (l : list (event call ans)) : bool := forallb rejection (removelast (offers l)).

(** The state behind [enteredExecutor]: every offer was rejected, or the last
    was not. *)
Definition entered_state (l : list (event call ans)) (entered : bool) : Prop :=
  if entered then ∃ x, last (offers l) = Some x ∧ rejection x = false ∧ one_taker l = true
  else forallb rejection (offers l) = true.

Lemma offers_app l1 l2 : offers (l1 ++ l2) = offers l1 ++ offers l2.
Proof. apply omap_app. Qed.
Lemma offers_other l ev : is_offer ev = false → offers (l ++ [ev]) = offers l.
Proof. intros H. rewrite offers_app. destruct ev as [[] x]; try discriminate H; apply app_nil_r. Qed.
Lemma offers_submit l name request x : offers (l ++ [Ev (SubmitTo name request) x]) = offers l ++ [x].
Proof. apply offers_app. Qed.
Lemma forallb_removelast {A} (f : A → bool) (l : list A) : forallb f l = true → forallb f (removelast l) = true.
Proof.
  induction l as [|a [|b l] IH]; [done..|]. intros [Ha Hl]%andb_true_iff. apply andb_true_iff. split; [done|exact (IH Hl)].
Qed.
Lemma removelast_snoc {A} (l : list A) a : removelast (l ++ [a]) = l.
Proof. rewrite removelast_app by done. cbn. apply app_nil_r. Qed.

Lemma entered_one_taker l b : entered_state l b → one_taker l = true.
Proof. destruct b; [by intros (x & _ & _ & ?)|]. apply forallb_removelast. Qed.
Lemma entered_other l b ev : is_offer ev = false → entered_state l b → entered_state (l ++ [ev]) b.
Proof. intros H. unfold entered_state, one_taker. by rewrite (offers_other _ _ H). Qed.
Lemma one_taker_other l b ev : is_offer ev = false → entered_state l b → one_taker (l ++ [ev]) = true.
Proof. intros H1 H2. eapply entered_one_taker, entered_other; done. Qed.

(** ** Triples *)

Definition triple {A} (m : P A) (l : list (event call ans)) (b : bool) (Q : list (event call ans) → bool → option A → Prop) : Prop :=
  wp (λ l, one_taker l = true) (m b) l (λ l '(b, o), Q l b o).

Lemma triple_ret {A} (a : A) l b (Q : _ → _ → _ → Prop) : Q l b (Some a) → triple (mret a) l b Q.
Proof. done. Qed.
Lemma triple_bind {A B} (m : P A) (k : A → P B) l b Q :
  triple m l b (λ l b o, match o with Some a => triple (k a) l b Q | None => Q l b None end) →
  triple (m ≫= k) l b Q.
Proof.
  intros H. unfold triple. cbn [mbind P_bind]. apply wp_bind. eapply wp_post; [|exact H].
  intros l' [b' [a|]]; done.
Qed.
Lemma triple_post {A} (m : P A) l b (Q R : _ → _ → option A → Prop) :
  (∀ l b o, Q l b o → R l b o) → triple m l b Q → triple m l b R.
Proof. intros H. apply wp_post. intros l' [b' o]. apply H. Qed.
Lemma triple_set b l b' (Q : _ → _ → _ → Prop) : Q l b' (Some tt) → triple (set_entered b') l b Q.
Proof. done. Qed.

(** A call that is no offer keeps the state, whatever it answers. *)
Definition quiet {A} (m : P A) : Prop :=
  ∀ l b (Q : _ → _ → _ → Prop), entered_state l b →
    (∀ l' o, entered_state (l ++ l') b → offers (l ++ l') = offers l → Q (l ++ l') b o) → triple m l b Q.

Lemma quiet_ctx_err : quiet ctx_err.
Proof.
  intros l b Q Hl HQ x. split; [by eapply one_taker_other|]. apply HQ; [by apply entered_other|by apply offers_other].
Qed.
Lemma quiet_register token name : quiet (register token name).
Proof.
  intros l b Q Hl HQ x. split; [by eapply one_taker_other|]. apply HQ; [by apply entered_other|by apply offers_other].
Qed.
Lemma quiet_url id : quiet (get_url id).
Proof.
  intros l b Q Hl HQ x. split; [by eapply one_taker_other|]. apply HQ; [by apply entered_other|by apply offers_other].
Qed.
Lemma quiet_same path size : quiet (same_file path size).
Proof.
  intros l b Q Hl HQ x. split; [by eapply one_taker_other|]. apply HQ; [by apply entered_other|by apply offers_other].
Qed.
Lemma quiet_ensure dir : quiet (ensure_directory dir).
Proof.
  intros l b Q Hl HQ x. split; [by eapply one_taker_other|]. apply HQ; [by apply entered_other|by apply offers_other].
Qed.
Lemma quiet_ret {A} (a : A) : quiet (mret a : P A).
Proof. intros l b Q Hl HQ. apply triple_ret. rewrite <- (app_nil_r l). apply HQ; by rewrite app_nil_r. Qed.
Lemma quiet_if {A} (c : bool) (m n : P A) : quiet m → quiet n → quiet (if c then m else n).
Proof. by destruct c. Qed.

(** ** What an executor's answer means *)

(** Nothing was offered, yet there is a result: the local file is there
    already, or a link is handed out. *)
Definition same_found (l : list (event call ans)) : Prop :=
  ∃ path size, Ev (SameFile path size) (Some (true, None)) ∈ l.
Definition no_task (request : DownloadSubmission) (l : list (event call ans)) (r : DownloadResult) : Prop :=
  (dr_Target r = localExecutor ∧ dr_Skipped r = true ∧ same_found l) ∨
  (dr_Target r = httpExecutor ∧ dr_Skipped r = false ∧ dr_ID r ≠ "" ∧ ds_DownloadURL request ≠ "").

Definition settled (final : bool) (request : DownloadSubmission) (l : list (event call ans)) (b : bool)
    (o : option (DownloadResult * option goerr)) : Prop :=
  entered_state l b ∧
  match o with
  | None => b = true → last (offers l) = Some None
  | Some (r, e) =>
      if b then last (offers l) = Some (Some (r, e))
      else match e with
           | None => no_task request l r
           | Some e => r = no_download ∨ final = false ∧ dr_ID r = "" ∧ errors_Is e ErrDownloadNotAccepted = true
           end
  end.

Lemma settled_none final request l : entered_state l false → settled final request l false None.
Proof. by split. Qed.
Lemma settled_refused final request l e : entered_state l false → settled final request l false (Some (no_download, Some e)).
Proof. split; [done|]. by left. Qed.

Lemma join_rejected e : ∃ j, errors_Join [e; Some not_accepted] = Some j ∧ errors_Is j ErrDownloadNotAccepted = true.
Proof.
  destruct e as [e|]; cbn; eexists; (split; [reflexivity|]); cbn.
  - by rewrite orb_true_r.
  - reflexivity.
Qed.

Section item.
Context (account : string) (rs : Resources) (route : DownloadRoute).

Lemma enter_spec name request orig l :
  entered_state l false →
  triple (enter_executor rs name request) l false (settled false orig).
Proof.
  intros Hl. unfold enter_executor. destruct (contains _ _); [|by apply triple_ret, settled_refused].
  apply triple_bind, quiet_ctx_err; [done|]. intros l1 [[e|]|] Hl1 _; [| |by apply settled_none].
  { apply triple_ret. destruct (join_rejected (Some e)) as (j & -> & _). by apply settled_refused. }
  apply triple_bind, triple_set, triple_bind. intros x.
  set (l2 := _ ++ [Ev (SubmitTo name request) x]).
  assert (Hone : one_taker l2 = true) by (unfold l2, one_taker; by rewrite offers_submit, removelast_snoc).
  assert (Hlast : last (offers l2) = Some x) by (unfold l2; rewrite offers_submit; apply last_snoc).
  assert (Hent : entered_state l2 (negb (rejection x))).
  { destruct (rejection x) eqn:Hx; cbn; [|by exists x].
    unfold l2. rewrite offers_submit, forallb_app, Hl1. cbn. by rewrite Hx. }
  split; [done|]. destruct x as [[r [e|]]|]; cbn [rejection negb] in Hent.
  - cbn. destruct (errors_Is e _ && _) eqn:Hr; (split; [done|]); [|done].
    right. apply andb_true_iff in Hr as [? ?%String.eqb_eq]. done.
  - cbn. by split.
  - cbn. by split.
Qed.

Lemma link_spec final request l : entered_state l false → triple (link_submit request) l false (settled final request).
Proof.
  intros Hl. unfold link_submit. apply triple_bind, quiet_ctx_err; [done|].
  intros l1 [[e|]|] Hl1 _; [by apply triple_ret, settled_refused| |by apply settled_none].
  destruct (_ || _) eqn:Hb; apply triple_ret; [by apply settled_refused|].
  apply orb_false_iff in Hb as [Hurl%String.eqb_neq Hid%String.eqb_neq]. split; [done|]. right. done.
Qed.

Lemma same_or_skip (c : bool) path size l b (Q : _ → _ → _ → Prop) :
  entered_state l b →
  (∀ l' o, entered_state (l ++ l') b → (o = Some (true, None) → same_found (l ++ l')) → Q (l ++ l') b o) →
  triple (if c then same_file path size else mret (false, None)) l b Q.
Proof.
  intros Hl HQ. destruct c.
  - intros x. split; [by eapply one_taker_other|]. apply HQ; [by apply entered_other|].
    intros ->. exists path, size. set_solver.
  - apply triple_ret. rewrite <- (app_nil_r l). apply HQ; [by rewrite app_nil_r|done].
Qed.

Lemma batch_spec plan url urlError name request l :
  entered_state l false →
  triple (batch_submit account rs plan (ds_TaskID request) url urlError name request) l false (settled false request).
Proof.
  intros Hl. unfold batch_submit. destruct (String.eqb name localExecutor).
  - unfold batch_local. destruct (p_localError plan); [by apply triple_ret, settled_refused|].
    apply triple_bind, same_or_skip; [done|].
    intros l1 [[[] [e|]]|] Hl1 Hsame;
      [by apply triple_ret, settled_refused|apply triple_ret; split; [done|by left; auto]|by apply triple_ret, settled_refused|
       |by apply settled_none].
    destruct (negb _); [by apply triple_ret, settled_refused|].
    apply triple_bind, quiet_ensure; [done|]. intros l2 [[e|]|] Hl2 _;
      [by apply triple_ret, settled_refused|by apply enter_spec|by apply settled_none].
  - unfold batch_remote. destruct (_ || _); [by apply triple_ret, settled_refused|].
    destruct (String.eqb name httpExecutor); [by apply link_spec|].
    destruct (p_remoteError plan); [by apply triple_ret, settled_refused|by apply enter_spec].
Qed.

Lemma try_spec plan url urlError request names rejected l :
  entered_state l false →
  triple (try_executors (map (λ name, Some (name, batch_submit account rs plan (ds_TaskID request) url urlError name)) names)
            request rejected) l false (settled true request).
Proof.
  revert l rejected. induction names as [|name names IH]; intros l rejected Hl; cbn [map try_executors].
  { by apply triple_ret, settled_refused. }
  apply triple_bind, quiet_ctx_err; [done|].
  intros l1 [[e|]|] Hl1 _; [by apply triple_ret, settled_refused| |by apply settled_none].
  apply triple_bind. eapply triple_post; [|by apply batch_spec].
  intros l2 b [[r [e|]]|] Hs; [|apply triple_ret; by destruct Hs|by destruct Hs].
  destruct b.
  - (* an executor was entered *)
    destruct Hs as [Hs Hlast]. assert (Hr : rejection (Some (r, Some e)) = false).
    { destruct Hs as (x & Hx & Hr & _). congruence. }
    cbn [rejection] in Hr. destruct (errors_Is e _); [|by apply triple_ret].
    cbn [andb negb] in Hr |- *. rewrite Hr. by apply triple_ret.
  - destruct Hs as [Hs [->|(_ & Hid & He)]].
    + cbn [dr_ID no_download String.eqb negb]. destruct (errors_Is e _); [by apply IH|by apply triple_ret, settled_refused].
    + rewrite He, Hid. by apply IH.
Qed.

(** ** The outcome *)

(** What the class of an outcome says about the calls: [Failed] leaves no
    task behind, [Uncertain] may have, and the others name what they found. *)
Definition verdict (l : list (event call ans)) (out : outcome) : Prop :=
  one_taker l = true ∧
  match classify out with
  | Failed => forallb rejection (offers l) = true
  | Uncertain => ∃ x, last (offers l) = Some x ∧ rejection x = false ∧ acceptance x = false
  | Queued => (∃ x, last (offers l) = Some x ∧ acceptance x = true) ∨
              forallb rejection (offers l) = true ∧ dr_Target (o_result out) = httpExecutor ∧ gl_URL (o_link out) ≠ ""
  | Skipped => (∃ r e, last (offers l) = Some (Some (r, e)) ∧ dr_Skipped r = true) ∨
               forallb rejection (offers l) = true ∧ same_found l
  end.

Lemma verdict_rejected l link e : entered_state l false → verdict l (mkOutcome no_download link (errors_Join [e; Some not_accepted])).
Proof.
  intros Hl. destruct (join_rejected e) as (j & -> & Hj). split; [by eapply entered_one_taker|].
  unfold classify. cbn. by rewrite Hj.
Qed.

(** The answer of the last offer decides the class. *)
Lemma verdict_entered l r e link :
  entered_state l true → last (offers l) = Some (Some (r, e)) → verdict l (mkOutcome r link e).
Proof.
  intros (x & Hx & Hr & Hone) Hl. rewrite Hl in Hx. apply (inj Some) in Hx as <-. split; [done|].
  unfold classify. cbn [o_result o_err]. destruct (dr_Skipped r) eqn:Hs; [left; by exists r, e|].
  destruct (bool_decide (e = None) || _) eqn:Ha; [left; exists (Some (r, e)); split; [done|exact Ha]|].
  destruct (errors_Is_some e _) eqn:He.
  - exfalso. apply orb_false_iff in Ha as [Ha1 Ha2]. destruct e as [e|]; [|done]. cbn in Hr, He.
    rewrite He in Hr. cbn in Hr. by rewrite Hr in Ha2.
  - exists (Some (r, e)). done.
Qed.

Lemma outcome_spec plan request result e l b :
  settled true request l b (Some (result, e)) →
  triple (item_outcome plan (ds_DownloadURL request) result e) l b
    (λ l b o, match o with Some out => verdict l out | None => False end).
Proof.
  intros [Hl Hs]. unfold item_outcome, triple. cbn [wp]. destruct b.
  - rewrite andb_false_r. by apply verdict_entered.
  - rewrite andb_true_r. destruct e as [e|].
    + destruct Hs as [->|[? _]]; [|done]. by apply verdict_rejected.
    + destruct Hs as [(Ht & Hk & Hf)|(Ht & Hk & Hid & Hu)].
      * split; [by eapply entered_one_taker|]. unfold classify. cbn [o_result]. rewrite Hk. right. done.
      * split; [by eapply entered_one_taker|]. unfold classify. cbn [o_result o_err]. rewrite Hk. cbn. right.
        rewrite Ht. done.
Qed.

Lemma item_spec plan l :
  offers l = [] →
  triple (submit_item account rs route plan) l false
    (λ l b o, match o with Some out => verdict l out
              | None => entered_state l b ∧ (b = true → last (offers l) = Some None) end).
Proof.
  intros Hl0. assert (Hl : entered_state l false) by (cbn; by rewrite Hl0). clear Hl0. unfold submit_item.
  apply triple_bind, quiet_ctx_err; [done|]. intros l1 [[ctxError|]|] Hl1 _; [by apply triple_ret, verdict_rejected| |by split].
  apply triple_bind, quiet_register; [done|]. intros l2 [[id regError]|] Hl2 _; [|by split].
  destruct (_ || String.eqb id "") .
  { apply triple_ret. split; [by eapply entered_one_taker|]. done. }
  apply triple_bind, (quiet_if _ _ _ (quiet_url _) (quiet_ret _)); [done|].
  intros l3 [[url urlError]|] Hl3 _; [|by split]. cbn [fst snd].
  set (request := mkSubmission account id url "" "" "").
  apply triple_bind. eapply triple_post with (Q := settled true request).
  - intros l4 b [[r e]|] Hs.
    + eapply triple_post; [|by apply (outcome_spec plan request)]. by intros l5 b' [out|].
    + by destruct Hs.
  - unfold router_submit. destruct (negb _); [by apply triple_ret, settled_refused|]. by apply (try_spec plan url urlError request).
Qed.

Lemma prepared_verdict plan :
  wp (λ l, one_taker l = true) (submitPrepared account rs route plan) [] verdict.
Proof.
  apply wp_bind. eapply wp_post; [|by apply item_spec]. intros l [b [out|]]; [done|]. intros [Hl Hp].
  destruct b; [|by apply verdict_rejected]. cbn. specialize (Hp eq_refl). destruct Hl as (x & Hx & Hr & Hone).
  split; [done|]. rewrite Hp in Hx. apply (inj Some) in Hx as <-. exists None. done.
Qed.

Lemma prepared_reaches plan l p :
  reaches (submitPrepared account rs route plan) l p →
  one_taker l = true ∧ ∀ out, p = Ret out → verdict l out.
Proof.
  intros H. destruct (wp_reaches (λ l, one_taker l = true) _ _ [] _ verdict eq_refl (prepared_verdict plan) H) as [H1 H2].
  split; [exact H1|]. by intros out ->.
Qed.
End item.
