(* ===== verification/SubmissionProps.v ===== *)
(** * Theorems about download submission

    The batch machine of Submission.v: its accounting, the pool's invariant,
    which items may have made a task, and that every batch returns. *)

From S2P Require Import Prelude Lts Strings TargetPath Naming NamingProps Storage Prog Submission SubmissionItem.
Local Open Scope list_scope.

(** ** Accounting before the pool *)

Definition counted (s : Summary) : Z := s_Queued s + s_Skipped s + s_Failed s + s_Uncertain s.
Definition balanced (s : Summary) (pending : nat) : Prop := s_Total s = counted s + Z.of_nat pending.
Definition front_balanced (f : front) : Prop :=
  match f with FReturn s _ => balanced s 0 | FPlans s plans _ _ => balanced s (length plans) end.

Lemma prepare_items_counts route rs media plans failures s l :
  wp (λ _, True) (prepare_items route rs media plans failures s) l
    (λ _ '(plans', _, s'), s_Total s' = s_Total s ∧
       counted s' + Z.of_nat (length plans') = counted s + Z.of_nat (length plans) + Z.of_nat (length media)).
Proof.
  revert plans failures s l. induction media as [|item media IH]; intros plans failures s l; [cbn; lia|].
  assert (Hf : ∀ e l, wp (λ _, True) (prepare_items route rs media plans e (add_failed s)) l
    (λ _ '(plans', _, s'), s_Total s' = s_Total s ∧
       counted s' + Z.of_nat (length plans') = counted s + Z.of_nat (length plans) + Z.of_nat (length (item :: media)))).
  { intros e l'. eapply wp_post; [|apply IH]. intros _ [[ps e'] s']. unfold counted. cbn. lia. }
  assert (Hk : ∀ e l, wp (λ _, True) (prepare_items route rs media plans e (add_skipped s)) l
    (λ _ '(plans', _, s'), s_Total s' = s_Total s ∧
       counted s' + Z.of_nat (length plans') = counted s + Z.of_nat (length plans) + Z.of_nat (length (item :: media)))).
  { intros e l'. eapply wp_post; [|apply IH]. intros _ [[ps e'] s']. unfold counted. cbn. lia. }
  cbn [prepare_items]. intros [e|]; (split; [done|]); [apply Hf|]. intros [[] reason]; (split; [done|]); cbn [negb].
  - destruct (negb (valid_media item)); [apply Hf|]. apply wp_bind. eapply wp_post; [|apply wp_true].
    intros l1 plan _. destruct (String.eqb (p_fileName plan) ""); [apply Hf|].
    eapply wp_post; [|apply IH]. intros _ [[ps e'] s']. rewrite length_app. cbn. lia.
  - destruct reason; solve [apply Hf|apply Hk].
Qed.

Lemma assign_targets_length plans e unique : length (assign_targets plans e unique) = length plans.
Proof.
  revert unique. induction plans as [|plan plans IH]; intros unique; [done|]. cbn.
  destruct (p_localError plan), e, unique; cbn; by rewrite IH.
Qed.

Lemma prepareBatch_counts route rs media s l :
  wp (λ _, True) (prepareBatch route rs media s) l
    (λ _ '(plans, _, s'), s_Total s' = s_Total s ∧
       counted s' + Z.of_nat (length plans) = counted s + Z.of_nat (length media)).
Proof.
  apply wp_bind. eapply wp_post; [|apply prepare_items_counts]. intros l1 [[plans failures] s'] H. cbn in H.
  cbv zeta beta iota. destruct (negb (contains _ _) || _); [cbn; lia|]. intros [unique e]. split; [done|]. cbn. rewrite assign_targets_length. lia.
Qed.

Lemma front_counts account request rs : wp (λ _, True) (submit_front account request rs) [] (λ _ f, front_balanced f).
Proof.
  intros [e|]; (split; [done|]); [done|]. cbn -[prepareBatch batchRoute balanced].
  destruct (_ || _); [done|]. destruct (negb _); [done|]. apply wp_bind. eapply wp_post; [|apply wp_true].
  intros l1 [route|e] _; [|done]. intros [[media registration] [e|]]; (split; [done|]); [done|].
  destruct (is_nil media) eqn:Hn; [destruct media; done|].
  destruct registration; cbn [negb]; [|cbn; unfold balanced, counted; cbn; lia].
  apply wp_bind. eapply wp_post; [|apply prepareBatch_counts]. intros l2 [[plans failures] s] [Ht Hc].
  cbn. unfold balanced. rewrite Ht. unfold counted in *. cbn in *. lia.
Qed.

Lemma tally_counts s failures outcomes n :
  balanced s (n + length outcomes) → balanced (tally s failures outcomes).1 n.
Proof.
  unfold tally. cbn [fst]. revert s. induction outcomes as [|out outcomes IH]; intros s H; cbn [foldl].
  { cbn in H. by rewrite Nat.add_0_r in H. }
  apply IH. unfold balanced, counted, count_outcome, add_link in *. cbn [length] in H.
  destruct (classify out), (String.eqb (gl_URL (o_link out)) ""); cbn in *; lia.
Qed.

(** ** The pool *)

Definition item_log (i : nat) (l : list (option nat * event call ans)) : list (event call ans) :=
  omap (λ '(who, ev), match who with Some j => if Nat.eqb i j then Some ev else None | None => None end) l.
Definition index_of (w : worker) : option nat := match w with WBusy i _ => Some i | _ => None end.
Definition busy (ws : list worker) : list nat := omap index_of ws.

Lemma item_log_same i l ev : item_log i (l ++ [(Some i, ev)]) = item_log i l ++ [ev].
Proof. unfold item_log. rewrite omap_app. cbn. by rewrite Nat.eqb_refl. Qed.
Lemma item_log_other i j l ev : i ≠ j → item_log i (l ++ [(Some j, ev)]) = item_log i l.
Proof. intros H. unfold item_log. rewrite omap_app. cbn. apply Nat.eqb_neq in H as ->. apply app_nil_r. Qed.
Lemma item_log_front i l ev : item_log i (l ++ [(None, ev)]) = item_log i l.
Proof. unfold item_log. rewrite omap_app. apply app_nil_r. Qed.

(** Replacing the worker at a position: the rest stays. *)
Lemma busy_at ws k w : ws !! k = Some w → busy ws ≡ₚ option_list (index_of w) ++ busy (delete k ws).
Proof.
  intros H. unfold busy. rewrite (delete_Permutation ws k w H) at 1. cbn. by destruct (index_of w).
Qed.
Lemma delete_insert_list (ws : list worker) k w : delete k (<[k := w]> ws) = delete k ws.
Proof. revert k. induction ws as [|v ws IH]; intros [|k]; try done. exact (f_equal (cons v) (IH k)). Qed.
Lemma busy_set ws k w w' :
  ws !! k = Some w → busy (<[k := w']> ws) ≡ₚ option_list (index_of w') ++ busy (delete k ws).
Proof.
  intros H. rewrite (busy_at _ k w'), delete_insert_list; [done|]. apply list_lookup_insert_eq. by eapply lookup_lt_Some.
Qed.
Lemma busy_elsewhere ws k k' j p : ws !! k' = Some (WBusy j p) → k' ≠ k → j ∈ busy (delete k ws).
Proof.
  intros H Hk. apply list_elem_of_omap. exists (WBusy j p). split; [|done]. apply list_elem_of_lookup.
  destruct (decide (k' < k)%nat) as [Hlt|Hge].
  - exists k'. by rewrite list_lookup_delete_lt.
  - destruct k' as [|k']; [lia|]. exists k'. rewrite list_lookup_delete_ge by lia. done.
Qed.

Section batch.
Context (account : string) (request : DownloadIntent) (rs : Resources) (o : nat → ∀ c, ans c).

Record pool_ok (log : list (option nat * event call ans)) (pl : pool) : Prop := {
  ok_nodup : NoDup (pl_indexes pl ++ busy (pl_workers pl));
  ok_range i : i ∈ pl_indexes pl ++ busy (pl_workers pl) → (i < length (pl_plans pl))%nat;
  ok_size : length (pl_workers pl) = pool_size rs (pl_plans pl);
  ok_length : length (pl_outcomes pl) = length (pl_plans pl);
  ok_left k : pl_workers pl !! k = Some WLeft → pl_indexes pl = [];
  ok_fresh i : i ∈ pl_indexes pl ∨ (length (pl_plans pl) ≤ i)%nat → item_log i log = [];
  ok_running k i p : pl_workers pl !! k = Some (WBusy i p) →
    ∃ plan, pl_plans pl !! i = Some plan ∧ reaches (submitPrepared account rs (pl_route pl) plan) (item_log i log) p;
  ok_done i plan : pl_plans pl !! i = Some plan → i ∉ pl_indexes pl ++ busy (pl_workers pl) →
    ∃ out, pl_outcomes pl !! i = Some out ∧
      reaches (submitPrepared account rs (pl_route pl) plan) (item_log i log) (Ret out);
}.

(** The indexes not finished, however the workers hold them. *)
Lemma pending_take i indexes k ws p :
  ws !! k = Some WIdle → i :: indexes ++ busy ws ≡ₚ indexes ++ busy (<[k := WBusy i p]> ws).
Proof.
  intros H. rewrite (busy_at _ _ _ H), (busy_set _ _ _ (WBusy i p) H). cbn. apply Permutation_middle.
Qed.
Lemma pending_same indexes k ws w w' :
  ws !! k = Some w → index_of w' = index_of w → indexes ++ busy ws ≡ₚ indexes ++ busy (<[k := w']> ws).
Proof. intros H Hi. by rewrite (busy_at _ _ _ H), (busy_set _ _ _ w' H), Hi. Qed.
Lemma pending_drop indexes k ws i p :
  ws !! k = Some (WBusy i p) → indexes ++ busy ws ≡ₚ i :: indexes ++ busy (<[k := WIdle]> ws).
Proof. intros H. rewrite (busy_at _ _ _ H), (busy_set _ _ _ WIdle H). cbn. symmetry. apply Permutation_middle. Qed.

Lemma leave_ok log pl k :
  pool_ok log pl → pl_workers pl !! k = Some WIdle → pl_indexes pl = [] →
  pool_ok log (set_worker k WLeft [] (pl_outcomes pl) pl).
Proof.
  intros H Hw Hi. pose proof (pending_same [] k (pl_workers pl) WIdle WLeft Hw eq_refl) as Hp. destruct H. rewrite Hi in *.
  constructor; cbn [set_worker pl_indexes pl_workers pl_plans pl_outcomes pl_route app] in *; try done.
  - by rewrite <- Hp.
  - intros i. rewrite <- Hp. apply ok_range0.
  - by rewrite length_insert.
  - intros k' i p. intros [(-> & E & _)|[Hne E]]%list_lookup_insert_Some; [done|]. by eapply ok_running0.
  - intros i plan Hpl. rewrite <- Hp. by apply ok_done0.
Qed.

Lemma take_ok log pl k i indexes plan :
  pool_ok log pl → pl_workers pl !! k = Some WIdle → pl_indexes pl = i :: indexes → pl_plans pl !! i = Some plan →
  pool_ok log (set_worker k (WBusy i (submitPrepared account rs (pl_route pl) plan)) indexes (pl_outcomes pl) pl).
Proof.
  intros H Hw Hi Hplan.
  pose proof (pending_take i indexes k (pl_workers pl) (submitPrepared account rs (pl_route pl) plan) Hw) as Hp.
  destruct H. rewrite Hi in *.
  constructor; cbn [set_worker pl_indexes pl_workers pl_plans pl_outcomes pl_route app] in *; try done.
  - by rewrite <- Hp.
  - intros j. rewrite <- Hp. apply ok_range0.
  - by rewrite length_insert.
  - intros k' [(-> & E & _)|[Hne E]]%list_lookup_insert_Some; [done|]. by eapply ok_left0 in E.
  - intros j [Hj|Hj]; apply ok_fresh0; [left; by right|by right].
  - intros k' j p [(-> & E & _)|[Hne E]]%list_lookup_insert_Some; [|by eapply ok_running0].
    injection E as <- <-. exists plan. split; [done|]. rewrite ok_fresh0 by (left; left). constructor.
  - intros j plan' Hpl. rewrite <- Hp. by apply ok_done0.
Qed.

Lemma store_ok log pl k i out :
  pool_ok log pl → pl_workers pl !! k = Some (WBusy i (Ret out)) →
  pool_ok log (set_worker k WIdle (pl_indexes pl) (<[i := out]> (pl_outcomes pl)) pl).
Proof.
  intros H Hw. pose proof (pending_drop (pl_indexes pl) k (pl_workers pl) i (Ret out) Hw) as Hp. destruct H.
  assert (Hi : (i < length (pl_plans pl))%nat) by (apply ok_range0; rewrite Hp; left).
  assert (Hn : NoDup (i :: pl_indexes pl ++ busy (<[k := WIdle]> (pl_workers pl)))) by by rewrite <- Hp.
  apply NoDup_cons in Hn as [Hi1 Hn].
  constructor; cbn [set_worker pl_indexes pl_workers pl_plans pl_outcomes pl_route app] in *; try done.
  - intros j Hj. apply ok_range0. rewrite Hp. by right.
  - by rewrite length_insert.
  - by rewrite length_insert.
  - intros k' [(-> & E & _)|[Hne E]]%list_lookup_insert_Some; [done|]. by eapply ok_left0.
  - intros k' j p [(-> & E & _)|[Hne E]]%list_lookup_insert_Some; [done|]. by eapply ok_running0.
  - intros j plan Hpl Hj. destruct (decide (j = i)) as [->|Hne].
    + exists out. split; [by apply list_lookup_insert_eq; rewrite ok_length0|].
      destruct (ok_running0 _ _ _ Hw) as (plan' & Hpl' & Hr). congruence.
    + rewrite list_lookup_insert_ne by done. apply ok_done0; [done|]. rewrite Hp. intros [->|?]%elem_of_cons; done.
Qed.

Lemma answer_call_ok log pl k i c f x :
  pool_ok log pl → pl_workers pl !! k = Some (WBusy i (Call c f)) →
  pool_ok (log ++ [(Some i, Ev c x)]) (set_worker k (WBusy i (f x)) (pl_indexes pl) (pl_outcomes pl) pl).
Proof.
  intros H Hw. pose proof (pending_same (pl_indexes pl) k (pl_workers pl) _ (WBusy i (f x)) Hw eq_refl) as Hp. destruct H.
  assert (Hi : i ∈ pl_indexes pl ++ busy (pl_workers pl)).
  { apply elem_of_app. right. rewrite (busy_at _ _ _ Hw). left. }
  assert (Hn := ok_nodup0). rewrite (busy_at _ _ _ Hw) in Hn. cbn in Hn.
  rewrite <- Permutation_middle in Hn. apply NoDup_cons in Hn as [Hi1 _].
  constructor; cbn [set_worker pl_indexes pl_workers pl_plans pl_outcomes pl_route app] in *; try done.
  - by rewrite <- Hp.
  - intros j. rewrite <- Hp. apply ok_range0.
  - by rewrite length_insert.
  - intros k' [(-> & E & _)|[Hne E]]%list_lookup_insert_Some; [done|]. by eapply ok_left0.
  - intros j Hj. rewrite item_log_other; [by apply ok_fresh0|]. intros ->. destruct Hj as [Hj|Hj].
    + apply Hi1, elem_of_app. by left.
    + apply ok_range0 in Hi. lia.
  - intros k' j p [(-> & E & _)|[Hne E]]%list_lookup_insert_Some.
    + injection E as <- <-. destruct (ok_running0 _ _ _ Hw) as (plan & Hpl & Hr). exists plan. split; [done|].
      rewrite item_log_same. by apply reaches_snoc.
    + rewrite item_log_other; [by eapply ok_running0|]. intros ->. apply Hi1, elem_of_app. right. by eapply busy_elsewhere.
  - intros j plan Hpl. rewrite <- Hp. intros Hj. rewrite item_log_other by (intros ->; done). by apply ok_done0.
Qed.
End batch.

(** ** The whole call *)

Section run.
Context (account : string) (request : DownloadIntent) (rs : Resources) (o : nat → ∀ c, ans c).
Abbreviation step := (batch_step account rs o).
Abbreviation begin := (start_batch account request rs).
Abbreviation logs := (list (option nat * event call ans)).

Definition batch_ok (y : batch) : Prop :=
  match b_phase y with
  | PFront p => (∃ l, wp (λ _, True) p l (λ _ f, front_balanced f)) ∧ ∀ i, item_log i (b_log y) = []
  | PPool pl => pool_ok account rs (b_log y) pl ∧ balanced (pl_summary pl) (length (pl_plans pl))
  | PReturn s _ => balanced s 0
  end ∧ ∀ i, one_taker (item_log i (b_log y)) = true.

Lemma start_pool_ok s plans route failures (l : logs) :
  (∀ i, item_log i l = []) → pool_ok account rs l (start_pool rs s plans route failures).
Proof.
  intros Hl. assert (Hb : busy (replicate (pool_size rs plans) WIdle) = []) by (by induction (pool_size rs plans)).
  constructor; cbn [start_pool pl_indexes pl_workers pl_plans pl_outcomes pl_route]; rewrite ?Hb, ?app_nil_r.
  - apply NoDup_seq.
  - intros i Hi%elem_of_seq. lia.
  - apply length_replicate.
  - apply length_replicate.
  - intros k [E _]%lookup_replicate_1. done.
  - intros i _. apply Hl.
  - intros k i p [E _]%lookup_replicate_1. done.
  - intros i plan Hp%lookup_lt_Some Hi. exfalso. apply Hi, elem_of_seq. lia.
Qed.

Lemma start_ok : batch_ok begin.
Proof. split; [|done]. split; [|done]. exists []. apply front_counts. Qed.

Lemma all_left_done (l : logs) pl :
  pool_ok account rs l pl → all_left pl = true → pl_indexes pl ++ busy (pl_workers pl) = [].
Proof.
  intros H Hl. assert (Hw : ∀ w, w ∈ pl_workers pl → w = WLeft).
  { intros w Hw. unfold all_left in Hl. rewrite forallb_forall in Hl. apply list_elem_of_In in Hw. specialize (Hl w Hw). by destruct w. }
  assert (Hb : busy (pl_workers pl) = []).
  { revert Hw. generalize (pl_workers pl). intros ws. induction ws as [|w ws IH]; intros Hw; [done|].
    rewrite (Hw w) by left. apply IH. intros w' Hw'. apply Hw. by right. }
  rewrite Hb, app_nil_r. destruct (pl_workers pl) as [|w ws] eqn:Hws.
  - pose proof (ok_size _ _ _ _ H) as Hs. rewrite Hws in Hs. cbn in Hs. unfold pool_size in Hs.
    destruct (pl_indexes pl) as [|i rest] eqn:Hi; [done|].
    pose proof (ok_range _ _ _ _ H i) as Hr. rewrite Hi in Hr. specialize (Hr ltac:(left)). lia.
  - eapply (ok_left _ _ _ _ H 0%nat). rewrite Hws. cbn. f_equal. apply Hw. left.
Qed.

Lemma work_ok k pl y y' :
  b_phase y = PPool pl → batch_ok y → work account rs o k pl y = Some y' → batch_ok y'.
Proof.
  unfold batch_ok at 1. intros -> [[H Hbal] Ht]. unfold work. destruct (pl_workers pl !! k) as [[|i [out|c f]|]|] eqn:Hw; try done.
  - destruct (pl_indexes pl) as [|i indexes] eqn:Hi.
    + intros [= <-]. split; [|done]. split; [by apply leave_ok|done].
    + intros (plan & Hplan & [= <-])%bind_Some. split; [|done]. split; [by eapply take_ok|done].
  - intros [= <-]. split; [|done]. split; [by apply store_ok|done].
  - intros E. apply (inj Some) in E. subst y'. set (x := reply o y c). pose proof (answer_call_ok _ _ _ _ _ _ _ _ x H Hw) as H'.
    split; [split; [exact H'|done]|]. cbn [after_call b_log]. intros j. destruct (decide (j = i)) as [->|Hne].
    + destruct (ok_running _ _ _ _ H' k i (f x)) as (plan & _ & Hr).
      { cbn. apply list_lookup_insert_eq. by eapply lookup_lt_Some. }
      exact (proj1 (prepared_reaches _ _ _ _ _ _ Hr)).
    + by rewrite item_log_other.
Qed.

Lemma batch_step_ok l y y' : batch_ok y → step l y = Some y' → batch_ok y'.
Proof.
  intros Hy. destruct l as [deadline| |k|]; cbn [batch_step].
  - intros [= <-]. exact Hy.
  - destruct (b_phase y) as [p|pl|s e] eqn:Hph; try done. unfold batch_ok in Hy. rewrite Hph in Hy.
    destruct Hy as [[[l Hw] Hl] Ht]. destruct p as [[s e|s plans route failures]|c f].
    + intros [= <-]. by split.
    + intros [= <-]. split; [|done]. split; [by apply start_pool_ok|exact Hw].
    + intros E. apply (inj Some) in E. subst y'. destruct (Hw (reply o y c)) as [_ Hw']. split.
      * split; [by eexists|]. intros i. cbn [after_call b_log]. rewrite item_log_front. apply Hl.
      * intros i. cbn [after_call b_log]. rewrite item_log_front. apply Ht.
  - destruct (b_phase y) as [|pl|] eqn:Hph; try done. by apply work_ok.
  - destruct (b_phase y) as [|pl|] eqn:Hph; try done. destruct (all_left pl) eqn:Hl; [|done]. intros [= <-].
    unfold batch_ok in Hy. rewrite Hph in Hy. destruct Hy as [[H Hb] Ht]. split; [|done].
    apply (tally_counts _ (pl_failures pl)). rewrite (ok_length _ _ _ _ H). exact Hb.
Qed.

Lemma batch_run_ok ls y : steps step ls begin = Some y → batch_ok y.
Proof. apply steps_inv; [apply batch_step_ok|apply start_ok]. Qed.

(** C8: However the goroutines of a batch interleave, whatever the adapters
    answer, wherever they panic and whenever the context is canceled: no item
    is offered to a further executor once one may have taken it, at most
    [max(1, Limit)] items are in work at a time, and when [SubmitBatch]
    returns, every collected medium is counted exactly once as queued,
    skipped, failed or uncertain. *)
Theorem batch_submission_safe ls y :
  steps step ls begin = Some y →
  (∀ i, one_taker (item_log i (b_log y)) = true) ∧
  (∀ pl, b_phase y = PPool pl → Z.of_nat (length (busy (pl_workers pl))) ≤ Z.max 1 (rs_Limit rs)) ∧
  (∀ s e, b_phase y = PReturn s e → s_Total s = s_Queued s + s_Skipped s + s_Failed s + s_Uncertain s).
Proof.
  intros Hr%batch_run_ok. destruct Hr as [Hp Ht]. split_and!; [done|intros pl E|intros s e E]; rewrite E in Hp.
  - destruct Hp as [H _]. pose proof (ok_size _ _ _ _ H) as Hs. unfold pool_size in Hs.
    assert (length (busy (pl_workers pl)) ≤ length (pl_workers pl))%nat; [|lia].
    generalize (pl_workers pl). intros ws. induction ws as [|w ws IH]; [done|]. unfold busy in *. cbn.
    destruct (index_of w); cbn; lia.
  - unfold balanced, counted in Hp. lia.
Qed.

(** C9: When the pool of a batch has drained, the counted class of every
    item tells the truth about its calls: an item counted as failed was
    definitely rejected by every executor it was offered to, so submitting it
    again cannot make a second task; an uncertain one met an answer that is
    neither acceptance nor rejection, or a panic inside an executor; a queued
    one was accepted or got its link. *)
Theorem batch_classes ls y y' pl i plan :
  steps step ls begin = Some y → b_phase y = PPool pl → step LFinish y = Some y' → pl_plans pl !! i = Some plan →
  ∃ out, pl_outcomes pl !! i = Some out ∧ verdict (item_log i (b_log y)) out.
Proof.
  intros Hr%batch_run_ok Hph. cbn [batch_step]. rewrite Hph. destruct (all_left pl) eqn:Hl; [|done]. intros _ Hplan.
  unfold batch_ok in Hr. rewrite Hph in Hr. destruct Hr as [[H _] _].
  destruct (ok_done _ _ _ _ H i plan Hplan) as (out & Hout & Hreach).
  { rewrite (all_left_done _ _ H Hl). apply not_elem_of_nil. }
  exists out. split; [done|]. by apply (prepared_reaches _ _ _ _ _ _ Hreach).
Qed.

(** *** Returning *)

Definition leads (y : batch) (Q : batch → Prop) : Prop := ∃ ls y', steps step ls y = Some y' ∧ Q y'.
Lemma leads_here y (Q : batch → Prop) : Q y → leads y Q.
Proof. intros H. exists [], y. done. Qed.
Lemma leads_step l y y1 Q : step l y = Some y1 → leads y1 Q → leads y Q.
Proof. intros H (ls & y' & Hs & HQ). exists (l :: ls), y'. split; [|done]. by rewrite steps_cons, H. Qed.
Lemma leads_trans y (Q R : batch → Prop) : leads y Q → (∀ y', Q y' → leads y' R) → leads y R.
Proof.
  intros (ls & y' & Hs & HQ) H. destruct (H _ HQ) as (ls' & y'' & Hs' & HR). exists (ls ++ ls'), y''.
  split; [|done]. by rewrite steps_app, Hs.
Qed.
Lemma leads_ok y Q : batch_ok y → leads y Q → leads y (λ y', batch_ok y' ∧ Q y').
Proof.
  intros Hy (ls & y' & Hs & HQ). exists ls, y'. split_and!; [done| |done].
  eapply steps_inv; [apply batch_step_ok|exact Hy|exact Hs].
Qed.

Definition in_pool (indexes : list nat) (ws : list worker) (y : batch) : Prop :=
  ∃ pl, b_phase y = PPool pl ∧ pl_indexes pl = indexes ∧ pl_workers pl = ws.

Lemma finish_item k i p indexes ws y :
  in_pool indexes ws y → ws !! k = Some (WBusy i p) → leads y (in_pool indexes (<[k := WIdle]> ws)).
Proof.
  revert ws y. induction p as [out|c f IH]; intros ws y (pl & Hph & Hi & Hws) Hw.
  - eapply (leads_step (LWork k)).
    { cbn [batch_step]. rewrite Hph. unfold work. rewrite Hws, Hw. reflexivity. }
    apply leads_here. eexists. split; [reflexivity|]. cbn. by rewrite Hi, Hws.
  - set (x := reply o y c). rewrite <- (list_insert_insert_eq ws k WIdle (WBusy i (f x))).
    eapply (leads_step (LWork k)).
    { cbn [batch_step]. rewrite Hph. unfold work. rewrite Hws, Hw. reflexivity. }
    apply (IH x).
    + eexists. split; [reflexivity|]. cbn. by rewrite Hi, Hws.
    + apply list_lookup_insert_eq. by eapply lookup_lt_Some.
Qed.

Lemma retire k indexes ws y :
  batch_ok y → in_pool indexes ws y → ws !! k = Some WIdle → leads y (in_pool [] (<[k := WLeft]> ws)).
Proof.
  revert y ws. induction indexes as [|i indexes IH]; intros y ws Hy (pl & Hph & Hi & Hws) Hw.
  - eapply (leads_step (LWork k)).
    { cbn [batch_step]. rewrite Hph. unfold work. rewrite Hws, Hw, Hi. reflexivity. }
    apply leads_here. eexists. split; [reflexivity|]. cbn. by rewrite Hws.
  - assert (∃ plan, pl_plans pl !! i = Some plan) as [plan Hplan].
    { unfold batch_ok in Hy. rewrite Hph in Hy. destruct Hy as [[H _] _]. apply lookup_lt_is_Some, (ok_range _ _ _ _ H).
      rewrite Hi. left. }
    set (p := submitPrepared account rs (pl_route pl) plan).
    assert (Hs : ∃ y1, step (LWork k) y = Some y1 ∧ in_pool indexes (<[k := WBusy i p]> ws) y1).
    { eexists. split.
      - cbn [batch_step]. rewrite Hph. unfold work. rewrite Hws, Hw, Hi, Hplan. reflexivity.
      - eexists. split; [reflexivity|]. cbn. by rewrite Hws. }
    destruct Hs as (y1 & Hs & Hin). pose proof (batch_step_ok _ _ _ Hy Hs) as Hy1.
    pose proof (lookup_lt_Some _ _ _ Hw) as Hk.
    eapply leads_step; [exact Hs|]. eapply leads_trans.
    { apply leads_ok; [done|]. eapply (finish_item k i p); [exact Hin|by apply list_lookup_insert_eq]. }
    rewrite list_insert_insert_eq. intros y2 [Hy2 Hin2].
    replace (<[k := WLeft]> ws) with (<[k := WLeft]> (<[k := WIdle]> ws)) by apply list_insert_insert_eq.
    apply IH; [done..|by apply list_lookup_insert_eq].
Qed.

Lemma release k indexes ws y w :
  batch_ok y → in_pool indexes ws y → ws !! k = Some w → leads y (λ y, ∃ indexes, in_pool indexes (<[k := WLeft]> ws) y).
Proof.
  intros Hy Hin Hw. pose proof (lookup_lt_Some _ _ _ Hw) as Hk. destruct w as [|i p|].
  - eapply leads_trans; [by eapply retire|]. intros y1 H1. apply leads_here. by exists [].
  - eapply leads_trans; [apply leads_ok; [done|by eapply finish_item]|]. intros y1 [Hy1 H1].
    rewrite <- (list_insert_insert_eq ws k WLeft WIdle). eapply leads_trans.
    { eapply retire; [done|exact H1|by apply list_lookup_insert_eq]. }
    intros y2 H2. apply leads_here. by exists [].
  - apply leads_here. exists indexes. by rewrite list_insert_id.
Qed.

Lemma release_all n indexes ws y :
  batch_ok y → in_pool indexes ws y → (n ≤ length ws)%nat →
  leads y (λ y, ∃ indexes ws', in_pool indexes ws' y ∧ length ws' = length ws ∧ ∀ k, (k < n)%nat → ws' !! k = Some WLeft).
Proof.
  intros Hy Hin. induction n as [|n IH]; intros Hn.
  { apply leads_here. exists indexes, ws. split_and!; [done|done|lia]. }
  eapply leads_trans; [apply leads_ok; [done|apply IH; lia]|]. intros y1 (Hy1 & indexes1 & ws1 & Hin1 & Hlen & Hleft).
  destruct (lookup_lt_is_Some_2 ws1 n ltac:(lia)) as [w Hw]. eapply leads_trans; [by eapply release|].
  intros y2 [indexes2 Hin2]. apply leads_here. exists indexes2, (<[n := WLeft]> ws1). split_and!; [done| |].
  - by rewrite length_insert.
  - intros k Hk. destruct (decide (k = n)) as [->|Hne].
    + apply list_lookup_insert_eq. lia.
    + rewrite list_lookup_insert_ne by done. apply Hleft. lia.
Qed.

Lemma pool_returns indexes ws y :
  batch_ok y → in_pool indexes ws y → leads y (λ y, ∃ s e, b_phase y = PReturn s e).
Proof.
  intros Hy Hin. eapply leads_trans; [by eapply (release_all (length ws))|].
  intros y1 (indexes1 & ws1 & (pl & Hph & _ & Hws) & Hlen & Hleft).
  eapply (leads_step LFinish); [|apply leads_here].
  - cbn [batch_step]. rewrite Hph. replace (all_left pl) with true; [reflexivity|]. symmetry. unfold all_left.
    apply forallb_forall. intros w Hw%list_elem_of_In. rewrite Hws in Hw. apply list_elem_of_lookup in Hw as [k Hw].
    pose proof (lookup_lt_Some _ _ _ Hw) as Hk. rewrite Hleft in Hw by lia. by injection Hw as <-.
  - by eexists _, _.
Qed.

Lemma front_leads p y :
  b_phase y = PFront p →
  leads y (λ y, (∃ s e, b_phase y = PReturn s e) ∨ ∃ indexes ws, in_pool indexes ws y).
Proof.
  revert y. induction p as [[s e|s plans route failures]|c f IH]; intros y Hph.
  - eapply (leads_step LFront); [cbn [batch_step]; by rewrite Hph|]. apply leads_here. left. by eexists _, _.
  - eapply (leads_step LFront); [cbn [batch_step]; by rewrite Hph|]. apply leads_here. right. eexists _, _, _. done.
  - eapply (leads_step LFront); [cbn [batch_step]; by rewrite Hph|]. by eapply IH.
Qed.

(** C35: Every batch can return from wherever it stands: once the pending
    calls are answered, the pool drains and [SubmitBatch] returns; no order of
    the goroutines can block it. *)
Theorem batch_returns ls y :
  steps step ls begin = Some y →
  ∃ ls' y' s e, steps step (ls ++ ls') begin = Some y' ∧ b_phase y' = PReturn s e.
Proof.
  intros Hr. pose proof (batch_run_ok _ _ Hr) as Hy.
  assert (leads y (λ y, ∃ s e, b_phase y = PReturn s e)) as (ls' & y' & Hs & s & e & He).
  { destruct (b_phase y) as [p|pl|s e] eqn:Hph.
    - eapply leads_trans; [apply leads_ok; [done|by eapply front_leads]|].
      intros y1 [Hy1 [H|(indexes & ws & H)]]; [by apply leads_here|by eapply pool_returns].
    - eapply pool_returns; [done|]. by exists pl.
    - apply leads_here. by eexists _, _. }
  exists ls', y', s, e. split; [|done]. by rewrite steps_app, Hr.
Qed.
End run.

(** ** Witnesses

    The seven media of the program's own test: an excluded one, one without a
    name, one whose registration fails, and executors that accept, reject,
    lose the answer, and accept with an error. *)

(** The labels that are possible one after the other, the last of [l] first. *)
Fixpoint schedule (account : string) (rs : Resources) (o : nat → ∀ c, ans c) (l : list label) (fuel : nat) (y : batch) : list label :=
  match fuel with
  | O => []
  | S fuel =>
      match find (λ e, match batch_step account rs o e y with Some _ => true | None => false end) l with
      | Some e => match batch_step account rs o e y with
                  | Some y => e :: schedule account rs o (tail l ++ take 1 l) fuel y
                  | None => []
                  end
      | None => []
      end
  end.

Definition demo_media (n : Z) : DownloadMedia := mkMedia (Itoa n) (mkData 0 "" "" n n 0 "" "" "" (Itoa n) 4 0).
Definition demo_answer (id : string) : DownloadResult * option goerr :=
  if String.eqb id "1" then (no_download, Some not_accepted)
  else if String.eqb id "2" then (no_download, Some (NewError "RPC response lost"))
  else if String.eqb id "7" then (mkDownload "" "" "accepted" false, Some (Wrapped "accepted but observer failed" not_accepted))
  else (mkDownload "" aria2Executor id false, None).
Definition demo_oracle (n : nat) (c : call) : ans c :=
  match c with
  | Begin | CtxErr => None
  | GetRoute _ => (mkRoute [aria2Executor] "", None)
  | Executable => None
  | Collect => (map demo_media [1; 2; 3; 4; 5; 6; 7], true, None)
  | ShouldHandle name _ => if String.eqb name "4" then (false, ExtensionExcluded) else (true, Allowed)
  | RenderName dir data =>
      if String.eqb (nd_FileName data) "5" then (no_naming, Some (NewError "invalid naming"))
      else (mkNaming (nd_FileName data) dir (nd_FileName data) (dir +:+ "/" +:+ nd_FileName data) 255, None)
  | UniqueNames targets => (targets, None)
  | Register token _ => if String.eqb token "6" then Some ("", Some (NewError "source save failed")) else Some (token, None)
  | GetURL id => Some ("https://localhost/file", None)
  | SameFile _ _ | EnsureDirectory _ => None
  | SubmitTo _ r => Some (demo_answer (ds_TaskID r))
  end.
Definition demo_request : DownloadIntent := mkIntent "acc" 9 1 "".
Definition demo_resources : Resources := mkResources true false [aria2Executor] "/remote" false 2.
Abbreviation demo_start := (start_batch "acc" demo_request demo_resources).
Definition demo_labels (fuel : nat) : list label :=
  schedule "acc" demo_resources demo_oracle [LFront; LWork 0; LWork 1; LFinish] fuel demo_start.
Abbreviation demo_run fuel := (steps (batch_step "acc" demo_resources demo_oracle) (demo_labels fuel) demo_start).
Definition demo_summary (y : option batch) : option (Z * Z * Z * Z * Z) :=
  match y with
  | Some (mkBatch _ _ _ (PReturn s _)) => Some (s_Total s, s_Queued s, s_Skipped s, s_Failed s, s_Uncertain s)
  | _ => None
  end.


Lemma demo_counts : demo_summary (demo_run 100) = Some (7, 2, 1, 3, 1).
Proof. vm_compute. reflexivity. Qed.
Lemma batch_submission_safe_witness :
  ∃ y, demo_run 100 = Some y ∧ demo_summary (Some y) = Some (7, 2, 1, 3, 1) ∧
       ∀ i, one_taker (item_log i (b_log y)) = true.
Proof.
  pose proof demo_counts as H. destruct (demo_run 100) as [y|] eqn:E; [|discriminate H].
  exists y. split; [reflexivity|]. split; [exact H|exact (proj1 (batch_submission_safe _ _ _ _ _ _ E))].
Defined.

(** Before [LFinish]: item 0, which the executor rejected. *)
Definition pool_of (y : option batch) : option pool := match y with Some (mkBatch _ _ _ (PPool pl)) => Some pl | _ => None end.
Definition demo_first (y : option batch) : option (class * bool * bool) :=
  pl ← pool_of y; out ← pl_outcomes pl !! 0%nat; _ ← pl_plans pl !! 0%nat; Some (classify out, all_left pl, true).
Lemma demo_pool_first : demo_first (demo_run 62) = Some (Failed, true, true).
Proof. vm_compute. reflexivity. Qed.
Lemma batch_classes_witness :
  ∃ y pl out, demo_run 62 = Some y ∧ pl_outcomes pl !! 0%nat = Some out ∧
    classify out = Failed ∧ verdict (item_log 0 (b_log y)) out.
Proof.
  pose proof demo_pool_first as H. destruct (demo_run 62) as [y|] eqn:E; [|discriminate H].
  apply bind_Some in H as (pl & Hph & H). apply bind_Some in H as (out & Hout & H). apply bind_Some in H as (plan & Hplan & H).
  injection H as Hc Hl. destruct y as [c n l [p|pl'|s e]]; try discriminate Hph. injection Hph as ->.
  assert (Hf : ∃ y', batch_step "acc" demo_resources demo_oracle LFinish (mkBatch c n l (PPool pl)) = Some y')
    by (cbn [batch_step b_phase]; rewrite Hl; by eexists).
  destruct Hf as [y' Hf].
  destruct (batch_classes _ _ _ _ _ _ _ pl 0%nat plan E eq_refl Hf Hplan) as (out' & Hout' & Hv).
  rewrite Hout in Hout'. injection Hout' as <-.
  exists (mkBatch c n l (PPool pl)), pl, out. split_and!; [reflexivity|exact Hout|exact Hc|exact Hv].
Defined.

Definition started (y : option batch) : bool := match y with Some _ => true | None => false end.
Lemma demo_starts : started (demo_run 30) = true.
Proof. vm_compute. reflexivity. Qed.
Lemma batch_returns_witness :
  ∃ y y' ls' s e, demo_run 30 = Some y ∧
    steps (batch_step "acc" demo_resources demo_oracle) (demo_labels 30 ++ ls') demo_start = Some y' ∧ b_phase y' = PReturn s e.
Proof.
  pose proof demo_starts as H. destruct (demo_run 30) as [y|] eqn:E; [|discriminate H].
  destruct (batch_returns _ _ _ _ _ _ E) as (ls' & y' & s & e & Hs & He).
  exists y, y', ls', s, e. split_and!; [reflexivity|exact Hs|exact He].
Defined.
