(* ===== verification/SubmissionTargets.v ===== *)
(** * Download submission: no two items share a file

    The composition of the pipeline with the naming rules: when the names come
    from naming.rules ([Unique] of Naming.v), the local targets of a batch are
    apart, however the executors are interleaved. *)

From S2P Require Import Prelude Lts Strings TargetPath Naming NamingProps Storage Prog Submission SubmissionItem SubmissionProps.
Local Open Scope list_scope.

(** ** What an item may ask for *)

Definition calls (good : call → Prop) {A} (m : P A) : Prop := ∀ b, all_calls good (m b).

Lemma calls_ret good {A} (a : A) : calls good (mret a : P A).
Proof. done. Qed.
Lemma calls_bind good {A B} (m : P A) (k : A → P B) : calls good m → (∀ a, calls good (k a)) → calls good (m ≫= k).
Proof. intros Hm Hk b. apply all_calls_bind; [apply Hm|]. intros [b' [a|]]; [apply Hk|done]. Qed.
Lemma calls_one good (c : call) {A} (f : ans c → pgm (bool * option A)) :
  good c → (∀ x, all_calls good (f x)) → all_calls good (Call c f).
Proof. done. Qed.

Section good.
Context (account : string) (rs : Resources) (route : DownloadRoute) (plan : downloadPlan).

(** A submission to the local downloader carries the plan's own target. *)
Definition own_target (request : DownloadSubmission) : Prop :=
  p_localError plan = None ∧ ds_Dir request = n_Dir (p_local plan) ∧ ds_Out request = n_Out (p_local plan) ∧
  ds_FullPath request = n_FullPath (p_local plan).
Definition planned (c : call) : Prop :=
  match c with
  | SubmitTo name request => name ∈ rt_Executors route ∧ (name = localExecutor → own_target request)
  | _ => True
  end.

Lemma calls_quiet {A} (m : P A) : (∀ b, ∃ c f, m b = Call c f ∧ planned c ∧ ∀ x, ∃ r, f x = Ret r) → calls planned m.
Proof. intros H b. destruct (H b) as (c & f & -> & Hc & Hf). split; [done|]. intros x. by destruct (Hf x) as [r ->]. Qed.
Ltac quiet := apply calls_quiet; intros ?; eexists _, _; split_and!; [reflexivity|exact I|intros; eexists; reflexivity].

Lemma calls_ctx : calls planned ctx_err. Proof. quiet. Qed.
Lemma calls_register token name : calls planned (register token name). Proof. quiet. Qed.
Lemma calls_url id : calls planned (get_url id). Proof. quiet. Qed.
Lemma calls_same path size : calls planned (same_file path size). Proof. quiet. Qed.
Lemma calls_ensure dir : calls planned (ensure_directory dir). Proof. quiet. Qed.
Lemma calls_set b : calls planned (set_entered b). Proof. done. Qed.
Lemma calls_submit name request : planned (SubmitTo name request) → calls planned (submit_to name request).
Proof. intros H. apply calls_quiet. intros b. eexists _, _. split_and!; [reflexivity|done..|]. intros. by eexists. Qed.
End good.

Create HintDb calls_db discriminated.
#[export] Hint Resolve calls_ret calls_ctx calls_register calls_url calls_same calls_ensure calls_set calls_submit : calls_db.
#[export] Hint Extern 2 (calls _ (_ ≫= _)) => apply calls_bind; [|intros ?] : calls_db.
#[export] Hint Extern 3 (calls _ (match ?x with _ => _ end)) => destruct x : calls_db.

Section item.
Context (account : string) (rs : Resources) (route : DownloadRoute) (plan : downloadPlan).
Abbreviation good := (planned route plan).

Lemma enter_calls name request : good (SubmitTo name request) → calls good (enter_executor rs name request).
Proof. intros H. unfold enter_executor. eauto 20 with calls_db. Qed.
Lemma link_calls request : calls good (link_submit request).
Proof. unfold link_submit. eauto 10 with calls_db. Qed.

Lemma batch_calls id url urlError name request :
  name ∈ rt_Executors route → calls good (batch_submit account rs plan id url urlError name request).
Proof.
  intros Hin. unfold batch_submit. destruct (String.eqb name localExecutor) eqn:Hn.
  - apply String.eqb_eq in Hn as ->. unfold batch_local. destruct (p_localError plan) eqn:He; [apply calls_ret|].
    apply calls_bind; [destruct (rs_SkipSame rs); auto with calls_db|]. intros [[] [e|]]; auto with calls_db.
    destruct (negb _); [apply calls_ret|]. apply calls_bind; [apply calls_ensure|]. intros [e|]; [apply calls_ret|].
    apply enter_calls. split; [done|]. by intros _.
  - apply String.eqb_neq in Hn. unfold batch_remote. destruct (_ || _); [apply calls_ret|].
    destruct (String.eqb name httpExecutor); [apply link_calls|]. destruct (p_remoteError plan); [apply calls_ret|].
    apply enter_calls. by split.
Qed.

Lemma try_calls id url urlError request rejected names :
  (∀ name, name ∈ names → name ∈ rt_Executors route) →
  calls good (try_executors (map (λ name, Some (name, batch_submit account rs plan id url urlError name)) names) request rejected).
Proof.
  revert rejected. induction names as [|name names IH]; intros rejected Hn; [apply calls_ret|]. cbn [map try_executors].
  apply calls_bind; [apply calls_ctx|]. intros [e|]; [apply calls_ret|].
  apply calls_bind; [apply batch_calls, Hn; left|]. intros [r [e|]]; [|apply calls_ret].
  destruct (negb (errors_Is _ _)); [apply calls_ret|]. destruct (negb _); [apply calls_ret|].
  apply IH. intros n' Hn'. apply Hn. by right.
Qed.

Lemma item_calls : calls good (submit_item account rs route plan).
Proof.
  unfold submit_item. apply calls_bind; [apply calls_ctx|]. intros [e|]; [apply calls_ret|].
  apply calls_bind; [apply calls_register|]. intros [id e]. destruct (_ || _); [apply calls_ret|].
  apply calls_bind; [destruct (_ || _); auto with calls_db|]. intros [url urlError].
  apply calls_bind; [|intros [r e']; by intros b].
  unfold router_submit. destruct (negb _); [apply calls_ret|]. by apply try_calls.
Qed.

Lemma prepared_calls : all_calls good (submitPrepared account rs route plan).
Proof. apply all_calls_bind; [apply item_calls|]. by intros [b [out|]]. Qed.
End item.

(** ** The targets of a batch *)

Section targets.
Context (to_lower : string → string) (to_lower_nil : to_lower "" = "").
Hypothesis to_lower_char : ∀ s a t, byte a < 128 → to_lower (s +:+ String a t) = to_lower s +:+ String (lower_byte a) (to_lower t).
Context (maxBytes : Z).

(** naming.rules answers [Unique] with the modelled function. *)
Definition naming_answer (targets : list NamingResult) (x : list NamingResult * option goerr) : Prop :=
  x.2 = None → Unique to_lower maxBytes false targets = Ok x.1.
Definition named (ev : event call ans) : Prop :=
  match ev_call ev as c return ans c → Prop with UniqueNames targets => naming_answer targets | _ => λ _, True end (ev_answer ev).

Definition target_key (n : NamingResult) : string := unique_key to_lower (n_Dir n) (n_Out n).
Definition plan_key (plan : downloadPlan) : option string :=
  match p_localError plan with None => Some (target_key (p_local plan)) | Some _ => None end.
Definition apart (plans : list downloadPlan) : Prop := NoDup (omap plan_key plans).

Lemma keys_targets plans : omap plan_key plans = target_key <$> local_targets plans.
Proof.
  unfold plan_key, local_targets. induction plans as [|plan plans IH]; [done|]. cbn.
  destruct (p_localError plan); cbn; by rewrite IH.
Qed.
Lemma assign_ok plans unique :
  length unique = length (local_targets plans) → local_targets (assign_targets plans None unique) = unique.
Proof.
  unfold local_targets. revert unique. induction plans as [|plan plans IH]; intros unique.
  - by destruct unique.
  - cbn. destruct (p_localError plan) as [e|] eqn:He.
    + intros H. cbn. rewrite He. by apply IH.
    + destruct unique as [|n unique]; [done|]. intros [= H]. cbn. rewrite He. by rewrite IH.
Qed.
Lemma assign_failed plans e unique : local_targets (assign_targets plans (Some e) unique) = [].
Proof.
  unfold local_targets. induction plans as [|plan plans IH]; [done|]. cbn. destruct (p_localError plan) eqn:He; cbn; [rewrite He|]; apply IH.
Qed.

Lemma prepare_apart route rs media s l :
  wp (λ _, True) (prepareBatch route rs media s) l
    (λ l '(plans, _, _), contains (rt_Executors route) localExecutor = true → Forall named l → apart plans).
Proof.
  apply wp_bind. eapply wp_post; [|apply wp_true]. intros l1 [[plans failures] s'] _. cbv zeta beta iota.
  destruct (negb (contains _ _) || _) eqn:Hn.
  - cbn. intros Hc _. rewrite Hc in Hn. cbn in Hn. unfold apart. rewrite keys_targets.
    destruct (local_targets plans); [apply NoDup_nil_2|done].
  - intros [unique e]. split; [done|]. cbn. intros _ Hnamed. unfold apart. rewrite keys_targets.
    apply Forall_app in Hnamed as [_ Hnamed]. apply Forall_inv in Hnamed. unfold named in Hnamed. cbn in Hnamed.
    destruct e as [e|]; cbn; [rewrite assign_failed; apply NoDup_nil_2|].
    destruct (Nat.eqb _ _) eqn:Hlen; cbn; [|rewrite assign_failed; apply NoDup_nil_2].
    apply Nat.eqb_eq in Hlen. rewrite assign_ok by done.
    pose proof (unique_loop_spec to_lower to_lower_nil to_lower_char maxBytes (local_targets plans) ∅) as H.
    specialize (Hnamed eq_refl). unfold Unique in Hnamed. cbn in Hnamed. rewrite Hnamed in H. apply H.
Qed.

Definition front_apart (l : list (event call ans)) (f : front) : Prop :=
  match f with
  | FPlans _ plans route _ => contains (rt_Executors route) localExecutor = true → Forall named l → apart plans
  | FReturn _ _ => True
  end.
Lemma front_apart_spec account request rs : wp (λ _, True) (submit_front account request rs) [] front_apart.
Proof.
  intros [e|]; (split; [done|]); [done|]. cbn -[prepareBatch batchRoute front_apart app].
  destruct (_ || _); [done|]. destruct (negb _); [done|]. apply wp_bind. eapply wp_post; [|apply wp_true].
  intros l1 [route|e] _; [|done]. intros [[media registration] [e|]]; (split; [done|]); [done|].
  destruct (is_nil media); [done|]. destruct (negb registration); [done|].
  apply wp_bind. eapply wp_post; [|apply prepare_apart]. by intros l2 [[plans failures] s].
Qed.

(** ** Over a run *)

Section run.
Context (account : string) (request : DownloadIntent) (rs : Resources) (o : nat → ∀ c, ans c).
Hypothesis names_by_rules : ∀ n targets, naming_answer targets (o n (UniqueNames targets)).
Abbreviation step := (batch_step account rs o).
Abbreviation begin := (start_batch account request rs).

Definition front_log (l : list (option nat * event call ans)) : list (event call ans) :=
  omap (λ '(who, ev), match who with None => Some ev | Some _ => None end) l.
(** What item [i] asked for fits its plan. *)
Definition logs_planned (plans : list downloadPlan) (route : DownloadRoute) (l : list (option nat * event call ans)) : Prop :=
  ∀ i ev, ev ∈ item_log i l → ∃ plan, plans !! i = Some plan ∧ planned route plan (ev_call ev).

Definition targets_ok (y : batch) : Prop :=
  match b_phase y with
  | PFront p => wp (λ _, True) p (front_log (b_log y)) front_apart ∧ Forall named (front_log (b_log y)) ∧
                ∀ i, item_log i (b_log y) = []
  | PPool pl => (contains (rt_Executors (pl_route pl)) localExecutor = true → apart (pl_plans pl)) ∧
                logs_planned (pl_plans pl) (pl_route pl) (b_log y) ∧
                ∀ k i p, pl_workers pl !! k = Some (WBusy i p) →
                  ∃ plan, pl_plans pl !! i = Some plan ∧ all_calls (planned (pl_route pl) plan) p
  | PReturn _ _ => ∃ plans route, (contains (rt_Executors route) localExecutor = true → apart plans) ∧
                logs_planned plans route (b_log y)
  end.

Lemma reply_named y c : named (Ev c (reply o y c)).
Proof. destruct c; try exact I. apply names_by_rules. Qed.
Lemma front_log_snoc l ev : front_log (l ++ [(None, ev)]) = front_log l ++ [ev].
Proof. unfold front_log. by rewrite omap_app. Qed.
Lemma no_items_planned plans route l : (∀ i, item_log i l = []) → logs_planned plans route l.
Proof. intros H i ev. rewrite H. intros []%elem_of_nil. Qed.

Lemma work_targets k pl y y' :
  b_phase y = PPool pl → targets_ok y → work account rs o k pl y = Some y' → targets_ok y'.
Proof.
  unfold targets_ok at 1. intros -> (Ha & Hl & Hb). unfold work.
  destruct (pl_workers pl !! k) as [[|i [out|c f]|]|] eqn:Hw; try done.
  - destruct (pl_indexes pl) as [|i indexes] eqn:Hi.
    + intros [= <-]. split_and!; [exact Ha|exact Hl|]. intros k' j p [(-> & E & _)|[Hne E]]%list_lookup_insert_Some; [done|by eapply Hb].
    + intros (plan & Hplan & [= <-])%bind_Some. split_and!; [exact Ha|exact Hl|].
      intros k' j p [(-> & E & _)|[Hne E]]%list_lookup_insert_Some; [|by eapply Hb].
      injection E as <- <-. exists plan. split; [done|]. apply prepared_calls.
  - intros [= <-]. split_and!; [exact Ha|exact Hl|]. intros k' j p [(-> & E & _)|[Hne E]]%list_lookup_insert_Some; [done|by eapply Hb].
  - intros E. apply (inj Some) in E. subst y'. destruct (Hb _ _ _ Hw) as (plan & Hplan & Hc & Hf). split_and!; [exact Ha| |].
    + intros j ev. cbn [after_call b_log]. destruct (decide (j = i)) as [->|Hne].
      * rewrite item_log_same. intros [Hev|Hev]%elem_of_app; [by apply Hl|].
        apply list_elem_of_singleton in Hev as ->. by exists plan.
      * rewrite item_log_other by done. apply Hl.
    + intros k' j p [(-> & E & _)|[Hne E]]%list_lookup_insert_Some; [|by eapply Hb].
      injection E as <- <-. exists plan. split; [done|apply Hf].
Qed.

Lemma step_targets l y y' : targets_ok y → step l y = Some y' → targets_ok y'.
Proof.
  intros Hy. destruct l as [deadline| |k|]; cbn [batch_step].
  - intros [= <-]. exact Hy.
  - destruct (b_phase y) as [p|pl|s e] eqn:Hph; try done. unfold targets_ok in Hy. rewrite Hph in Hy.
    destruct Hy as (Hw & Hn & Hl). destruct p as [[s e|s plans route failures]|c f].
    + intros [= <-]. exists [], (mkRoute [] ""). split; [done|by apply no_items_planned].
    + intros [= <-]. split_and!; [intros H; by apply Hw|by apply no_items_planned|].
      intros k i p [E _]%lookup_replicate_1. done.
    + intros E. apply (inj Some) in E. subst y'. unfold targets_ok. cbn [after_call b_phase b_log]. rewrite front_log_snoc.
      split_and!; [by apply Hw|apply Forall_app; split; [done|apply Forall_singleton, reply_named]|].
      intros i. rewrite item_log_front. apply Hl.
  - destruct (b_phase y) as [|pl|] eqn:Hph; try done. by apply work_targets.
  - destruct (b_phase y) as [|pl|] eqn:Hph; try done. destruct (all_left pl); [|done]. intros [= <-].
    unfold targets_ok in Hy. rewrite Hph in Hy. destruct Hy as (Ha & Hl & _). by exists (pl_plans pl), (pl_route pl).
Qed.

Lemma apart_lookup plans i j plan1 plan2 key :
  apart plans → plans !! i = Some plan1 → plans !! j = Some plan2 → plan_key plan1 = Some key → plan_key plan2 = Some key → i = j.
Proof.
  unfold apart. revert i j. induction plans as [|plan plans IH]; intros [|i] [|j] Hn H1 H2 K1 K2; try done.
  - injection H1 as ->. exfalso. cbn in Hn. rewrite K1 in Hn. apply NoDup_cons in Hn as [Hn _]. apply Hn.
    apply list_elem_of_omap. exists plan2. split; [by eapply list_elem_of_lookup_2|done].
  - injection H2 as ->. exfalso. cbn in Hn. rewrite K2 in Hn. apply NoDup_cons in Hn as [Hn _]. apply Hn.
    apply list_elem_of_omap. exists plan1. split; [by eapply list_elem_of_lookup_2|done].
  - f_equal. eapply IH; try done. cbn in Hn. destruct (plan_key plan); [by apply NoDup_cons in Hn as [_ Hn]|done].
Qed.

(** C23: When the file names of a batch come from the naming rules, two items
    of the batch never submit the same local file, whatever names and cases
    the media suggest and however the goroutines interleave. *)
Theorem batch_targets_apart ls y i j request1 request2 x1 x2 :
  steps step ls begin = Some y →
  Ev (SubmitTo localExecutor request1) x1 ∈ item_log i (b_log y) →
  Ev (SubmitTo localExecutor request2) x2 ∈ item_log j (b_log y) →
  unique_key to_lower (ds_Dir request1) (ds_Out request1) = unique_key to_lower (ds_Dir request2) (ds_Out request2) →
  i = j.
Proof.
  intros Hr H1 H2 Hkey. assert (Hy : targets_ok y).
  { revert Hr. apply steps_inv; [apply step_targets|]. split_and!; [apply front_apart_spec|constructor|done]. }
  assert (∃ plans route, (contains (rt_Executors route) localExecutor = true → apart plans) ∧ logs_planned plans route (b_log y))
    as (plans & route & Ha & Hl).
  { unfold targets_ok in Hy. destruct (b_phase y) as [p|pl|s e]; [|by exists (pl_plans pl), (pl_route pl); destruct Hy as (? & ? & _)|done].
    destruct Hy as (_ & _ & Hl). exists [], (mkRoute [] ""). split; [done|by apply no_items_planned]. }
  destruct (Hl _ _ H1) as (plan1 & Hp1 & Hin & Ht1). destruct (Hl _ _ H2) as (plan2 & Hp2 & _ & Ht2).
  destruct (Ht1 eq_refl) as (E1 & D1 & O1 & _). destruct (Ht2 eq_refl) as (E2 & D2 & O2 & _).
  eapply (apart_lookup plans i j plan1 plan2 (unique_key to_lower (ds_Dir request1) (ds_Out request1))); try done.
  - apply Ha. unfold contains. apply existsb_exists. exists localExecutor. split; [by apply list_elem_of_In|apply String.eqb_refl].
  - unfold plan_key. rewrite E1. unfold target_key. by rewrite <- D1, <- O1.
  - unfold plan_key. rewrite E2. unfold target_key. by rewrite Hkey, <- D2, <- O2.
Qed.
End run.
End targets.

(** ** Witness: two media whose names differ in case only *)

Definition local_offer (ev : event call ans) : option (DownloadSubmission * option (DownloadResult * option goerr)) :=
  match ev_call ev as c return ans c → option (DownloadSubmission * option (DownloadResult * option goerr)) with
  | SubmitTo name request => λ x, if String.eqb name localExecutor then Some (request, x) else None
  | _ => λ _, None
  end (ev_answer ev).
Lemma local_offer_in (l : list (event call ans)) request (x : option (DownloadResult * option goerr)) :
  head (omap local_offer l) = Some (request, x) → (Ev (SubmitTo localExecutor request) x : event call ans) ∈ l.
Proof.
  induction l as [|[c a] l IH]; [done|]. cbn. destruct (local_offer (Ev c a)) as [[r y]|] eqn:E; cbn.
  - intros [= -> ->]. destruct c; try discriminate E. cbn in E. destruct (String.eqb executor localExecutor) eqn:Hn; [|discriminate E].
    apply String.eqb_eq in Hn as ->. injection E as -> ->. left.
  - intros H. right. by apply IH.
Qed.

Definition twin_media (n : Z) (name : string) : DownloadMedia := mkMedia (Itoa n) (mkData 0 "" "" n n 0 "" "" "" name 4 0).
Definition twin_oracle (n : nat) (c : call) : ans c :=
  match c with
  | Begin | CtxErr => None
  | GetRoute _ => (mkRoute [localExecutor] "/data", None)
  | Executable => None
  | Collect => ([twin_media 1 "Photo.jpg"; twin_media 2 "photo.JPG"], true, None)
  | ShouldHandle _ _ => (true, Allowed)
  | RenderName dir data => (mkNaming (nd_FileName data) dir (nd_FileName data) (JoinTargetPath dir [nd_FileName data]) 255, None)
  | UniqueNames targets => match Unique ascii_lower 255 false targets with
                           | Ok names => (names, None)
                           | Err _ => ([], Some (NewError "naming")) end
  | Register token _ => Some (token, None)
  | GetURL id => None
  | SameFile _ _ => Some (false, None)
  | EnsureDirectory _ => Some None
  | SubmitTo _ r => Some (mkDownload "acc" localExecutor (ds_TaskID r) false, None)
  end.
Definition twin_resources : Resources := mkResources true false [localExecutor] "" true 2.
Abbreviation twin_start := (start_batch "acc" demo_request twin_resources).
Definition twin_labels : list label := schedule "acc" twin_resources twin_oracle [LFront; LWork 0; LWork 1; LFinish] 60 twin_start.
Abbreviation twin_run := (steps (batch_step "acc" twin_resources twin_oracle) twin_labels twin_start).
Definition twin_requests (y : option batch) : option (DownloadSubmission * DownloadSubmission) :=
  y ← y; r1 ← head (omap local_offer (item_log 0 (b_log y))); r2 ← head (omap local_offer (item_log 1 (b_log y)));
  Some (r1.1, r2.1).
Lemma twin_names :
  (λ '(r1, r2), (ds_Out r1, ds_FullPath r2)) <$> twin_requests twin_run = Some ("Photo.jpg", "/data/photo (2).JPG").
Proof. vm_compute. reflexivity. Qed.

Lemma batch_targets_apart_witness :
  ∃ y r1 r2, twin_run = Some y ∧ twin_requests twin_run = Some (r1, r2) ∧
    unique_key ascii_lower (ds_Dir r1) (ds_Out r1) ≠ unique_key ascii_lower (ds_Dir r2) (ds_Out r2).
Proof.
  pose proof twin_names as H. destruct twin_run as [y|] eqn:E; [|discriminate H].
  destruct (twin_requests (Some y)) as [[r1 r2]|] eqn:Ht; [|discriminate H].
  exists y, r1, r2. split_and!; [reflexivity|reflexivity|]. intros Hkey.
  apply bind_Some in Ht as (y' & Hy & Ht). injection Hy as <-. apply bind_Some in Ht as ([q1 x1] & H1 & Ht).
  apply bind_Some in Ht as ([q2 x2] & H2 & Ht). injection Ht as -> ->. cbn [fst] in *.
  assert (0%nat = 1%nat); [|discriminate].
  eapply (batch_targets_apart ascii_lower eq_refl ascii_lower_law 255 _ _ _ twin_oracle);
    [|exact E|exact (local_offer_in _ _ _ H1)|exact (local_offer_in _ _ _ H2)|exact Hkey].
  intros n targets Hx. unfold naming_answer in *. cbn [twin_oracle] in *.
  destruct (Unique ascii_lower 255 false targets); [reflexivity|discriminate Hx].
Defined.
