(* ===== verification/Aria2.v ===== *)
(** * Controlling aria2 (application/downloader.aria2)

    The controller over the aria2 daemon ([control.go],
    [control_operation.go], [download_control.go], [state.go],
    [automatic_control.go]), the observer that reconciles the daemon's tasks
    with the stored records ([observation.go], see TaskRepos.v for what the
    repository does with an observation), and the regulator that decides when
    Telegram errors pause downloads ([regulator.go]).  The repository and the
    daemon are the calls of a program (Prog.v). *)

From Stdlib Require Import Ascii.
From S2P Require Import Prelude Strings Storage TaskTypes Taskhub TaskRepos TargetPath Text Prog.
Local Open Scope list_scope.

(** ** Data (interfaces/types) *)

Record Aria2File := mkFile { f_Path : string; f_Length : string; f_Completed : string; f_URIs : list string }.
Record DownloadStatus := mkStatus {
  ds_GID : string; ds_Status : string; ds_Total : string; ds_Completed : string; ds_Speed : string;
  ds_ErrorCode : string; ds_ErrorMessage : string; ds_Files : list Aria2File }.
Record TaskInfo := mkInfo {
  ti_GID : string; ti_Status : string; ti_Total : Z; ti_Completed : Z; ti_Remaining : Z;
  ti_ErrorCode : string; ti_ErrorMessage : string }.
Record ActionResult := mkAction { ar_Matched : Z; ar_Changed : Z; ar_Skipped : Z; ar_Errors : list string }.
Record DownloadTask := mkTask {
  dt_ID : string; dt_TaskID : string; dt_FileName : string; dt_Dir : string; dt_Out : string; dt_Status : string;
  dt_Total : Z; dt_Completed : Z; dt_Error : string; dt_Speed : Z; dt_CreatedAt : Z }.

Definition aria2ControlBatchSize : nat := 1000%nat.
Definition StatusComplete : string := "complete".
Definition StatusPaused : string := "paused".
Definition StatusError : string := "error".
Definition StatusWaiting : string := "waiting".
Definition StatusActive : string := "active".
Definition StatusRemoved : string := "removed".

Definition parseAria2Length (value : string) : Z :=
  match ParseInt value with Some z => if z <? 0 then 0 else z | None => 0 end.
Definition normalizedAria2Status (status : string) : string :=
  let status := TrimSpace status in if String.eqb status "" then StatusActive else status.

(** The sums are [int64]. *)
Definition sum_files (files : list Aria2File) (total completed : Z) : Z * Z :=
  foldl (λ '(t, c) f, (wrap64 (t + parseAria2Length (f_Length f)), wrap64 (c + parseAria2Length (f_Completed f))))
    (total, completed) files.
Definition aria2TaskInfo (task : DownloadStatus) : TaskInfo :=
  let total := parseAria2Length (ds_Total task) in
  let completed := parseAria2Length (ds_Completed task) in
  let '(total, completed) := if total =? 0 then sum_files (ds_Files task) total completed else (total, completed) in
  let remaining := wrap64 (total - completed) in
  mkInfo (ds_GID task) (normalizedAria2Status (ds_Status task)) total completed (if remaining <? 0 then 0 else remaining)
    (ds_ErrorCode task) (ds_ErrorMessage task).
Definition isRetryable (info : TaskInfo) : bool :=
  if String.eqb (ti_Status info) StatusError || String.eqb (ti_Status info) StatusRemoved then true
  else String.eqb (ti_Status info) StatusComplete && (0 <? ti_Remaining info).

Definition gid_le (a b : DownloadStatus) : bool := String.leb (ds_GID a) (ds_GID b).

(** [filepath.Base] *)
Definition is_slash (a : ascii) : bool := Ascii.eqb a "/".
Definition Base (path : string) : string :=
  if String.eqb path "" then "."
  else let path := TrimRight is_slash path in
       match split_last is_slash path with
       | Some (_, base) => base
       | None => if String.eqb path "" then "/" else path
       end.

Definition firstTDLTaskURI (task : DownloadStatus) (prefix : string) : string :=
  let uris := filter (λ uri, uri ≠ "") (concat (map f_URIs (ds_Files task))) in
  let first := hd "" uris in
  if String.eqb prefix "" then first else default first (find (λ uri, HasPrefix uri prefix) uris).
Definition maybeAria2PathOptions (task : DownloadStatus) : string * string :=
  match ds_Files task with
  | f :: _ => if String.eqb (f_Path f) "" then ("", "") else let path := Clean (f_Path f) in (Dir path, Base path)
  | [] => ("", "")
  end.

(** ** The calls *)

Inductive acall :=
  | CtxErr
  | Now
  (* the repository *)
  | GetRecords
  | Reserve (record : Aria2Record)
  | Finish (lease : Aria2Record) (status : string) (remove : bool)
  | StoreAdd (record : Aria2Record)
  | StoreReport (record : Aria2Record) (revision : Z)
  | Snapshot                       (* records and links, before any RPC *)
  | ApplyObservation (record : Aria2Record) (create : bool)
  | CleanupStore
  (* the daemon *)
  | TellStatus (gid : string)
  | TellActive
  | TellWaiting (offset num : nat)
  | TellStopped (offset num : nat)
  | AddURI (uri dir out : string) (connections : Z)
  | Pause (gid : string)
  | ForcePause (gid : string)
  | Unpause (gid : string)
  | RemoveTask (gid : string)
  | RemoveResult (gid : string)
  | Sleep.                         (* the pause of the regulator: the context's error, if it ended first *)

Definition aans (c : acall) : Type :=
  match c with
  | CtxErr | Sleep => option goerr
  | Now => Z
  | GetRecords => res goerr (gmap string Aria2Record)
  | Reserve _ => res goerr (Aria2Record * bool)
  | Finish _ _ _ | ApplyObservation _ _ => bool * option goerr
  | Snapshot => res goerr (gmap string Aria2Record * gset string)
  | TellStatus _ => res goerr DownloadStatus
  | TellActive | TellWaiting _ _ | TellStopped _ _ => res goerr (list DownloadStatus)
  | AddURI _ _ _ _ => string * option goerr
  | StoreAdd _ | StoreReport _ _ | CleanupStore | Pause _ | ForcePause _ | Unpause _ | RemoveTask _ | RemoveResult _ => option goerr
  end.
Abbreviation apgm := (prog acall aans).
Definition rpc (c : acall) : apgm (aans c) := Prog.call c.
Arguments rpc c : simpl never.

(** ** One control (control_operation.go) *)

Definition set_owner (r : Aria2Record) (owner : string) : Aria2Record :=
  mkAria2 owner (a_Deleted r) (a_ControlUntil r) (a_State r) (a_Revision r) (a_GID r) (a_TaskID r) (a_DownloadURL r)
    (a_Dir r) (a_Out r) (a_CreatedAt r) (a_Status r) (a_Total r) (a_Completed r) (a_Error r).

Definition finishControl (lease : Aria2Record) (status : string) (remove : bool) : apgm (option goerr) :=
  '(applied, e) ← (rpc (Finish lease status remove) : apgm (bool * option goerr));
  Ret (match e with
       | None => if applied : bool then None else Some (NewError "aria2 control result superseded by another update")
       | Some e => Some e
       end).

(** What the deferred [finishControl] gets: the lease, [nextStatus] and
    [remove]; then the results. *)
Record controlled := mkControlled { ct_lease : Aria2Record; ct_status : string; ct_remove : bool; ct_changed : bool; ct_err : option goerr }.
Definition is_none {A} (o : option A) : bool := match o with None => true | _ => false end.

Definition control_body (record lease : Aria2Record) (action owner : string) (force : bool) : apgm controlled :=
  told ← (rpc (TellStatus (a_GID record)) : apgm (res goerr DownloadStatus));
  match told with
  | Err e => Ret (mkControlled lease "" false false (Some e))
  | Ok status =>
      let status := ds_Status status in
      if String.eqb action "pause" then
        if String.eqb status StatusPaused || String.eqb status StatusComplete || String.eqb status StatusError then
          let lease := if negb (String.eqb owner "") then set_owner lease (a_PauseOwner record) else lease in
          Ret (mkControlled lease status false
                 (String.eqb owner "" && negb (String.eqb (a_PauseOwner record) "") && String.eqb status StatusPaused) None)
        else
          e ← (if force then (rpc (ForcePause (a_GID record)) : apgm (option goerr)) else rpc (Pause (a_GID record)));
          Ret (mkControlled lease (if is_none e then StatusPaused else "") false (is_none e) e)
      else if String.eqb action "resume" then
        if negb (String.eqb status StatusPaused)
        then Ret (mkControlled lease (normalizedAria2Status status) false false None)
        else
          e ← (rpc (Unpause (a_GID record)) : apgm (option goerr));
          Ret (mkControlled lease (if is_none e then StatusWaiting else "") false (is_none e) e)
      else if String.eqb action "delete" then
        e ← (if String.eqb status StatusComplete || String.eqb status StatusError || String.eqb status StatusRemoved
             then (rpc (RemoveResult (a_GID record)) : apgm (option goerr)) else rpc (RemoveTask (a_GID record)));
        Ret (mkControlled lease "" (is_none e) (is_none e) e)
      else Ret (mkControlled lease "" false false (Some (NewError "unsupported aria2 action")))
  end.

Definition reserve (record : Aria2Record) : apgm (res goerr Aria2Record) :=
  reserved ← (rpc (Reserve record) : apgm (res goerr (Aria2Record * bool)));
  Ret (match reserved with
       | Err e => Err e
       | Ok (lease, true) => Ok lease
       | Ok (_, false) => Err (NewError "aria2 task changed or another control is in progress")
       end).

Definition performOwnedControl (record : Aria2Record) (action : string) (force : bool) (owner : string) : apgm (bool * option goerr) :=
  reserved ← reserve record;
  match reserved with
  | Err e => Ret (false, Some e)
  | Ok lease =>
      let owner' := if negb (String.eqb owner "") && String.eqb (a_Status record) StatusPaused
                       && String.eqb (a_PauseOwner record) "" then "" else owner in
      c ← control_body record (set_owner lease owner') action owner force;
      e ← finishControl (ct_lease c) (ct_status c) (ct_remove c);
      Ret (ct_changed c, errors_Join [ct_err c; e])
  end.
Definition performControl (record : Aria2Record) (action : string) (force : bool) : apgm (bool * option goerr) :=
  performOwnedControl record action force "".

(** [retryTask] between the reservation and the deferred [finishControl]. *)
Definition retry_body (record : Aria2Record) (task : DownloadStatus) (url : string) (connections : Z) : apgm (bool * option goerr) :=
  told ← (rpc (TellStatus (a_GID record)) : apgm (res goerr DownloadStatus));
  match told with
  | Err e => Ret (false, Some e)
  | Ok current =>
      if negb (isRetryable (aria2TaskInfo current)) then Ret (false, None)
      else
        let '(dir, out) := if String.eqb (a_Dir record) "" && String.eqb (a_Out record) "" then maybeAria2PathOptions task
                           else (a_Dir record, a_Out record) in
        '(gid, e) ← (rpc (AddURI url dir out connections) : apgm (string * option goerr));
        match e with
        | Some e => Ret (false, Some e)
        | None =>
            if String.eqb gid "" then Ret (false, Some (NewError "aria2 returned empty gid"))
            else
              now ← (rpc Now : apgm Z);
              stored ← (rpc (StoreAdd (mkAria2 "" false 0 "" 0 gid (a_TaskID record) url dir out now StatusWaiting 0 0 "")) : apgm (option goerr));
              match stored with
              | Some e =>
                  removed ← (rpc (RemoveTask gid) : apgm (option goerr));
                  Ret (false, errors_Join [Some (Wrapped "persist new gid" e); removed])
              | None =>
                  removed ← (rpc (RemoveResult (a_GID record)) : apgm (option goerr));
                  Ret (true, removed)
              end
        end
  end.
Definition retryTask (record : Aria2Record) (task : DownloadStatus) (url : string) (connections : Z) : apgm (bool * option goerr) :=
  reserved ← reserve record;
  match reserved with
  | Err e => Ret (false, Some e)
  | Ok lease =>
      '(changed, e) ← retry_body record task url connections;
      finished ← finishControl lease "" changed;
      Ret (changed, errors_Join [e; finished])
  end.

Definition not_registered : goerr := NewError "aria2 task is not registered to this account".
Definition controlOne (gid action : string) : apgm (option goerr) :=
  records ← (rpc GetRecords : apgm (res goerr (gmap string Aria2Record)));
  match records with
  | Err e => Ret (Some e)
  | Ok records =>
      match records !! gid with
      | None => Ret (Some not_registered)
      | Some record => '(_, e) ← performControl record action false; Ret e
      end
  end.

(** automatic_control.go *)
Definition errAutomaticControlSkipped : string := "errAutomaticControlSkipped".
Definition automatic_change (owner : string) (resumeAny : bool) (gid action : string) : apgm (option goerr) :=
  records ← (rpc GetRecords : apgm (res goerr (gmap string Aria2Record)));
  match records with
  | Err e => Ret (Some e)
  | Ok records =>
      match records !! gid with
      | None => Ret (Some (Sentinel errAutomaticControlSkipped))
      | Some record =>
          if String.eqb action "resume"
             && (String.eqb (a_PauseOwner record) "" || negb resumeAny && negb (String.eqb (a_PauseOwner record) owner))
          then Ret (Some (Sentinel errAutomaticControlSkipped))
          else
            '(changed, e) ← performOwnedControl record action true owner;
            match e with
            | Some e => Ret (Some e)
            | None => Ret (if changed : bool then None else Some (Sentinel errAutomaticControlSkipped))
            end
      end
  end.

(** ** Listing (control.go) *)

(** [pages] bounds the number of queries; a query that fills its page is
    followed by another one. *)
Fixpoint listTaskPages (pages : nat) (query : nat → nat → apgm (res goerr (list DownloadStatus))) (offset : nat)
    (all : list DownloadStatus) : apgm (res goerr (list DownloadStatus)) :=
  match pages with
  | O => Ret (Err (NewError "too many pages"))
  | S pages =>
      canceled ← (rpc CtxErr : apgm (option goerr));
      match canceled with
      | Some e => Ret (Err e)
      | None =>
          answer ← query offset aria2ControlBatchSize;
          match answer with
          | Err e => Ret (Err e)
          | Ok batch =>
              if (length batch <? aria2ControlBatchSize)%nat then Ret (Ok (all ++ batch))
              else listTaskPages pages query (offset + length batch) (all ++ batch)
          end
      end
  end.

Section controller.
Context (pages : nat).

Definition listWaiting : apgm (res goerr (list DownloadStatus)) := listTaskPages pages (λ offset num, rpc (TellWaiting offset num)) 0 [].
Definition listStopped : apgm (res goerr (list DownloadStatus)) := listTaskPages pages (λ offset num, rpc (TellStopped offset num)) 0 [].

(** The registered tasks of a listing, each GID once. *)
Fixpoint owned_tasks (records : gmap string Aria2Record) (seen : gset string) (all : list DownloadStatus) : list DownloadStatus :=
  match all with
  | [] => []
  | task :: all =>
      if String.eqb (ds_GID task) "" || bool_decide (ds_GID task ∈ seen) || negb (bool_decide (is_Some (records !! ds_GID task)))
      then owned_tasks records seen all
      else task :: owned_tasks records ({[ds_GID task]} ∪ seen) all
  end.

Definition listOwnedTasks : apgm (res goerr (list DownloadStatus * gmap string Aria2Record)) :=
  records ← (rpc GetRecords : apgm (res goerr (gmap string Aria2Record)));
  match records with
  | Err e => Ret (Err e)
  | Ok records =>
      active ← (rpc TellActive : apgm (res goerr (list DownloadStatus)));
      match active with
      | Err e => Ret (Err e)
      | Ok active =>
          waiting ← listWaiting;
          match waiting with
          | Err e => Ret (Err e)
          | Ok waiting =>
              stopped ← listStopped;
              match stopped with
              | Err e => Ret (Err e)
              | Ok stopped => Ret (Ok (sort_by gid_le (owned_tasks records ∅ (active ++ waiting ++ stopped)), records))
              end
          end
      end
  end.

(** [Overview]: what is left and what can be retried; the counters per status
    are maps. *)
Record Overview := mkOverview {
  ov_Total : Z; ov_RemainingTasks : Z; ov_RemainingBytes : Z; ov_Status : gmap string Z;
  ov_Retry : list TaskInfo; ov_RetryBytes : Z; ov_RetryStatus : gmap string Z }.
Definition bump (status : string) (m : gmap string Z) : gmap string Z := <[status := default 0 (m !! status) + 1]> m.
Definition overview_task (ov : Overview) (task : DownloadStatus) : Overview :=
  let info := aria2TaskInfo task in
  let status := normalizedAria2Status (ds_Status task) in
  let left := (0 <? ti_Remaining info) && negb (String.eqb status StatusComplete) in
  let retry := isRetryable info in
  mkOverview (ov_Total ov)
    (if left then ov_RemainingTasks ov + 1 else ov_RemainingTasks ov)
    (if left then wrap64 (ov_RemainingBytes ov + ti_Remaining info) else ov_RemainingBytes ov)
    (bump status (ov_Status ov))
    (if retry then ov_Retry ov ++ [info] else ov_Retry ov)
    (if retry then wrap64 (ov_RetryBytes ov + ti_Remaining info) else ov_RetryBytes ov)
    (if retry then bump status (ov_RetryStatus ov) else ov_RetryStatus ov).
Definition overview (tasks : list DownloadStatus) : Overview :=
  let ov := foldl overview_task (mkOverview (Z.of_nat (length tasks)) 0 0 ∅ [] 0 ∅) tasks in
  mkOverview (ov_Total ov) (ov_RemainingTasks ov) (ov_RemainingBytes ov) (ov_Status ov)
    (sort_by (λ a b, String.leb (ti_GID a) (ti_GID b)) (ov_Retry ov)) (ov_RetryBytes ov) (ov_RetryStatus ov).
Definition GetOverview : apgm (res goerr Overview) :=
  listed ← listOwnedTasks;
  Ret (match listed with Ok (tasks, _) => Ok (overview tasks) | Err e => Err e end).

Definition registeredTasks (tasks : list DownloadStatus) : apgm (res goerr (list DownloadStatus)) :=
  records ← (rpc GetRecords : apgm (res goerr (gmap string Aria2Record)));
  Ret (match records with
       | Ok records => Ok (filter (λ task, is_Some (records !! ds_GID task)) tasks)
       | Err e => Err e
       end).
(** [ActiveTasks], [WaitingTasks], [StoppedTasks] *)
Definition listed_tasks (query : apgm (res goerr (list DownloadStatus))) : apgm (res goerr (list DownloadStatus)) :=
  tasks ← query;
  match tasks with Err e => Ret (Err e) | Ok tasks => registeredTasks (sort_by gid_le tasks) end.
Definition ActiveTasks : apgm (res goerr (list DownloadStatus)) := listed_tasks (rpc TellActive).
Definition WaitingTasks : apgm (res goerr (list DownloadStatus)) := listed_tasks listWaiting.
Definition StoppedTasks : apgm (res goerr (list DownloadStatus)) := listed_tasks listStopped.

Definition OwnedStatus (gid : string) : apgm (res goerr DownloadStatus) :=
  records ← (rpc GetRecords : apgm (res goerr (gmap string Aria2Record)));
  match records with
  | Err e => Ret (Err e)
  | Ok records => if bool_decide (is_Some (records !! gid)) then (rpc (TellStatus gid) : apgm (res goerr DownloadStatus))
                  else Ret (Err not_registered)
  end.

Definition list_task (records : gmap string Aria2Record) (item : DownloadStatus) : option DownloadTask :=
  record ← records !! ds_GID item;
  let info := aria2TaskInfo item in
  Some (mkTask (ds_GID item) (a_TaskID record) (a_Out record) (a_Dir record) (a_Out record) (ti_Status info)
    (ti_Total info) (ti_Completed info) (TrimSpace (ds_ErrorCode item +:+ " " +:+ ds_ErrorMessage item))
    (default 0 (ParseInt (ds_Speed item))) (a_CreatedAt record)).
Definition ListTasks : apgm (res goerr (list DownloadTask)) :=
  listed ← listOwnedTasks;
  match listed with
  | Err e => Ret (Err e)
  | Ok (items, records) => Ret (Ok (omap (M:=list) (list_task records) items))
  end.

(** ** Bulk controls *)

Definition no_action : ActionResult := mkAction 0 0 0 [].
Definition one_matched (r : ActionResult) : ActionResult := mkAction (ar_Matched r + 1) (ar_Changed r) (ar_Skipped r) (ar_Errors r).
Definition one_changed (r : ActionResult) : ActionResult := mkAction (ar_Matched r) (ar_Changed r + 1) (ar_Skipped r) (ar_Errors r).
Definition one_skipped (r : ActionResult) : ActionResult := mkAction (ar_Matched r) (ar_Changed r) (ar_Skipped r + 1) (ar_Errors r).
Definition one_error (gid : string) (r : ActionResult) : ActionResult :=
  mkAction (ar_Matched r) (ar_Changed r) (ar_Skipped r) (ar_Errors r ++ [gid]).
(** What a control adds to the result. *)
Definition add_control (gid : string) (changed : bool) (e : option goerr) (r : ActionResult) : ActionResult :=
  match e with
  | Some _ => one_error gid r
  | None => if changed then one_changed r else one_skipped r
  end.

(** The loops of [ClearStopped], [PauseAll] and [StartAll]: which tasks match
    and what is done with them. *)
Fixpoint control_all (matches : DownloadStatus → bool) (act : DownloadStatus → apgm (bool * option goerr))
    (tasks : list DownloadStatus) (r : ActionResult) : apgm ActionResult :=
  match tasks with
  | [] => Ret r
  | task :: tasks =>
      if matches task then
        '(changed, e) ← act task;
        control_all matches act tasks (add_control (ds_GID task) changed e (one_matched r))
      else control_all matches act tasks (one_skipped r)
  end.
Definition with_owned (k : list DownloadStatus → gmap string Aria2Record → apgm ActionResult) : apgm (ActionResult * option goerr) :=
  listed ← listOwnedTasks;
  match listed with
  | Err e => Ret (no_action, Some e)
  | Ok (tasks, records) => r ← k tasks records; Ret (r, None)
  end.
(** [records[gid]], the zero record when missing *)
Definition record_of (records : gmap string Aria2Record) (gid : string) : Aria2Record := default empty_aria2 (records !! gid).

Definition is_stopped (task : DownloadStatus) : bool :=
  String.eqb (ds_Status task) StatusComplete || String.eqb (ds_Status task) StatusError || String.eqb (ds_Status task) StatusRemoved.
(** A delete without an error counts as changed. *)
Definition ClearStopped : apgm (ActionResult * option goerr) :=
  with_owned (λ tasks records,
    control_all is_stopped
      (λ task, '(_, e) ← performControl (record_of records (ds_GID task)) "delete" false; Ret (true, e)) tasks no_action).
Definition PauseAll : apgm (ActionResult * option goerr) :=
  with_owned (λ tasks records,
    control_all (λ task, let status := normalizedAria2Status (ds_Status task) in String.eqb status StatusActive || String.eqb status StatusWaiting)
      (λ task, performControl (record_of records (ds_GID task)) "pause" true) tasks no_action).
Definition StartAll : apgm (ActionResult * option goerr) :=
  with_owned (λ tasks records,
    control_all (λ task, String.eqb (normalizedAria2Status (ds_Status task)) StatusPaused)
      (λ task, performControl (record_of records (ds_GID task)) "resume" false) tasks no_action).

(** [RetryStopped]: a retry may change the task and report an error. *)
Fixpoint retry_all (prefix : string) (connections : Z) (records : gmap string Aria2Record) (tasks : list DownloadStatus) (r : ActionResult)
    : apgm ActionResult :=
  match tasks with
  | [] => Ret r
  | task :: tasks =>
      if negb (isRetryable (aria2TaskInfo task)) then retry_all prefix connections records tasks (one_skipped r)
      else
        let r := one_matched r in
        let record := record_of records (ds_GID task) in
        let url := if String.eqb (a_DownloadURL record) "" then firstTDLTaskURI task prefix else a_DownloadURL record in
        if String.eqb url "" then retry_all prefix connections records tasks (one_error (ds_GID task) r)
        else
          '(changed, e) ← retryTask record task url connections;
          let r := if is_none e then r else one_error (ds_GID task) r in
          let r := if changed : bool then one_changed r else if is_none e then one_skipped r else r in
          retry_all prefix connections records tasks r
  end.
Definition RetryStopped (prefix : string) (connections : Z) : apgm (ActionResult * option goerr) :=
  with_owned (λ tasks records, retry_all prefix connections records tasks no_action).

(** [ChangeTasks] *)
Fixpoint change_all (action : string) (records : gmap string Aria2Record) (ids : list string) (r : ActionResult)
    : apgm (ActionResult * option goerr) :=
  match ids with
  | [] => Ret (r, None)
  | id :: ids =>
      match records !! id with
      | None => change_all action records ids (one_skipped r)
      | Some record =>
          canceled ← (rpc CtxErr : apgm (option goerr));
          match canceled with
          | Some e => Ret (r, Some e)
          | None =>
              '(changed, e) ← performControl record action false;
              change_all action records ids (add_control id changed e (one_matched r))
          end
      end
  end.
Definition ChangeTasks (action : string) (ids : list string) : apgm (ActionResult * option goerr) :=
  if negb (String.eqb action "pause" || String.eqb action "resume" || String.eqb action "delete")
  then Ret (no_action, Some (NewError "unsupported aria2 action"))
  else
    records ← (rpc GetRecords : apgm (res goerr (gmap string Aria2Record)));
    match records with
    | Err e => Ret (no_action, Some e)
    | Ok records => change_all action records ids no_action
    end.

(** [Submit]: account checks, the daemon, the registration; a registration
    that fails removes the new download again. *)
Definition Submit (account : string) (submitted uri taskID dir out : string) (connections : Z) : apgm (option string * option goerr) :=
  canceled ← (rpc CtxErr : apgm (option goerr));
  match canceled with
  | Some e => Ret (None, Some e)
  | None =>
      let account := if String.eqb account "" then "default" else account in
      if negb (String.eqb submitted "") && negb (String.eqb submitted account)
      then Ret (None, Some (NewError "download account mismatch"))
      else if String.eqb (TrimSpace uri) "" then Ret (None, Some (NewError "download url is empty"))
      else
        '(gid, e) ← (rpc (AddURI uri dir out connections) : apgm (string * option goerr));
        match e with
        | Some e => Ret (None, Some (Wrapped "add aria2 uri" e))
        | None =>
            if String.eqb gid "" then Ret (None, Some (NewError "aria2 returned empty gid"))
            else
              now ← (rpc Now : apgm Z);
              stored ← (rpc (StoreAdd (mkAria2 "" false 0 "" 0 gid taskID uri dir out now "" 0 0 "")) : apgm (option goerr));
              match stored with
              | Some e =>
                  removed ← (rpc (RemoveTask gid) : apgm (option goerr));
                  Ret (Some gid, errors_Join [Some (Wrapped "register aria2 task" e); removed])
              | None => Ret (Some gid, None)
              end
        end
  end.

(** [SyncStates] *)
Definition observed_record (record : Aria2Record) (status : DownloadStatus) (state : string) : Aria2Record :=
  let info := aria2TaskInfo status in
  mkAria2 (a_PauseOwner record) (a_Deleted record) (a_ControlUntil record) (a_State record) (a_Revision record) (a_GID record)
    (a_TaskID record) (a_DownloadURL record) (a_Dir record) (a_Out record) (a_CreatedAt record) state
    (ti_Total info) (ti_Completed info) (TrimSpace (ds_ErrorCode status +:+ " " +:+ ds_ErrorMessage status)).
Fixpoint report_all (records : gmap string Aria2Record) (statuses : list DownloadStatus) (result : option goerr) : apgm (option goerr) :=
  match statuses with
  | [] => Ret result
  | status :: statuses =>
      match records !! ds_GID status with
      | None => report_all records statuses result
      | Some record =>
          e ← (rpc (StoreReport (observed_record record status (ds_Status status)) (a_Revision record)) : apgm (option goerr));
          report_all records statuses (errors_Join [result; e])
      end
  end.
Definition SyncStates : apgm (option goerr) :=
  listed ← listOwnedTasks;
  match listed with Err e => Ret (Some e) | Ok (tasks, records) => report_all records tasks None end.
End controller.

(** ** The observer (observation.go) *)

Section observer.
Context (pages : nat).
(** [url.Parse], [url.PathUnescape] and [strings.EqualFold] *)
Record url := mkUrl { u_Scheme : string; u_Host : string; u_EscapedPath : string }.
Context (Parse : string → option url) (PathUnescape : string → option string) (EqualFold : string → string → bool).

Definition match_uri (base : url) (links : gset string) (uri : string) : option (string * string) :=
  let prefix := TrimRight is_slash (u_EscapedPath base) +:+ "/download/" in
  u ← Parse (TrimSpace uri);
  if negb (EqualFold (u_Host u) (u_Host base)) || negb (EqualFold (u_Scheme u) (u_Scheme base))
     || negb (HasPrefix (u_EscapedPath u) prefix) then None
  else
    id ← PathUnescape (Cut "/"%char (TrimPrefix (u_EscapedPath u) prefix)).1.1;
    if String.eqb id "" || String.eqb id "index" || ContainsAny id "/\" || negb (bool_decide (id ∈ links)) then None
    else Some (id, uri).
Definition match_status (public : string) (status : DownloadStatus) (links : gset string) : option (string * string) :=
  base ← Parse public;
  if String.eqb (u_Host base) "" || negb (String.eqb (u_Scheme base) "http" || String.eqb (u_Scheme base) "https") then None
  else head (omap (match_uri base links) (concat (map f_URIs (ds_Files status)))).

(** The record an observation of a task leads to, with whether it is new;
    [None]: the task is not ours, or was deleted here. *)
Definition observed (public : string) (now : Z) (records : gmap string Aria2Record) (links : gset string) (status : DownloadStatus)
    : option (Aria2Record * bool) :=
  match records !! ds_GID status with
  | Some record => if a_Deleted record then None else Some (observed_record record status (normalizedAria2Status (ds_Status status)), false)
  | None =>
      if String.eqb (ds_Status status) StatusRemoved then None
      else
        '(id, uri) ← match_status public status links;
        let '(dir, out) := match ds_Files status with
                           | f :: _ => let '(dir, out) := SplitRenderedNameLeaf (f_Path f) in (TrimRight is_sep dir, out)
                           | [] => ("", "")
                           end in
        let record := mkAria2 "" false 0 "" 0 (ds_GID status) id uri dir out now "" 0 0 "" in
        Some (observed_record record status (normalizedAria2Status (ds_Status status)), true)
  end.

Fixpoint observe_all (public : string) (records : gmap string Aria2Record) (links : gset string) (statuses : list DownloadStatus)
    (result : option goerr) : apgm (option goerr) :=
  match statuses with
  | [] => Ret result
  | status :: statuses =>
      now ← (rpc Now : apgm Z);
      match observed public now records links status with
      | None => observe_all public records links statuses result
      | Some (record, create) =>
          '(_, e) ← (rpc (ApplyObservation record create) : apgm (bool * option goerr));
          observe_all public records links statuses (errors_Join [result; e])
      end
  end.

(** The statuses by GID: a later group overwrites an earlier one. *)
Definition by_gid (all : list DownloadStatus) : gmap string DownloadStatus :=
  foldl (λ m status, if String.eqb (ds_GID status) "" then m else <[ds_GID status := status]> m) ∅ all.

Definition Observe (public : string) : apgm (gmap string DownloadStatus * option goerr) :=
  snapshot ← (rpc Snapshot : apgm (res goerr (gmap string Aria2Record * gset string)));
  match snapshot with
  | Err e => Ret (∅, Some e)
  | Ok (records, links) =>
      active ← (rpc TellActive : apgm (res goerr (list DownloadStatus)));
      match active with
      | Err e => Ret (∅, Some e)
      | Ok active =>
          waiting ← listWaiting pages;
          match waiting with
          | Err e => Ret (∅, Some e)
          | Ok waiting =>
              stopped ← listStopped pages;
              match stopped with
              | Err e => Ret (∅, Some e)
              | Ok stopped =>
                  let statuses := by_gid (active ++ waiting ++ stopped) in
                  e ← observe_all public records links (map snd (map_to_list statuses)) None;
                  Ret (statuses, e)
              end
          end
      end
  end.
Definition Sync (public : string) : apgm (option goerr) :=
  '(_, e) ← Observe public;
  match e with Some e => Ret (Some e) | None => rpc CleanupStore : apgm (option goerr) end.
End observer.

(** ** The regulator (regulator.go) *)

Record regulator := mkRegulator { rg_timestamps : list Z; rg_lastAction : option Z; rg_regulating : bool }.
Record regulatorConfig := mkRegConfig { rc_Window : Z; rc_Threshold : Z; rc_Cooldown : Z }.
Definition second : Z := 10^9.
Definition normalizeConfig (c : regulatorConfig) : regulatorConfig :=
  mkRegConfig (if rc_Window c <=? 0 then 10 * second else rc_Window c)
    (if rc_Threshold c <=? 0 then 3 else rc_Threshold c) (if rc_Cooldown c <=? 0 then 10 * second else rc_Cooldown c).

Definition recordError (c : regulatorConfig) (now : Z) (r : regulator) : bool * regulator :=
  let next := filter (λ ts, now - rc_Window c < ts) (rg_timestamps r) ++ [now] in
  let kept := mkRegulator next (rg_lastAction r) (rg_regulating r) in
  if Z.of_nat (length next) <? rc_Threshold c then (false, kept)
  else if rg_regulating r then (false, kept)
  else if match rg_lastAction r with Some last => now - last <? rc_Cooldown c | None => false end then (false, kept)
  else (true, mkRegulator [] (rg_lastAction r) true).
Definition finishRegulation (now : Z) (r : regulator) : regulator := mkRegulator [] (Some now) false.

(** The task to keep comes first: the most complete, then the least left. *)
Definition regulation_le (a b : DownloadStatus) : bool :=
  let left := aria2TaskInfo a in
  let right := aria2TaskInfo b in
  if negb (ti_Completed left =? ti_Completed right) then ti_Completed right <? ti_Completed left
  else if negb (ti_Remaining left =? ti_Remaining right) then ti_Remaining left <? ti_Remaining right
  else String.leb (ds_GID a) (ds_GID b).

Definition IsTDLTask (task : DownloadStatus) (registered : gset string) (prefix : string) : bool :=
  bool_decide (ds_GID task ∈ registered) || existsb (λ uri, HasPrefix uri prefix) (concat (map f_URIs (ds_Files task))).
Definition regulated (tasks : list DownloadStatus) (registered : gset string) (prefix : string) : list DownloadStatus :=
  filter (λ task, String.eqb (normalizedAria2Status (ds_Status task)) StatusActive && IsTDLTask task registered prefix = true) tasks.

(** An RPC with its retries is one call. *)
Fixpoint forcePauseTasks (tasks paused : list DownloadStatus) : apgm (list DownloadStatus) :=
  match tasks with
  | [] => Ret paused
  | task :: tasks =>
      if String.eqb (ds_GID task) "" then forcePauseTasks tasks paused
      else
        e ← (rpc (ForcePause (ds_GID task)) : apgm (option goerr));
        match e with
        | Some e => if errors_Is e Canceled then Ret paused else forcePauseTasks tasks paused
        | None => forcePauseTasks tasks (paused ++ [task])
        end
  end.
Fixpoint resume_all (tasks : list DownloadStatus) : apgm (option goerr) :=
  match tasks with
  | [] => Ret None
  | task :: tasks =>
      if String.eqb (ds_GID task) "" then resume_all tasks
      else
        e ← (rpc (Unpause (ds_GID task)) : apgm (option goerr));
        match e with
        | Some e => if errors_Is e Canceled then Ret (Some e) else resume_all tasks
        | None => resume_all tasks
        end
  end.
Definition resumeAfterPause (tasks : list DownloadStatus) : apgm (option goerr) :=
  if is_nil tasks then Ret None
  else
    e ← (rpc Sleep : apgm (option goerr));
    match e with Some e => Ret (Some e) | None => resume_all tasks end.
Definition regulate (registered : gset string) (prefix : string) : apgm (option goerr) :=
  active ← (rpc TellActive : apgm (res goerr (list DownloadStatus)));
  match active with
  | Err e => Ret (Some e)
  | Ok active =>
      match sort_by regulation_le (regulated active registered prefix) with
      | [] => Ret None
      | [task] => paused ← forcePauseTasks [task] []; resumeAfterPause paused
      | _ :: rest => paused ← forcePauseTasks rest []; resumeAfterPause paused
      end
  end.

(** ** Retrying the connection (reconnect.go) *)

Definition maxConnectRetryInterval : Z := 60 * second.
Definition nextAria2RetryInterval (current : Z) : Z :=
  if maxConnectRetryInterval / 2 <=? current then maxConnectRetryInterval else current * 2.
Definition firstRetryInterval (retryInterval : Z) : Z :=
  let retryInterval := if retryInterval <=? 0 then 10 * second else retryInterval in Z.min retryInterval maxConnectRetryInterval.
(** The delays before the attempts after the first. *)
Fixpoint retry_delays (n : nat) (delay : Z) : list Z :=
  match n with O => [] | S n => delay :: retry_delays n (nextAria2RetryInterval delay) end.

Fixpoint merge_unique (seen : gset string) (l : list string) : list string :=
  match l with
  | [] => []
  | gid :: l => if String.eqb gid "" || bool_decide (gid ∈ seen) then merge_unique seen l
                else gid :: merge_unique ({[gid]} ∪ seen) l
  end.
Definition MergeUniqueGIDs (base add : list string) : list string := merge_unique ∅ (base ++ add).
