(* ===== verification/Aria2Props.v ===== *)
(** * Theorems about controlling aria2

    The discipline of the control leases, as an automaton over the calls of
    every operation; listings; the results of bulk operations; the regulator. *)

From S2P Require Import Prelude Lts Strings Storage TaskTypes Taskhub TaskRepos TargetPath Text Prog Aria2.
Local Open Scope list_scope.

(** ** The lease automaton

    It reads the calls with their answers.  A task is controlled only while
    the lease of a record the repository returned is held; the lease is given
    back with [FinishControl]; the record is dropped only when the daemon's
    task is gone or replaced.  What could not be cleaned up is kept: a lease
    whose return was refused, a download that is unknown to the repository and
    that the daemon did not remove. *)

#[export] Instance aria2_record_eq : EqDecision Aria2Record.
Proof. solve_decision. Defined.

Record guard := mkGuard {
  g_known : gmap string Aria2Record;             (* what the repository returned last *)
  g_lease : option (Aria2Record * Aria2Record);  (* the controlled record and its lease *)
  g_gone : bool;                                 (* its task was removed or replaced *)
  g_fresh : list string;                         (* downloads it started and nobody knows yet *)
  g_left : list (string * option Aria2Record);   (* what stays behind, and the record in work *)
}.
Definition guard0 : guard := mkGuard ∅ None false [] [].

Definition leased (g : guard) (gid : string) : bool :=
  match g_lease g with Some (record, _) => String.eqb gid (a_GID record) | None => false end.
Definition may_control (g : guard) (gid : string) : bool := leased g gid || bool_decide (gid ∈ g_fresh g).
Definition without (gid : string) (l : list string) : list string := filter (λ gid', gid' ≠ gid) l.
Definition gone (g : guard) (gid : string) (e : option goerr) : guard :=
  mkGuard (g_known g) (g_lease g) (g_gone g || (leased g gid && is_none e)) (without gid (g_fresh g))
    (if negb (is_none e) && bool_decide (gid ∈ g_fresh g) then g_left g ++ [(gid, fst <$> g_lease g)] else g_left g).
Definition values (m : gmap string Aria2Record) : list Aria2Record := map snd (map_to_list m).
(** The lease came back: the repository applied the result, without error. *)
Definition returned (x : bool * option goerr) : bool := fst x && is_none (snd x).

Definition guard_step (ev : event acall aans) (g : guard) : option guard :=
  match ev_call ev as c return aans c → option guard with
  | GetRecords => λ x, Some (match x with Ok m => mkGuard m (g_lease g) (g_gone g) (g_fresh g) (g_left g) | Err _ => g end)
  | Reserve record => λ x,
      if is_none (g_lease g) && bool_decide (record ∈ values (g_known g))
      then Some (match x with Ok (lease, true) => mkGuard (g_known g) (Some (record, lease)) false (g_fresh g) (g_left g) | _ => g end)
      else None
  | Finish lease status remove => λ x,
      match g_lease g with
      | Some (record, held) =>
          if bool_decide (set_owner lease "" = set_owner held "") && (negb remove || g_gone g)
          then Some (mkGuard (g_known g) None false (g_fresh g)
                       (if returned x then g_left g else g_left g ++ [(a_GID record, Some record)])) else None
      | None => None
      end
  | Pause gid | ForcePause gid | Unpause gid => λ _, if may_control g gid then Some g else None
  | RemoveTask gid | RemoveResult gid => λ e, if may_control g gid then Some (gone g gid e) else None
  | AddURI _ _ _ _ => λ x,
      Some (if is_none x.2 && negb (String.eqb x.1 "") then mkGuard (g_known g) (g_lease g) (g_gone g) (x.1 :: g_fresh g) (g_left g) else g)
  | StoreAdd record => λ e,
      if bool_decide (a_GID record ∈ g_fresh g)
      then Some (if is_none e then mkGuard (g_known g) (g_lease g) true (without (a_GID record) (g_fresh g)) (g_left g) else g) else None
  | _ => λ _, Some g
  end (ev_answer ev).

Definition at_guard (l : list (event acall aans)) (g : guard) : Prop := steps guard_step l guard0 = Some g.
Definition allowed (l : list (event acall aans)) : Prop := ∃ g, at_guard l g.

(** ** Triples over the automaton *)

Definition spec {A} (p : apgm A) (g : guard) (Q : guard → A → Prop) : Prop :=
  ∀ l, at_guard l g → wp allowed p l (λ l' a, ∃ g', at_guard l' g' ∧ Q g' a).

Lemma spec_ret {A} (a : A) g (Q : guard → A → Prop) : Q g a → spec (Ret a) g Q.
Proof. intros H l Hl. by exists g. Qed.
Lemma spec_bind {A B} (p : apgm A) (k : A → apgm B) g Q :
  spec p g (λ g' a, spec (k a) g' Q) → spec (p ≫= k) g Q.
Proof. intros H l Hl. apply wp_bind. eapply wp_post; [|by apply H]. intros l' a (g' & Hl' & Hk). by apply Hk. Qed.
Lemma spec_post {A} (p : apgm A) g (Q R : guard → A → Prop) : (∀ g a, Q g a → R g a) → spec p g Q → spec p g R.
Proof. intros H Hp l Hl. eapply wp_post; [|by apply Hp]. intros l' a (g' & ? & ?). exists g'. auto. Qed.
Lemma spec_rpc c g (Q : guard → aans c → Prop) :
  (∀ x, ∃ g', guard_step (Ev c x) g = Some g' ∧ Q g' x) → spec (rpc c) g Q.
Proof.
  intros H l Hl x. destruct (H x) as (g' & Hg & HQ).
  assert (at_guard (l ++ [Ev c x]) g') by (unfold at_guard; rewrite steps_snoc, Hl; exact Hg).
  split; [by exists g'|]. by exists g'.
Qed.
(** A call the automaton ignores. *)
Lemma spec_idle c g (Q : guard → aans c → Prop) :
  (∀ x, guard_step (Ev c x) g = Some g) → (∀ x, Q g x) → spec (rpc c) g Q.
Proof. intros H HQ. apply spec_rpc. intros x. exists g. auto. Qed.
Lemma spec_same {A} (p : apgm A) g (Q : guard → A → Prop) : spec p g (λ g' _, g' = g) → (∀ a, Q g a) → spec p g Q.
Proof. intros Hp HQ. eapply spec_post; [|exact Hp]. by intros g' a ->. Qed.

(** ** Controls *)

Definition free (g g' : guard) : Prop := g_lease g' = None ∧ g_known g' = g_known g ∧ g_fresh g' = [].
Lemma free_trans g1 g2 g3 : free g1 g2 → free g2 g3 → free g1 g3.
Proof. intros (? & ? & ?) (? & ? & ?). split_and!; [done|congruence|done]. Qed.

(** What was left behind on the way is the work on one record, and only when
    that failed. *)
Definition leaves (failed : Prop) (record : Aria2Record) (g g' : guard) : Prop :=
  ∃ new, g_left g' = g_left g ++ new ∧ ∀ x, x ∈ new → x.2 = Some record ∧ failed.
Lemma leaves_none failed record g g' : g_left g' = g_left g → leaves failed record g g'.
Proof. intros H. exists []. split; [by rewrite app_nil_r|]. by intros x ?%elem_of_nil. Qed.
Lemma leaves_mono (P Q : Prop) record g g' : (P → Q) → leaves P record g g' → leaves Q record g g'.
Proof. intros HPQ (new & H & Hn). exists new. split; [done|]. intros x [? ?]%Hn. auto. Qed.
Lemma leaves_snoc (P : Prop) record g g' g2 gid :
  leaves P record g g' → P → g_left g2 = g_left g' ++ [(gid, Some record)] → leaves P record g g2.
Proof.
  intros (new & H & Hn) HP H2. exists (new ++ [(gid, Some record)]). rewrite H2, H, app_assoc. split; [done|].
  intros x [?|Hx%list_elem_of_singleton]%elem_of_app; [auto|]. by rewrite Hx.
Qed.
Lemma join_some (a b : option goerr) : is_Some a ∨ is_Some b → is_Some (errors_Join [a; b]).
Proof.
  destruct (errors_Join [a; b]) eqn:H; [by eexists|]. pose proof (proj1 (errors_Join_None _) H) as Hn.
  rewrite (Hn a), (Hn b) by set_solver. by intros [[? ?]|[? ?]].
Qed.

(** Inside a lease: still held, nothing unsafe. *)
Definition held (record lease : Aria2Record) (g g' : guard) : Prop :=
  g_lease g' = Some (record, lease) ∧ g_known g' = g_known g ∧ g_fresh g' = [].
Lemma held_leased record lease g g' : held record lease g g' → leased g' (a_GID record) = true.
Proof. intros (H & _). unfold leased. rewrite H. apply String.eqb_refl. Qed.
Lemma held_gone record lease g g' gid e : held record lease g g' → held record lease g (gone g' gid e).
Proof. intros (? & ? & Hf). split_and!; [done|done|]. cbn. by rewrite Hf. Qed.
Lemma gone_left g gid e : g_fresh g = [] → g_left (gone g gid e) = g_left g.
Proof. intros Hf. cbn. rewrite Hf. by rewrite bool_decide_false, andb_false_r by (by intros ?%elem_of_nil). Qed.

Lemma reserve_spec record g :
  g_lease g = None → g_fresh g = [] → record ∈ values (g_known g) →
  spec (reserve record) g (λ g' r, match r with
    | Ok lease => held record lease g g' ∧ g_gone g' = false ∧ g_left g' = g_left g | Err _ => g' = g end).
Proof.
  intros Hf Hn Hk. apply spec_bind, spec_rpc. intros [[lease []]|e]; unfold guard_step; cbn [ev_call ev_answer];
    rewrite Hf; rewrite bool_decide_true by done; cbn [is_none andb]; (eexists; split; [reflexivity|]); apply spec_ret; try done.
Qed.

Lemma finish_spec record lease held_lease g g' status remove :
  held record held_lease g g' → set_owner lease "" = set_owner held_lease "" → (remove = true → g_gone g' = true) →
  spec (finishControl lease status remove) g' (λ g2 e, free g g2 ∧
    g_left g2 = g_left g' ++ match e with Some _ => [(a_GID record, Some record)] | None => [] end).
Proof.
  intros (Hl & Hk & Hf) Heq Hr. apply spec_bind, spec_rpc. intros [applied e]. unfold guard_step. cbn [ev_call ev_answer].
  rewrite Hl, bool_decide_true by done. replace (negb remove || g_gone g') with true by (destruct remove; [rewrite Hr; done|done]).
  eexists. split; [reflexivity|]. apply spec_ret. split; [done|]. cbn. unfold returned.
  destruct e as [e|], applied; cbn; rewrite ?app_nil_r; done.
Qed.

Lemma remove_step record lease g0 g x :
  held record lease g0 g → guard_step (Ev (RemoveTask (a_GID record)) x) g = Some (gone g (a_GID record) x) ∧
    guard_step (Ev (RemoveResult (a_GID record)) x) g = Some (gone g (a_GID record) x).
Proof. intros Hh. unfold guard_step. cbn. unfold may_control. by rewrite (held_leased _ _ _ _ Hh). Qed.

Lemma body_spec record lease held_lease action owner force g g0 :
  held record held_lease g0 g → set_owner lease "" = set_owner held_lease "" →
  spec (control_body record lease action owner force) g
    (λ g' c, held record held_lease g0 g' ∧ g_left g' = g_left g ∧ set_owner (ct_lease c) "" = set_owner held_lease "" ∧
             (ct_remove c = true → g_gone g' = true)).
Proof.
  intros Hh Heq. assert (Hpause : ∀ c, (∃ i, (c = Pause i ∨ c = ForcePause i ∨ c = Unpause i) ∧ i = a_GID record) →
    ∀ x, guard_step (Ev c x) g = Some g).
  { intros c (i & [->|[->| ->]] & ->) x; unfold guard_step; cbn; unfold may_control; by rewrite (held_leased _ _ _ _ Hh). }
  unfold control_body. apply spec_bind, spec_idle; [done|]. intros [status|e]; [|by apply spec_ret].
  destruct (String.eqb action "pause").
  - destruct (_ || _).
    + apply spec_ret. split_and!; [done|done| |done]. by destruct (negb _).
    + apply spec_bind. destruct force; (apply spec_idle; [apply Hpause; eauto|]); intros e; by apply spec_ret.
  - destruct (String.eqb action "resume").
    + destruct (negb _); [by apply spec_ret|]. apply spec_bind, spec_idle; [apply Hpause; eauto|]. intros e. by apply spec_ret.
    + destruct (String.eqb action "delete"); [|by apply spec_ret].
      apply spec_bind. destruct (_ || _ || _); apply spec_rpc; intros e;
        destruct (remove_step _ _ _ _ e Hh) as [H1 H2]; (eexists; split; [first [exact H1|exact H2]|]); apply spec_ret;
        (split_and!; [by apply held_gone|apply gone_left, Hh|done|]); cbn; intros ->; rewrite (held_leased _ _ _ _ Hh); apply orb_true_r.
Qed.

(** What a control of one record leaves: no lease, no unknown download, and
    whatever stays behind is in its error. *)
Definition controls (record : Aria2Record) (g g' : guard) (e : option goerr) : Prop := free g g' ∧ leaves (is_Some e) record g g'.
Lemma controls_finish record lease g g1 g2 (e e' : option goerr) :
  held record lease g g1 → leaves (is_Some e) record g g1 → free g g2 →
  g_left g2 = g_left g1 ++ match e' with Some _ => [(a_GID record, Some record)] | None => [] end →
  controls record g g2 (errors_Join [e; e']).
Proof.
  intros _ Hl Hf H2. split; [done|]. assert (Hm : is_Some e → is_Some (errors_Join [e; e'])) by (intros; apply join_some; by left).
  destruct e' as [x|].
  - eapply leaves_snoc; [by eapply leaves_mono|apply join_some; right; by eexists|exact H2].
  - rewrite app_nil_r in H2. destruct Hl as (new & H & Hn). exists new. rewrite H2. split; [done|]. intros y [? ?]%Hn. auto.
Qed.

Lemma owned_spec record action force owner g :
  g_lease g = None → g_fresh g = [] → record ∈ values (g_known g) →
  spec (performOwnedControl record action force owner) g (λ g' r, controls record g g' r.2).
Proof.
  intros Hf Hn Hk. apply spec_bind. eapply spec_post; [|by apply reserve_spec].
  intros g1 [lease|e]; [|intros ->; apply spec_ret; split; [done|by apply leaves_none]]. intros (Hh & Hg & Hl).
  apply spec_bind. eapply spec_post; [|by eapply body_spec]. intros g2 c (Hh2 & Hl2 & Heq & Hr).
  apply spec_bind. eapply spec_post; [|by eapply finish_spec]. intros g3 e [H3 Hl3]. apply spec_ret.
  eapply controls_finish; [exact Hh2|apply leaves_none; congruence|exact H3|exact Hl3].
Qed.

Lemma retry_body_spec record task url connections held_lease g g0 :
  held record held_lease g0 g →
  spec (retry_body record task url connections) g
    (λ g' '(changed, e), held record held_lease g0 g' ∧ leaves (is_Some e) record g g' ∧ (changed = true → g_gone g' = true)).
Proof.
  intros Hh. assert (Hsame : ∀ e : option goerr, leaves (is_Some e) record g g) by (intros e; by apply leaves_none).
  unfold retry_body. apply spec_bind, spec_idle; [done|]. intros [current|e]; [|by apply spec_ret].
  destruct (negb (isRetryable _)); [by apply spec_ret|].
  destruct (if String.eqb (a_Dir record) "" && String.eqb (a_Out record) "" then maybeAria2PathOptions task
            else (a_Dir record, a_Out record)) as [dir out].
  apply spec_bind, spec_rpc. intros [gid e]. unfold guard_step. cbn [ev_call ev_answer fst snd].
  eexists. split; [reflexivity|]. destruct e as [e|]; [by apply spec_ret|]. cbn [is_none andb].
  destruct (String.eqb gid "") eqn:Hgid; cbn [negb]; [by apply spec_ret|].
  destruct Hh as (Hl & Hk & Hn). rewrite Hn.
  apply spec_bind, spec_idle; [done|]. intros now. apply spec_bind, spec_rpc. intros stored. unfold guard_step. cbn [ev_call ev_answer].
  cbn [a_GID g_fresh]. rewrite bool_decide_true by left. eexists. split; [reflexivity|].
  assert (Hw : without gid [gid] = []) by (unfold without; rewrite filter_cons, decide_False; [done|]; intros H; by apply H).
  destruct stored as [e|]; cbn [is_none].
  - apply spec_bind, spec_rpc. intros removed. eexists. split.
    + unfold guard_step. cbn [ev_call ev_answer]. unfold may_control. cbn [g_fresh]. rewrite (bool_decide_true (gid ∈ [gid])) by left.
      rewrite orb_true_r. reflexivity.
    + apply spec_ret. assert (Hs : is_Some (errors_Join [Some (Wrapped "persist new gid" e); removed])) by (apply join_some; left; by eexists).
      split_and!; [split_and!; [done|done|cbn; exact Hw]| |done]. unfold gone. cbn [g_fresh g_left g_lease]. rewrite Hl.
      rewrite (bool_decide_true (gid ∈ [gid])) by left. rewrite andb_true_r. destruct (negb _); [|by apply leaves_none].
      eapply leaves_snoc; [by apply (leaves_none _ record g g)|exact Hs|reflexivity].
  - set (g2 := mkGuard _ _ true _ _). assert (Hh2 : held record held_lease g0 g2) by (split_and!; [done|done|exact Hw]).
    apply spec_bind, spec_rpc. intros removed. exists (gone g2 (a_GID record) removed). split.
    + apply (remove_step _ _ _ _ removed Hh2).
    + apply spec_ret. split_and!; [by apply held_gone| |done]. apply leaves_none. by rewrite gone_left.
Qed.

Lemma retry_spec record task url connections g :
  g_lease g = None → g_fresh g = [] → record ∈ values (g_known g) →
  spec (retryTask record task url connections) g (λ g' r, controls record g g' r.2).
Proof.
  intros Hf Hn Hk. apply spec_bind. eapply spec_post; [|by apply reserve_spec].
  intros g1 [lease|e]; [|intros ->; apply spec_ret; split; [done|by apply leaves_none]]. intros (Hh & Hg & Hl).
  apply spec_bind. eapply spec_post; [|by apply retry_body_spec]. intros g2 [changed e] (Hh2 & Hl2 & Hr).
  apply spec_bind. eapply spec_post; [|by eapply finish_spec]. intros g3 e' [H3 Hl3]. apply spec_ret.
  eapply controls_finish; [exact Hh2| |exact H3|exact Hl3]. unfold leaves in *. by rewrite Hl in Hl2.
Qed.

(** ** Listings *)

Lemma pages_spec pages query offset all g (Q : guard → _ → Prop) :
  (∀ offset num, spec (query offset num) g (λ g' _, g' = g)) → (∀ r, Q g r) → spec (listTaskPages pages query offset all) g Q.
Proof.
  intros Hq HQ. revert offset all. induction pages as [|pages IH]; intros offset all; cbn [listTaskPages]; [by apply spec_ret|].
  apply spec_bind, spec_idle; [done|]. intros [e|]; [by apply spec_ret|]. apply spec_bind.
  eapply spec_post; [|apply Hq]. intros g' [batch|e] ->; [|by apply spec_ret].
  destruct (_ <? _)%nat; [by apply spec_ret|apply IH].
Qed.
Lemma waiting_spec pages g (Q : guard → _ → Prop) : (∀ r, Q g r) → spec (listWaiting pages) g Q.
Proof. apply pages_spec. intros. by apply spec_idle. Qed.
Lemma stopped_spec pages g (Q : guard → _ → Prop) : (∀ r, Q g r) → spec (listStopped pages) g Q.
Proof. apply pages_spec. intros. by apply spec_idle. Qed.

Lemma owned_tasks_registered records seen all task :
  task ∈ owned_tasks records seen all → is_Some (records !! ds_GID task).
Proof.
  revert seen. induction all as [|t all IH]; intros seen; cbn [owned_tasks]; [by intros ?%elem_of_nil|].
  destruct (_ || _) eqn:Hc; [apply IH|]. intros [->|Ht]%elem_of_cons; [|by eapply IH].
  apply orb_false_iff in Hc as [_ Hc%negb_false_iff]. by apply bool_decide_eq_true in Hc.
Qed.
Lemma values_lookup (records : gmap string Aria2Record) gid : is_Some (records !! gid) → record_of records gid ∈ values records.
Proof.
  intros [r Hr]. unfold record_of. rewrite Hr. cbn. unfold values. apply list_elem_of_fmap. exists (gid, r).
  split; [done|]. by apply elem_of_map_to_list.
Qed.

Lemma listed_spec pages g (Q : guard → _ → Prop) :
  (∀ e g', g_lease g' = g_lease g → g_fresh g' = g_fresh g → g_left g' = g_left g → Q g' (Err e)) →
  (∀ tasks records, (∀ task, task ∈ tasks → is_Some (records !! ds_GID task)) →
     Q (mkGuard records (g_lease g) (g_gone g) (g_fresh g) (g_left g)) (Ok (tasks, records))) →
  spec (listOwnedTasks pages) g Q.
Proof.
  intros He Hok. apply spec_bind, spec_rpc. intros [records|e]; unfold guard_step; cbn [ev_call ev_answer];
    (eexists; split; [reflexivity|]); [|by apply spec_ret, He].
  apply spec_bind, spec_idle; [done|]. intros [active|e]; [|by apply spec_ret, He].
  apply spec_bind, waiting_spec. intros [waiting|e]; [|by apply spec_ret, He].
  apply spec_bind, stopped_spec. intros [stopped|e]; [|by apply spec_ret, He].
  apply spec_ret, Hok. intros task Ht. rewrite sort_by_perm in Ht. by eapply owned_tasks_registered.
Qed.

(** ** Every operation *)

Inductive request :=
  | RControl (gid action : string)
  | RAutomatic (owner : string) (resumeAny : bool) (gid action : string)
  | RClear | RPause | RStart
  | RRetry (prefix : string) (connections : Z)
  | RChange (action : string) (ids : list string)
  | RSubmit (account submitted uri taskID dir out : string) (connections : Z).
Definition only_error (p : apgm (option goerr)) : apgm (ActionResult * option goerr) := e ← p; Ret (no_action, e).
Definition perform (pages : nat) (r : request) : apgm (ActionResult * option goerr) :=
  match r with
  | RControl gid action => only_error (controlOne gid action)
  | RAutomatic owner resumeAny gid action => only_error (automatic_change owner resumeAny gid action)
  | RClear => ClearStopped pages
  | RPause => PauseAll pages
  | RStart => StartAll pages
  | RRetry prefix connections => RetryStopped pages prefix connections
  | RChange action ids => ChangeTasks action ids
  | RSubmit account submitted uri taskID dir out connections =>
      only_error ('(_, e) ← Submit account submitted uri taskID dir out connections; Ret e)
  end.

(** Everything that stays behind is named in the result: in its list of
    errors, under the GID whose record was worked on, or in the error. *)
Definition listed (g : guard) (r : ActionResult) : Prop :=
  ∀ x, x ∈ g_left g → ∃ gid record, x.2 = Some record ∧ g_known g !! gid = Some record ∧ gid ∈ ar_Errors r.
Definition done_ok (g : guard) (a : ActionResult * option goerr) : Prop :=
  g_lease g = None ∧ g_fresh g = [] ∧ (is_Some a.2 ∨ listed g a.1).

Definition idle (g : guard) : Prop := g_lease g = None ∧ g_fresh g = [].
Lemma free_idle g g' : free g g' → idle g'.
Proof. intros (? & _ & ?). done. Qed.
Lemma listed_nil g r : g_left g = [] → listed g r.
Proof. intros H x. rewrite H. by intros ?%elem_of_nil. Qed.
Lemma listed_step g g' record gid e (r r' : ActionResult) :
  listed g r → controls record g g' e → g_known g !! gid = Some record →
  (∀ x, x ∈ ar_Errors r → x ∈ ar_Errors r') → (is_Some e → gid ∈ ar_Errors r') → listed g' r'.
Proof.
  intros Hl ((_ & Hk & _) & new & Hnew & Hn) Hg Hr He x. rewrite Hnew, Hk. intros [Hx|Hx]%elem_of_app.
  - destruct (Hl x Hx) as (i & rec & ? & ? & ?). exists i, rec. auto.
  - destruct (Hn x Hx) as [? Hs]. exists gid, record. auto.
Qed.
Lemma listed_more g (r r' : ActionResult) : listed g r → (∀ x, x ∈ ar_Errors r → x ∈ ar_Errors r') → listed g r'.
Proof. intros Hl Hr x (i & rec & ? & ? & ?)%Hl. exists i, rec. auto. Qed.

Lemma add_control_errors gid changed e r :
  (∀ x, x ∈ ar_Errors r → x ∈ ar_Errors (add_control gid changed e (one_matched r))) ∧
  (is_Some e → gid ∈ ar_Errors (add_control gid changed e (one_matched r))).
Proof.
  unfold add_control. destruct e as [e|]; [cbn; split; [set_solver|set_solver]|]. split; [|by intros [? ?]].
  by destruct (changed : bool).
Qed.

(** A bulk operation over tasks of the listing. *)
Lemma control_all_spec matches (act : DownloadStatus → apgm (bool * option goerr)) tasks r g (Q : guard → ActionResult → Prop) :
  idle g → listed g r →
  (∀ task, task ∈ tasks → is_Some (g_known g !! ds_GID task)) →
  (∀ task g', free g g' → is_Some (g_known g !! ds_GID task) →
     spec (act task) g' (λ g2 p, controls (record_of (g_known g) (ds_GID task)) g' g2 p.2)) →
  (∀ g' r, free g g' → listed g' r → Q g' r) →
  spec (control_all matches act tasks r) g Q.
Proof.
  intros [Hf Hn] Hl Ht Ha HQ. assert (H : ∀ g', free g g' → listed g' r → spec (control_all matches act tasks r) g' Q); [|by apply H].
  clear Hl. revert r Ht. induction tasks as [|task tasks IH]; intros r Ht g' Hg Hl; cbn [control_all]; [apply spec_ret; auto|].
  assert (Ht' : ∀ t, t ∈ tasks → is_Some (g_known g !! ds_GID t)) by (intros t H; apply Ht; by right).
  destruct (matches task); [|by apply IH].
  pose proof (Ht task ltac:(left)) as [record Hrec].
  apply spec_bind. eapply spec_post; [|apply Ha; [done|by rewrite Hrec]]. intros g2 [changed e] Hg2. apply IH; [done| |].
  - eapply free_trans; [exact Hg|apply Hg2].
  - destruct (add_control_errors (ds_GID task) changed e r). eapply listed_step; [exact Hl|exact Hg2| |done|done].
    destruct Hg as (_ & -> & _). unfold record_of. by rewrite Hrec.
Qed.

Lemma with_owned_spec pages (k : list DownloadStatus → gmap string Aria2Record → apgm ActionResult) g :
  idle g → g_left g = [] →
  (∀ tasks records g', idle g' → g_known g' = records → g_left g' = [] →
     (∀ task, task ∈ tasks → is_Some (records !! ds_GID task)) →
     spec (k tasks records) g' (λ g2 r, idle g2 ∧ listed g2 r)) →
  spec (with_owned pages k) g done_ok.
Proof.
  intros [Hf Hn] Hleft Hk. apply spec_bind, listed_spec.
  - intros e g' Hg1 Hg2 Hg3. apply spec_ret. split_and!; [congruence|congruence|left; by eexists].
  - intros tasks records Hr. apply spec_bind. eapply spec_post; [|by apply Hk].
    intros g2 r [[H1 H2] H3]. apply spec_ret. split_and!; [done|done|by right].
Qed.
Lemma known_value (records : gmap string Aria2Record) gid : is_Some (records !! gid) → record_of records gid ∈ values records.
Proof. apply values_lookup. Qed.
(** The three loops of [control_all]. *)
Lemma bulk_spec pages matches (act : gmap string Aria2Record → DownloadStatus → apgm (bool * option goerr)) g :
  idle g → g_left g = [] →
  (∀ records task g', idle g' → g_known g' = records → is_Some (records !! ds_GID task) →
     spec (act records task) g' (λ g2 p, controls (record_of records (ds_GID task)) g' g2 p.2)) →
  spec (with_owned pages (λ tasks records, control_all matches (act records) tasks no_action)) g done_ok.
Proof.
  intros Hg Hl Ha. apply with_owned_spec; [done..|]. intros tasks records g' Hg' Hk Hl' Ht. rewrite <- Hk in *.
  apply control_all_spec; [done|by apply listed_nil|done| |].
  - intros task g2 Hg2 Hs. apply Ha; [by eapply free_idle|apply Hg2|done].
  - intros g2 r Hg2 Hr. split; [by eapply free_idle|done].
Qed.

Lemma retry_all_spec prefix connections records tasks r g (Q : guard → ActionResult → Prop) :
  idle g → g_known g = records → listed g r →
  (∀ task, task ∈ tasks → is_Some (records !! ds_GID task)) →
  (∀ g' r, free g g' → listed g' r → Q g' r) →
  spec (retry_all prefix connections records tasks r) g Q.
Proof.
  intros [Hf Hn] Hk Hl Ht HQ.
  assert (H : ∀ g', free g g' → listed g' r → spec (retry_all prefix connections records tasks r) g' Q); [|by apply H].
  clear Hl. revert r Ht. induction tasks as [|task tasks IH]; intros r Ht g' Hg Hl; cbn [retry_all]; [apply spec_ret; auto|].
  assert (Ht' : ∀ t, t ∈ tasks → is_Some (records !! ds_GID t)) by (intros t H; apply Ht; by right).
  destruct (negb _); [by apply IH|]. cbv zeta.
  set (url := if String.eqb (a_DownloadURL (record_of records (ds_GID task))) "" then firstTDLTaskURI task prefix
              else a_DownloadURL (record_of records (ds_GID task))).
  destruct (String.eqb url ""); [apply IH; [done|done|eapply listed_more; [exact Hl|cbn; set_solver]]|].
  pose proof (Ht task ltac:(left)) as [record Hrec].
  apply spec_bind. eapply spec_post; [|apply retry_spec; [apply Hg|apply Hg|]].
  2:{ destruct Hg as (_ & -> & _). rewrite Hk. apply known_value. by rewrite Hrec. }
  intros g2 [changed e] Hg2. cbn [snd] in Hg2. apply IH; [done|eapply free_trans; [exact Hg|apply Hg2]|].
  eapply listed_step; [exact Hl|exact Hg2| | |].
  - destruct Hg as (_ & -> & _). rewrite Hk. unfold record_of. by rewrite Hrec.
  - intros x Hx. destruct e as [e|], (changed : bool); cbn; set_solver.
  - intros [x ->]. destruct (changed : bool); cbn; set_solver.
Qed.

Lemma change_all_spec action records ids r g (Q : guard → _ → Prop) :
  idle g → g_known g = records → listed g r →
  (∀ g' r, free g g' → is_Some r.2 ∨ listed g' r.1 → Q g' r) →
  spec (change_all action records ids r) g Q.
Proof.
  intros [Hf Hn] Hk Hl HQ.
  assert (H : ∀ g', free g g' → listed g' r → spec (change_all action records ids r) g' Q); [|by apply H].
  clear Hl. revert r. induction ids as [|id ids IH]; intros r g' Hg Hl; cbn [change_all]; [apply spec_ret; auto|].
  destruct (records !! id) as [record|] eqn:Hid; [|by apply IH].
  apply spec_bind, spec_idle; [done|]. intros [e|]; [apply spec_ret, HQ; [done|left; by eexists]|].
  apply spec_bind. eapply spec_post; [|apply owned_spec; [apply Hg|apply Hg|]].
  - intros g2 [changed e] Hg2. cbn [snd] in Hg2. apply IH; [eapply free_trans; [exact Hg|apply Hg2]|].
    destruct (add_control_errors id changed e r). eapply listed_step; [exact Hl|exact Hg2| |done|done].
    destruct Hg as (_ & -> & _). by rewrite Hk.
  - destruct Hg as (_ & -> & _). rewrite Hk. pose proof (values_lookup records id ltac:(by rewrite Hid)) as H.
    unfold record_of in H. by rewrite Hid in H.
Qed.

Lemma get_records_spec g (Q : guard → _ → Prop) :
  (∀ e, Q g (Err e)) → (∀ records, Q (mkGuard records (g_lease g) (g_gone g) (g_fresh g) (g_left g)) (Ok records)) →
  spec (rpc GetRecords) g Q.
Proof. intros He Hok. apply spec_rpc. intros [records|e]; unfold guard_step; cbn; eexists; (split; [reflexivity|]); auto. Qed.
Lemma known_record (records : gmap string Aria2Record) gid record : records !! gid = Some record → record ∈ values records.
Proof. intros H. pose proof (values_lookup records gid ltac:(by rewrite H)) as Hv. unfold record_of in Hv. by rewrite H in Hv. Qed.

(** The end of an operation that returns an error or nothing. *)
Lemma done_error g (e : option goerr) : idle g → is_Some e ∨ g_left g = [] → done_ok g (no_action, e).
Proof. intros [? ?] [?|?]; (split_and!; [done|done|]); [by left|right; by apply listed_nil]. Qed.
Lemma done_control record g g' e e' :
  controls record g g' e → g_left g = [] → (is_Some e → is_Some e') → done_ok g' (no_action, e').
Proof.
  intros (Hf & new & Hnew & Hn) Hl He. apply done_error; [by eapply free_idle|]. rewrite Hl in Hnew. cbn in Hnew.
  destruct new as [|x new]; [by right|]. left. apply He. apply (Hn x). left.
Qed.

Lemma submit_spec account submitted uri taskID dir out connections g :
  idle g → g_left g = [] → spec (only_error ('(_, e) ← Submit account submitted uri taskID dir out connections; Ret e)) g done_ok.
Proof.
  intros [Hf Hn] Hl. assert (Hd : ∀ e, done_ok g (no_action, e)) by (intros e; apply done_error; [done|by right]).
  apply spec_bind, spec_bind, spec_bind, spec_idle; [done|]. intros [e|]; [by apply spec_ret, spec_ret, spec_ret|]. cbv zeta.
  destruct (negb _ && _); [by apply spec_ret, spec_ret, spec_ret|]. destruct (String.eqb (TrimSpace uri) ""); [by apply spec_ret, spec_ret, spec_ret|].
  apply spec_bind, spec_rpc. intros [gid e]. unfold guard_step. cbn [ev_call ev_answer fst snd].
  eexists. split; [reflexivity|]. destruct e as [e|]; [by apply spec_ret, spec_ret, spec_ret|]. cbn [is_none andb].
  destruct (String.eqb gid "") eqn:Hgid; cbn [negb]; [by apply spec_ret, spec_ret, spec_ret|]. rewrite Hn.
  apply spec_bind, spec_idle; [done|]. intros now. apply spec_bind, spec_rpc. intros stored. unfold guard_step. cbn [ev_call ev_answer].
  cbn [a_GID g_fresh]. rewrite bool_decide_true by left. eexists. split; [reflexivity|].
  assert (Hw : without gid [gid] = []) by (unfold without; rewrite filter_cons, decide_False; [done|]; intros H; by apply H).
  destruct stored as [e|]; [|apply spec_ret, spec_ret, spec_ret, done_error; [split; [done|exact Hw]|by right]].
  apply spec_bind, spec_rpc. intros removed. unfold guard_step. cbn [ev_call ev_answer is_none]. unfold may_control. cbn [g_fresh].
  rewrite (bool_decide_true (gid ∈ _)) by left. rewrite orb_true_r. eexists. split; [reflexivity|].
  apply spec_ret, spec_ret, spec_ret, done_error; [split; [done|exact Hw]|]. left. apply join_some. left. by eexists.
Qed.

Lemma perform_spec pages r : spec (perform pages r) guard0 done_ok.
Proof.
  assert (Hnone : ∀ g e, idle g → g_left g = [] → done_ok g (no_action, e)) by (intros g e ? ?; apply done_error; auto).
  assert (Hcontrol : ∀ action force records task g, idle g → g_known g = records → is_Some (records !! ds_GID task) →
    spec (performControl (record_of records (ds_GID task)) action force) g (λ g2 p, controls (record_of records (ds_GID task)) g g2 p.2)).
  { intros action force records task g [? ?] Hk Hs. apply owned_spec; [done..|]. rewrite Hk. by apply known_value. }
  destruct r; cbn [perform].
  - apply spec_bind, spec_bind, get_records_spec; [intros e; by apply spec_ret, spec_ret, Hnone|]. intros records.
    destruct (records !! gid) as [record|] eqn:Hr; [|by apply spec_ret, spec_ret, Hnone].
    apply spec_bind. eapply spec_post; [|apply owned_spec; [done|done|by eapply known_record]].
    intros g [changed e] Hg. apply spec_ret, spec_ret. by eapply done_control; [exact Hg| |].
  - apply spec_bind, spec_bind, get_records_spec; [intros e; by apply spec_ret, spec_ret, Hnone|]. intros records.
    destruct (records !! gid) as [record|] eqn:Hr; [|by apply spec_ret, spec_ret, Hnone]. destruct (_ && _); [by apply spec_ret, spec_ret, Hnone|].
    apply spec_bind. eapply spec_post; [|apply owned_spec; [done|done|by eapply known_record]].
    intros g [changed e] Hg. destruct e as [e|]; apply spec_ret, spec_ret; (eapply done_control; [exact Hg|done|]); [done|by intros [? ?]].
  - apply bulk_spec; [done..|]. intros records task g Hg Hk Hs. apply spec_bind. eapply spec_post; [|by apply Hcontrol].
    intros g2 [changed e] H2. by apply spec_ret.
  - apply bulk_spec; [done..|]. apply Hcontrol.
  - apply bulk_spec; [done..|]. apply Hcontrol.
  - apply with_owned_spec; [done..|]. intros tasks records g Hg Hk Hl Hr. apply retry_all_spec; [done|done|by apply listed_nil|done|].
    intros g2 r Hg2 Hr2. split; [by eapply free_idle|done].
  - unfold ChangeTasks. destruct (negb _); [by apply spec_ret, Hnone|].
    apply spec_bind, get_records_spec; [intros e; by apply spec_ret, Hnone|]. intros records.
    apply change_all_spec; [done|done|by apply listed_nil|]. intros g [r e] Hg Hr. split_and!; [apply Hg|apply Hg|exact Hr].
  - by apply submit_spec.
Qed.

(** C24: Every operation of the controller keeps the lease discipline, at every
    point of its execution and whatever the repository and the daemon answer:
    a daemon task is paused, resumed or removed only under a lease of a record
    the repository returned, or when the operation started it and it is not
    registered yet; a record is dropped only once its daemon task was removed
    or a replacement registered.  When the operation returns it has asked the
    repository to end every lease it took and the daemon to remove every
    download it could not register; each of these that was refused, or not
    applied, is reported, by the operation's error or under the record's GID
    in its list of errors, so that a result without errors leaves no lease and
    no unknown download. *)
Theorem lease_discipline pages r l p :
  reaches (perform pages r) l p → ∃ g, at_guard l g ∧ ∀ result e, p = Ret (result, e) →
    g_lease g = None ∧ g_fresh g = [] ∧ (is_Some e ∨ listed g result) ∧
    (e = None → ar_Errors result = [] → g_left g = []).
Proof.
  intros H. destruct (wp_reaches allowed (perform pages r) p [] l _ ltac:(by exists guard0) (perform_spec pages r [] eq_refl) H) as [[g Hg] Hw].
  destruct p as [[result e]|c k]; [|exists g; split; [exact Hg|done]].
  destruct Hw as (g' & Hg' & Hf & Hn & Hl). exists g'. split; [exact Hg'|]. intros ? ? [= <- <-]. split_and!; [done..|].
  intros -> He. destruct Hl as [[? ?]|Hl]; [done|]. destruct (g_left g') as [|x left] eqn:E; [done|].
  destruct (Hl x) as (gid & record & _ & _ & Hx); [rewrite E; left|]. cbn in Hx. rewrite He in Hx. by apply elem_of_nil in Hx.
Qed.

(** ** Automatic resumes *)

Definition only_of (record : Aria2Record) (c : acall) : Prop := match c with Unpause gid => gid = a_GID record | _ => True end.
Lemma owned_calls record action force owner lease :
  all_calls (only_of record) (c ← control_body record lease action owner force;
    e ← finishControl (ct_lease c) (ct_status c) (ct_remove c); Ret (ct_changed c, errors_Join [ct_err c; e])).
Proof.
  apply all_calls_bind; [|intros c; split; [exact I|]; intros [applied e]; exact I]. split; [exact I|]. intros [status|e]; [|exact I]. cbn.
  destruct (String.eqb action "pause"); [|destruct (String.eqb action "resume"); [|destruct (String.eqb action "delete"); [|done]]].
  - destruct (_ || _); [done|]. by destruct force.
  - by destruct (negb _).
  - by destruct (_ || _ || _).
Qed.

(** An automatic resume never undoes a user's pause: the daemon is asked
    to resume a task only if the record read by that resume names an owner of
    its pause (the same one, unless any owner will do), and only after a lease
    on exactly that revision was granted. *)
Theorem automatic_resume_owned owner resumeAny gid l p gid' x :
  reaches (automatic_change owner resumeAny gid "resume") l p → Ev (Unpause gid') x ∈ l →
  ∃ records record lease, Ev GetRecords (Ok records) ∈ l ∧ records !! gid = Some record ∧
    Ev (Reserve record) (Ok (lease, true)) ∈ l ∧ gid' = a_GID record ∧
    a_PauseOwner record ≠ "" ∧ (resumeAny = true ∨ a_PauseOwner record = owner).
Proof.
  intros H Hin. apply reaches_first in H as [->|(y & l1 & -> & H)]; [by apply elem_of_nil in Hin|].
  apply elem_of_cons in Hin as [[=]|Hin]. destruct y as [records|e]; cbn in H;
    [|apply reaches_first in H as ->; by apply elem_of_nil in Hin].
  destruct (records !! gid) as [record|] eqn:Hr; cbn in H; [|apply reaches_first in H as ->; by apply elem_of_nil in Hin].
  destruct (_ || _) eqn:Ho; cbn in H; [apply reaches_first in H as ->; by apply elem_of_nil in Hin|].
  apply orb_false_iff in Ho as [Ho1%String.eqb_neq Ho2].
  apply reaches_first in H as [->|(z & l2 & -> & H)]; [by apply elem_of_nil in Hin|].
  apply elem_of_cons in Hin as [[=]|Hin]. destruct z as [[lease []]|e]; cbn in H;
    [|apply reaches_first in H as ->; by apply elem_of_nil in Hin..].
  exists records, record, lease. split_and!; [left|done|right; left| |done|].
  - eapply (all_calls_log (only_of record)) in H; [|].
    + rewrite Forall_forall in H. by specialize (H _ Hin).
    + apply all_calls_bind; [apply owned_calls|]. intros [changed [e|]]; done.
  - destruct resumeAny; [by left|]. right. cbn in Ho2. by apply negb_false_iff, String.eqb_eq in Ho2.
Qed.

(** ** Paging *)

(** The next call of a run. *)
Ltac run_call :=
  match goal with |- context [run ?h (mbind ?k (rpc ?c)) ?s ?l] =>
    change (run h (mbind k (rpc c)) s l) with (let '(x, s') := h c s in run h (k x) s' (l ++ [Ev c x]))
  end.

Section paging.
Context (h : ∀ c, unit → aans c * unit) (all : list DownloadStatus).
Hypothesis serves : ∀ offset num, h (TellWaiting offset num) tt = (Ok (take num (drop offset all)), tt).
Hypothesis alive : h CtxErr tt = (None, tt).

Lemma pages_from n offset l :
  (offset ≤ length all)%nat → (length all - offset < n * aria2ControlBatchSize)%nat →
  ∃ l', run h (listTaskPages n (λ offset num, rpc (TellWaiting offset num)) offset (take offset all)) tt l = (Ok all, tt, l').
Proof.
  revert offset l. induction n as [|n IH]; intros offset l Ho Hn; [lia|]. cbn [listTaskPages].
  run_call. rewrite alive. cbv beta iota. run_call. rewrite serves. cbv beta iota. set (batch := take aria2ControlBatchSize (drop offset all)).
  assert (Hb : length batch = Nat.min aria2ControlBatchSize (length all - offset)) by (unfold batch; by rewrite length_take, length_drop).
  destruct (_ <? _)%nat eqn:Hlt.
  - apply Nat.ltb_lt in Hlt. eexists. cbn [run]. f_equal. f_equal. f_equal. unfold batch.
    rewrite (take_ge (drop offset all)) by (rewrite length_drop; lia). apply take_drop.
  - apply Nat.ltb_ge in Hlt. replace (take offset all ++ batch) with (take (offset + length batch) all).
    + apply IH; [lia|]. assert (0 < aria2ControlBatchSize)%nat by (unfold aria2ControlBatchSize; lia). lia.
    + replace (length batch) with aria2ControlBatchSize by lia. by rewrite <- take_take_drop.
Qed.

(** C38: Against a daemon that serves a list page by page, the paging loop
    ends and returns exactly that list, in its order, once it may make one
    query more than the list has full pages. *)
Theorem paging_complete pages l :
  (length all / aria2ControlBatchSize < pages)%nat →
  ∃ l', run h (listWaiting pages) tt l = (Ok all, tt, l').
Proof.
  intros Hp. apply (pages_from pages 0 l); [lia|]. assert (aria2ControlBatchSize ≠ 0)%nat by done.
  pose proof (Nat.div_mod_eq (length all) aria2ControlBatchSize) as Hd.
  pose proof (Nat.mod_upper_bound (length all) aria2ControlBatchSize ltac:(done)) as Hm. nia.
Qed.
End paging.

(** ** Listings and bulk results *)

Lemma owned_tasks_spec records seen all :
  NoDup (map ds_GID (owned_tasks records seen all)) ∧
  (∀ gid, gid ∈ map ds_GID (owned_tasks records seen all) ↔
     gid ∈ map ds_GID all ∧ gid ≠ "" ∧ (gid ∉ seen) ∧ is_Some (records !! gid)).
Proof.
  revert seen. induction all as [|t all IH]; intros seen; cbn [owned_tasks map].
  { split; [constructor|]. intros gid. split; [by intros ?%elem_of_nil|by intros [?%elem_of_nil _]]. }
  destruct (_ || _) eqn:Hc.
  - destruct (IH seen) as [H1 H2]. split; [done|]. intros gid. rewrite H2, elem_of_cons. split; [tauto|].
    intros ([->|?] & He & Hs & Hr); [|tauto]. exfalso. apply orb_true_iff in Hc as [[Hc|Hc]%orb_true_iff|Hc].
    + by apply String.eqb_eq in Hc.
    + by apply bool_decide_eq_true in Hc.
    + apply negb_true_iff, bool_decide_eq_false in Hc. done.
  - apply orb_false_iff in Hc as [[Hc1%String.eqb_neq Hc2%bool_decide_eq_false]%orb_false_iff Hc3%negb_false_iff%bool_decide_eq_true].
    destruct (IH ({[ds_GID t]} ∪ seen)) as [H1 H2]. cbn [map]. split.
    + constructor; [|done]. rewrite H2. set_solver.
    + intros gid. rewrite !elem_of_cons, H2. destruct (decide (gid = ds_GID t)) as [->|Hne]; [naive_solver|]. set_solver.
Qed.

(** A listing shows each registered task of the daemon once, ordered by
    GID, and nothing else: tasks of other clients on the daemon and entries
    without a GID are left out, and one that moved between the queues while
    they were read appears once. *)
Theorem owned_listing records all :
  let tasks := sort_by gid_le (owned_tasks records ∅ all) in
  NoDup (map ds_GID tasks) ∧ StronglySorted (λ a b, String.leb (ds_GID a) (ds_GID b) = true) tasks ∧
  ∀ gid, gid ∈ map ds_GID tasks ↔ gid ∈ map ds_GID all ∧ gid ≠ "" ∧ is_Some (records !! gid).
Proof.
  cbv zeta. destruct (owned_tasks_spec records ∅ all) as [H1 H2].
  assert (Hp : map ds_GID (sort_by gid_le (owned_tasks records ∅ all)) ≡ₚ map ds_GID (owned_tasks records ∅ all))
    by (apply Permutation_map, sort_by_perm).
  split_and!.
  - by rewrite Hp.
  - apply (sort_by_sorted gid_le); [intros; apply String.leb_total|intros x y z; apply leb_trans].
  - intros gid. rewrite Hp, H2. set_solver.
Qed.

Lemma add_control_counts gid changed e r :
  ar_Changed (add_control gid changed e r) + ar_Skipped (add_control gid changed e r) + Z.of_nat (length (ar_Errors (add_control gid changed e r)))
    = ar_Changed r + ar_Skipped r + Z.of_nat (length (ar_Errors r)) + 1 ∧
  ar_Matched (add_control gid changed e r) = ar_Matched r.
Proof. destruct e, changed; cbn; rewrite ?length_app; cbn; lia. Qed.

(** The result of a bulk control accounts for every listed task: each is
    changed, skipped or reported with an error, and matched are the tasks the
    operation is for, whatever the single controls answer. *)
Theorem bulk_accounting matches act tasks r l :
  wp (λ _, True) (control_all matches act tasks r) l (λ _ r',
    ar_Changed r' + ar_Skipped r' + Z.of_nat (length (ar_Errors r')) =
      ar_Changed r + ar_Skipped r + Z.of_nat (length (ar_Errors r)) + Z.of_nat (length tasks) ∧
    ar_Matched r' = ar_Matched r + Z.of_nat (length (filter (λ t, matches t = true) tasks))).
Proof.
  revert r l. induction tasks as [|task tasks IH]; intros r l; cbn [control_all]; [cbn; lia|].
  rewrite filter_cons. destruct (matches task).
  - rewrite decide_True by done. apply wp_bind. eapply wp_post; [|apply wp_true]. intros l1 [changed e] _.
    eapply wp_post; [|apply IH]. intros _ r' [H1 H2].
    destruct (add_control_counts (ds_GID task) changed e (one_matched r)) as [C1 C2]. rewrite C1, C2 in *. cbn in *. lia.
  - rewrite decide_False by done. eapply wp_post; [|apply IH]. intros _ r' [H1 H2]. cbn in *. lia.
Qed.

(** ** The regulator *)

Inductive rg_event := EError (now : Z) | EFinish (now : Z).
Definition rg_step (c : regulatorConfig) (ev : rg_event) (r : regulator) : option regulator :=
  Some (match ev with EError now => (recordError c now r).2 | EFinish now => finishRegulation now r end).
Definition rg_start : regulator := mkRegulator [] None false.

(** The errors reported since the last regulation ended, and when it did. *)
Fixpoint errors_since (es : list rg_event) (acc : list Z) : list Z :=
  match es with
  | [] => acc
  | EError now :: es => errors_since es (acc ++ [now])
  | EFinish _ :: es => errors_since es []
  end.
Fixpoint last_finish (es : list rg_event) (acc : option Z) : option Z :=
  match es with [] => acc | EError _ :: es => last_finish es acc | EFinish now :: es => last_finish es (Some now) end.
Lemma errors_since_snoc es now acc : errors_since (es ++ [EError now]) acc = errors_since es acc ++ [now].
Proof. revert acc. induction es as [|[t|t] es IH]; intros acc; cbn; auto. Qed.
Lemma errors_since_finish es now acc : errors_since (es ++ [EFinish now]) acc = [].
Proof. revert acc. induction es as [|[t|t] es IH]; intros acc; cbn; auto. Qed.
Lemma last_finish_error es now acc : last_finish (es ++ [EError now]) acc = last_finish es acc.
Proof. revert acc. induction es as [|[t|t] es IH]; intros acc; cbn; auto. Qed.
Lemma last_finish_finish es now acc : last_finish (es ++ [EFinish now]) acc = Some now.
Proof. revert acc. induction es as [|[t|t] es IH]; intros acc; cbn; auto. Qed.

Definition rg_ok (es : list rg_event) (r : regulator) : Prop :=
  sublist (rg_timestamps r) (errors_since es []) ∧ rg_lastAction r = last_finish es None.
Lemma rg_run c es r : steps (rg_step c) es rg_start = Some r → rg_ok es r.
Proof.
  revert r. induction es as [|ev es IH] using rev_ind; intros r; [by intros [= <-]|].
  rewrite steps_snoc. intros (r0 & H0 & H)%bind_Some. destruct (IH _ H0) as [Hs Hl]. apply (inj Some) in H. subst r.
  destruct ev as [now|now].
  - unfold rg_ok. rewrite errors_since_snoc, last_finish_error. unfold recordError.
    assert (Hsub : sublist (filter (λ ts, now - rc_Window c < ts) (rg_timestamps r0) ++ [now]) (errors_since es [] ++ [now])).
    { apply sublist_app; [|done]. etrans; [|exact Hs]. apply sublist_filter. }
    destruct (Z.of_nat _ <? _); [done|]. destruct (rg_regulating r0); [done|].
    destruct (rg_lastAction r0) as [last|]; [destruct (now - last <? _)|]; (split; [first [exact Hsub|apply sublist_nil_l]|exact Hl]).
  - split; cbn; [by rewrite errors_since_finish|by rewrite last_finish_finish].
Qed.

Lemma sublist_filter_mono {A} (P : A → Prop) `{!∀ x, Decision (P x)} (l k : list A) :
  sublist l k → sublist (filter P l) (filter P k).
Proof.
  induction 1 as [|x l k _ IH|x l k _ IH]; [constructor| |]; rewrite !filter_cons.
  - destruct (decide (P x)); [by constructor|done].
  - destruct (decide (P x)); [by constructor|done].
Qed.

(** The regulator reacts to real bursts only, and not too often: when it
    decides to pause downloads, at least [Threshold] errors were reported
    within the last [Window] and since the previous regulation ended, none is
    running, and the cooldown after the previous one has passed. *)
Theorem regulator_burst c es r now r' :
  steps (rg_step c) es rg_start = Some r → recordError c now r = (true, r') →
  rc_Threshold c ≤ Z.of_nat (length (filter (λ ts, now - rc_Window c < ts) (errors_since es []))) + 1 ∧
  rg_regulating r = false ∧ rg_regulating r' = true ∧
  (∀ last, last_finish es None = Some last → rc_Cooldown c ≤ now - last).
Proof.
  intros [Hs Hl]%rg_run. unfold recordError. set (kept := filter _ (rg_timestamps r)).
  destruct (Z.of_nat _ <? _) eqn:Ht; [done|]. destruct (rg_regulating r) eqn:Hr; [done|].
  set (early := match rg_lastAction r with Some _ => _ | None => _ end). destruct early eqn:Hc; [done|].
  intros [= <-]. split_and!; [|done|done|].
  - apply Z.ltb_ge in Ht. rewrite length_app in Ht. cbn in Ht.
    assert (length kept ≤ length (filter (λ ts, (now - rc_Window c < ts)%Z) (errors_since es [])))%nat; [|lia].
    apply sublist_length. by apply sublist_filter_mono.
  - intros last Hlast. unfold early in Hc. rewrite Hl, Hlast in Hc. apply Z.ltb_ge in Hc. lia.
Qed.

(** ** Witnesses *)

Definition demo_record : Aria2Record :=
  mkAria2 "regulator" false 0 "active" 3 "g1" "t1" "http://localhost/download/t1" "/data" "film.mkv" 5 "paused" 10 4 "".
Definition demo_status (status : string) : DownloadStatus := mkStatus "g1" status "10" "4" "0" "" "" [].
Definition demo_daemon (status : string) (waiting : list DownloadStatus) (c : acall) (_ : unit) : aans c * unit :=
  (match c return aans c with
   | CtxErr | Sleep => None
   | Now => 7
   | GetRecords => Ok {[ "g1" := demo_record ]}
   | Reserve r => Ok (a_lease r 4 100, true)
   | Finish _ _ _ | ApplyObservation _ _ => (true, None)
   | Snapshot => Ok (∅, ∅)
   | TellStatus _ => Ok (demo_status status)
   | TellActive => Ok [demo_status status; mkStatus "other" "active" "1" "0" "0" "" "" []]
   | TellWaiting offset num => Ok (take num (drop offset waiting))
   | TellStopped _ _ => Ok []
   | AddURI _ _ _ _ => ("g2", None)
   | StoreAdd _ | StoreReport _ _ | CleanupStore | Pause _ | ForcePause _ | Unpause _ | RemoveTask _ | RemoveResult _ => None
   end, tt).

Lemma demo_pause : map ev_call (run (demo_daemon "active" []) (perform 2 RPause) tt []).2 =
  [GetRecords; TellActive; CtxErr; TellWaiting 0 1000; CtxErr; TellStopped 0 1000; Reserve demo_record; TellStatus "g1";
   ForcePause "g1"; Finish (a_lease (set_owner demo_record "") 4 100) "paused" false].
Proof. vm_compute. reflexivity. Qed.
Lemma lease_discipline_witness :
  ∃ l r e g, reaches (perform 2 RPause) l (Ret (r, e)) ∧ length l = 10%nat ∧ at_guard l g ∧ g_lease g = None ∧
    (e = None → ar_Errors r = [] → g_left g = []).
Proof.
  pose proof demo_pause as Hc. pose proof (run_reaches (demo_daemon "active" []) (perform 2 RPause) tt []) as H.
  destruct (run (demo_daemon "active" []) (perform 2 RPause) tt []) as [[[r e] s] l]. destruct H as (l1 & -> & Hr).
  destruct (lease_discipline _ _ _ _ Hr) as (g & Hg & Hf). destruct (Hf r e eq_refl) as (H1 & _ & _ & H2).
  exists l1, r, e, g. cbn [app] in *. split_and!; [exact Hr| |exact Hg|exact H1|exact H2].
  apply (f_equal length) in Hc. cbn [snd] in Hc. rewrite length_map in Hc. exact Hc.
Defined.

Lemma demo_resume :
  (run (demo_daemon "paused" []) (automatic_change "regulator" false "g1" "resume") tt []).2 !! 3%nat = Some (Ev (Unpause "g1") None).
Proof. vm_compute. reflexivity. Qed.
Lemma automatic_resume_owned_witness :
  ∃ l p record lease, reaches (automatic_change "regulator" false "g1" "resume") l p ∧
    Ev (Unpause "g1") None ∈ l ∧ Ev (Reserve record) (Ok (lease, true)) ∈ l ∧ a_PauseOwner record = "regulator".
Proof.
  pose proof demo_resume as Hc.
  pose proof (run_reaches (demo_daemon "paused" []) (automatic_change "regulator" false "g1" "resume") tt []) as H.
  destruct (run (demo_daemon "paused" []) (automatic_change "regulator" false "g1" "resume") tt []) as [[e s] l].
  destruct H as (l1 & -> & Hr). cbn [app snd] in Hc. apply list_elem_of_lookup_2 in Hc.
  destruct (automatic_resume_owned _ _ _ _ _ _ _ Hr Hc) as (records & record & lease & _ & _ & Hl & _ & _ & [Ho|Ho]); [discriminate Ho|].
  exists l1, (Ret e), record, lease. split_and!; [exact Hr|exact Hc|exact Hl|exact Ho].
Defined.

Lemma paging_complete_witness :
  ∃ l', run (demo_daemon "active" [demo_status "waiting"]) (listWaiting 1) tt [] = (Ok [demo_status "waiting"], tt, l').
Proof. apply paging_complete; [reflexivity|reflexivity|vm_compute; lia]. Defined.

Definition demo_regulator : regulatorConfig := normalizeConfig (mkRegConfig 0 0 0).
Definition demo_errors : list rg_event := [EError 1; EError 2; EError 3; EFinish (5 * second); EError (14 * second); EError (15 * second)].
Definition demo_verdict : option bool :=
  r ← steps (rg_step demo_regulator) demo_errors rg_start; Some (recordError demo_regulator (16 * second) r).1.
Lemma demo_fires : demo_verdict = Some true.
Proof. vm_compute. reflexivity. Qed.
Lemma regulator_burst_witness :
  ∃ r r', steps (rg_step demo_regulator) demo_errors rg_start = Some r ∧ recordError demo_regulator (16 * second) r = (true, r') ∧
    rg_regulating r' = true ∧ rc_Cooldown demo_regulator ≤ 16 * second - 5 * second.
Proof.
  pose proof demo_fires as H. apply bind_Some in H as (r & Hr & H).
  destruct (recordError demo_regulator (16 * second) r) as [fires r'] eqn:E. injection H as ->.
  destruct (regulator_burst demo_regulator demo_errors r (16 * second) r' Hr E) as (_ & _ & Hreg & Hcool).
  exists r, r'. split_and!; [exact Hr|exact E|exact Hreg|exact (Hcool _ eq_refl)].
Defined.
