(* ===== verification/DownloadControl.v ===== *)
(** * Download control (application/download.control: plugin.go, config.go,
      service.go, links.go, catalog.go)

    The service that owns the downloads of an account: its admission of calls
    and its Stop, the configured route, control actions over the backends, and
    the catalog of download links with their submission.  The pipeline of the
    same component is Submission.v. *)

From Stdlib Require Import Ascii.
From S2P Require Import Prelude Strings Storage TaskTypes TargetPath Naming Prog.
Local Open Scope list_scope.

(** ** Admission and Stop (plugin.go) *)

(** [sv_calls]: the calls between [begin] and its [done], with whether the
    caller's context ended. *)
Record service := mkService {
  sv_closed : bool;
  sv_canceled : bool;             (* s.ctx, also when the runtime ends it *)
  sv_calls : gmap nat bool;
  sv_next : nat;
  sv_stopped : bool;              (* a Stop has returned nil *)
}.
Definition service_start : service := mkService false false ∅ 0 false.

Inductive service_label :=
  | SBegin (canceled : bool)      (* of the caller's context *)
  | SCallerCancel (id : nat)
  | SDone (id : nat)
  | SContext                      (* the runtime ends the component's context *)
  | SStop                         (* the locked part of Stop *)
  | SStopWait.                    (* active.Wait returns *)

(** [begin]: [None] is the refusal. *)
Definition begin_call (canceled : bool) (y : service) : option nat * service :=
  if canceled || sv_closed y || sv_canceled y then (None, y)
  else (Some (sv_next y), mkService (sv_closed y) (sv_canceled y) (<[sv_next y := false]> (sv_calls y)) (S (sv_next y)) (sv_stopped y)).
(** [ctx.Err()] of a call *)
Definition call_canceled (y : service) (id : nat) : bool := default true (sv_calls y !! id) || sv_canceled y.

Definition service_step (l : service_label) (y : service) : option service :=
  match l with
  | SBegin canceled => Some (begin_call canceled y).2
  | SCallerCancel id =>
      if bool_decide (is_Some (sv_calls y !! id))
      then Some (mkService (sv_closed y) (sv_canceled y) (<[id := true]> (sv_calls y)) (sv_next y) (sv_stopped y)) else None
  | SDone id =>
      if bool_decide (is_Some (sv_calls y !! id))
      then Some (mkService (sv_closed y) (sv_canceled y) (delete id (sv_calls y)) (sv_next y) (sv_stopped y)) else None
  | SContext => Some (mkService (sv_closed y) true (sv_calls y) (sv_next y) (sv_stopped y))
  | SStop => Some (mkService true true (sv_calls y) (sv_next y) (sv_stopped y))
  | SStopWait => if sv_closed y && bool_decide (sv_calls y = ∅) then Some (mkService true (sv_canceled y) ∅ (sv_next y) true) else None
  end.

(** ** The route (config.go) *)

Definition localExecutor : string := "local".
Definition aria2Executor : string := "aria2".
Definition httpExecutor : string := "http".
Definition known_executor (name : string) : bool :=
  String.eqb name localExecutor || String.eqb name aria2Executor || String.eqb name httpExecutor.

(** The loop over the configured executors. *)
Fixpoint check_executors (seen : gset string) (executors : list string) : res string (gset string) :=
  match executors with
  | [] => Ok seen
  | name :: rest =>
      if negb (known_executor name) || bool_decide (name ∈ seen) then Err "invalid or duplicate download executor"
      else if String.eqb name httpExecutor && negb (is_nil rest) then Err "http must be the final executor"
      else check_executors ({[name]} ∪ seen) rest
  end.
Definition PrepareConfig (executors : list string) (localRoot : string) : res string (list string * string) :=
  match executors with
  | [] => Err "executors cannot be empty"
  | first :: _ =>
      seen ← check_executors ∅ executors;
      let selected := if negb (String.eqb first httpExecutor) && bool_decide (httpExecutor ∈ seen) then [first; httpExecutor] else [first] in
      let localRoot := TrimSpace localRoot in
      if negb (String.eqb localRoot "") && negb (HasPrefix localRoot "/") then Err "local_root must be empty or an absolute local path"
      else Ok (selected, localRoot)
  end.

(** ** The calls of the service and the catalog *)

(** What the control reads of a backend's task; [bt_rest] is the rest. *)
Record BackendTask := mkBackend { bt_Account : string; bt_Executor : string; bt_ID : string; bt_Status : string; bt_State : string; bt_rest : string }.
Record ActionResult := mkAction { ar_Matched : Z; ar_Changed : Z; ar_Skipped : Z; ar_Errors : list string }.
Definition no_action : ActionResult := mkAction 0 0 0 [].

Record Entry := mkEntry { en_Status : string; en_Downloaded : bool; en_Total : Z; en_Completed : Z }.
Record LinkRecord := mkRecord {
  lr_Key : string; lr_Task : PersistentLink; lr_HTTPCompleted : bool; lr_HTTPCompletedAt : Z; lr_HTTPDelivered : Z;
  lr_Aria2 : list Entry; lr_Local : list Entry }.
Record CatalogSnapshot := mkSnapshot { cs_Records : list LinkRecord; cs_PublicBaseURL : string; cs_TTL : Z; cs_StatusError : string }.
(** [sr_Executor]: the executor that the mode needs is there. *)
Record SubmissionResources := mkSubmissionResources {
  sr_Records : gmap string value; sr_Mode : string; sr_PublicBaseURL : string; sr_RemoteDir : string;
  sr_Limit : Z; sr_Connections : Z; sr_Local : bool; sr_Remote : bool; sr_Repository : bool }.
Record LinkItem := mkItem {
  li_ID : string; li_Key : string; li_URL : string; li_FileName : string; li_FileSize : Z; li_PeerID : Z; li_MessageID : Z;
  li_CreatedAt : Z; li_ExpiresAt : option Z; li_Permanent : bool; li_Expired : bool; li_Downloaded : bool;
  li_HTTPDownloaded : bool; li_HTTPDownloadedAt : option Z; li_HTTPDelivered : Z; li_Status : string;
  li_Aria2 : list Entry; li_Local : list Entry }.

Inductive call :=
  | Begin
  | CtxErr
  | Now
  | ListTasks (executor : string)
  | ChangeTasks (executor action : string) (ids : list string)
  | ObserveLinks
  | MarkDownloaded (id : string)
  | GetSubmission
  | SubmitLocal (id : string)
  | SetLimit (limit : Z)
  | AddURI (link dir out : string) (connections : Z)
  | StoreAdd (record : Aria2Record)
  | RemoveLink (id : string).
Definition ans (c : call) : Type :=
  match c with
  | Begin | CtxErr | MarkDownloaded _ | SubmitLocal _ | SetLimit _ | StoreAdd _ => option goerr
  | Now => Z
  | ListTasks _ => res goerr (list BackendTask)
  | ChangeTasks _ _ _ => ActionResult * option goerr
  | ObserveLinks => res goerr CatalogSnapshot
  | GetSubmission => res goerr SubmissionResources
  | AddURI _ _ _ _ => string * option goerr
  | RemoveLink _ => Z * option goerr
  end.
Abbreviation pgm := (prog call ans).
Definition rpc (c : call) : pgm (ans c) := Prog.call c.
Arguments rpc c : simpl never.

(** ** The service (service.go) *)

Section service.
Context (account : string) (backends : list string).     (* the backends that are there *)

Definition backend (executor : string) : pgm (option goerr) :=
  canceled ← (rpc CtxErr : pgm (option goerr));
  Ret (match canceled with
       | Some e => Some e
       | None => if existsb (String.eqb executor) backends then None else Some (NewError "download executor is unavailable")
       end).

Definition owned_task (executor : string) (t : BackendTask) : BackendTask :=
  mkBackend account executor (bt_ID t) (bt_Status t) (NormalizeDownloadState (bt_Status t)) (bt_rest t).
Definition Tasks (executor : string) : pgm (res goerr (list BackendTask)) :=
  refused ← (rpc Begin : pgm (option goerr));
  match refused with
  | Some e => Ret (Err e)
  | None =>
      missing ← backend executor;
      match missing with
      | Some e => Ret (Err e)
      | None =>
          items ← (rpc (ListTasks executor) : pgm (res goerr (list BackendTask)));
          Ret (match items with Ok items => Ok (map (owned_task executor) items) | Err e => Err e end)
      end
  end.

(** The action a request names, and whether it is for all tasks. *)
Definition parse_action (raw : string) : string * bool :=
  let action := ToLower_ascii (TrimSpace raw) in
  let all := HasSuffix action "_all" in
  let action := if all then TrimSuffix action "_all" else action in
  (if String.eqb action "start" then "resume" else action, all).
Definition valid_action (action : string) : bool :=
  String.eqb action "pause" || String.eqb action "resume" || String.eqb action "delete".
Definition member (s : string) (l : list string) : bool := existsb (String.eqb s) l.
Definition action_statuses (action : string) (statuses : list string) : list string :=
  let statuses := map (λ s, ToLower_ascii (TrimSpace s)) statuses in
  if String.eqb action "delete" && is_nil statuses then ["complete"; "error"] else statuses.
Definition eligible (action : string) (statuses : list string) (status : string) : bool :=
  String.eqb action "delete" && member status statuses
  || String.eqb action "pause" && member status ["active"; "queued"; "waiting"; "error"]
  || String.eqb action "resume" && member status ["paused"; "error"].
Fixpoint unique_ids (seen : gset string) (ids : list string) : list string :=
  match ids with
  | [] => []
  | id :: ids =>
      let id := TrimSpace id in
      if String.eqb id "" || bool_decide (id ∈ seen) then unique_ids seen ids else id :: unique_ids ({[id]} ∪ seen) ids
  end.

Definition control_ids (executor action : string) (ids : list string) : pgm (ActionResult * option goerr) :=
  let ids := unique_ids ∅ ids in
  if is_nil ids then Ret (no_action, None) else rpc (ChangeTasks executor action ids).
Definition Control (reqAccount executor rawAction : string) (ids statuses : list string) : pgm (ActionResult * option goerr) :=
  refused ← (rpc Begin : pgm (option goerr));
  match refused with
  | Some e => Ret (no_action, Some e)
  | None =>
      if negb (String.eqb reqAccount account) then Ret (no_action, Some (NewError "download account mismatch"))
      else
        missing ← backend executor;
        match missing with
        | Some e => Ret (no_action, Some e)
        | None =>
            let '(action, all) := parse_action rawAction in
            if negb (valid_action action) then Ret (no_action, Some (NewError "unsupported download action"))
            else if all then
              items ← (rpc (ListTasks executor) : pgm (res goerr (list BackendTask)));
              match items with
              | Err e => Ret (no_action, Some e)
              | Ok items =>
                  control_ids executor action
                    (map bt_ID (filter (λ t, eligible action (action_statuses action statuses) (bt_Status t) = true) items))
              end
            else control_ids executor action ids
        end
  end.
End service.

(** ** Links (links.go) *)

Definition validLinkID (id : string) : bool :=
  negb (String.eqb id "") && negb (String.eqb id "index") && negb (ContainsAny id "/\").

(** [configured]: the repository and the local backend are there. *)
Definition RemoveDownloadLink (account reqAccount id : string) (configured : bool) : pgm (Z * option goerr) :=
  if negb (String.eqb reqAccount account) then Ret (0, Some (NewError "download link account mismatch"))
  else
    canceled ← (rpc CtxErr : pgm (option goerr));
    match canceled with
    | Some e => Ret (0, Some e)
    | None =>
        let id := TrimSpace id in
        if negb (validLinkID id) then Ret (0, Some (NewError "invalid download link id"))
        else if negb configured then Ret (0, Some (NewError "download link storage is not configured"))
        else
          '(result, e) ← (rpc (ChangeTasks localExecutor "delete" [id]) : pgm (ActionResult * option goerr));
          match e, ar_Errors result with
          | Some e, _ => Ret (ar_Changed result, Some e)
          | None, _ :: _ => Ret (ar_Changed result, Some (NewError "local download"))
          | None, [] =>
              '(removed, e) ← (rpc (RemoveLink id) : pgm (Z * option goerr));
              Ret (ar_Changed result + removed, e)
          end
    end.

(** ** The catalog (catalog.go) *)

Section catalog.
Context (account : string) (configured : bool).           (* the source is there *)
(** [url.PathEscape], [url.Parse] with scheme, host and path, and the URL
    with another path. *)
Context (PathEscape : string → string) (Parse : string → option (string * string * string)) (with_path : string → string → string).

Definition is_slash (a : ascii) : bool := Ascii.eqb a "/".
Definition DownloadURL (base id : string) : string :=
  let plain := "/download/" +:+ PathEscape id in
  if String.eqb base "" then plain
  else match Parse base with
       | Some (scheme, host, path) =>
           if String.eqb scheme "" || String.eqb host "" then plain
           else with_path base (TrimRight is_slash path +:+ "/download/" +:+ PathEscape id)
       | None => plain
       end.

Definition validate (reqAccount : string) : pgm (option goerr) :=
  if negb (String.eqb reqAccount account) then Ret (Some (NewError "download catalog account mismatch"))
  else
    canceled ← (rpc CtxErr : pgm (option goerr));
    Ret (match canceled with
         | Some e => Some e
         | None => if configured then None else Some (NewError "download catalog is not configured")
         end).

Definition entry_done (e : Entry) : bool := String.eqb (en_Status e) "complete" && ((en_Total e =? 0) || (en_Total e <=? en_Completed e)).
Definition done_entry (e : Entry) : Entry := mkEntry (en_Status e) (entry_done e) (en_Total e) (en_Completed e).

(** The item a record shows; [None]: the record has no activity stamp. *)
Definition link_item (public : string) (ttl now : Z) (r : LinkRecord) : option LinkItem :=
  let task := lr_Task r in
  if p_LastActiveAt task =? 0 then None
  else
    let aria2 := map done_entry (lr_Aria2 r) in
    let permanent := ttl <=? 0 in
    let expires := p_LastActiveAt task + ttl in
    let downloaded := p_Downloaded task || lr_HTTPCompleted r || existsb en_Downloaded aria2 || existsb entry_done (lr_Local r) in
    let status := foldl (λ _ e, en_Status e) (foldl (λ _ e, en_Status e) "not_submitted" aria2) (lr_Local r) in
    Some (mkItem (p_ID task) (lr_Key r) (DownloadURL public (p_ID task)) (p_FileName task) (p_FileSize task) (p_PeerID task)
      (p_MessageID task) (p_CreatedAt task) (if permanent then None else Some expires) permanent
      (negb permanent && (expires <=? now)) downloaded (lr_HTTPCompleted r)
      (if lr_HTTPCompleted r then Some (lr_HTTPCompletedAt r) else None) (lr_HTTPDelivered r) status aria2 (lr_Local r)).

Fixpoint list_links (public : string) (ttl now : Z) (records : list LinkRecord) (items : list LinkItem) (statusError : string)
    : pgm (res goerr (list LinkItem) * string) :=
  match records with
  | [] => Ret (Ok items, statusError)
  | r :: records =>
      canceled ← (rpc CtxErr : pgm (option goerr));
      match canceled with
      | Some e => Ret (Err e, statusError)
      | None =>
          match link_item public ttl now r with
          | None => Ret (Err (NewError "last_active_at is required"), statusError)
          | Some item =>
              if li_Downloaded item && negb (p_Downloaded (lr_Task r)) then
                failed ← (rpc (MarkDownloaded (li_ID item)) : pgm (option goerr));
                let statusError := match failed with
                                   | Some _ => (if String.eqb statusError "" then "" else statusError +:+ "; ")
                                               +:+ li_ID item +:+ ": persist download status"
                                   | None => statusError end in
                list_links public ttl now records (items ++ [item]) statusError
              else list_links public ttl now records (items ++ [item]) statusError
          end
      end
  end.
Definition ListLinks (reqAccount : string) : pgm (res goerr (list LinkItem) * string) :=
  invalid ← validate reqAccount;
  match invalid with
  | Some e => Ret (Err e, "")
  | None =>
      snapshot ← (rpc ObserveLinks : pgm (res goerr CatalogSnapshot));
      match snapshot with
      | Err e => Ret (Err e, "")
      | Ok s =>
          now ← (rpc Now : pgm Z);
          list_links (cs_PublicBaseURL s) (cs_TTL s) now (sort_by (λ a b, String.leb (lr_Key a) (lr_Key b)) (cs_Records s)) []
            (cs_StatusError s)
      end
  end.

(** ** Submitting links *)

Record SubmitResult := mkSubmit { sm_OK : bool; sm_Added : Z; sm_Skipped : Z; sm_Errors : list string }.
Definition sm_failed (e : string) : SubmitResult := mkSubmit false 0 0 [e].
Definition sm_error (e : string) (r : SubmitResult) : SubmitResult := mkSubmit (sm_OK r) (sm_Added r) (sm_Skipped r) (sm_Errors r ++ [e]).
Definition sm_skip (r : SubmitResult) : SubmitResult := mkSubmit (sm_OK r) (sm_Added r) (sm_Skipped r + 1) (sm_Errors r).
Definition sm_add (r : SubmitResult) : SubmitResult := mkSubmit (sm_OK r) (sm_Added r + 1) (sm_Skipped r) (sm_Errors r).
Definition sm_reject (e : string) (r : SubmitResult) : SubmitResult := sm_error e (sm_skip r).

(** The stored link of an ID; the error says what is wrong with it. *)
Definition find_link (sr : SubmissionResources) (id : string) : res string PersistentLink :=
  match sr_Records sr !! id with
  | None => Err "link record not found"
  | Some data =>
      match (unmarshal data : res err PersistentLink) with
      | Err _ => Err "json"
      | Ok task => if String.eqb (p_ID task) id then Ok task else Err "record id mismatch"
      end
  end.

(** One link at the daemon: the limit is configured first, once. *)
Definition submit_remote (sr : SubmissionResources) (id : string) (task : PersistentLink) (limited : bool) (r : SubmitResult)
    : pgm (SubmitResult * bool) :=
  failed ← (if limited then Ret None else (rpc (SetLimit (sr_Limit sr)) : pgm (option goerr)));
  match failed with
  | Some _ => Ret (sm_reject id r, false)
  | None =>
      let link := DownloadURL (sr_PublicBaseURL sr) (p_ID task) in
      '(gid, e) ← (rpc (AddURI link (sr_RemoteDir sr) (p_FileName task) (sr_Connections sr)) : pgm (string * option goerr));
      if bool_decide (is_Some e) || String.eqb gid "" then Ret (sm_reject id r, true)
      else
        let r := sm_add r in
        now ← (rpc Now : pgm Z);
        stored ← (rpc (StoreAdd (mkAria2 "" false 0 "" 0 gid (p_ID task) link (sr_RemoteDir sr) (p_FileName task) now "" 0 0 "")) : pgm (option goerr));
        Ret (match stored with Some _ => sm_error id r | None => r end, true)
  end.

Fixpoint submit_links (sr : SubmissionResources) (ids : list string) (seen : gset string) (limited : bool) (r : SubmitResult)
    : pgm SubmitResult :=
  match ids with
  | [] => Ret r
  | raw :: ids =>
      canceled ← (rpc CtxErr : pgm (option goerr));
      match canceled with
      | Some _ => Ret (sm_error "canceled" r)
      | None =>
          let id := TrimSpace raw in
          if String.eqb id "" then submit_links sr ids seen limited r
          else if negb (validLinkID id) then submit_links sr ids seen limited (sm_reject id r)
          else if bool_decide (id ∈ seen) then submit_links sr ids seen limited (sm_skip r)
          else
            let seen := {[id]} ∪ seen in
            match find_link sr id with
            | Err _ => submit_links sr ids seen limited (sm_reject id r)
            | Ok task =>
                if String.eqb (sr_Mode sr) localExecutor then
                  failed ← (rpc (SubmitLocal (p_ID task)) : pgm (option goerr));
                  submit_links sr ids seen limited (match failed with Some _ => sm_reject id r | None => sm_add r end)
                else
                  '(r, limited) ← submit_remote sr id task limited r;
                  submit_links sr ids seen limited r
            end
      end
  end.
Definition SubmitLinks (reqAccount : string) (ids : list string) : pgm SubmitResult :=
  invalid ← validate reqAccount;
  match invalid with
  | Some _ => Ret (sm_failed "validate")
  | None =>
      found ← (rpc GetSubmission : pgm (res goerr SubmissionResources));
      match found with
      | Err _ => Ret (sm_failed "source")
      | Ok sr =>
          let local := String.eqb (sr_Mode sr) localExecutor in
          if negb local && negb (String.eqb (sr_Mode sr) aria2Executor) then Ret (sm_failed "unsupported download executor")
          else if (local && negb (sr_Local sr)) || (negb local && (negb (sr_Remote sr) || negb (sr_Repository sr)))
          then Ret (sm_failed "download executor is not configured")
          else
            r ← submit_links sr ids ∅ false (mkSubmit true 0 0 []);
            Ret (mkSubmit (is_nil (sm_Errors r)) (sm_Added r) (sm_Skipped r) (sm_Errors r))
      end
  end.
End catalog.
