(* ===== verification/DownloadControlProps.v ===== *)
(** * Theorems about download control

    What a control action asks of a backend, the configured route, the drained
    Stop, and the submission of links. *)

From S2P Require Import Prelude Lts Strings Storage TaskTypes TargetPath Naming Prog DownloadControl.
Local Open Scope list_scope.

(** ** Control actions *)

Lemma action_ids_spec seen ids :
  NoDup (unique_ids seen ids) ∧
  ∀ id, id ∈ unique_ids seen ids ↔ id ≠ "" ∧ (id ∉ seen) ∧ ∃ raw, raw ∈ ids ∧ TrimSpace raw = id.
Proof.
  revert seen. induction ids as [|raw ids IH]; intros seen; cbn [unique_ids].
  { split; [constructor|]. intros id. split; [by intros ?%elem_of_nil|]. by intros (_ & _ & raw & ?%elem_of_nil & _). }
  destruct (_ || _) eqn:Hc.
  - destruct (IH seen) as [H1 H2]. split; [done|]. intros id. rewrite H2. split.
    + intros (? & ? & r & Hr & <-). split_and!; [done|done|]. exists r. split; [by right|done].
    + intros (Hne & Hs & r & [->|Hr]%elem_of_cons & <-); [|split_and!; [done|done|by exists r]].
      exfalso. apply orb_true_iff in Hc as [Hc%String.eqb_eq|Hc%bool_decide_eq_true]; done.
  - apply orb_false_iff in Hc as [Hc1%String.eqb_neq Hc2%bool_decide_eq_false].
    destruct (IH ({[TrimSpace raw]} ∪ seen)) as [H1 H2]. split.
    + constructor; [|done]. rewrite H2. set_solver.
    + intros id. rewrite elem_of_cons, H2. destruct (decide (id = TrimSpace raw)) as [->|Hne].
      * split; [|by left]. intros _. split_and!; [done|done|]. exists raw. split; [by left|done].
      * split.
        { intros [?|(? & ? & r & Hr & <-)]; [done|]. split_and!; [done|set_solver|]. exists r. split; [by right|done]. }
        { intros (? & ? & r & [->|Hr]%elem_of_cons & <-); [done|]. right. split_and!; [done|set_solver|by exists r]. }
Qed.

(** What a request may ask a backend to change. *)
Definition wanted (raw : string) (ids statuses : list string) (listed : option (list BackendTask)) (id : string) : Prop :=
  id ≠ "" ∧
  match listed with
  | Some items => ∃ t, t ∈ items ∧ TrimSpace (bt_ID t) = id ∧
      eligible (parse_action raw).1 (action_statuses (parse_action raw).1 statuses) (bt_Status t) = true
  | None => ∃ raw, raw ∈ ids ∧ TrimSpace raw = id
  end.

Lemma control_ids_first executor action ids l p executor' action' ids' x :
  reaches (control_ids executor action ids) l p → Ev (ChangeTasks executor' action' ids') x ∈ l →
  executor' = executor ∧ action' = action ∧ ids' = unique_ids ∅ ids ∧ ids' ≠ [].
Proof.
  intros H Hin. unfold control_ids in H. destruct (is_nil (unique_ids ∅ ids)) eqn:Hn.
  - apply reaches_first in H as ->. by apply elem_of_nil in Hin.
  - apply reaches_first in H as [->|(y & l' & -> & H)]; [by apply elem_of_nil in Hin|].
    apply reaches_first in H as ->. apply list_elem_of_singleton in Hin. injection Hin as -> -> -> _.
    split_and!; [done..|]. intros E. by rewrite E in Hn.
Qed.

(** A control action reaches a backend only for the service's own
    account, on a backend that exists, with an action that exists, and
    for exactly the wanted tasks: the trimmed IDs of the request, or, for an
    action on all, the listed tasks whose status is eligible for it; each ID
    once, and never an empty list. *)
Theorem control_targets account backends reqAccount executor raw ids statuses l p executor' action ids' x :
  reaches (Control account backends reqAccount executor raw ids statuses) l p →
  Ev (ChangeTasks executor' action ids') x ∈ l →
  reqAccount = account ∧ executor' = executor ∧ executor ∈ backends ∧ action = (parse_action raw).1 ∧
  valid_action action = true ∧ NoDup ids' ∧ ids' ≠ [] ∧
  ∃ listed, (∀ id, id ∈ ids' ↔ wanted raw ids statuses listed id) ∧
    if (parse_action raw).2 then ∃ items, listed = Some items ∧ Ev (ListTasks executor) (Ok items) ∈ l else listed = None.
Proof.
  intros H Hin. apply reaches_first in H as [->|(refused & l1 & -> & H)]; [by apply elem_of_nil in Hin|].
  apply elem_of_cons in Hin as [[=]|Hin]. destruct refused as [e|]; cbn [prog_bind mbind] in H;
    [apply reaches_first in H as ->; by apply elem_of_nil in Hin|].
  destruct (negb (String.eqb reqAccount account)) eqn:Ha; [apply reaches_first in H as ->; by apply elem_of_nil in Hin|].
  apply negb_false_iff, String.eqb_eq in Ha as ->.
  apply reaches_first in H as [->|(canceled & l2 & -> & H)]; [by apply elem_of_nil in Hin|].
  apply elem_of_cons in Hin as [[=]|Hin]. destruct canceled as [e|]; cbn -[control_ids parse_action valid_action eligible] in H;
    [apply reaches_first in H as ->; by apply elem_of_nil in Hin|].
  destruct (existsb (String.eqb executor) backends) eqn:Hb;
    [|apply reaches_first in H as ->; by apply elem_of_nil in Hin].
  apply existsb_exists in Hb as (? & Hb & <-%String.eqb_eq). apply list_elem_of_In in Hb.
  destruct (parse_action raw) as [action0 all] eqn:Hp. cbn [fst snd].
  destruct (valid_action action0) eqn:Hv; [|apply reaches_first in H as ->; by apply elem_of_nil in Hin]. cbn [negb] in H.
  destruct all.
  - apply reaches_first in H as [->|(items & l3 & -> & H)]; [by apply elem_of_nil in Hin|].
    apply elem_of_cons in Hin as [[=]|Hin]. destruct items as [items|e]; cbn -[control_ids] in H;
      [|apply reaches_first in H as ->; by apply elem_of_nil in Hin].
    destruct (control_ids_first _ _ _ _ _ _ _ _ _ H Hin) as (-> & -> & -> & Hne).
    match goal with |- context [unique_ids ∅ ?l] => destruct (action_ids_spec ∅ l) as [Hnd Hids] end.
    split_and!; [done..|]. exists (Some items). split; [|exists items; split; [done|right; right; left]].
    intros id. rewrite Hids. unfold wanted. rewrite Hp. cbn [fst]. split.
    + intros (? & _ & r & (t & -> & Ht)%list_elem_of_fmap & <-). apply list_elem_of_filter in Ht as [He Ht]. eauto 6.
    + intros (? & t & Ht & <- & He). split_and!; [done|set_solver|]. exists (bt_ID t). split; [|done].
      apply list_elem_of_fmap. exists t. split; [done|]. by apply list_elem_of_filter.
  - destruct (control_ids_first _ _ _ _ _ _ _ _ _ H Hin) as (-> & -> & -> & Hne).
    destruct (action_ids_spec ∅ ids) as [Hnd Hids]. split_and!; [done..|]. exists None. split; [|done].
    intros id. rewrite Hids. unfold wanted. split; [intros (? & _ & ?); done|]. intros [? ?]. split_and!; [done|set_solver|done].
Qed.

(** ** The route *)

Lemma check_executors_spec seen executors :
  match check_executors seen executors with
  | Ok seen' => (∀ name, name ∈ executors → known_executor name = true ∧ (name ∉ seen)) ∧ NoDup executors ∧
      (∀ l1 l2, executors = l1 ++ httpExecutor :: l2 → l2 = []) ∧ seen' = list_to_set executors ∪ seen
  | Err _ => (∃ name, name ∈ executors ∧ (known_executor name = false ∨ name ∈ seen)) ∨ ¬ NoDup executors ∨
      ∃ l1 l2, executors = l1 ++ httpExecutor :: l2 ∧ l2 ≠ []
  end.
Proof.
  revert seen. induction executors as [|name rest IH]; intros seen; cbn [check_executors].
  { split_and!; [by intros ? ?%elem_of_nil|constructor|by intros [] ?|set_solver]. }
  destruct (_ || _) eqn:Hc.
  { left. exists name. split; [left|]. apply orb_true_iff in Hc as [Hc%negb_true_iff|Hc%bool_decide_eq_true]; auto. }
  apply orb_false_iff in Hc as [Hk%negb_false_iff Hs%bool_decide_eq_false].
  destruct (String.eqb name httpExecutor && negb (is_nil rest)) eqn:Hh.
  { apply andb_true_iff in Hh as [->%String.eqb_eq Hr]. right. right. exists [], rest. split; [done|]. by destruct rest. }
  specialize (IH ({[name]} ∪ seen)). destruct (check_executors _ rest) as [seen'|e].
  - destruct IH as (H1 & H2 & H3 & ->). split_and!.
    + intros n [->|Hn]%elem_of_cons; [done|]. specialize (H1 n Hn). set_solver.
    + constructor; [|done]. intros Hn. specialize (H1 name Hn). set_solver.
    + intros [|n l1] l2 [= -> ->]; [|by eapply H3]. cbn in Hh. by destruct l2.
    + set_solver.
  - destruct IH as [(n & Hn & [Hf|[->%elem_of_singleton|Hin]%elem_of_union])|[Hd|(l1 & l2 & -> & Hl)]].
    + left. exists n. split; [by right|by left].
    + right. left. intros [? _]%NoDup_cons. done.
    + left. exists n. split; [by right|by right].
    + right. left. intros [_ ?]%NoDup_cons. done.
    + right. right. exists (name :: l1), l2. done.
Qed.

(** A route configuration is accepted exactly when it names at least one
    executor, only known ones, none twice, http last if at all, and the local
    root is empty or absolute; the route then tries the first executor only,
    and the link executor after it if that was configured. *)
Theorem route_configuration executors localRoot :
  match PrepareConfig executors localRoot with
  | Ok (route, root) =>
      (∃ first rest, executors = first :: rest ∧ (first = httpExecutor ∨ first = localExecutor ∨ first = aria2Executor) ∧
         route = first :: (if bool_decide (httpExecutor ∈ rest) then [httpExecutor] else [])) ∧
      root = TrimSpace localRoot ∧ (root = "" ∨ HasPrefix root "/" = true)
  | Err _ =>
      executors = [] ∨ (∃ name, name ∈ executors ∧ known_executor name = false) ∨ ¬ NoDup executors ∨
      (∃ l1 l2, executors = l1 ++ httpExecutor :: l2 ∧ l2 ≠ []) ∨
      TrimSpace localRoot ≠ "" ∧ HasPrefix (TrimSpace localRoot) "/" = false
  end.
Proof.
  unfold PrepareConfig. destruct executors as [|first rest]; [by left|].
  pose proof (check_executors_spec ∅ (first :: rest)) as H. destruct (check_executors ∅ (first :: rest)) as [seen|e]; cbn [mbind res_bind].
  2: { destruct H as [(n & Hn & [Hf|Hin])|[Hd|Hl]]; [right; left; by exists n|set_solver|auto 6..]. }
  destruct H as (Hk & Hn & Hh & ->). destruct (negb _ && negb _) eqn:Hr.
  - apply andb_true_iff in Hr as [Hr1%negb_true_iff%String.eqb_neq Hr2%negb_true_iff]. do 4 right. done.
  - apply andb_false_iff in Hr. split_and!; [|done|].
    + exists first, rest. split; [done|]. destruct (Hk first ltac:(left)) as [Hf _]. split.
      * unfold known_executor in Hf. rewrite !orb_true_iff, !String.eqb_eq in Hf. tauto.
      * destruct (String.eqb first httpExecutor) eqn:E; cbn [negb andb].
        { apply String.eqb_eq in E as ->. rewrite bool_decide_false; [done|]. by apply NoDup_cons in Hn as [? _]. }
        apply String.eqb_neq in E. rewrite (bool_decide_ext (httpExecutor ∈ _) (httpExecutor ∈ rest)) by set_solver.
        by destruct (bool_decide (httpExecutor ∈ rest)).
    + destruct Hr as [Hr|Hr]; apply negb_false_iff in Hr; [left; by apply String.eqb_eq|by right].
Qed.

(** ** Submitting links *)

Section links.
Context (account : string) (configured : bool).
Context (PathEscape : string → string) (Parse : string → option (string * string * string)) (with_path : string → string → string).
Abbreviation url := (DownloadURL PathEscape Parse with_path).

(** What was handed out: the ID to the local downloader, the link to the daemon. *)
Definition handed (ev : event call ans) : option string :=
  match ev_call ev with SubmitLocal id => Some id | AddURI link _ _ _ => Some link | _ => None end.
Definition taken (ev : event call ans) : bool :=
  match ev_call ev as c return ans c → bool with
  | SubmitLocal _ => λ e, match e with None => true | Some _ => false end
  | AddURI _ _ _ _ => λ x, negb (bool_decide (is_Some x.2) || String.eqb x.1 "")
  | _ => λ _, false
  end (ev_answer ev).
Definition count_taken (l : list (event call ans)) : Z := Z.of_nat (length (filter (λ ev, taken ev = true) l)).
Definition key (sr : SubmissionResources) (id : string) : string :=
  if String.eqb (sr_Mode sr) localExecutor then id else url (sr_PublicBaseURL sr) id.

Lemma url_inj base :
  Inj (=) (=) PathEscape → (∀ base, Inj (=) (=) (with_path base)) → Inj (=) (=) (url base).
Proof.
  intros He Hw x y. unfold DownloadURL.
  assert (Hplain : ∀ p, p +:+ PathEscape x = p +:+ PathEscape y → x = y) by (intros p E%(inj (String.append p)); by apply (inj PathEscape)).
  destruct (String.eqb base ""); [apply Hplain|]. destruct (Parse base) as [[[scheme host] path]|]; [|apply Hplain].
  destruct (_ || _); [apply Hplain|]. intros E%(inj (with_path base))%(inj (String.append _))%(inj (String.append _)). by apply (inj PathEscape).
Qed.
Lemma link_key_inj sr : Inj (=) (=) PathEscape → (∀ base, Inj (=) (=) (with_path base)) → Inj (=) (=) (key sr).
Proof. intros He Hw x y. unfold key. destruct (String.eqb _ _); [done|]. by apply url_inj. Qed.
Lemma count_app l1 l2 : count_taken (l1 ++ l2) = count_taken l1 + count_taken l2.
Proof. unfold count_taken. rewrite filter_app, length_app. lia. Qed.
Lemma count_one ev : count_taken [ev] = if taken ev then 1 else 0.
Proof. unfold count_taken. rewrite filter_cons. destruct (taken ev); [rewrite decide_True by done|rewrite decide_False by done]; done. Qed.
Lemma handed_snoc l ev : omap handed (l ++ [ev]) = omap handed l ++ option_list (handed ev).
Proof. rewrite omap_app. cbn. by destruct (handed ev). Qed.

(** The log so far: links of [seen] only, each once, counted. *)
Definition links_ok (sr : SubmissionResources) (seen : gset string) (l : list (event call ans)) (r : SubmitResult) : Prop :=
  NoDup (omap handed l) ∧ (∀ k, k ∈ omap handed l → ∃ id, id ∈ seen ∧ k = key sr id) ∧ sm_Added r = count_taken l.
Lemma links_idle sr seen l r ev : handed ev = None → taken ev = false → links_ok sr seen l r → links_ok sr seen (l ++ [ev]) r.
Proof.
  intros Hh Ht (H1 & H2 & H3). unfold links_ok. rewrite handed_snoc, Hh, count_app, count_one, Ht. cbn. rewrite app_nil_r, Z.add_0_r. done.
Qed.
Lemma links_hand sr seen l r r' ev id :
  Inj (=) (=) (key sr) → (id ∉ seen) → handed ev = Some (key sr id) → sm_Added r' = sm_Added r + (if taken ev then 1 else 0) →
  links_ok sr seen l r → links_ok sr ({[id]} ∪ seen) (l ++ [ev]) r'.
Proof.
  intros Hinj Hs Hh Ha (H1 & H2 & H3). unfold links_ok. rewrite handed_snoc, Hh, count_app, count_one, Ha, H3. split_and!; [|..|done].
  - apply NoDup_app. split_and!; [done| |apply NoDup_singleton]. intros k Hk ->%list_elem_of_singleton.
    destruct (H2 _ Hk) as (id' & Hin & E). apply Hinj in E as <-. done.
  - intros k [Hk| ->%list_elem_of_singleton]%elem_of_app; [|exists id; set_solver]. destruct (H2 k Hk) as (id' & ? & ?). exists id'. set_solver.
Qed.
Lemma links_seen sr seen seen' l r : seen ⊆ seen' → links_ok sr seen l r → links_ok sr seen' l r.
Proof. intros H (H1 & H2 & H3). split_and!; [done| |done]. intros k Hk. destruct (H2 k Hk) as (id & ? & ?). exists id. set_solver. Qed.
Lemma links_result sr seen l r r' : sm_Added r' = sm_Added r → links_ok sr seen l r → links_ok sr seen l r'.
Proof. intros E (? & ? & ?). split_and!; [done..|congruence]. Qed.

Definition tried (r : SubmitResult) : Z := sm_Added r + sm_Skipped r.

Lemma remote_spec sr id task limited r seen l :
  Inj (=) (=) (key sr) → (id ∉ seen) → p_ID task = id → String.eqb (sr_Mode sr) localExecutor = false →
  links_ok sr seen l r →
  wp (λ _, True) (submit_remote PathEscape Parse with_path sr id task limited r) l
    (λ l' '(r', _), links_ok sr ({[id]} ∪ seen) l' r' ∧ tried r' = tried r + 1).
Proof.
  intros Hinj Hs Hid Hm Hl.
  assert (Hwp : ∀ l, links_ok sr seen l r → wp (λ _, True)
    ('(gid, e) ← (rpc (AddURI (url (sr_PublicBaseURL sr) (p_ID task)) (sr_RemoteDir sr) (p_FileName task) (sr_Connections sr)) : pgm (string * option goerr));
      if bool_decide (is_Some e) || String.eqb gid "" then Ret (sm_reject id r, true)
      else
        let r := sm_add r in
        now ← (rpc Now : pgm Z);
        stored ← (rpc (StoreAdd (mkAria2 "" false 0 "" 0 gid (p_ID task) (url (sr_PublicBaseURL sr) (p_ID task)) (sr_RemoteDir sr) (p_FileName task) now "" 0 0 "")) : pgm (option goerr));
        Ret (match stored with Some _ => sm_error id r | None => r end, true)) l
    (λ l' '(r', _), links_ok sr ({[id]} ∪ seen) l' r' ∧ tried r' = tried r + 1)).
  { intros l1 Hl1 [gid e]. split; [done|].
    assert (Hh : ∀ r', sm_Added r' = sm_Added r + (if negb (bool_decide (is_Some e) || String.eqb gid "") then 1 else 0) →
      links_ok sr ({[id]} ∪ seen) (l1 ++ [Ev (AddURI (url (sr_PublicBaseURL sr) (p_ID task)) (sr_RemoteDir sr) (p_FileName task) (sr_Connections sr)) (gid, e)]) r').
    { intros r' Hr'. eapply links_hand; [done..| |exact Hr'|done]. unfold key. rewrite Hm. cbn. by rewrite Hid. }
    cbn [wp mbind prog_bind]. destruct (bool_decide (is_Some e) || String.eqb gid "").
    - split; [apply Hh; cbn; lia|]. unfold tried. cbn. lia.
    - intros now. split; [done|]. intros stored. split; [done|].
      assert (Hok : links_ok sr ({[id]} ∪ seen) ((l1 ++ [Ev (AddURI (url (sr_PublicBaseURL sr) (p_ID task)) (sr_RemoteDir sr) (p_FileName task) (sr_Connections sr)) (gid, e)]) ++ [Ev Now now]) (sm_add r))
        by (apply links_idle; [done..|]; by apply Hh).
      split; [|unfold tried; destruct stored; cbn; lia].
      apply links_idle; [done..|]. eapply links_result; [|exact Hok]. by destruct stored. }
  unfold submit_remote. destruct limited; cbn [mbind prog_bind].
  - by apply Hwp.
  - intros failed. split; [done|]. destruct failed as [e|].
    + cbn. split; [|unfold tried; cbn; lia]. eapply links_seen; [|apply links_idle; [done..|]; by eapply links_result]. set_solver.
    + apply Hwp. by apply links_idle.
Qed.

Lemma find_link_id sr id task : find_link sr id = Ok task → p_ID task = id.
Proof.
  unfold find_link. destruct (sr_Records sr !! id) as [data|]; [|done]. destruct (unmarshal data) as [t|]; [|done].
  destruct (String.eqb (p_ID t) id) eqn:E; [|done]. intros [= <-]. by apply String.eqb_eq.
Qed.

Lemma submit_links_spec sr ids seen limited r l :
  Inj (=) (=) (key sr) → links_ok sr seen l r →
  wp (λ _, True) (submit_links PathEscape Parse with_path sr ids seen limited r) l
    (λ l' r', (∃ seen', links_ok sr seen' l' r') ∧
       tried r ≤ tried r' ≤ tried r + Z.of_nat (length (filter (λ raw, TrimSpace raw ≠ "") ids))).
Proof.
  intros Hinj. revert seen limited r l. induction ids as [|raw ids IH]; intros seen limited r l Hl; cbn [submit_links].
  { split; [by exists seen|]. cbn. lia. }
  intros canceled. split; [done|]. set (l1 := l ++ _). assert (Hl1 : links_ok sr seen l1 r) by by apply links_idle.
  rewrite filter_cons. destruct canceled as [e|]; cbn [mbind prog_bind].
  { split; [exists seen; by eapply links_result|]. destruct (decide _); unfold tried; cbn [sm_error sm_Added sm_Skipped]; lia. }
  destruct (String.eqb (TrimSpace raw) "") eqn:Hid; [apply String.eqb_eq in Hid|apply String.eqb_neq in Hid].
  { rewrite decide_False by (intros H; by apply H). by apply IH. }
  rewrite decide_True by done. cbn [length].
  assert (Hskip : ∀ seen' l' r', links_ok sr seen' l' r' → tried r' = tried r + 1 → ∀ limited, wp (λ _, True)
     (submit_links PathEscape Parse with_path sr ids seen' limited r') l' (λ l' r', (∃ seen', links_ok sr seen' l' r') ∧
       tried r ≤ tried r' ≤ tried r + Z.of_nat (S (length (filter (λ raw, TrimSpace raw ≠ "") ids))))).
  { intros seen' l' r' Hok Ht limited'. eapply wp_post; [|by apply IH]. intros l2 r2 [? ?]. split; [done|]. lia. }
  destruct (negb (validLinkID _)).
  { apply Hskip; [by eapply links_result|]. unfold tried. cbn. lia. }
  destruct (bool_decide (TrimSpace raw ∈ seen)) eqn:Hseen; [|apply bool_decide_eq_false in Hseen].
  { apply Hskip; [by eapply links_result|]. unfold tried. cbn. lia. }
  cbv zeta. destruct (find_link sr (TrimSpace raw)) as [task|e] eqn:Hf.
  2: { apply Hskip; [|unfold tried; cbn; lia]. eapply links_seen; [|by eapply links_result]. set_solver. }
  apply find_link_id in Hf. destruct (String.eqb (sr_Mode sr) localExecutor) eqn:Hm.
  - intros failed. split; [done|]. apply Hskip; [|unfold tried; destruct failed; cbn; lia].
    eapply links_hand; [done..| | |exact Hl1].
    + unfold key. rewrite Hm. cbn. by rewrite Hf.
    + cbn. destruct failed; cbn; lia.
  - apply wp_bind. eapply wp_post; [|by apply remote_spec]. intros l2 [r2 limited2] [Hok Ht]. by apply Hskip.
Qed.

(** Submitting links hands out each link at most once, however often its
    ID is listed, counts as added exactly those a downloader took, never more
    than were asked for, and reports success exactly when there is no error. *)
Theorem links_submitted_once reqAccount ids l r :
  Inj (=) (=) PathEscape → (∀ base, Inj (=) (=) (with_path base)) →
  reaches (SubmitLinks account configured PathEscape Parse with_path reqAccount ids) l (Ret r) →
  NoDup (omap handed l) ∧ sm_Added r = count_taken l ∧
  sm_Added r + sm_Skipped r ≤ Z.of_nat (length (filter (λ raw, TrimSpace raw ≠ "") ids)) ∧
  (sm_OK r = true ↔ sm_Errors r = []).
Proof.
  intros He Hw0 H. set (Q := λ (l : list (event call ans)) (r : SubmitResult), NoDup (omap handed l) ∧ sm_Added r = count_taken l ∧
    sm_Added r + sm_Skipped r ≤ Z.of_nat (length (filter (λ raw, TrimSpace raw ≠ "") ids)) ∧ (sm_OK r = true ↔ sm_Errors r = [])).
  enough (Hw : wp (λ _, True) (SubmitLinks account configured PathEscape Parse with_path reqAccount ids) [] Q)
    by exact (proj2 (wp_reaches (λ _, True) _ _ [] l Q I Hw H)). clear H.
  assert (Hfail : ∀ e l, omap handed l = [] → count_taken l = 0 → Q l (sm_failed e)).
  { intros e l' E1 E2. unfold Q. rewrite E1, E2. split_and!; [constructor|done|cbn; lia|done]. }
  unfold SubmitLinks, validate. destruct (negb (String.eqb reqAccount account)); [by apply Hfail|].
  intros [e|]; (split; [done|]); cbn [mbind prog_bind]; [by apply Hfail|]. destruct configured; [|by apply Hfail].
  intros [sr|e]; (split; [done|]); [|by apply Hfail]. cbv zeta.
  cbn [mbind prog_bind]. do 2 match goal with |- wp _ (if ?c then _ else _) _ _ => destruct c; [by apply Hfail|] end.
  apply wp_bind. eapply wp_post; [|apply (submit_links_spec sr ids ∅ false); [by apply link_key_inj|]].
  - intros l' r' [(seen & H1 & H2 & H3) Ht]. unfold Q, tried in *. cbn in *. split_and!; [done|done|lia|].
    by destruct (sm_Errors r').
  - split_and!; [constructor|by intros ? ?%elem_of_nil|done].
Qed.
End links.

(** ** Stop *)

Definition service_ok (y : service) : Prop :=
  (sv_stopped y = true → sv_closed y = true ∧ sv_calls y = ∅) ∧ (sv_closed y = true → sv_canceled y = true) ∧
  (∀ id, is_Some (sv_calls y !! id) → (id < sv_next y)%nat).
Lemma service_step_ok l y y' : service_ok y → service_step l y = Some y' → service_ok y'.
Proof.
  intros (H1 & H2 & H3). destruct l as [canceled|id|id| | |]; cbn [service_step].
  - intros E. apply (inj Some) in E. subst y'. unfold begin_call. destruct (_ || _) eqn:Hc; [done|]. cbn. split_and!; [|done|].
    + intros Hs. destruct (H1 Hs) as [Hcl _]. rewrite Hcl, orb_true_r in Hc. done.
    + cbn [sv_calls sv_next]. intros id [b [(<- & _)|(_ & Hb)]%lookup_insert_Some]; [lia|]. specialize (H3 id ltac:(by rewrite Hb)). lia.
  - case_bool_decide as Hi; [|done]. intros [= <-]. cbn. split_and!; [|done|].
    + intros Hs. destruct (H1 Hs) as [_ E]. rewrite E, lookup_empty in Hi. by destruct Hi.
    + cbn [sv_calls sv_next]. intros id' [b [(<- & _)|(_ & Hb)]%lookup_insert_Some]; [by apply H3|]. apply H3. by rewrite Hb.
  - case_bool_decide as Hi; [|done]. intros [= <-]. cbn. split_and!; [|done|].
    + intros Hs. destruct (H1 Hs) as [? ->]. split; [done|]. apply delete_empty.
    + cbn [sv_calls sv_next]. intros id' [b [_ Hb]%lookup_delete_Some]. apply H3. by rewrite Hb.
  - intros [= <-]. split_and!; [done|done|done].
  - intros [= <-]. cbn. split_and!; [|done|done]. intros Hs. split; [done|]. by apply H1.
  - destruct (sv_closed y) eqn:Hc; [|done]. cbn [andb]. case_bool_decide; [|done]. intros [= <-]. cbn.
    split_and!; [done|by intros _; apply H2|]. intros id [b Hb]. cbn in Hb. by rewrite lookup_empty in Hb.
Qed.

(** Once Stop has closed the service no call begins and every call in
    work sees its context end; once Stop has returned, no call is in work and
    none will be. *)
Theorem service_drained ls y :
  steps service_step ls service_start = Some y →
  (sv_closed y = true → ∀ canceled id, begin_call canceled y = (None, y) ∧ call_canceled y id = true) ∧
  (sv_stopped y = true → ∀ ls' y', steps service_step (ls ++ ls') service_start = Some y' → sv_calls y' = ∅).
Proof.
  intros Hr. assert (Hstart : service_ok service_start) by (split_and!; [done|done|by intros id [b ?]]).
  pose proof (steps_inv service_step service_ok ls _ _ service_step_ok Hstart Hr) as Hy. destruct Hy as (H1 & H2 & H3). split.
  - intros Hc canceled id. unfold begin_call, call_canceled. rewrite Hc, (H2 Hc), !orb_true_r. done.
  - intros Hs ls' y' Hr'. pose proof (steps_inv service_step service_ok _ _ _ service_step_ok Hstart Hr') as (H1' & _).
    apply H1'. rewrite steps_app, Hr in Hr'. cbn in Hr'. revert Hr'.
    apply (steps_inv service_step (λ y, sv_stopped y = true)); [|exact Hs].
    intros [canceled|id|id| | |] y1 y2 E; cbn [service_step]; unfold begin_call; repeat case_match; intros; simplify_eq; done.
Qed.

(** ** Witnesses *)

Definition demo_backend (c : call) (_ : unit) : ans c * unit :=
  (match c return ans c with
   | Begin | CtxErr | MarkDownloaded _ | StoreAdd _ | SetLimit _ => None
   | SubmitLocal id => if String.eqb id "b" then Some (NewError "queue") else None
   | Now => 7
   | ListTasks _ => Ok [mkBackend "" "" " t1 " "active" "" ""; mkBackend "" "" "t2" "complete" "" ""; mkBackend "" "" "t1" "error" "" ""]
   | ChangeTasks _ _ _ => (mkAction 1 1 0 [], None)
   | ObserveLinks => Err (NewError "none")
   | GetSubmission =>
       Ok (mkSubmissionResources
             {[ "a" := marshal (mkLink "a" 1 1 "a.bin" 1 1 1 false); "b" := marshal (mkLink "b" 1 2 "b.bin" 1 1 1 false) ]}
             "local" "" "" 2 4 true false false)
   | AddURI _ _ _ _ => ("gid", None)
   | RemoveLink _ => (1, None)
   end, tt).

Abbreviation demo_control := (Control "acc" ["local"] "acc" "local" " Pause_all" [] []).
Lemma demo_control_log :
  (run demo_backend demo_control tt []).2 !! 3%nat = Some (Ev (ChangeTasks "local" "pause" ["t1"]) (mkAction 1 1 0 [], None)).
Proof. vm_compute. reflexivity. Qed.
Lemma control_targets_witness :
  ∃ l p x, reaches demo_control l p ∧ Ev (ChangeTasks "local" "pause" ["t1"]) x ∈ l ∧
    ∃ listed, wanted " Pause_all" [] [] listed "t1" ∧ ¬ wanted " Pause_all" [] [] listed "t2".
Proof.
  pose proof demo_control_log as Hc. pose proof (run_reaches demo_backend demo_control tt []) as H.
  destruct (run demo_backend demo_control tt []) as [[e s] l]. destruct H as (l1 & -> & Hr).
  cbn [app snd] in Hc. apply list_elem_of_lookup_2 in Hc.
  destruct (control_targets _ _ _ _ _ _ _ _ _ _ _ _ _ Hr Hc) as (_ & _ & _ & _ & _ & _ & _ & listed & Hw & _).
  exists l1, (Ret e), (mkAction 1 1 0 [], None). split_and!; [exact Hr|exact Hc|]. exists listed. split.
  - apply Hw. left.
  - intros H2. apply Hw in H2. apply list_elem_of_singleton in H2. discriminate H2.
Defined.

Definition demo_join (base path : string) : string := base +:+ path.
Abbreviation demo_submit :=
  (SubmitLinks "acc" true (λ id, id) (λ _, None) demo_join "acc" ["a"; "b"; " a"; "index"; ""]).
Lemma demo_submitted :
  let '(r, _, l) := run demo_backend demo_submit tt [] in
  (sm_OK r, sm_Added r, sm_Skipped r, sm_Errors r, omap handed l) = (false, 1, 3, ["b"; "index"], ["a"; "b"]).
Proof. vm_compute. reflexivity. Qed.
Lemma links_submitted_once_witness :
  ∃ r l, reaches demo_submit l (Ret r) ∧ omap handed l = ["a"; "b"] ∧ sm_Added r = 1 ∧ sm_Added r = count_taken l.
Proof.
  pose proof demo_submitted as Hc. pose proof (run_reaches demo_backend demo_submit tt []) as H.
  destruct (run demo_backend demo_submit tt []) as [[r s] l]. destruct H as (l1 & -> & Hr). cbn [app] in Hc.
  injection Hc as _ Ha _ _ Hh.
  assert (Hid : Inj (=) (=) (λ id : string, id)) by (intros x y E; exact E).
  assert (Hj : ∀ base, Inj (=) (=) (demo_join base)) by (intros base x y; apply (inj (String.append base))).
  destruct (links_submitted_once _ _ _ _ _ _ _ _ _ Hid Hj Hr) as (_ & Hcount & _).
  exists r, l1. split_and!; [exact Hr|exact Hh|exact Ha|exact Hcount].
Defined.

Definition demo_service : list service_label := [SBegin false; SBegin false; SDone 0; SStop; SBegin false; SDone 1; SStopWait].
Lemma service_drained_witness :
  ∃ y, steps service_step demo_service service_start = Some y ∧ sv_stopped y = true ∧ begin_call false y = (None, y) ∧ sv_calls y = ∅.
Proof.
  destruct (steps service_step demo_service service_start) as [y|] eqn:E; [|exfalso; vm_compute in E; discriminate E].
  assert (Hs : sv_stopped y = true) by (vm_compute in E; apply (inj Some) in E; by subst y).
  assert (Hc : sv_closed y = true) by (vm_compute in E; apply (inj Some) in E; by subst y).
  destruct (service_drained _ _ E) as [H1 H2]. exists y. split_and!; [reflexivity|exact Hs|exact (proj1 (H1 Hc false 0%nat))|].
  apply (H2 Hs [] y). rewrite app_nil_r. exact E.
Defined.
