(* ===== verification/Reconciler.v ===== *)
(** * The resource reconciler (rte/reconciler.go)

    [Reconcile] brings the resource owners of an account to a desired list: it
    validates and orders them, stops the consumers of whatever must restart
    before what they use, and starts the rest in order.  What it calls
    (the owners' functions, the context, the published health) is a call with
    an arbitrary answer. *)

From stdpp Require Import sorting.
From S2P Require Import Prelude Strings Storage Rte Prog.
Local Open Scope list_scope.

(** [u_funcs]: the identity of the unit's functions; of them [Running] and
    [Update] may be nil, and a unit without [Start] or [Stop] is refused. *)
Record ManagedUnit := mkUnit {
  u_ID : string; u_Requires : list string; u_Enabled : bool; u_Revision : string;
  u_funcs : Z; u_Running : bool; u_Update : bool; u_Start : bool; u_Stop : bool }.
Definition zero_unit : ManagedUnit := mkUnit "" [] false "" 0 false false false false.
Record managedInstance := mkManaged { mi_unit : ManagedUnit; mi_revision : string; mi_active : bool; mi_pendingStop : bool }.
Definition set_unit (u : ManagedUnit) (i : managedInstance) := mkManaged u (mi_revision i) (mi_active i) (mi_pendingStop i).
Definition set_life (active pending : bool) (i : managedInstance) := mkManaged (mi_unit i) (mi_revision i) active pending.
Definition set_enabled (b : bool) (u : ManagedUnit) : ManagedUnit :=
  mkUnit (u_ID u) (u_Requires u) b (u_Revision u) (u_funcs u) (u_Running u) (u_Update u) (u_Start u) (u_Stop u).

(** ** The order of the units *)

Section order.
Context (units : gmap string ManagedUnit).
(** [units[id]] *)
Definition unit_of (id : string) : ManagedUnit := default zero_unit (units !! id).

Definition unit_cycle : err := ErrMsg "resource dependency cycle".
Fixpoint visit_unit (fuel : nat) (id : string) (d : dfs) : res err dfs :=
  match fuel with
  | O => Err fuel_error
  | S fuel =>
      if bool_decide (id ∈ d_visiting d) then Err unit_cycle
      else if bool_decide (id ∈ d_done d) then Ok d
      else
        d' ← fold_res (λ dependency d,
               if bool_decide (is_Some (units !! dependency)) then visit_unit fuel dependency d
               else Err (ErrMsg "unknown resource dependency"))
             (u_Requires (unit_of id)) (mkDfs (id :: d_visiting d) (d_done d) (d_order d));
        Ok (mkDfs (filter (λ x, x ≠ id) (d_visiting d')) (id :: d_done d') (d_order d' ++ [id]))
  end.
Definition unit_names : list string := merge_sort str_le (map_to_list units).*1.
Definition orderUnits : res err (list string) :=
  d ← fold_res (visit_unit (S (length unit_names))) unit_names (mkDfs [] [] []);
  Ok (d_order d).
End order.

(** ** The plan *)

Definition add_unit (u : ManagedUnit) (units : gmap string ManagedUnit) : res err (gmap string ManagedUnit) :=
  if String.eqb (u_ID u) "" || negb (u_Start u) || negb (u_Stop u) then Err (ErrMsg "resource requires ID, start and stop")
  else if bool_decide (is_Some (units !! u_ID u)) then Err (ErrMsg "duplicate resource")
  else Ok (<[u_ID u := u]> units).

Record plan := mkPlan { pl_units : gmap string ManagedUnit; pl_order : list string;
                        pl_stopUnits : gmap string ManagedUnit; pl_stopOrder : list string }.
(** A removed unit stays, disabled; an active instance stops by the unit it
    was started with. *)
Definition with_removed (instances : gmap string managedInstance) (units : gmap string ManagedUnit) : gmap string ManagedUnit :=
  units ∪ ((λ i, set_enabled false (mi_unit i)) <$> instances).
Definition stop_units (instances : gmap string managedInstance) (units : gmap string ManagedUnit) : gmap string ManagedUnit :=
  map_imap (λ id u, Some (match instances !! id with Some old => if mi_active old then mi_unit old else u | None => u end)) units.
Definition make_plan (desired : list ManagedUnit) (instances : gmap string managedInstance) : res err plan :=
  units ← fold_res add_unit desired ∅;
  _ ← orderUnits units;
  let units := with_removed instances units in
  order ← orderUnits units;
  let stopUnits := stop_units instances units in
  stopOrder ← orderUnits stopUnits;
  Ok (mkPlan units order stopUnits stopOrder).

(** ** Calls and the state of a pass *)

(** [RPanic] records the dereference of a nil instance; no history has one. *)
Inductive rcall :=
  | RCtxErr
  | RRunning (u : ManagedUnit)
  | RUpdate (u : ManagedUnit)
  | RStart (u : ManagedUnit)
  | RStop (u : ManagedUnit)
  | RPublish (health : list Status)
  | RPanic.
Definition rans (c : rcall) : Type :=
  match c with RRunning _ => bool | RPublish _ | RPanic => unit | _ => option goerr end.
Abbreviation rpgm := (prog rcall rans).
Definition rrpc (c : rcall) : rpgm (rans c) := Prog.call c.
Arguments rrpc c : simpl never.

Record rstate := mkPass {
  r_instances : gmap string managedInstance;
  r_statuses : gmap string Status;
  r_restart : gset string;
  r_stopFailed : gset string;
  r_error : option goerr }.
Definition put_instance (id : string) (i : managedInstance) (s : rstate) : rstate :=
  mkPass (<[id := i]> (r_instances s)) (r_statuses s) (r_restart s) (r_stopFailed s) (r_error s).
Definition put_restart (restart : gset string) (s : rstate) : rstate :=
  mkPass (r_instances s) (r_statuses s) restart (r_stopFailed s) (r_error s).
Definition fail_stop (id : string) (s : rstate) : rstate :=
  mkPass (r_instances s) (r_statuses s) (r_restart s) ({[id]} ∪ r_stopFailed s) (r_error s).
Definition put_status (id : string) (t : Status) (s : rstate) : rstate :=
  mkPass (r_instances s) (<[id := t]> (r_statuses s)) (r_restart s) (r_stopFailed s) (r_error s).
(** [combined = errors.Join(combined, e)] *)
Definition join_error (e : goerr) (s : rstate) : rstate :=
  mkPass (r_instances s) (r_statuses s) (r_restart s) (r_stopFailed s) (errors_Join [r_error s; Some e]).

Section pass.
Context (Error : goerr → string).                          (* [err.Error()] *)
Context (pl : plan).
Abbreviation units := (pl_units pl).
Abbreviation order := (pl_order pl).

Definition publish (id : string) (state : State) (detail : string) (s : rstate) : rpgm rstate :=
  let s := put_status id (mkStatus id state detail) s in
  _ ← (rrpc (RPublish (omap (λ key, r_statuses s !! key) order)) : rpgm unit);
  Ret s.

(** [old := r.instances[id]] where it is dereferenced. *)
Definition instance_of (id : string) (s : rstate) : rpgm managedInstance :=
  match r_instances s !! id with
  | Some old => Ret old
  | None => _ ← (rrpc RPanic : rpgm unit); Ret (mkManaged zero_unit "" false false)
  end.

(** What [Running] says of an instance that is not waiting for its stop. *)
Definition observe (unit : ManagedUnit) (old : managedInstance) : rpgm managedInstance :=
  if mi_pendingStop old then Ret old
  else
    let observed := if mi_active old then mi_unit old else unit in
    if u_Running observed then
      running ← (rrpc (RRunning observed) : rpgm bool);
      Ret (if mi_active old && negb running then set_life (mi_active old) true old else set_life running (mi_pendingStop old) old)
    else Ret old.
Definition must_restart (unit : ManagedUnit) (old : managedInstance) (restart : gset string) : bool :=
  negb (u_Enabled unit) || mi_pendingStop old
  || mi_active old && (negb (String.eqb (mi_revision old) (u_Revision unit)) || negb (bool_decide (u_Requires (mi_unit old) = u_Requires unit)))
  || existsb (λ d, bool_decide (d ∈ restart)) (u_Requires unit).
Definition observe_unit (id : string) (s : rstate) : rpgm rstate :=
  let unit := unit_of units id in
  old ← observe unit (default (mkManaged unit (u_Revision unit) false false) (r_instances s !! id));
  let restart := if must_restart unit old (r_restart s) then {[id]} ∪ r_restart s else r_restart s in
  publish id (if mi_active old then Running else Stopped) "" (put_restart restart (put_instance id old s)).

(** A consumer restarts with what it uses. *)
Definition propagate (restart : gset string) : gset string :=
  foldl (λ restart id, if existsb (λ d, bool_decide (d ∈ restart)) (u_Requires (unit_of (pl_stopUnits pl) id)) then {[id]} ∪ restart else restart)
    restart (pl_stopOrder pl).

Definition blocked_by (stopFailed : gset string) (id : string) : bool :=
  existsb (λ '(consumer, unit), bool_decide (consumer ∈ stopFailed) && existsb (String.eqb id) (u_Requires unit))
    (map_to_list (pl_stopUnits pl)).
Definition stop_unit (id : string) (s : rstate) : rpgm rstate :=
  old ← instance_of id s;
  if negb (mi_active old) || negb (bool_decide (id ∈ r_restart s)) then Ret s
  else if blocked_by (r_stopFailed s) id then publish id Blocked "dependent resource has not stopped" (fail_stop id s)
  else
    s ← publish id Stopping "" s;
    failed ← (rrpc (RStop (mi_unit old)) : rpgm (option goerr));
    match failed with
    | Some e =>
        publish id Stopping (Error e) (join_error (Wrapped "stop" e) (put_instance id (set_life (mi_active old) true old) (fail_stop id s)))
    | None => publish id Stopped "" (put_instance id (set_life false false old) s)
    end.

Definition running_status (s : rstate) (id : string) : bool :=
  match r_statuses s !! id with Some t => bool_decide (st_State t = Running) | None => false end.
(** The start of a unit whose requirements run; [None]: it does not go on. *)
Definition launch (id : string) (unit : ManagedUnit) (old : managedInstance) (s : rstate) : rpgm (option managedInstance * rstate) :=
  if mi_active old then Ret (Some old, s)
  else
    s ← publish id Starting "" s;
    let old := mkManaged unit (mi_revision old) true true in
    let s := put_instance id old s in
    failed ← (rrpc (RStart unit) : rpgm (option goerr));
    match failed with
    | None => let old := set_life true false old in Ret (Some old, put_instance id old s)
    | Some e =>
        let s := join_error (Wrapped "start" e) s in
        cleanup ← (rrpc (RStop unit) : rpgm (option goerr));
        match cleanup with
        | Some e' =>
            s ← publish id Stopping (Error (Joined [e; e'])) (join_error (Wrapped "cleanup" e') s);
            Ret (None, s)
        | None =>
            s ← publish id Failed (Error e) (put_instance id (set_life false false old) s);
            Ret (None, s)
        end
    end.
Definition start_unit (id : string) (s : rstate) : rpgm rstate :=
  let unit := unit_of units id in
  if bool_decide (id ∈ r_stopFailed s) then Ret s
  else
    old ← instance_of id s;
    if negb (u_Enabled unit) then
      s ← publish id Stopped "disabled" s;
      Ret (put_instance id (set_unit unit old) s)
    else
      match filter (λ d, running_status s d = false) (u_Requires unit) with
      | dependency :: _ => publish id Blocked ("requires " +:+ dependency) s
      | [] =>
          canceled ← (rrpc RCtxErr : rpgm (option goerr));
          match canceled with
          | Some e => publish id Blocked (Error e) (join_error e s)
          | None =>
              failed ← (if u_Update unit then (rrpc (RUpdate unit) : rpgm (option goerr)) else Ret None);
              match failed with
              | Some e => publish id Failed (Error e) (join_error e s)
              | None =>
                  '(started, s) ← launch id unit old s;
                  match started with
                  | None => Ret s
                  | Some old => publish id Running "" (put_instance id (mkManaged unit (u_Revision unit) (mi_active old) (mi_pendingStop old)) s)
                  end
              end
          end
      end.

Fixpoint for_each (f : string → rstate → rpgm rstate) (ids : list string) (s : rstate) : rpgm rstate :=
  match ids with [] => Ret s | id :: ids => s ← f id s; for_each f ids s end.

Definition run_pass (instances : gmap string managedInstance) : rpgm rstate :=
  s ← for_each observe_unit order (mkPass instances ∅ ∅ ∅ None);
  s ← for_each stop_unit (rev (pl_stopOrder pl)) (put_restart (propagate (r_restart s)) s);
  for_each start_unit order s.
End pass.

Definition Reconcile (Error : goerr → string) (desired : list ManagedUnit) (instances : gmap string managedInstance)
    : rpgm (option goerr * gmap string managedInstance) :=
  canceled ← (rrpc RCtxErr : rpgm (option goerr));
  match canceled with
  | Some e => Ret (Some e, instances)
  | None =>
      match make_plan desired instances with
      | Err _ => Ret (Some (NewError "invalid resources"), instances)
      | Ok pl =>
          s ← run_pass Error pl instances;
          Ret (r_error s, r_instances s)
      end
  end.

(** A reconciler serves one call after the other under its mutex. *)
Fixpoint reconciliations (Error : goerr → string) (calls : list (list ManagedUnit)) (instances : gmap string managedInstance)
    : rpgm (gmap string managedInstance) :=
  match calls with
  | [] => Ret instances
  | desired :: calls =>
      '(_, instances) ← Reconcile Error desired instances;
      reconciliations Error calls instances
  end.
