(* ===== verification/ReconcilerOrder.v ===== *)
(** * The order of the resources

    [orderUnits] against the depth-first order of RteBuild.v: it exists
    exactly for known, acyclic requirements. *)

From stdpp Require Import sorting relations.
From S2P Require Import Prelude Strings Storage Rte RteBuild Prog Reconciler.
Local Open Scope list_scope.

(** ** The order *)

Section order.
Context (units : gmap string ManagedUnit).
Definition unit_deps : gmap string (list string) := u_Requires <$> units.
Definition known_deps (id : string) : Prop := ∀ d, d ∈ u_Requires (unit_of units id) → is_Some (units !! d).

Lemma unit_deps_of id : default [] (unit_deps !! id) = u_Requires (unit_of units id).
Proof. unfold unit_deps, unit_of. rewrite lookup_fmap. by destruct (units !! id). Qed.

Lemma fold_res_ext {A B} (f g : A → B → res err B) (P : B → Prop) l : ∀ b b',
  (∀ x b b', x ∈ l → P b → f x b = Ok b' → g x b = Ok b' ∧ P b') → P b → fold_res f l b = Ok b' → fold_res g l b = Ok b' ∧ P b'.
Proof.
  induction l as [|x l IH]; intros b b' Hf Hb; cbn [fold_res]; [by intros [= <-]|].
  intros (b1 & H1 & H2)%res_bind_ok. destruct (Hf x b b1 ltac:(left) Hb H1) as [H1' Hb1]. rewrite H1'. cbn [mbind res_bind].
  apply IH; [|done|done]. intros y c c' Hy. apply Hf. by right.
Qed.

(** A visit that succeeds is the plain one, and saw known names only. *)
Definition done_known (d : dfs) : Prop := ∀ x, x ∈ d_done d → known_deps x.
Lemma visit_unit_ok fuel : ∀ id d d',
  done_known d → visit_unit units fuel id d = Ok d' → visit unit_deps fuel id d = Ok d' ∧ done_known d'.
Proof.
  induction fuel as [|fuel IH]; intros id d d' Hd; cbn [visit_unit visit]; [done|].
  case_bool_decide; [done|]. case_bool_decide; [by intros [= <-]|].
  intros (d1 & H1 & E)%res_bind_ok. injection E as <-. rewrite unit_deps_of.
  pose proof H1 as Hv. apply (fold_res_ext _ (visit unit_deps fuel) done_known) in Hv as [H2 Hd1]; [|intros x b b' _ Hb Hf|exact Hd].
  2: { cbn beta in Hf. case_bool_decide; [by apply IH|done]. }
  rewrite H2. cbn [mbind res_bind]. split; [done|]. intros x [->|Hx]%elem_of_cons; [|by apply Hd1].
  intros d0 Hd0. destruct (fold_res_at _ _ _ _ _ H1 Hd0) as (l1 & l2 & b1 & b2 & _ & _ & Hf & _).
  cbn beta in Hf. by case_bool_decide.
Qed.

(** With known names only the two visits are the same, up to the error. *)
Definition same_ok {A} (r r' : res err A) : Prop := ∀ a, r = Ok a ↔ r' = Ok a.
Lemma fold_same {A B} (f g : A → B → res err B) l : (∀ x b, x ∈ l → same_ok (f x b) (g x b)) → ∀ b, same_ok (fold_res f l b) (fold_res g l b).
Proof.
  induction l as [|x l IH]; intros Hf b; cbn [fold_res]; [done|]. intros a. rewrite !res_bind_ok. split; intros (b1 & H1 & H2); exists b1.
  - split; [by apply Hf; [left|]|]. apply IH; [|done]. intros y c Hy. apply Hf. by right.
  - split; [by apply (Hf x b (list_elem_of_here _ _))|]. apply IH; [|done]. intros y c Hy. apply Hf. by right.
Qed.
Lemma visit_unit_same fuel : (∀ id, is_Some (units !! id) → known_deps id) → ∀ id d,
  is_Some (units !! id) → same_ok (visit_unit units fuel id d) (visit unit_deps fuel id d).
Proof.
  intros Hk. induction fuel as [|fuel IH]; intros id d Hid; cbn [visit_unit visit]; [done|].
  case_bool_decide; [done|]. case_bool_decide; [done|]. rewrite unit_deps_of. intros a.
  assert (Hs : ∀ b, same_ok (fold_res (λ x d, if bool_decide (is_Some (units !! x)) then visit_unit units fuel x d
      else Err (ErrMsg "unknown resource dependency")) (u_Requires (unit_of units id)) b)
    (fold_res (visit unit_deps fuel) (u_Requires (unit_of units id)) b)).
  { apply fold_same. intros x b Hx. rewrite bool_decide_true by (by eapply Hk). apply IH. by eapply Hk. }
  rewrite !res_bind_ok. by setoid_rewrite (Hs _ _).
Qed.
Lemma unit_names_spec id : id ∈ unit_names units ↔ is_Some (units !! id).
Proof.
  unfold unit_names. rewrite merge_sort_Permutation. split.
  - intros ([k u] & -> & H%elem_of_map_to_list)%list_elem_of_fmap. by exists u.
  - intros [u Hu]. apply list_elem_of_fmap. exists (id, u). split; [done|]. by apply elem_of_map_to_list.
Qed.

(** The order of the units exists exactly when every requirement is known and
    none is circular, and then lists every unit once, after all it requires. *)
Lemma orderUnits_spec :
  match orderUnits units with
  | Ok order =>
      NoDup order ∧ (∀ id, id ∈ order ↔ is_Some (units !! id)) ∧
      (∀ l1 id l2, order = l1 ++ id :: l2 → ∀ d, d ∈ u_Requires (unit_of units id) → d ∈ l1)
  | Err _ => (∃ id, is_Some (units !! id) ∧ ¬ known_deps id) ∨ ∃ id, tc (edge unit_deps) id id
  end.
Proof.
  unfold orderUnits. destruct (fold_res _ _ _) as [d|e] eqn:H; cbn [mbind res_bind].
  - pose proof H as Hv. apply (fold_res_ext _ (visit unit_deps (S (length (unit_names units)))) done_known) in Hv as [Hv Hd];
      [|intros x b b' _; apply visit_unit_ok|intros x Hx; by apply elem_of_nil in Hx].
    assert (Hi : dfs_inv unit_deps (mkDfs [] [] [])).
    { split; simpl; [done|constructor|intros x l1 l2 E; by destruct l1|]. intros x Hx. by apply elem_of_nil in Hx. }
    assert (Hd' : dfs_inv unit_deps d).
    { eapply (fold_res_inv _ (dfs_inv unit_deps)); [exact Hi| |exact Hv]. intros x b b' _ Hb Hok. by apply (visit_ok _ _ _ _ _ Hb Hok). }
    assert (Hclosed : ∀ x y, x ∈ unit_names units → edge unit_deps x y → y ∈ unit_names units).
    { intros x y Hx. unfold edge. rewrite unit_deps_of. intros Hy. apply unit_names_spec.
      refine (Hd x _ y Hy). apply (di_same _ _ Hd'). exact (topo_covers _ _ _ _ _ _ Hi Hv Hx). }
    pose proof (topo_spec unit_deps (unit_names units) Hclosed) as Ht. unfold topo in Ht. rewrite Hv in Ht. cbn [mbind res_bind] in Ht.
    destruct Ht as (H1 & H2 & H3 & _). split_and!; [done|intros id; by rewrite H3, unit_names_spec|].
    intros l1 id l2 E y Hy. eapply H2; [exact E|]. unfold edge. by rewrite unit_deps_of.
  - destruct (decide (Forall (λ id, Forall (λ d, is_Some (units !! d)) (u_Requires (unit_of units id))) (unit_names units))) as [Hk|Hk].
    + rewrite Forall_forall in Hk. assert (Hall : ∀ id, is_Some (units !! id) → known_deps id).
      { intros id Hid d Hd. apply unit_names_spec, Hk in Hid. rewrite Forall_forall in Hid. by apply Hid. }
      right. pose proof (topo_spec unit_deps (unit_names units)) as Ht. unfold topo in Ht.
      destruct (fold_res (visit unit_deps _) _ _) as [d|e'] eqn:Hv; cbn [mbind res_bind] in Ht.
      { exfalso. eapply (fold_same _ (visit unit_deps (S (length (unit_names units))))) in Hv; [by rewrite Hv in H|].
        intros x b Hx. apply visit_unit_same; [done|]. by apply unit_names_spec. }
      apply Ht. intros x y Hx. unfold edge. rewrite unit_deps_of. intros Hy. apply unit_names_spec. eapply Hall; [|exact Hy].
      by apply unit_names_spec.
    + left. apply not_Forall_Exists in Hk; [|apply _]. apply Exists_exists in Hk as (id & Hid & Hn). exists id.
      split; [by apply unit_names_spec|]. intros Hd. apply Hn, Forall_forall. exact Hd.
Qed.
End order.
