(* ===== verification/ReconcilerInv.v ===== *)
(** * The discipline of a reconciliation

    What a history of starts and stops holds, the rule every call keeps, and
    the invariant of the three loops of a pass against them. *)

From stdpp Require Import relations.
From S2P Require Import Prelude Strings Storage Rte Prog Reconciler ReconcilerOrder.
Local Open Scope list_scope.

Abbreviation rlog := (list (event rcall rans)).

(** ** Histories *)

(** [gh_held]: started, or found running, and not stopped since;
    [gh_started]: the requirements of those that were started. *)
Record ghost := mkGhost { gh_held : gset string; gh_started : gmap string (list string) }.
Definition track (g : ghost) (ev : event rcall rans) : ghost :=
  match ev_call ev as c return rans c → ghost with
  | RStart u => λ _, mkGhost ({[u_ID u]} ∪ gh_held g) (<[u_ID u := u_Requires u]> (gh_started g))
  | RStop u => λ e, match e with
                    | None => mkGhost (gh_held g ∖ {[u_ID u]}) (delete (u_ID u) (gh_started g))
                    | Some _ => g end
  | RRunning u => λ b, if b then mkGhost ({[u_ID u]} ∪ gh_held g) (gh_started g) else g
  | _ => λ _, g
  end (ev_answer ev).
Definition resources (l : rlog) : ghost := foldl track (mkGhost ∅ ∅) l.

Definition allowed (g : ghost) (c : rcall) : Prop :=
  match c with
  | RStart u => u_Enabled u = true ∧ (u_ID u ∉ gh_held g) ∧ ∀ d, d ∈ u_Requires u → d ∈ gh_held g
  | RUpdate u => u_Enabled u = true ∧ ∀ d, d ∈ u_Requires u → d ∈ gh_held g
  | RStop u => u_ID u ∈ gh_held g ∧ ∀ c reqs, gh_started g !! c = Some reqs → u_ID u ∉ reqs
  | RPanic => False
  | _ => True
  end.
Definition disciplined (l : rlog) : Prop := ∀ l1 ev l2, l = l1 ++ ev :: l2 → allowed (resources l1) (ev_call ev).
(** Every resource that was started has what it requires. *)
Definition rooted (g : ghost) : Prop :=
  ∀ c reqs, gh_started g !! c = Some reqs → c ∈ gh_held g ∧ ∀ d, d ∈ reqs → d ∈ gh_held g.

Lemma resources_snoc l ev : resources (l ++ [ev]) = track (resources l) ev.
Proof. unfold resources. by rewrite foldl_app. Qed.
Lemma disciplined_nil : disciplined [].
Proof. intros l1 ev l2 H. by destruct l1. Qed.
Lemma disciplined_snoc l ev : disciplined l → allowed (resources l) (ev_call ev) → disciplined (l ++ [ev]).
Proof.
  intros Hl Ha l1 ev' l2 E. destruct l2 as [|ev2 l2 _] using rev_ind.
  - apply app_inj_tail in E as [<- <-]. exact Ha.
  - rewrite app_comm_cons, app_assoc in E. apply app_inj_tail in E as [-> _]. by eapply Hl.
Qed.
Lemma disciplined_init l ev : disciplined (l ++ [ev]) → disciplined l ∧ allowed (resources l) (ev_call ev).
Proof.
  intros H. split; [|by eapply (H l ev [])]. intros l1 ev' l2 ->. eapply (H l1 ev' (l2 ++ [ev])). by rewrite <- app_assoc.
Qed.

Lemma track_rooted g ev : rooted g → allowed g (ev_call ev) → rooted (track g ev).
Proof.
  intros Hg. destruct ev as [[|u|u|u|u|h|] x]; unfold track; cbn; try done.
  - intros _. destruct x; [|done]. intros c reqs [H1 H2]%Hg. cbn. set_solver.
  - intros (_ & Hn & Hd) c reqs. cbn. intros [(<- & <-)|(Hne & H)]%lookup_insert_Some; [set_solver|]. apply Hg in H. set_solver.
  - intros (Hh & Hn). destruct x; [done|]. intros c reqs. cbn. intros [Hne H]%lookup_delete_Some. pose proof (Hn _ _ H) as Hr.
    apply Hg in H as [H1 H2]. split; [set_solver|]. intros d Hd. apply elem_of_difference. split; [by apply H2|]. set_solver.
Qed.
Lemma disciplined_rooted l : disciplined l → rooted (resources l).
Proof.
  induction l as [|ev l IH] using rev_ind; [done|]. intros [H1 H2]%disciplined_init. rewrite resources_snoc. apply track_rooted; auto.
Qed.

(** ** Instances and history *)

Record agree (g : ghost) (m : gmap string managedInstance) : Prop := {
  ag_id : ∀ id i, m !! id = Some i → u_ID (mi_unit i) = id;
  ag_held : ∀ id, id ∈ gh_held g ↔ ∃ i, m !! id = Some i ∧ mi_active i = true;
  ag_started : ∀ c reqs, gh_started g !! c = Some reqs → ∃ i, m !! c = Some i ∧ mi_active i = true ∧ u_Requires (mi_unit i) = reqs;
}.

(** Replacing one instance. *)
Lemma agree_put g g' m id i :
  agree g m → u_ID (mi_unit i) = id →
  (∀ x, x ≠ id → (x ∈ gh_held g' ↔ x ∈ gh_held g) ∧ gh_started g' !! x = gh_started g !! x) →
  (id ∈ gh_held g' ↔ mi_active i = true) →
  (∀ reqs, gh_started g' !! id = Some reqs → mi_active i = true ∧ u_Requires (mi_unit i) = reqs) →
  agree g' (<[id := i]> m).
Proof.
  intros [H1 H2 H3] Hid Hne Hh Hs. split.
  - intros x j [(<- & <-)|(_ & H)]%lookup_insert_Some; [done|by apply H1].
  - intros x. destruct (decide (x = id)) as [->|Hx].
    + rewrite Hh. setoid_rewrite lookup_insert_eq. naive_solver.
    + rewrite (proj1 (Hne x Hx)), H2. by setoid_rewrite lookup_insert_ne.
  - intros c reqs Hc. destruct (decide (c = id)) as [->|Hx].
    + exists i. rewrite lookup_insert_eq. split; [done|by apply Hs].
    + rewrite (proj2 (Hne c Hx)) in Hc. rewrite lookup_insert_ne by done. by apply H3.
Qed.

Definition runs_held (g : ghost) (s : rstate) : Prop := ∀ id, running_status s id = true → id ∈ gh_held g.
Lemma running_put id t s x : running_status (put_status id t s) x = if decide (x = id) then bool_decide (st_State t = Running) else running_status s x.
Proof.
  unfold running_status, put_status. cbn [r_statuses]. destruct (decide (x = id)) as [->|H]; [by rewrite lookup_insert_eq|].
  by rewrite lookup_insert_ne.
Qed.

Lemma publish_wp pl id state detail s l (Q : rlog → rstate → Prop) :
  disciplined l →
  (∀ l', disciplined l' → resources l' = resources l → Q l' (put_status id (mkStatus id state detail) s)) →
  wp disciplined (publish pl id state detail s) l Q.
Proof.
  intros Hl HQ [].
  assert (Hd : disciplined (l ++ [Ev (E:=rcall) (ans:=rans) (RPublish (omap (λ key, r_statuses (put_status id (mkStatus id state detail) s) !! key) (pl_order pl))) tt]))
    by by apply disciplined_snoc.
  split; [exact Hd|]. apply HQ; [exact Hd|]. by rewrite resources_snoc.
Qed.

Lemma for_each_wp (Inv : list string → rlog → rstate → Prop) (I : rlog → Prop) f ids : ∀ l s,
  (∀ done id todo l s, ids = done ++ id :: todo → Inv done l s → wp I (f id s) l (Inv (done ++ [id]))) →
  Inv [] l s → wp I (for_each f ids s) l (Inv ids).
Proof.
  enough (H : ∀ todo done l s, ids = done ++ todo →
    (∀ done id todo l s, ids = done ++ id :: todo → Inv done l s → wp I (f id s) l (Inv (done ++ [id]))) →
    Inv done l s → wp I (for_each f todo s) l (Inv ids)) by (intros l s Hf Hi; by apply (H ids [] l s)).
  induction todo as [|id todo IH]; intros done l s E Hf Hi; cbn [for_each].
  { rewrite app_nil_r in E. by subst. }
  apply wp_bind. eapply wp_post; [|by eapply Hf]. intros l' s' Hi'. cbn beta.
  eapply (IH (done ++ [id])); [by rewrite <- app_assoc|done|exact Hi'].
Qed.

(** ** The plan *)

Record ordered (units : gmap string ManagedUnit) (order : list string) : Prop := {
  or_nodup : NoDup order;
  or_all : ∀ id, id ∈ order ↔ is_Some (units !! id);
  or_after : ∀ l1 id l2, order = l1 ++ id :: l2 → ∀ d, d ∈ u_Requires (unit_of units id) → d ∈ l1;
}.
Record planned (desired : list ManagedUnit) (instances : gmap string managedInstance) (pl : plan) : Prop := {
  pn_order : ordered (pl_units pl) (pl_order pl);
  pn_stop : ordered (pl_stopUnits pl) (pl_stopOrder pl);
  pn_same : ∀ id, is_Some (pl_stopUnits pl !! id) ↔ is_Some (pl_units pl !! id);
  pn_id : ∀ id u, pl_units pl !! id = Some u → u_ID u = id;
  pn_desired : ∀ u, u ∈ desired → pl_units pl !! u_ID u = Some u;
  pn_enabled : ∀ id u, pl_units pl !! id = Some u → u_Enabled u = true → u ∈ desired;
  pn_there : ∀ id i, instances !! id = Some i → is_Some (pl_units pl !! id);
  pn_active : ∀ id i, instances !! id = Some i → mi_active i = true → pl_stopUnits pl !! id = Some (mi_unit i);
}.

(** Reversed, an order has the consumers first. *)
Lemma consumers_first units order done id todo c :
  ordered units order → rev order = done ++ id :: todo → is_Some (units !! c) → id ∈ u_Requires (unit_of units c) → c ∈ done.
Proof.
  intros [Hn Hall Hafter] E Hc Hid.
  assert (Eo : order = rev todo ++ id :: rev done).
  { rewrite <- (rev_involutive order), E, rev_app_distr. cbn. by rewrite <- app_assoc. }
  assert (Hid' : id ∉ rev todo) by (rewrite Eo in Hn; apply NoDup_app in Hn as (_ & Hn & _); intros Hx; apply (Hn id Hx); left).
  apply Hall in Hc. rewrite Eo in Hc. apply elem_of_app in Hc as [Hc|[->|Hc]%elem_of_cons].
  - exfalso. apply list_elem_of_split in Hc as (a & b & Et). apply Hid'. rewrite Et. apply elem_of_app. left.
    eapply (Hafter a c (b ++ id :: rev done)); [|exact Hid]. by rewrite Eo, Et, <- app_assoc.
  - exfalso. apply Hid'. by eapply Hafter.
  - apply list_elem_of_In, in_rev. by apply list_elem_of_In.
Qed.
Lemma orderUnits_ordered units order : orderUnits units = Ok order → ordered units order.
Proof. intros E. pose proof (orderUnits_spec units) as H. rewrite E in H. destruct H as (? & ? & ?). by split. Qed.

Lemma add_units_spec l : ∀ m m', fold_res add_unit l m = Ok m' →
  (∀ id u, m !! id = Some u → m' !! id = Some u) ∧ (∀ u, u ∈ l → m' !! u_ID u = Some u) ∧
  (∀ id u, m' !! id = Some u → m !! id = Some u ∨ u ∈ l ∧ u_ID u = id).
Proof.
  induction l as [|u l IH]; intros m m'; cbn [fold_res].
  { intros [= <-]. split_and!; [done|by intros u ?%elem_of_nil|auto]. }
  intros (m1 & H1 & H2)%res_bind_ok. unfold add_unit in H1. destruct (_ || _); [done|]. case_bool_decide as Hn; [done|].
  injection H1 as <-. apply IH in H2 as (Ha & Hb & Hc). split_and!.
  - intros id v Hv. apply Ha. rewrite lookup_insert_ne; [done|]. intros <-. apply Hn. by exists v.
  - intros v [->|Hv]%elem_of_cons; [|by apply Hb]. apply Ha, lookup_insert_eq.
  - intros id v [[(<- & <-)|(_ & ?)]%lookup_insert_Some|[? ?]]%Hc; [right; split; [left|done]|by left|right; split; [by right|done]].
Qed.

Lemma make_plan_ok desired instances pl :
  (∀ id i, instances !! id = Some i → u_ID (mi_unit i) = id) → make_plan desired instances = Ok pl → planned desired instances pl.
Proof.
  intros Hid. unfold make_plan. intros (m & Hm & H)%res_bind_ok. apply res_bind_ok in H as (o0 & _ & H).
  apply res_bind_ok in H as (o & Ho & H). apply res_bind_ok in H as (so & Hso & [= <-]).
  apply add_units_spec in Hm as (_ & Hin & Hfrom). set (units := with_removed instances m) in *.
  assert (Hu : ∀ id u, units !! id = Some u ↔ m !! id = Some u ∨ m !! id = None ∧ ∃ i, instances !! id = Some i ∧ u = set_enabled false (mi_unit i)).
  { intros id u. unfold units, with_removed. rewrite lookup_union_Some_raw, lookup_fmap, fmap_Some. naive_solver. }
  assert (Hs : ∀ id, stop_units instances units !! id = u ← units !! id;
      Some (match instances !! id with Some old => if mi_active old then mi_unit old else u | None => u end)).
  { intros id. unfold stop_units. by rewrite map_lookup_imap. }
  split; cbn [pl_units pl_order pl_stopUnits pl_stopOrder].
  - by apply orderUnits_ordered.
  - by apply orderUnits_ordered.
  - intros id. rewrite Hs. destruct (units !! id); cbn; split; intros [? ?]; eauto; done.
  - intros id u [Hm|(_ & i & Hi & ->)]%Hu; [|cbn; by apply Hid]. apply Hfrom in Hm as [Hm|[_ ?]]; [by rewrite lookup_empty in Hm|done].
  - intros u Hu'. apply Hu. left. by apply Hin.
  - intros id u [Hm|(_ & i & Hi & ->)]%Hu He; [|done]. apply Hfrom in Hm as [Hm|[? _]]; [by rewrite lookup_empty in Hm|done].
  - intros id i Hi. destruct (m !! id) as [u|] eqn:Hmi; [exists u; apply Hu; by left|]. eexists. apply Hu. right. eauto.
  - intros id i Hi Ha. rewrite Hs, Hi, Ha. destruct (units !! id) as [u|] eqn:E; [done|]. exfalso.
    assert (is_Some (units !! id)) as [u Hx]; [|congruence].
    destruct (m !! id) as [u|] eqn:Hmi; [exists u; apply Hu; by left|]. eexists. apply Hu. right. eauto.
Qed.

(** What a desired list asks to run: enabled, and all it requires too. *)
Inductive runnable (desired : list ManagedUnit) : string → Prop :=
  | runnable_unit u : u ∈ desired → u_Enabled u = true → (∀ d, d ∈ u_Requires u → runnable desired d) → runnable desired (u_ID u).

(** ** The loops *)

Section loops.
Context (Error : goerr → string) (desired : list ManagedUnit) (instances : gmap string managedInstance) (pl : plan).
Context (Hpl : planned desired instances pl).
Abbreviation unit id := (unit_of (pl_units pl) id).

Record sound (l : rlog) (s : rstate) : Prop := {
  so_disc : disciplined l;
  so_agree : agree (resources l) (r_instances s);
  so_runs : runs_held (resources l) s;
  so_known : ∀ id, is_Some (r_instances s !! id) → id ∈ pl_order pl;
}.
Definition stop_known (l : rlog) : Prop :=
  ∀ c reqs, gh_started (resources l) !! c = Some reqs → ∃ u, pl_stopUnits pl !! c = Some u ∧ u_Requires u = reqs.

Lemma sound_active l s id i : sound l s → r_instances s !! id = Some i → (id ∈ gh_held (resources l) ↔ mi_active i = true).
Proof. intros [_ Ha _] Hi. rewrite (ag_held _ _ Ha). split; [intros (j & Hj & ?); congruence|eauto]. Qed.
Lemma sound_status l l' s id t : 
  sound l s → disciplined l' → resources l' = resources l → (st_State t = Running → id ∈ gh_held (resources l)) → sound l' (put_status id t s).
Proof.
  intros [H1 H2 H3 H4] Hd E Ht. split; [done|by rewrite E| |done]. rewrite E. intros x. rewrite running_put.
  destruct (decide (x = id)) as [->|]; [intros Hx%bool_decide_eq_true; by apply Ht|apply H3].
Qed.
Lemma sound_log l l' s : sound l s → disciplined l' → resources l' = resources l → sound l' s.
Proof. intros [? ? ? ?] Hd E. split; [done|by rewrite E..|done]. Qed.
Lemma unit_id id : id ∈ pl_order pl → u_ID (unit id) = id ∧ pl_units pl !! id = Some (unit id).
Proof.
  intros [u Hu]%(or_all _ _ (pn_order _ _ _ Hpl)). unfold unit_of. rewrite Hu. cbn. split; [|done]. by eapply pn_id.
Qed.

(** [observe] changes only whether the resource is held, to what it says. *)
Lemma observe_wp id old l s :
  sound l s → u_ID (mi_unit old) = id → u_ID (unit id) = id → (id ∈ gh_held (resources l) ↔ mi_active old = true) →
  wp disciplined (observe (unit id) old) l (λ l' old',
    disciplined l' ∧ gh_started (resources l') = gh_started (resources l) ∧
    (∀ x, x ≠ id → x ∈ gh_held (resources l') ↔ x ∈ gh_held (resources l)) ∧
    (id ∈ gh_held (resources l') ↔ mi_active old' = true) ∧ gh_held (resources l) ⊆ gh_held (resources l') ∧
    mi_unit old' = mi_unit old ∧ mi_revision old' = mi_revision old).
Proof.
  intros [Hd _ _ _] H1 H2 Hh. unfold observe. destruct (mi_pendingStop old); [by split_and!|].
  destruct (u_Running _) eqn:Hr; [|by split_and!]. intros b.
  set (ev := Ev (E:=rcall) (ans:=rans) (RRunning (if mi_active old then mi_unit old else unit id)) b).
  assert (Hl : disciplined (l ++ [ev])) by by apply disciplined_snoc.
  split; [exact Hl|]. cbn [mbind prog_bind wp]. rewrite resources_snoc.
  assert (Hid : u_ID (if mi_active old then mi_unit old else unit id) = id) by by destruct (mi_active old).
  unfold track, ev. cbn [ev_call ev_answer]. destruct b; cbn [gh_held gh_started]; rewrite ?Hid.
  - split_and!; try done; [set_solver| |set_solver|by destruct (_ && _)..]. rewrite andb_false_r. cbn. set_solver.
  - split_and!; try done; [|by destruct (_ && _)..]. rewrite Hh. by destruct (mi_active old).
Qed.

Definition kept (u : ManagedUnit) (i : managedInstance) : Prop :=
  u_Enabled u = true ∧ mi_pendingStop i = false ∧
  (mi_active i = true → mi_revision i = u_Revision u ∧ u_Requires (mi_unit i) = u_Requires u).
Lemma kept_spec u i restart :
  must_restart u i restart = false → kept u i ∧ ∀ d, d ∈ u_Requires u → d ∉ restart.
Proof.
  unfold must_restart. rewrite !orb_false_iff. intros (((He & Hp) & Ha) & Hx). apply negb_false_iff in He. split.
  - split_and!; [done..|]. intros Hi. rewrite Hi in Ha. cbn in Ha. apply orb_false_iff in Ha as [H1%negb_false_iff%String.eqb_eq H2%negb_false_iff%bool_decide_eq_true].
    done.
  - intros d Hd Hr. enough (existsb (λ d, bool_decide (d ∈ restart)) (u_Requires u) = true) by congruence.
    apply existsb_exists. exists d. split; [by apply list_elem_of_In|by apply bool_decide_eq_true].
Qed.
Lemma must_restart_deps u i restart d : d ∈ u_Requires u → d ∈ restart → must_restart u i restart = true.
Proof.
  intros H1 H2. unfold must_restart. apply orb_true_iff. right. apply existsb_exists. exists d.
  split; [by apply list_elem_of_In|by apply bool_decide_eq_true].
Qed.

(** What a pass knows once it has looked at [done]. *)
Record observed_units (done : list string) (s : rstate) : Prop := {
  ob_failed : r_stopFailed s = ∅;
  ob_error : r_error s = None;
  ob_there : ∀ id, id ∈ done → is_Some (r_instances s !! id);
  ob_restart : ∀ id, id ∈ r_restart s → id ∈ done;
  ob_kept : ∀ id i, id ∈ done → (id ∉ r_restart s) → r_instances s !! id = Some i → kept (unit id) i;
  ob_deps : ∀ id d, id ∈ done → d ∈ u_Requires (unit id) → d ∈ r_restart s → id ∈ r_restart s;
}.
Lemma observe_unit_wp done id todo l s :
  pl_order pl = done ++ id :: todo → sound l s → stop_known l → observed_units done s →
  wp disciplined (observe_unit pl id s) l (λ l' s', sound l' s' ∧ stop_known l' ∧ observed_units (done ++ [id]) s').
Proof.
  intros Eo Hs Hk [Hf He Ht Hr Hkept Hdeps]. pose proof Hs as [Hd Ha Hrun Hkn].
  assert (Hin : id ∈ pl_order pl) by (rewrite Eo; set_solver). destruct (unit_id id Hin) as [Hid Hu].
  assert (Hnot : id ∉ done).
  { pose proof (or_nodup _ _ (pn_order _ _ _ Hpl)) as Hn. rewrite Eo in Hn. apply NoDup_app in Hn as (_ & Hn & _). intros Hx. apply (Hn id Hx). left. }
  set (old := default (mkManaged (unit id) (u_Revision (unit id)) false false) (r_instances s !! id)).
  assert (Hold : u_ID (mi_unit old) = id ∧ (id ∈ gh_held (resources l) ↔ mi_active old = true)).
  { unfold old. destruct (r_instances s !! id) as [i|] eqn:Hi; cbn.
    - split; [by eapply ag_id|by apply (sound_active _ s)].
    - split; [done|]. rewrite (ag_held _ _ Ha), Hi. naive_solver. }
  destruct Hold as [Ho1 Ho2]. unfold observe_unit. apply wp_bind.
  eapply wp_post; [|exact (observe_wp id old l s Hs Ho1 Hid Ho2)].
  intros l1 old' (Hd1 & Hst & Hne & Hh & Hsub & Hmu & Hmr). cbn beta.
  assert (Hagree : agree (resources l1) (<[id := old']> (r_instances s))).
  { eapply agree_put; [exact Ha|congruence| |exact Hh|].
    - intros x Hx. split; [by apply Hne|by rewrite Hst].
    - rewrite Hst. intros reqs Hq. destruct (ag_started _ _ Ha _ _ Hq) as (i & Hi & Hact & Hreq).
      assert (Hhd : id ∈ gh_held (resources l)) by (apply (ag_held _ _ Ha); eauto).
      split; [apply Hh, Hsub, Hhd|]. rewrite Hmu. unfold old. by rewrite Hi. }
  apply publish_wp; [done|]. intros l2 Hd2 E2.
  set (restart := if must_restart (unit id) old' (r_restart s) then {[id]} ∪ r_restart s else r_restart s).
  split_and!.
  - eapply sound_status; [|done|exact E2|].
    + split; [done|exact Hagree|intros x Hx; apply Hsub, Hrun, Hx|]. cbn. intros x [j [(<- & _)|(_ & Hj)]%lookup_insert_Some]; [done|]. apply Hkn. by exists j.
    + cbn. destruct (mi_active old') eqn:E; [|done]. intros _. by apply Hh.
  - intros c reqs. rewrite E2, Hst. apply Hk.
  - assert (Hmem : ∀ x, x ∈ restart → x = id ∨ x ∈ r_restart s) by (intros x; unfold restart; destruct (must_restart _ _ _); set_solver).
    assert (Hmem' : ∀ x, x ∈ r_restart s → x ∈ restart) by (intros x; unfold restart; destruct (must_restart _ _ _); set_solver).
    split; cbn; fold restart; [done|done|..].
    + intros x. rewrite elem_of_app, list_elem_of_singleton. intros [Hx| ->]; [|rewrite lookup_insert_eq; eauto].
      rewrite lookup_insert_ne by (intros ->; done). by apply Ht.
    + intros x [->|Hx]%Hmem; apply elem_of_app; [right; by left|left; by apply Hr].
    + intros x i. rewrite elem_of_app, list_elem_of_singleton. intros [Hx| ->] Hn.
      * rewrite lookup_insert_ne by (intros ->; done). apply Hkept; [done|]. intros Hir. by apply Hn, Hmem'.
      * rewrite lookup_insert_eq. intros [= <-]. apply (kept_spec _ _ (r_restart s)). unfold restart in Hn. destruct (must_restart _ _ _); set_solver.
    + intros x d. rewrite elem_of_app, list_elem_of_singleton. intros [Hx| ->] Hreq [->|Hdr]%Hmem.
      * exfalso. apply list_elem_of_split in Hx as (a & b & ->). rewrite <- app_assoc in Eo. cbn in Eo.
        apply Hnot, elem_of_app. left. eapply or_after; [apply (pn_order _ _ _ Hpl)|exact Eo|exact Hreq].
      * apply Hmem'. by eapply Hdeps.
      * exfalso. apply Hnot. eapply or_after; [apply (pn_order _ _ _ Hpl)|exact Eo|exact Hreq].
      * unfold restart. rewrite (must_restart_deps _ _ _ d Hreq Hdr). set_solver.
Qed.

(** *** Stopping *)

Lemma propagate_spec restart :
  let R := propagate pl restart in
  restart ⊆ R ∧ ∀ c u d, pl_stopUnits pl !! c = Some u → d ∈ u_Requires u → d ∈ R → c ∈ R.
Proof.
  cbv zeta. pose proof (pn_stop _ _ _ Hpl) as [Hn Hall Hafter].
  assert (H : ∀ done todo, pl_stopOrder pl = done ++ todo → let R := foldl (λ restart id,
      if existsb (λ d, bool_decide (d ∈ restart)) (u_Requires (unit_of (pl_stopUnits pl) id)) then {[id]} ∪ restart else restart) restart done in
    restart ⊆ R ∧ ∀ c d, c ∈ done → d ∈ u_Requires (unit_of (pl_stopUnits pl) c) → d ∈ R → c ∈ R).
  { intros done. induction done as [|id done IH] using rev_ind; intros todo E; [split; [done|]; by intros c d ?%elem_of_nil|].
    rewrite <- app_assoc in E. specialize (IH _ E) as [H1 H2]. rewrite foldl_app. cbn [foldl].
    set (R := foldl _ restart done) in *. cbv zeta.
    assert (Hid : id ∉ done). { rewrite E in Hn. apply NoDup_app in Hn as (_ & Hn & _). intros Hx. apply (Hn id Hx). left. }
    destruct (existsb _ _) eqn:Hx; (split; [set_solver|]).
    - intros c d [Hc| ->%list_elem_of_singleton]%elem_of_app Hd Hin; [|set_solver].
      apply elem_of_union in Hin as [->%elem_of_singleton|Hin]; [|apply elem_of_union; right; by eapply H2].
      exfalso. apply list_elem_of_split in Hc as (a & b & ->). rewrite <- app_assoc in E. apply Hid, elem_of_app. left. by eapply Hafter.
    - intros c d [Hc| ->%list_elem_of_singleton]%elem_of_app Hd Hin; [by eapply H2|].
      exfalso. enough (existsb (λ d, bool_decide (d ∈ R)) (u_Requires (unit_of (pl_stopUnits pl) id)) = true) by congruence.
      apply existsb_exists. exists d. split; [by apply list_elem_of_In|by apply bool_decide_eq_true]. }
  destruct (H _ [] ltac:(by rewrite app_nil_r)) as [H1 H2]. split; [exact H1|]. intros c u d Hu Hd. apply H2; [|unfold unit_of; by rewrite Hu].
  apply Hall. by exists u.
Qed.

Lemma join_error_some e s : r_error (join_error e s) ≠ None.
Proof. unfold join_error. cbn [r_error]. intros H. rewrite errors_Join_None in H. specialize (H (Some e) ltac:(set_solver)). done. Qed.
Lemma sound_error e l s : sound l s → sound l (join_error e s).
Proof. intros [? ? ? ?]. by split. Qed.
Lemma sound_failed id l s : sound l s → sound l (fail_stop id s).
Proof. intros [? ? ? ?]. by split. Qed.
Lemma sound_put l l' s id i :
  sound l s → disciplined l' → id ∈ pl_order pl → u_ID (mi_unit i) = id →
  (∀ x, x ≠ id → (x ∈ gh_held (resources l') ↔ x ∈ gh_held (resources l)) ∧ gh_started (resources l') !! x = gh_started (resources l) !! x) →
  (id ∈ gh_held (resources l') ↔ mi_active i = true) →
  (∀ reqs, gh_started (resources l') !! id = Some reqs → mi_active i = true ∧ u_Requires (mi_unit i) = reqs) →
  (running_status s id = true → id ∈ gh_held (resources l')) →
  sound l' (put_instance id i s).
Proof.
  intros [H1 H2 H3 H4] Hd Hin Hid Hne Hh Hs Hr. split; [done|by eapply agree_put| |].
  - intros x Hx. destruct (decide (x = id)) as [->|Hne']; [by apply Hr|]. apply (Hne x Hne'). by apply H3.
  - cbn. intros x [j [(<- & _)|(_ & Hj)]%lookup_insert_Some]; [done|]. apply H4. by exists j.
Qed.
(** Changing what is remembered of an instance that stays as it is. *)
Lemma sound_keep l s id old i :
  sound l s → r_instances s !! id = Some old → u_ID (mi_unit i) = id → mi_active i = mi_active old →
  (mi_active old = true → u_Requires (mi_unit i) = u_Requires (mi_unit old)) → sound l (put_instance id i s).
Proof.
  intros Hs Hi Hid Ha Hq. pose proof Hs as [H1 H2 H3 H4]. apply (sound_put l); [done|done|apply H4; by exists old|done|done| | |intros Hr; by apply H3].
  - rewrite Ha. by apply (sound_active _ s).
  - intros reqs Hst. destruct (ag_started _ _ H2 _ _ Hst) as (j & Hj & Hja & Hjr). rewrite Hi in Hj. injection Hj as <-.
    split; [congruence|]. by rewrite Hq.
Qed.

Record stopping (R : gset string) (done : list string) (s : rstate) : Prop := {
  st_there : ∀ id, is_Some (pl_units pl !! id) → is_Some (r_instances s !! id);
  st_restart : r_restart s = R;
  st_kept : ∀ id i, id ∈ pl_order pl → (id ∉ R) → r_instances s !! id = Some i → kept (unit id) i;
  st_done : ∀ id i, id ∈ done → id ∈ R → r_instances s !! id = Some i → mi_active i = true → id ∈ r_stopFailed s;
  st_error : r_error s = None → r_stopFailed s = ∅;
}.
Lemma blocked_spec failed id :
  blocked_by pl failed id = true ↔ ∃ c u, pl_stopUnits pl !! c = Some u ∧ c ∈ failed ∧ id ∈ u_Requires u.
Proof.
  unfold blocked_by. rewrite existsb_exists. split.
  - intros ([c u] & Hin & H). apply list_elem_of_In, elem_of_map_to_list in Hin. apply andb_true_iff in H as [H1%bool_decide_eq_true H2].
    apply existsb_exists in H2 as (x & Hx & <-%String.eqb_eq). apply list_elem_of_In in Hx. eauto.
  - intros (c & u & Hu & Hc & Hx). exists (c, u). split; [by apply list_elem_of_In, elem_of_map_to_list|].
    apply andb_true_iff. split; [by apply bool_decide_eq_true|]. apply existsb_exists. exists id. split; [by apply list_elem_of_In|apply String.eqb_refl].
Qed.
(** One instance of [R] replaced, its status set. *)
Lemma stopping_put R done id i t s s' :
  stopping R done s → id ∈ R → r_instances s' = <[id := i]> (r_instances s) → r_restart s' = r_restart s →
  r_stopFailed s ⊆ r_stopFailed s' → (mi_active i = true → id ∈ r_stopFailed s') → (r_error s' = None → r_stopFailed s' = ∅) →
  stopping R (done ++ [id]) (put_status id t s').
Proof.
  intros [H1 H2 H3 H4 H5] Hin Ei Er Hsub Ha He. split; cbn; [..|done].
  - intros x Hx. rewrite Ei. destruct (decide (x = id)) as [->|]; [rewrite lookup_insert_eq; eauto|]. rewrite lookup_insert_ne by done. by apply H1.
  - by rewrite Er.
  - intros x j Hx Hn. rewrite Ei, lookup_insert_ne by (intros ->; done). by apply H3.
  - intros x j Hx HR. rewrite Ei. intros [(<- & <-)|(Hne & Hj)]%lookup_insert_Some; [done|].
    apply elem_of_app in Hx as [Hx| ->%list_elem_of_singleton]; [|done]. intros Hja. by eapply Hsub, H4.
Qed.

Lemma stop_unit_wp R done id todo l s :
  rev (pl_stopOrder pl) = done ++ id :: todo →
  (∀ c u d, pl_stopUnits pl !! c = Some u → d ∈ u_Requires u → d ∈ R → c ∈ R) →
  sound l s → stop_known l → stopping R done s →
  wp disciplined (stop_unit Error pl id s) l (λ l' s', sound l' s' ∧ stop_known l' ∧ stopping R (done ++ [id]) s').
Proof.
  intros Eo Hclosed Hs Hk Hst. pose proof Hs as [Hd Ha Hrun Hkn]. pose proof Hst as [Ht Er Hkept Hdone He].
  assert (Hin : id ∈ pl_stopOrder pl) by (apply list_elem_of_In, in_rev; rewrite Eo; apply list_elem_of_In; set_solver).
  destruct (Ht id) as [old Hold]. { by apply (pn_same _ _ _ Hpl), (or_all _ _ (pn_stop _ _ _ Hpl)). }
  unfold stop_unit, instance_of. rewrite Hold. cbn [mbind prog_bind].
  destruct (negb (mi_active old) || negb (bool_decide (id ∈ r_restart s))) eqn:Hskip.
  { split_and!; [done..|]. split; [done..| |done]. intros x i Hx HR Hi Hia. apply elem_of_app in Hx as [Hx| ->%list_elem_of_singleton]; [by eapply Hdone|].
    exfalso. rewrite Hold in Hi. injection Hi as ->. rewrite Hia, Er, bool_decide_true in Hskip by done. done. }
  apply orb_false_iff in Hskip as [Hact%negb_false_iff HR%negb_false_iff%bool_decide_eq_true]. rewrite Er in HR.
  assert (Hheld : id ∈ gh_held (resources l)) by by apply (sound_active _ s id old).
  assert (Hsame : <[id := old]> (r_instances s) = r_instances s) by by apply insert_id.
  destruct (blocked_by pl (r_stopFailed s) id) eqn:Hb.
  { apply publish_wp; [done|]. intros l1 Hd1 E1. split_and!.
    - apply (sound_status l); [by apply sound_failed|done..].
    - intros c reqs. rewrite E1. apply Hk.
    - eapply (stopping_put _ _ _ old); [exact Hst|done|by rewrite Hsame|done|cbn; set_solver|cbn; set_solver|].
      cbn. intros Hn%He. apply blocked_spec in Hb as (c & u & _ & Hc & _). rewrite Hn in Hc. set_solver. }
  assert (Hno : ∀ c reqs, gh_started (resources l) !! c = Some reqs → id ∉ reqs).
  { intros c reqs Hc Hreq. destruct (Hk _ _ Hc) as (u & Hu & <-). assert (Hcr : c ∈ R) by by eapply Hclosed.
    destruct (ag_started _ _ Ha _ _ Hc) as (i & Hi & Hia & _).
    enough (blocked_by pl (r_stopFailed s) id = true) by congruence. apply blocked_spec. exists c, u. split_and!; [done| |done].
    eapply Hdone; [|done..]. eapply consumers_first; [apply (pn_stop _ _ _ Hpl)|exact Eo|by exists u|]. unfold unit_of. by rewrite Hu. }
  apply wp_bind. apply publish_wp; [done|]. intros l1 Hd1 E1. cbn beta.
  assert (Hs1 : sound l1 (put_status id (mkStatus id Stopping "") s)) by by apply (sound_status l).
  assert (Hid : u_ID (mi_unit old) = id) by by eapply ag_id.
  intros failed. set (ev := Ev (E:=rcall) (ans:=rans) (RStop (mi_unit old)) failed).
  assert (Hd2 : disciplined (l1 ++ [ev])).
  { apply disciplined_snoc; [done|]. cbn. rewrite E1, Hid. done. }
  split; [exact Hd2|]. destruct failed as [e|]; cbn [mbind prog_bind].
  - assert (E2 : resources (l1 ++ [ev]) = resources l) by by rewrite resources_snoc.
    apply publish_wp; [exact Hd2|]. intros l3 Hd3 E3. split_and!.
    + apply (sound_status (l1 ++ [ev])); [|done..]. apply sound_error. eapply sound_keep; [|exact Hold|done..].
      apply sound_failed, (sound_log l1); [done|exact Hd2|by rewrite E2].
    + intros c reqs. rewrite E3, E2. apply Hk.
    + match goal with |- stopping _ _ (put_status _ _ ?s') => apply (stopping_put R done id (set_life (mi_active old) true old) _ s s') end;
        [done|done|done|done|cbn; set_solver|cbn; set_solver|intros H; by apply join_error_some in H].
  - assert (E2 : resources (l1 ++ [ev]) = mkGhost (gh_held (resources l) ∖ {[id]}) (delete id (gh_started (resources l)))).
    { rewrite resources_snoc, E1. unfold track, ev. cbn. by rewrite Hid. }
    apply publish_wp; [exact Hd2|]. intros l3 Hd3 E3. split_and!.
    + apply (sound_status (l1 ++ [ev])); [|done..]. apply (sound_put l1); [done|done|apply Hkn; by exists old|done| | | |]; rewrite ?E2, ?E1; cbn.
      * intros x Hx. split; [set_solver|by rewrite lookup_delete_ne].
      * set_solver.
      * intros reqs. by rewrite lookup_delete_eq.
      * rewrite running_put, decide_True by done. done.
    + intros c reqs. rewrite E3, E2. cbn. intros [_ H]%lookup_delete_Some. by apply Hk.
    + match goal with |- stopping _ _ (put_status _ _ ?s') => apply (stopping_put R done id (set_life false false old) _ s s') end; done.
Qed.

(** *** Starting *)

Lemma runnable_spec id :
  id ∈ pl_order pl → runnable desired id ↔ u_Enabled (unit id) = true ∧ ∀ d, d ∈ u_Requires (unit id) → runnable desired d.
Proof.
  intros Hin. destruct (unit_id id Hin) as [Hid Hu]. split.
  - intros Hr. inversion Hr as [u Hu' He Hd Hx]. subst id. pose proof (pn_desired _ _ _ Hpl _ Hu') as E. rewrite Hu in E. injection E as ->. done.
  - intros [He Hd]. rewrite <- Hid. constructor; [|done..]. by eapply pn_enabled.
Qed.
(** What does not restart is to run. *)
Lemma kept_runnable s :
  observed_units (pl_order pl) s → (∀ id, id ∈ pl_order pl → is_Some (r_instances s !! id)) →
  ∀ id, id ∈ pl_order pl → (id ∉ r_restart s) → runnable desired id.
Proof.
  intros [_ _ _ _ Hk Hd] Ht. pose proof (pn_order _ _ _ Hpl) as [Hn Hall Hafter].
  enough (H : ∀ done todo, pl_order pl = done ++ todo → ∀ id, id ∈ done → (id ∉ r_restart s) → runnable desired id)
    by (apply (H _ []); by rewrite app_nil_r).
  induction done as [|id done IH] using rev_ind; intros todo E; [by intros id ?%elem_of_nil|].
  rewrite <- app_assoc in E. intros x [Hx| ->%list_elem_of_singleton]%elem_of_app Hr; [by eapply IH|].
  assert (Hin : id ∈ pl_order pl) by (rewrite E; set_solver). destruct (Ht id Hin) as [i Hi]. apply runnable_spec; [done|].
  split; [by apply (Hk id i)|]. intros d Hreq. eapply IH; [exact E|by eapply Hafter|]. intros Hdr. by eapply Hr, Hd.
Qed.

Record converged (id : string) (s : rstate) : Prop := {
  cv_running : running_status s id = true ↔ runnable desired id;
  cv_instance : ∃ i, r_instances s !! id = Some i ∧ (mi_active i = true ↔ runnable desired id) ∧
    (runnable desired id → mi_unit i = unit id ∧ mi_revision i = u_Revision (unit id) ∧ mi_pendingStop i = false);
}.
Record starting (done todo : list string) (s : rstate) : Prop := {
  sg_there : ∀ id, id ∈ pl_order pl → is_Some (r_instances s !! id);
  sg_kept : ∀ id i, id ∈ todo → (id ∉ r_stopFailed s) → r_instances s !! id = Some i → mi_active i = true →
    kept (unit id) i ∧ runnable desired id;
  sg_done : r_error s = None → r_stopFailed s = ∅ ∧ ∀ id, id ∈ done → converged id s;
}.
Definition only_at (id : string) (s s' : rstate) : Prop :=
  (∀ x, x ≠ id → r_instances s' !! x = r_instances s !! x ∧ r_statuses s' !! x = r_statuses s !! x) ∧
  r_stopFailed s' = r_stopFailed s ∧ (r_error s' = None → r_error s = None) ∧ is_Some (r_instances s' !! id).
(** A step on one unit that converges it unless it fails. *)
Lemma starting_step done id todo s s' :
  pl_order pl = done ++ id :: todo → starting done (id :: todo) s → only_at id s s' → (r_error s' = None → converged id s') →
  starting (done ++ [id]) todo s'.
Proof.
  intros E [H1 H2 H3] (Hx & Hf & He & Ht) Hc. pose proof (or_nodup _ _ (pn_order _ _ _ Hpl)) as Hn. rewrite E in Hn.
  apply NoDup_app in Hn as (_ & Hn & Hn2). apply NoDup_cons in Hn2 as [Hn2 _]. split.
  - intros x Hxo. destruct (decide (x = id)) as [->|Hne]; [done|]. rewrite (proj1 (Hx x Hne)). by apply H1.
  - intros x i Hxt. rewrite Hf. assert (Hne : x ≠ id) by (intros ->; done). rewrite (proj1 (Hx x Hne)). apply H2. by right.
  - intros Hno. rewrite Hf. destruct (H3 (He Hno)) as [H4 H5]. split; [done|]. intros x [Hxd| ->%list_elem_of_singleton]%elem_of_app; [|by apply Hc].
    assert (Hne : x ≠ id) by (intros ->; apply (Hn id Hxd); left). destruct (Hx x Hne) as [Ei Es], (H5 x Hxd) as [Hr Hi].
    split; [unfold running_status in *; by rewrite Es|by rewrite Ei].
Qed.

Lemma only_at_put id i t s : only_at id s (put_status id t (put_instance id i s)).
Proof.
  split_and!; [intros x Hx; cbn; by rewrite !lookup_insert_ne|done|done|cbn; rewrite lookup_insert_eq; eauto].
Qed.
Lemma only_at_same id i s : r_instances s !! id = Some i → put_instance id i s = s.
Proof. intros H. destruct s. unfold put_instance. cbn in *. by rewrite insert_id. Qed.
Lemma running_here id t s : running_status (put_status id t s) id = bool_decide (st_State t = Running).
Proof. by rewrite running_put, decide_True. Qed.

Lemma idle_converged id t s i :
  ¬ runnable desired id → st_State t ≠ Running → r_instances s !! id = Some i → mi_active i = false → converged id (put_status id t s).
Proof.
  intros Hr Ht Hi Ha. split; [rewrite running_here, bool_decide_eq_true; naive_solver|]. exists i. cbn. rewrite Ha. naive_solver.
Qed.

(** [launch] leaves the instance active and to be kept, or has failed. *)
Lemma launch_wp id old l s :
  id ∈ pl_order pl → sound l s → r_instances s !! id = Some old → u_Enabled (unit id) = true →
  (∀ d, d ∈ u_Requires (unit id) → d ∈ gh_held (resources l)) →
  (mi_active old = true → u_Requires (mi_unit old) = u_Requires (unit id) ∧ mi_pendingStop old = false) →
  wp disciplined (launch Error pl id (unit id) old s) l (λ l' '(started, s'), sound l' s' ∧ only_at id s s' ∧
    match started with
    | Some i => r_instances s' !! id = Some i ∧ mi_active i = true ∧ mi_pendingStop i = false ∧
        u_Requires (mi_unit i) = u_Requires (unit id) ∧ r_error s' = r_error s
    | None => r_error s' ≠ None
    end).
Proof.
  intros Hin Hs Hold He Hdeps Hact. destruct (unit_id id Hin) as [Hid Hu]. pose proof Hs as [Hd Ha Hrun Hkn].
  unfold launch. destruct (mi_active old) eqn:Ea.
  { destruct (Hact eq_refl) as [H1 H2]. cbn. split_and!; try done. }
  apply wp_bind, publish_wp; [done|]. intros l1 Hd1 E1. cbn beta zeta.
  assert (Hnot : id ∉ gh_held (resources l)) by (rewrite (sound_active _ s id old) by done; by rewrite Ea).
  set (s1 := put_status id (mkStatus id Starting "") s). set (i := mkManaged (unit id) (mi_revision old) true true).
  assert (Hs1 : sound l1 s1) by by apply (sound_status l).
  intros failed. set (ev := Ev (E:=rcall) (ans:=rans) (RStart (unit id)) failed).
  assert (Hd2 : disciplined (l1 ++ [ev])).
  { apply disciplined_snoc; [done|]. cbn. rewrite E1, Hid. done. }
  assert (E2 : resources (l1 ++ [ev]) = mkGhost ({[id]} ∪ gh_held (resources l)) (<[id := u_Requires (unit id)]> (gh_started (resources l)))).
  { rewrite resources_snoc, E1. unfold track, ev. cbn. by rewrite Hid. }
  assert (Hs2 : sound (l1 ++ [ev]) (put_instance id i s1)).
  { apply (sound_put l1); [done..| | | |]; rewrite ?E2, ?E1; cbn.
    - intros x Hx. split; [set_solver|by rewrite lookup_insert_ne].
    - set_solver.
    - intros reqs. rewrite lookup_insert_eq. by intros [= <-].
    - set_solver. }
  assert (Hi : r_instances (put_instance id i s1) !! id = Some i) by (cbn; apply lookup_insert_eq).
  split; [exact Hd2|]. destruct failed as [e|]; cbn [mbind prog_bind].
  2: { cbn [wp]. split_and!; [by apply (sound_keep _ _ id i)| |cbn; by rewrite lookup_insert_eq|done..].
    split_and!; [intros x Hx; cbn; by rewrite !lookup_insert_ne|done..|cbn; rewrite lookup_insert_eq; eauto]. }
  intros cleanup. set (ev2 := Ev (E:=rcall) (ans:=rans) (RStop (unit id)) cleanup).
  assert (Hd3 : disciplined ((l1 ++ [ev]) ++ [ev2])).
  { apply disciplined_snoc; [done|]. cbn. rewrite E2, Hid. split; [cbn; set_solver|]. intros c reqs. cbn.
    intros [(<- & <-)|(_ & H)]%lookup_insert_Some; [intros Hx; by apply Hnot, Hdeps|]. apply (disciplined_rooted l Hd) in H as [_ H].
    intros Hx. by apply Hnot, H. }
  split; [exact Hd3|]. assert (Hs3 : sound (l1 ++ [ev]) (join_error (Wrapped "start" e) (put_instance id i s1))) by by apply sound_error.
  destruct cleanup as [e'|]; cbn [mbind prog_bind]; apply wp_bind, publish_wp; try exact Hd3; intros l4 Hd4 E4; cbn [wp];
    (split_and!; [|split_and!; [intros x Hx; cbn; by rewrite !lookup_insert_ne|done|intros H; by apply join_error_some in H|cbn; rewrite !lookup_insert_eq; eauto]|
      intros H; by apply join_error_some in H]).
  - assert (E3 : resources ((l1 ++ [ev]) ++ [ev2]) = resources (l1 ++ [ev])) by by rewrite resources_snoc.
    apply (sound_status ((l1 ++ [ev]) ++ [ev2])); [|done..]. apply sound_error. by apply (sound_log (l1 ++ [ev])).
  - apply (sound_status ((l1 ++ [ev]) ++ [ev2])); [|done..].
    assert (E3 : resources ((l1 ++ [ev]) ++ [ev2]) = mkGhost (gh_held (resources (l1 ++ [ev])) ∖ {[id]}) (delete id (gh_started (resources (l1 ++ [ev]))))).
    { rewrite (resources_snoc (l1 ++ [ev])). unfold track, ev2. cbn. by rewrite Hid. }
    apply (sound_put (l1 ++ [ev])); [exact Hs3|exact Hd3|exact Hin|exact Hid| | | |]; rewrite ?E3; cbn [gh_held gh_started mi_active set_life].
    + intros x Hx. split; [set_solver|by rewrite lookup_delete_ne].
    + set_solver.
    + intros reqs. by rewrite lookup_delete_eq.
    + intros H. exfalso. revert H. change (running_status s1 id = true → False). unfold s1. by rewrite running_here.
Qed.

(** The ends of the start of one unit. *)
Section start.
Context (done : list string) (id : string) (todo : list string) (l : rlog) (s : rstate).
Context (Eo : pl_order pl = done ++ id :: todo) (Hs : sound l s) (Hst : starting done (id :: todo) s).
Abbreviation started_ok := (λ l' s', sound l' s' ∧ starting (done ++ [id]) todo s').

Lemma start_in : id ∈ pl_order pl.
Proof. rewrite Eo. set_solver. Qed.
Lemma start_dep d : d ∈ u_Requires (unit id) → r_error s = None → running_status s d = true ↔ runnable desired d.
Proof.
  intros Hreq Hn. destruct (sg_done _ _ _ Hst Hn) as [_ Hc]. apply cv_running, Hc. by eapply (or_after _ _ (pn_order _ _ _ Hpl)).
Qed.

Lemma start_disabled l1 t i :
  u_Enabled (unit id) = false → st_State t = Stopped → disciplined l1 → resources l1 = resources l →
  r_instances s !! id = Some i → mi_active i = false → started_ok l1 (put_instance id (set_unit (unit id) i) (put_status id t s)).
Proof.
  intros He Ht Hd1 E1 Hi Hoff. destruct (unit_id id start_in) as [Hid Hu].
  assert (Hnr : ¬ runnable desired id) by (intros [H _]%(runnable_spec id start_in); congruence). split.
  - apply (sound_keep _ _ id i); [|done..|by rewrite Hoff]. apply (sound_status l); [done..|]. by rewrite Ht.
  - apply (starting_step _ _ _ _ _ Eo Hst); [apply (only_at_put id (set_unit (unit id) i))|]. intros _.
    apply (idle_converged id t (put_instance id (set_unit (unit id) i) s) (set_unit (unit id) i));
      [done|by rewrite Ht|cbn; apply lookup_insert_eq|done].
Qed.
Lemma start_blocked l1 t i dep :
  dep ∈ u_Requires (unit id) → running_status s dep = false → st_State t = Blocked → disciplined l1 → resources l1 = resources l →
  r_instances s !! id = Some i → (mi_active i = true → runnable desired id) → started_ok l1 (put_status id t s).
Proof.
  intros Hreq Hdr Ht Hd1 E1 Hi Ha. split; [apply (sound_status l); [done..|by rewrite Ht]|]. apply (starting_step _ _ _ _ _ Eo Hst).
  - pose proof (only_at_put id i t s) as Hx. by rewrite (only_at_same id i s Hi) in Hx.
  - intros Hn. assert (Hnr : ¬ runnable desired id).
    { intros [_ H]%(runnable_spec id start_in). specialize (H dep Hreq). rewrite <- (start_dep dep Hreq Hn) in H. congruence. }
    apply (idle_converged id _ _ i); [done|by rewrite Ht|done|]. destruct (mi_active i); [|done]. exfalso. by apply Hnr, Ha.
Qed.
Lemma start_failed l1 e t :
  disciplined l1 → resources l1 = resources l → st_State t ≠ Running → is_Some (r_instances s !! id) →
  started_ok l1 (put_status id t (join_error e s)).
Proof.
  intros Hd1 E1 Ht Hi. split; [apply (sound_status l); [by apply sound_error|done|done|by intros ?]|].
  apply (starting_step _ _ _ _ _ Eo Hst); [|intros H; by apply join_error_some in H].
  split_and!; [intros x Hx; cbn; by rewrite !lookup_insert_ne|done|intros H; by apply join_error_some in H|done].
Qed.
Lemma start_go l1 old :
  disciplined l1 → resources l1 = resources l → r_instances s !! id = Some old → u_Enabled (unit id) = true →
  (∀ d, d ∈ u_Requires (unit id) → running_status s d = true) → (mi_active old = true → kept (unit id) old) →
  wp disciplined ('(started, s) ← launch Error pl id (unit id) old s;
    match started with
    | None => Ret s
    | Some old => publish pl id Running "" (put_instance id (mkManaged (unit id) (u_Revision (unit id)) (mi_active old) (mi_pendingStop old)) s)
    end) l1 started_ok.
Proof.
  intros Hd1 E1 Hold He Hruns Hact. destruct (unit_id id start_in) as [Hid Hu]. apply wp_bind.
  eapply wp_post; [|apply (launch_wp id old l1 s start_in); [by apply (sound_log l)|done|done| |]].
  - intros l2 [[i|] s2] (Hs2 & Hon & Hres); [|cbn [wp]; split; [done|]; by apply (starting_step _ _ _ _ _ Eo Hst Hon)].
    destruct Hres as (Hi & Hia & Hip & Hir & Her). apply publish_wp; [apply Hs2|]. intros l3 Hd3 E3.
    set (i' := mkManaged (unit id) (u_Revision (unit id)) (mi_active i) (mi_pendingStop i)). split.
    + apply (sound_status l2); [by apply (sound_keep _ _ id i)|done|done|]. intros _. by apply (sound_active _ s2 id i).
    + apply (starting_step _ _ _ _ _ Eo Hst).
      * destruct Hon as (H1 & H2 & H3 & H4). split_and!; [|done|cbn; auto|cbn; rewrite lookup_insert_eq; eauto].
        intros x Hx. cbn. rewrite !lookup_insert_ne by done. by apply H1.
      * intros Hn. cbn in Hn. rewrite Her in Hn. assert (Hr : runnable desired id).
        { apply runnable_spec; [apply start_in|]. split; [done|]. intros d Hreq. rewrite <- (start_dep d Hreq Hn). by apply Hruns. }
        split; [by rewrite running_here|]. exists i'. cbn. rewrite lookup_insert_eq. done.
  - intros d Hreq. rewrite E1. by apply (so_runs _ _ Hs), Hruns.
  - intros Hoa. destruct (Hact Hoa) as (_ & Hp & Hq). split; [by apply Hq|done].
Qed.
Lemma start_unit_wp : wp disciplined (start_unit Error pl id s) l started_ok.
Proof.
  pose proof Hs as [Hd Ha Hrun Hkn]. pose proof Hst as [Ht Hk Hdone].
  destruct (unit_id id start_in) as [Hid Hu]. destruct (Ht id start_in) as [old Hold].
  unfold start_unit. case_bool_decide as Hf.
  { split; [done|]. apply (starting_step _ _ _ _ s Eo Hst); [by split_and!|]. intros Hn. destruct (Hdone Hn) as [E _]. rewrite E in Hf. set_solver. }
  unfold instance_of. rewrite Hold. cbn [mbind prog_bind].
  assert (Hact : mi_active old = true → kept (unit id) old ∧ runnable desired id) by (apply Hk; [left|done..]).
  destruct (u_Enabled (unit id)) eqn:He; cbn [negb].
  2: { apply wp_bind, publish_wp; [done|]. intros l1 Hd1 E1. apply start_disabled; [done..|].
    destruct (mi_active old); [|done]. destruct (Hact eq_refl) as [[? _] _]. congruence. }
  destruct (filter _ _) as [|dep rest] eqn:Hfil.
  2: { assert (Hdep : dep ∈ dep :: rest) by left. rewrite <- Hfil in Hdep. apply list_elem_of_filter in Hdep as [Hdr Hreq].
    apply publish_wp; [done|]. intros l1 Hd1 E1. eapply (start_blocked _ _ old); [done..|]. intros H. by apply Hact. }
  assert (Hruns : ∀ d, d ∈ u_Requires (unit id) → running_status s d = true).
  { intros d Hreq. destruct (running_status s d) eqn:E; [done|]. exfalso.
    assert (Hx : d ∈ filter (λ d, running_status s d = false) (u_Requires (unit id))) by by apply list_elem_of_filter.
    rewrite Hfil in Hx. by apply elem_of_nil in Hx. }
  assert (Hact' : mi_active old = true → kept (unit id) old) by (intros H; by apply Hact).
  intros canceled. assert (Hd1 : disciplined (l ++ [Ev (E:=rcall) (ans:=rans) RCtxErr canceled])) by by apply disciplined_snoc.
  assert (E1 : resources (l ++ [Ev (E:=rcall) (ans:=rans) RCtxErr canceled]) = resources l) by by rewrite resources_snoc.
  split; [exact Hd1|]. destruct canceled as [e|]; cbn [mbind prog_bind].
  { apply publish_wp; [done|]. intros l2 Hd2 E2. apply start_failed; [done|by rewrite E2|done|by exists old]. }
  destruct (u_Update (unit id)); cbn [mbind prog_bind]; [|by apply start_go].
  intros failed. set (ev := Ev (E:=rcall) (ans:=rans) (RUpdate (unit id)) failed). set (l1 := l ++ _) in *.
  assert (Hd2 : disciplined (l1 ++ [ev])).
  { apply disciplined_snoc; [done|]. cbn. rewrite E1. split; [done|]. intros d Hreq. by apply Hrun, Hruns. }
  assert (E2 : resources (l1 ++ [ev]) = resources l) by by rewrite resources_snoc.
  split; [exact Hd2|]. destruct failed as [e|]; cbn [mbind prog_bind]; [|by apply start_go].
  apply publish_wp; [done|]. intros l3 Hd3 E3. apply start_failed; [done|by rewrite E3|done|by exists old].
Qed.
End start.
End loops.
