(* ===== verification/ReconcilerProps.v ===== *)
(** * Theorems about the resource reconciler

    Over every history of reconciliations and every answer: the discipline of
    starts and stops, and what a call that reports no error has established. *)

From S2P Require Import Prelude Strings Storage Rte Prog Reconciler ReconcilerOrder ReconcilerInv.
Local Open Scope list_scope.

Section pass.
Context (Error : goerr → string).

Lemma run_pass_wp desired instances pl l :
  planned desired instances pl → disciplined l → agree (resources l) instances →
  wp disciplined (run_pass Error pl instances) l (λ l' s, sound pl l' s ∧ starting desired pl (pl_order pl) [] s).
Proof.
  intros Hpl Hd Ha. unfold run_pass. apply wp_bind.
  assert (Hk0 : stop_known pl l).
  { intros c reqs Hc. destruct (ag_started _ _ Ha _ _ Hc) as (i & Hi & Hia & <-). exists (mi_unit i). split; [|done]. by eapply pn_active. }
  eapply wp_post; [|apply (for_each_wp (λ done l s, sound pl l s ∧ stop_known pl l ∧ observed_units pl done s))].
  2: { intros done id todo l1 s1 E (Hs & Hk & Ho). by eapply observe_unit_wp. }
  2: { split; [|split; [exact Hk0|by split; cbn; [..|intros id i ?%elem_of_nil|intros id d ?%elem_of_nil]; try set_solver]].
    split; cbn; [done|done|done|]. intros id [i Hi]. apply (or_all _ _ (pn_order _ _ _ Hpl)). by eapply pn_there. }
  intros l1 s1 (Hs1 & Hk1 & Ho1). cbn beta. pose proof Ho1 as [Hf1 He1 Ht1 Hr1 Hkept1 Hdeps1].
  pose proof (kept_runnable _ _ _ Hpl s1 Ho1 Ht1) as Hrun. set (R := propagate pl (r_restart s1)).
  destruct (propagate_spec _ _ _ Hpl (r_restart s1)) as [Hsub Hclosed]. fold R in Hsub, Hclosed.
  apply wp_bind. eapply wp_post; [|apply (for_each_wp (λ done l s, sound pl l s ∧ stop_known pl l ∧ stopping pl R done s))].
  2: { intros done id todo l2 s2 E (Hs & Hk & Ho). by eapply stop_unit_wp. }
  2: { split; [destruct Hs1; by split|split; [exact Hk1|]]. split; cbn; [|done| |by intros id i ?%elem_of_nil|done].
    - intros id Hid. by apply Ht1, (or_all _ _ (pn_order _ _ _ Hpl)).
    - intros id i Hin Hn. apply Hkept1; [done|]. intros Hx. by apply Hn, Hsub. }
  intros l2 s2 (Hs2 & Hk2 & [Ht2 Hr2 Hkept2 Hdone2 He2]). cbn beta.
  eapply wp_post; [|apply (for_each_wp (λ done l s, sound pl l s ∧ ∃ todo, pl_order pl = done ++ todo ∧ starting desired pl done todo s))].
  - intros l3 s3 (Hs3 & todo & E & Hst). split; [done|]. destruct todo; [done|]. exfalso.
    apply (f_equal length) in E. rewrite length_app in E. cbn in E. lia.
  - intros done id todo l3 s3 E (Hs3 & todo' & E' & Hst). rewrite E in E'. apply (inj (app done)) in E' as <-.
    eapply wp_post; [|by apply (start_unit_wp Error desired instances pl Hpl done id todo)].
    intros l4 s4 [Hs4 Hst4]. split; [done|]. exists todo. split; [by rewrite <- app_assoc|done].
  - split; [done|]. exists (pl_order pl). split; [done|]. split.
    + intros id Hid. by apply Ht2, (or_all _ _ (pn_order _ _ _ Hpl)).
    + intros id i Hid Hnf Hi Hia. assert (Hn : id ∉ R).
      { intros HR. apply Hnf. eapply Hdone2; [|done..]. apply list_elem_of_In. apply -> in_rev. apply list_elem_of_In.
        by apply (or_all _ _ (pn_stop _ _ _ Hpl)), (pn_same _ _ _ Hpl), (or_all _ _ (pn_order _ _ _ Hpl)). }
      split; [by eapply Hkept2|]. apply Hrun; [done|]. intros Hx. by apply Hn, Hsub.
    + intros Hn. split; [by apply He2|]. by intros id ?%elem_of_nil.
Qed.

(** What a call that reports no error has established. *)
Definition settled (desired : list ManagedUnit) (m : gmap string managedInstance) : Prop :=
  (∀ id, (∃ i, m !! id = Some i ∧ mi_active i = true) ↔ runnable desired id) ∧
  ∀ u i, u ∈ desired → m !! u_ID u = Some i → mi_active i = true →
    mi_unit i = u ∧ mi_revision i = u_Revision u ∧ mi_pendingStop i = false.
Lemma starting_settled desired instances pl l s :
  planned desired instances pl → sound pl l s → starting desired pl (pl_order pl) [] s → r_error s = None → settled desired (r_instances s).
Proof.
  intros Hpl Hs [Ht _ Hc] Hn. destruct (Hc Hn) as [_ Hcv]. split.
  - intros id. split.
    + intros (i & Hi & Hia). destruct (Hcv id) as [_ (j & Hj & Hja & _)]; [by apply (so_known _ _ _ Hs); exists i|].
      rewrite Hi in Hj. injection Hj as <-. by apply Hja.
    + intros Hr. assert (Hin : id ∈ pl_order pl).
      { inversion Hr as [u Hu _ _ E]. apply (or_all _ _ (pn_order _ _ _ Hpl)). exists u. by eapply pn_desired. }
      destruct (Hcv id Hin) as [_ (j & Hj & Hja & _)]. exists j. split; [done|]. by apply Hja.
  - intros u i Hu Hi Hia. pose proof (pn_desired _ _ _ Hpl _ Hu) as E.
    destruct (Hcv (u_ID u)) as [_ (j & Hj & Hja & Hk)]; [by apply (so_known _ _ _ Hs); exists i|].
    rewrite Hi in Hj. injection Hj as <-. specialize (Hk (proj1 Hja Hia)). unfold unit_of in Hk. by rewrite E in Hk.
Qed.

Lemma Reconcile_wp desired m l :
  disciplined l → agree (resources l) m →
  wp disciplined (Reconcile Error desired m) l (λ l' '(e, m'), disciplined l' ∧ agree (resources l') m' ∧ (e = None → settled desired m')).
Proof.
  intros Hd Ha canceled.
  assert (Hd1 : disciplined (l ++ [Ev (E:=rcall) (ans:=rans) RCtxErr canceled])) by by apply disciplined_snoc.
  assert (E1 : resources (l ++ [Ev (E:=rcall) (ans:=rans) RCtxErr canceled]) = resources l) by by rewrite resources_snoc.
  split; [done|]. destruct canceled as [e|]; cbn [mbind prog_bind]; [cbn; by rewrite E1|].
  destruct (make_plan desired m) as [pl|e] eqn:Hp; [|cbn; by rewrite E1].
  assert (Hpl : planned desired m pl) by (apply make_plan_ok; [by apply (ag_id _ _ Ha)|done]).
  apply wp_bind. eapply wp_post; [|apply (run_pass_wp _ _ _ _ Hpl Hd1); by rewrite E1].
  intros l2 s2 [Hs Hst]. cbn. split_and!; [by apply Hs..|]. intros Hn. by eapply starting_settled.
Qed.
Lemma reconciliations_wp calls : ∀ m l,
  disciplined l → agree (resources l) m →
  wp disciplined (reconciliations Error calls m) l (λ l' m', disciplined l' ∧ agree (resources l') m').
Proof.
  induction calls as [|desired calls IH]; intros m l Hd Ha; cbn [reconciliations]; [done|].
  apply wp_bind. eapply wp_post; [|by apply Reconcile_wp]. intros l' [e m'] (? & ? & _). by apply IH.
Qed.
Lemma agree_start : agree (resources []) ∅.
Proof.
  split; cbn.
  - intros id i H. by rewrite lookup_empty in H.
  - intros id. split; [by intros ?%elem_of_empty|]. intros (i & H & _). by rewrite lookup_empty in H.
  - intros c reqs H. by rewrite lookup_empty in H.
Qed.

(** C26: Whatever is reconciled and answered, at every point: a resource is
    started only when enabled, not held already and with all it requires held;
    it is stopped only when held, and while nothing started requires it; so
    every started resource has what it requires, until it is stopped. *)
Theorem reconcile_discipline calls l p :
  reaches (reconciliations Error calls ∅) l p → disciplined l ∧ rooted (resources l).
Proof.
  intros H. pose proof (wp_reaches _ _ _ [] l _ disciplined_nil (reconciliations_wp calls ∅ [] disciplined_nil agree_start) H) as [Hd _].
  split; [exact Hd|]. by apply disciplined_rooted.
Qed.

(** *** Errors *)

Definition failure (ev : event rcall rans) : Prop :=
  match ev_call ev as c return rans c → Prop with
  | RCtxErr | RUpdate _ | RStart _ | RStop _ => λ e, e ≠ None
  | _ => λ _, False
  end (ev_answer ev).
Definition blamed (l : rlog) (s : rstate) : Prop := r_error s ≠ None → ∃ ev, ev ∈ l ∧ failure ev.
Lemma blamed_mono l ev s s' : blamed l s → (r_error s' = r_error s ∨ failure ev) → blamed (l ++ [ev]) s'.
Proof.
  intros H [E|Hf] Hn; [|exists ev; set_solver]. rewrite E in Hn. destruct (H Hn) as (x & ? & ?). exists x. set_solver.
Qed.

Abbreviation anything := (λ _ : rlog, True).
Definition blames (f : rpgm rstate) (l : rlog) : Prop := wp anything f l blamed.
Lemma publish_blamed pl id state detail s l : blamed l s → blames (publish pl id state detail s) l.
Proof. intros H []. split; [done|]. cbn. eapply blamed_mono; [exact H|by left]. Qed.
Lemma blamed_fail l ev s : failure ev → blamed (l ++ [ev]) s.
Proof. intros H _. exists ev. set_solver. Qed.

Lemma observe_unit_blamed pl id s l : blamed l s → blames (observe_unit pl id s) l.
Proof.
  intros H. unfold blames, observe_unit. apply wp_bind. eapply (wp_post _ _ _ (λ l _, blamed l s)).
  - intros l' old H'. by apply publish_blamed.
  - unfold observe. destruct (mi_pendingStop _); [done|]. destruct (u_Running _); [|done]. intros b. split; [done|].
    eapply blamed_mono; [exact H|by left].
Qed.
Lemma instance_blamed id s l : blamed l s → wp anything (instance_of id s) l (λ l _, blamed l s).
Proof. intros H. unfold instance_of. destruct (_ !! id); [done|]. intros []. split; [done|]. eapply blamed_mono; [exact H|by left]. Qed.
Lemma stop_unit_blamed pl id s l : blamed l s → blames (stop_unit Error pl id s) l.
Proof.
  intros H. unfold blames, stop_unit. apply wp_bind. eapply wp_post; [|by apply instance_blamed]. intros l1 old H1. cbn beta.
  destruct (_ || _); [done|]. destruct (blocked_by _ _ _); [by apply publish_blamed|].
  apply wp_bind. eapply wp_post; [|by apply publish_blamed]. intros l2 s2 H2 failed. split; [done|]. destruct failed as [e|]; cbn [mbind prog_bind].
  - apply publish_blamed. by apply blamed_fail.
  - apply publish_blamed. eapply blamed_mono; [exact H2|by left].
Qed.
Lemma launch_blamed pl id u old s l : blamed l s → wp anything (launch Error pl id u old s) l (λ l '(_, s), blamed l s).
Proof.
  intros H. unfold launch. destruct (mi_active old); [done|]. apply wp_bind. eapply wp_post; [|by apply publish_blamed].
  intros l1 s1 H1 failed. split; [done|]. destruct failed as [e|]; cbn [mbind prog_bind].
  - intros cleanup. split; [done|]. assert (Hf : ∀ ev s, blamed ((l1 ++ [Ev (E:=rcall) (ans:=rans) (RStart u) (Some e)]) ++ [ev]) s).
    { intros ev s2 _. exists (Ev (RStart u) (Some e)). split; [set_solver|done]. }
    destruct cleanup; cbn [mbind prog_bind]; apply wp_bind; (eapply wp_post; [|apply publish_blamed, Hf]); done.
  - cbn. eapply blamed_mono; [exact H1|by left].
Qed.
Lemma start_unit_blamed pl id s l : blamed l s → blames (start_unit Error pl id s) l.
Proof.
  intros H. unfold blames, start_unit. destruct (bool_decide _); [done|]. apply wp_bind. eapply wp_post; [|by apply instance_blamed].
  intros l1 old H1. cbn beta. destruct (negb _). { apply wp_bind. eapply wp_post; [|by apply publish_blamed]. intros l2 s2 H2. exact H2. }
  destruct (filter _ _); [|by apply publish_blamed]. intros canceled. split; [done|].
  destruct canceled as [e|]; cbn [mbind prog_bind]; [apply publish_blamed; by apply blamed_fail|].
  assert (H2 : blamed (l1 ++ [Ev (E:=rcall) (ans:=rans) RCtxErr None]) s) by (eapply blamed_mono; [exact H1|by left]).
  apply wp_bind. eapply (wp_post _ _ _ (λ l e, blamed l (match e with Some e => join_error e s | None => s end))).
  - intros l3 [e|] H3; [by apply publish_blamed|]. apply wp_bind. eapply wp_post; [|by apply launch_blamed].
    intros l4 [[i|] s4] H4; [by apply publish_blamed|done].
  - destruct (u_Update _); [|done]. intros [e|]; (split; [done|]); [by apply blamed_fail|]. eapply blamed_mono; [exact H2|by left].
Qed.
Lemma for_each_blamed f ids : (∀ id s l, blamed l s → blames (f id s) l) → ∀ s l, blamed l s → blames (for_each f ids s) l.
Proof.
  intros Hf. induction ids as [|id ids IH]; intros s l H; [done|]. unfold blames. cbn [for_each]. apply wp_bind.
  eapply wp_post; [|by apply Hf]. intros l' s' H'. by apply IH.
Qed.
Lemma run_pass_blamed pl m l : blames (run_pass Error pl m) l.
Proof.
  unfold blames, run_pass. apply wp_bind. eapply wp_post; [|apply (for_each_blamed (observe_unit pl))]; [|apply observe_unit_blamed|by intros ?].
  intros l1 s1 H1. apply wp_bind. eapply wp_post; [|apply (for_each_blamed (stop_unit Error pl)); [apply stop_unit_blamed|exact H1]].
  intros l2 s2 H2. apply for_each_blamed; [apply start_unit_blamed|done].
Qed.

(** C27: A call that reports no error has settled the list: the resources held
    are exactly those desired ones that are enabled together with all they
    require, each by its desired unit and revision.  An error is reported
    only for a refused list, with nothing called and nothing changed, or
    after a call that failed. *)
Theorem reconcile_outcome calls desired l m l' e m' :
  reaches (reconciliations Error calls ∅) l (Ret m) → reaches (Reconcile Error desired m) l' (Ret (e, m')) →
  match e with
  | None => (∀ id, id ∈ gh_held (resources (l ++ l')) ↔ runnable desired id) ∧
      ∀ u, u ∈ desired → runnable desired (u_ID u) →
        ∃ i, m' !! u_ID u = Some i ∧ mi_unit i = u ∧ mi_revision i = u_Revision u ∧ mi_pendingStop i = false
  | Some _ => (∃ ev, ev ∈ l' ∧ failure ev) ∨ (∃ x, make_plan desired m = Err x) ∧ m' = m ∧ l' = [Ev RCtxErr None]
  end.
Proof.
  intros H1 H2. pose proof (wp_reaches _ _ _ [] l _ disciplined_nil (reconciliations_wp calls ∅ [] disciplined_nil agree_start) H1) as [Hd [_ Ha]].
  pose proof (wp_reaches _ _ _ l l' _ Hd (Reconcile_wp desired m l Hd Ha) H2) as [_ (_ & Ha' & Hset)]. cbn in Ha, Ha', Hset.
  destruct e as [e|].
  - clear Hset. destruct (reaches_first _ _ _ H2) as [->|(canceled & l1 & -> & H3)]; [inversion H2|]. clear H2. rename H3 into H2.
    destruct canceled as [e1|]; [left; exists (Ev RCtxErr (Some e1)); split; [left|done]|]. cbn [mbind prog_bind] in H2.
    destruct (make_plan desired m) as [pl|x] eqn:Hp.
    + assert (Hw : wp anything (s ← run_pass Error pl m; Ret (r_error s, r_instances s)) [] (λ l '(e, _), e ≠ None → ∃ ev, ev ∈ l ∧ failure ev)).
      { apply wp_bind. eapply wp_post; [|apply run_pass_blamed]. intros l2 s2 Hb. exact Hb. }
      destruct (wp_reaches _ _ _ [] l1 _ I Hw H2) as [_ Hb]. left. destruct (Hb ltac:(done)) as (ev & Hin & Hf). exists ev. split; [by right|done].
    + apply reaches_first in H2 as H3. subst l1. right. split; [by exists x|]. inversion H2; subst. done.
  - destruct (Hset eq_refl) as [H3 H4]. split.
    + intros id. rewrite (ag_held _ _ Ha'). apply H3.
    + intros u Hu Hr. apply H3 in Hr as (i & Hi & Hia). exists i. split; [done|]. by eapply H4.
Qed.
End pass.

(** ** Witnesses *)

Definition demo_unit (id : string) (requires : list string) (revision : string) : ManagedUnit :=
  mkUnit id requires true revision 0 false false true true.
Definition demo_old : list ManagedUnit := [demo_unit "web" ["db"] "1"; demo_unit "db" [] "1"].
Definition demo_new : list ManagedUnit := [demo_unit "web" ["db"] "1"; demo_unit "db" [] "2"].
Definition demo_owner (c : rcall) (_ : unit) : rans c * unit :=
  (match c return rans c with RRunning _ => true | RPublish _ | RPanic => tt | _ => None end, tt).
Definition demo_text (e : goerr) : string := "error".
Definition life (ev : event rcall rans) : option (string * bool) :=
  match ev_call ev with RStart u => Some (u_ID u, true) | RStop u => Some (u_ID u, false) | _ => None end.
Abbreviation demo_history := (reconciliations demo_text [demo_old; demo_new] ∅).

(** A new revision of the database restarts the web unit around it. *)
Lemma demo_lives :
  omap life (run demo_owner demo_history tt []).2 =
    [("db", true); ("web", true); ("web", false); ("db", false); ("db", true); ("web", true)].
Proof. vm_compute. reflexivity. Qed.
Lemma reconcile_discipline_witness :
  ∃ l m, reaches demo_history l (Ret m) ∧
    omap life l = [("db", true); ("web", true); ("web", false); ("db", false); ("db", true); ("web", true)] ∧
    disciplined l ∧ rooted (resources l).
Proof.
  pose proof demo_lives as Hl. pose proof (run_reaches demo_owner demo_history tt []) as H.
  destruct (run demo_owner demo_history tt []) as [[m s] l]. destruct H as (l1 & -> & Hr). cbn [app snd] in Hl.
  exists l1, m. split; [exact Hr|]. split; [exact Hl|]. exact (reconcile_discipline demo_text _ _ _ Hr).
Defined.

Abbreviation demo_first := (reconciliations demo_text [demo_old] ∅).
Abbreviation demo_second m := (Reconcile demo_text demo_new m).
Lemma demo_no_error :
  let '(m, _, _) := run demo_owner demo_first tt [] in (run demo_owner (demo_second m) tt []).1.1.1 = None.
Proof. vm_compute. reflexivity. Qed.
Lemma reconcile_outcome_witness :
  ∃ l m l' m', reaches demo_first l (Ret m) ∧ reaches (demo_second m) l' (Ret (None, m')) ∧
    "web" ∈ gh_held (resources (l ++ l')).
Proof.
  pose proof demo_no_error as He. pose proof (run_reaches demo_owner demo_first tt []) as H1.
  destruct (run demo_owner demo_first tt []) as [[m s] l]. destruct H1 as (l1 & -> & Hr1).
  pose proof (run_reaches demo_owner (demo_second m) tt []) as H2.
  destruct (run demo_owner (demo_second m) tt []) as [[[e m'] s'] l']. destruct H2 as (l2 & -> & Hr2). cbn in He. subst e.
  exists l1, m, l2, m'. split; [exact Hr1|]. split; [exact Hr2|].
  destruct (reconcile_outcome demo_text _ _ _ _ _ _ _ Hr1 Hr2) as [H _]. apply H.
  assert (Hdb : runnable demo_new "db").
  { apply (runnable_unit demo_new (demo_unit "db" [] "2")); [right; left|done|]. by intros d ?%elem_of_nil. }
  apply (runnable_unit demo_new (demo_unit "web" ["db"] "1")); [left|done|]. by intros d ->%list_elem_of_singleton.
Defined.
