(* ===== verification/Process.v ===== *)
(** * Restartable processes (rte/process.go)

    A process owns one transport adapter: [Start] spawns a goroutine that
    invokes the adapter, again after a delay while the failures are retryable
    and attempts are left, [Stop] cancels and waits for it.  The steps are the
    critical sections and the returns of what the goroutine calls, in any
    interleaving with any number of [Start] and [Stop] calls. *)

From S2P Require Import Prelude Lts Rte Prog.
Local Open Scope list_scope.

(** [max]: [recovery.MaxRestarts]; [retryable]: [recovery.Retryable] is set. *)
Inductive loop_phase :=
  | Spawned                                  (* before it sets Running *)
  | Turn (attempt : Z)                       (* before it counts the run *)
  | Invoking (attempt : Z)                   (* inside [run] *)
  | Asking (attempt : Z) (e : goerr)         (* inside [Retryable] *)
  | Delaying (attempt : Z)                   (* at the timer *)
  | Leaving (e : option goerr).              (* before the deferred section *)
Record goroutine := mkLoop { lo_max : Z; lo_retryable : bool; lo_phase : loop_phase }.
Definition at_phase (p : loop_phase) (w : goroutine) : goroutine := mkLoop (lo_max w) (lo_retryable w) p.

Inductive stop_phase :=
  | Marked (gen : option nat)                (* before [cancel()] *)
  | Waits (gen : nat)                        (* at the select *)
  | StopReturned (gen : option nat) (e : option goerr).

(** Starts are numbered; [pr_started] of them happened.  [pr_canceled],
    [pr_closed]: whose context was canceled and whose [done] is closed. *)
Record process := mkProcess {
  pr_parent : bool;
  pr_started : nat;
  pr_active : bool;
  pr_state : State;
  pr_lastErr : option goerr;
  pr_runs : gmap nat Z;                      (* [runnable.Runs] of each start *)
  pr_canceled : gset nat;
  pr_closed : gset nat;
  pr_loops : gmap nat goroutine;
  pr_stops : gmap nat stop_phase }.
Definition NewProcess : process := mkProcess false 0 false Stopped None ∅ ∅ ∅ ∅ ∅.

Definition put_loop (g : nat) (w : goroutine) (y : process) : process :=
  mkProcess (pr_parent y) (pr_started y) (pr_active y) (pr_state y) (pr_lastErr y) (pr_runs y) (pr_canceled y) (pr_closed y)
    (<[g := w]> (pr_loops y)) (pr_stops y).
Definition put_state (s : State) (y : process) : process :=
  mkProcess (pr_parent y) (pr_started y) (pr_active y) s (pr_lastErr y) (pr_runs y) (pr_canceled y) (pr_closed y) (pr_loops y) (pr_stops y).
Definition put_stop (i : nat) (p : stop_phase) (y : process) : process :=
  mkProcess (pr_parent y) (pr_started y) (pr_active y) (pr_state y) (pr_lastErr y) (pr_runs y) (pr_canceled y) (pr_closed y)
    (pr_loops y) (<[i := p]> (pr_stops y)).
Definition cancel_start (g : nat) (y : process) : process :=
  mkProcess (pr_parent y) (pr_started y) (pr_active y) (pr_state y) (pr_lastErr y) (pr_runs y) ({[g]} ∪ pr_canceled y) (pr_closed y)
    (pr_loops y) (pr_stops y).
(** [ctx.Err() != nil] for the context of a start. *)
Definition ended (y : process) (g : nat) : bool := pr_parent y || bool_decide (g ∈ pr_canceled y).

(** [Start]: whether it started, the error and the process. *)
Definition Start (run : bool) (max delay : Z) (retryable : bool) (y : process) : bool * option goerr * process :=
  if pr_active y then (false, None, y)
  else if pr_parent y then (false, Some (Sentinel Canceled), y)
  else if negb run || (max <? 0) || (delay <? 0) then (false, Some (NewError "invalid process configuration"), y)
  else
    let g := pr_started y in
    (true, None,
     mkProcess (pr_parent y) (S g) true Starting None (<[g := 0]> (pr_runs y)) (pr_canceled y) (pr_closed y)
       (<[g := mkLoop max retryable Spawned]> (pr_loops y)) (pr_stops y)).

(** The deferred section of the goroutine. *)
Definition leave (g : nat) (e : option goerr) (y : process) : process :=
  mkProcess (pr_parent y) (pr_started y) false (match e with Some _ => Failed | None => Stopped end) e (pr_runs y)
    ({[g]} ∪ pr_canceled y) ({[g]} ∪ pr_closed y) (delete g (pr_loops y)) (pr_stops y).
(** [invokeProcess] has returned [e]; a panic of [run] is an error. *)
Definition returned (g : nat) (w : goroutine) (attempt : Z) (e : option goerr) (y : process) : process :=
  let phase :=
    if ended y g then Leaving None
    else match e with
         | None => Leaving None
         | Some e => if (lo_max w <=? attempt) || negb (lo_retryable w) then Leaving (Some e) else Asking attempt e
         end in
  put_loop g (at_phase phase w) y.

Inductive process_label :=
  | PParent                                            (* the parent context ends *)
  | PStart (run : bool) (max delay : Z) (retryable : bool)
  | PRunning (g : nat)
  | PRun (g : nat)
  | PReturn (g : nat) (e : option goerr)
  | PRetry (g : nat) (answer : option bool)            (* [None]: it panics *)
  | PTimer (g : nat)
  | PDone (g : nat)                                    (* [ctx.Done()] at the timer *)
  | PLeave (g : nat)
  | PStop (i : nat)
  | PCancel (i : nat)
  | PStopped (i : nat)
  | PStopTimeout (i : nat) (e : goerr).

Definition current (y : process) : option nat := match pr_started y with O => None | S g => Some g end.
Definition loop_step (l : process_label) (g : nat) (w : goroutine) (y : process) : option process :=
  match l, lo_phase w with
  | PRunning _, Spawned =>
      Some (put_state (if bool_decide (pr_state y = Starting) then Running else pr_state y) (put_loop g (at_phase (Turn 0) w) y))
  | PRun _, Turn n =>
      Some (mkProcess (pr_parent y) (pr_started y) (pr_active y) (pr_state y) (pr_lastErr y) (alter (λ r, r + 1) g (pr_runs y))
              (pr_canceled y) (pr_closed y) (<[g := at_phase (Invoking n) w]> (pr_loops y)) (pr_stops y))
  | PReturn _ e, Invoking n => Some (returned g w n e y)
  | PRetry _ answer, Asking n e =>
      let phase := match answer with
                   | Some true => Delaying n
                   | Some false => Leaving (Some e)
                   | None => Leaving (Some (NewError "process recovery panic"))
                   end in
      Some (put_loop g (at_phase phase w) y)
  | PTimer _, Delaying n => Some (put_loop g (at_phase (Turn (n + 1)) w) y)
  | PDone _, Delaying n => if ended y g then Some (put_loop g (at_phase (Leaving None) w) y) else None
  | PLeave _, Leaving e => Some (leave g e y)
  | _, _ => None
  end.
Definition process_step (l : process_label) (y : process) : option process :=
  match l with
  | PParent => Some (mkProcess true (pr_started y) (pr_active y) (pr_state y) (pr_lastErr y) (pr_runs y) (pr_canceled y) (pr_closed y) (pr_loops y) (pr_stops y))
  | PStart run max delay retryable => Some (Start run max delay retryable y).2
  | PRunning g | PRun g | PReturn g _ | PRetry g _ | PTimer g | PDone g | PLeave g =>
      w ← pr_loops y !! g; loop_step l g w y
  | PStop i =>
      match pr_stops y !! i with
      | Some _ => None
      | None => Some (put_stop i (Marked (current y)) (if pr_active y then put_state Stopping y else y))
      end
  | PCancel i =>
      match pr_stops y !! i with
      | Some (Marked None) => Some (put_stop i (StopReturned None None) y)
      | Some (Marked (Some g)) => Some (put_stop i (Waits g) (cancel_start g y))
      | _ => None
      end
  | PStopped i =>
      match pr_stops y !! i with
      | Some (Waits g) => if bool_decide (g ∈ pr_closed y) then Some (put_stop i (StopReturned (Some g) None) y) else None
      | _ => None
      end
  | PStopTimeout i e =>
      match pr_stops y !! i with
      | Some (Waits g) => Some (put_stop i (StopReturned (Some g) (Some e)) y)
      | _ => None
      end
  end.
Abbreviation processes l y := (steps process_step l y).

(** ** The invariant *)

Definition attempts_ok (runs : Z) (w : goroutine) : Prop :=
  0 <= lo_max w ∧
  match lo_phase w with
  | Spawned => runs = 0
  | Turn n => runs = n ∧ 0 <= n <= lo_max w
  | Invoking n => runs = n + 1 ∧ 0 <= n <= lo_max w
  | Asking n _ | Delaying n => runs = n + 1 ∧ 0 <= n < lo_max w
  | Leaving _ => 0 <= runs <= lo_max w + 1
  end.
Definition state_ok (y : process) : Prop :=
  if pr_active y then pr_state y ∈ [Starting; Running; Stopping]
  else pr_state y = match pr_lastErr y with Some _ => Failed | None => Stopped end.
Record process_ok (y : process) : Prop := {
  po_loops : ∀ g w, pr_loops y !! g = Some w → pr_active y = true ∧ current y = Some g ∧ (g ∉ pr_closed y);
  po_active : pr_active y = true → ∃ g w, current y = Some g ∧ pr_loops y !! g = Some w;
  po_closed : ∀ g, g ∈ pr_closed y → (g < pr_started y)%nat;
  po_runs : ∀ g w, pr_loops y !! g = Some w → ∃ r, pr_runs y !! g = Some r ∧ attempts_ok r w;
  po_state : state_ok y;
  po_stops : ∀ i g, pr_stops y !! i = Some (StopReturned (Some g) None) → g ∈ pr_closed y;
}.
Lemma process_start_ok : process_ok NewProcess.
Proof. by split. Qed.

(** A step of the goroutine that keeps it running. *)
Lemma put_loop_ok g w w' r y :
  process_ok y → pr_loops y !! g = Some w → pr_runs y !! g = Some r → attempts_ok r w' → process_ok (put_loop g w' y).
Proof.
  intros [H1 H2 H3 H4 H5 H6] Hw Hr Hok. destruct (H1 g w Hw) as (Ha & Hc & Hn). split; cbn; [| |done| |done|done].
  - intros g1 w1 [(<- & <-)|(_ & Hg)]%lookup_insert_Some; [done|by eapply H1].
  - intros _. exists g, w'. split; [done|apply lookup_insert_eq].
  - intros g1 w1 [(<- & <-)|(_ & Hg)]%lookup_insert_Some; [by exists r|by apply H4].
Qed.
Lemma put_state_ok s y : process_ok y → (pr_active y = true → s ∈ [Starting; Running; Stopping]) → (pr_active y = false → s = pr_state y) → process_ok (put_state s y).
Proof.
  intros [H1 H2 H3 H4 H5 H6] Hs Hi. split; [done..| |done]. unfold state_ok in *. cbn.
  destruct (pr_active y); [by apply Hs|]. by rewrite Hi.
Qed.
Lemma Start_ok run max delay retryable y : process_ok y → process_ok (Start run max delay retryable y).2.
Proof.
  intros Hy. unfold Start. destruct (pr_active y) eqn:Ha; [done|]. destruct (pr_parent y); [done|].
  destruct (_ || _) eqn:Hc; [done|]. apply orb_false_iff in Hc as [[_ Hm%Z.ltb_ge]%orb_false_iff _].
  destruct Hy as [H1 H2 H3 H4 H5 H6]. assert (Hempty : ∀ g w, pr_loops y !! g ≠ Some w) by (intros g w Hw; destruct (H1 g w Hw); congruence).
  split; cbn.
  - intros g w [(<- & <-)|(_ & Hg)]%lookup_insert_Some; [|by apply Hempty in Hg]. split_and!; [done..|]. intros Hx%H3. lia.
  - intros _. eexists _, _. split; [done|apply lookup_insert_eq].
  - intros g Hg%H3. lia.
  - intros g w [(<- & <-)|(_ & Hg)]%lookup_insert_Some; [|by apply Hempty in Hg]. exists 0. split; [apply lookup_insert_eq|]. by split; cbn.
  - unfold state_ok. cbn. left.
  - done.
Qed.
Lemma process_leave_ok g w e y : process_ok y → pr_loops y !! g = Some w → process_ok (leave g e y).
Proof.
  intros [H1 H2 H3 H4 H5 H6] Hw. destruct (H1 g w Hw) as (Ha & Hc & Hn).
  assert (Hlt : (g < pr_started y)%nat) by (unfold current in Hc; destruct (pr_started y); [done|]; injection Hc as ->; lia).
  assert (Hempty : ∀ g1 w1, g1 ≠ g → pr_loops y !! g1 ≠ Some w1) by (intros g1 w1 Hne Hg; destruct (H1 g1 w1 Hg) as (_ & E & _); congruence).
  split; cbn.
  - intros g1 w1 [Hne Hg]%lookup_delete_Some. by apply Hempty in Hg.
  - done.
  - intros g1 [->%elem_of_singleton|Hg]%elem_of_union; [done|by apply H3].
  - intros g1 w1 [Hne Hg]%lookup_delete_Some. by apply Hempty in Hg.
  - unfold state_ok. cbn. by destruct e.
  - intros i g1 Hi. apply elem_of_union. right. by eapply H6.
Qed.
Lemma loop_step_ok l g w y y' : process_ok y → pr_loops y !! g = Some w → loop_step l g w y = Some y' → process_ok y'.
Proof.
  intros Hy Hw E. destruct (po_runs _ Hy g w Hw) as (r & Hr & Hm & Hp). destruct (po_loops _ Hy g w Hw) as (Ha & _ & _).
  assert (Hput : ∀ p, attempts_ok r (at_phase p w) → process_ok (put_loop g (at_phase p w) y)) by (intros p; by eapply put_loop_ok).
  destruct l; cbn [loop_step] in E; try done; destruct (lo_phase w) as [|n|n|n e1|n|e1]; try done.
  - injection E as <-. apply put_state_ok; [apply Hput; split; cbn; [done|lia]| |cbn; congruence].
    intros _. pose proof (po_state _ Hy) as Hs. unfold state_ok in Hs. rewrite Ha in Hs. case_bool_decide; [right; left|done].
  - injection E as <-. destruct Hy as [H1 H2 H3 H4 H5 H6]. destruct (H1 g w Hw) as (_ & Hc & Hn).
    split; cbn; [| |done| |done|done].
    + intros g1 w1 [(<- & <-)|(_ & Hg)]%lookup_insert_Some; [done|by eapply H1].
    + intros _. eexists g, _. split; [done|apply lookup_insert_eq].
    + intros g1 w1 [(<- & <-)|(Hne & Hg)]%lookup_insert_Some.
      * exists (r + 1). rewrite lookup_alter_eq, Hr. split; [done|]. split; cbn; [done|lia].
      * rewrite lookup_alter_ne by done. by apply H4.
  - injection E as <-. unfold returned. apply Hput. unfold attempts_ok. cbn. split; [done|].
    destruct (ended y g); [lia|]. destruct e; [|lia]. destruct (_ || _) eqn:Hx; [lia|].
    apply orb_false_iff in Hx as [Hx%Z.leb_gt _]. lia.
  - injection E as <-. apply Hput. unfold attempts_ok. cbn. split; [done|]. destruct answer as [[]|]; lia.
  - injection E as <-. apply Hput. unfold attempts_ok. cbn. lia.
  - destruct (ended y g); [|done]. injection E as <-. apply Hput. unfold attempts_ok. cbn. lia.
  - injection E as <-. by eapply process_leave_ok.
Qed.
Lemma put_stop_ok i p y : process_ok y → (∀ g, p = StopReturned (Some g) None → g ∈ pr_closed y) → process_ok (put_stop i p y).
Proof.
  intros [H1 H2 H3 H4 H5 H6] Hp. split; [done..|]. cbn. intros j g [(<- & E)|(_ & Hj)]%lookup_insert_Some; [by apply Hp|by eapply H6].
Qed.
Lemma process_step_ok l y y' : process_ok y → process_step l y = Some y' → process_ok y'.
Proof.
  intros Hy. destruct l as [|run max delay rt|g|g|g e|g a|g|g|g|i|i|i|i e]; cbn [process_step];
    try (intros (w & Hw & E)%bind_Some; by eapply loop_step_ok).
  - intros [= <-]. destruct Hy. by split.
  - intros [= <-]. by apply Start_ok.
  - destruct (pr_stops y !! i); [done|]. intros [= <-]. apply put_stop_ok; [|done]. destruct (pr_active y) eqn:Ha; [|done].
    apply put_state_ok; [done|intros _; right; right; left|congruence].
  - destruct (pr_stops y !! i) as [[[g|]| |]|]; try done; intros [= <-]; apply put_stop_ok; try done. destruct Hy. by split.
  - destruct (pr_stops y !! i) as [[]|]; try done. case_bool_decide; [|done]. intros [= <-]. apply put_stop_ok; [done|]. by intros ? [= <-].
  - destruct (pr_stops y !! i) as [[]|]; try done. intros [= <-]. by apply put_stop_ok.
Qed.

(** Over every interleaving of starts, stops and the goroutine's steps a
    process has at most one goroutine, exactly while it is active; it invokes
    the adapter at most once more than the restarts allowed; a Stop that
    returned nil has seen its goroutine end; and the published state says
    whether the process is at work and whether the last run failed. *)
Theorem process_single_flight l y :
  processes l NewProcess = Some y →
  (∀ g1 w1 g2 w2, pr_loops y !! g1 = Some w1 → pr_loops y !! g2 = Some w2 → g1 = g2) ∧
  (pr_active y = true ↔ ∃ g, is_Some (pr_loops y !! g)) ∧
  (∀ g w r, pr_loops y !! g = Some w → pr_runs y !! g = Some r → r ≤ lo_max w + 1) ∧
  (∀ i g, pr_stops y !! i = Some (StopReturned (Some g) None) → pr_loops y !! g = None) ∧
  state_ok y.
Proof.
  intros H. assert (Hy : process_ok y) by exact (steps_inv process_step process_ok l _ _ process_step_ok process_start_ok H).
  pose proof Hy as [H1 H2 H3 H4 H5 H6]. split_and!; [| | | |done].
  - intros g1 w1 g2 w2 Ha Hb. destruct (H1 _ _ Ha) as (_ & E1 & _), (H1 _ _ Hb) as (_ & E2 & _). congruence.
  - split; [intros (g & w & _ & Hw)%H2; eauto|]. intros (g & w & Hw). by apply (H1 g w).
  - intros g w r Hw Hr. destruct (H4 g w Hw) as (r' & Hr' & Hm & Hp). rewrite Hr in Hr'. injection Hr' as <-.
    destruct (lo_phase w); lia.
  - intros i g Hi. destruct (pr_loops y !! g) as [w|] eqn:Hw; [|done]. destruct (H1 g w Hw) as (_ & _ & Hn). exfalso. by eapply Hn, H6.
Qed.

(** A run that fails twice, then is stopped while it waits and started anew. *)
Definition demo_process : list process_label :=
  [PStart true 2 0 true; PRunning 0; PRun 0; PReturn 0 (Some (NewError "dial")); PRetry 0 (Some true); PTimer 0;
   PRun 0; PReturn 0 (Some (NewError "dial")); PRetry 0 (Some true); PStop 7; PCancel 7; PDone 0; PLeave 0; PStopped 7;
   PStart true 0 0 false; PStart true 0 0 false].
Lemma process_single_flight_witness :
  ∃ y, processes demo_process NewProcess = Some y ∧ pr_runs y !! 0%nat = Some 2 ∧ pr_active y = true ∧
    pr_loops y !! 0%nat = None ∧ is_Some (pr_loops y !! 1%nat).
Proof.
  destruct (processes demo_process NewProcess) as [y|] eqn:E; [|exfalso; vm_compute in E; discriminate E].
  pose proof (process_single_flight _ _ E) as (_ & _ & _ & Hstop & _). exists y. split; [reflexivity|].
  assert (Hs : pr_stops y !! 7%nat = Some (StopReturned (Some 0%nat) None)) by (vm_compute in E; apply (inj Some) in E; subst y; reflexivity).
  vm_compute in E. apply (inj Some) in E. split_and!; [by subst y|by subst y|exact (Hstop _ _ Hs)|subst y; eexists; reflexivity].
Defined.
