(* ===== verification/Configuration.v ===== *)
(** * The configuration document and the component directory
      (application/configuration.manager, rte/catalog.go, rte/directory.go,
      rte/configuration_changes.go, rte/configuration_previews.go,
      rte/config/store.go)

    One file holds the configuration of every component.  The manager reads
    it strictly, completes it from the catalog's schemas and writes it whole;
    the directory patches, enables and shows components through it. *)

From S2P Require Import Prelude Strings Storage Config Rte Prog.
Local Open Scope list_scope.

(** ** The catalog (catalog.go) *)

(** [df_Preserves]: the fields with [EmptyPreserves]; [df_Provides]: the
    names of the provided ports. *)
Record Definition_ := mkDefinition { df_ID : string; df_Fields : list ConfigField; df_Preserves : list string; df_Provides : list string }.
Record Component := mkComponent { c_Enabled : bool; c_Values : gmap string cval }.

Section configuration.
(** [url.Parse] as Config.v uses it; a definition's [Validate], which is
    side-effect free. *)
Context (url_parse : string → option (string * string)) (Validate : string → View → option err).

Section catalog.
Context (catalog : gmap string Definition_).

Definition catalog_View (id : string) (values : gmap string cval) : res err View :=
  match catalog !! id with
  | None => Err (ErrMsg "unknown component")
  | Some d =>
      view ← ConfigNew url_parse (df_Fields d) values;
      match Validate id view with Some e => Err e | None => Ok view end
  end.
Definition Definitions : list Definition_ :=
  sort_by (λ a b, String.leb (df_ID a) (df_ID b)) (map_to_list catalog).*2.

(** ** The document (service.go, migration.go) *)

Record System := mkSystem { sy_Namespace : string; sy_Debug : bool }.
Record Document := mkDocument { doc_Version : Z; doc_System : System; doc_Components : gmap string Component }.
Definition Version : Z := 1.
Definition ManagerID : string := "configuration.manager".
Definition is_letter (a : Ascii.ascii) : bool :=
  let n := Z.of_N (Ascii.N_of_ascii a) in (65 <=? n) && (n <=? 90) || (97 <=? n) && (n <=? 122).
Definition namespace_ok (s : string) : bool := negb (String.eqb s "") && forallb is_letter (String.list_ascii_of_string s).

Definition no_component : Component := mkComponent false ∅.
Definition migrateTimeConfiguration (input : gmap string Component) : gmap string Component :=
  let account := default no_component (input !! "account.telegram") in
  match c_Values account !! "ntp" with
  | None => input
  | Some legacy =>
      if existsb (λ d, String.eqb (df_ID d) "time.sync") Definitions then
        let input := <["account.telegram" := mkComponent (c_Enabled account) (delete "ntp" (c_Values account))]> input in
        let clock := default (mkComponent true ∅) (input !! "time.sync") in
        let values := match c_Values clock !! "server" with Some _ => c_Values clock | None => <["server" := legacy]> (c_Values clock) end in
        <["time.sync" := mkComponent (c_Enabled clock) values]> input
      else input
  end.

(** One component of the catalog, completed from its schema. *)
Definition component_of (input : gmap string Component) (id : string) : res err Component :=
  let component := default (mkComponent (negb (String.eqb id "trigger.forward")) ∅) (input !! id) in
  let enabled := if String.eqb id "proxy.range" then true else c_Enabled component in
  view ← catalog_View id (c_Values component);
  Ok (mkComponent enabled (v_values view)).
Definition complete_component (input : gmap string Component) (d : Definition_) (result : gmap string Component)
    : res err (gmap string Component) :=
  if String.eqb (df_ID d) ManagerID then Ok result
  else component ← component_of input (df_ID d); Ok (<[df_ID d := component]> result).
Definition Complete (input : Document) : res err Document :=
  if negb (doc_Version input =? Version) then Err (ErrMsg "unsupported tdl configuration version")
  else if negb (namespace_ok (sy_Namespace (doc_System input))) then Err (ErrMsg "system.namespace must contain English letters only")
  else
    let components := migrateTimeConfiguration (doc_Components input) in
    result ← fold_res (complete_component components) Definitions ∅;
    if forallb (λ '(id, _), bool_decide (is_Some (result !! id))) (map_to_list components)
    then Ok (mkDocument Version (doc_System input) result)
    else Err (ErrMsg "components: unknown component").
Definition Defaults (namespace : string) : res err Document := Complete (mkDocument Version (mkSystem namespace false) ∅).

(** ** The file (json.go) *)

Inductive json :=
  | JNull
  | JBool (b : bool)
  | JNumber (text : string)
  | JString (s : string)
  | JArray (l : list json)
  | JObject (l : list (string * json)).
(** [validateJSON]: no null, no duplicate key, and a value of nesting [depth]
    only while [room = 65 - depth] lasts. *)
Fixpoint valid_value (room : nat) (j : json) : bool :=
  match room with
  | O => false
  | S room =>
      match j with
      | JNull => false
      | JArray l => forallb (valid_value room) l
      | JObject l => bool_decide (NoDup l.*1) && forallb (λ '(_, j), valid_value room j) l
      | _ => true
      end
  end.
Definition validateJSON (j : json) : bool := valid_value 65 j.

(** [json.Unmarshal] of nested text, the decimal rendering of an integer and
    the strict [json.Decoder] of a document. *)
Context (parse_text : string → json) (show_int : Z → string) (decode : json → res err Document).
Definition atom_json (a : atom) : json :=
  match a with
  | ANull => JNull
  | ABool b => JBool b
  | AInt z => JNumber (show_int z)
  | AFloat text => JNumber text
  | AStr s => JString s
  | AObj text | AArr text => parse_text text
  end.
Definition value_json (v : cval) : json := match v with CAtom a => atom_json a | CArr l => JArray (map atom_json l) end.
Definition values_json (m : gmap string cval) : json := JObject (map (λ '(k, v), (k, value_json v)) (map_to_list m)).
Definition component_json (c : Component) : json := JObject [("enabled", JBool (c_Enabled c)); ("values", values_json (c_Values c))].
(** [json.MarshalIndent] of a document. *)
Definition encode (d : Document) : json :=
  JObject [("version", JNumber (show_int (doc_Version d)));
           ("system", JObject [("namespace", JString (sy_Namespace (doc_System d))); ("debug", JBool (sy_Debug (doc_System d)))]);
           ("components", JObject (map (λ '(id, c), (id, component_json c)) (map_to_list (doc_Components d))))].

(** ** The manager (service.go) *)

(** The file: what reading it gives, its JSON or an error. *)
Abbreviation file := (res err json).
Definition read (f : file) : res err Document :=
  j ← f;
  if validateJSON j then d ← decode j; Complete d else Err (ErrMsg "decode tdl_config.json").
(** What [write] hands to the file port. *)
Definition write (d : Document) : res err json := d ← Complete d; Ok (encode d).
Definition Create (d : Document) : res err json := write d.
Definition SystemConfiguration (f : file) : res err System := d ← read f; Ok (doc_System d).
#[export] Instance System_eq : EqDecision System.
Proof. solve_decision. Defined.
Definition SetSystem (f : file) (expected next : System) : res err json :=
  d ← read f;
  if negb (bool_decide (doc_System d = expected)) then Err (ErrMsg "configuration conflict")
  else write (mkDocument (doc_Version d) next (doc_Components d)).
Definition component (f : file) (id : string) : res err (Document * Component) :=
  d ← read f;
  if String.eqb id ManagerID then Ok (d, mkComponent true ∅)
  else match doc_Components d !! id with Some c => Ok (d, c) | None => Err (ErrMsg "unknown component") end.
Definition Load (f : file) (id : string) : res err Component := '(_, c) ← component f id; Ok c.
(** [sha256.Sum256] of the marshalled component *)
Context (sha256 : json → string).
Definition Revision (f : file) (id : string) : res err string := '(_, c) ← component f id; Ok (sha256 (component_json c)).
Definition Save (f : file) (id : string) (enabled : bool) (view : View) : res err json :=
  if String.eqb id ManagerID then Err (ErrMsg "configuration manager is always enabled")
  else
    '(d, _) ← component f id;
    write (mkDocument (doc_Version d) (doc_System d) (<[id := mkComponent enabled (v_values view)]> (doc_Components d))).

(** ** The directory (directory.go) *)

(** The calls of the store; the store of the directory is there. *)
Inductive dcall :=
  | DRevision (id : string)
  | DLoad (id : string)
  | DSave (id : string) (enabled : bool) (view : View).
Definition dans (c : dcall) : Type :=
  match c with DRevision _ => res err string | DLoad _ => res err Component | DSave _ _ _ => option err end.
Abbreviation dpgm := (prog dcall dans).
Definition drpc (c : dcall) : dpgm (dans c) := Prog.call c.
Arguments drpc c : simpl never.

Inductive patch_error := PConflict | PFailed (e : err).

(** [errors.Is(err, ErrConfigurationConflict)] is [PConflict]. *)
Definition check_revision (id expected : string) : dpgm (option patch_error) :=
  if String.eqb expected "" then Ret None
  else
    current ← (drpc (DRevision id) : dpgm (res err string));
    Ret (match current with
         | Err e => Some (PFailed e)
         | Ok current => if String.eqb current expected then None else Some PConflict
         end).
Definition keeps (d : Definition_) (key : string) (value : cval) : bool :=
  existsb (λ f, String.eqb (f_Name f) key && (f_Secret f || bool_decide (key ∈ df_Preserves d))) (df_Fields d)
  && bool_decide (value = CAtom (AStr "")).
Definition patched (d : Definition_) (patch values : gmap string cval) : gmap string cval :=
  map_imap (λ key value, if keeps d key value then None else Some value) patch ∪ values.
Definition save_view (id : string) (enabled : bool) (values : gmap string cval) : dpgm (option patch_error) :=
  match catalog_View id values with
  | Err e => Ret (Some (PFailed e))
  | Ok view =>
      failed ← (drpc (DSave id enabled view) : dpgm (option err));
      Ret (match failed with Some e => Some (PFailed e) | None => None end)
  end.
Definition PatchWithRevision (id : string) (patch : gmap string cval) (expected : string) : dpgm (option patch_error) :=
  refused ← check_revision id expected;
  match refused with
  | Some e => Ret (Some e)
  | None =>
      match catalog !! id with
      | None => Ret (Some (PFailed (ErrMsg "unknown component")))
      | Some d =>
          document ← (drpc (DLoad id) : dpgm (res err Component));
          match document with
          | Err e => Ret (Some (PFailed e))
          | Ok document => save_view id (c_Enabled document) (patched d patch (c_Values document))
          end
      end
  end.
Definition SetEnabledWithRevision (id : string) (enabled : bool) (expected : string) : dpgm (option patch_error) :=
  refused ← check_revision id expected;
  match refused with
  | Some e => Ret (Some e)
  | None =>
      document ← (drpc (DLoad id) : dpgm (res err Component));
      match document with
      | Err e => Ret (Some (PFailed e))
      | Ok document => save_view id enabled (c_Values document)
      end
  end.

(** The directory over the manager's file; [written]: the file port's answer
    to a write, which changes the file only when it reports no error. *)
Definition store_answer (written : option err) (c : dcall) (f : file) : dans c * file :=
  match c return dans c * file with
  | DRevision id => (Revision f id, f)
  | DLoad id => (Load f id, f)
  | DSave id enabled view =>
      match Save f id enabled view with
      | Err e => (Some e, f)
      | Ok j => match written with Some e => (Some e, f) | None => (None, Ok j) end
      end
  end.

(** *** Ports of components *)

(** [resolveComponentPort] of the runtimes, in the order of their names. *)
Definition ResolveComponentPort {V} (id name : string) (enabled : res err bool) (runtimes : list (string → string → res err V)) : res err V :=
  match catalog !! id with
  | None => Err (ErrMsg "unknown component")
  | Some d =>
      if negb (existsb (String.eqb name) (df_Provides d)) then Err (ErrMsg "does not provide")
      else
        enabled ← enabled;
        if negb enabled then Err (ErrMsg "component is disabled")
        else
          (fix resolve runtimes :=
             match runtimes with
             | [] => Err (ErrMsg "component is unavailable")
             | host :: runtimes => match host id name with Ok v => Ok v | Err _ => resolve runtimes end
             end) runtimes
  end.

(** *** What is shown *)

Definition publicValues (fields : list ConfigField) (view : View) : gmap string cval :=
  foldl (λ m f, if f_Secret f then m
                else match ViewGet view (f_Name f) with Ok raw => <[f_Name f := raw]> m | Err _ => m end) ∅ fields.

Record ConfigurationChange := mkChange { ch_Name : string; ch_Before : option cval; ch_After : option cval; ch_Secret : bool }.
(** [secretPresence]: only a non-empty string is present. *)
Definition secretPresence (v : option cval) : option cval :=
  Some (CAtom (AStr (match v with Some (CAtom (AStr s)) => if String.eqb s "" then "未设置" else "已设置（不回显）" | _ => "未设置" end))).
Definition configurationChanges (fields : list ConfigField) (before after : View) : list ConfigurationChange :=
  flat_map (λ f,
    let b := v_values before !! f_Name f in
    let a := v_values after !! f_Name f in
    if bool_decide (b = a) then []
    else [if f_Secret f then mkChange (f_Name f) (secretPresence b) (secretPresence a) true else mkChange (f_Name f) b a false]) fields.
(** [url.Parse] with scheme, host and escaped path. *)
Context (parse_url : string → option (string * string * string)).
Definition preview_of (f : ConfigField) (raw : option cval) : option string :=
  if negb (f_Secret f) || negb (String.eqb (f_Format f) "proxy" || String.eqb (f_Format f) "url") then None
  else match raw with
       | Some (CAtom (AStr value)) =>
           match parse_url value with
           | Some (scheme, host, path) =>
               if String.eqb scheme "" || String.eqb host "" then None
               else Some (scheme +:+ "://" +:+ host +:+ (if String.eqb (f_Format f) "url" then path else ""))
           | None => None
           end
       | _ => None
       end.
Definition publicPreviews (fields : list ConfigField) (view : View) : gmap string string :=
  foldl (λ m f, match preview_of f (v_values view !! f_Name f) with Some p => <[f_Name f := p]> m | None => m end) ∅ fields.

(** The saved part of a component's entry in [Configurations]. *)
Record Shown := mkShown { sh_Enabled : bool; sh_Error : bool; sh_PendingRestart : bool; sh_Values : gmap string cval;
                          sh_Previews : gmap string string; sh_ActiveEnabled : option bool; sh_Changes : list ConfigurationChange }.
(** [live]: the view of the running instance; [document], [before]: what the
    store and the store of this process give. *)
Definition shown (d : Definition_) (live : option View) (document : res err Component) (before : option (res err Component)) : Shown :=
  match document with
  | Err _ => mkShown false true false ∅ ∅ None []
  | Ok document =>
      match catalog_View (df_ID d) (c_Values document) with
      | Err _ => mkShown (c_Enabled document) true false ∅ ∅ None []
      | Ok view =>
          let pending := match live with Some v => negb (ViewEqual v view) | None => false end in
          let values := publicValues (df_Fields d) view in
          let previews := publicPreviews (df_Fields d) view in
          match before with
          | None => mkShown (c_Enabled document) false pending values previews None []
          | Some (Err _) => mkShown (c_Enabled document) true pending values previews None []
          | Some (Ok before) =>
              match catalog_View (df_ID d) (c_Values before) with
              | Err _ => mkShown (c_Enabled document) true pending values previews None []
              | Ok baseline =>
                  let changes := configurationChanges (df_Fields d) baseline view ++
                    (if Bool.eqb (c_Enabled before) (c_Enabled document) then []
                     else [mkChange "enabled" (Some (CAtom (ABool (c_Enabled before)))) (Some (CAtom (ABool (c_Enabled document)))) false]) in
                  mkShown (c_Enabled document) false (negb (is_nil changes)) values previews (Some (c_Enabled before)) changes
              end
          end
      end
  end.
End catalog.

(** [NewCatalog], without the clones and scopes. *)
Definition NewCatalog (definitions : list Definition_) : res err (gmap string Definition_) :=
  fold_res (λ d m,
    if String.eqb (df_ID d) "" then Err (ErrMsg "component ID is required")
    else if bool_decide (is_Some (m !! df_ID d)) then Err (ErrMsg "duplicate component")
    else _ ← ConfigNew url_parse (df_Fields d) ∅; Ok (<[df_ID d := d]> m)) definitions ∅.
End configuration.
