(* ===== verification/ConfigurationProps.v ===== *)
(** * Theorems about the configuration document and the directory

    Completion is idempotent; a patch changes what it names and nothing else;
    what is shown of a component does not tell its secrets. *)

From S2P Require Import Prelude Strings Storage Config Rte RteBuild Prog Configuration.
Local Open Scope list_scope.

(** ** Views *)

Lemma config_fields_again up schema values values' v v' :
  config_fields up schema values v = Ok v' →
  (∀ f, f ∈ schema → default (f_Default f) (values' !! f_Name f) = default (f_Default f) (values !! f_Name f)) →
  config_fields up schema values' v = Ok v'.
Proof.
  revert v. induction schema as [|f schema IH]; intros v; cbn [config_fields]; [done|]. intros H Hd.
  destruct (String.eqb _ _); [done|]. destruct (v_values v !! f_Name f); [done|].
  rewrite (Hd f ltac:(left)). destruct (validate up f _); [|done]. cbn [mbind res_bind] in *. apply IH; [done|].
  intros g Hg. apply Hd. by right.
Qed.
Lemma ConfigNew_again up schema values v : ConfigNew up schema values = Ok v → ConfigNew up schema (v_values v) = Ok v.
Proof.
  intros H. pose proof (ConfigNew_spec _ _ _ _ H) as (_ & Hin & _). unfold ConfigNew in *.
  apply res_bind_ok in H as (v' & H & Hf). destruct (forallb _ _); [|done]. injection Hf as ->.
  rewrite (config_fields_again _ _ _ (v_values v) _ _ H); cbn [mbind res_bind].
  - assert (forallb (λ '(name, _), bool_decide (is_Some (v_values v !! name))) (map_to_list (v_values v)) = true) as ->; [|done].
    apply forallb_forall. intros [k x] Hk%list_elem_of_In%elem_of_map_to_list. apply bool_decide_eq_true. by exists x.
  - intros f Hf. by rewrite (proj1 (Hin f Hf)).
Qed.

Section configuration.
Context (url_parse : string → option (string * string)) (Validate : string → View → option err) (catalog : gmap string Definition_).
(** The catalog is keyed by the IDs, and no definition keeps the field that
    the migration moves. *)
Context (Hcat : ∀ id d, catalog !! id = Some d → df_ID d = id).
Context (Hntp : ∀ d, catalog !! "account.telegram" = Some d → "ntp" ∉ f_Name <$> df_Fields d).
Abbreviation view_of := (catalog_View url_parse Validate catalog).

Lemma view_of_spec id values view :
  view_of id values = Ok view → ∃ d, catalog !! id = Some d ∧ ConfigNew url_parse (df_Fields d) values = Ok view ∧ Validate id view = None.
Proof.
  unfold catalog_View. destruct (catalog !! id) as [d|]; [|done]. intros (v & H & E)%res_bind_ok. exists d.
  destruct (Validate id v) eqn:Hv; [done|]. by injection E as ->.
Qed.
Lemma view_of_again id values view : view_of id values = Ok view → view_of id (v_values view) = Ok view.
Proof.
  intros (d & Hd & H & Hv)%view_of_spec. unfold catalog_View. rewrite Hd, (ConfigNew_again _ _ _ _ H). cbn [mbind res_bind]. by rewrite Hv.
Qed.

(** ** Completed components *)

Record closed (m : gmap string Component) : Prop := {
  cl_known : ∀ id, is_Some (m !! id) ↔ is_Some (catalog !! id) ∧ id ≠ ManagerID;
  cl_view : ∀ id c, m !! id = Some c → ∃ values view, view_of id values = Ok view ∧ c_Values c = v_values view;
  cl_range : ∀ c, m !! "proxy.range" = Some c → c_Enabled c = true;
}.

Lemma Definitions_spec d : d ∈ Definitions catalog ↔ catalog !! df_ID d = Some d.
Proof.
  unfold Definitions. rewrite sort_by_perm. split.
  - intros ([k x] & -> & H%elem_of_map_to_list)%list_elem_of_fmap. cbn in *. by rewrite (Hcat k x H).
  - intros H. apply list_elem_of_fmap. exists (df_ID d, d). split; [done|]. by apply elem_of_map_to_list.
Qed.

Lemma complete_fold input l : ∀ m m',
  fold_res (complete_component url_parse Validate catalog input) l m = Ok m' →
  (∀ id, is_Some (m' !! id) ↔ is_Some (m !! id) ∨ ∃ d, d ∈ l ∧ df_ID d = id ∧ id ≠ ManagerID) ∧
  (∀ id c, m' !! id = Some c → m !! id = Some c ∨ component_of url_parse Validate catalog input id = Ok c).
Proof.
  induction l as [|d l IH]; intros m m'; cbn [fold_res].
  { intros [= <-]. split; [intros id; split; [by left|intros [?|(d & ?%elem_of_nil & _)]; done]|by left]. }
  intros (m1 & H1 & H2)%res_bind_ok. apply IH in H2 as [Ha Hb]. unfold complete_component in H1.
  destruct (String.eqb (df_ID d) ManagerID) eqn:Em; [apply String.eqb_eq in Em|apply String.eqb_neq in Em].
  - injection H1 as <-. split; [|done]. intros id. rewrite Ha. setoid_rewrite elem_of_cons. naive_solver.
  - apply res_bind_ok in H1 as (c & Hc & [= <-]). split.
    + intros id. rewrite Ha. setoid_rewrite elem_of_cons. destruct (decide (df_ID d = id)) as [<-|Hne].
      * rewrite lookup_insert_eq. naive_solver.
      * rewrite lookup_insert_ne by done. naive_solver.
    + intros id c' [[(<- & <-)|(_ & ?)]%lookup_insert_Some|?]%Hb; auto.
Qed.
Lemma complete_fold_total input l : ∀ m,
  (∀ d, d ∈ l → df_ID d ≠ ManagerID → ∃ c, component_of url_parse Validate catalog input (df_ID d) = Ok c) →
  ∃ m', fold_res (complete_component url_parse Validate catalog input) l m = Ok m'.
Proof.
  induction l as [|d l IH]; intros m H; cbn [fold_res]; [eauto|].
  assert (∃ m1, complete_component url_parse Validate catalog input d m = Ok m1) as [m1 ->].
  { unfold complete_component. destruct (String.eqb (df_ID d) ManagerID) eqn:Em; [eauto|]. apply String.eqb_neq in Em.
    destruct (H d ltac:(left) Em) as [c ->]. cbn. eauto. }
  cbn [mbind res_bind]. apply IH. intros d' Hd'. apply H. by right.
Qed.

Lemma migrate_id input :
  (∀ c, input !! "account.telegram" = Some c → c_Values c !! "ntp" = None) → migrateTimeConfiguration catalog input = input.
Proof.
  intros H. unfold migrateTimeConfiguration. destruct (input !! "account.telegram") as [c|] eqn:E; cbn.
  - by rewrite (H c eq_refl).
  - done.
Qed.
Lemma closed_ntp m c : closed m → m !! "account.telegram" = Some c → c_Values c !! "ntp" = None.
Proof.
  intros Hm Hc. destruct (cl_view _ Hm _ _ Hc) as (values & view & (d & Hd & Hv & _)%view_of_spec & ->).
  pose proof (ConfigNew_spec _ _ _ _ Hv) as (_ & _ & Hdom & _). destruct (v_values view !! "ntp") eqn:E; [|done].
  exfalso. apply (Hntp d Hd). apply Hdom. by rewrite E.
Qed.
Lemma component_again m id c : closed m → m !! id = Some c → component_of url_parse Validate catalog m id = Ok c.
Proof.
  intros Hm Hc. destruct (cl_view _ Hm _ _ Hc) as (values & view & Hv & E). unfold component_of. rewrite Hc. cbn -[catalog_View String.eqb].
  rewrite E, (view_of_again _ _ _ Hv). cbn [mbind res_bind]. f_equal. destruct c as [en vs]. cbn in *. rewrite <- E. f_equal.
  destruct (String.eqb id "proxy.range") eqn:Er; [|done]. apply String.eqb_eq in Er as ->. symmetry. exact (cl_range _ Hm _ Hc).
Qed.

Abbreviation complete := (Complete url_parse Validate catalog).
Lemma Complete_closed d d' : complete d = Ok d' →
  closed (doc_Components d') ∧ doc_Version d' = Version ∧ doc_System d' = doc_System d ∧ namespace_ok (sy_Namespace (doc_System d')) = true.
Proof.
  unfold Complete. destruct (negb _) eqn:Hv; [done|]. destruct (negb (namespace_ok _)) eqn:Hn; [done|]. apply negb_false_iff in Hn.
  intros (m & Hm & E)%res_bind_ok. destruct (forallb _ _); [|done]. injection E as <-. cbn. split_and!; [|done..].
  apply complete_fold in Hm as [Ha Hb]. split.
  - intros id. rewrite Ha, lookup_empty. split.
    + intros [[? ?]|(d0 & Hd & <- & Hne)]; [done|]. apply Definitions_spec in Hd. eauto.
    + intros [[d0 Hd] Hne]. right. exists d0. rewrite Definitions_spec, (Hcat id d0 Hd). done.
  - intros id c [H|H]%Hb; [by rewrite lookup_empty in H|]. unfold component_of in H.
    apply res_bind_ok in H as (view & Hv' & [= <-]). by eexists _, view.
  - intros c [H|H]%Hb; [by rewrite lookup_empty in H|]. unfold component_of in H. by apply res_bind_ok in H as (view & Hv' & [= <-]).
Qed.
Lemma closed_complete sys m :
  closed m → namespace_ok (sy_Namespace sys) = true → complete (mkDocument Version sys m) = Ok (mkDocument Version sys m).
Proof.
  intros Hm Hn. unfold Complete. cbn. rewrite Hn. cbn. rewrite migrate_id by (intros c; by apply closed_ntp).
  destruct (complete_fold_total m (Definitions catalog) ∅) as [m' E].
  { intros d Hd%Definitions_spec Hne. destruct (m !! df_ID d) as [c|] eqn:Hc; [exists c; by apply component_again|].
    assert (is_Some (m !! df_ID d)) as [? ?] by (apply (cl_known _ Hm); eauto). congruence. }
  rewrite E. cbn [mbind res_bind]. apply complete_fold in E as [Ha Hb].
  assert (m' = m) as ->.
  { apply map_eq. intros id. assert (Hdom : is_Some (m' !! id) ↔ is_Some (m !! id)).
    { rewrite Ha, lookup_empty, (cl_known _ Hm). split.
      - intros [[? ?]|(d & Hd%Definitions_spec & <- & Hne)]; [done|eauto].
      - intros [[d Hd] Hne]. right. exists d. rewrite Definitions_spec, (Hcat id d Hd). done. }
    destruct (m' !! id) as [c|] eqn:Hc, (m !! id) as [c'|] eqn:Hc'; try done.
    - destruct (Hb _ _ Hc) as [H|H]; [by rewrite lookup_empty in H|]. rewrite (component_again m id c' Hm Hc') in H. congruence.
    - exfalso. destruct Hdom as [H _]. by destruct H.
    - exfalso. destruct Hdom as [_ H]. by destruct H. }
  assert (forallb (λ '(id, _), bool_decide (is_Some (m !! id))) (map_to_list m) = true) as ->; [|done].
  apply forallb_forall. intros [k x] Hk%list_elem_of_In%elem_of_map_to_list. apply bool_decide_eq_true. by exists x.
Qed.
Lemma closed_put m id values view enabled :
  closed m → is_Some (m !! id) → view_of id values = Ok view → (id = "proxy.range" → enabled = true) →
  closed (<[id := mkComponent enabled (v_values view)]> m).
Proof.
  intros [H1 H2 H3] Hid Hv Hr. split.
  - intros id'. destruct (decide (id = id')) as [<-|Hne]; [rewrite lookup_insert_eq|by rewrite lookup_insert_ne].
    rewrite <- H1. split; [done|eauto].
  - intros id' c [(<- & <-)|(_ & H)]%lookup_insert_Some; [by eexists _, view|by apply H2].
  - intros c [(-> & <-)|(_ & H)]%lookup_insert_Some; [by apply Hr|by apply H3].
Qed.

(** ** The manager over its file *)

Section file.
Context (parse_text : string → json) (show_int : Z → string) (decode : json → res err Document) (sha256 : json → string).
(** The strict reader accepts what was written for a document, as that
    document. *)
Definition readable (d : Document) : Prop :=
  validateJSON (encode parse_text show_int d) = true ∧ decode (encode parse_text show_int d) = Ok d.
Abbreviation read_file := (read url_parse Validate catalog decode).
Abbreviation load := (Load url_parse Validate catalog decode).
Abbreviation save := (Save url_parse Validate catalog parse_text show_int decode).
Abbreviation revision := (Revision url_parse Validate catalog parse_text show_int decode sha256).
Abbreviation system := (SystemConfiguration url_parse Validate catalog decode).

Lemma read_closed f d : read_file f = Ok d →
  closed (doc_Components d) ∧ doc_Version d = Version ∧ namespace_ok (sy_Namespace (doc_System d)) = true.
Proof.
  unfold read. intros (j & _ & H)%res_bind_ok. destruct (validateJSON j); [|done]. apply res_bind_ok in H as (d0 & _ & H).
  apply Complete_closed in H as (? & ? & _ & ?). done.
Qed.
(** A written document that is readable is read as it was completed. *)
Lemma write_read sys m :
  closed m → namespace_ok (sy_Namespace sys) = true →
  let j := encode parse_text show_int (mkDocument Version sys m) in
  write url_parse Validate catalog parse_text show_int (mkDocument Version sys m) = Ok j ∧
  (readable (mkDocument Version sys m) → read_file (Ok j) = Ok (mkDocument Version sys m)).
Proof.
  intros Hm Hn j. unfold write, read. rewrite (closed_complete sys m Hm Hn). cbn [mbind res_bind]. split; [done|].
  intros [Hj Hdec]. unfold j. rewrite Hj, Hdec. cbn [mbind res_bind]. by apply closed_complete.
Qed.

Lemma patched_lookup d patch values key :
  patched d patch values !! key = match patch !! key with Some v => if keeps d key v then values !! key else Some v | None => values !! key end.
Proof.
  unfold patched. rewrite lookup_union, map_lookup_imap. destruct (patch !! key) as [v|]; cbn; [|by destruct (values !! key)].
  destruct (keeps d key v); [by destruct (values !! key)|by destruct (values !! key)].
Qed.

(** A loaded component has every field of its schema. *)
Lemma load_fields f id c d key :
  load f id = Ok c → String.eqb id ManagerID = false → catalog !! id = Some d → key ∈ f_Name <$> df_Fields d → is_Some (c_Values c !! key).
Proof.
  unfold Load, component. intros Hl Hm Hd Hk. rewrite Hm in Hl. destruct (read_file f) as [doc|e] eqn:Hr; [|done].
  cbn [mbind res_bind] in Hl. destruct (doc_Components doc !! id) as [c0|] eqn:Hc; [|done]. injection Hl as ->.
  destruct (read_closed _ _ Hr) as [Hcl _]. destruct (cl_view _ Hcl _ _ Hc) as (values & view & (d' & Hd' & Hv & _)%view_of_spec & ->).
  rewrite Hd in Hd'. injection Hd' as <-. pose proof (ConfigNew_spec _ _ _ _ Hv) as (_ & _ & Hdom & _). by apply Hdom.
Qed.
(** What a successful save of a patched component leaves in the file. *)
Lemma save_spec f id c view values j :
  load f id = Ok c → view_of id values = Ok view → save f id (c_Enabled c) view = Ok j →
  ∃ d, j = encode parse_text show_int d ∧ (readable d →
    load (Ok j) id = Ok (mkComponent (c_Enabled c) (v_values view)) ∧ (∀ id', id' ≠ id → load (Ok j) id' = load f id') ∧ system (Ok j) = system f).
Proof.
  unfold Load, SystemConfiguration, Save, component. intros Hl Hv. destruct (String.eqb id ManagerID) eqn:Em; [done|].
  destruct (read_file f) as [d|e] eqn:Hr; [|done]. cbn [mbind res_bind] in *. destruct (doc_Components d !! id) as [c0|] eqn:Hc; [|done].
  cbn in Hl. injection Hl as ->. destruct (read_closed _ _ Hr) as (Hm & Hver & Hns). cbn [mbind res_bind]. rewrite Hver.
  assert (Hput : closed (<[id := mkComponent (c_Enabled c) (v_values view)]> (doc_Components d))).
  { eapply closed_put; [done|by exists c|exact Hv|]. intros ->. by apply (cl_range _ Hm). }
  destruct (write_read (doc_System d) _ Hput Hns) as [Hw Hread]. rewrite Hw. intros [= <-].
  eexists. split; [reflexivity|]. intros Hok. rewrite (Hread Hok).
  cbn -[String.eqb]. rewrite ?Em, lookup_insert_eq. cbn [mbind res_bind]. split; [done|split; [|done]].
  intros id' Hne. destruct (String.eqb id' ManagerID); [reflexivity|]. rewrite lookup_insert_ne by done. by destruct (doc_Components d !! id').
Qed.

(** C37: A patch that reports no error was made at the expected revision, and
    afterwards, if what was written is readable, the component has the values
    it had but for the patched ones, a secret or preserved field keeping its
    value against an empty string; its enablement, every other component and
    the system settings are as before.  A patch that reports an error leaves
    the file as it was. *)
Theorem configuration_patch written id patch expected f :
  let '(e, f', _) := run (store_answer url_parse Validate catalog parse_text show_int decode sha256 written)
                         (PatchWithRevision url_parse Validate catalog id patch expected) f [] in
  match e with
  | Some _ => f' = f
  | None =>
      (expected = "" ∨ revision f id = Ok expected) ∧
      ∃ d c view doc, catalog !! id = Some d ∧ load f id = Ok c ∧ f' = Ok (encode parse_text show_int doc) ∧
        (∀ key, key ∈ f_Name <$> df_Fields d → v_values view !! key =
           match patch !! key with Some v => if keeps d key v then c_Values c !! key else Some v | None => c_Values c !! key end) ∧
        (readable doc →
           load f' id = Ok (mkComponent (c_Enabled c) (v_values view)) ∧
           (∀ id', id' ≠ id → load f' id' = load f id') ∧ system f' = system f)
  end.
Proof.
  unfold PatchWithRevision. rewrite run_bind. unfold check_revision.
  assert (Hgo : ∀ l, (expected = "" ∨ revision f id = Ok expected) →
    let '(e, f', _) := run (store_answer url_parse Validate catalog parse_text show_int decode sha256 written)
      (match catalog !! id with
       | None => Ret (Some (PFailed (ErrMsg "unknown component")))
       | Some d => document ← (drpc (DLoad id) : prog dcall dans (res err Component));
           match document with
           | Err e => Ret (Some (PFailed e))
           | Ok document => save_view url_parse Validate catalog id (c_Enabled document) (patched d patch (c_Values document))
           end
       end) f l in
    match e with
    | Some _ => f' = f
    | None => (expected = "" ∨ revision f id = Ok expected) ∧
        ∃ d c view doc, catalog !! id = Some d ∧ load f id = Ok c ∧ f' = Ok (encode parse_text show_int doc) ∧
        (∀ key, key ∈ f_Name <$> df_Fields d → v_values view !! key =
           match patch !! key with Some v => if keeps d key v then c_Values c !! key else Some v | None => c_Values c !! key end) ∧
        (readable doc →
           load f' id = Ok (mkComponent (c_Enabled c) (v_values view)) ∧
           (∀ id', id' ≠ id → load f' id' = load f id') ∧ system f' = system f)
    end).
  { intros l Hexp. destruct (catalog !! id) as [d|] eqn:Hd; [|done]. cbn [mbind prog_bind drpc Prog.call run store_answer].
    destruct (load f id) as [c|e] eqn:Hl; [|done]. unfold save_view.
    destruct (view_of id (patched d patch (c_Values c))) as [view|e] eqn:Hv; [|done]. cbn [mbind prog_bind drpc Prog.call run store_answer].
    destruct (save f id (c_Enabled c) view) as [j|e] eqn:Hs; [|done]. destruct written; [done|]. cbn [run].
    destruct (save_spec f id c view _ j Hl Hv Hs) as (doc & -> & Hdoc).
    split; [done|]. exists d, c, view, doc. split_and!; [done|done|done| |done].
    apply view_of_spec in Hv as (d' & Hd' & Hv & _). rewrite Hd in Hd'. injection Hd' as <-.
    pose proof (ConfigNew_spec _ _ _ _ Hv) as (_ & Hin & _). intros key (fl & -> & Hfl)%list_elem_of_fmap.
    assert (Hm : String.eqb id ManagerID = false) by (unfold Save in Hs; by destruct (String.eqb id ManagerID)).
    destruct (load_fields f id c d (f_Name fl) Hl Hm Hd) as [x Hx]; [by apply list_elem_of_fmap_2|].
    rewrite (proj1 (Hin fl Hfl)), patched_lookup, Hx. by destruct (patch !! f_Name fl) as [v|]; [destruct (keeps d (f_Name fl) v)|]. }
  destruct (String.eqb expected "") eqn:Ee; [apply String.eqb_eq in Ee|]; cbn [run]; [apply Hgo; by left|].
  cbn [mbind prog_bind drpc Prog.call run store_answer]. destruct (revision f id) as [r|e] eqn:Hr; [|done]. cbn [run].
  destruct (String.eqb r expected) eqn:Er; [|done]. apply String.eqb_eq in Er as ->. apply Hgo. by right.
Qed.
End file.

(** ** Secrets *)

Section shown.
Context (parse_url : string → option (string * string * string)).

(** Two stored values that may differ only in a secret: its presence and the
    address of a secret URL are public. *)
Definition looks_same (f : ConfigField) (a b : option cval) : Prop :=
  if f_Secret f then secretPresence a = secretPresence b ∧ preview_of parse_url f a = preview_of parse_url f b else a = b.

Lemma foldl_ext_in {A B} (f g : A → B → A) l : ∀ a, (∀ a b, b ∈ l → f a b = g a b) → foldl f a l = foldl g a l.
Proof.
  induction l as [|b l IH]; intros a H; [done|]. cbn [foldl]. rewrite (H a b) by left. apply IH. intros a' b' Hb. apply H. by right.
Qed.
Lemma flat_map_ext_in {A B} (f g : A → list B) l : (∀ a, a ∈ l → f a = g a) → flat_map f l = flat_map g l.
Proof. induction l as [|a l IH]; intros H; [done|]. cbn. rewrite (H a) by left. f_equal. apply IH. intros b Hb. apply H. by right. Qed.

Lemma public_same fields v w :
  (∀ f, f ∈ fields → looks_same f (v_values v !! f_Name f) (v_values w !! f_Name f)) →
  publicValues fields v = publicValues fields w ∧ publicPreviews parse_url fields v = publicPreviews parse_url fields w.
Proof.
  intros H. unfold publicValues, publicPreviews. split; apply foldl_ext_in; intros m f Hf; specialize (H f Hf); unfold looks_same in H.
  - destruct (f_Secret f); [done|]. unfold ViewGet. by rewrite H.
  - destruct (f_Secret f) eqn:E; [by destruct H as [_ ->]|]. unfold preview_of. by rewrite E.
Qed.
Lemma changes_same fields b1 a1 b2 a2 :
  (∀ f, f ∈ fields → looks_same f (v_values b1 !! f_Name f) (v_values b2 !! f_Name f) ∧
     looks_same f (v_values a1 !! f_Name f) (v_values a2 !! f_Name f) ∧
     (v_values b1 !! f_Name f = v_values a1 !! f_Name f ↔ v_values b2 !! f_Name f = v_values a2 !! f_Name f)) →
  configurationChanges fields b1 a1 = configurationChanges fields b2 a2.
Proof.
  intros H. apply flat_map_ext_in. intros f Hf. cbn beta zeta. destruct (H f Hf) as (Hb & Ha & Heq). rewrite (bool_decide_ext _ _ Heq).
  destruct (bool_decide _); [done|]. unfold looks_same in *. destruct (f_Secret f); [|by rewrite Ha, Hb].
  by rewrite (proj1 Ha), (proj1 Hb).
Qed.

(** What is shown of a component is the same whatever its secrets are: it
    tells of a secret only whether it is set, whether it differs from the one
    in use, and of a secret URL the scheme, the host and the path. *)
Theorem secrets_not_shown d live1 live2 c1 c2 b1 b2 v1 v2 w1 w2 :
  view_of (df_ID d) (c_Values c1) = Ok v1 → view_of (df_ID d) (c_Values c2) = Ok v2 → c_Enabled c1 = c_Enabled c2 →
  view_of (df_ID d) (c_Values b1) = Ok w1 → view_of (df_ID d) (c_Values b2) = Ok w2 → c_Enabled b1 = c_Enabled b2 →
  (∀ f, f ∈ df_Fields d → looks_same f (v_values w1 !! f_Name f) (v_values w2 !! f_Name f) ∧
     looks_same f (v_values v1 !! f_Name f) (v_values v2 !! f_Name f) ∧
     (v_values w1 !! f_Name f = v_values v1 !! f_Name f ↔ v_values w2 !! f_Name f = v_values v2 !! f_Name f)) →
  shown url_parse Validate catalog parse_url d live1 (Ok c1) (Some (Ok b1)) =
  shown url_parse Validate catalog parse_url d live2 (Ok c2) (Some (Ok b2)).
Proof.
  intros Hv1 Hv2 Hc Hw1 Hw2 Hb Hf. unfold shown. rewrite Hv1, Hv2, Hw1, Hw2, Hc, Hb.
  destruct (public_same (df_Fields d) v1 v2) as [-> ->]; [intros f Hin; by apply Hf|].
  by rewrite (changes_same (df_Fields d) w1 v1 w2 v2 Hf).
Qed.
End shown.
End configuration.

(** ** Examples and witnesses *)

Definition demo_filter : Definition_ :=
  mkDefinition "filter.rules" [mkField "include" FStrings (CArr []) [] "" false None None;
                               mkField "proxy" FString (CAtom (AStr "")) [] "proxy" true None None] [] [].
Definition demo_catalog : gmap string Definition_ := {[ "filter.rules" := demo_filter ]}.
Definition demo_url (s : string) : option (string * string) := Some ("socks5", s).
Definition demo_accept (id : string) (v : View) : option err := None.
Definition demo_text (s : string) : json := JString s.
Definition demo_number (z : Z) : string := "1".
Definition demo_hash (j : json) : string := "hash".
Definition demo_system : System := mkSystem "home" false.
Definition demo_values (include : list atom) (proxy : string) : gmap string cval :=
  {[ "include" := CArr include; "proxy" := CAtom (AStr proxy) ]}.
Definition demo_doc : Document := mkDocument Version demo_system {[ "filter.rules" := mkComponent true (demo_values [] "tor:9050") ]}.
Abbreviation demo_encode := (encode demo_text demo_number).
Abbreviation demo_store decode := (store_answer demo_url demo_accept demo_catalog demo_text demo_number decode demo_hash None).
Abbreviation demo_patch patch := (PatchWithRevision demo_url demo_accept demo_catalog "filter.rules" patch "hash").
Lemma demo_keyed : ∀ id d, demo_catalog !! id = Some d → df_ID d = id.
Proof. unfold demo_catalog. intros id d [<- <-]%lookup_singleton_Some. reflexivity. Qed.
Lemma demo_no_account : ∀ d, demo_catalog !! "account.telegram" = Some d → "ntp" ∉ f_Name <$> df_Fields d.
Proof. unfold demo_catalog. by intros d [[=] _]%lookup_singleton_Some. Qed.

Definition demo_decode (j : json) : res err Document := Ok demo_doc.
Definition demo_change : gmap string cval := {[ "proxy" := CAtom (AStr "") ]}.
Lemma demo_patched : (run (demo_store demo_decode) (demo_patch demo_change) (Ok (demo_encode demo_doc)) []).1.1 = None.
Proof. vm_compute. reflexivity. Qed.
(** An empty secret keeps the stored one. *)
Lemma configuration_patch_witness :
  ∃ f view, (run (demo_store demo_decode) (demo_patch demo_change) (Ok (demo_encode demo_doc)) []).1 = (None, f) ∧
    v_values view !! "proxy" = Some (CAtom (AStr "tor:9050")).
Proof.
  pose proof (configuration_patch demo_url demo_accept demo_catalog demo_keyed demo_no_account demo_text demo_number demo_decode demo_hash
    None "filter.rules" demo_change "hash" (Ok (demo_encode demo_doc))) as H. pose proof demo_patched as E.
  destruct (run _ _ _ _) as [[e f'] l]. cbn in E. subst e. destruct H as (_ & d & c & view & doc & Hd & Hc & Hf & Hv & _).
  exists f', view. split; [reflexivity|]. unfold demo_catalog in Hd. apply lookup_singleton_Some in Hd as [_ <-].
  rewrite (Hv "proxy" ltac:(right; left)).
  vm_compute in Hc. apply (inj Ok) in Hc. subst c. reflexivity.
Defined.

(** A list of strings takes a null, which the reader of the file refuses: the
    patch is saved, and no component can be loaded any more. *)
Definition null_change : gmap string cval := {[ "include" := CArr [ANull] ]}.
Definition null_doc : Document :=
  mkDocument Version demo_system {[ "filter.rules" := mkComponent true (demo_values [ANull] "tor:9050") ]}.
Lemma demo_read decode : decode (demo_encode demo_doc) = Ok demo_doc →
  read demo_url demo_accept demo_catalog decode (Ok (demo_encode demo_doc)) = Ok demo_doc.
Proof.
  intros H. unfold read. assert (validateJSON (demo_encode demo_doc) = true) as E by (vm_compute; reflexivity).
  cbn [mbind res_bind]. rewrite E, H. cbn [mbind res_bind]. vm_compute. reflexivity.
Qed.
Lemma null_patch_unreadable decode :
  decode (demo_encode demo_doc) = Ok demo_doc →
  let '(e, f', _) := run (demo_store decode) (demo_patch null_change) (Ok (demo_encode demo_doc)) [] in
  e = None ∧ ∀ id, Load demo_url demo_accept demo_catalog decode f' id = Err (ErrMsg "decode tdl_config.json").
Proof.
  intros H%demo_read. set (view := mkView (demo_values [ANull] "tor:9050") {[ "include" := false; "proxy" := true ]}).
  assert (HR : Revision demo_url demo_accept demo_catalog demo_text demo_number decode demo_hash (Ok (demo_encode demo_doc)) "filter.rules" = Ok "hash")
    by (unfold Revision, component; rewrite H; vm_compute; reflexivity).
  assert (HL : Load demo_url demo_accept demo_catalog decode (Ok (demo_encode demo_doc)) "filter.rules" = Ok (mkComponent true (demo_values [] "tor:9050")))
    by (unfold Load, component; rewrite H; vm_compute; reflexivity).
  assert (HS : Save demo_url demo_accept demo_catalog demo_text demo_number decode (Ok (demo_encode demo_doc)) "filter.rules" true view = Ok (demo_encode null_doc))
    by (unfold Save, component; rewrite H; vm_compute; reflexivity).
  assert (HV : catalog_View demo_url demo_accept demo_catalog "filter.rules" (patched demo_filter null_change (demo_values [] "tor:9050")) = Ok view)
    by (vm_compute; reflexivity).
  unfold PatchWithRevision, check_revision. rewrite run_bind. cbn [String.eqb Ascii.eqb Bool.eqb mbind prog_bind drpc Prog.call run store_answer].
  rewrite HR. cbn [run]. change (String.eqb "hash" "hash") with true. cbn [run].
  change (demo_catalog !! "filter.rules") with (Some demo_filter). cbn [mbind prog_bind drpc Prog.call run store_answer].
  rewrite HL. unfold save_view. cbn [c_Values c_Enabled]. rewrite HV. cbn [mbind prog_bind drpc Prog.call run store_answer]. rewrite HS. cbn [run].
  split; [reflexivity|]. intros id. unfold Load, component, read. cbn [mbind res_bind].
  assert (validateJSON (demo_encode null_doc) = false) as -> by (vm_compute; reflexivity). reflexivity.
Qed.

(** Two proxies with the same address and different passwords. *)
Definition demo_address (s : string) : option (string * string * string) := Some ("socks5", "tor:9050", "").
Lemma secrets_not_shown_witness :
  ∃ v1 v2, demo_values [] "a@tor:9050" ≠ demo_values [] "b@tor:9050" ∧
    catalog_View demo_url demo_accept demo_catalog "filter.rules" (demo_values [] "a@tor:9050") = Ok v1 ∧
    catalog_View demo_url demo_accept demo_catalog "filter.rules" (demo_values [] "b@tor:9050") = Ok v2 ∧
    shown demo_url demo_accept demo_catalog demo_address demo_filter None
      (Ok (mkComponent true (demo_values [] "a@tor:9050"))) (Some (Ok (mkComponent true (demo_values [] "")))) =
    shown demo_url demo_accept demo_catalog demo_address demo_filter (Some v1)
      (Ok (mkComponent true (demo_values [] "b@tor:9050"))) (Some (Ok (mkComponent true (demo_values [] "")))).
Proof.
  set (secret := λ p, mkView (demo_values [] p) {[ "include" := false; "proxy" := true ]}).
  exists (secret "a@tor:9050"), (secret "b@tor:9050"). split; [intros H; vm_compute in H; discriminate H|].
  split; [reflexivity|]. split; [reflexivity|].
  apply (secrets_not_shown demo_url demo_accept demo_catalog demo_address demo_filter None (Some (secret "a@tor:9050"))
    _ _ _ _ (secret "a@tor:9050") (secret "b@tor:9050") (secret "") (secret "")); [reflexivity..|].
  intros f [->|[->|[]%elem_of_nil]%elem_of_cons]%elem_of_cons.
  - split; [reflexivity|split; [reflexivity|split; reflexivity]].
  - split; [split; reflexivity|split; [split; reflexivity|]]. split; intros H; vm_compute in H; discriminate H.
Defined.
