(* ===== verification/Stream.v ===== *)
(** * Streams of a Telegram file (app/http/session.go, app/http/telegram_source.go)

    One request's byte range is cut into chunk requests that Telegram accepts,
    each chunk is fetched with bounded retries under a lease of its own, and
    the bytes go to a writer in order.  [client.UploadGetFile], the wait of
    [tgerr.FloodWait], the scheduler's leases and the writer answer as calls;
    which RPC errors are refreshable or time-outs is told by predicates.  The
    parallel form of the stream is in ParallelStream. *)

From Stdlib Require Import Init.Byte.
From S2P Require Import Prelude Prog.
Local Open Scope list_scope.

Abbreviation bytes := (list Byte.byte).

(** ** Chunk requests *)

Definition telegramGetFilePreciseAlignment : Z := 1024.
Definition telegramGetFileFragmentWindowSize : Z := 1024 * 1024.

Record telegramChunkRequest := mkReq { req_offset : Z; req_limit : Z }.
Record downloadChunkJob := mkJob { j_index : nat; j_req : telegramChunkRequest; j_skip : Z; j_take : Z }.
#[export] Instance telegramChunkRequest_eq : EqDecision telegramChunkRequest.
Proof. solve_decision. Defined.
#[export] Instance downloadChunkJob_eq : EqDecision downloadChunkJob.
Proof. solve_decision. Defined.

Definition alignDown (value alignment : Z) : Z :=
  if alignment <=? 0 then value else wrap64 (value - Z.rem value alignment).
Definition alignUp (value alignment : Z) : Z :=
  if alignment <=? 0 then value
  else if Z.rem value alignment =? 0 then value
  else wrap64 (wrap64 (value + alignment) - Z.rem value alignment).

(** The chunk that starts at [next], and where the following one starts. *)
Definition chunk_job (next end_ : Z) (index : nat) : downloadChunkJob * Z :=
  let W := telegramGetFileFragmentWindowSize in
  let fragmentStart := wrap64 (Z.quot next W * W) in
  let fragmentEnd := wrap64 (wrap64 (fragmentStart + W) - 1) in
  let needStart := next in
  let needEnd := Z.min end_ fragmentEnd in
  let reqOffset := alignDown needStart telegramGetFilePreciseAlignment in
  let reqEnd := alignUp (wrap64 (needEnd + 1)) telegramGetFilePreciseAlignment in
  let fragmentLimit := wrap64 (fragmentStart + W) in
  let reqEnd := if fragmentLimit <? reqEnd then fragmentLimit else reqEnd in
  (mkJob index (mkReq reqOffset (wrap64 (reqEnd - reqOffset))) (wrap64 (needStart - reqOffset)) (wrap64 (wrap64 (needEnd - needStart) + 1)),
   wrap64 (needEnd + 1)).

(** [None] when the fuel runs out. *)
Fixpoint job_loop (fuel : nat) (next end_ : Z) (index : nat) : option (list downloadChunkJob) :=
  if end_ <? next then Some [] else
  match fuel with
  | O => None
  | S fuel =>
      let '(job, next) := chunk_job next end_ index in
      jobs ← job_loop fuel next end_ (S index); Some (job :: jobs)
  end.

(** A chunk ends its window, so there are no more of them than windows the
    range meets. *)
Definition job_fuel (start end_ : Z) : nat := Z.to_nat ((end_ - start) / telegramGetFileFragmentWindowSize + 2).
Definition buildDownloadChunkJobs (start end_ : Z) : option (list downloadChunkJob) :=
  if end_ <? start then Some [] else job_loop (job_fuel start end_) start end_ 0.

Definition sliceTelegramChunk (data : bytes) (skip take_ : Z) : res goerr bytes :=
  if (skip <? 0) || (take_ <? 0) then Err (NewError "invalid telegram chunk slice")
  else
    let end_ := wrap64 (skip + take_) in
    if Z.of_nat (length data) <? end_ then Err (Sentinel "io.ErrUnexpectedEOF")
    else Ok (take (Z.to_nat (end_ - skip)) (drop (Z.to_nat skip) data)).

(** ** Retries *)

Definition Millisecond : Z := 1000000.
Definition telegramChunkMaxRetries : nat := 4.
Definition telegramChunkRetryBaseDelay : Z := 250 * Millisecond.
Definition telegramChunkRetryMaxDelay : Z := 2000 * Millisecond.

Definition nextChunkBackoff (current : Z) : Z :=
  let next := wrap64 (current * 2) in
  if telegramChunkRetryMaxDelay <? next then telegramChunkRetryMaxDelay else next.

(** The media a source serves: the pointer's identity, which tells whether it
    was replaced, its data centre and its location. *)
Record media := mkMedia { m_ptr : positive; m_DC : Z; m_InputFileLoc : string }.
#[export] Instance media_eq : EqDecision media.
Proof. solve_decision. Defined.

Record upload_request := mkUpload { u_loc : string; u_offset : Z; u_limit : Z }.

(** What [UploadGetFile] returns besides its error. *)
Inductive upload_response :=
  | UploadFile (file : bytes)
  | OtherResponse (type : string).

Inductive call :=
  | SourceMedia
  | SourceRefreshFunc
  | PoolClient (dc : Z)
  | AcquireChunk
  | UploadGetFile (dc : Z) (req : upload_request)
  | ReleaseChunk
  | CtxErr
  | FloodWait (e : option goerr)
  | SleepTimer (d : Z)
  | RefreshLock
  | RunRefresh
  | SetMedia (m : option media)
  | RefreshUnlock
  | RecordFileError
  | RecordBytes (n : nat)
  | ReportFileError (e : goerr)
  | Write (data : bytes)
  | FlushError
  | Flush.

Definition ans (c : call) : Type :=
  match c with
  | SourceMedia => option media
  | SourceRefreshFunc => bool
  | AcquireChunk | CtxErr | SleepTimer _ | FlushError => option goerr
  | UploadGetFile _ _ => upload_response * option goerr
  | FloodWait _ => bool * option goerr
  | RunRefresh => res goerr (option media)
  | Write _ => Z * option goerr
  | PoolClient _ | ReleaseChunk | RefreshLock | SetMedia _ | RefreshUnlock | RecordFileError | RecordBytes _ | ReportFileError _ | Flush => unit
  end.
Abbreviation pgm := (prog call ans).
Definition do (c : call) : pgm (ans c) := Prog.call c.

Definition sleepWithContext (d : Z) : pgm (option goerr) :=
  if d <=? 0 then do CtxErr else do (SleepTimer d).

(** How the interfaces of a writer flush it. *)
Inductive flusher := ErrorFlusher | PlainFlusher | NoFlusher.
Definition flushWriter (f : flusher) : pgm (option goerr) :=
  match f with
  | ErrorFlusher => do FlushError
  | PlainFlusher => _ ← do Flush; Ret None
  | NoFlusher => Ret None
  end.

(** [writeFull]: how many bytes the writer took, and its error.  Every write
    takes a byte or ends the loop, so as many turns as bytes are enough; the
    last argument of the result says that they were. *)
Fixpoint write_loop (fuel : nat) (data : bytes) (written : Z) : pgm (Z * option goerr * bool) :=
  if decide (Z.of_nat (length data) <= written) then Ret (written, None, true) else
  match fuel with
  | O => Ret (written, None, false)
  | S fuel =>
      r ← do (Write (drop (Z.to_nat written) data));
      let written := written + fst r in
      match snd r with
      | Some e => Ret (written, Some e, true)
      | None => if fst r =? 0 then Ret (written, Some (Sentinel "io.ErrShortWrite"), true)
                else write_loop fuel data written
      end
  end.
Definition writeFull (data : bytes) : pgm (Z * option goerr * bool) := write_loop (length data) data 0.

Section source.
(** [tgerr.Is(err, tg.ErrTimeout)], [net.Error.Timeout] through [errors.As],
    and the error types [isRefreshableFileReferenceError] looks for: they read
    the RPC error of [gotd/td] and of the network. *)
Context (is_timeout net_timeout refreshable : goerr → bool).

Definition isTransientChunkError (e : goerr) : bool :=
  errors_Is e DeadlineExceeded || errors_Is e Canceled
  || errors_Is e "io.ErrUnexpectedEOF" || errors_Is e "io.EOF" || net_timeout e.

(** What an attempt does next: another attempt, or the function's result. *)
Inductive attempt_end :=
  | Again (retries : nat) (backoff : Z)
  | Done (r : res goerr bytes).

(** [retryTransient], then [failed] when no retry is left. *)
Definition retryTransient (retries : nat) (backoff : Z) (failed : goerr) : pgm attempt_end :=
  if (telegramChunkMaxRetries <=? retries)%nat then Ret (Done (Err failed)) else
  e ← sleepWithContext backoff;
  match e with
  | Some e => Ret (Done (Err e))
  | None => Ret (Again (S retries) (nextChunkBackoff backoff))
  end.

(** One turn of the loop of [fetchTelegramMediaChunk]. *)
Definition fetch_attempt (m : media) (req : telegramChunkRequest) (retries : nat) (backoff : Z) : pgm attempt_end :=
  lease ← do AcquireChunk;
  match lease with
  | Some e => Ret (Done (Err e))
  | None =>
      resp ← do (UploadGetFile (m_DC m) (mkUpload (m_InputFileLoc m) (req_offset req) (req_limit req)));
      _ ← do ReleaseChunk;
      ctx ← do CtxErr;
      match ctx with
      | Some e => Ret (Done (Err e))
      | None =>
          flood ← do (FloodWait (snd resp));
          match snd flood with
          | Some waitErr =>
              if fst flood || is_timeout waitErr then Ret (Again retries backoff)
              else if isTransientChunkError waitErr
              then retryTransient retries backoff (Wrapped "get telegram file chunk" waitErr)
              else Ret (Done (Err (Wrapped "get telegram file chunk" waitErr)))
          | None =>
              match fst resp with
              | OtherResponse t => Ret (Done (Err (NewError ("unexpected telegram file response " +:+ t))))
              | UploadFile [] => retryTransient retries backoff (Sentinel "io.ErrUnexpectedEOF")
              | UploadFile data => _ ← do (RecordBytes (length data)); Ret (Done (Ok data))
              end
          end
      end
  end.

(** [None]: no more turns. *)
Fixpoint fetch_loop (fuel : nat) (m : media) (req : telegramChunkRequest) (retries : nat) (backoff : Z) : pgm (option (res goerr bytes)) :=
  match fuel with
  | O => Ret None
  | S fuel =>
      a ← fetch_attempt m req retries backoff;
      match a with
      | Done r => Ret (Some r)
      | Again retries backoff => fetch_loop fuel m req retries backoff
      end
  end.
Definition fetchTelegramMediaChunk (fuel : nat) (m : media) (req : telegramChunkRequest) : pgm (option (res goerr bytes)) :=
  fetch_loop fuel m req 0 telegramChunkRetryBaseDelay.

Definition reportTelegramFileError (reporter : bool) (e : goerr) : pgm unit :=
  if errors_Is e Canceled || errors_Is e DeadlineExceeded then Ret tt else
  _ ← do RecordFileError;
  if reporter then do (ReportFileError e) else Ret tt.

(** [refreshMedia]: one refresh for all who saw the same media. *)
Definition refreshMedia (current : media) : pgm (option goerr) :=
  _ ← do RefreshLock;
  latest ← do SourceMedia;
  if decide ((m_ptr <$> latest) ≠ Some (m_ptr current)) then _ ← do RefreshUnlock; Ret None else
  f ← do SourceRefreshFunc;
  if negb f then _ ← do RefreshUnlock; Ret (Some (NewError "telegram media refresh is unavailable")) else
  next ← do RunRefresh;
  match next with
  | Err e => _ ← do RefreshUnlock; Ret (Some e)
  | Ok next => _ ← do (SetMedia next); _ ← do RefreshUnlock; Ret None
  end.

(** [FetchChunk]; [fuel] bounds the refreshes, [afuel] the attempts of each. *)
Fixpoint FetchChunk (fuel afuel : nat) (reporter : bool) (req : telegramChunkRequest) : pgm (option (res goerr bytes)) :=
  match fuel with
  | O => Ret None
  | S fuel =>
      m ← do SourceMedia;
      match m with
      | None => Ret (Some (Err (NewError "telegram media is unavailable")))
      | Some m =>
          _ ← do (PoolClient (m_DC m));
          r ← fetchTelegramMediaChunk afuel m req;
          match r with
          | None => Ret None
          | Some (Ok data) => Ret (Some (Ok data))
          | Some (Err e) =>
              refresh ← do SourceRefreshFunc;
              if negb (refreshable e) || negb refresh
              then _ ← reportTelegramFileError reporter e; Ret (Some (Err e))
              else
                e' ← refreshMedia m;
                match e' with
                | Some e' => Ret (Some (Err e'))
                | None => FetchChunk fuel afuel reporter req
                end
          end
      end
  end.

(** The loop over the jobs of [streamTelegramMedia]. *)
Fixpoint stream_jobs (fuel afuel : nat) (reporter : bool) (f : flusher) (jobs : list downloadChunkJob) : pgm (option (res goerr unit)) :=
  match jobs with
  | [] => Ret (Some (Ok tt))
  | job :: jobs =>
      raw ← FetchChunk fuel afuel reporter (j_req job);
      match raw with
      | None => Ret None
      | Some (Err e) => Ret (Some (Err e))
      | Some (Ok raw) =>
          match sliceTelegramChunk raw (j_skip job) (j_take job) with
          | Err e => Ret (Some (Err (Wrapped "slice telegram file chunk" e)))
          | Ok data =>
              w ← writeFull data;
              let '(n, e, enough) := w in
              if negb enough then Ret None else
              e ← match e with Some e => Ret (Some e) | None => flushWriter f end;
              match e with
              | Some e => Ret (Some (Err (Wrapped "write http response" e)))
              | None => stream_jobs fuel afuel reporter f jobs
              end
          end
      end
  end.

Definition streamTelegramMedia (fuel afuel : nat) (reporter : bool) (f : flusher) (start end_ : Z) : pgm (option (res goerr unit)) :=
  if end_ <? start then Ret (Some (Err (NewError "invalid byte range")))
  else match buildDownloadChunkJobs start end_ with
       | None => Ret None
       | Some jobs => stream_jobs fuel afuel reporter f jobs
       end.
End source.
