(* ===== verification/StreamProps.v ===== *)
(** * What the streams of Telegram files guarantee

    Lemmas and theorems about Stream: the chunk requests tile the range and
    satisfy Telegram's alignment rules, an RPC runs under a lease of its own,
    retries end, and the writer receives the range and nothing else. *)

From Stdlib Require Import Init.Byte.
From S2P Require Import Prelude Prog Stream.
Local Open Scope list_scope.

(** ** The chunk requests *)

Local Abbreviation W := telegramGetFileFragmentWindowSize.

Lemma alignDown_spec v : 0 <= v <= max_int64 → alignDown v telegramGetFilePreciseAlignment = v - v `mod` 1024.
Proof.
  intros Hv. unfold alignDown, telegramGetFilePreciseAlignment. cbn.
  rewrite Z.rem_mod_nonneg by lia. pose proof (Z.mod_pos_bound v 1024 eq_refl). pose proof (Z.mod_le v 1024 ltac:(lia) eq_refl).
  rewrite wrap64_id; [done|]. unfold min_int64. lia.
Qed.

(** The least multiple of 1024 that is not below. *)
Lemma alignUp_spec v :
  0 <= v → v + 1024 <= max_int64 →
  let u := alignUp v telegramGetFilePreciseAlignment in v <= u < v + 1024 ∧ u `mod` 1024 = 0.
Proof.
  intros Hv Hm. unfold alignUp, telegramGetFilePreciseAlignment. cbn.
  rewrite Z.rem_mod_nonneg by lia. pose proof (Z.mod_pos_bound v 1024 eq_refl).
  destruct (Z.eqb_spec (v `mod` 1024) 0) as [E|E]; [lia|].
  rewrite (wrap64_id (v + 1024)), wrap64_id by (unfold min_int64; lia). split; [lia|].
  rewrite (Z.div_mod v 1024) at 1 by lia.
  replace (1024 * (v / 1024) + v `mod` 1024 + 1024 - v `mod` 1024) with ((v / 1024 + 1) * 1024) by lia.
  by apply Z.mod_mul.
Qed.

(** One request as Telegram wants it, with the wanted bytes inside. *)
Record good_job (job : downloadChunkJob) : Prop := {
  gj_offset : 0 <= req_offset (j_req job) ∧ req_offset (j_req job) `mod` 1024 = 0;
  gj_limit : 0 < req_limit (j_req job) <= W ∧ req_limit (j_req job) `mod` 1024 = 0;
  gj_window : req_offset (j_req job) / W = (req_offset (j_req job) + req_limit (j_req job) - 1) / W;
  gj_skip : 0 <= j_skip job < 1024;
  gj_take : 0 < j_take job ∧ j_skip job + j_take job <= req_limit (j_req job);
}.

(** The jobs, numbered from [i], cover the bytes from [start] to before
    [stop] one after the other. *)
Fixpoint tiles (i : nat) (start stop : Z) (jobs : list downloadChunkJob) : Prop :=
  match jobs with
  | [] => start = stop
  | job :: jobs =>
      j_index job = i ∧ req_offset (j_req job) + j_skip job = start
      ∧ tiles (S i) (start + j_take job) stop jobs
  end.

Lemma window_mod q : (q * W) `mod` 1024 = 0.
Proof. unfold W. replace (q * (1024 * 1024)) with (q * 1024 * 1024) by lia. by apply Z.mod_mul. Qed.

Lemma chunk_job_spec next end_ i :
  0 <= next <= end_ → end_ + W <= max_int64 →
  let '(job, next') := chunk_job next end_ i in
  good_job job ∧ j_index job = i ∧ req_offset (j_req job) + j_skip job = next ∧ next + j_take job = next'
  ∧ next' = Z.min end_ (next / W * W + W - 1) + 1.
Proof.
  intros Hn He. unfold chunk_job. rewrite Z.quot_div_nonneg by (unfold W; lia).
  pose proof (Z.div_mod next W ltac:(done)) as Hd. pose proof (Z.mod_pos_bound next W ltac:(done)) as Hm.
  pose proof (Z.div_pos next W ltac:(lia) ltac:(done)) as Hq. set (q := next / W) in *. set (r := next `mod` W) in *.
  assert (HW : W = 1048576) by done.
  rewrite (wrap64_id (q * W)) by (unfold min_int64; lia).
  rewrite (wrap64_id (q * W + W)) by (unfold min_int64; lia).
  rewrite (wrap64_id (q * W + W - 1)) by (unfold min_int64; lia).
  set (ne := Z.min end_ (q * W + W - 1)). assert (Hne : next <= ne <= end_) by lia.
  rewrite (wrap64_id (ne + 1)) by (unfold min_int64; lia).
  rewrite alignDown_spec by lia. pose proof (Z.mod_pos_bound next 1024 eq_refl) as Hm'.
  destruct (alignUp_spec (ne + 1)) as [Hu Hu0]; [lia..|]. set (u := alignUp (ne + 1) _) in *.
  assert (Ho : q * W <= next - next `mod` 1024).
  { rewrite (Z.div_mod next 1024) at 1 by lia. unfold W in *.
    pose proof (Z.div_le_mono (q * (1024 * 1024)) next 1024 eq_refl ltac:(lia)) as HH.
    replace (q * (1024 * 1024)) with (q * 1024 * 1024) in HH by lia. rewrite Z.div_mul in HH by done. lia. }
  assert (Hlim : ∃ re, (if q * W + W <? u then q * W + W else u) = re ∧ ne + 1 <= re <= q * W + W ∧ re `mod` 1024 = 0).
  { destruct (Z.ltb_spec (q * W + W) u); eexists; (split; [reflexivity|]); split; try lia.
    replace (q * W + W) with ((q + 1) * W) by lia. apply window_mod. }
  destruct Hlim as (re & -> & Hre & Hre0).
  assert (Hom : (next - next `mod` 1024) `mod` 1024 = 0) by (by rewrite Zminus_mod_idemp_r, Z.sub_diag).
  set (o := next - next `mod` 1024) in *.
  rewrite (wrap64_id (re - o)), (wrap64_id (next - o)), (wrap64_id (ne - next)), wrap64_id by (unfold min_int64, o; lia).
  split_and!; cbn; [|done|unfold o; lia..]. constructor; cbn.
  - split; [lia|done].
  - split; [unfold o; lia|]. rewrite Zminus_mod, Hre0, Hom. done.
  - replace (o + (re - o) - 1) with (re - 1) by lia.
    rewrite <- (Z.div_unique o W q (o - q * W)) by (unfold o; lia).
    rewrite <- (Z.div_unique (re - 1) W q (re - 1 - q * W)) by lia. done.
  - unfold o. lia.
  - unfold o. lia.
Qed.

Lemma job_loop_spec fuel next end_ i :
  0 <= next <= end_ + 1 → end_ + W <= max_int64 → (end_ - next < 0 ∨ (end_ / W - next / W + 1 <= Z.of_nat fuel)) →
  ∃ jobs, job_loop fuel next end_ i = Some jobs ∧ Forall good_job jobs ∧ tiles i next (end_ + 1) jobs.
Proof.
  revert next i. induction fuel as [|fuel IH]; intros next i Hn He Hf; cbn [job_loop].
  - destruct (Z.ltb_spec end_ next); [|].
    + exists []. split; [done|]. split; [constructor|cbn; lia].
    + exfalso. pose proof (Z.div_le_mono next end_ W ltac:(done) ltac:(lia)). lia.
  - destruct (Z.ltb_spec end_ next).
    { exists []. split; [done|]. split; [constructor|cbn; lia]. }
    pose proof (chunk_job_spec next end_ i ltac:(lia) He) as Hj. destruct (chunk_job next end_ i) as [job next'].
    destruct Hj as (Hg & Hi & Ho & Ht & Hn'). assert (HW : W = 1048576) by done.
    pose proof (Z.div_mod next W ltac:(done)) as Hd. pose proof (Z.mod_pos_bound next W ltac:(done)) as Hm.
    destruct (IH next' (S i)) as (jobs & -> & Hgs & Hts); [lia..| |].
    { destruct (Z.le_gt_cases end_ (next / W * W + W - 1)) as [Hle|Hgt]; [left; lia|right].
      rewrite Z.min_r in Hn' by lia. replace next' with ((next / W + 1) * W) by lia. rewrite Z.div_mul by done. lia. }
    exists (job :: jobs). split; [done|]. split; [by constructor|]. cbn. split_and!; [done|done|]. by rewrite Ht.
Qed.

(** The files' sizes are far below the last 2^20 bytes of [int64]. *)
Definition stream_range (start end_ : Z) : Prop := 0 <= start ∧ end_ + W <= max_int64.

Lemma jobs_spec start end_ :
  stream_range start end_ → start <= end_ →
  ∃ jobs, buildDownloadChunkJobs start end_ = Some jobs ∧ Forall good_job jobs ∧ tiles 0 start (end_ + 1) jobs.
Proof.
  intros [Hs He] Hle. unfold buildDownloadChunkJobs. rewrite (proj2 (Z.ltb_ge _ _)) by lia.
  apply job_loop_spec; [lia|done|right]. unfold job_fuel.
  pose proof (Z.div_pos (end_ - start) W ltac:(lia) ltac:(done)) as H0.
  rewrite Z2Nat.id by lia. assert (HW : W = 1048576) by done.
  pose proof (Z.div_mod (end_ - start) W ltac:(done)). pose proof (Z.mod_pos_bound (end_ - start) W ltac:(done)).
  pose proof (Z.div_mod end_ W ltac:(done)). pose proof (Z.mod_pos_bound end_ W ltac:(done)).
  pose proof (Z.div_mod start W ltac:(done)). pose proof (Z.mod_pos_bound start W ltac:(done)). lia.
Qed.

(** ** The bytes a run writes *)

Abbreviation slog := (list (event call ans)).

Definition written_by (ev : event call ans) : bytes :=
  match ev with
  | Ev c x => match c return ans c → bytes with
              | Write d => λ r, take (Z.to_nat (fst r)) d
              | _ => λ _, []
              end x
  end.
Definition written (t : slog) : bytes := concat (map written_by t).
Lemma written_app t t' : written (t ++ t') = written t ++ written t'.
Proof. unfold written. by rewrite map_app, concat_app. Qed.

Section honest.
Context (file : bytes).

(** Telegram answers a request with the file's bytes at its offset, as many
    as it likes; a writer takes no more than it is given. *)
Definition honest (ev : event call ans) : Prop :=
  match ev with
  | Ev c x => match c return ans c → Prop with
              | UploadGetFile _ req => λ r, match fst r with UploadFile b => b `prefix_of` drop (Z.to_nat (u_offset req)) file | _ => True end
              | Write d => λ r, 0 <= fst r <= Z.of_nat (length d)
              | _ => λ _, True
              end x
  end.

(** [n] bytes of the file from [start]. *)
Definition file_slice (start n : Z) : bytes := take (Z.to_nat n) (drop (Z.to_nat start) file).

(** A program that writes nothing, and what its result means. *)
Definition quiet {A} (p : pgm A) (Q : A → Prop) : Prop :=
  wp (λ t, written t = []) p [] (λ t a, written t = [] ∧ (Forall honest t → Q a)).

Lemma stream_quiet_ret {A} (a : A) (Q : A → Prop) : Q a → quiet (Ret a) Q.
Proof. done. Qed.

Lemma quiet_call {A} c (k : ans c → pgm A) Q :
  (∀ x, written_by (Ev (E:=call) (ans:=ans) c x) = []) →
  (∀ x, quiet (k x) (λ a, honest (Ev (E:=call) (ans:=ans) c x) → Q a)) → quiet (Call c k) Q.
Proof.
  intros Hc Hk x. cbn [app]. assert (Hx : written [Ev (E:=call) (ans:=ans) c x] = []) by (unfold written; cbn [map concat]; by rewrite Hc).
  split; [done|]. apply wp_shift. eapply wp_mono; [| |apply (Hk x)].
  - intros t Ht. by rewrite written_app, Hx, Ht.
  - intros t a [Ht Hq]. split; [by rewrite written_app, Hx, Ht|]. intros Hh. apply Forall_cons in Hh as [H1 H2]. by apply Hq.
Qed.

Lemma quiet_bind {A B} (p : pgm A) (k : A → pgm B) Q1 Q :
  quiet p Q1 → (∀ a, quiet (k a) (λ b, Q1 a → Q b)) → quiet (p ≫= k) Q.
Proof.
  intros Hp Hk. eapply wp_seq; [exact Hp|done|]. intros t a [Ht Hq]. eapply wp_mono; [| |apply Hk].
  - intros t' Ht'. by rewrite written_app, Ht, Ht'.
  - intros t' b [Ht' Hb]. split; [by rewrite written_app, Ht, Ht'|]. intros [H1 H2]%Forall_app. auto.
Qed.

Lemma quiet_mono {A} (p : pgm A) (Q R : A → Prop) : (∀ a, Q a → R a) → quiet p Q → quiet p R.
Proof. intros H. apply wp_post. intros t a [Ht Hq]. auto. Qed.
End honest.

Ltac quiet_step :=
  match goal with
  | |- quiet _ (Ret _) _ => apply stream_quiet_ret
  | |- quiet _ (Call _ _) _ => apply quiet_call; [done|intros ?]
  | |- quiet _ (match ?x with _ => _ end) _ => destruct x
  end; cbn [mbind prog_bind do Prog.call].
(** A lemma whose conclusion is wanted under more hypotheses. *)
Tactic Notation "quiet_weaken" uconstr(lem) :=
  eapply quiet_mono; [|apply lem]; let H := fresh in intros ? H; repeat intros ?; exact H.
Ltac quiet_tac := cbn [mbind prog_bind do Prog.call]; repeat quiet_step.

Section fetched.
Context (is_timeout net_timeout refreshable : goerr → bool) (file : bytes).

Definition fetched (req : telegramChunkRequest) (r : res goerr bytes) : Prop :=
  match r with Ok d => d `prefix_of` drop (Z.to_nat (req_offset req)) file | Err _ => True end.
Definition fetched_opt req (r : option (res goerr bytes)) : Prop := from_option (fetched req) True r.
Definition fetched_end req (a : attempt_end) : Prop := match a with Done r => fetched req r | Again _ _ => True end.

Lemma quiet_sleep d : quiet file (sleepWithContext d) (λ _, True).
Proof. unfold sleepWithContext. by quiet_tac. Qed.

Lemma quiet_retry req n b e : quiet file (retryTransient n b e) (fetched_end req).
Proof.
  unfold retryTransient. destruct (_ <=? n)%nat; [by apply stream_quiet_ret|].
  eapply quiet_bind; [apply quiet_sleep|]. intros [e'|]; by quiet_tac.
Qed.

Lemma quiet_attempt m req n b : quiet file (fetch_attempt is_timeout net_timeout m req n b) (fetched_end req).
Proof.
  unfold fetch_attempt. cbn [mbind prog_bind do Prog.call].
  apply quiet_call; [done|]. intros [e|]; [by apply stream_quiet_ret|]. cbn [mbind prog_bind].
  apply quiet_call; [done|]. intros [resp e]. cbn [mbind prog_bind].
  apply quiet_call; [done|]. intros ?. cbn [mbind prog_bind].
  apply quiet_call; [done|]. intros [ce|]; [by apply stream_quiet_ret|]. cbn [mbind prog_bind fst snd].
  apply quiet_call; [done|]. intros [flood [we|]]; cbn [fst snd].
  - destruct (flood || is_timeout we); [by apply stream_quiet_ret|].
    destruct (isTransientChunkError _ _); [|by apply stream_quiet_ret].
    quiet_weaken quiet_retry.
  - destruct resp as [[|b0 d]|ty]; [|quiet_tac|by apply stream_quiet_ret].
    + quiet_weaken quiet_retry.
    + cbn. auto.
Qed.

Lemma quiet_loop fuel m req n b : quiet file (fetch_loop is_timeout net_timeout fuel m req n b) (fetched_opt req).
Proof.
  revert n b. induction fuel as [|fuel IH]; intros n b; cbn [fetch_loop]; [by apply stream_quiet_ret|].
  eapply quiet_bind; [apply quiet_attempt|]. intros [n' b'|r].
  - quiet_weaken IH.
  - by apply stream_quiet_ret.
Qed.

Lemma quiet_report rep e : quiet file (reportTelegramFileError rep e) (λ _, True).
Proof. unfold reportTelegramFileError. by quiet_tac. Qed.
Lemma quiet_refresh m : quiet file (refreshMedia m) (λ _, True).
Proof. unfold refreshMedia. by quiet_tac. Qed.

Lemma quiet_fetch fuel afuel rep req :
  quiet file (FetchChunk is_timeout net_timeout refreshable fuel afuel rep req) (fetched_opt req).
Proof.
  induction fuel as [|fuel IH]; cbn [FetchChunk]; [by apply stream_quiet_ret|]. cbn [mbind prog_bind do Prog.call].
  apply quiet_call; [done|]. intros [m|]; [|by apply stream_quiet_ret]. cbn [mbind prog_bind].
  apply quiet_call; [done|]. intros ?. eapply quiet_bind; [eapply quiet_loop|].
  intros [[d|e]|]; [apply stream_quiet_ret; cbn; auto| |by apply stream_quiet_ret].
  cbn [mbind prog_bind]. apply quiet_call; [done|]. intros refresh. destruct (_ || _).
  - eapply quiet_bind; [apply quiet_report|]. intros ?. by apply stream_quiet_ret.
  - eapply quiet_bind; [apply quiet_refresh|]. intros [e'|]; [by apply stream_quiet_ret|].
    quiet_weaken IH.
Qed.
End fetched.

(** ** Writing *)

Section writing.
Context (file : bytes).

Definition took (data : bytes) (w : Z) (r : Z * option goerr * bool) (t : slog) : Prop :=
  let '(n, e, enough) := r in
  w <= n <= Z.of_nat (length data) ∧ written t = take (Z.to_nat (n - w)) (drop (Z.to_nat w) data)
  ∧ enough = true ∧ (e = None → n = Z.of_nat (length data)).

Lemma write_loop_spec fuel data w :
  0 <= w <= Z.of_nat (length data) → Z.of_nat (length data) - w <= Z.of_nat fuel →
  wp (λ t, Forall (honest file) t → written t `prefix_of` drop (Z.to_nat w) data) (write_loop fuel data w) []
     (λ t r, Forall (honest file) t → took data w r t).
Proof.
  revert w. induction fuel as [|fuel IH]; intros w Hw Hf; cbn [write_loop].
  - rewrite decide_True by lia. intros _. cbn. rewrite Z.sub_diag. cbn. split_and!; [lia..|done|done|lia].
  - case_decide as Hd; [intros _; cbn; rewrite Z.sub_diag; cbn; split_and!; [lia..|done|done|lia]|].
    cbn [mbind prog_bind do Prog.call]. intros [n e]. cbn [app fst snd].
    set (rest := drop (Z.to_nat w) data). assert (Hr : Z.of_nat (length rest) = Z.of_nat (length data) - w) by (unfold rest; rewrite length_drop; lia).
    assert (H1 : written [Ev (Write rest) (n, e) : event call ans] = take (Z.to_nat n) rest) by (cbn; by rewrite app_nil_r).
    split; [rewrite H1; intros _; by apply prefix_take|]. apply wp_shift.
    destruct e as [e|]; [|destruct (Z.eqb_spec n 0) as [->|Hn0]].
    + intros Hh. apply Forall_app in Hh as [Hh _]. apply Forall_cons in Hh as [Hn _]. cbn in Hn.
      unfold took. rewrite app_nil_r, H1. split_and!; [lia..| |done|done]. by replace (w + n - w) with n by lia.
    + intros Hh. unfold took. rewrite app_nil_r, H1. rewrite Z.add_0_r, Z.sub_diag. split_and!; [lia..|done|done|done].
    + destruct (decide (0 <= n <= Z.of_nat (length rest))) as [Hn|Hn].
      * eapply wp_mono; [| |apply (IH (w + n)); lia].
        -- intros t Ht [_ Hh]%Forall_app. specialize (Ht Hh). rewrite written_app, H1.
           rewrite <- (take_drop (Z.to_nat n) rest) at 2. apply prefix_app. unfold rest. rewrite drop_drop.
           by replace (Z.to_nat w + Z.to_nat n)%nat with (Z.to_nat (w + n)) by lia.
        -- intros t [[n' e'] en] Ht [_ Hh]%Forall_app. destruct (Ht Hh) as (Hb & Hwr & Hen & He). unfold took.
           split_and!; [lia..| |done|done]. rewrite written_app, H1, Hwr.
           replace (drop (Z.to_nat (w + n)) data) with (drop (Z.to_nat n) rest) by (unfold rest; rewrite drop_drop; f_equal; lia).
           rewrite take_take_drop. f_equal. lia.
      * eapply wp_mono; [| |apply wp_true].
        -- intros t _ [Hh _]%Forall_app. apply Forall_cons in Hh as [Hh _]. contradiction.
        -- intros t a _ [Hh _]%Forall_app. apply Forall_cons in Hh as [Hh _]. contradiction.
Qed.

Lemma sliceTelegramChunk_spec raw skip tk off d :
  0 <= skip < 1024 → 0 < tk → skip + tk <= 2^30 → 0 <= off →
  raw `prefix_of` drop (Z.to_nat off) file → sliceTelegramChunk raw skip tk = Ok d →
  d = file_slice file (off + skip) tk ∧ Z.of_nat (length d) = tk.
Proof.
  intros Hs Ht Hst Ho [r Hr] Hd. unfold sliceTelegramChunk in Hd.
  rewrite (proj2 (Z.ltb_ge _ _)), (proj2 (Z.ltb_ge _ _)) in Hd by lia. cbn in Hd.
  rewrite wrap64_id in Hd by (unfold min_int64, max_int64; lia).
  destruct (Z.ltb_spec (Z.of_nat (length raw)) (skip + tk)) as [|Hl]; [discriminate|].
  replace (skip + tk - skip) with tk in Hd by lia. injection Hd as <-. split.
  - unfold file_slice. replace (Z.to_nat (off + skip)) with (Z.to_nat off + Z.to_nat skip)%nat by lia.
    rewrite <- drop_drop, Hr, drop_app_le by lia. rewrite take_app_le; [done|]. rewrite length_drop. lia.
  - rewrite length_take, length_drop. lia.
Qed.

Lemma file_slice_app start a b :
  0 <= start → 0 <= a → 0 <= b → file_slice file start (a + b) = file_slice file start a ++ file_slice file (start + a) b.
Proof.
  intros. unfold file_slice.
  replace (drop (Z.to_nat (start + a)) file) with (drop (Z.to_nat a) (drop (Z.to_nat start) file)) by (rewrite drop_drop; f_equal; lia).
  rewrite take_take_drop. f_equal. lia.
Qed.
End writing.

(** ** The stream *)

Section stream.
Context (is_timeout net_timeout refreshable : goerr → bool) (file : bytes).
Context (fuel afuel : nat) (reporter : bool) (fl : flusher).
Abbreviation run_jobs := (stream_jobs is_timeout net_timeout refreshable fuel afuel reporter fl).

Definition streamed (start stop : Z) (t : slog) (r : option (res goerr unit)) : Prop :=
  Forall (honest file) t → r = Some (Ok tt) →
  written t = file_slice file start (stop - start) ∧ Z.of_nat (length (written t)) = stop - start.
Definition streaming (start stop : Z) (t : slog) : Prop :=
  Forall (honest file) t → written t `prefix_of` file_slice file start (stop - start).

Lemma streaming_ahead start n stop t0 t :
  0 <= start → 0 <= n → start + n <= stop → written t0 = file_slice file start n →
  streaming (start + n) stop t → streaming start stop (t0 ++ t).
Proof.
  intros Hs Hn Hst H0 Ht [_ Hh]%Forall_app. rewrite written_app, H0.
  replace (stop - start) with (n + (stop - (start + n))) by lia. rewrite file_slice_app by lia.
  apply prefix_app, Ht, Hh.
Qed.

Lemma quiet_flush : quiet file (flushWriter fl) (λ _, True).
Proof. unfold flushWriter. destruct fl; quiet_tac; done. Qed.

Lemma chunk_tiles_le i start stop jobs : Forall good_job jobs → tiles i start stop jobs → start <= stop.
Proof.
  revert i start. induction jobs as [|j jobs IH]; intros i start Hg; cbn; [lia|].
  apply Forall_cons in Hg as [Hj Hg]. intros (_ & _ & Ht). apply IH in Ht; [|done]. destruct Hj. lia.
Qed.

Lemma streaming_prefix start n stop t :
  0 <= start → 0 <= n → start + n <= stop →
  (Forall (honest file) t → written t `prefix_of` file_slice file start n) → streaming start stop t.
Proof.
  intros Hs Hn Hst H Hh. replace (stop - start) with (n + (stop - (start + n))) by lia.
  rewrite file_slice_app by lia. apply prefix_app_r, H, Hh.
Qed.

(** The chunk's bytes are written and flushed, then [k] writes the rest. *)
Lemma stream_write_spec start n stop data (k : pgm (option (res goerr unit))) :
  0 <= start → 0 <= n → start + n <= stop → data = file_slice file start n → Z.of_nat (length data) = n →
  wp (streaming (start + n) stop) k [] (streamed (start + n) stop) →
  wp (streaming start stop)
    (w ← writeFull data;
     let '(n, e, enough) := w in
     if negb enough then Ret None else
     e ← match e with Some e => Ret (Some e) | None => flushWriter fl end;
     match e with
     | Some e => Ret (Some (Err (Wrapped "write http response" e)))
     | None => k
     end) [] (streamed start stop).
Proof.
  intros Hs Hn Hst Hd Hl Hk. eapply wp_seq; [apply (write_loop_spec file (length data) data 0); lia| |].
  { intros t Ht. apply (streaming_prefix start n); [lia..|]. by rewrite <- Hd. }
  intros t [[m e] enough] Ht.
  eapply wp_mono; [| |apply (wp_impl (Forall (honest file) t) (λ t', streaming start stop (t ++ t')) _ [] (λ t' r, streamed start stop (t ++ t') r))].
  { intros t' H Hh. apply H; [|done]. by apply Forall_app in Hh as [Hh _]. }
  { intros t' r H Hh. apply H; [|done]. by apply Forall_app in Hh as [Hh _]. }
  intros Hh. destruct (Ht Hh) as (Hm & Hwr & -> & He). cbn [negb].
  rewrite Z.sub_0_r in Hwr. change (drop (Z.to_nat 0) data) with data in Hwr.
  destruct e as [e|].
  { cbn. intros _ Hr. discriminate. }
  specialize (He eq_refl). subst m. rewrite take_ge, Hd in Hwr by lia.
  eapply wp_seq; [apply quiet_flush| |].
  { intros t' Ht' _. rewrite written_app, Hwr, Ht', app_nil_r. replace (stop - start) with (n + (stop - (start + n))) by lia.
    rewrite file_slice_app by lia. apply prefix_app_r. done. }
  intros t' [e|] [Ht' _]; [intros _ Hr; discriminate|].
  assert (Hw : written (t ++ t') = file_slice file start n) by (rewrite written_app, Hwr, Ht'; apply app_nil_r).
  eapply wp_mono; [| |exact Hk].
  - intros t'' H''. rewrite app_assoc. by apply (streaming_ahead start n).
  - intros t'' r H'' Hh'' Hr. rewrite app_assoc in Hh'' |- *. apply Forall_app in Hh'' as [_ Hh''].
    destruct (H'' Hh'' Hr) as [H1 H2]. rewrite written_app, Hw, H1, length_app.
    replace (stop - start) with (n + (stop - (start + n))) by lia. rewrite file_slice_app by lia. split; [done|].
    rewrite Nat2Z.inj_add, <- H1, H2. rewrite <- Hd, Hl. lia.
Qed.

Lemma stream_jobs_spec i start stop jobs :
  0 <= start → Forall good_job jobs → tiles i start stop jobs →
  wp (streaming start stop) (run_jobs jobs) [] (streamed start stop).
Proof.
  revert i start. induction jobs as [|job jobs IH]; intros i start Hs Hg Ht.
  { cbn in Ht. subst stop. intros _ _. rewrite Z.sub_diag. done. }
  apply Forall_cons in Hg as [Hj Hg]. destruct Ht as (_ & Ho & Ht). pose proof (chunk_tiles_le _ _ _ _ Hg Ht) as Hle.
  destruct Hj as [[Ho0 _] [Hl _] _ Hsk [Htk Hfit]]. unfold W in Hl. cbn [stream_jobs].
  eapply wp_seq; [apply (quiet_fetch is_timeout net_timeout refreshable file)| |].
  { intros t Hw _. rewrite Hw. apply prefix_nil. }
  intros t r [Hw Hr].
  eapply wp_mono; [| |apply (wp_impl (Forall (honest file) t) (λ t', streaming start stop (t ++ t')) _ [] (λ t' r, streamed start stop (t ++ t') r))].
  { intros t' H Hh. apply H; [|done]. by apply Forall_app in Hh as [Hh _]. }
  { intros t' r' H Hh. apply H; [|done]. by apply Forall_app in Hh as [Hh _]. }
  intros Hh. specialize (Hr Hh). destruct r as [[raw|e]|]; [|intros _ Hr'; discriminate..].
  destruct (sliceTelegramChunk raw (j_skip job) (j_take job)) as [data|e] eqn:Hd; [|intros _ Hr'; discriminate].
  apply (sliceTelegramChunk_spec file _ _ _ (req_offset (j_req job))) in Hd as [Hd Hlen]; [|lia..|done].
  rewrite Ho in Hd.
  eapply wp_mono; [| |apply (stream_write_spec start (j_take job) stop data (run_jobs jobs)); [lia..|done|done|by apply (IH (S i)); [lia|..]]].
  - intros t' H Hh'. rewrite written_app, Hw. apply H. by apply Forall_app in Hh' as [_ Hh'].
  - intros t' r H Hh' Hr'. rewrite written_app, Hw. apply H; [|done]. by apply Forall_app in Hh' as [_ Hh'].
Qed.
End stream.

(** ** Leases and the refresh lock *)

Inductive lstate := Free | Leased | Used | Refreshing.

(** The only calls allowed while a chunk lease is held are one RPC and the
    release; a refresh runs and is stored under the refresh lock. *)
Definition lease_step (s : lstate) (ev : event call ans) : option lstate :=
  match ev with
  | Ev c x =>
      match c return ans c → option lstate with
      | AcquireChunk => λ e, match s, e with Free, None => Some Leased | Free, Some _ => Some Free | _, _ => None end
      | UploadGetFile _ _ => λ _, match s with Leased => Some Used | _ => None end
      | ReleaseChunk => λ _, match s with Used => Some Free | _ => None end
      | RefreshLock => λ _, match s with Free => Some Refreshing | _ => None end
      | RefreshUnlock => λ _, match s with Refreshing => Some Free | _ => None end
      | RunRefresh | SetMedia _ => λ _, match s with Refreshing => Some Refreshing | _ => None end
      | SourceMedia | SourceRefreshFunc => λ _, match s with Free | Refreshing => Some s | _ => None end
      | _ => λ _, match s with Free => Some Free | _ => None end
      end x
  end.
Definition leases (s : lstate) (t : slog) : option lstate := foldl (λ o ev, s ← o; lease_step s ev) (Some s) t.

Lemma leases_app s t t' : leases s (t ++ t') = leases s t ≫= λ s, leases s t'.
Proof.
  unfold leases. rewrite foldl_app. destruct (foldl _ (Some s) t) as [s'|]; [done|]. cbn.
  induction t' as [|ev t' IH]; [done|]. cbn. exact IH.
Qed.

Definition tidy {A} (s s' : lstate) (p : pgm A) : Prop := wp (λ t, is_Some (leases s t)) p [] (λ t _, leases s t = Some s').

Lemma tidy_ret {A} (a : A) s : tidy s s (Ret a).
Proof. done. Qed.
Lemma tidy_call {A} c (k : ans c → pgm A) s s' :
  (∀ x, match lease_step s (Ev c x) with Some s1 => tidy s1 s' (k x) | None => False end) → tidy s s' (Call c k).
Proof.
  intros H x. specialize (H x). cbn [app]. destruct (lease_step s (Ev c x)) as [s1|] eqn:Hs; [|done].
  assert (H1 : leases s [Ev c x] = Some s1) by (cbn; exact Hs). split; [by exists s1|].
  apply wp_shift. eapply wp_mono; [| |exact H]; intros t; rewrite leases_app, H1; done.
Qed.
Lemma tidy_bind {A B} (p : pgm A) (k : A → pgm B) s s1 s' : tidy s s1 p → (∀ a, tidy s1 s' (k a)) → tidy s s' (p ≫= k).
Proof.
  intros Hp Hk. eapply wp_seq; [exact Hp|done|]. intros t a Ht.
  eapply wp_mono; [| |apply Hk]; intros t'; rewrite leases_app, Ht; done.
Qed.

Ltac tidy_step :=
  match goal with
  | |- tidy ?s _ (Ret _) => apply tidy_ret
  | |- tidy _ _ (Call _ _) => apply tidy_call; intros ?; cbn [lease_step]
  | |- tidy _ _ (_ ≫= _) => eapply tidy_bind
  | |- tidy _ _ (match ?x with _ => _ end) => destruct x
  | |- match match ?x with _ => _ end with _ => _ end => destruct x
  | |- match ?x with _ => _ end => destruct x
  | |- ∀ _, _ => intros ?
  end; cbn [mbind prog_bind do Prog.call].
Ltac tidy_tac := cbn [mbind prog_bind do Prog.call]; repeat tidy_step; try done.

Section leases.
Context (is_timeout net_timeout refreshable : goerr → bool) (reporter : bool) (fl : flusher).

Lemma tidy_retry n b e : tidy Free Free (retryTransient n b e).
Proof. unfold retryTransient, sleepWithContext. destruct (_ <=? n)%nat; [by tidy_tac|]. destruct (b <=? 0); tidy_tac. Qed.
Lemma tidy_attempt m req n b : tidy Free Free (fetch_attempt is_timeout net_timeout m req n b).
Proof.
  unfold fetch_attempt. tidy_tac; apply tidy_retry.
Qed.
Lemma tidy_loop fuel m req n b : tidy Free Free (fetch_loop is_timeout net_timeout fuel m req n b).
Proof.
  revert n b. induction fuel as [|fuel IH]; intros n b; cbn [fetch_loop]; [by tidy_tac|].
  eapply tidy_bind; [apply tidy_attempt|]. intros [n' b'|r]; [apply IH|by tidy_tac].
Qed.
Lemma tidy_report e : tidy Free Free (reportTelegramFileError reporter e).
Proof. unfold reportTelegramFileError. tidy_tac. Qed.
Lemma tidy_refresh m : tidy Free Free (refreshMedia m).
Proof. unfold refreshMedia. tidy_tac. Qed.
Lemma tidy_fetch fuel afuel req : tidy Free Free (FetchChunk is_timeout net_timeout refreshable fuel afuel reporter req).
Proof.
  induction fuel as [|fuel IH]; cbn [FetchChunk]; [by tidy_tac|]. cbn [mbind prog_bind do Prog.call].
  apply tidy_call. intros [m|]; cbn [lease_step]; [|by tidy_tac]. cbn [mbind prog_bind].
  apply tidy_call. intros ?. cbn [lease_step]. eapply tidy_bind; [apply tidy_loop|].
  intros [[d|e]|]; [by tidy_tac| |by tidy_tac]. cbn [mbind prog_bind].
  apply tidy_call. intros refresh. cbn [lease_step]. destruct (_ || _).
  - eapply tidy_bind; [apply tidy_report|]. intros ?. by tidy_tac.
  - eapply tidy_bind; [apply tidy_refresh|]. intros [e'|]; [by tidy_tac|apply IH].
Qed.
Lemma tidy_write fuel data w : tidy Free Free (write_loop fuel data w).
Proof. revert w. induction fuel as [|fuel IH]; intros w; cbn [write_loop]; tidy_tac; apply IH. Qed.
Lemma tidy_jobs fuel afuel jobs : tidy Free Free (stream_jobs is_timeout net_timeout refreshable fuel afuel reporter fl jobs).
Proof.
  induction jobs as [|job jobs IH]; cbn [stream_jobs]; [by tidy_tac|].
  eapply tidy_bind; [apply tidy_fetch|]. intros [[raw|e]|]; [|by tidy_tac..].
  destruct (sliceTelegramChunk _ _ _) as [data|e]; [|by tidy_tac].
  eapply tidy_bind; [apply tidy_write|]. intros [[n e] enough]. destruct (negb enough); [by tidy_tac|].
  eapply (tidy_bind _ _ _ Free); [unfold flushWriter; destruct e, fl; tidy_tac|].
  intros [e'|]; [by tidy_tac|apply IH].
Qed.
Lemma tidy_stream fuel afuel start end_ : tidy Free Free (streamTelegramMedia is_timeout net_timeout refreshable fuel afuel reporter fl start end_).
Proof.
  unfold streamTelegramMedia. destruct (end_ <? start); [by tidy_tac|].
  destruct (buildDownloadChunkJobs start end_); [apply tidy_jobs|by tidy_tac].
Qed.
End leases.

(** ** Attempts *)

Section attempts.
Context (is_timeout net_timeout refreshable : goerr → bool).

Definition tally (f : event call ans → nat) (t : slog) : nat := sum_list_with f t.
Lemma tally_app f t t' : tally f (t ++ t') = (tally f t + tally f t')%nat.
Proof. apply sum_list_with_app. Qed.

Definition is_rpc (ev : event call ans) : nat := match ev_call ev with UploadGetFile _ _ => 1 | _ => 0 end.
(** Waits Telegram imposes and its time-outs are not counted as retries. *)
Definition is_free (ev : event call ans) : nat :=
  match ev with
  | Ev c x => match c return ans c → nat with
              | FloodWait _ => λ r, match snd r with Some e => if fst r || is_timeout e then 1 else 0 | None => 0 end
              | _ => λ _, 0
              end x
  end%nat.
Definition is_refresh (ev : event call ans) : nat := match ev_call ev with RefreshUnlock => 1 | _ => 0 end.
Definition slept (ev : event call ans) : list Z := match ev_call ev with SleepTimer d => [d] | _ => [] end.
Definition sleeps (t : slog) : list Z := concat (map slept t).
Lemma sleeps_app t t' : sleeps (t ++ t') = sleeps t ++ sleeps t'.
Proof. unfold sleeps. by rewrite map_app, concat_app. Qed.

Definition backoffs : list Z := [250 * Millisecond; 500 * Millisecond; 1000 * Millisecond; 2000 * Millisecond].
Definition delay (n : nat) : Z := nth n backoffs (2000 * Millisecond).

Lemma delay_next n : (n < 4)%nat → nextChunkBackoff (delay n) = delay (S n) ∧ (delay n <=? 0) = false ∧ drop n backoffs = delay n :: drop (S n) backoffs.
Proof. intros H. do 4 (destruct n as [|n]; [by vm_compute|]). lia. Qed.

(** From [n] retries on: at most the retries left and one more RPC, besides
    the free ones, with the sleeps of the schedule in order. *)
Definition bounded_log (n : nat) (t : slog) : Prop :=
  (tally is_rpc t + n <= tally is_free t + 5)%nat ∧ sleeps t `prefix_of` drop n backoffs.
Definition attempt_post (n : nat) (t : slog) (a : attempt_end) : Prop :=
  match a with
  | Done _ => bounded_log n t
  | Again n' b =>
      b = delay n' ∧ tally is_rpc t = 1%nat
      ∧ (n' = n ∧ tally is_free t = 1%nat ∧ sleeps t = []
         ∨ n' = S n ∧ (n < 4)%nat ∧ tally is_free t = 0%nat ∧ sleeps t = [delay n])
  end.

Lemma retryTransient_spec n e t :
  (n <= 4)%nat → tally is_rpc t = 1%nat → tally is_free t = 0%nat → sleeps t = [] →
  wp (λ t', bounded_log n (t ++ t')) (retryTransient n (delay n) e) [] (λ t' a, attempt_post n (t ++ t') a).
Proof.
  intros Hn Hr Hf Hs. unfold retryTransient. destruct (Nat.leb_spec telegramChunkMaxRetries n).
  { unfold telegramChunkMaxRetries in *. cbn. unfold bounded_log. rewrite app_nil_r, Hr, Hf, Hs. split; [lia|apply prefix_nil]. }
  unfold telegramChunkMaxRetries in *. destruct (delay_next n) as (Hd & Hp & Hb); [lia|].
  unfold sleepWithContext. rewrite Hp. cbn [mbind prog_bind do Prog.call]. intros x.
  assert (Hbl : bounded_log n (t ++ [Ev (SleepTimer (delay n)) x])).
  { unfold bounded_log. rewrite !tally_app, sleeps_app, Hr, Hf, Hs, Hb. cbn. split; [lia|]. by exists (drop (S n) backoffs). }
  split; [exact Hbl|]. destruct x as [ce|]; [exact Hbl|]. cbn. split; [done|].
  rewrite !tally_app, sleeps_app, Hr, Hf, Hs. split; [done|]. right. split_and!; [done|lia|done|done].
Qed.

Lemma attempt_spec m req n :
  (n <= 4)%nat →
  wp (bounded_log n) (fetch_attempt is_timeout net_timeout m req n (delay n)) [] (attempt_post n).
Proof.
  intros Hn. unfold fetch_attempt. cbn [mbind prog_bind do Prog.call].
  assert (H1 : ∀ t, tally is_rpc t = 1%nat → sleeps t = [] → bounded_log n t).
  { intros t Hr Hs. unfold bounded_log. rewrite Hr, Hs. split; [lia|apply prefix_nil]. }
  assert (H0 : ∀ t, tally is_rpc t = 0%nat → sleeps t = [] → bounded_log n t).
  { intros t Hr Hs. unfold bounded_log. rewrite Hr, Hs. split; [lia|apply prefix_nil]. }
  intros l. split; [by apply H0|]. destruct l as [e|]; [by apply H0|]. cbn [mbind prog_bind app].
  intros [resp e]. split; [by apply H1|]. cbn [mbind prog_bind app]. intros ?. split; [by apply H1|].
  cbn [mbind prog_bind app]. intros ce. split; [by apply H1|]. destruct ce as [ce|]; [by apply H1|].
  cbn [mbind prog_bind app fst snd]. intros [flood we]. split; [by apply H1|]. cbn [mbind prog_bind app fst snd].
  destruct we as [we|].
  - destruct (flood || is_timeout we) eqn:Hfl.
    { cbn [wp attempt_post]. split_and!; [done|done|]. left. cbn. by rewrite Hfl. }
    destruct (isTransientChunkError _ _); [|by apply H1].
    apply wp_shift, retryTransient_spec; [done|done| |done]. cbn. by rewrite Hfl.
  - destruct resp as [[|b0 d]|ty]; [| |by apply H1].
    + by apply wp_shift, retryTransient_spec.
    + intros ?. split; by apply H1.
Qed.

Lemma loop_spec fuel m req n :
  (n <= 4)%nat →
  wp (bounded_log n) (fetch_loop is_timeout net_timeout fuel m req n (delay n)) []
     (λ t r, bounded_log n t ∧ (r = None → fuel + n <= tally is_free t + 4)%nat).
Proof.
  revert n. induction fuel as [|fuel IH]; intros n Hn; cbn [fetch_loop].
  { split; [|cbn; lia]. split; [cbn; lia|apply prefix_nil]. }
  eapply wp_seq; [by apply attempt_spec|done|]. intros t [n' b|r].
  - intros (-> & Hr & [(-> & Hf & Hs)|(-> & Hlt & Hf & Hs)]); (eapply wp_mono; [| |apply IH; lia]).
    1,3: intros t' [H1 H2]; unfold bounded_log; rewrite !tally_app, sleeps_app, Hr, Hf, Hs.
    3,4: intros t' r [[H1 H2] H3]; unfold bounded_log; rewrite !tally_app, sleeps_app, Hr, Hf, Hs; (split; [|intros ->; specialize (H3 eq_refl); lia]).
    1,3: split; [lia|done].
    all: split; [lia|]; destruct (delay_next n Hlt) as (_ & _ & ->); by apply (prefix_app [delay n]).
  - intros H. cbn. rewrite app_nil_r. done.
Qed.

(** A program that only ran out of turns when the log shows [afuel] free
    attempts but four, or [fuel] refreshes. *)
Definition ran_out (fuel afuel : nat) (t : slog) : Prop :=
  (afuel <= tally is_free t + 4)%nat ∨ (fuel <= tally is_refresh t)%nat.
Lemma ran_out_later fuel afuel t t' : ran_out fuel afuel t' → ran_out fuel afuel (t ++ t').
Proof. unfold ran_out. rewrite !tally_app. intros [H|H]; [left|right]; lia. Qed.

Lemma refresh_tally m : wp (λ _, True) (refreshMedia m) [] (λ t _, tally is_refresh t = 1%nat).
Proof.
  unfold refreshMedia. cbn [mbind prog_bind do Prog.call]. intros ?. split; [done|]. cbn [mbind prog_bind app].
  intros latest. split; [done|]. case_decide; cbn [mbind prog_bind app]; [intros ?; done|].
  intros [|]; (split; [done|]); cbn [mbind prog_bind app negb]; [|intros ?; done].
  intros [next|e]; (split; [done|]); cbn [mbind prog_bind app]; [|intros ?; done]. intros ?. split; [done|]. cbn. intros ?. done.
Qed.

Lemma fetch_returns fuel afuel reporter req :
  wp (λ _, True) (FetchChunk is_timeout net_timeout refreshable fuel afuel reporter req) []
     (λ t r, r = None → ran_out fuel afuel t).
Proof.
  induction fuel as [|fuel IH]; cbn [FetchChunk]; [intros _; right; lia|]. cbn [mbind prog_bind do Prog.call].
  intros m. split; [done|]. destruct m as [m|]; [|done]. cbn [mbind prog_bind app]. intros ?. split; [done|]. cbn [app].
  apply wp_shift. eapply wp_seq; [apply (loop_spec afuel m req 0); lia|done|].
  intros t r [_ Hr]. destruct r as [[d|e]|]; [done| |].
  2: { intros _. left. rewrite !tally_app. specialize (Hr eq_refl). lia. }
  cbn [mbind prog_bind do Prog.call]. intros refresh. split; [done|]. apply wp_shift. destruct (_ || _).
  { eapply wp_seq; [apply (wp_true (reportTelegramFileError reporter e))|done|]. done. }
  eapply wp_seq; [apply refresh_tally|done|]. intros t' [e'|] Ht'; [done|].
  eapply wp_post; [|exact IH]. intros t'' r'' H Hn. specialize (H Hn). unfold ran_out in *. rewrite !tally_app.
  destruct H; [left|right]; lia.
Qed.
End attempts.

Lemma jobs_return is_timeout net_timeout refreshable file fuel afuel reporter fl jobs :
  wp (λ _, True) (stream_jobs is_timeout net_timeout refreshable fuel afuel reporter fl jobs) []
     (λ t r, Forall (honest file) t → r = None → ran_out is_timeout fuel afuel t).
Proof.
  induction jobs as [|job jobs IH]; cbn [stream_jobs]; [done|].
  eapply wp_seq; [apply fetch_returns|done|]. intros t [[raw|e]|] Hr; [|done|].
  2: { intros _ _. rewrite app_nil_r. by apply Hr. }
  destruct (sliceTelegramChunk _ _ _) as [data|e]; [|done].
  eapply wp_seq; [apply (write_loop_spec file (length data) data 0); lia|done|]. intros t' [[n e] enough] Hw.
  destruct enough; cbn [negb].
  2: { intros Hh. apply Forall_app in Hh as [_ Hh]. rewrite app_nil_r in Hh. destruct (Hw Hh) as (_ & _ & ? & _). discriminate. }
  eapply wp_seq; [apply (wp_true _ [])|done|]. intros t'' [e'|] _; [done|].
  eapply wp_post; [|exact IH]. intros t3 r H Hh Hn. rewrite !app_assoc in *. apply Forall_app in Hh as [_ Hh].
  by apply ran_out_later, H.
Qed.

(** C4: streaming bytes [start] to [end_] of a file: whatever Telegram, the
    scheduler, the refreshes and the writer answer, every RPC runs under a chunk
    lease of its own that is released before anything else happens and a
    refresh runs under its lock; when Telegram's answers are of the file and
    the writer keeps its contract, what was written is at every moment a
    prefix of exactly those bytes, all of them when the stream reports
    success; and it returns, unless Telegram's waits or the refreshes
    outlast the turns given to it. *)
Theorem stream_exact is_timeout net_timeout refreshable fuel afuel reporter fl file start end_ t q :
  stream_range start end_ → start <= end_ →
  reaches (streamTelegramMedia is_timeout net_timeout refreshable fuel afuel reporter fl start end_) t q →
  is_Some (leases Free t)
  ∧ (Forall (honest file) t → written t `prefix_of` file_slice file start (end_ + 1 - start))
  ∧ ∀ r, q = Ret r →
      leases Free t = Some Free
      ∧ (Forall (honest file) t →
         (r = Some (Ok tt) → written t = file_slice file start (end_ + 1 - start) ∧ Z.of_nat (length (written t)) = end_ + 1 - start)
         ∧ (r = None → ran_out is_timeout fuel afuel t)).
Proof.
  intros Hr Hle Hq. destruct (jobs_spec start end_ Hr Hle) as (jobs & Hj & Hg & Ht).
  assert (Hf : is_Some (leases Free [])) by (by exists Free).
  destruct (wp_run_reaches _ _ _ _ _ Hf (tidy_stream is_timeout net_timeout refreshable reporter fl fuel afuel start end_) Hq) as [H1 H2].
  unfold streamTelegramMedia in Hq. rewrite (proj2 (Z.ltb_ge _ _)), Hj in Hq by lia.
  assert (H0 : streaming file start (end_ + 1) []) by (intros _; apply prefix_nil).
  destruct (wp_run_reaches _ _ _ _ _ H0
    (stream_jobs_spec is_timeout net_timeout refreshable file fuel afuel reporter fl 0 start (end_ + 1) jobs ltac:(apply Hr) Hg Ht) Hq) as [H3 H4].
  destruct (wp_run_reaches _ _ _ _ _ I (jobs_return is_timeout net_timeout refreshable file fuel afuel reporter fl jobs) Hq) as [_ H5].
  split_and!; [done|done|]. intros r ->. split; [by eapply H2|]. intros Hh. split; [by apply H4|by apply H5].
Qed.

(** C17: every chunk request of a stream is one Telegram accepts: its offset
    and limit are multiples of 1024, it lies within one window of 1 MiB, and
    the wanted bytes are inside it; the chunks, numbered in order, cover the
    range one after the other; and fetching one makes, besides the attempts
    Telegram's waits and time-outs excuse, at most five RPCs, waiting 250, 500,
    1000 and 2000 milliseconds between them. *)
Theorem chunk_requests start end_ :
  stream_range start end_ → start <= end_ →
  ∃ jobs, buildDownloadChunkJobs start end_ = Some jobs ∧ Forall good_job jobs ∧ tiles 0 start (end_ + 1) jobs
  ∧ ∀ is_timeout net_timeout fuel m job t q, job ∈ jobs →
      reaches (fetchTelegramMediaChunk is_timeout net_timeout fuel m (j_req job)) t q →
      (tally is_rpc t <= tally (is_free is_timeout) t + 5)%nat ∧ sleeps t `prefix_of` backoffs
      ∧ (q = Ret None → (fuel <= tally (is_free is_timeout) t + 4)%nat).
Proof.
  intros Hr Hle. destruct (jobs_spec start end_ Hr Hle) as (jobs & Hj & Hg & Ht).
  exists jobs. split_and!; [done..|]. intros is_timeout net_timeout fuel m job t q _ Hq.
  unfold fetchTelegramMediaChunk in Hq. change telegramChunkRetryBaseDelay with (delay 0) in Hq.
  assert (H0 : bounded_log is_timeout 0 []) by (split; [cbn; lia|apply prefix_nil]).
  destruct (wp_run_reaches _ _ _ _ _ H0 (loop_spec is_timeout net_timeout fuel m (j_req job) 0 ltac:(lia)) Hq) as [[H1 H2] H3].
  split_and!; [lia|done|]. intros ->. destruct (H3 _ eq_refl) as [_ H4]. specialize (H4 eq_refl). lia.
Qed.

(** *** Witnesses *)

Definition demo_file : bytes := map (λ n, default x00 (Byte.of_nat (n `mod` 256))) (seq 0 2000).

(** A Telegram that waits once, answers once with nothing, and then with at
    most [limit] bytes of the file; the writer takes 700 bytes at a time. *)
Definition demo_answer (c : call) (s : nat) : ans c * nat :=
  match c return ans c * nat with
  | SourceMedia => (Some (mkMedia 1 2 "loc"), s)
  | SourceRefreshFunc => (true, s)
  | AcquireChunk | CtxErr | SleepTimer _ | FlushError => (None, s)
  | UploadGetFile _ req =>
      (match s with
       | O => (OtherResponse "nil", Some (NewError "FLOOD_WAIT"))
       | 1%nat => (UploadFile [], None)
       | _ => (UploadFile (take (Z.to_nat (u_limit req)) (drop (Z.to_nat (u_offset req)) demo_file)), None)
       end, S s)
  | FloodWait e => ((match e with Some _ => true | None => false end, e), s)
  | RunRefresh => (Ok None, s)
  | Write data => ((Z.min 700 (Z.of_nat (length data)), None), s)
  | PoolClient _ | ReleaseChunk | RefreshLock | SetMedia _ | RefreshUnlock | RecordFileError | RecordBytes _ | ReportFileError _ | Flush => (tt, s)
  end.
Definition demo_pgm := streamTelegramMedia (λ _, false) (λ _, false) (λ _, false) 1 5 true ErrorFlusher 500 1999.
Abbreviation demo_run := (run demo_answer demo_pgm O []).

Lemma demo_result : fst (fst demo_run) = Some (Ok tt) ∧ length (written (snd demo_run)) = 1500%nat ∧ tally is_rpc (snd demo_run) = 3%nat.
Proof. vm_compute. done. Qed.
Lemma demo_reaches : reaches demo_pgm (snd demo_run) (Ret (Some (Ok tt))).
Proof.
  pose proof (run_reaches demo_answer demo_pgm O []) as H. pose proof demo_result as [H1 _].
  destruct demo_run as [[a s] l]. cbn [fst snd] in *. subst a. by destruct H as (l1 & -> & H).
Qed.
#[export] Instance byte_eq : EqDecision Byte.byte := Byte.byte_eq_dec.
#[export] Instance honest_dec file ev : Decision (honest file ev).
Proof. destruct ev as [[] x]; cbn; try apply _. destruct (fst x); apply _. Defined.
Lemma demo_honest : Forall (honest demo_file) (snd demo_run).
Proof. apply (bool_decide_unpack _). vm_compute. done. Qed.

Lemma stream_exact_witness :
  written (snd demo_run) = file_slice demo_file 500 1500.
Proof.
  refine (proj1 (proj1 (proj2 (proj2 (proj2 (stream_exact (λ _, false) (λ _, false) (λ _, false) 1 5 true ErrorFlusher demo_file 500 1999
    _ (Ret (Some (Ok tt))) _ _ demo_reaches)) _ eq_refl) demo_honest) eq_refl)).
  - split; [lia|]. vm_compute. discriminate.
  - lia.
Defined.

Lemma chunk_requests_witness :
  ∃ jobs, buildDownloadChunkJobs 1000 3000000 = Some jobs ∧ length jobs = 3%nat ∧ tiles 0 1000 3000001 jobs.
Proof.
  destruct (chunk_requests 1000 3000000) as (jobs & Hj & _ & Ht & _); [split; [lia|vm_compute; discriminate]|lia|].
  exists jobs. split_and!; [done| |done]. assert (Hl : (length <$> buildDownloadChunkJobs 1000 3000000) = Some 3%nat) by (vm_compute; done).
  rewrite Hj in Hl. by injection Hl.
Defined.
