(* ===== verification/ParallelStream.v ===== *)
(** * Parallel streams (app/http/session.go, [streamTelegramMediaParallel])

    A local download fetches the chunks of its range with several workers and
    writes them in order.  The goroutines are the feeder of jobs, the workers
    and the caller, who receives results, keeps those that came too early and
    writes; the channels are unbuffered, so a hand-over is one step of two
    goroutines.  A label is one such step with what [FetchChunk] and
    [writeFull] answered, both of which are modelled in Stream. *)

From S2P Require Import Prelude Prog Lts Stream.
Local Open Scope list_scope.

Inductive worker :=
  | Idle                                  (* receiving from jobsCh *)
  | Fetching (job : downloadChunkJob)     (* in FetchChunk and sliceTelegramChunk *)
  | Sending (i : nat) (data : bytes)      (* results <- result, or gctx.Done *)
  | Waiting (i : nat)                     (* <-written, or gctx.Done *)
  | Exited.

Inductive caller :=
  | Receiving                             (* range results *)
  | Writing                               (* the inner loop over pending *)
  | Failing (e : goerr)                   (* waitAndReleaseDownloadResults *)
  | Returned (e : option goerr).

Record pstate := mkPs {
  ps_fed : nat;                           (* jobs the feeder has handed out *)
  ps_closed : bool;                       (* jobsCh is closed, the feeder returned *)
  ps_workers : list worker;
  ps_gctx : option goerr;                 (* gctx.Err() *)
  ps_err : option goerr;                  (* the group's first error *)
  ps_released : gset nat;                 (* results whose written channel is closed *)
  ps_pending : gmap nat bytes;
  ps_next : nat;
  ps_out : bytes;                         (* what the writer has taken *)
  ps_caller : caller }.

Definition with_worker (w : nat) (x : worker) (y : pstate) : pstate :=
  mkPs (ps_fed y) (ps_closed y) (<[w:=x]> (ps_workers y)) (ps_gctx y) (ps_err y) (ps_released y) (ps_pending y) (ps_next y) (ps_out y) (ps_caller y).
(** [cancel]: the first cause stays. *)
Definition cancel (e : goerr) (y : pstate) : pstate :=
  mkPs (ps_fed y) (ps_closed y) (ps_workers y) (Some (default e (ps_gctx y))) (ps_err y) (ps_released y) (ps_pending y) (ps_next y) (ps_out y) (ps_caller y).
(** A goroutine of the group returned an error. *)
Definition group_error (e : goerr) (y : pstate) : pstate :=
  let y := cancel (Sentinel Canceled) y in
  mkPs (ps_fed y) (ps_closed y) (ps_workers y) (ps_gctx y) (Some (default e (ps_err y))) (ps_released y) (ps_pending y) (ps_next y) (ps_out y) (ps_caller y).
Definition release (i : nat) (y : pstate) : pstate :=
  mkPs (ps_fed y) (ps_closed y) (ps_workers y) (ps_gctx y) (ps_err y) ({[i]} ∪ ps_released y) (ps_pending y) (ps_next y) (ps_out y) (ps_caller y).
Definition with_caller (c : caller) (y : pstate) : pstate :=
  mkPs (ps_fed y) (ps_closed y) (ps_workers y) (ps_gctx y) (ps_err y) (ps_released y) (ps_pending y) (ps_next y) (ps_out y) c.
Definition close_jobs (y : pstate) : pstate :=
  mkPs (ps_fed y) true (ps_workers y) (ps_gctx y) (ps_err y) (ps_released y) (ps_pending y) (ps_next y) (ps_out y) (ps_caller y).

Inductive label :=
  | LParentCancel (e : goerr)
  | LFeed (w : nat)
  | LFeedEnd
  | LFeedCancel
  | LWorkerEnd (w : nat)
  | LFetch (w : nat) (job : downloadChunkJob) (r : res goerr bytes)
  | LSend (w : nat)
  | LSendCancel (w : nat)
  | LWritten (w : nat)
  | LWaitCancel (w : nat)
  | LWrite (n : nat) (e : option goerr)
  | LWriteDone
  | LGroupDone.

Section parallel.
Context (jobs : list downloadChunkJob).

Definition feed (w : nat) (y : pstate) : option pstate :=
  match ps_closed y, ps_workers y !! w, jobs !! ps_fed y with
  | false, Some Idle, Some job =>
      Some (mkPs (S (ps_fed y)) false (<[w:=Fetching job]> (ps_workers y)) (ps_gctx y) (ps_err y) (ps_released y) (ps_pending y) (ps_next y) (ps_out y) (ps_caller y))
  | _, _, _ => None
  end.

Definition fetch_result (w : nat) (job : downloadChunkJob) (r : res goerr bytes) (y : pstate) : option pstate :=
  match ps_workers y !! w with
  | Some (Fetching job') =>
      if decide (job' = job) then
        match r with
        | Err e => Some (group_error e (with_worker w Exited y))
        | Ok raw =>
            match sliceTelegramChunk raw (j_skip job) (j_take job) with
            | Err e => Some (group_error (Wrapped "slice telegram file chunk" e) (with_worker w Exited y))
            | Ok data => Some (with_worker w (Sending (j_index job) data) y)
            end
        end
      else None
  | _ => None
  end.

(** The caller receives the worker's result. *)
Definition send (w : nat) (y : pstate) : option pstate :=
  match ps_workers y !! w, ps_caller y with
  | Some (Sending i data), Receiving =>
      Some (mkPs (ps_fed y) (ps_closed y) (<[w:=Waiting i]> (ps_workers y)) (ps_gctx y) (ps_err y) (ps_released y)
             (<[i:=data]> (ps_pending y)) (ps_next y) (ps_out y) Writing)
  | _, _ => None
  end.

(** [writeFull] of the next chunk: without an error it wrote all of it, with
    one the first [n] bytes; the chunk is released, and after an error
    everything that is pending. *)
Definition write_next (n : nat) (e : option goerr) (y : pstate) : option pstate :=
  match ps_caller y, ps_pending y !! ps_next y with
  | Writing, Some data =>
      let y := release (ps_next y) y in
      let pending := delete (ps_next y) (ps_pending y) in
      Some match e with
      | None => mkPs (ps_fed y) (ps_closed y) (ps_workers y) (ps_gctx y) (ps_err y) (ps_released y) pending (S (ps_next y)) (ps_out y ++ data) Writing
      | Some e =>
          cancel (Sentinel Canceled)
            (mkPs (ps_fed y) (ps_closed y) (ps_workers y) (ps_gctx y) (ps_err y) (dom pending ∪ ps_released y) ∅ (ps_next y)
              (ps_out y ++ take n data) (Failing (Wrapped "write download output" e)))
      end
  | _, _ => None
  end.

(** Every goroutine of the group has returned. *)
Definition group_done (y : pstate) : bool :=
  ps_closed y && forallb (λ w, match w with Exited => true | _ => false end) (ps_workers y).

(** [<-done] after the results are closed, or while they are drained. *)
Definition finish (y : pstate) : option pstate :=
  if group_done y then
    match ps_caller y with
    | Receiving =>
        Some (with_caller (Returned match ps_err y with
                                    | Some e => Some e
                                    | None => if decide (ps_next y = length jobs) then None else Some (Sentinel "io.ErrUnexpectedEOF")
                                    end) y)
    | Failing e => Some (with_caller (Returned (Some e)) y)
    | _ => None
    end
  else None.

Definition step (l : label) (y : pstate) : option pstate :=
  match l with
  | LParentCancel e => match ps_gctx y with None => Some (cancel e y) | Some _ => None end
  | LFeed w => feed w y
  | LFeedEnd => if negb (ps_closed y) && bool_decide (ps_fed y = length jobs) then Some (close_jobs y) else None
  | LFeedCancel => match ps_closed y, ps_gctx y with false, Some e => Some (group_error e (close_jobs y)) | _, _ => None end
  | LWorkerEnd w => match ps_closed y, ps_workers y !! w with true, Some Idle => Some (with_worker w Exited y) | _, _ => None end
  | LFetch w job r => fetch_result w job r y
  | LSend w => send w y
  | LSendCancel w => match ps_gctx y, ps_workers y !! w with Some e, Some (Sending i _) => Some (group_error e (with_worker w Exited (release i y))) | _, _ => None end
  | LWritten w => match ps_workers y !! w with
                  | Some (Waiting i) => if decide (i ∈ ps_released y) then Some (with_worker w Idle y) else None
                  | _ => None
                  end
  | LWaitCancel w => match ps_gctx y, ps_workers y !! w with Some e, Some (Waiting _) => Some (group_error e (with_worker w Exited y)) | _, _ => None end
  | LWrite n e => write_next n e y
  | LWriteDone => match ps_caller y, ps_pending y !! ps_next y with Writing, None => Some (with_caller Receiving y) | _, _ => None end
  | LGroupDone => finish y
  end.

(** [min(lease.Capacity(), len(jobs))] workers. *)
Definition init (capacity : nat) : pstate :=
  mkPs 0 false (replicate (Nat.min capacity (length jobs)) Idle) None None ∅ ∅ 0 [] Receiving.
End parallel.

(** The checks before the goroutines start: what the call returns at once, or
    the state it starts in. *)
Definition streamTelegramMediaParallel (capacity : nat) (start end_ : Z) : option (option goerr + list downloadChunkJob * pstate) :=
  if end_ <? start then Some (inl (Some (NewError "invalid byte range")))
  else match buildDownloadChunkJobs start end_ with
       | None => None
       | Some [] => Some (inl None)
       | Some jobs => Some (inr (jobs, init jobs capacity))
       end.
