(* ===== verification/ParallelStreamProps.v ===== *)
(** * What the parallel stream guarantees

    An invariant over every interleaving of the feeder, the workers and the
    caller: each chunk is in one place, the output is the chunks before [next],
    a worker holds at most one chunk; and a measure that every step lowers. *)

From Stdlib Require Import Init.Byte.
From S2P Require Import Prelude Prog Lts Stream StreamProps ParallelStream.
Local Open Scope list_scope.
Local Open Scope nat_scope.

(** ** The places of a chunk *)

Definition at_work (i : nat) (w : worker) : nat :=
  match w with Fetching job => b2n (j_index job =? i) | Sending k _ => b2n (k =? i) | _ => 0 end.
Definition waits (i : nat) (w : worker) : nat := match w with Waiting k => b2n (k =? i) | _ => 0 end.
(** A worker that accounts for a pending chunk: it waits for it, or has left. *)
Definition slot (p : gmap nat bytes) (w : worker) : nat :=
  match w with Waiting k => b2n (bool_decide (is_Some (p !! k))) | Exited => 1 | _ => 0 end.
Definition sending (w : worker) : nat := match w with Sending _ _ => 1 | _ => 0 end.

Ltac ps_cbn := cbn [ps_fed ps_closed ps_workers ps_gctx ps_err ps_released ps_pending ps_next ps_out ps_caller].

Section inv.
Context (file : bytes) (jobs : list downloadChunkJob) (nw : nat).
Context (Hidx : ∀ i job, jobs !! i = Some job → j_index job = i).
Context (Hgood : Forall good_job jobs).

Definition job_data (job : downloadChunkJob) : bytes := file_slice file (req_offset (j_req job) + j_skip job) (j_take job).
Definition chunks (n : nat) : bytes := concat (map job_data (take n jobs)).
Definition is_data (i : nat) (d : bytes) : Prop := job_data <$> jobs !! i = Some d.

Record inv (y : pstate) : Prop := {
  i_workers : length (ps_workers y) = nw;
  i_fed : ps_fed y <= length jobs;
  i_once : ∀ i, sum_list_with (at_work i) (ps_workers y) + b2n (bool_decide (is_Some (ps_pending y !! i))) + b2n (i <? ps_next y) <= b2n (i <? ps_fed y);
  i_there : ps_gctx y = None → ∀ i, i < ps_fed y →
    1 <= sum_list_with (at_work i) (ps_workers y) + b2n (bool_decide (is_Some (ps_pending y !! i))) + b2n (i <? ps_next y);
  i_held : ∀ i, sum_list_with (at_work i) (ps_workers y) + sum_list_with (waits i) (ps_workers y) <= b2n (i <? ps_fed y);
  i_fetching : ∀ w job, ps_workers y !! w = Some (Fetching job) → jobs !! j_index job = Some job;
  i_sending : ∀ w i d, ps_workers y !! w = Some (Sending i d) → is_data i d;
  i_pending : ∀ i d, ps_pending y !! i = Some d → is_data i d;
  i_wait : ps_gctx y = None → ∀ w i, ps_workers y !! w = Some (Waiting i) → i ∈ ps_released y ∨ is_Some (ps_pending y !! i);
  i_freed : ∀ i, i ∈ ps_released y → sum_list_with (at_work i) (ps_workers y) = 0 ∧ ps_pending y !! i = None ∧ i < ps_fed y;
  i_freed_work : ps_gctx y = None → ∀ i, i ∈ ps_released y → i < ps_next y;
  i_recv : ps_caller y = Receiving → ps_pending y !! ps_next y = None;
  i_slots : size (ps_pending y) <= sum_list_with (slot (ps_pending y)) (ps_workers y);
  i_out : match ps_caller y with
          | Receiving | Writing => ps_out y = chunks (ps_next y)
          | Failing _ | Returned (Some _) => ps_out y `prefix_of` chunks (length jobs)
          | Returned None => ps_out y = chunks (length jobs)
          end;
  i_closed : ps_closed y = true → ps_fed y = length jobs ∨ ps_gctx y ≠ None;
  i_exited : ∀ w, ps_workers y !! w = Some Exited → ps_closed y = true ∨ ps_gctx y ≠ None;
  i_err : ps_err y ≠ None → ps_gctx y ≠ None;
  i_failing : ∀ e, ps_caller y = Failing e → ps_gctx y ≠ None;
}.

(** A worker changes while everything else but the cancellation stays. *)
Lemma worker_step y w old new gctx err rel :
  inv y → ps_workers y !! w = Some old →
  (∀ i, at_work i new <= at_work i old) → (gctx = None → ∀ i, at_work i new = at_work i old) →
  (∀ i, at_work i new + waits i new <= at_work i old + waits i old) →
  (∀ job, new ≠ Fetching job) → (∀ i d, new = Sending i d → is_data i d) → (∀ i, new ≠ Waiting i) →
  slot (ps_pending y) old <= slot (ps_pending y) new →
  (new = Exited → ps_closed y = true ∨ gctx ≠ None) →
  (ps_gctx y ≠ None → gctx ≠ None) → (err ≠ None → gctx ≠ None) →
  ps_released y ⊆ rel → (∀ i, i ∈ rel → i ∈ ps_released y ∨ gctx ≠ None ∧ at_work i old = 1 ∧ at_work i new = 0) →
  inv (mkPs (ps_fed y) (ps_closed y) (<[w:=new]> (ps_workers y)) gctx err rel (ps_pending y) (ps_next y) (ps_out y) (ps_caller y)).
Proof.
  intros Hi Hw Ha1 Ha2 Hh Hf Hs Hwt Hsl Hex Hg He Hr1 Hr2.
  assert (Hn : gctx = None → ps_gctx y = None) by (intros ->; destruct (ps_gctx y); [exfalso; by apply Hg|done]).
  assert (Hlk : ∀ w' x, <[w:=new]> (ps_workers y) !! w' = Some x → x = new ∨ ps_workers y !! w' = Some x).
  { intros w' x [(-> & <- & _)|[_ H]]%list_lookup_insert_Some; auto. }
  constructor; ps_cbn.
  - rewrite length_insert. apply (i_workers _ Hi).
  - apply (i_fed _ Hi).
  - intros i. pose proof (sum_insert (at_work i) _ _ new _ Hw). pose proof (i_once _ Hi i). specialize (Ha1 i). lia.
  - intros Hg0 i Hif. pose proof (sum_insert (at_work i) _ _ new _ Hw). pose proof (i_there _ Hi (Hn Hg0) i Hif). specialize (Ha2 Hg0 i). lia.
  - intros i. pose proof (sum_insert (at_work i) _ _ new _ Hw). pose proof (sum_insert (waits i) _ _ new _ Hw).
    pose proof (i_held _ Hi i). specialize (Hh i). lia.
  - intros w' job [H|H]%Hlk; [by destruct (Hf job)|]. by apply (i_fetching _ Hi w').
  - intros w' i d [H|H]%Hlk; [by apply Hs|]. by apply (i_sending _ Hi w').
  - apply (i_pending _ Hi).
  - intros Hg0 w' i [H|H]%Hlk; [by destruct (Hwt i)|]. destruct (i_wait _ Hi (Hn Hg0) w' i H); [left; set_solver|by right].
  - intros i Hrel. pose proof (sum_insert (at_work i) _ _ new _ Hw) as Hs'. specialize (Ha1 i).
    destruct (Hr2 i Hrel) as [H|(_ & Hold & Hnew)]; [destruct (i_freed _ Hi i H) as (? & ? & ?); split_and!; [lia|done..]|].
    pose proof (sum_lookup (at_work i) _ _ _ Hw). pose proof (i_once _ Hi i) as H1. pose proof (b2n_le (i <? ps_fed y)).
    destruct (b2n_some (ps_pending y !! i)) as [[? _]|[_ ?]]; [lia|]. destruct (b2n_ltb i (ps_fed y)) as [[_ ?]|[? _]]; [|lia].
    split_and!; [lia|done..].
  - intros Hg0 i Hrel. destruct (Hr2 i Hrel) as [|[? _]]; [|done]. by apply (i_freed_work _ Hi (Hn Hg0)).
  - apply (i_recv _ Hi).
  - pose proof (sum_insert (slot (ps_pending y)) _ _ new _ Hw). pose proof (i_slots _ Hi). lia.
  - apply (i_out _ Hi).
  - intros Hc. destruct (i_closed _ Hi Hc); auto.
  - intros w' [H|H]%Hlk; [auto|]. destruct (i_exited _ Hi w' H); auto.
  - exact He.
  - intros e H. apply Hg, (i_failing _ Hi e H).
Qed.

(** A step of the control alone. *)
Lemma control_step y closed gctx err caller :
  inv y →
  (ps_gctx y ≠ None → gctx ≠ None) → (err ≠ None → gctx ≠ None) → (ps_closed y = true → closed = true) →
  (closed = true → ps_closed y = true ∨ ps_fed y = length jobs ∨ gctx ≠ None) →
  (caller = Receiving → ps_pending y !! ps_next y = None) → (∀ e, caller = Failing e → gctx ≠ None) →
  match caller with
  | Receiving | Writing => ps_out y = chunks (ps_next y)
  | Failing _ | Returned (Some _) => ps_out y `prefix_of` chunks (length jobs)
  | Returned None => ps_out y = chunks (length jobs)
  end →
  inv (mkPs (ps_fed y) closed (ps_workers y) gctx err (ps_released y) (ps_pending y) (ps_next y) (ps_out y) caller).
Proof.
  intros Hi Hg He Hc1 Hc2 Hrecv Hfl Hout.
  assert (Hn : gctx = None → ps_gctx y = None) by (intros ->; destruct (ps_gctx y); [exfalso; by apply Hg|done]).
  destruct Hi. constructor; ps_cbn; try assumption.
  - intros Hg0. apply i_there0, Hn, Hg0.
  - intros Hg0. apply i_wait0, Hn, Hg0.
  - intros Hg0. apply i_freed_work0, Hn, Hg0.
  - intros Hc. destruct (Hc2 Hc) as [H|[H|H]]; [|auto..]. destruct (i_closed0 H); auto.
  - intros w H. destruct (i_exited0 w H); auto.
Qed.

Lemma at_work_le i w : at_work i w <= 1.
Proof. destruct w; cbn; try lia; apply b2n_le. Qed.

(** Each chunk's index is below what was handed out, so the next job is new. *)
Lemma feed_step w y y' : inv y → feed jobs w y = Some y' → inv y'.
Proof.
  intros Hi. unfold feed. destruct (ps_closed y) eqn:Hc; [done|].
  destruct (ps_workers y !! w) as [[]|] eqn:Hw; try done. destruct (jobs !! ps_fed y) as [job|] eqn:Hj; [|done]. intros [= <-].
  pose proof (Hidx _ _ Hj) as Hix. pose proof (lookup_lt_Some _ _ _ Hj) as Hlt.
  assert (Hlk : ∀ w' x, <[w:=Fetching job]> (ps_workers y) !! w' = Some x → x = Fetching job ∨ ps_workers y !! w' = Some x).
  { intros w' x [(-> & <- & _)|[_ H]]%list_lookup_insert_Some; auto. }
  assert (Hf : ∀ i, b2n (i <? S (ps_fed y)) = b2n (i <? ps_fed y) + b2n (ps_fed y =? i)).
  { intros i. destruct (b2n_ltb i (S (ps_fed y))) as [[-> ?]|[-> ?]], (b2n_ltb i (ps_fed y)) as [[-> ?]|[-> ?]], (b2n_eqb (ps_fed y) i) as [[-> ?]|[-> ?]]; lia. }
  constructor; ps_cbn.
  - rewrite length_insert. apply (i_workers _ Hi).
  - lia.
  - intros i. pose proof (sum_insert (at_work i) _ _ (Fetching job) _ Hw) as H. cbn [at_work] in H. rewrite Hix in H. pose proof (i_once _ Hi i). rewrite Hf. lia.
  - intros Hg i Hif. pose proof (sum_insert (at_work i) _ _ (Fetching job) _ Hw) as H. cbn [at_work] in H. rewrite Hix in H.
    destruct (b2n_eqb (ps_fed y) i) as [[? ?]|[? ?]]; [lia|]. pose proof (i_there _ Hi Hg i ltac:(lia)). lia.
  - intros i. pose proof (sum_insert (at_work i) _ _ (Fetching job) _ Hw) as H. pose proof (sum_insert (waits i) _ _ (Fetching job) _ Hw) as H'.
    cbn [at_work waits] in H, H'. rewrite Hix in H. pose proof (i_held _ Hi i). rewrite Hf. lia.
  - intros w' job' [[= ->]|H]%Hlk; [by rewrite Hix|]. by apply (i_fetching _ Hi w').
  - intros w' i d [|H]%Hlk; [done|]. by apply (i_sending _ Hi w').
  - apply (i_pending _ Hi).
  - intros Hg w' i [|H]%Hlk; [done|]. by apply (i_wait _ Hi Hg w').
  - intros i Hr. destruct (i_freed _ Hi i Hr) as (H0 & H1 & H2). pose proof (sum_insert (at_work i) _ _ (Fetching job) _ Hw) as H. cbn [at_work] in H. rewrite Hix in H.
    destruct (b2n_eqb (ps_fed y) i) as [[? ?]|[? ?]]; [lia|]. split_and!; [lia|done|lia].
  - apply (i_freed_work _ Hi).
  - apply (i_recv _ Hi).
  - pose proof (sum_insert (slot (ps_pending y)) _ _ (Fetching job) _ Hw) as H. cbn [slot] in H. pose proof (i_slots _ Hi). lia.
  - apply (i_out _ Hi).
  - done.
  - intros w' [|H]%Hlk; [done|]. destruct (i_exited _ Hi w' H) as [H'|H']; [by rewrite Hc in H'|by right].
  - apply (i_err _ Hi).
  - apply (i_failing _ Hi).
Qed.

Lemma slot_insert p i d w : slot (<[i:=d]> p) w + b2n (bool_decide (is_Some (p !! i))) * waits i w = slot p w + waits i w.
Proof.
  destruct w as [|job|k dk|k|]; cbn [slot waits]; try lia. destruct (b2n_eqb k i) as [[-> ->]|[-> Hk]].
  - rewrite lookup_insert_eq, bool_decide_true by eauto. cbn. lia.
  - rewrite lookup_insert_ne by done. lia.
Qed.
Lemma slots_insert p i d ws : p !! i = None → sum_list_with (slot (<[i:=d]> p)) ws = sum_list_with (slot p) ws + sum_list_with (waits i) ws.
Proof.
  intros Hp. rewrite <- sum_add. induction ws as [|x ws IH]; [done|]. simpl. pose proof (slot_insert p i d x) as Hs. rewrite Hp in Hs. cbn in Hs. lia.
Qed.

Lemma send_step w y y' : inv y → send w y = Some y' → inv y'.
Proof.
  intros Hi. unfold send. destruct (ps_workers y !! w) as [[|job|i data|k|]|] eqn:Hw; try done.
  destruct (ps_caller y) eqn:Hcl; try done. intros [= <-].
  assert (Hlk : ∀ w' x, <[w:=Waiting i]> (ps_workers y) !! w' = Some x → (w' = w ∧ x = Waiting i) ∨ ps_workers y !! w' = Some x).
  { intros w' x [(-> & <- & _)|[_ H]]%list_lookup_insert_Some; auto. }
  assert (Hown : at_work i (Sending i data) = 1) by (cbn; by rewrite Nat.eqb_refl).
  assert (Hne : ∀ k, k ≠ i → at_work k (Sending i data) = 0) by (intros k Hk; cbn; destruct (Nat.eqb_spec i k); cbn; congruence).
  pose proof (sum_lookup (at_work i) _ _ _ Hw) as Hwk. pose proof (i_once _ Hi i) as Hon. pose proof (b2n_le (i <? ps_fed y)) as Hb.
  destruct (b2n_some (ps_pending y !! i)) as [[? _]|[_ Hpi]]; [lia|].
  destruct (b2n_ltb i (ps_next y)) as [[? _]|[_ Hin]]; [lia|]. destruct (b2n_ltb i (ps_fed y)) as [[_ Hif]|[? _]]; [|lia].
  assert (Hwi : sum_list_with (waits i) (ps_workers y) = 0) by (pose proof (i_held _ Hi i); lia).
  assert (Hp : ∀ k, b2n (bool_decide (is_Some (<[i:=data]> (ps_pending y) !! k))) = b2n (bool_decide (is_Some (ps_pending y !! k))) + b2n (i =? k)).
  { intros k. destruct (b2n_eqb i k) as [[-> <-]|[-> Hk]].
    - rewrite lookup_insert_eq, Hpi. rewrite bool_decide_true by eauto. rewrite bool_decide_false; [done|]. by intros [? ?].
    - rewrite lookup_insert_ne by done. lia. }
  assert (Hsum : ∀ k, sum_list_with (at_work k) (<[w:=Waiting i]> (ps_workers y)) + b2n (i =? k) = sum_list_with (at_work k) (ps_workers y)).
  { intros k. pose proof (sum_insert (at_work k) _ _ (Waiting i) _ Hw) as H. cbn [at_work] in H. lia. }
  constructor; ps_cbn.
  - rewrite length_insert. apply (i_workers _ Hi).
  - apply (i_fed _ Hi).
  - intros k. rewrite Hp. pose proof (Hsum k) as Hsk. pose proof (i_once _ Hi k). lia.
  - intros Hg k Hk. rewrite Hp. pose proof (Hsum k) as Hsk. pose proof (i_there _ Hi Hg k Hk). lia.
  - intros k. pose proof (Hsum k) as Hsk. pose proof (sum_insert (waits k) _ _ (Waiting i) _ Hw) as H. cbn [waits] in H. pose proof (i_held _ Hi k). lia.
  - intros w' job' [[_ ?]|H]%Hlk; [done|]. by apply (i_fetching _ Hi w').
  - intros w' k d [[_ ?]|H]%Hlk; [done|]. by apply (i_sending _ Hi w').
  - intros k d [(<- & <-)|[_ H]]%lookup_insert_Some; [by apply (i_sending _ Hi w)|]. by apply (i_pending _ Hi).
  - intros Hg w' k [[_ [= ->]]|H]%Hlk; [right; rewrite lookup_insert_eq; eauto|].
    destruct (i_wait _ Hi Hg w' k H) as [|Hs]; [by left|right]. apply lookup_insert_is_Some'. auto.
  - intros k Hr. destruct (i_freed _ Hi k Hr) as (H0 & H1 & H2). pose proof (Hsum k).
    destruct (decide (k = i)) as [->|Hk]; [lia|]. rewrite lookup_insert_ne by done. split_and!; [lia|done..].
  - apply (i_freed_work _ Hi).
  - done.
  - rewrite map_size_insert_None by done. rewrite slots_insert by done.
    pose proof (sum_insert (slot (ps_pending y)) _ _ (Waiting i) _ Hw) as H. pose proof (sum_insert (waits i) _ _ (Waiting i) _ Hw) as H'.
    cbn [slot waits] in H, H'. rewrite Nat.eqb_refl in H'. cbn [b2n] in H'. pose proof (i_slots _ Hi). lia.
  - pose proof (i_out _ Hi) as Ho. by rewrite Hcl in Ho.
  - apply (i_closed _ Hi).
  - intros w' [[_ ?]|H]%Hlk; [done|]. by apply (i_exited _ Hi w').
  - apply (i_err _ Hi).
  - done.
Qed.

Lemma slots_delete p k ws :
  sum_list_with (slot p) ws <= sum_list_with (slot (delete k p)) ws + sum_list_with (waits k) ws.
Proof.
  rewrite <- sum_add. apply sum_mono. intros [|job|i d|i|]; cbn [slot waits]; try lia.
  destruct (b2n_eqb i k) as [[-> ->]|[-> Hk]]; [pose proof (b2n_le (bool_decide (is_Some (p !! k)))); lia|]. rewrite lookup_delete_ne by done. lia.
Qed.

Lemma chunks_snoc n d : is_data n d → chunks (S n) = chunks n ++ d.
Proof.
  unfold is_data. intros (job & Hj & ->)%fmap_Some. unfold chunks. rewrite (take_S_r _ _ job) by done.
  by rewrite map_app, concat_app; cbn; rewrite app_nil_r.
Qed.
Lemma chunks_prefix n m : n <= m → chunks n `prefix_of` chunks m.
Proof.
  intros H. unfold chunks. rewrite <- (take_drop n (take m jobs)), take_take, Nat.min_l, map_app, concat_app by done. by eexists.
Qed.

Lemma write_step n e y y' : inv y → write_next n e y = Some y' → inv y'.
Proof.
  intros Hi. unfold write_next. destruct (ps_caller y) eqn:Hcl; try done.
  destruct (ps_pending y !! ps_next y) as [data|] eqn:Hp; [|done]. intros [= <-].
  pose proof (i_pending _ Hi _ _ Hp) as Hd. pose proof (i_once _ Hi (ps_next y)) as Hon. rewrite Hp in Hon.
  rewrite bool_decide_true in Hon by eauto. cbn [b2n] in Hon. destruct (b2n_ltb (ps_next y) (ps_fed y)) as [[Hb Hnf]|[? _]]; [|lia].
  pose proof (i_out _ Hi) as Ho. rewrite Hcl in Ho. pose proof (i_fed _ Hi) as Hfed.
  assert (Hlk : ∀ k d, delete (ps_next y) (ps_pending y) !! k = Some d → k ≠ ps_next y ∧ ps_pending y !! k = Some d).
  { intros k d [Hk H]%lookup_delete_Some. auto. }
  assert (Hwk : ∀ k, is_Some (ps_pending y !! k) → sum_list_with (at_work k) (ps_workers y) = 0 ∧ k < ps_fed y).
  { intros k Hk. pose proof (i_once _ Hi k) as H. destruct (b2n_some (ps_pending y !! k)) as [[Hk' _]|[_ Hk']]; [|destruct Hk; congruence].
    destruct (b2n_ltb k (ps_fed y)) as [[? ?]|[? _]]; lia. }
  unfold cancel, release. destruct e as [e|]; destruct Hi; constructor; ps_cbn; try done.
  - intros k. specialize (i_once0 k). rewrite lookup_empty, b2n_none. lia.
  - intros k Hk. rewrite !elem_of_union, elem_of_dom, elem_of_singleton in Hk. split_and!; [|done|].
    + destruct Hk as [[d Hk]|[->|Hk]]; [|lia|by apply i_freed0]. apply Hlk in Hk as [_ Hk]. apply Hwk. eauto.
    + destruct Hk as [[d Hk]|[->|Hk]]; [|lia|by apply i_freed0]. apply Hlk in Hk as [_ Hk]. apply Hwk. eauto.
  - rewrite map_size_empty. lia.
  - rewrite Ho. etrans; [|apply (chunks_prefix (S (ps_next y))); lia]. rewrite (chunks_snoc _ _ Hd). apply prefix_app, prefix_take.
  - intros Hc. by right.
  - intros w Hw. by right.
  - intros k. specialize (i_once0 k). destruct (decide (k = ps_next y)) as [->|Hk].
    + rewrite lookup_delete_eq, b2n_none. destruct (b2n_ltb (ps_next y) (S (ps_next y))) as [[-> _]|[_ ?]]; lia.
    + rewrite lookup_delete_ne by done. destruct (b2n_ltb k (S (ps_next y))) as [[-> ?]|[-> ?]], (b2n_ltb k (ps_next y)) as [[? ?]|[? ?]]; lia.
  - intros Hg k Hk. specialize (i_there0 Hg k Hk). destruct (decide (k = ps_next y)) as [->|Hne].
    + destruct (b2n_ltb (ps_next y) (S (ps_next y))) as [[-> _]|[_ ?]]; lia.
    + rewrite lookup_delete_ne by done. destruct (b2n_ltb k (S (ps_next y))) as [[-> ?]|[-> ?]], (b2n_ltb k (ps_next y)) as [[? ?]|[? ?]]; lia.
  - intros k d Hk. apply Hlk in Hk as [_ Hk]. by apply i_pending0.
  - intros Hg w k Hk. destruct (i_wait0 Hg w k Hk) as [|Hk']; [left; set_solver|]. destruct (decide (k = ps_next y)) as [->|Hne]; [left; set_solver|].
    right. by rewrite lookup_delete_ne.
  - intros k Hk. apply elem_of_union in Hk as [->%elem_of_singleton|Hk].
    + rewrite lookup_delete_eq. split_and!; [lia|done|done].
    + destruct (i_freed0 k Hk) as (? & ? & ?). split_and!; [done| |done]. apply lookup_delete_None. by right.
  - intros Hg k Hk. apply elem_of_union in Hk as [->%elem_of_singleton|Hk]; [lia|]. specialize (i_freed_work0 Hg k Hk). lia.
  - rewrite map_size_delete_Some by eauto. pose proof (slots_delete (ps_pending y) (ps_next y) (ps_workers y)) as Hs.
    pose proof (i_held0 (ps_next y)). lia.
  - rewrite Ho. by rewrite (chunks_snoc _ _ Hd).
Qed.

(** ** Every step *)

Definition honest_label (l : label) : Prop :=
  match l with LFetch _ job (Ok raw) => raw `prefix_of` drop (Z.to_nat (req_offset (j_req job))) file | _ => True end.

Lemma fetch_step w job r y y' :
  honest_label (LFetch w job r) → inv y → fetch_result w job r y = Some y' → inv y'.
Proof.
  intros Hh Hi. unfold fetch_result. destruct (ps_workers y !! w) as [[|job'|k d|k|]|] eqn:Hw; try done.
  destruct (decide (job' = job)) as [->|]; [|done].
  assert (Herr : ∀ e, inv (group_error e (with_worker w Exited y))).
  { intros e. apply (worker_step y w (Fetching job) Exited); try done; cbn; try (intros; lia); try (intros; by right); auto. }
  destruct r as [raw|e]; [|intros [= <-]; apply Herr].
  destruct (sliceTelegramChunk raw (j_skip job) (j_take job)) as [data|e] eqn:Hs; intros [= <-]; [|apply Herr].
  pose proof (i_fetching _ Hi _ _ Hw) as Hj. pose proof (proj1 (Forall_forall _ _) Hgood job ltac:(by eapply list_elem_of_lookup_2)) as [Ho Hl _ Hsk Htk].
  apply (sliceTelegramChunk_spec file _ _ _ (req_offset (j_req job))) in Hs as [Hs _]; [|unfold telegramGetFileFragmentWindowSize in Hl; lia..|done].
  apply (worker_step y w (Fetching job) (Sending (j_index job) data)); try done; cbn; try (intros; lia); auto; [|by apply (i_err _ Hi)].
  intros i d [= <- <-]. unfold is_data. rewrite Hj. cbn. by rewrite Hs.
Qed.

Ltac worker_tac := try done; cbn; try (intros; lia); try (intros; by right); auto.

Lemma step_inv l y y' : honest_label l → inv y → step jobs l y = Some y' → inv y'.
Proof.
  intros Hh Hi. destruct l as [e|w| | |w|w job r|w|w|w|w|n e| |]; cbn [step].
  - destruct (ps_gctx y) eqn:Hg; [done|]. intros [= <-]. apply control_step; try done; auto.
    + apply (i_recv _ Hi).
    + apply (i_out _ Hi).
  - by apply feed_step.
  - destruct (ps_closed y) eqn:Hc; [done|]. cbn. case_bool_decide as Hf; [|done]. intros [= <-].
    apply control_step; try done; auto.
    + apply (i_err _ Hi).
    + apply (i_recv _ Hi).
    + apply (i_failing _ Hi).
    + apply (i_out _ Hi).
  - destruct (ps_closed y) eqn:Hc; [done|]. destruct (ps_gctx y) eqn:Hg; [|done]. intros [= <-].
    apply (control_step y true (Some (default (Sentinel Canceled) (ps_gctx y))) (Some (default _ (ps_err y))) (ps_caller y)); try done; auto.
    + apply (i_recv _ Hi).
    + apply (i_out _ Hi).
  - destruct (ps_closed y) eqn:Hc; [|done]. destruct (ps_workers y !! w) as [[]|] eqn:Hw; try done. intros [= <-].
    apply (worker_step y w Idle Exited); worker_tac. apply (i_err _ Hi).
  - by apply fetch_step.
  - by apply send_step.
  - destruct (ps_gctx y) eqn:Hg; [|done]. destruct (ps_workers y !! w) as [[| |i d| |]|] eqn:Hw; try done. intros [= <-].
    apply (worker_step y w (Sending i d) Exited); worker_tac; [set_solver|]. intros k [->%elem_of_singleton|Hk]%elem_of_union; [right|by left].
    by rewrite Nat.eqb_refl.
  - destruct (ps_workers y !! w) as [[| | |i|]|] eqn:Hw; try done. destruct (decide (i ∈ ps_released y)) as [Hr|]; [|done]. intros [= <-].
    apply (worker_step y w (Waiting i) Idle); worker_tac; [|apply (i_err _ Hi)].
    destruct (i_freed _ Hi i Hr) as (_ & -> & _). rewrite b2n_none. done.
  - destruct (ps_gctx y) eqn:Hg; [|done]. destruct (ps_workers y !! w) as [[| | |i|]|] eqn:Hw; try done. intros [= <-].
    apply (worker_step y w (Waiting i) Exited); worker_tac. apply b2n_le.
  - by apply write_step.
  - destruct (ps_caller y) eqn:Hcl; try done. destruct (ps_pending y !! ps_next y) eqn:Hp; [done|]. intros [= <-].
    pose proof (i_out _ Hi) as Ho. rewrite Hcl in Ho.
    apply control_step; try done; auto; [apply (i_err _ Hi)].
  - unfold finish. destruct (group_done y); [|done]. pose proof (i_out _ Hi) as Ho. pose proof (i_fed _ Hi) as Hf.
    assert (Hnf : ps_next y <= length jobs).
    { pose proof (i_once _ Hi (length jobs)). destruct (b2n_ltb (length jobs) (ps_fed y)) as [[? ?]|[? _]]; [lia|].
      destruct (b2n_ltb (length jobs) (ps_next y)) as [[? _]|[_ ?]]; lia. }
    destruct (ps_caller y) eqn:Hcl; try done; intros [= <-].
    + apply control_step; try done; auto; [apply (i_err _ Hi)|].
      rewrite Ho. destruct (ps_err y); [by apply chunks_prefix|]. case_decide as Hn; [by rewrite Hn|]. by apply chunks_prefix.
    + apply control_step; try done; auto. apply (i_err _ Hi).
Qed.

Lemma stream_init_inv capacity : nw = Nat.min capacity (length jobs) → inv (init jobs capacity).
Proof.
  intros Hnw. unfold init. assert (Hr : ∀ w x, replicate (Nat.min capacity (length jobs)) Idle !! w = Some x → x = Idle) by (intros w x; rewrite lookup_replicate; naive_solver).
  constructor; ps_cbn; try done; try lia.
  - by rewrite length_replicate.
  - intros i. rewrite sum_replicate, lookup_empty, b2n_none. cbn. lia.
  - intros i. rewrite !sum_replicate. cbn. lia.
  - intros w job H. by apply Hr in H.
  - intros w i d H. by apply Hr in H.
  - intros _ w i H. by apply Hr in H.
  - rewrite map_size_empty. lia.
  - intros w H. by apply Hr in H.
Qed.

(** ** Something can always happen *)

Lemma not_exited ws : forallb (λ w, match w with Exited => true | _ => false end) ws = false → ∃ w x, ws !! w = Some x ∧ x ≠ Exited.
Proof.
  induction ws as [|x ws IH]; [done|]. cbn. destruct x; try (intros _; by exists 0; eexists). cbn. intros H. destruct (IH H) as (w & x & Hw & Hx). by exists (S w), x.
Qed.

Definition enabled (y : pstate) : Prop := ∃ l, honest_label l ∧ is_Some (step jobs l y).

(** A worker that is not waiting for the writer, or can give up, can move. *)
Lemma busy_enabled y w x :
  inv y → ps_workers y !! w = Some x →
  match x with
  | Idle => ps_closed y = true
  | Fetching _ => True
  | Sending _ _ => ps_gctx y ≠ None ∨ ps_caller y = Receiving
  | Waiting i => ps_gctx y ≠ None ∨ i ∈ ps_released y
  | Exited => False
  end → enabled y.
Proof.
  intros Hi Hw H. destruct x as [|job|i d|i|]; [| | | |done].
  - exists (LWorkerEnd w). split; [done|]. cbn. rewrite H, Hw. eauto.
  - exists (LFetch w job (Err (Sentinel Canceled))). split; [done|]. cbn. unfold fetch_result. rewrite Hw, decide_True by done. eauto.
  - destruct (ps_gctx y) as [e|] eqn:Hg.
    + exists (LSendCancel w). split; [done|]. cbn. rewrite Hg, Hw. eauto.
    + destruct H as [|H]; [done|]. exists (LSend w). split; [done|]. cbn. unfold send. rewrite Hw, H. eauto.
  - destruct (ps_gctx y) as [e|] eqn:Hg.
    + exists (LWaitCancel w). split; [done|]. cbn. rewrite Hg, Hw. eauto.
    + destruct H as [|H]; [done|]. exists (LWritten w). split; [done|]. cbn. rewrite Hw, decide_True by done. eauto.
Qed.

Lemma caller_enabled y :
  match ps_caller y with Writing => True | Receiving | Failing _ => group_done y = true | Returned _ => False end → enabled y.
Proof.
  destruct (ps_caller y) eqn:Hc; [| | |done]; intros H.
  - exists LGroupDone. split; [done|]. cbn. unfold finish. rewrite H, Hc. eauto.
  - destruct (ps_pending y !! ps_next y) eqn:Hp.
    + exists (LWrite 0 None). split; [done|]. cbn. unfold write_next. rewrite Hc, Hp. eauto.
    + exists LWriteDone. split; [done|]. cbn. rewrite Hc, Hp. eauto.
  - exists LGroupDone. split; [done|]. cbn. unfold finish. rewrite H, Hc. eauto.
Qed.

(** The feeder, while its channel is open. *)
Lemma feeder_enabled y w : inv y → ps_closed y = false → (ps_gctx y ≠ None ∨ ps_fed y = length jobs ∨ ps_workers y !! w = Some Idle) → enabled y.
Proof.
  intros Hi Hc H. destruct (ps_gctx y) as [e|] eqn:Hg.
  { exists LFeedCancel. split; [done|]. cbn. rewrite Hc, Hg. eauto. }
  destruct H as [|H]; [done|]. destruct (decide (ps_fed y = length jobs)) as [Hf|Hf].
  { exists LFeedEnd. split; [done|]. cbn. rewrite Hc, bool_decide_true by done. eauto. }
  destruct H as [|Hw]; [done|]. exists (LFeed w). split; [done|]. cbn. unfold feed. rewrite Hc, Hw.
  destruct (lookup_lt_is_Some_2 jobs (ps_fed y)) as [job ->]; [pose proof (i_fed _ Hi); lia|]. eauto.
Qed.

(** A worker waits while another holds the chunk the caller needs. *)
Lemma wait_enabled y w i :
  inv y → ps_gctx y = None → ps_caller y = Receiving → ps_workers y !! w = Some (Waiting i) → enabled y.
Proof.
  intros Hi Hg Hrecv Hw. destruct (i_wait _ Hi Hg w i Hw) as [Hrel|Hp]; [by apply (busy_enabled y w (Waiting i)); auto|].
  pose proof (i_once _ Hi i) as Hon. destruct (b2n_some (ps_pending y !! i)) as [[H1 _]|[_ H1]]; [|destruct Hp; congruence].
  destruct (b2n_ltb i (ps_fed y)) as [[Hb Hif]|[? _]]; [|lia]. destruct (b2n_ltb i (ps_next y)) as [[? _]|[_ Hni]]; [lia|].
  pose proof (i_there _ Hi Hg (ps_next y) ltac:(lia)) as Ht. rewrite (i_recv _ Hi Hrecv), b2n_none in Ht.
  destruct (b2n_ltb (ps_next y) (ps_next y)) as [[_ ?]|[Hn _]]; [lia|]. rewrite Hn in Ht.
  destruct (sum_pos (at_work (ps_next y)) (ps_workers y)) as (w' & x & Hw' & Hx); [lia|].
  destruct x as [|job|k d|k|]; cbn in Hx; try lia; [by apply (busy_enabled y w' (Fetching job))|by apply (busy_enabled y w' (Sending k d)); auto].
Qed.

Lemma progress y : 1 <= nw → inv y → (∀ e, ps_caller y ≠ Returned e) → enabled y.
Proof.
  intros Hnw Hi Hr. pose proof (i_failing _ Hi) as Hfail. assert (Hcw : ps_caller y = Writing ∨ ps_caller y ≠ Writing) by (destruct (ps_caller y); auto).
  destruct Hcw as [Hcw|Hcw]; [apply caller_enabled; by rewrite Hcw|].
  destruct (group_done y) eqn:Hgd.
  { apply caller_enabled. destruct (ps_caller y) eqn:Hc; try done. by destruct (Hr e). }
  destruct (ps_closed y) eqn:Hc; unfold group_done in Hgd; rewrite Hc in Hgd; cbn in Hgd.
  - apply not_exited in Hgd as (w & x & Hw & Hx). destruct (ps_gctx y) as [e|] eqn:Hg.
    { apply (busy_enabled y w x); [done..|]. destruct x; try done; left; congruence. }
    assert (Hrecv : ps_caller y = Receiving).
    { destruct (ps_caller y) eqn:Hc'; try done; [exfalso; by eapply Hfail|by destruct (Hr e)]. }
    destruct x as [|job|i d|i|]; [by apply (busy_enabled y w Idle)|by apply (busy_enabled y w (Fetching job))|by apply (busy_enabled y w (Sending i d)); auto| |done].
    by apply (wait_enabled y w i).
  - destruct (ps_workers y !! 0) as [x|] eqn:Hw; [|apply lookup_ge_None in Hw; rewrite (i_workers _ Hi) in Hw; lia].
    destruct (ps_gctx y) as [e|] eqn:Hg; [apply (feeder_enabled y 0); [done..|left; congruence]|].
    assert (Hrecv : ps_caller y = Receiving).
    { destruct (ps_caller y) eqn:Hc'; try done; [exfalso; by eapply Hfail|by destruct (Hr e)]. }
    destruct x as [|job|i d|i|]; [by apply (feeder_enabled y 0); auto|by apply (busy_enabled y 0 (Fetching job))|by apply (busy_enabled y 0 (Sending i d)); auto|by apply (wait_enabled y 0 i)|].
    destruct (i_exited _ Hi _ Hw); congruence.
Qed.

(** ** Every step lowers a measure *)

Definition weight (x : worker) : nat :=
  match x with Idle => 1 | Fetching _ => 6 | Sending _ _ => 5 | Waiting _ => 2 | Exited => 0 end.
Definition measure (y : pstate) : nat :=
  6 * (length jobs - ps_fed y) + sum_list_with weight (ps_workers y) + size (ps_pending y) + b2n (negb (ps_closed y))
  + b2n (bool_decide (ps_gctx y = None)) + match ps_caller y with Receiving | Failing _ => 1 | Writing => 2 | Returned _ => 0 end.

Lemma gctx_le (x : option goerr) e : b2n (bool_decide (Some (default e x) = None)) <= b2n (bool_decide (x = None)).
Proof. rewrite (bool_decide_false (Some _ = None)) by done. cbn. lia. Qed.

Ltac measure_worker Hw new :=
  pose proof (sum_insert weight _ _ new _ Hw) as Hsum; cbn [weight] in Hsum; unfold measure; ps_cbn.

Lemma measure_step l y y' : inv y → step jobs l y = Some y' → measure y' < measure y.
Proof.
  intros Hi. destruct l as [e|w| | |w|w job r|w|w|w|w|n e| |]; cbn [step].
  - destruct (ps_gctx y) eqn:Hg; [done|]. intros [= <-]. unfold measure, cancel; ps_cbn. rewrite Hg. cbn. lia.
  - unfold feed. destruct (ps_closed y) eqn:Hc; [done|].
    destruct (ps_workers y !! w) as [[]|] eqn:Hw; try done. destruct (jobs !! ps_fed y) as [job|] eqn:Hj; [|done]. intros [= <-].
    apply lookup_lt_Some in Hj. measure_worker Hw (Fetching job). rewrite Hc. lia.
  - destruct (ps_closed y) eqn:Hc; [done|]. cbn. case_bool_decide as Hf; [|done]. intros [= <-]. unfold measure, close_jobs; ps_cbn. rewrite Hc. cbn. lia.
  - destruct (ps_closed y) eqn:Hc; [done|]. destruct (ps_gctx y) as [g|] eqn:Hg; [|done]. intros [= <-].
    unfold measure, group_error, cancel, close_jobs; ps_cbn. rewrite Hc, Hg. cbn. lia.
  - destruct (ps_closed y) eqn:Hc; [|done]. destruct (ps_workers y !! w) as [[]|] eqn:Hw; try done. intros [= <-].
    unfold with_worker. measure_worker Hw Exited. lia.
  - unfold fetch_result. destruct (ps_workers y !! w) as [[|job'|k d|k|]|] eqn:Hw; try done.
    destruct (decide (job' = job)) as [->|]; [|done].
    assert (Herr : ∀ e, measure (group_error e (with_worker w Exited y)) < measure y).
    { intros e. unfold group_error, cancel, with_worker. measure_worker Hw Exited. pose proof (gctx_le (ps_gctx y) (Sentinel Canceled)). lia. }
    destruct r as [raw|e]; [|intros [= <-]; apply Herr].
    destruct (sliceTelegramChunk raw _ _) as [data|e]; intros [= <-]; [|apply Herr].
    unfold with_worker. measure_worker Hw (Sending (j_index job) data). lia.
  - unfold send. destruct (ps_workers y !! w) as [[|job|i data|k|]|] eqn:Hw; try done.
    destruct (ps_caller y) eqn:Hcl; try done. intros [= <-]. measure_worker Hw (Waiting i). rewrite Hcl.
    destruct (ps_pending y !! i) eqn:Hp; [rewrite map_size_insert_Some by eauto|rewrite map_size_insert_None by done]; lia.
  - destruct (ps_gctx y) as [g|] eqn:Hg; [|done]. destruct (ps_workers y !! w) as [[| |i d| |]|] eqn:Hw; try done. intros [= <-].
    unfold group_error, cancel, with_worker, release. measure_worker Hw Exited. pose proof (gctx_le (ps_gctx y) (Sentinel Canceled)). lia.
  - destruct (ps_workers y !! w) as [[| | |i|]|] eqn:Hw; try done. destruct (decide _); [|done]. intros [= <-].
    unfold with_worker. measure_worker Hw Idle. lia.
  - destruct (ps_gctx y) as [g|] eqn:Hg; [|done]. destruct (ps_workers y !! w) as [[| | |i|]|] eqn:Hw; try done. intros [= <-].
    unfold group_error, cancel, with_worker. measure_worker Hw Exited. pose proof (gctx_le (ps_gctx y) (Sentinel Canceled)). lia.
  - unfold write_next. destruct (ps_caller y) eqn:Hcl; try done. destruct (ps_pending y !! ps_next y) as [data|] eqn:Hp; [|done]. intros [= <-].
    assert (Hsz : size (delete (ps_next y) (ps_pending y)) < size (ps_pending y)).
    { rewrite map_size_delete_Some by eauto. destruct (size (ps_pending y)) eqn:Hz; [|lia]. apply map_size_empty_inv in Hz. by rewrite Hz in Hp. }
    destruct e as [e|]; unfold cancel, release, measure; ps_cbn; rewrite Hcl; [|lia].
    rewrite map_size_empty. pose proof (gctx_le (ps_gctx y) (Sentinel Canceled)). lia.
  - destruct (ps_caller y) eqn:Hcl; try done. destruct (ps_pending y !! ps_next y) eqn:Hp; [done|]. intros [= <-].
    unfold measure, with_caller; ps_cbn. rewrite Hcl. lia.
  - unfold finish. destruct (group_done y); [|done].
    destruct (ps_caller y) eqn:Hcl; try done; intros [= <-]; unfold measure, with_caller; ps_cbn; rewrite Hcl; lia.
Qed.

Lemma steps_measure ls y y' :
  Forall honest_label ls → inv y → steps (step jobs) ls y = Some y' → inv y' ∧ length ls + measure y' <= measure y.
Proof.
  revert y. induction ls as [|l ls IH]; intros y Hh Hi H.
  - injection H as <-. done.
  - apply Forall_cons in Hh as [Hl Hh]. rewrite steps_cons in H. apply bind_Some in H as (y1 & H1 & H2).
    pose proof (measure_step l y y1 Hi H1). destruct (IH y1) as [Hi' Hm]; [done|by eapply step_inv|done|]. split; [done|]. cbn [length]. lia.
Qed.
End inv.

(** What is left of a range after its first chunks. *)
Lemma tiles_index i start stop jobs k job : tiles i start stop jobs → jobs !! k = Some job → j_index job = (i + k).
Proof.
  revert i start k. induction jobs as [|j jobs IH]; intros i start [|k] Ht Hk; try done; destruct Ht as (Hi & _ & Ht).
  - injection Hk as <-. lia.
  - rewrite (IH (S i) _ k Ht Hk). lia.
Qed.
Lemma tiles_chunks file i start stop jobs :
  (0 <= start)%Z → Forall good_job jobs → tiles i start stop jobs → concat (map (job_data file) jobs) = file_slice file start (stop - start).
Proof.
  revert i start. induction jobs as [|j jobs IH]; intros i start Hs Hg Ht.
  - cbn in Ht. subst stop. by rewrite Z.sub_diag.
  - apply Forall_cons in Hg as [Hj Hg]. destruct Ht as (_ & Ho & Ht). pose proof (chunk_tiles_le _ _ _ _ Hg Ht). destruct Hj as [_ _ _ _ [Htk _]].
    cbn [map concat]. rewrite (IH (S i) (start + j_take j)%Z) by (done || lia). unfold job_data. rewrite Ho.
    replace (stop - start)%Z with (j_take j + (stop - (start + j_take j)))%Z by lia. by rewrite file_slice_app by lia.
Qed.

(** C5: the parallel stream of the bytes [start] to [end_], over every
    interleaving of its feeder, workers and caller and whatever the fetches,
    the writer and the cancellations do: what was written is at every moment a
    prefix of exactly the bytes the sequential stream writes, all of them when
    it returns without an error; the chunks in memory, pending or being handed
    over, are never more than the workers; as long as it has not returned
    some goroutine can go on, and it returns after at most six steps a chunk,
    one a worker and three. *)
Theorem parallel_stream file capacity start end_ jobs y0 ls y :
  stream_range start end_ → (start <= end_)%Z → 1 <= capacity →
  streamTelegramMediaParallel capacity start end_ = Some (inr (jobs, y0)) →
  Forall (honest_label file) ls → steps (step jobs) ls y0 = Some y →
  ps_out y `prefix_of` file_slice file start (end_ + 1 - start)
  ∧ (ps_caller y = Returned None → ps_out y = file_slice file start (end_ + 1 - start))
  ∧ size (ps_pending y) + sum_list_with sending (ps_workers y) <= Nat.min capacity (length jobs)
  ∧ ((∃ e, ps_caller y = Returned e) ∨ enabled file jobs y)
  ∧ length ls <= 6 * length jobs + Nat.min capacity (length jobs) + 3.
Proof.
  intros Hr Hle Hcap Hs Hh Hst. destruct (jobs_spec start end_ Hr Hle) as (js & Hj & Hg & Ht).
  unfold streamTelegramMediaParallel in Hs. rewrite (proj2 (Z.ltb_ge _ _)), Hj in Hs by lia.
  destruct js as [|j0 js]; [done|]. injection Hs as <- <-. set (jobs := j0 :: js) in *.
  assert (Hidx : ∀ i job, jobs !! i = Some job → j_index job = i) by (intros i job H; by rewrite (tiles_index _ _ _ _ _ _ Ht H)).
  set (nw := Nat.min capacity (length jobs)).
  destruct (steps_measure file jobs nw Hidx Hg ls _ y Hh (stream_init_inv file jobs nw capacity eq_refl) Hst) as [Hi Hm].
  pose proof (tiles_chunks file _ _ _ _ (proj1 Hr) Hg Ht) as Hall.
  assert (Hc : chunks file jobs (length jobs) = file_slice file start (end_ + 1 - start)) by (unfold chunks; by rewrite firstn_all).
  assert (Hn : ps_next y <= length jobs).
  { pose proof (i_fed _ _ _ _ Hi). pose proof (i_once _ _ _ _ Hi (length jobs)). destruct (b2n_ltb (length jobs) (ps_fed y)) as [[? ?]|[? _]]; [lia|].
    destruct (b2n_ltb (length jobs) (ps_next y)) as [[? _]|[_ ?]]; lia. }
  pose proof (i_out _ _ _ _ Hi) as Ho. rewrite <- Hc. split_and!.
  - destruct (ps_caller y) as [| |e|[e|]]; [rewrite Ho; by apply chunks_prefix..|done|done|by rewrite Ho].
  - intros He. by rewrite He in Ho.
  - pose proof (i_slots _ _ _ _ Hi). pose proof (i_workers _ _ _ _ Hi) as Hw. rewrite <- (sum_ones (ps_workers y)) in Hw.
    assert (Hss : sum_list_with (λ x, slot (ps_pending y) x + sending x) (ps_workers y) <= sum_list_with (λ _, 1) (ps_workers y)).
    { apply sum_mono. intros [| | |k|]; cbn; try lia. pose proof (b2n_le (bool_decide (is_Some (ps_pending y !! k)))). lia. }
    rewrite sum_add in Hss. fold nw. lia.
  - destruct (ps_caller y) as [| |e|e] eqn:Hcl; [right..|left; by exists e].
    all: apply (progress file jobs nw y); [unfold nw, jobs; cbn; lia|done|intros e'; congruence].
  - assert (measure jobs (init jobs capacity) = 6 * length jobs + nw + 3).
    { unfold measure, init; ps_cbn. rewrite sum_replicate, map_size_empty, bool_decide_true by done. fold nw. cbn [weight b2n negb]. lia. }
    lia.
Qed.

(** *** Witness: two chunks across a window's end, the second fetched first *)

Definition demo_pad : Z := 1047552.
Definition demo_big : bytes := replicate (Z.to_nat demo_pad) x00 ++ demo_file.
Definition demo_job0 : downloadChunkJob := mkJob 0 (mkReq 1047552 1024) 1020 4.
Definition demo_job1 : downloadChunkJob := mkJob 1 (mkReq 1048576 1024) 0 4.
Definition demo_raw0 : bytes := take 1024 demo_file.
Definition demo_raw1 : bytes := drop 1024 demo_file.

Lemma drop_pad n k (l : bytes) : (0 <= n)%Z → (0 <= k)%Z → drop (Z.to_nat (n + k)) (replicate (Z.to_nat n) x00 ++ l) = drop (Z.to_nat k) l.
Proof. intros. rewrite Z2Nat.inj_add, <- drop_drop by done. by rewrite drop_app_length' by (by rewrite length_replicate). Qed.

Definition demo_labels : list label :=
  [LFeed 0; LFeed 1; LFetch 1 demo_job1 (Ok demo_raw1); LSend 1; LWriteDone; LFetch 0 demo_job0 (Ok demo_raw0); LSend 0;
   LWrite 0 None; LWrite 0 None; LWriteDone; LWritten 1; LWritten 0; LFeedEnd; LWorkerEnd 0; LWorkerEnd 1; LGroupDone].

Lemma demo_labels_honest : Forall (honest_label demo_big) demo_labels.
Proof.
  repeat (apply Forall_cons; split; [try exact I|]); [..|by apply Forall_nil].
  - change (demo_raw1 `prefix_of` drop (Z.to_nat (demo_pad + 1024)) demo_big). unfold demo_big. rewrite drop_pad by done. by exists [].
  - change (demo_raw0 `prefix_of` drop (Z.to_nat (demo_pad + 0)) demo_big). unfold demo_big. rewrite drop_pad by done. apply prefix_take.
Qed.
Lemma demo_start : streamTelegramMediaParallel 2 1048572 1048579 = Some (inr ([demo_job0; demo_job1], init [demo_job0; demo_job1] 2)).
Proof. vm_compute. reflexivity. Qed.
Lemma demo_end : ∃ y, steps (step [demo_job0; demo_job1]) demo_labels (init [demo_job0; demo_job1] 2) = Some y ∧ ps_caller y = Returned None.
Proof. eexists. split; vm_compute; reflexivity. Qed.

Lemma parallel_stream_witness :
  ∃ y, steps (step [demo_job0; demo_job1]) demo_labels (init [demo_job0; demo_job1] 2) = Some y ∧ ps_out y = file_slice demo_big 1048572 8.
Proof.
  destruct demo_end as (y & Hs & Hc). exists y. split; [exact Hs|].
  refine (proj1 (proj2 (parallel_stream demo_big 2 1048572 1048579 _ _ _ y _ _ _ demo_start demo_labels_honest Hs)) Hc); [|lia..].
  split; [lia|]. by vm_compute.
Defined.
