(* ===== verification/Delivery.v ===== *)
(** * Delivered bytes of a link (app/http/delivery_status.go)

    What the HTTP server has sent of a link's file is kept in the link's
    record as a list of ranges; a request adds the ranges it sent, and the link
    is complete when their union is the file. *)

From S2P Require Import Prelude Strings Storage TaskTypes Taskhub.
Local Open Scope list_scope.

Definition httpDeliveryField : string := "http_delivery".

Record persistentHTTPDeliveryRange := mkSpan { sp_Start : Z; sp_End : Z }.
#[export] Instance span_eq : EqDecision persistentHTTPDeliveryRange.
Proof. solve_decision. Defined.
Abbreviation span := persistentHTTPDeliveryRange.

Record persistentHTTPDelivery := mkDelivery { hd_FileSize : Z; hd_Ranges : list span; hd_CompletedAt : Z }.
Definition no_delivery : persistentHTTPDelivery := mkDelivery 0 [] 0.

(** ** JSON *)

Definition span_fields (r : span) : list (string * option json) :=
  [("start", Some (JNum (sp_Start r))); ("end", Some (JNum (sp_End r)))].
Definition encode_span (r : span) : json := JObj (fields (span_fields r)).
Definition decode_span (j : json) : option span :=
  match j with
  | JNull => Some (mkSpan 0 0)
  | JObj m => s ← as_int64 (m !! "start"); e ← as_int64 (m !! "end"); Some (mkSpan s e)
  | _ => None
  end.

(** [omitempty] drops an empty slice but not a zero time. *)
Definition delivery_fields (d : persistentHTTPDelivery) : list (string * option json) :=
  [("file_size", Some (JNum (hd_FileSize d)));
   ("ranges", match hd_Ranges d with [] => None | l => Some (JArr (map encode_span l)) end);
   ("completed_at", Some (JTime (hd_CompletedAt d)))].
Definition encode_delivery (d : persistentHTTPDelivery) : json := JObj (fields (delivery_fields d)).
Definition decode_delivery (j : json) : option persistentHTTPDelivery :=
  match j with
  | JNull => Some no_delivery
  | JObj m =>
      size ← as_int64 (m !! "file_size");
      ranges ← get_with [] (λ j, match j with JArr l => mapM decode_span l | _ => None end) (m !! "ranges");
      done ← as_time (m !! "completed_at");
      Some (mkDelivery size ranges done)
  | _ => None
  end.
Definition delivery_of (raw : gmap string json) : option persistentHTTPDelivery :=
  match raw !! httpDeliveryField with None => Some no_delivery | Some j => decode_delivery j end.

(** ** Merging *)

Definition clip (fileSize : Z) (r : span) : option span :=
  let s := if sp_Start r <? 0 then 0 else sp_Start r in
  let e := if fileSize <=? sp_End r then fileSize - 1 else sp_End r in
  if (e <? s) || (fileSize <=? s) then None else Some (mkSpan s e).

Definition span_le (a b : span) : bool :=
  if sp_Start a =? sp_Start b then sp_End a <=? sp_End b else sp_Start a <? sp_Start b.

(** The merged spans so far, the last one first. *)
Definition merge_step (merged : list span) (next : span) : list span :=
  match merged with
  | current :: rest =>
      if (sp_Start next <=? sp_End current) || (sp_Start next =? wrap64 (sp_End current + 1))
      then (if sp_End current <? sp_End next then mkSpan (sp_Start current) (sp_End next) else current) :: rest
      else next :: merged
  | [] => [next]
  end.

Definition mergeHTTPDeliveryRanges (ranges : list span) (fileSize : Z) : list span :=
  if (fileSize <=? 0) || is_nil ranges then [] else
  rev (foldl merge_step [] (sort_by span_le (omap (clip fileSize) ranges))).

(** ** Recording and reading *)

Record DownloadTaskHTTPStatus := mkStatus {
  st_Completed : bool; st_CompletedAt : Z; st_DeliveredBytes : Z; st_FileSize : Z }.

Definition ParseDownloadTaskHTTPStatus (data : value) : res err DownloadTaskHTTPStatus :=
  raw ← as_object data;
  match delivery_of raw with
  | None => Err (ErrMsg "decode HTTP delivery status")
  | Some d =>
      let completed := negb (time_is_zero (hd_CompletedAt d)) in
      let bytes := if completed then hd_FileSize d
                   else foldl (λ n r, wrap64 (n + wrap64 (wrap64 (sp_End r - sp_Start r) + 1))) 0
                          (mergeHTTPDeliveryRanges (hd_Ranges d) (hd_FileSize d)) in
      Ok (mkStatus completed (hd_CompletedAt d) bytes (hd_FileSize d))
  end.

(** The callback of [recordHTTPDelivery]: whether the file is complete, and
    the record and its stamp. *)
Definition record_delivery (fileSize : Z) (ranges : list span) (completedAt : Z) (data : value) (stamp : Z)
    : res err (bool * (option value * Z)) :=
  raw ← as_object data;
  match delivery_of raw with
  | None => Err (ErrMsg "decode persisted HTTP delivery")
  | Some d =>
      let d := if negb (hd_FileSize d =? fileSize) && (negb (is_nil (hd_Ranges d)) || negb (time_is_zero (hd_CompletedAt d)))
               then no_delivery else d in
      if negb (time_is_zero (hd_CompletedAt d)) then Ok (false, (Some data, stamp)) else
      let merged := mergeHTTPDeliveryRanges (hd_Ranges d ++ ranges) fileSize in
      let complete := (fileSize =? 0) || bool_decide (merged = [mkSpan 0 (fileSize - 1)]) in
      let d := if complete then mkDelivery fileSize [] completedAt else mkDelivery fileSize merged 0 in
      let raw := if complete then <["downloaded" := JBool true]> raw else raw in
      Ok (complete, (Some (VJson (JObj (<[httpDeliveryField := encode_delivery d]> raw))), stamp))
  end.

Definition recordHTTPDelivery (kv : bool) (now : Z) (id : string) (fileSize : Z) (ranges : list span) (completedAt : Z) : op bool :=
  if negb kv then λ _ s, (Ok false, s)
  else if fileSize <? 0 then λ _ s, (Err (ErrMsg "invalid HTTP delivery file size"), s)
  else Mutate Links id (record_delivery fileSize ranges (if time_is_zero completedAt then now else completedAt)).
