(* ===== verification/DeliveryProps.v ===== *)
(** * What is recorded as delivered

    Lemmas and the theorem about Delivery: merging keeps the union of the
    ranges, apart from each other, and a sequence of requests records exactly
    the bytes that one of them sent. *)

From S2P Require Import Prelude Strings Storage TaskTypes Taskhub CollectionSpec MutationSpec Delivery.
Local Open Scope list_scope.

(** ** Merging *)

Definition covers (r : span) (b : Z) : Prop := sp_Start r <= b <= sp_End r.
#[export] Instance covers_dec r b : Decision (covers r b).
Proof. unfold covers. apply _. Defined.
Definition covered (l : list span) (b : Z) : Prop := Exists (λ r, covers r b) l.

Lemma covered_app l k b : covered (l ++ k) b ↔ covered l b ∨ covered k b.
Proof. apply Exists_app. Qed.
Lemma covered_perm l k b : l ≡ₚ k → covered l b ↔ covered k b.
Proof. intros H. unfold covered. by rewrite H. Qed.

Section merge.
Context (size : Z) (Hsize : 0 < size <= max_int64).

Definition valid_span (r : span) : Prop := 0 <= sp_Start r <= sp_End r ∧ sp_End r < size.

Lemma clip_spec r : match clip size r with
                    | Some r' => valid_span r' ∧ ∀ b, covers r' b ↔ covers r b ∧ 0 <= b < size
                    | None => ∀ b, covers r b → ¬ (0 <= b < size)
                    end.
Proof.
  unfold clip. replace (if sp_Start r <? 0 then 0 else sp_Start r) with (Z.max 0 (sp_Start r)) by (destruct (Z.ltb_spec (sp_Start r) 0); lia).
  replace (if size <=? sp_End r then size - 1 else sp_End r) with (Z.min (size - 1) (sp_End r)) by (destruct (Z.leb_spec size (sp_End r)); lia).
  destruct (Z.ltb_spec (Z.min (size - 1) (sp_End r)) (Z.max 0 (sp_Start r))), (Z.leb_spec size (Z.max 0 (sp_Start r))); cbn [orb];
    unfold valid_span, covers; cbn; try (intros b; lia). split; [lia|]. intros b. lia.
Qed.

Lemma clipped_spec l : let c := omap (clip size) l in Forall valid_span c ∧ ∀ b, covered c b ↔ covered l b ∧ 0 <= b < size.
Proof.
  induction l as [|r l [IH1 IH2]]; cbn.
  { split; [constructor|]. intros b. unfold covered. rewrite Exists_nil. tauto. }
  pose proof (clip_spec r) as Hr. destruct (clip size r) as [r'|].
  - destruct Hr as [Hv Hc]. split; [by constructor|]. intros b. unfold covered in *. rewrite !Exists_cons, IH2, Hc. tauto.
  - split; [done|]. intros b. rewrite IH2. unfold covered. rewrite Exists_cons. specialize (Hr b). tauto.
Qed.

(** Spans with a gap between each two, the last one first. *)
Fixpoint apart (l : list span) : Prop :=
  match l with [] => True | r :: l => Forall (λ r', sp_End r' + 1 < sp_Start r) l ∧ apart l end.

Lemma merge_step_spec acc next :
  Forall valid_span acc → apart acc → valid_span next → (∀ cur, head acc = Some cur → sp_Start cur <= sp_Start next) →
  let acc' := merge_step acc next in
  Forall valid_span acc' ∧ apart acc' ∧ (∀ b, covered acc' b ↔ covered acc b ∨ covers next b)
  ∧ ∃ cur, head acc' = Some cur ∧ sp_Start cur <= sp_Start next.
Proof.
  intros Hv Ha Hn Hh. cbv zeta. unfold merge_step. destruct acc as [|cur rest].
  { split_and!; [by apply Forall_singleton|done| |by exists next]. intros b. unfold covered. rewrite Exists_cons, Exists_nil. tauto. }
  specialize (Hh cur eq_refl). apply Forall_cons in Hv as [Hc Hv]. destruct Ha as [Hf Ha]. unfold valid_span in Hc, Hn.
  rewrite wrap64_id by (unfold min_int64; lia).
  destruct (Z.leb_spec (sp_Start next) (sp_End cur)) as [H1|H1]; cbn [orb]; [|destruct (Z.eqb_spec (sp_Start next) (sp_End cur + 1)) as [H2|H2]].
  1,2: destruct (Z.ltb_spec (sp_End cur) (sp_End next)) as [H3|H3]; split_and!;
    [constructor; [unfold valid_span; cbn; lia|done]|done|intros b; unfold covered; rewrite !Exists_cons; unfold covers; cbn|by eexists
    |by constructor|done|intros b; unfold covered; rewrite !Exists_cons; unfold covers|by eexists].
  1-4: generalize (Exists (λ r, sp_Start r <= b <= sp_End r) rest); intros P; (split; [intros [?|?]; [|by auto]|intros [[?|?]|?]; [left; lia|by auto|left; lia]]); try (left; lia).
  1-2: destruct (Z.le_gt_cases b (sp_End cur)); [left; left; lia|right; lia].
  split_and!.
  - constructor; [unfold valid_span; lia|by constructor].
  - split; [|done]. constructor; [lia|]. eapply Forall_impl; [exact Hf|]. cbn. intros r Hr. lia.
  - intros b. unfold covered. rewrite !Exists_cons. tauto.
  - by exists next.
Qed.

Lemma fold_merge_spec l acc :
  StronglySorted (λ a b, span_le a b = true) l → Forall valid_span l → Forall valid_span acc → apart acc →
  (∀ cur, head acc = Some cur → Forall (λ r, sp_Start cur <= sp_Start r) l) →
  let acc' := foldl merge_step acc l in
  Forall valid_span acc' ∧ apart acc' ∧ ∀ b, covered acc' b ↔ covered acc b ∨ covered l b.
Proof.
  intros Hs. revert acc. induction Hs as [|r l Hs IH Hr]; intros acc Hl Hv Ha Hh; cbv zeta; cbn [foldl].
  { split_and!; [done..|]. intros b. unfold covered at 3. rewrite Exists_nil. tauto. }
  apply Forall_cons in Hl as [Hvr Hl].
  destruct (merge_step_spec acc r Hv Ha Hvr) as (Hv' & Ha' & Hc' & cur & Hcur & Hle).
  { intros cur Hcur. specialize (Hh cur Hcur). by apply Forall_cons in Hh as [? _]. }
  destruct (IH (merge_step acc r) Hl Hv' Ha') as (H1 & H2 & H3).
  { intros cur' Hcur'. rewrite Hcur in Hcur'. injection Hcur' as <-. eapply Forall_impl; [exact Hr|]. cbn. intros x Hx.
    unfold span_le in Hx. destruct (Z.eqb_spec (sp_Start r) (sp_Start x)); [lia|]. apply Z.ltb_lt in Hx. lia. }
  split_and!; [done..|]. intros b. rewrite H3, Hc'. unfold covered. rewrite !Exists_cons. tauto.
Qed.

(** The merged ranges, the last one first. *)
Lemma merge_spec l :
  ∃ acc, mergeHTTPDeliveryRanges l size = rev acc ∧ Forall valid_span acc ∧ apart acc
  ∧ ∀ b, covered acc b ↔ covered l b ∧ 0 <= b < size.
Proof.
  unfold mergeHTTPDeliveryRanges. rewrite (proj2 (Z.leb_gt _ _)) by lia. cbn [orb]. destruct l as [|r l'] eqn:Hl; cbn [is_nil].
  { exists []. split_and!; [done|constructor|done|]. intros b. unfold covered. rewrite !Exists_nil. tauto. }
  rewrite <- Hl. clear Hl r l'. destruct (clipped_spec l) as [Hv Hc]. cbv zeta in *.
  set (c := omap (clip size) l) in *. pose proof (sort_by_perm span_le c) as Hp.
  destruct (fold_merge_spec (sort_by span_le c) []) as (H1 & H2 & H3); [| |constructor|done|done|].
  - apply sort_by_sorted; unfold span_le; intros x y.
    + destruct (Z.eqb_spec (sp_Start x) (sp_Start y)), (Z.eqb_spec (sp_Start y) (sp_Start x)); lia.
    + intros z. destruct (Z.eqb_spec (sp_Start x) (sp_Start y)), (Z.eqb_spec (sp_Start y) (sp_Start z)), (Z.eqb_spec (sp_Start x) (sp_Start z)); lia.
  - by rewrite Hp.
  - eexists. split; [done|]. split_and!; [done..|]. intros b. rewrite H3, (covered_perm _ _ b Hp), Hc. unfold covered at 1. rewrite Exists_nil. tauto.
Qed.

(** How many bytes of the file satisfy a predicate. *)
Definition count (P : Z → Prop) `{∀ b, Decision (P b)} : Z := Z.of_nat (length (filter P (seqZ 0 size))).

Definition span_bytes (r : span) : list Z := seqZ (sp_Start r) (sp_End r - sp_Start r + 1).

Lemma apart_bytes acc :
  Forall valid_span acc → apart acc →
  NoDup (concat (map span_bytes acc)) ∧ ∀ b, b ∈ concat (map span_bytes acc) ↔ covered acc b.
Proof.
  induction acc as [|r acc IH]; intros Hv Ha; cbn.
  { split; [constructor|]. intros b. unfold covered. rewrite Exists_nil, elem_of_nil. done. }
  apply Forall_cons in Hv as [Hr Hv]. destruct Ha as [Hf Ha]. destruct (IH Hv Ha) as [Hd He].
  assert (Hb : ∀ b, b ∈ span_bytes r ↔ covers r b) by (intros b; unfold span_bytes, covers; rewrite elem_of_seqZ; lia). split.
  - apply NoDup_app. split_and!; [apply NoDup_seqZ| |done]. intros b H1 H2. apply Hb in H1. apply He in H2.
    apply Exists_exists in H2 as (r' & Hin & Hc). rewrite Forall_forall in Hf. specialize (Hf r' Hin). unfold covers in *. lia.
  - intros b. rewrite elem_of_app, Hb, He. unfold covered. by rewrite Exists_cons.
Qed.

Definition total (l : list span) : Z := foldr (λ r n, sp_End r - sp_Start r + 1 + n) 0 l.

Lemma total_cons r l : total (r :: l) = sp_End r - sp_Start r + 1 + total l.
Proof. done. Qed.

Lemma apart_total acc (P : Z → Prop) `{∀ b, Decision (P b)} :
  Forall valid_span acc → apart acc → (∀ b, covered acc b ↔ P b ∧ 0 <= b < size) → count P = total acc ∧ 0 <= count P <= size.
Proof.
  intros Hv Ha Hc. destruct (apart_bytes acc Hv Ha) as [Hd He].
  assert (Hp : filter P (seqZ 0 size) ≡ₚ concat (map span_bytes acc)).
  { apply NoDup_Permutation; [apply NoDup_filter, NoDup_seqZ|done|]. intros b. rewrite list_elem_of_filter, He, Hc, elem_of_seqZ. intuition lia. }
  unfold count. split.
  - rewrite Hp. clear -Hv. induction Hv as [|r acc Hr Hv IH]; [done|]. rewrite total_cons. cbn [map concat]. rewrite length_app, Nat2Z.inj_add, IH.
    unfold span_bytes. rewrite length_seqZ. unfold valid_span in Hr. lia.
  - pose proof (length_filter P (seqZ 0 size)) as Hl. rewrite length_seqZ in Hl. lia.
Qed.

(** [DeliveredBytes]: the sum does not wrap around. *)
Lemma sum_bytes l n :
  Forall valid_span l → 0 <= n → n + total l <= max_int64 →
  foldl (λ n r, wrap64 (n + wrap64 (wrap64 (sp_End r - sp_Start r) + 1))) n l = n + total l.
Proof.
  intros Hv. revert n. induction Hv as [|r l Hr Hv IH]; intros n Hn Ht; [cbn; lia|]. rewrite total_cons in *. cbn [foldl]. unfold valid_span in Hr.
  assert (Hl : 0 <= total l) by (clear -Hv; induction Hv as [|x l Hx Hv IH]; [done|]; rewrite total_cons; unfold valid_span in Hx; lia).
  rewrite (wrap64_id (sp_End r - sp_Start r)), (wrap64_id (_ - _ + 1)), wrap64_id by (unfold min_int64; lia). rewrite IH by lia. lia.
Qed.
Lemma total_perm l k : l ≡ₚ k → total l = total k.
Proof. induction 1; rewrite ?total_cons; lia. Qed.

(** One span for the whole file. *)
Lemma whole acc :
  Forall valid_span acc → apart acc → (rev acc = [mkSpan 0 (size - 1)] ↔ ∀ b, 0 <= b < size → covered acc b).
Proof.
  intros Hv Ha. split.
  - intros H b Hb. apply (f_equal (@rev span)) in H. rewrite rev_involutive in H. rewrite H. apply Exists_cons. left. unfold covers. cbn. lia.
  - intros H. assert (Hz : acc = [mkSpan 0 (size - 1)]); [|by rewrite Hz]. destruct acc as [|r acc].
    { specialize (H 0 ltac:(lia)). unfold covered in H. by rewrite Exists_nil in H. }
    apply Forall_cons in Hv as [[Hr0 Hr] Hv]. destruct Ha as [Hf Ha].
    assert (Hlast : sp_End r = size - 1).
    { specialize (H (size - 1) ltac:(lia)). apply Exists_cons in H as [H|H]; [unfold covers in H; lia|].
      apply Exists_exists in H as (r' & Hin & Hc). rewrite Forall_forall in Hf. specialize (Hf r' Hin). unfold covers in Hc. lia. }
    destruct (decide (sp_Start r = 0)) as [H0|H0].
    + destruct acc as [|r' acc]; [destruct r; cbn in *; by subst|]. apply Forall_cons in Hf as [Hf _].
      apply Forall_cons in Hv as [[? ?] _]. lia.
    + exfalso. specialize (H (sp_Start r - 1) ltac:(lia)). apply Exists_cons in H as [H|H]; [unfold covers in H; lia|].
      apply Exists_exists in H as (r' & Hin & Hc). rewrite Forall_forall in Hf. specialize (Hf r' Hin). unfold covers in Hc. lia.
Qed.
End merge.

(** ** JSON *)

Lemma decode_encode_span r : in_int64 (sp_Start r) = true → in_int64 (sp_End r) = true → decode_span (encode_span r) = Some r.
Proof.
  intros Hs He. unfold encode_span, decode_span.
  assert (Hn : NoDup (span_fields r).*1) by distinct_fields. read_fields Hn. by destruct r.
Qed.

Lemma valid_in_int64 size r : size <= max_int64 → valid_span size r → in_int64 (sp_Start r) = true ∧ in_int64 (sp_End r) = true.
Proof. intros Hs [H1 H2]. unfold in_int64, min_int64, max_int64 in *. rewrite !andb_true_iff, !Z.leb_le. lia. Qed.

Lemma delivery_of_encode raw d :
  in_int64 (hd_FileSize d) = true → Forall (valid_span (hd_FileSize d)) (hd_Ranges d) →
  delivery_of (<[httpDeliveryField := encode_delivery d]> raw) = Some d.
Proof.
  intros Hi Hv. unfold delivery_of. rewrite lookup_insert_eq. unfold encode_delivery, decode_delivery.
  assert (Hn : NoDup (delivery_fields d).*1) by distinct_fields.
  assert (Hr : get_with [] (λ j, match j with JArr l => mapM decode_span l | _ => None end)
    match hd_Ranges d with [] => None | l => Some (JArr (map encode_span l)) end = Some (hd_Ranges d)).
  { destruct (hd_Ranges d) as [|r l] eqn:Hl; [done|]. rewrite <- Hl in *. cbn [get_with]. apply mapM_fmap_Forall_Some.
    eapply Forall_impl; [exact Hv|]. intros x Hx. unfold in_int64 in Hi. apply andb_true_iff in Hi as [_ Hi%Z.leb_le].
    destruct (valid_in_int64 _ _ Hi Hx). by apply decode_encode_span. }
  rewrite !(fields_lookup _ _ Hn). cbn -[get_with as_int64 as_time map]. rewrite as_int64_num by done. cbn -[get_with as_time map].
  rewrite Hr. by destruct d.
Qed.

(** ** One request *)

Section record.
Context (size : Z) (Hsize : 0 <= size <= max_int64).

(** The record says that the bytes of the file that satisfy [P] were sent. *)
Definition recorded (P : Z → Prop) (raw : gmap string json) : Prop :=
  ∃ d, delivery_of raw = Some d ∧ hd_FileSize d = size
  ∧ (hd_CompletedAt d ≠ 0 ∧ (∀ b, 0 <= b < size → P b)
     ∨ hd_CompletedAt d = 0 ∧ 0 < size ∧ ¬ (∀ b, 0 <= b < size → P b)
       ∧ Forall (valid_span size) (hd_Ranges d) ∧ ∀ b, covered (hd_Ranges d) b ↔ P b ∧ 0 <= b < size).
Definition fresh_record (raw : gmap string json) : Prop := raw !! httpDeliveryField = None.

Definition finished (raw : gmap string json) : bool :=
  match delivery_of raw with Some d => negb (time_is_zero (hd_CompletedAt d)) | None => false end.

(** The fields a request never touches. *)
Definition same_rest (raw raw' : gmap string json) : Prop :=
  ∀ k, k ≠ httpDeliveryField → k ≠ "downloaded" → raw' !! k = raw !! k.

Lemma size_in_int64 : in_int64 size = true.
Proof. unfold in_int64, min_int64, max_int64 in *. rewrite andb_true_iff, !Z.leb_le. lia. Qed.

Lemma delivery_size0 P ranges : size = 0 → (∀ b, covered ranges b ↔ P b ∧ 0 <= b < size) → ∀ b, 0 <= b < size → P b.
Proof. intros -> _ b Hb. lia. Qed.

(** What is written when the file was not complete. *)
Lemma record_write P raw d rs at_ stamp :
  delivery_of raw = Some d → hd_CompletedAt d = 0 → at_ ≠ 0 →
  (hd_FileSize d = size ∨ hd_Ranges d = []) → (∀ b, 0 <= b < size → covered (hd_Ranges d) b ↔ P b) →
  ∃ c raw', record_delivery size rs at_ (VJson (JObj raw)) stamp = Ok (c, (Some (VJson (JObj raw')), stamp))
  ∧ recorded (λ b, P b ∨ covered rs b) raw' ∧ same_rest raw raw' ∧ finished raw' = c.
Proof.
  intros Hd Hc Hat Hsz Hcov. unfold record_delivery. cbn [as_object mbind res_bind]. rewrite Hd, Hc. cbn [time_is_zero Z.eqb negb].
  rewrite orb_false_r. replace (negb (hd_FileSize d =? size) && negb (is_nil (hd_Ranges d))) with false.
  2: { destruct Hsz as [->| ->]; [by rewrite Z.eqb_refl|by rewrite andb_false_r]. }
  rewrite Hc. cbn [time_is_zero Z.eqb negb]. set (m := mergeHTTPDeliveryRanges (hd_Ranges d ++ rs) size).
  assert (Hm : ∃ acc, m = rev acc ∧ Forall (valid_span size) acc ∧ apart acc ∧ ∀ b, covered acc b ↔ (P b ∨ covered rs b) ∧ 0 <= b < size).
  { destruct (Z.eq_dec size 0) as [H0|H0].
    - exists []. unfold m, mergeHTTPDeliveryRanges. rewrite H0. cbn. split_and!; [done|constructor|done|]. intros b. unfold covered. rewrite Exists_nil. lia.
    - destruct (merge_spec size ltac:(lia) (hd_Ranges d ++ rs)) as (acc & H1 & H2 & H3 & H4). exists acc. split_and!; [done..|].
      intros b. rewrite H4, covered_app. specialize (Hcov b). tauto. }
  destruct Hm as (acc & Hacc & Hv & Ha & Hb).
  assert (Hall : ((size =? 0) || bool_decide (m = [mkSpan 0 (size - 1)])) = true ↔ ∀ b, 0 <= b < size → P b ∨ covered rs b).
  { rewrite orb_true_iff, Z.eqb_eq, bool_decide_eq_true. split.
    - intros [H|H] b Hr; [lia|]. rewrite Hacc in H. apply Hb. by apply (proj1 (whole size ltac:(lia) acc Hv Ha) H).
    - intros H. destruct (Z.eq_dec size 0) as [|H0]; [by left|right]. rewrite Hacc. apply (proj2 (whole size ltac:(lia) acc Hv Ha)).
      intros b Hr. apply Hb. auto. }
  destruct ((size =? 0) || bool_decide (m = [mkSpan 0 (size - 1)])) eqn:Hcomp.
  - eexists _, _. split; [done|]. pose proof (delivery_of_encode (<["downloaded":=JBool true]> raw) (mkDelivery size [] at_) size_in_int64 ltac:(constructor)) as He.
    split_and!.
    + eexists. split; [exact He|]. split; [done|]. left. split; [done|]. by apply Hall.
    + intros k H1 H2. by rewrite !lookup_insert_ne.
    + unfold finished. rewrite He. cbn. unfold time_is_zero. destruct (Z.eqb_spec at_ 0); [done|done].
  - eexists _, _. split; [done|]. assert (Hvm : Forall (valid_span size) m) by (rewrite Hacc; by apply Forall_rev).
    pose proof (delivery_of_encode raw (mkDelivery size m 0) size_in_int64 Hvm) as He. split_and!.
    + eexists. split; [exact He|]. split; [done|]. right. split; [done|]. apply orb_false_iff in Hcomp as [H0 H1].
      split; [apply Z.eqb_neq in H0; lia|]. split; [by rewrite <- Hall|]. split; [done|]. intros b. cbn.
      rewrite Hacc, <- Hb. apply covered_perm. by rewrite <- Permutation_rev.
    + intros k H1 H2. by rewrite lookup_insert_ne.
    + unfold finished. by rewrite He.
Qed.

Lemma record_step P raw rs at_ stamp :
  (fresh_record raw ∧ (∀ b, ¬ P b)) ∨ recorded P raw → at_ ≠ 0 →
  ∃ c raw', record_delivery size rs at_ (VJson (JObj raw)) stamp = Ok (c, (Some (VJson (JObj raw')), stamp))
  ∧ recorded (λ b, P b ∨ covered rs b) raw' ∧ same_rest raw raw' ∧ finished raw' = finished raw || c ∧ (c = true → finished raw = false).
Proof.
  intros [[Hf HP]|(d & Hd & Hs & Hcase)] Hat.
  - assert (Hd : delivery_of raw = Some no_delivery) by (unfold delivery_of; by rewrite Hf).
    destruct (record_write P raw no_delivery rs at_ stamp Hd) as (c & raw' & H1 & H2 & H3 & H4); [done|done|by right| |].
    { intros b _. split; [intros H; by apply Exists_nil in H|intros H; by destruct (HP b)]. }
    exists c, raw'. assert (Hfin : finished raw = false) by (unfold finished; by rewrite Hd). by rewrite Hfin.
  - destruct Hcase as [[Hc Hall]|(Hc & H0 & Hn & Hv & Hcov)].
    + exists false, raw. unfold record_delivery. cbn [as_object mbind res_bind]. rewrite Hd, Hs, Z.eqb_refl. cbn [negb andb].
      unfold time_is_zero. destruct (Z.eqb_spec (hd_CompletedAt d) 0); [done|]. cbn [negb]. split_and!; [done| |done| |done].
      * exists d. split_and!; [done..|]. left. split; [done|]. intros b Hb. left. auto.
      * by rewrite orb_false_r.
    + destruct (record_write P raw d rs at_ stamp Hd Hc Hat (or_introl Hs)) as (c & raw' & H1 & H2 & H3 & H4).
      { intros b Hb. rewrite Hcov. tauto. }
      exists c, raw'. assert (Hfin : finished raw = false) by (unfold finished; by rewrite Hd, Hc). by rewrite Hfin.
Qed.

Lemma recorded_status P raw `{∀ b, Decision (P b)} :
  recorded P raw →
  ∃ st, ParseDownloadTaskHTTPStatus (VJson (JObj raw)) = Ok st ∧ st_FileSize st = size ∧ st_Completed st = finished raw
  ∧ (st_Completed st = true ↔ ∀ b, 0 <= b < size → P b) ∧ st_DeliveredBytes st = count size P.
Proof.
  intros (d & Hd & Hs & Hcase). unfold ParseDownloadTaskHTTPStatus, finished. cbn [as_object mbind res_bind]. rewrite Hd.
  eexists. split; [done|]. cbn [st_FileSize st_Completed st_DeliveredBytes]. split; [done|]. split; [done|]. unfold time_is_zero.
  destruct Hcase as [[Hc Hall]|(Hc & H0 & Hn & Hv & Hcov)].
  - destruct (Z.eqb_spec (hd_CompletedAt d) 0); [done|]. cbn [negb]. split; [done|]. rewrite Hs. unfold count.
    assert (Hp : filter P (seqZ 0 size) ≡ₚ seqZ 0 size).
    { apply NoDup_Permutation; [apply NoDup_filter, NoDup_seqZ|apply NoDup_seqZ|]. intros b. rewrite list_elem_of_filter, elem_of_seqZ. specialize (Hall b). intuition lia. }
    rewrite Hp, length_seqZ. lia.
  - rewrite Hc. cbn [Z.eqb negb]. split; [split; [discriminate|done]|]. rewrite Hs.
    destruct (merge_spec size ltac:(lia) (hd_Ranges d)) as (acc & -> & Hva & Ha & Hb).
    assert (Hb' : ∀ b, covered acc b ↔ P b ∧ 0 <= b < size) by (intros b; rewrite Hb, Hcov; tauto).
    destruct (apart_total size ltac:(lia) acc P Hva Ha Hb') as [-> Hle].
    assert (Ht : total (rev acc) = total acc) by (apply total_perm; by rewrite <- Permutation_rev).
    destruct (apart_total size ltac:(lia) acc P Hva Ha Hb') as [He _].
    rewrite (sum_bytes size ltac:(lia)), Ht; [lia|by apply Forall_rev|lia|lia].
Qed.
End record.

(** ** Any number of requests *)

Abbreviation requests := (list (list span * Z)).

(** The reports of the requests, one after the other, in the order in which
    their transactions run. *)
Fixpoint send_all (now : Z) (id : string) (size : Z) (reqs : requests) (s : store) : list (res err bool) * store :=
  match reqs with
  | [] => ([], s)
  | (ranges, at_) :: reqs =>
      let '(r, s) := recordHTTPDelivery true now id size ranges at_ false s in
      let '(rs, s) := send_all now id size reqs s in (r :: rs, s)
  end.
Definition sent (reqs : requests) : list span := concat reqs.*1.
Definition completions (rs : list (res err bool)) : nat := length (List.filter (λ r, match r with Ok b => b | Err _ => false end) rs).

Lemma send_all_spec now id size reqs s idx raw P :
  0 <= size <= max_int64 → now ≠ 0 → id ≠ "index" → index_of Links s = Ok idx → s !! key Links id = Some (VJson (JObj raw)) →
  (fresh_record raw ∧ (∀ b, ¬ P b)) ∨ recorded size P raw →
  let '(rs, s') := send_all now id size reqs s in
  Forall (λ r, is_ok r = true) rs
  ∧ ∃ raw', s' !! key Links id = Some (VJson (JObj raw')) ∧ same_rest raw raw'
  ∧ (reqs ≠ [] ∨ recorded size P raw → recorded size (λ b, P b ∨ covered (sent reqs) b) raw')
  ∧ (completions rs + (if finished raw then 1 else 0) = if finished raw' then 1 else 0)%nat.
Proof.
  intros Hsize Hnow Hid. revert s idx raw P. induction reqs as [|[ranges at_] reqs IH]; intros s idx raw P Hi Hs Hraw; cbn [send_all].
  { split; [constructor|]. exists raw. split_and!; [done|done| |done]. intros [|(d & Hd & Hsz & H)]; [done|]. exists d. split_and!; [done..|].
    destruct H as [[H1 H2]|(H1 & H2 & H3 & H4 & H5)]; [left; split; [done|]; auto|right]. split_and!; [done..| |done|].
    - intros H. apply H3. intros b Hb. destruct (H b Hb) as [|H']; [done|]. by apply Exists_nil in H'.
    - intros b. rewrite H5. unfold covered, sent. cbn. rewrite Exists_nil. tauto. }
  unfold recordHTTPDelivery. cbn [negb]. rewrite (proj2 (Z.ltb_ge _ _)) by lia.
  set (at' := if time_is_zero at_ then now else at_).
  assert (Hat : at' ≠ 0) by (unfold at', time_is_zero; destruct (Z.eqb_spec at_ 0); done).
  destruct (record_step size Hsize P raw ranges at' (default 0 (idx !! id)) Hraw Hat) as (c & raw1 & Hrec & Hr1 & Hsame & Hfin & Hc).
  destruct (Mutate_ok Links Links_wf id _ s idx _ _ _ _ Hi (links_no_clash id Hid) Hs Hrec eq_refl) as (s1 & -> & Hs1 & Hi1 & _).
  specialize (IH s1 _ raw1 (λ b, P b ∨ covered ranges b) Hi1 Hs1 (or_intror Hr1)).
  destruct (send_all now id size reqs s1) as [rs s']. destruct IH as (Hok & raw' & Hs' & Hsame' & Hrec' & Hcount).
  split; [by constructor|]. exists raw'. split_and!; [done| | |].
  - intros k H1 H2. rewrite Hsame', Hsame; done.
  - intros _. destruct (Hrec' (or_intror Hr1)) as (d & Hd & Hsz & H). exists d. split_and!; [done..|].
    assert (Heq : ∀ b, (P b ∨ covered ranges b) ∨ covered (sent reqs) b ↔ P b ∨ covered (sent ((ranges, at_) :: reqs)) b).
    { intros b. unfold sent. cbn. rewrite covered_app. tauto. }
    destruct H as [[H1 H2]|(H1 & H2 & H3 & H4 & H5)]; [left; split; [done|]; intros b Hb; apply Heq; auto|right].
    split_and!; [done..| |done|]; [intros H; apply H3; intros b Hb; apply Heq; auto|]. intros b. by rewrite H5, Heq.
  - unfold completions in *. cbn [List.filter]. rewrite Hfin in Hcount. destruct c; [|by rewrite orb_false_r in Hcount].
    rewrite (Hc eq_refl) in *. cbn [length orb] in *. lia.
Qed.

(** C18: whatever requests report having sent of a link's file, in whatever
    order, none of them is lost: the record tells the number of distinct bytes
    of the file that some request sent, says complete exactly when every byte
    was sent, reports the completion to one request and no other, and leaves
    every other field but [downloaded] as it was. *)
Theorem delivery_exact now id size reqs s idx raw :
  0 <= size <= max_int64 → now ≠ 0 → id ≠ "index" → index_of Links s = Ok idx →
  s !! key Links id = Some (VJson (JObj raw)) → fresh_record raw → reqs ≠ [] →
  let '(rs, s') := send_all now id size reqs s in
  Forall (λ r, is_ok r = true) rs
  ∧ ∃ raw' st, s' !! key Links id = Some (VJson (JObj raw')) ∧ ParseDownloadTaskHTTPStatus (VJson (JObj raw')) = Ok st
  ∧ st_FileSize st = size
  ∧ (st_Completed st = true ↔ ∀ b, 0 <= b < size → covered (sent reqs) b)
  ∧ st_DeliveredBytes st = count size (covered (sent reqs))
  ∧ completions rs = (if st_Completed st then 1 else 0)%nat
  ∧ same_rest raw raw'.
Proof.
  intros Hsize Hnow Hid Hi Hs Hf Hne.
  pose proof (send_all_spec now id size reqs s idx raw (λ _, False) Hsize Hnow Hid Hi Hs (or_introl (conj Hf (λ _ H, H)))) as H.
  destruct (send_all now id size reqs s) as [rs s']. destruct H as (Hok & raw' & Hs' & Hsame & Hrec & Hcount).
  specialize (Hrec (or_introl Hne)).
  assert (Hrec' : recorded size (covered (sent reqs)) raw').
  { destruct Hrec as (d & Hd & Hsz & H). exists d. split_and!; [done..|].
    destruct H as [[H1 H2]|(H1 & H2 & H3 & H4 & H5)]; [left; split; [done|]; intros b Hb; by destruct (H2 b Hb)|right].
    split_and!; [done..| |done|]; [intros H; apply H3; auto|]. intros b. rewrite H5. tauto. }
  destruct (recorded_status size Hsize _ raw' Hrec') as (st & Hp & Hsz & Hfin & Hc & Hb).
  split; [done|]. exists raw', st. split_and!; try done. rewrite Hfin.
  assert (Hff : finished raw = false) by (unfold finished, delivery_of; by rewrite Hf). rewrite Hff in Hcount. lia.
Qed.

Definition demo_raw : gmap string json := {["id" := JStr "document_7"; "last_active_at" := JTime 5]}.
Definition demo_store : store := {[key Links "document_7" := VJson (JObj demo_raw); "watch.download.index" := VJson (JObj {["document_7" := JTime 5]})]}.
Definition demo_requests : requests := [([mkSpan 4 9; mkSpan 8 12], 0); ([mkSpan 0 3], 77); ([mkSpan 2 5], 78)].

Lemma delivery_exact_witness :
  let '(rs, s') := send_all 50 "document_7" 10 demo_requests demo_store in rs = [Ok false; Ok true; Ok false] ∧ completions rs = 1%nat.
Proof.
  assert (Hi : index_of Links demo_store = Ok {["document_7" := 5]}) by (vm_compute; reflexivity).
  assert (Hs : demo_store !! key Links "document_7" = Some (VJson (JObj demo_raw))) by (vm_compute; reflexivity).
  pose proof (delivery_exact 50 "document_7" 10 demo_requests demo_store _ demo_raw ltac:(vm_compute; split; discriminate) ltac:(done) ltac:(done) Hi Hs
    ltac:(vm_compute; reflexivity) ltac:(done)) as H.
  assert (Hr : (send_all 50 "document_7" 10 demo_requests demo_store).1 = [Ok false; Ok true; Ok false]) by (vm_compute; reflexivity).
  destruct (send_all 50 "document_7" 10 demo_requests demo_store) as [rs s']. cbn [fst] in Hr. subst rs. split; [reflexivity|].
  destruct H as (_ & raw' & st & _ & _ & _ & Hc & _ & Hn & _). rewrite Hn.
  rewrite (proj2 Hc); [reflexivity|]. intros b Hb. unfold covered, sent. cbn. rewrite !Exists_cons. unfold covers. cbn. lia.
Defined.
