(* ===== verification/Base64.v ===== *)
(** * Base64 (Go's [base64.StdEncoding], as [encoding/json] writes [[]byte])

    Encoding by groups of three bytes, decoding by groups of four characters,
    and the round trip. *)

From Stdlib Require Import Ascii.
From S2P Require Import Prelude Strings.

Definition ascii_of (z : Z) : ascii := ascii_of_N (Z.to_N z).
Lemma ascii_of_byte a : ascii_of (byte a) = a.
Proof. unfold ascii_of, byte. by rewrite N2Z.id, ascii_N_embedding. Qed.
Lemma byte_range a : 0 ≤ byte a < 256.
Proof. unfold byte. pose proof (N_ascii_bounded a). lia. Qed.

Definition digit64 (k : Z) : ascii :=
  ascii_of (if k <? 26 then 65 + k else if k <? 52 then 71 + k else if k <? 62 then k - 4 else if k =? 62 then 43 else 47).
Definition value64 (a : ascii) : option Z :=
  let z := byte a in
  if (65 <=? z) && (z <=? 90) then Some (z - 65)
  else if (97 <=? z) && (z <=? 122) then Some (z - 71)
  else if (48 <=? z) && (z <=? 57) then Some (z + 4)
  else if z =? 43 then Some 62 else if z =? 47 then Some 63 else None.

Lemma value_digit k : 0 ≤ k < 64 → value64 (digit64 k) = Some k.
Proof.
  intros Hk. assert (H : forallb (λ n, bool_decide (value64 (digit64 (Z.of_nat n)) = Some (Z.of_nat n))) (seq 0 64) = true) by (vm_compute; reflexivity).
  rewrite forallb_forall in H. specialize (H (Z.to_nat k) ltac:(apply in_seq; lia)). apply bool_decide_eq_true in H.
  by rewrite Z2Nat.id in H by lia.
Qed.

Definition pad : ascii := "="%char.
Lemma digit_not_pad k : 0 ≤ k < 64 → Ascii.eqb (digit64 k) pad = false.
Proof. intros Hk. destruct (Ascii.eqb_spec (digit64 k) pad) as [E|]; [|done]. pose proof (value_digit k Hk) as H. rewrite E in H. discriminate H. Qed.

Fixpoint EncodeToString (s : string) : string :=
  match s with
  | EmptyString => ""
  | String a EmptyString =>
      let n := byte a * 65536 in
      String (digit64 (n / 262144)) (String (digit64 ((n / 4096) `mod` 64)) (String pad (String pad EmptyString)))
  | String a (String b EmptyString) =>
      let n := byte a * 65536 + byte b * 256 in
      String (digit64 (n / 262144)) (String (digit64 ((n / 4096) `mod` 64)) (String (digit64 ((n / 64) `mod` 64)) (String pad EmptyString)))
  | String a (String b (String c s)) =>
      let n := byte a * 65536 + byte b * 256 + byte c in
      String (digit64 (n / 262144)) (String (digit64 ((n / 4096) `mod` 64)) (String (digit64 ((n / 64) `mod` 64)) (String (digit64 (n `mod` 64)) (EncodeToString s))))
  end.

(** Line breaks in the text are skipped. *)
Fixpoint no_breaks (s : string) : string :=
  match s with
  | EmptyString => ""
  | String a s => if (byte a =? 10) || (byte a =? 13) then no_breaks s else String a (no_breaks s)
  end.

Fixpoint decode_quads (s : string) : option string :=
  match s with
  | EmptyString => Some ""
  | String w (String x (String y (String z s))) =>
      i ← value64 w; j ← value64 x;
      if Ascii.eqb z pad then
        match s with
        | EmptyString =>
            if Ascii.eqb y pad then
              let n := i * 262144 + j * 4096 in Some (String (ascii_of (n / 65536)) "")
            else k ← value64 y;
              let n := i * 262144 + j * 4096 + k * 64 in
              Some (String (ascii_of (n / 65536)) (String (ascii_of ((n / 256) `mod` 256)) ""))
        | _ => None
        end
      else
        k ← value64 y; l ← value64 z;
        let n := i * 262144 + j * 4096 + k * 64 + l in
        rest ← decode_quads s;
        Some (String (ascii_of (n / 65536)) (String (ascii_of ((n / 256) `mod` 256)) (String (ascii_of (n `mod` 256)) rest)))
  | _ => None
  end.
Definition DecodeString (s : string) : option string := decode_quads (no_breaks s).

Lemma digits_recombine n : n / 262144 * 262144 + (n / 4096) `mod` 64 * 4096 + (n / 64) `mod` 64 * 64 + n `mod` 64 = n.
Proof.
  replace (n / 262144) with (n / 64 / 64 / 64) by (by rewrite !Z.div_div). replace (n / 4096) with (n / 64 / 64) by (by rewrite Z.div_div).
  pose proof (Z.div_mod n 64 ltac:(done)). pose proof (Z.div_mod (n / 64) 64 ltac:(done)). pose proof (Z.div_mod (n / 64 / 64) 64 ltac:(done)). lia.
Qed.
Lemma digits_range n : 0 ≤ n < 2^24 → 0 ≤ n / 262144 < 64 ∧ 0 ≤ (n / 4096) `mod` 64 < 64 ∧ 0 ≤ (n / 64) `mod` 64 < 64 ∧ 0 ≤ n `mod` 64 < 64.
Proof.
  intros Hn. pose proof (Z.mod_pos_bound (n / 4096) 64 eq_refl). pose proof (Z.mod_pos_bound (n / 64) 64 eq_refl). pose proof (Z.mod_pos_bound n 64 eq_refl).
  split_and!; try lia; [apply Z.div_pos; lia|apply Z.div_lt_upper_bound; lia].
Qed.
Lemma bytes_recombine a b c :
  0 ≤ a < 256 → 0 ≤ b < 256 → 0 ≤ c < 256 →
  let n := a * 65536 + b * 256 + c in n / 65536 = a ∧ (n / 256) `mod` 256 = b ∧ n `mod` 256 = c ∧ 0 ≤ n < 2^24.
Proof.
  intros Ha Hb Hc n. assert (H1 : n / 65536 = a) by (symmetry; apply (Z.div_unique n 65536 a (b * 256 + c)); unfold n; lia).
  assert (H2 : n / 256 = a * 256 + b) by (symmetry; apply (Z.div_unique n 256 (a * 256 + b) c); unfold n; lia). rewrite H2.
  assert (H3 : (a * 256 + b) `mod` 256 = b) by (symmetry; apply (Z.mod_unique (a * 256 + b) 256 a b); lia).
  assert (H4 : n `mod` 256 = c) by (symmetry; apply (Z.mod_unique n 256 (a * 256 + b) c); unfold n; lia).
  split_and!; try done; unfold n; lia.
Qed.

(** Three at a time. *)
Lemma string_ind3 (P : string → Prop) :
  P "" → (∀ a, P (String a "")) → (∀ a b, P (String a (String b ""))) → (∀ a b c s, P s → P (String a (String b (String c s)))) → ∀ s, P s.
Proof.
  intros H0 H1 H2 H3. fix IH 1. intros [|a [|b [|c s]]]; [done|apply H1|apply H2|apply H3, IH].
Qed.

(** One group: its four digits are read back as its three bytes. *)
Lemma group_digits a b c :
  0 ≤ a < 256 → 0 ≤ b < 256 → 0 ≤ c < 256 →
  let n := a * 65536 + b * 256 + c in
  value64 (digit64 (n / 262144)) = Some (n / 262144) ∧ value64 (digit64 ((n / 4096) `mod` 64)) = Some ((n / 4096) `mod` 64)
  ∧ value64 (digit64 ((n / 64) `mod` 64)) = Some ((n / 64) `mod` 64) ∧ value64 (digit64 (n `mod` 64)) = Some (n `mod` 64)
  ∧ Ascii.eqb (digit64 ((n / 64) `mod` 64)) pad = false ∧ Ascii.eqb (digit64 (n `mod` 64)) pad = false.
Proof.
  intros Ha Hb Hc n. destruct (bytes_recombine a b c Ha Hb Hc) as (_ & _ & _ & Hn). destruct (digits_range n Hn) as (R1 & R2 & R3 & R4).
  split_and!; by (apply value_digit || apply digit_not_pad).
Qed.

Lemma decode_encode_quads s : decode_quads (EncodeToString s) = Some s.
Proof.
  induction s as [|a|a b|a b c s IH] using string_ind3; [done|..]; cbn [EncodeToString decode_quads].
  - pose proof (byte_range a) as Ha. replace (byte a * 65536) with (byte a * 65536 + 0 * 256 + 0) by lia.
    destruct (group_digits (byte a) 0 0 Ha) as (-> & -> & _); [lia..|].
    destruct (bytes_recombine (byte a) 0 0 Ha) as (H1 & _ & _ & _); [lia..|]. pose proof (digits_recombine (byte a * 65536 + 0 * 256 + 0)) as Hr.
    assert (H64 : (byte a * 65536 + 0 * 256 + 0) / 64 = byte a * 16 * 64) by (symmetry; apply (Z.div_unique _ 64 _ 0); lia).
    assert (H0 : (byte a * 65536 + 0 * 256 + 0) `mod` 64 = 0) by (symmetry; apply (Z.mod_unique _ 64 (byte a * 1024)); lia).
    rewrite H64, Z.mod_mul, H0 in Hr by done. cbn [mbind option_bind]. rewrite !Ascii.eqb_refl. do 2 f_equal.
    replace (_ * 262144 + _ * 4096) with (byte a * 65536 + 0 * 256 + 0) by lia. by rewrite H1, ascii_of_byte.
  - pose proof (byte_range a) as Ha. pose proof (byte_range b) as Hb.
    replace (byte a * 65536 + byte b * 256) with (byte a * 65536 + byte b * 256 + 0) by lia.
    destruct (group_digits (byte a) (byte b) 0 Ha Hb) as (-> & -> & -> & _ & -> & _); [lia..|].
    destruct (bytes_recombine (byte a) (byte b) 0 Ha Hb) as (H1 & H2 & _ & _); [lia..|]. pose proof (digits_recombine (byte a * 65536 + byte b * 256 + 0)) as Hr.
    assert (H0 : (byte a * 65536 + byte b * 256 + 0) `mod` 64 = 0) by (symmetry; apply (Z.mod_unique _ 64 (byte a * 1024 + byte b * 4)); lia).
    rewrite H0 in Hr. cbn [mbind option_bind]. rewrite Ascii.eqb_refl.
    replace (_ * 262144 + _ * 4096 + _ * 64) with (byte a * 65536 + byte b * 256 + 0) by lia. by rewrite H1, H2, !ascii_of_byte.
  - pose proof (byte_range a) as Ha. pose proof (byte_range b) as Hb. pose proof (byte_range c) as Hc.
    destruct (group_digits (byte a) (byte b) (byte c) Ha Hb Hc) as (-> & -> & -> & -> & _ & ->).
    destruct (bytes_recombine (byte a) (byte b) (byte c) Ha Hb Hc) as (H1 & H2 & H3 & _). pose proof (digits_recombine (byte a * 65536 + byte b * 256 + byte c)) as Hr.
    cbn [mbind option_bind]. rewrite IH. cbn [mbind option_bind]. rewrite Hr, H1, H2, H3. by rewrite !ascii_of_byte.
Qed.

(** No character of the encoding is a line break. *)
Lemma digit_no_break k : 0 ≤ k < 64 → (byte (digit64 k) =? 10) || (byte (digit64 k) =? 13) = false.
Proof.
  intros Hk. pose proof (value_digit k Hk) as H. unfold value64 in H. destruct (Z.eqb_spec (byte (digit64 k)) 10) as [E|]; [by rewrite E in H|].
  destruct (Z.eqb_spec (byte (digit64 k)) 13) as [E|]; [by rewrite E in H|done].
Qed.
Lemma no_breaks_encode s : no_breaks (EncodeToString s) = EncodeToString s.
Proof.
  induction s as [|a|a b|a b c s IH] using string_ind3; [done|..]; cbn [EncodeToString].
  - pose proof (byte_range a). destruct (bytes_recombine (byte a) 0 0) as (_ & _ & _ & Hn); [lia..|].
    replace (byte a * 65536 + 0 * 256 + 0) with (byte a * 65536) in Hn by lia.
    destruct (digits_range _ Hn) as (R1 & R2 & R3 & R4). cbn [no_breaks]. by rewrite !digit_no_break.
  - pose proof (byte_range a). pose proof (byte_range b). destruct (bytes_recombine (byte a) (byte b) 0) as (_ & _ & _ & Hn); [lia..|].
    rewrite Z.add_0_r in Hn. destruct (digits_range _ Hn) as (R1 & R2 & R3 & R4). cbn [no_breaks]. by rewrite !digit_no_break.
  - pose proof (byte_range a). pose proof (byte_range b). pose proof (byte_range c). destruct (bytes_recombine (byte a) (byte b) (byte c)) as (_ & _ & _ & Hn); [lia..|].
    destruct (digits_range _ Hn) as (R1 & R2 & R3 & R4). cbn [no_breaks]. rewrite !digit_no_break by done. by rewrite IH.
Qed.

Lemma base64_roundtrip s : DecodeString (EncodeToString s) = Some s.
Proof. unfold DecodeString. rewrite no_breaks_encode. apply decode_encode_quads. Qed.
