(* ===== verification/LinkStore.v ===== *)
(** * Links of the HTTP server (app/http/task_store.go, app/http/http.go, app/http/session.go)

    A download link is a record of the link collection: what the proxy needs to
    stream a file, and a sliding expiry clock.  Here are the records and their
    JSON, the store's operations, the refresh of a file reference, and the
    registry of the sources that concurrent requests share. *)

From Stdlib Require Import Ascii.
From S2P Require Import Prelude Strings Storage TaskTypes Taskhub TaskRepos Base64.
Local Open Scope list_scope.

Definition mediaKindDocument : string := "document".
Definition mediaKindPhoto : string := "photo".

(** ** Telegram's types, as far as a link keeps them

    A byte slice is [None] when it is nil. *)

Inductive InputFileLocation :=
  | InputDocumentFileLocation (ID AccessHash : Z) (FileReference : option string) (ThumbSize : string)
  | InputPhotoFileLocation (ID AccessHash : Z) (FileReference : option string) (ThumbSize : string)
  | OtherFileLocation (type : string).

Inductive InputPeer :=
  | InputPeerUser (UserID AccessHash : Z)
  | InputPeerChannel (ChannelID AccessHash : Z)
  | InputPeerChat (ChatID : Z)
  | OtherPeer (type : string).

(** [tmedia.Media] *)
Record Media := mkMedia {
  md_InputFileLoc : option InputFileLocation; md_Name : string; md_Size : Z; md_DC : Z; md_Date : Z }.

Record downloadTask := mkTask {
  dt_ID : string; dt_PeerID : Z; dt_MessageID : Z; dt_Peer : option InputPeer; dt_FileName : string; dt_FileSize : Z;
  dt_Media : option Media; dt_CreatedAt : Z; dt_LastActiveAt : Z }.
Definition with_last_active (t : downloadTask) (now : Z) : downloadTask :=
  mkTask (dt_ID t) (dt_PeerID t) (dt_MessageID t) (dt_Peer t) (dt_FileName t) (dt_FileSize t) (dt_Media t) (dt_CreatedAt t) now.

(** ** The persistent form *)

Record persistentMediaLocation := mkLoc { ml_Kind : string; ml_ID : Z; ml_AccessHash : Z; ml_FileReference : option string; ml_ThumbSize : string }.
Record persistentInputPeer := mkPeer { pp_Kind : string; pp_ID : Z; pp_AccessHash : Z }.
Record persistentDownloadMedia := mkPMedia { pm_Name : string; pm_Size : Z; pm_DC : Z; pm_Date : Z; pm_Location : persistentMediaLocation }.
Record persistentDownloadTask := mkPTask {
  pt_ID : string; pt_PeerID : Z; pt_MessageID : Z; pt_Peer : persistentInputPeer; pt_FileName : string; pt_FileSize : Z;
  pt_Media : persistentDownloadMedia; pt_CreatedAt : Z; pt_LastActiveAt : Z }.

Definition errEmptyMedia : err := ErrMsg "media location is empty".
Definition errNoActivity : err := ErrMsg "download link last_active_at is required".

Definition persistentMediaLocationFromMedia (m : option Media) : res err persistentMediaLocation :=
  match m ≫= md_InputFileLoc with
  | None => Err errEmptyMedia
  | Some (InputDocumentFileLocation id hash ref thumb) => Ok (mkLoc mediaKindDocument id hash ref thumb)
  | Some (InputPhotoFileLocation id hash ref thumb) => Ok (mkLoc mediaKindPhoto id hash ref thumb)
  | Some (OtherFileLocation _) => Err (ErrMsg "unsupported media location")
  end.
Definition ToInputFileLocation (p : persistentMediaLocation) : res err InputFileLocation :=
  if String.eqb (ml_Kind p) mediaKindDocument then Ok (InputDocumentFileLocation (ml_ID p) (ml_AccessHash p) (ml_FileReference p) (ml_ThumbSize p))
  else if String.eqb (ml_Kind p) mediaKindPhoto then Ok (InputPhotoFileLocation (ml_ID p) (ml_AccessHash p) (ml_FileReference p) (ml_ThumbSize p))
  else Err (ErrMsg "unsupported media location kind").

Definition persistentInputPeerFromPeer (p : option InputPeer) : res err persistentInputPeer :=
  match p with
  | None => Ok (mkPeer "" 0 0)
  | Some (InputPeerUser id hash) => Ok (mkPeer "user" id hash)
  | Some (InputPeerChannel id hash) => Ok (mkPeer "channel" id hash)
  | Some (InputPeerChat id) => Ok (mkPeer "chat" id 0)
  | Some (OtherPeer _) => Err (ErrMsg "unsupported input peer")
  end.
Definition ToInputPeer (p : persistentInputPeer) : res err (option InputPeer) :=
  if String.eqb (pp_Kind p) "" then Ok None
  else if String.eqb (pp_Kind p) "user" then Ok (Some (InputPeerUser (pp_ID p) (pp_AccessHash p)))
  else if String.eqb (pp_Kind p) "channel" then Ok (Some (InputPeerChannel (pp_ID p) (pp_AccessHash p)))
  else if String.eqb (pp_Kind p) "chat" then Ok (Some (InputPeerChat (pp_ID p)))
  else Err (ErrMsg "unsupported input peer kind").

Definition ToMedia (p : persistentDownloadMedia) : res err Media :=
  location ← ToInputFileLocation (pm_Location p);
  Ok (mkMedia (Some location) (pm_Name p) (pm_Size p) (pm_DC p) (pm_Date p)).

Definition persistentDownloadTaskFromTask (t : downloadTask) : res err persistentDownloadTask :=
  match dt_Media t with
  | None => Err (ErrMsg "download task media is empty")
  | Some m =>
      location ← persistentMediaLocationFromMedia (Some m);
      peer ← persistentInputPeerFromPeer (dt_Peer t);
      Ok (mkPTask (dt_ID t) (dt_PeerID t) (dt_MessageID t) peer (dt_FileName t) (dt_FileSize t)
            (mkPMedia (md_Name m) (md_Size m) (md_DC m) (md_Date m) location) (dt_CreatedAt t) (dt_LastActiveAt t))
  end.
Definition ToTask (p : persistentDownloadTask) : res err downloadTask :=
  if time_is_zero (pt_LastActiveAt p) then Err errNoActivity else
  media ← ToMedia (pt_Media p);
  peer ← ToInputPeer (pt_Peer p);
  Ok (mkTask (pt_ID p) (pt_PeerID p) (pt_MessageID p) peer (pt_FileName p) (pt_FileSize p) (Some media) (pt_CreatedAt p) (pt_LastActiveAt p)).

(** ** JSON *)

Definition as_bytes := get_with None (λ j, match j with JStr s => Some <$> DecodeString s | _ => None end).
Definition json_bytes (b : option string) : json := match b with None => JNull | Some s => JStr (EncodeToString s) end.
Definition as_struct (o : option json) : option (gmap string json) :=
  get_with ∅ (λ j, match j with JObj m => Some m | _ => None end) o.

Definition loc_fields (l : persistentMediaLocation) : list (string * option json) :=
  [("kind", Some (JStr (ml_Kind l))); ("id", Some (JNum (ml_ID l))); ("access_hash", Some (JNum (ml_AccessHash l)));
   ("file_reference", Some (json_bytes (ml_FileReference l))); ("thumb_size", omit_str (ml_ThumbSize l))].
Definition decode_loc (m : gmap string json) : option persistentMediaLocation :=
  kind ← as_str (m !! "kind"); id ← as_int64 (m !! "id"); hash ← as_int64 (m !! "access_hash");
  ref ← as_bytes (m !! "file_reference"); thumb ← as_str (m !! "thumb_size");
  Some (mkLoc kind id hash ref thumb).

Definition peer_fields (p : persistentInputPeer) : list (string * option json) :=
  [("kind", omit_str (pp_Kind p)); ("id", omit_num (pp_ID p)); ("access_hash", omit_num (pp_AccessHash p))].
Definition decode_peer (m : gmap string json) : option persistentInputPeer :=
  kind ← as_str (m !! "kind"); id ← as_int64 (m !! "id"); hash ← as_int64 (m !! "access_hash");
  Some (mkPeer kind id hash).

Definition media_fields (p : persistentDownloadMedia) : list (string * option json) :=
  [("name", Some (JStr (pm_Name p))); ("size", Some (JNum (pm_Size p))); ("dc", Some (JNum (pm_DC p))); ("date", Some (JNum (pm_Date p)));
   ("location", Some (JObj (fields (loc_fields (pm_Location p)))))].
Definition decode_media (m : gmap string json) : option persistentDownloadMedia :=
  name ← as_str (m !! "name"); size ← as_int64 (m !! "size"); dc ← as_int64 (m !! "dc"); date ← as_int64 (m !! "date");
  loc ← as_struct (m !! "location") ≫= decode_loc;
  Some (mkPMedia name size dc date loc).

Definition task_fields (p : persistentDownloadTask) : list (string * option json) :=
  [("id", Some (JStr (pt_ID p))); ("peer_id", Some (JNum (pt_PeerID p))); ("message_id", Some (JNum (pt_MessageID p)));
   ("peer", Some (JObj (fields (peer_fields (pt_Peer p))))); ("file_name", Some (JStr (pt_FileName p))); ("file_size", Some (JNum (pt_FileSize p)));
   ("media", Some (JObj (fields (media_fields (pt_Media p))))); ("created_at", Some (JTime (pt_CreatedAt p)));
   ("last_active_at", Some (JTime (pt_LastActiveAt p)))].
Definition decode_task (m : gmap string json) : option persistentDownloadTask :=
  id ← as_str (m !! "id"); peerID ← as_int64 (m !! "peer_id"); msg ← as_int64 (m !! "message_id");
  peer ← as_struct (m !! "peer") ≫= decode_peer; name ← as_str (m !! "file_name"); size ← as_int64 (m !! "file_size");
  media ← as_struct (m !! "media") ≫= decode_media; created ← as_time (m !! "created_at"); active ← as_time (m !! "last_active_at");
  Some (mkPTask id peerID msg peer name size media created active).

(** ** The store *)

Definition defaultDownloadTaskTTL : Z := 24 * hour.

(** [lastActiveAt.Add(ttl).After(now)] on instants. *)
Definition isDownloadTaskExpired (lastActiveAt now ttl : Z) : bool := (0 <? ttl) && negb (now <? lastActiveAt + ttl).

Definition downloadTaskRefreshInterval (ttl : Z) : Z :=
  if ttl <=? 0 then 0 else
  let interval := Z.quot ttl 4 in
  let interval := if hour <? interval then hour else interval in
  if interval <? minute then minute else interval.

(** The record with its clock set, and whether it was due. *)
Definition SetDownloadTaskLastActive (data : value) (now minInterval : Z) : res err (value * bool) :=
  raw ← as_object data;
  last ← LinkActivity data;
  if (0 <? minInterval) && (time_sub now last <? minInterval) then Ok (data, false)
  else Ok (VJson (JObj (<["last_active_at" := JTime now]> raw)), true).

Definition link_expired (now ttl : Z) (data : value) (_ : Z) : res err bool :=
  stamp ← LinkActivity data; Ok (isDownloadTaskExpired stamp now ttl).

Definition LCleanupExpired (now ttl : Z) : op unit :=
  if ttl <=? 0 then λ _ s, (Ok tt, s) else Sweep Links (link_expired now ttl).

(** [Add] to a persistent store. *)
Definition LAdd (now ttl : Z) (t : downloadTask) : op unit := λ canceled s,
  if time_is_zero (dt_LastActiveAt t) then (Err errNoActivity, s) else
  match LCleanupExpired now ttl canceled s with
  | (Err e, s) => (Err e, s)
  | (Ok _, s) =>
      match persistentDownloadTaskFromTask t with
      | Err e => (Err e, s)
      | Ok persisted => Merge Links (dt_ID t) (VJson (JObj (fields (task_fields persisted)))) (dt_LastActiveAt t) canceled s
      end
  end.

(** The callback of [Get]: the task, unless the link expired, and the record
    with its clock moved when it is due; an expired one is deleted. *)
Definition get_step (now ttl : Z) (data : value) (stamp : Z) : res err (option downloadTask * (option value * Z)) :=
  raw ← as_object data;
  match decode_task raw with
  | None => Err (ErrMsg "json: cannot unmarshal")
  | Some persisted =>
      if time_is_zero (pt_LastActiveAt persisted) then Err errNoActivity
      else if isDownloadTaskExpired (pt_LastActiveAt persisted) now ttl then Ok (None, (None, stamp))
      else
        task ← ToTask persisted;
        if 0 <? ttl then
          '(updated, changed) ← SetDownloadTaskLastActive data now (downloadTaskRefreshInterval ttl);
          if (changed : bool) then Ok (Some (with_last_active task now), (Some updated, now))
          else Ok (Some task, (Some data, stamp))
        else Ok (Some task, (Some data, stamp))
  end.

Definition LinkGet (now ttl : Z) (id : string) : op (option downloadTask) := λ canceled s,
  match Mutate Links id (get_step now ttl) canceled s with
  | (Err ErrNotFound, s) => (Ok None, s)
  | r => r
  end.

(** Without a store the links live in memory and do not slide. *)
Definition MAdd (t : downloadTask) (mem : gmap string downloadTask) : res err unit * gmap string downloadTask :=
  if time_is_zero (dt_LastActiveAt t) then (Err errNoActivity, mem) else (Ok tt, <[dt_ID t := t]> mem).
Definition MGet (now ttl : Z) (id : string) (mem : gmap string downloadTask) : option downloadTask * gmap string downloadTask :=
  match mem !! id with
  | None => (None, mem)
  | Some t => if isDownloadTaskExpired (dt_LastActiveAt t) now ttl then (None, delete id mem) else (Some t, mem)
  end.

(** ** The identity of a file and the refresh of its reference *)

Fixpoint safeTaskIDPart (v : string) : string :=
  match v with
  | EmptyString => ""
  | String a v => String (if Ascii.eqb a "/" || Ascii.eqb a "\" || Ascii.eqb a ":" then "_"%char else a) (safeTaskIDPart v)
  end.

Definition downloadTaskID (m : option Media) : res err string :=
  location ← persistentMediaLocationFromMedia m;
  let thumb := if String.eqb (ml_ThumbSize location) "" then "" else "_" +:+ safeTaskIDPart (ml_ThumbSize location) in
  if String.eqb (ml_Kind location) mediaKindDocument then Ok ("document_" +:+ Itoa (ml_ID location) +:+ thumb)
  else if String.eqb (ml_Kind location) mediaKindPhoto then Ok ("photo_" +:+ Itoa (ml_ID location) +:+ thumb)
  else Err (ErrMsg "unsupported media location kind").

(** [refreshTaskMedia] up to its store: [pool] is whether a client is
    available, [message] what the message holds now. *)
Definition refreshed_task (t : downloadTask) (pool : bool) (message : res err (option Media)) : res err downloadTask :=
  if bool_decide (dt_Peer t = None) then Err (ErrMsg "download task peer is empty") else
  if negb pool then Err (ErrMsg "telegram client unavailable") else
  media ← message;
  match media with
  | None => Err (ErrMsg "message no longer has media")
  | Some m =>
      if match dt_Media t with Some old => negb (md_DC m =? md_DC old) | None => false end then Err (ErrMsg "refreshed media changed dc")
      else
        id ← downloadTaskID (Some m);
        if String.eqb id (dt_ID t)
        then Ok (mkTask (dt_ID t) (dt_PeerID t) (dt_MessageID t) (dt_Peer t) (dt_FileName t) (md_Size m) (Some m) (dt_CreatedAt t) (dt_LastActiveAt t))
        else Err (ErrMsg "refreshed media id changed")
  end.
Definition refreshTaskMedia (now ttl : Z) (t : downloadTask) (pool : bool) (message : res err (option Media)) : op unit := λ canceled s,
  match refreshed_task t pool message with
  | Err e => (Err e, s)
  | Ok t => LAdd now ttl t canceled s
  end.
(** The refresh callback of [streamTaskWithMode]. *)
Definition refresh_callback (now ttl : Z) (t : downloadTask) (pool : bool) (message : res err (option Media)) : op (option Media) := λ canceled s,
  match refreshTaskMedia now ttl t pool message canceled s with
  | (Err e, s) => (Err e, s)
  | (Ok _, s) =>
      match LinkGet now ttl (dt_ID t) canceled s with
      | (Err e, s) => (Err e, s)
      | (Ok None, s) => (Err (ErrMsg "download task disappeared after media refresh"), s)
      | (Ok (Some t), s) => (Ok (dt_Media t), s)
      end
  end.

(** [rangeResource], [NewTask] up to [Add]. *)
Definition NewTask (now : Z) (peerID msgID : Z) (peer : option InputPeer) (fileName : string) (fileSize : Z) (m : option Media) : res err downloadTask :=
  id ← downloadTaskID m;
  Ok (mkTask id peerID msgID peer fileName fileSize m now now).
