(* ===== verification/LinkStoreProps.v ===== *)
(** * What the link store guarantees

    Lemmas and theorems about LinkStore: a stored link is read back as it was,
    a link that is used does not expire, and a shared source outlives the
    requests that use it. *)

From S2P Require Import Prelude Strings Storage TaskTypes Taskhub CollectionSpec MutationSpec TaskRepos Base64 LinkStore.
Local Open Scope list_scope.

(** ** JSON *)

Lemma as_bytes_json b : as_bytes (Some (json_bytes b)) = Some b.
Proof. destruct b as [s|]; [|done]. unfold as_bytes, json_bytes. cbn [get_with]. by rewrite base64_roundtrip. Qed.
Lemma as_struct_obj m : as_struct (Some (JObj m)) = Some m.
Proof. done. Qed.

Definition wf_loc (l : persistentMediaLocation) : bool := in_int64 (ml_ID l) && in_int64 (ml_AccessHash l).
Definition wf_ppeer (p : persistentInputPeer) : bool := in_int64 (pp_ID p) && in_int64 (pp_AccessHash p).
Definition wf_pmedia (p : persistentDownloadMedia) : bool :=
  in_int64 (pm_Size p) && in_int64 (pm_DC p) && in_int64 (pm_Date p) && wf_loc (pm_Location p).
Definition wf_ptask (p : persistentDownloadTask) : bool :=
  in_int64 (pt_PeerID p) && in_int64 (pt_MessageID p) && in_int64 (pt_FileSize p) && wf_ppeer (pt_Peer p) && wf_pmedia (pt_Media p).

Ltac read_struct Hn :=
  rewrite ?(fields_lookup _ _ Hn);
  cbn -[as_str as_bool as_time as_int64 as_bytes as_struct omit_str omit_num fields loc_fields peer_fields media_fields task_fields];
  rewrite ?as_bytes_json, ?as_struct_obj; autorewrite with codec;
  cbn -[as_str as_bool as_time as_int64 as_bytes as_struct omit_str omit_num fields loc_fields peer_fields media_fields task_fields].

Lemma decode_loc_fields l : wf_loc l = true → decode_loc (fields (loc_fields l)) = Some l.
Proof.
  intros H. unfold wf_loc in H. split_wf H. unfold decode_loc.
  assert (Hn : NoDup (loc_fields l).*1) by distinct_fields. unfold loc_fields in *. read_struct Hn. by destruct l.
Qed.
Lemma decode_peer_fields p : wf_ppeer p = true → decode_peer (fields (peer_fields p)) = Some p.
Proof.
  intros H. unfold wf_ppeer in H. split_wf H. unfold decode_peer.
  assert (Hn : NoDup (peer_fields p).*1) by distinct_fields. unfold peer_fields in *. read_struct Hn. by destruct p.
Qed.
Lemma decode_media_fields p : wf_pmedia p = true → decode_media (fields (media_fields p)) = Some p.
Proof.
  intros H. unfold wf_pmedia in H. split_wf H. unfold decode_media.
  assert (Hn : NoDup (media_fields p).*1) by distinct_fields. unfold media_fields in *. read_struct Hn.
  rewrite decode_loc_fields by done. by destruct p.
Qed.

Definition with_clock (p : persistentDownloadTask) (a : Z) : persistentDownloadTask :=
  mkPTask (pt_ID p) (pt_PeerID p) (pt_MessageID p) (pt_Peer p) (pt_FileName p) (pt_FileSize p) (pt_Media p) (pt_CreatedAt p) a.

(** A record that agrees with a task's but for the clock. *)
Lemma decode_task_like p m a :
  wf_ptask p = true → (∀ k j, k ≠ "last_active_at" → field_of (task_fields p) k = Some j → m !! k = Some j) →
  m !! "last_active_at" = Some (JTime a) → decode_task m = Some (with_clock p a).
Proof.
  intros H Hm Ha. unfold wf_ptask in H. split_wf H. unfold decode_task.
  rewrite (Hm "id" _ ltac:(done) eq_refl), (Hm "peer_id" _ ltac:(done) eq_refl), (Hm "message_id" _ ltac:(done) eq_refl),
    (Hm "peer" _ ltac:(done) eq_refl), (Hm "file_name" _ ltac:(done) eq_refl), (Hm "file_size" _ ltac:(done) eq_refl),
    (Hm "media" _ ltac:(done) eq_refl), (Hm "created_at" _ ltac:(done) eq_refl), Ha.
  repeat (first [rewrite as_str_some|rewrite as_int64_num by done|rewrite as_struct_obj|rewrite as_time_some
    |rewrite decode_peer_fields by done|rewrite decode_media_fields by done]; cbn [mbind option_bind]). reflexivity.
Qed.

(** Moving the clock of a record moves the clock of what it decodes to. *)
Lemma decode_task_clock m p n : decode_task m = Some p → decode_task (<["last_active_at" := JTime n]> m) = Some (with_clock p n).
Proof.
  assert (Hne : ∀ k, k ≠ "last_active_at" → <["last_active_at" := JTime n]> m !! k = m !! k) by (intros k Hk; by rewrite lookup_insert_ne).
  unfold decode_task. rewrite (Hne "id"), (Hne "peer_id"), (Hne "message_id"), (Hne "peer"), (Hne "file_name"), (Hne "file_size"), (Hne "media"),
    (Hne "created_at"), lookup_insert_eq by done. intros H.
  repeat match goal with H : (?x ≫= _) = Some _ |- _ => let a := fresh "a" in let E := fresh "E" in apply bind_Some in H as (a & E & H); rewrite ?E end.
  injection H as <-. cbn [mbind option_bind]. rewrite as_time_some. cbn [mbind option_bind].
  repeat match goal with E : ?x = Some _ |- _ => rewrite E; clear E; cbn [mbind option_bind] end. done.
Qed.
Lemma decode_task_active m p : decode_task m = Some p → as_time (m !! "last_active_at") = Some (pt_LastActiveAt p).
Proof.
  unfold decode_task. intros H.
  repeat match goal with H : (?x ≫= _) = Some _ |- _ => let a := fresh "a" in let E := fresh "E" in apply bind_Some in H as (a & E & H) end.
  by injection H as <-.
Qed.

(** ** The records and their tasks *)

Definition wf_location (l : InputFileLocation) : bool :=
  match l with
  | InputDocumentFileLocation id hash _ _ | InputPhotoFileLocation id hash _ _ => in_int64 id && in_int64 hash
  | OtherFileLocation _ => false
  end.
Definition wf_peer (p : option InputPeer) : bool :=
  match p with
  | None => true
  | Some (InputPeerUser id hash) | Some (InputPeerChannel id hash) => in_int64 id && in_int64 hash
  | Some (InputPeerChat id) => in_int64 id
  | Some (OtherPeer _) => false
  end.
(** What the types of Go guarantee, and that the peer and the location are of
    the supported kinds. *)
Definition wf_task (t : downloadTask) : bool :=
  in_int64 (dt_PeerID t) && in_int64 (dt_MessageID t) && in_int64 (dt_FileSize t) && wf_peer (dt_Peer t)
  && match dt_Media t with
     | Some m => in_int64 (md_Size m) && in_int64 (md_DC m) && in_int64 (md_Date m) && from_option wf_location false (md_InputFileLoc m)
     | None => false
     end.

Lemma task_persistent t :
  wf_task t = true → dt_LastActiveAt t ≠ 0 →
  ∃ p, persistentDownloadTaskFromTask t = Ok p ∧ wf_ptask p = true ∧ pt_LastActiveAt p = dt_LastActiveAt t
  ∧ ∀ a, a ≠ 0 → ToTask (with_clock p a) = Ok (with_last_active t a).
Proof.
  intros H H0. unfold wf_task in H. destruct t as [id peerID msg peer name size media created active]. cbn in *.
  destruct media as [[loc mn ms dc date]|]; [|by rewrite andb_false_r in H]. cbn in H. destruct loc as [loc|]; [|by cbn in H; rewrite !andb_false_r in H].
  destruct loc as [lid hash ref thumb|lid hash ref thumb|]; [| |by cbn in H; rewrite !andb_false_r in H];
    (destruct peer as [[uid uh|uid uh|uid|]|]; cbn in H; [..|by rewrite !andb_false_r in H|]; rewrite !andb_true_iff in H; destruct_and? H);
    (eexists; split; [reflexivity|]; split; [unfold wf_ptask, wf_ppeer, wf_pmedia, wf_loc; cbn; rewrite !andb_true_iff; split_and!; done|split; [done|]];
     intros a Ha; unfold ToTask; cbn; unfold time_is_zero; destruct (Z.eqb_spec a 0); done).
Qed.

(** ** One fetch of a link *)

Definition next_clock (ttl now c : Z) : Z :=
  if (0 <? ttl) && negb (time_sub now c <? downloadTaskRefreshInterval ttl) then now else c.

Lemma interval_pos ttl : 0 < ttl → minute <= downloadTaskRefreshInterval ttl <= Z.max minute (ttl / 4) ∧ downloadTaskRefreshInterval ttl <= hour.
Proof.
  intros H. unfold downloadTaskRefreshInterval. rewrite (proj2 (Z.leb_gt _ _)), Z.quot_div_nonneg by lia.
  assert (Hh : hour = 60 * minute) by done. assert (Hm : 0 < minute) by done.
  destruct (Z.ltb_spec hour (ttl / 4)); [destruct (Z.ltb_spec hour minute)|destruct (Z.ltb_spec (ttl / 4) minute)]; lia.
Qed.

(** The store holds a record of [id] that decodes to [t]. *)
Definition stored (s : store) (id : string) (t : downloadTask) : Prop :=
  ∃ idx raw p, index_of Links s = Ok idx ∧ s !! key Links id = Some (VJson (JObj raw)) ∧ decode_task raw = Some p
  ∧ pt_LastActiveAt p = dt_LastActiveAt t ∧ dt_LastActiveAt t ≠ 0 ∧ ∀ a, a ≠ 0 → ToTask (with_clock p a) = Ok (with_last_active t a).

Lemma with_clock_id p : with_clock p (pt_LastActiveAt p) = p.
Proof. by destruct p. Qed.
Lemma with_last_active_id t : with_last_active t (dt_LastActiveAt t) = t.
Proof. by destruct t. Qed.

Lemma LinkGet_spec now ttl id s t :
  stored s id t → id ≠ "index" → now ≠ 0 →
  let c := dt_LastActiveAt t in
  if isDownloadTaskExpired c now ttl
  then ∃ s', LinkGet now ttl id false s = (Ok None, s') ∧ s' !! key Links id = None
  else let t' := with_last_active t (next_clock ttl now c) in ∃ s', LinkGet now ttl id false s = (Ok (Some t'), s') ∧ stored s' id t'.
Proof.
  intros (idx & raw & p & Hi & Hs & Hd & Hc & Hnz & Ht) Hid Hnow c. subst c.
  pose proof (Ht (dt_LastActiveAt t) Hnz) as Htask. rewrite <- Hc in Htask at 1. rewrite with_clock_id, with_last_active_id in Htask.
  assert (Hla : LinkActivity (VJson (JObj raw)) = Ok (dt_LastActiveAt t)).
  { unfold LinkActivity. cbn [as_object mbind res_bind]. rewrite (decode_task_active _ _ Hd), Hc. destruct (Z.eqb_spec (dt_LastActiveAt t) 0); [done|done]. }
  assert (Hstep : get_step now ttl (VJson (JObj raw)) (default 0 (idx !! id)) =
    if isDownloadTaskExpired (dt_LastActiveAt t) now ttl then Ok (None, (None, default 0 (idx !! id)))
    else if (0 <? ttl) && negb (time_sub now (dt_LastActiveAt t) <? downloadTaskRefreshInterval ttl)
         then Ok (Some (with_last_active t now), (Some (VJson (JObj (<["last_active_at" := JTime now]> raw))), now))
         else Ok (Some t, (Some (VJson (JObj raw)), default 0 (idx !! id)))).
  { unfold get_step. cbn [as_object mbind res_bind]. rewrite Hd, Hc. unfold time_is_zero. destruct (Z.eqb_spec (dt_LastActiveAt t) 0); [done|].
    destruct (isDownloadTaskExpired _ _ _); [done|]. rewrite Htask. cbn [mbind res_bind]. destruct (Z.ltb_spec 0 ttl) as [Hp|Hp]; [|done]. cbn [andb].
    unfold SetDownloadTaskLastActive. cbn [as_object mbind res_bind]. rewrite Hla. cbn [mbind res_bind].
    rewrite (proj2 (Z.ltb_lt 0 (downloadTaskRefreshInterval ttl))) by (destruct (interval_pos ttl Hp); assert (0 < minute) by done; lia). cbn [andb].
    by destruct (time_sub now (dt_LastActiveAt t) <? downloadTaskRefreshInterval ttl). }
  unfold LinkGet, next_clock. destruct (isDownloadTaskExpired (dt_LastActiveAt t) now ttl).
  { destruct (Mutate_ok Links Links_wf id _ s idx _ _ None _ Hi (links_no_clash id Hid) Hs Hstep I) as (s' & -> & H1 & _). by exists s'. }
  destruct ((0 <? ttl) && _).
  - destruct (Mutate_ok Links Links_wf id _ s idx _ _ (Some _) _ Hi (links_no_clash id Hid) Hs Hstep eq_refl) as (s' & -> & H1 & H2 & _).
    exists s'. split; [done|]. eexists _, _, _. split_and!; [done|done|by apply decode_task_clock|done|done|]. intros a Ha. apply (Ht a Ha).
  - destruct (Mutate_ok Links Links_wf id _ s idx _ _ (Some _) _ Hi (links_no_clash id Hid) Hs Hstep eq_refl) as (s' & -> & H1 & H2 & _).
    rewrite with_last_active_id. exists s'. split; [done|]. by eexists _, _, _.
Qed.

(** ** What is added is found *)

Lemma links_not_aria2 : String.eqb (c_prefix Links) Aria2Prefix = false.
Proof. vm_compute. reflexivity. Qed.
Lemma links_link : String.eqb (c_prefix Links) LinkPrefix = true.
Proof. vm_compute. reflexivity. Qed.

#[local] Opaque Links.

Lemma swept_dec c expired s idx id : swept c expired s (map_to_list idx) id ∨ ¬ swept c expired s (map_to_list idx) id.
Proof.
  unfold swept. setoid_rewrite elem_of_map_to_list. destruct (idx !! id) as [t|] eqn:Hi; [|right; by intros (t & ? & _)].
  destruct (s !! key c id) as [v|] eqn:Hs; [|left; eauto]. destruct (expired v t) as [[]|e] eqn:He; [left; eauto 6|right|right];
    intros (t' & [= <-] & [?|(v' & [= <-] & ?)]); congruence.
Qed.

Definition is_record (v : option value) : Prop := match v with None | Some (VJson (JObj _)) => True | _ => False end.

Definition record_of (o : option value) : gmap string json := match o with Some (VJson (JObj m)) => m | _ => ∅ end.

Lemma merge_updates_link o id u new :
  is_record o → as_time (u !! "last_active_at") = Some new →
  merge_updates Links o id (VJson (JObj u)) =
  Ok (record_of o, if quiet 0 (as_time (record_of o !! "last_active_at")) <=? new then u else delete "last_active_at" u).
Proof.
  intros Hr Hnew. unfold merge_updates. rewrite links_not_aria2, links_link.
  destruct o as [[[]|]|]; try contradiction; cbn [as_object mbind res_bind record_of andb]; rewrite Hnew; change (quiet 0 (Some new)) with new;
    (match goal with |- context [new <? ?b] => destruct (Z.ltb_spec new b), (Z.leb_spec b new) end; [lia|reflexivity|reflexivity|lia]).
Qed.

Lemma LAdd_spec now ttl t s idx s1 :
  wf_task t = true → 0 < dt_LastActiveAt t → dt_ID t ≠ "" → dt_ID t ≠ "index" →
  index_of Links s = Ok idx → is_record (s !! key Links (dt_ID t)) →
  LAdd now ttl t false s = (Ok tt, s1) →
  ∃ a, dt_LastActiveAt t <= a ∧ stored s1 (dt_ID t) (with_last_active t a).
Proof.
  intros Hwf Hpos Hne Hid Hi Hrec Hadd. unfold LAdd in Hadd. unfold time_is_zero in Hadd. destruct (Z.eqb_spec (dt_LastActiveAt t) 0) as [|_]; [lia|].
  destruct (task_persistent t Hwf ltac:(lia)) as (p & Hp & Hwp & Hpa & Htt). rewrite Hp in Hadd.
  assert (Hclean : ∃ s0 idx0, LCleanupExpired now ttl false s = (Ok tt, s0) ∧ index_of Links s0 = Ok idx0 ∧ is_record (s0 !! key Links (dt_ID t))).
  { unfold LCleanupExpired in *. destruct (ttl <=? 0); [exists s, idx; split_and!; [reflexivity|exact Hi|exact Hrec]|]. destruct (Sweep Links (link_expired now ttl) false s) as [[[]|e] s0] eqn:Hsw; [|done].
    destruct (Sweep_ok Links Links_wf _ _ _ _ Hi Hsw) as (idx0 & Hi0 & H). exists s0, idx0. split; [reflexivity|]. split; [exact Hi0|].
    destruct (H (dt_ID t) (links_no_clash _ Hid)) as [H1 H2].
    destruct (swept_dec Links (link_expired now ttl) s idx (dt_ID t)) as [Hd|Hd]; [destruct (H1 Hd) as [_ ->]; done|destruct (H2 Hd) as [_ ->]; done]. }
  destruct Hclean as (s0 & idx0 & Hcl & Hi0 & Hr0). rewrite Hcl in Hadd.
  set (u := fields (task_fields p)) in *. assert (Hn : NoDup (task_fields p).*1) by distinct_fields.
  assert (Hnew : as_time (u !! "last_active_at") = Some (dt_LastActiveAt t)) by (unfold u; rewrite (fields_lookup _ _ Hn); cbn; by rewrite Hpa).
  set (m := record_of (s0 !! key Links (dt_ID t))).
  set (old := quiet 0 (as_time (m !! "last_active_at"))).
  set (u' := if old <=? dt_LastActiveAt t then u else delete "last_active_at" u).
  assert (Hmu : merge_updates Links (s0 !! key Links (dt_ID t)) (dt_ID t) (VJson (JObj u)) = Ok (m, u')) by (by apply merge_updates_link).
  destruct (Merge_ok Links Links_wf (dt_ID t) _ (dt_LastActiveAt t) s0 idx0 m u' Hi0 (links_no_clash _ Hid) Hne Hmu) as (s' & t' & Hmerge & Hk & Hidx & _).
  rewrite Hmerge in Hadd. injection Hadd as ->. clear Hmerge Hmu.
  assert (Hu : ∀ k j, field_of (task_fields p) k = Some j → u !! k = Some j) by (intros k j Hf; unfold u; by rewrite (fields_lookup _ _ Hn)).
  assert (Hu' : ∀ k j, k ≠ "last_active_at" → field_of (task_fields p) k = Some j → (u' ∪ m) !! k = Some j).
  { intros k j Hne' Hj. apply lookup_union_Some_l. unfold u'. destruct (old <=? dt_LastActiveAt t); [by apply Hu|]. rewrite lookup_delete_ne by done. by apply Hu. }
  assert (Hclock : ∃ a, dt_LastActiveAt t <= a ∧ (u' ∪ m) !! "last_active_at" = Some (JTime a)).
  { unfold u'. destruct (Z.leb_spec old (dt_LastActiveAt t)) as [|Hlt].
    - exists (dt_LastActiveAt t). split; [lia|]. apply lookup_union_Some_l. rewrite (Hu "last_active_at" _ eq_refl). by rewrite Hpa.
    - exists old. split; [lia|]. rewrite lookup_union_r by apply lookup_delete_eq. unfold old in *.
      destruct (m !! "last_active_at") as [[]|]; cbn in *; try lia. done. }
  destruct Hclock as (a & Ha & Hla). exists a. split; [done|].
  exists (<[dt_ID t := t']> idx0), (u' ∪ m), (with_clock p a). split_and!; [exact Hidx|exact Hk|by apply decode_task_like|reflexivity|cbn; lia|].
  intros b Hb. exact (Htt b Hb).
Qed.

(** C33: a link that was added is found again, with the peer, the file and the
    media it was added with, until its clock is more than the time to live
    behind, and then it is removed: the clock is at least the added one, it
    never moves back, and moves to the time of a request at most once an
    interval. *)
Theorem link_roundtrip now ttl t s idx s1 :
  wf_task t = true → 0 < dt_LastActiveAt t → dt_ID t ≠ "" → dt_ID t ≠ "index" →
  index_of Links s = Ok idx → is_record (s !! key Links (dt_ID t)) →
  LAdd now ttl t false s = (Ok tt, s1) →
  ∃ a, dt_LastActiveAt t <= a ∧ ∀ now', now' ≠ 0 →
    if isDownloadTaskExpired a now' ttl
    then ∃ s2, LinkGet now' ttl (dt_ID t) false s1 = (Ok None, s2) ∧ s2 !! key Links (dt_ID t) = None
    else ∃ s2, LinkGet now' ttl (dt_ID t) false s1 = (Ok (Some (with_last_active t (next_clock ttl now' a))), s2)
         ∧ stored s2 (dt_ID t) (with_last_active t (next_clock ttl now' a)).
Proof.
  intros Hwf Hpos Hne Hid Hi Hrec Hadd. destruct (LAdd_spec now ttl t s idx s1 Hwf Hpos Hne Hid Hi Hrec Hadd) as (a & Ha & Hst).
  exists a. split; [done|]. intros now' Hn. exact (LinkGet_spec now' ttl (dt_ID t) s1 _ Hst Hid Hn).
Qed.

(** The results of requests for a link at these times. *)
Fixpoint get_all (ttl : Z) (id : string) (nows : list Z) (s : store) : list (res err (option downloadTask)) :=
  match nows with
  | [] => []
  | now :: nows => let '(r, s) := LinkGet now ttl id false s in r :: get_all ttl id nows s
  end.
(** Each request follows the last within [gap]. *)
Fixpoint within (gap last : Z) (nows : list Z) : Prop :=
  match nows with [] => True | now :: nows => last <= now <= last + gap ∧ within gap now nows end.
Definition found (id : string) (r : res err (option downloadTask)) : Prop := ∃ t, r = Ok (Some t) ∧ dt_ID t = id.

(** a link in use does not expire: however long requests go on, if the
    first comes before the link expires and each other within the time to
    live less the refresh interval of the last one, all of them find it. *)
Theorem link_in_use ttl s t nows first :
  0 < ttl <= max_int64 → stored s (dt_ID t) t → dt_ID t ≠ "index" → 0 < dt_LastActiveAt t →
  dt_LastActiveAt t <= first < dt_LastActiveAt t + ttl → within (ttl - downloadTaskRefreshInterval ttl) first nows →
  Forall (found (dt_ID t)) (get_all ttl (dt_ID t) (first :: nows) s).
Proof.
  intros Httl Hst Hid. revert s t first Hst Hid. induction nows as [|now nows IH]; intros s t first Hst Hid Hc Hfirst Hw; cbn [get_all].
  all: pose proof (LinkGet_spec first ttl (dt_ID t) s t Hst Hid ltac:(lia)) as Hget; cbv zeta in Hget.
  all: assert (Hexp : isDownloadTaskExpired (dt_LastActiveAt t) first ttl = false) by (unfold isDownloadTaskExpired; rewrite (proj2 (Z.ltb_lt first _)) by lia; by rewrite andb_false_r).
  all: rewrite Hexp in Hget; destruct Hget as (s1 & -> & Hst1).
  { constructor; [by eexists|constructor]. }
  constructor; [by eexists|]. destruct (interval_pos ttl ltac:(lia)) as [Hint Hh]. assert (Hm : 0 < minute) by done.
  assert (Hmax : hour <= max_int64) by (vm_compute; discriminate).
  assert (Hnext : dt_LastActiveAt t <= next_clock ttl first (dt_LastActiveAt t) <= first ∧ first - downloadTaskRefreshInterval ttl < next_clock ttl first (dt_LastActiveAt t)).
  { unfold next_clock. rewrite (proj2 (Z.ltb_lt 0 ttl)) by lia. cbn [andb]. destruct (Z.ltb_spec (time_sub first (dt_LastActiveAt t)) (downloadTaskRefreshInterval ttl)) as [Hlt|Hge]; cbn [negb]; [|lia].
    destruct (Z.le_gt_cases (downloadTaskRefreshInterval ttl) (first - dt_LastActiveAt t)) as [Hle|]; [|lia].
    apply (time_sub_ge first (dt_LastActiveAt t) (downloadTaskRefreshInterval ttl)) in Hle; [lia|unfold min_int64; lia]. }
  destruct Hw as [Hnow Hw]. apply (IH s1 (with_last_active t (next_clock ttl first (dt_LastActiveAt t))) now Hst1 Hid); cbn; [lia|lia|exact Hw].
Qed.

(** *** Witnesses *)

Definition demo_task : downloadTask :=
  mkTask "document_7" 100 3 (Some (InputPeerChannel 100 9)) "a.bin" 2048
    (Some (mkMedia (Some (InputDocumentFileLocation 7 (-8) (Some "ref") "")) "a.bin" 2048 2 1700000000)) (5 * hour) (5 * hour).
Abbreviation demo_add := (LAdd (5 * hour) (24 * hour) demo_task false ∅).

Lemma demo_added : fst demo_add = Ok tt.
Proof. vm_compute. reflexivity. Qed.
Lemma demo_add_eq : demo_add = (Ok tt, snd demo_add).
Proof. rewrite <- demo_added. by destruct demo_add. Qed.
Lemma demo_index : index_of Links ∅ = Ok ∅.
Proof. vm_compute. reflexivity. Qed.
Lemma demo_wf : wf_task demo_task = true.
Proof. vm_compute. reflexivity. Qed.
Lemma demo_fresh : is_record ((∅ : store) !! key Links (dt_ID demo_task)).
Proof. rewrite lookup_empty. exact I. Qed.

Lemma link_roundtrip_witness :
  ∃ a, 5 * hour <= a ∧ (isDownloadTaskExpired a (6 * hour) (24 * hour) = false →
    ∃ s2, LinkGet (6 * hour) (24 * hour) "document_7" false (snd demo_add) = (Ok (Some (with_last_active demo_task (next_clock (24 * hour) (6 * hour) a))), s2)).
Proof.
  destruct (link_roundtrip (5 * hour) (24 * hour) demo_task ∅ ∅ (snd demo_add) demo_wf eq_refl ltac:(discriminate) ltac:(discriminate) demo_index demo_fresh demo_add_eq) as (a & Ha & H).
  exists a. split; [exact Ha|]. intros He. specialize (H (6 * hour) ltac:(discriminate)). rewrite He in H. destruct H as (s2 & H & _). exists s2. exact H.
Defined.

Lemma demo_stored : stored (snd demo_add) "document_7" demo_task.
Proof.
  eexists _, _, _. split; [vm_compute; reflexivity|]. split; [vm_compute; reflexivity|]. split; [vm_compute; reflexivity|].
  split; [reflexivity|]. split; [discriminate|]. intros a Ha. unfold ToTask. cbn. unfold time_is_zero. by destruct (Z.eqb_spec a 0).
Qed.
Lemma link_in_use_witness :
  Forall (found "document_7") (get_all (24 * hour) "document_7" [20 * hour; 40 * hour; 60 * hour; 83 * hour] (snd demo_add)).
Proof.
  apply (link_in_use (24 * hour) (snd demo_add) demo_task [40 * hour; 60 * hour; 83 * hour] (20 * hour)).
  - vm_compute. split; [reflexivity|discriminate].
  - exact demo_stored.
  - discriminate.
  - reflexivity.
  - vm_compute. split; [discriminate|reflexivity].
  - vm_compute. repeat split; discriminate.
Defined.
