(* ===== verification/Sources.v ===== *)
(** * What requests share (app/http/session.go: [poolHolder], [sourceRegistry])

    Requests for one file share a source, which holds the media with its
    latest file reference, and wait together for a Telegram pool.  A label is
    one critical section. *)

From S2P Require Import Prelude Lts.
Local Open Scope list_scope.

(** ** The registry of sources

    Pointers are numbers; a media is the number of the version a source
    holds. *)
Module Registry.

Record sourceEntry := mkEntry { e_media : Z; e_refresh : Z; e_refs : nat; e_lastUsed : Z }.
Record sourceHandle := mkHandle { h_task : string; h_entry : nat; h_released : bool }.
Record registryState := mkState {
  rg_heap : gmap nat sourceEntry;           (* every entry ever made *)
  rg_next : nat;
  rg_sources : gmap string nat;             (* the registry's map *)
  rg_handles : list sourceHandle }.

Inductive registryLabel :=
  | Acquire (task : string) (media refresh now : Z)
  | Release (h : nat) (now : Z)
  | CleanupIdle (now ttl : Z)
  | SetMedia (e : nat) (media : Z).         (* refreshMedia *)

Definition used (e : sourceEntry) (now : Z) : sourceEntry := mkEntry (e_media e) (e_refresh e) (e_refs e) now.

Definition acquire (task : string) (media refresh now : Z) (y : registryState) : registryState :=
  let '(k, heap, sources) :=
    match rg_sources y !! task with
    | None => (rg_next y, <[rg_next y := mkEntry media refresh 0 0]> (rg_heap y), <[task := rg_next y]> (rg_sources y))
    | Some k => (k, alter (λ e, mkEntry (e_media e) refresh (e_refs e) (e_lastUsed e)) k (rg_heap y), rg_sources y)
    end in
  mkState (alter (λ e, mkEntry (e_media e) (e_refresh e) (S (e_refs e)) now) k heap) (Nat.max (rg_next y) (S k)) sources (rg_handles y ++ [mkHandle task k false]).

(** [once.Do] makes a second release do nothing. *)
Definition release (h : nat) (now : Z) (y : registryState) : option registryState :=
  match rg_handles y !! h with
  | None => None
  | Some hd =>
      if h_released hd then Some y else
      let handles := <[h := mkHandle (h_task hd) (h_entry hd) true]> (rg_handles y) in
      Some (mkState
        (if bool_decide (rg_sources y !! h_task hd = Some (h_entry hd))
         then alter (λ e, mkEntry (e_media e) (e_refresh e) (Nat.pred (e_refs e)) now) (h_entry hd) (rg_heap y)
         else rg_heap y) (rg_next y) (rg_sources y) handles)
  end.

Definition idle (now ttl : Z) (heap : gmap nat sourceEntry) (k : nat) : bool :=
  match heap !! k with Some e => Nat.eqb (e_refs e) 0 && (ttl <=? time_sub now (e_lastUsed e)) | None => false end.
Definition cleanupIdle (now ttl : Z) (y : registryState) : registryState :=
  if ttl <=? 0 then y
  else mkState (rg_heap y) (rg_next y) (filter (λ x, idle now ttl (rg_heap y) (snd x) = false) (rg_sources y)) (rg_handles y).
Definition released_count (now ttl : Z) (y : registryState) : nat := size (rg_sources y) - size (rg_sources (cleanupIdle now ttl y)).

Definition registryStep (l : registryLabel) (y : registryState) : option registryState :=
  match l with
  | Acquire task media refresh now => Some (acquire task media refresh now y)
  | Release h now => release h now y
  | CleanupIdle now ttl => Some (cleanupIdle now ttl y)
  | SetMedia k media => Some (mkState (alter (λ e, mkEntry media (e_refresh e) (e_refs e) (e_lastUsed e)) k (rg_heap y)) (rg_next y) (rg_sources y) (rg_handles y))
  end.
Definition newSourceRegistry : registryState := mkState ∅ 0 ∅ [].

(** A handle counts towards the entry it holds until it is released. *)
Definition holds (k : nat) (h : sourceHandle) : nat := if negb (h_released h) && (h_entry h =? k)%nat then 1%nat else 0%nat.
Definition holders (y : registryState) (k : nat) : nat := sum_list_with (holds k) (rg_handles y).

Record registryInv (y : registryState) : Prop := {
  v_sources : ∀ task k, rg_sources y !! task = Some k → is_Some (rg_heap y !! k);
  v_refs : ∀ k e, rg_heap y !! k = Some e → e_refs e = holders y k;
  v_live : ∀ h hd, rg_handles y !! h = Some hd → h_released hd = false → rg_sources y !! h_task hd = Some (h_entry hd);
  v_inj : ∀ t1 t2 k, rg_sources y !! t1 = Some k → rg_sources y !! t2 = Some k → t1 = t2;
  v_known : ∀ h hd, rg_handles y !! h = Some hd → (h_entry hd < rg_next y)%nat;
  v_heap : ∀ k e, rg_heap y !! k = Some e → (k < rg_next y)%nat;
}.

Lemma holds_lookup l k h hd : l !! h = Some hd → (holds k hd ≤ sum_list_with (holds k) l)%nat.
Proof. revert h. induction l as [|x l IH]; intros [|h] H; simpl in *; try done; [injection H as ->; lia|]. specialize (IH h H). lia. Qed.

Lemma release_sum l h hd k :
  l !! h = Some hd → h_released hd = false →
  (sum_list_with (holds k) (<[h := mkHandle (h_task hd) (h_entry hd) true]> l) + (if (h_entry hd =? k)%nat then 1 else 0) = sum_list_with (holds k) l)%nat.
Proof.
  revert h. induction l as [|x l IH]; intros [|h] H Hr; simpl in *; try done.
  - injection H as ->. assert (Hh : holds k hd = if (h_entry hd =? k)%nat then 1%nat else 0%nat) by (unfold holds; by rewrite Hr).
    rewrite Hh. change (holds k (mkHandle (h_task hd) (h_entry hd) true)) with 0%nat. lia.
  - specialize (IH h H Hr). lia.
Qed.

(** Only the references and the times of one entry change. *)
Lemma alter_lookup (f : sourceEntry → sourceEntry) k k' (heap : gmap nat sourceEntry) :
  alter f k heap !! k' = if decide (k = k') then f <$> heap !! k' else heap !! k'.
Proof. destruct (decide (k = k')) as [->|]; [apply lookup_alter_eq|by apply lookup_alter_ne]. Qed.

Lemma altered (f : sourceEntry → sourceEntry) k k' (heap : gmap nat sourceEntry) e : alter f k heap !! k' = Some e → is_Some (heap !! k').
Proof. rewrite alter_lookup. destruct (decide (k = k')); destruct (heap !! k'); eauto; done. Qed.

Lemma no_holders y k : registryInv y → (rg_next y ≤ k)%nat → holders y k = 0%nat.
Proof.
  intros Hi Hk. unfold holders. pose proof (v_known _ Hi) as Hkn. revert Hkn. generalize (rg_handles y). intros l.
  induction l as [|x l IH]; intros Hkn; [done|]. simpl. rewrite IH by (intros h hd H; by apply (Hkn (S h))).
  pose proof (Hkn O x eq_refl). unfold holds. destruct (Nat.eqb_spec (h_entry x) k); [lia|]. by rewrite andb_false_r.
Qed.

Lemma inv_acquire task media refresh now y : registryInv y → registryInv (acquire task media refresh now y).
Proof.
  intros Hi. unfold acquire.
  assert (Hin : ∀ k h hd, (rg_handles y ++ [mkHandle task k false]) !! h = Some hd → rg_handles y !! h = Some hd ∨ hd = mkHandle task k false).
  { intros k h hd [H|[_ H]]%lookup_app_Some; [by left|right]. by apply list_lookup_singleton_Some in H as [_ <-]. }
  assert (Hsum : ∀ k k', sum_list_with (holds k') (rg_handles y ++ [mkHandle task k false]) = (holders y k' + if decide (k = k') then 1 else 0)%nat).
  { intros k k'. rewrite sum_list_with_app. simpl. unfold holders. destruct (decide (k = k')) as [->|Hne]; unfold holds at 2; cbn; [rewrite Nat.eqb_refl; lia|].
    destruct (Nat.eqb_spec k k'); [done|lia]. }
  destruct (rg_sources y !! task) as [k|] eqn:Ht.
  - destruct (v_sources _ Hi _ _ Ht) as [e0 He0]. pose proof (v_heap _ Hi _ _ He0) as Hk. constructor; cbn.
    + intros t k' H. destruct (v_sources _ Hi _ _ H) as [e He]. rewrite !alter_lookup, He. destruct (decide (k = k')); eauto.
    + intros k' e. unfold holders. cbn. rewrite Hsum, !alter_lookup. destruct (decide (k = k')) as [->|]; [|rewrite Nat.add_0_r; apply (v_refs _ Hi)].
      rewrite He0. intros [= <-]. cbn. rewrite (v_refs _ Hi _ _ He0). lia.
    + intros h hd H Hr. apply Hin in H as [H| ->]; [by apply (v_live _ Hi h)|done].
    + apply (v_inj _ Hi).
    + intros h hd H. apply Hin in H as [H| ->]; [pose proof (v_known _ Hi h hd H); lia|cbn; lia].
    + intros k' e H. apply altered in H as [e1 H]. apply altered in H as [e' He'].
      pose proof (v_heap _ Hi _ _ He'). lia.
  - set (n := rg_next y). assert (Hn : rg_heap y !! n = None).
    { destruct (rg_heap y !! n) as [e|] eqn:He; [|done]. pose proof (v_heap _ Hi _ _ He). lia. }
    assert (Hnone : ∀ t, rg_sources y !! t ≠ Some n).
    { intros t H. destruct (v_sources _ Hi _ _ H) as [e He]. congruence. }
    constructor; cbn.
    + intros t k'. rewrite lookup_insert_Some, alter_lookup. intros [[<- <-]|[_ H]].
      * rewrite decide_True, lookup_insert_eq by done. eauto.
      * destruct (decide (n = k')) as [<-|]; [by destruct (Hnone t)|]. rewrite lookup_insert_ne by done. by apply (v_sources _ Hi t).
    + intros k' e. unfold holders. cbn. rewrite Hsum, alter_lookup. destruct (decide (n = k')) as [<-|]; [|rewrite Nat.add_0_r, lookup_insert_ne by done; apply (v_refs _ Hi)].
      rewrite lookup_insert_eq. intros [= <-]. cbn. by rewrite (no_holders y n Hi).
    + intros h hd H Hr. apply Hin in H as [H| ->]; [|apply lookup_insert_eq]. pose proof (v_live _ Hi h hd H Hr) as Hl.
      rewrite lookup_insert_ne; [done|]. intros ->. congruence.
    + intros t1 t2 k'. rewrite !lookup_insert_Some. intros [[<- <-]|[? H1]] [[<- E]|[? H2]]; [done|by destruct (Hnone t2)|subst k'; by destruct (Hnone t1)|by apply (v_inj _ Hi _ _ k')].
    + intros h hd H. apply Hin in H as [H| ->]; [pose proof (v_known _ Hi h hd H); unfold n; lia|cbn; lia].
    + intros k' e. rewrite alter_lookup. destruct (decide (n = k')) as [<-|]; [intros _; lia|]. rewrite lookup_insert_ne by done.
      intros H. pose proof (v_heap _ Hi _ _ H). lia.
Qed.

Lemma inv_release h now y y' : registryInv y → release h now y = Some y' → registryInv y'.
Proof.
  intros Hi. unfold release. destruct (rg_handles y !! h) as [hd|] eqn:Hh; [|done]. destruct (h_released hd) eqn:Hr; [by intros [= <-]|].
  pose proof (v_live _ Hi h hd Hh Hr) as Hl. rewrite bool_decide_true by done. intros [= <-].
  destruct (v_sources _ Hi _ _ Hl) as [e0 He0]. pose proof (λ k, release_sum (rg_handles y) h hd k Hh Hr) as Hsum.
  constructor; cbn.
  - intros t k H. destruct (v_sources _ Hi _ _ H) as [e He]. rewrite alter_lookup, He. destruct (decide _); eauto.
  - intros k e. unfold holders. cbn. specialize (Hsum k). rewrite alter_lookup. destruct (decide (h_entry hd = k)) as [<-|Hne].
    + rewrite He0. intros [= <-]. cbn. rewrite Nat.eqb_refl in Hsum. rewrite (v_refs _ Hi _ _ He0). unfold holders. lia.
    + intros H. rewrite (v_refs _ Hi _ _ H). unfold holders. destruct (Nat.eqb_spec (h_entry hd) k); [done|]. lia.
  - intros h' hd' [(<- & <- & _)|[_ H]]%list_lookup_insert_Some Hr'; [done|]. by apply (v_live _ Hi h').
  - apply (v_inj _ Hi).
  - intros h' hd' [(<- & <- & _)|[_ H]]%list_lookup_insert_Some; [exact (v_known _ Hi _ hd Hh)|by apply (v_known _ Hi h')].
  - intros k e H. apply altered in H as [e' He'].
    by apply (v_heap _ Hi k e').
Qed.

Lemma inv_cleanup now ttl y : registryInv y → registryInv (cleanupIdle now ttl y).
Proof.
  intros Hi. unfold cleanupIdle. destruct (ttl <=? 0); [done|].
  constructor; cbn; [|apply (v_refs _ Hi)| | |apply (v_known _ Hi)|apply (v_heap _ Hi)].
  - intros t k [H _]%map_lookup_filter_Some. by apply (v_sources _ Hi t).
  - intros h hd Hh Hr. pose proof (v_live _ Hi h hd Hh Hr) as Hl. apply map_lookup_filter_Some. split; [done|]. cbn. unfold idle.
    destruct (v_sources _ Hi _ _ Hl) as [e He]. rewrite He, (v_refs _ Hi _ _ He).
    pose proof (holds_lookup (rg_handles y) (h_entry hd) h hd Hh) as Hs. unfold holds in Hs at 1. rewrite Hr, Nat.eqb_refl in Hs. cbn in Hs.
    unfold holders. destruct (sum_list_with _ _); [lia|done].
  - intros t1 t2 k [H1 _]%map_lookup_filter_Some [H2 _]%map_lookup_filter_Some. by apply (v_inj _ Hi _ _ k).
Qed.

Lemma registryInv_step l y y' : registryInv y → registryStep l y = Some y' → registryInv y'.
Proof.
  intros Hi. destruct l as [task media refresh now|h now|now ttl|k media]; cbn [registryStep].
  - intros [= <-]. by apply inv_acquire.
  - by apply inv_release.
  - intros [= <-]. by apply inv_cleanup.
  - intros [= <-]. constructor; cbn; [| |apply (v_live _ Hi)|apply (v_inj _ Hi)|apply (v_known _ Hi)|].
    + intros t k' H. destruct (v_sources _ Hi _ _ H) as [e He]. rewrite alter_lookup, He. destruct (decide _); eauto.
    + intros k' e. rewrite alter_lookup. change (holders _ k') with (holders y k'). destruct (decide (k = k')) as [<-|]; [|apply (v_refs _ Hi)].
      destruct (rg_heap y !! k) as [e0|] eqn:He; [|done]. intros [= <-]. cbn. by apply (v_refs _ Hi).
    + intros k' e H. apply altered in H as [e' He'].
      by apply (v_heap _ Hi k' e').
Qed.

(** after any sequence of requests, releases, refreshes and cleanups: the
    source of a request that has not released it is the one the registry
    holds for its file, so that all concurrent requests for a file share one
    source and its file reference, and no cleanup takes it away; its reference
    count is the number of those requests. *)
Theorem sources_shared ls y :
  steps registryStep ls newSourceRegistry = Some y →
  (∀ h1 h2 hd1 hd2, rg_handles y !! h1 = Some hd1 → rg_handles y !! h2 = Some hd2 → h_released hd1 = false → h_released hd2 = false →
     (h_task hd1 = h_task hd2 ↔ h_entry hd1 = h_entry hd2))
  ∧ (∀ h hd now ttl, rg_handles y !! h = Some hd → h_released hd = false → rg_sources (cleanupIdle now ttl y) !! h_task hd = Some (h_entry hd))
  ∧ ∀ task k, rg_sources y !! task = Some k → ∃ e, rg_heap y !! k = Some e ∧ e_refs e = holders y k.
Proof.
  intros H. assert (Hi : registryInv y).
  { eapply (steps_inv registryStep registryInv); [intros; by eapply registryInv_step| |exact H].
    constructor; cbn; intros *; rewrite ?lookup_empty; rewrite ?lookup_nil; done. }
  split_and!.
  - intros h1 h2 hd1 hd2 H1 H2 R1 R2. pose proof (v_live _ Hi _ _ H1 R1) as L1. pose proof (v_live _ Hi _ _ H2 R2) as L2. split; intros E.
    + rewrite E in L1. congruence.
    + rewrite E in L1. by apply (v_inj _ Hi _ _ (h_entry hd2)).
  - intros h hd now ttl Hh Hr. apply (v_live _ (inv_cleanup now ttl y Hi) h hd); [|done]. unfold cleanupIdle. by destruct (ttl <=? 0).
  - intros task k Hk. destruct (v_sources _ Hi _ _ Hk) as [e He]. exists e. split; [done|]. by apply (v_refs _ Hi).
Qed.

Definition demo_requests : list registryLabel :=
  [Acquire "document_7" 1 10 100; Acquire "document_7" 1 11 101; SetMedia 0 2; Release 0 102; Release 0 103; CleanupIdle 900 60; Acquire "photo_1" 5 12 901].
Lemma demo_served : ∃ y, steps registryStep demo_requests newSourceRegistry = Some y.
Proof. eexists. vm_compute. reflexivity. Qed.
Lemma sources_shared_witness :
  ∃ y, steps registryStep demo_requests newSourceRegistry = Some y ∧ ∀ task k, rg_sources y !! task = Some k → ∃ e, rg_heap y !! k = Some e ∧ e_refs e = holders y k.
Proof. destruct demo_served as [y Hy]. exists y. split; [exact Hy|]. exact (proj2 (proj2 (sources_shared demo_requests y Hy))). Defined.
End Registry.

(** ** The holder of the pool

    A waiter that finds no pool waits on the channel of the moment; setting
    the pool closes that channel and makes another. *)
Module Holder.

Inductive waiter := Looking | Parked (chan : nat) | Got (pool : Z) | GaveUp (e : string).
Record holderState := mkState {
  ph_pool : option Z; ph_changed : option nat; ph_fresh : nat; ph_closed : list nat; ph_size : Z; ph_sizes : gmap Z Z; ph_waiters : list waiter }.

Inductive holderLabel :=
  | Set_ (pool : option Z)
  | Resize (size : Z)
  | Arrive
  | Look (w : nat)                          (* the critical section of [Wait] *)
  | Wake (w : nat)                          (* <-changed *)
  | Cancel (w : nat) (e : string).          (* <-ctx.Done() *)

Definition set_pool (pool : option Z) (y : holderState) : holderState :=
  let sizes := match pool with Some p => if 0 <? ph_size y then <[p := ph_size y]> (ph_sizes y) else ph_sizes y | None => ph_sizes y end in
  match ph_changed y with
  | Some c => mkState pool (Some (ph_fresh y)) (S (ph_fresh y)) (c :: ph_closed y) (ph_size y) sizes (ph_waiters y)
  | None => mkState pool None (ph_fresh y) (ph_closed y) (ph_size y) sizes (ph_waiters y)
  end.
Definition resize (size : Z) (y : holderState) : holderState :=
  mkState (ph_pool y) (ph_changed y) (ph_fresh y) (ph_closed y) size
    (match ph_pool y with Some p => <[p := size]> (ph_sizes y) | None => ph_sizes y end) (ph_waiters y).
Definition with_waiter (w : nat) (x : waiter) (y : holderState) : holderState :=
  mkState (ph_pool y) (ph_changed y) (ph_fresh y) (ph_closed y) (ph_size y) (ph_sizes y) (<[w := x]> (ph_waiters y)).

Definition holderStep (l : holderLabel) (y : holderState) : option holderState :=
  match l with
  | Set_ pool => Some (set_pool pool y)
  | Resize size => Some (resize size y)
  | Arrive => Some (mkState (ph_pool y) (ph_changed y) (ph_fresh y) (ph_closed y) (ph_size y) (ph_sizes y) (ph_waiters y ++ [Looking]))
  | Look w =>
      match ph_waiters y !! w with
      | Some Looking =>
          Some match ph_pool y, ph_changed y with
               | Some p, _ => with_waiter w (Got p) y
               | None, Some c => with_waiter w (Parked c) y
               | None, None =>
                   let y := mkState None (Some (ph_fresh y)) (S (ph_fresh y)) (ph_closed y) (ph_size y) (ph_sizes y) (ph_waiters y) in
                   with_waiter w (Parked (Nat.pred (ph_fresh y))) y
               end
      | _ => None
      end
  | Wake w => match ph_waiters y !! w with
              | Some (Parked c) => if decide (c ∈ ph_closed y) then Some (with_waiter w Looking y) else None
              | _ => None
              end
  | Cancel w e => match ph_waiters y !! w with Some (Parked _) => Some (with_waiter w (GaveUp e) y) | _ => None end
  end.
Definition newHolder : holderState := mkState None None 0 [] 0 ∅ [].

(** No waiter misses the pool: one that is parked on an open channel waits
    for the next change, and while it does there is no pool. *)
Definition holderInv (y : holderState) : Prop :=
  ∀ w c, ph_waiters y !! w = Some (Parked c) → c ∈ ph_closed y ∨ ph_pool y = None ∧ ph_changed y = Some c.

Lemma holderInv_step l y y' : holderInv y → holderStep l y = Some y' → holderInv y'.
Proof.
  intros Hi. destruct l as [pool|size| |w|w|w e]; cbn [holderStep].
  - intros [= <-] w c. unfold set_pool. specialize (Hi w c). destruct (ph_changed y) as [c0|]; cbn; intros Hw.
    + left. destruct (Hi Hw) as [|[_ [= ->]]]; set_solver.
    + destruct (Hi Hw) as [|[_ ?]]; [by left|done].
  - intros [= <-]. exact Hi.
  - intros [= <-] w c. cbn. rewrite lookup_app_Some, list_lookup_singleton_Some. intros [H|(_ & _ & ?)]; [by apply (Hi w)|done].
  - destruct (ph_waiters y !! w) as [[]|] eqn:Hw; try done. intros [= <-] w' c.
    destruct (ph_pool y) as [p|] eqn:Hp; [|destruct (ph_changed y) as [c0|] eqn:Hc]; cbn; rewrite list_lookup_insert_Some.
    + intros [(_ & ? & _)|[_ H]]; [done|]. by apply (Hi w').
    + intros [(_ & [= ->] & _)|[_ H]]; [by right|]. by apply (Hi w').
    + intros [(_ & [= <-] & _)|[_ H]]; [by right|]. destruct (Hi w' c H) as [|[_ ?]]; [by left|congruence].
  - destruct (ph_waiters y !! w) as [[|c0| |]|] eqn:Hw; try done. destruct (decide _); [|done]. intros [= <-] w' c. cbn.
    rewrite list_lookup_insert_Some. intros [(_ & ? & _)|[_ H]]; [done|]. by apply (Hi w').
  - destruct (ph_waiters y !! w) as [[|c0| |]|] eqn:Hw; try done. intros [= <-] w' c. cbn.
    rewrite list_lookup_insert_Some. intros [(_ & ? & _)|[_ H]]; [done|]. by apply (Hi w').
Qed.

(** Once a pool is set every request that waits can take it. *)
Theorem pool_found ls y w c p :
  steps holderStep ls newHolder = Some y → ph_pool y = Some p → ph_waiters y !! w = Some (Parked c) →
  ∃ y1 y2, holderStep (Wake w) y = Some y1 ∧ holderStep (Look w) y1 = Some y2 ∧ ph_waiters y2 !! w = Some (Got p).
Proof.
  intros H Hp Hw. assert (Hi : holderInv y) by (eapply (steps_inv holderStep holderInv); [intros; by eapply holderInv_step| |exact H]; by intros ? ? ?).
  destruct (Hi w c Hw) as [Hc|[? _]]; [|congruence]. pose proof (lookup_lt_Some _ _ _ Hw) as Hlt.
  exists (with_waiter w Looking y), (with_waiter w (Got p) (with_waiter w Looking y)). unfold holderStep. rewrite Hw, decide_True by done. split; [done|].
  assert (Hl : ph_waiters (with_waiter w Looking y) !! w = Some Looking) by (cbn; by rewrite list_lookup_insert_eq).
  rewrite Hl. cbn [ph_pool with_waiter]. rewrite Hp. split; [done|]. cbn. rewrite list_lookup_insert_eq; [done|]. by rewrite length_insert.
Qed.
End Holder.
