(* ===== verification/Connections.v ===== *)
(** * Telegram connections (bsw/cdd/tgauth/connections.go)

    One account's transport is shared by all who run on it; a login or a
    deletion replaces the stored session only when that transport is gone.
    Goroutines are the callers of [Run], the one that serves a connection, the
    dispatches of updates, and the calls of [Replace] and [Stop]; a label is
    one critical section, wait or answer of the transport's [Run]. *)

From S2P Require Import Prelude Lts.
From stdpp Require Export sets.
Local Open Scope list_scope.
Local Open Scope nat_scope.

Definition DefaultAccount : string := "default".
Definition or_default (account : string) : string := if String.eqb account "" then DefaultAccount else account.

(** ** State *)

(** The goroutine of [serve]: in the transport's [Run], waiting for the users
    after it, past clearing [current], past closing [done]. *)
Inductive serving := NotServing | Running | Leaving | Cleared | Finished.
(** The callback [serve] hands to the transport. *)
Inductive callback := NotCalled | WaitingCancel | WaitingUsers | CalledBack.
#[export] Instance serving_eq : EqDecision serving.
Proof. solve_decision. Defined.

Record connection := mkConn {
  c_account : string; c_key : string; c_started : bool; c_closing : bool; c_ready : bool;
  c_canceled : bool;                        (* its own cancel was called *)
  c_readyCh : bool;                         (* closed *)
  c_err : option string;
  c_users : nat;                            (* the WaitGroup *)
  c_count : nat; c_serve : serving; c_callback : callback }.

(** A call of [Run], with the handler entry it registered. *)
Inductive run_phase := WaitingReady | Calling | ClosingHandler | DrainingHandler | Releasing | Leave (last : bool) | WaitingDone | Ended.
#[export] Instance run_phase_eq : EqDecision run_phase.
Proof. solve_decision. Defined.
Record user := mkUser { u_conn : nat; u_handler : bool; u_registered : bool; u_closed : bool; u_active : nat; u_phase : run_phase }.

(** A dispatch of updates: the entries still to be handled, and the one whose
    handler runs. *)
Record dispatching := mkDispatch { d_rest : list nat; d_running : option nat }.

Inductive change_kind := Replacement (account : string) (loginCommit : bool) | Stopping (account : option string).
Inductive change_phase := Draining | WaitingDrained (c : nat) | Drained | Committing | Unwinding | WaitingChanges | Over (ok : bool).
#[export] Instance change_phase_eq : EqDecision change_phase.
Proof. solve_decision. Defined.
Record change := mkChange { ch_kind : change_kind; ch_phase : change_phase }.

Record state := mkState {
  o_closed : bool; o_canceled : bool; o_current : option nat;
  o_replacing : gset string; o_logins : gset string; o_changes : nat;
  o_conns : list connection; o_users : list user; o_dispatches : list dispatching; o_drains : list change }.
Definition NewConnections : state := mkState false false None ∅ ∅ 0 [] [] [] [].

(** ** Updates *)

Definition with_conns (conns : list connection) (y : state) : state :=
  mkState (o_closed y) (o_canceled y) (o_current y) (o_replacing y) (o_logins y) (o_changes y) conns (o_users y) (o_dispatches y) (o_drains y).
Definition with_users (users : list user) (y : state) : state :=
  mkState (o_closed y) (o_canceled y) (o_current y) (o_replacing y) (o_logins y) (o_changes y) (o_conns y) users (o_dispatches y) (o_drains y).
Definition with_dispatches (ds : list dispatching) (y : state) : state :=
  mkState (o_closed y) (o_canceled y) (o_current y) (o_replacing y) (o_logins y) (o_changes y) (o_conns y) (o_users y) ds (o_drains y).
Definition with_drains (drains : list change) (y : state) : state :=
  mkState (o_closed y) (o_canceled y) (o_current y) (o_replacing y) (o_logins y) (o_changes y) (o_conns y) (o_users y) (o_dispatches y) drains.
Definition with_current (current : option nat) (y : state) : state :=
  mkState (o_closed y) (o_canceled y) current (o_replacing y) (o_logins y) (o_changes y) (o_conns y) (o_users y) (o_dispatches y) (o_drains y).

Definition upd_conn (c : nat) (f : connection → connection) (y : state) : state := with_conns (alter f c (o_conns y)) y.
Definition set_phase (u : nat) (p : run_phase) (y : state) : state :=
  with_users (alter (λ x, mkUser (u_conn x) (u_handler x) (u_registered x) (u_closed x) (u_active x) p) u (o_users y)) y.
Definition set_change (r : nat) (p : change_phase) (y : state) : state :=
  with_drains (alter (λ x, mkChange (ch_kind x) p) r (o_drains y)) y.

Definition closing (c : connection) : connection :=
  mkConn (c_account c) (c_key c) (c_started c) true (c_ready c) (c_canceled c) (c_readyCh c) (c_err c) (c_users c) (c_count c) (c_serve c) (c_callback c).
Definition canceled (c : connection) : connection :=
  mkConn (c_account c) (c_key c) (c_started c) (c_closing c) (c_ready c) true (c_readyCh c) (c_err c) (c_users c) (c_count c) (c_serve c) (c_callback c).
Definition with_callback (k : callback) (c : connection) : connection :=
  mkConn (c_account c) (c_key c) (c_started c) (c_closing c) (c_ready c) (c_canceled c) (c_readyCh c) (c_err c) (c_users c) (c_count c) (c_serve c) k.
Definition with_serve (s : serving) (c : connection) : connection :=
  mkConn (c_account c) (c_key c) (c_started c) (c_closing c) (c_ready c) (c_canceled c) (c_readyCh c) (c_err c) (c_users c) (c_count c) s (c_callback c).

(** [c.ctx], a child of the owner's. *)
Definition ctx_done (y : state) (c : connection) : bool := c_canceled c || o_canceled y.

(** ** Opening and running *)

(** [Open]: the connection, or why not; [client] is what the factory makes. *)
Definition Open (account key : string) (client : res string unit) (y : state) : res string nat * state :=
  let account := or_default account in
  if o_closed y || o_canceled y then (Err "account connections are stopped", y) else
  if decide (account ∈ o_replacing y) then (Err "account session is being replaced", y) else
  match o_current y ≫= λ c, (c,.) <$> o_conns y !! c with
  | Some (c, current) =>
      if negb (String.eqb (c_account current) account) then (Err "another account connection is active", y)
      else if c_closing current then (Err "account connection is stopping", y)
      else if negb (String.eqb (c_key current) key) then (Err "account connection settings changed", y)
      else (Ok c, y)
  | None =>
      match client with
      | Err e => (Err e, y)
      | Ok _ =>
          let c := length (o_conns y) in
          (Ok c, with_current (Some c) (with_conns (o_conns y ++ [mkConn account key false false false false false None 0 0 NotServing NotCalled]) y))
      end
  end.

(** The critical section of [Run], after the caller's context was found
    alive. *)
Definition Run (c : nat) (handler : bool) (y : state) : option state :=
  match o_conns y !! c with
  | Some cn =>
      if c_closing cn then Some y else
      let f cn := mkConn (c_account cn) (c_key cn) true (c_closing cn) (c_ready cn) (c_canceled cn) (c_readyCh cn) (c_err cn)
                    (S (c_users cn)) (S (c_count cn)) (if c_started cn then c_serve cn else Running) (c_callback cn) in
      Some (with_users (o_users y ++ [mkUser c handler handler false 0 WaitingReady]) (upd_conn c f y))
  | None => None
  end.

Definition conn_of (u : user) (y : state) : option connection := o_conns y !! u_conn u.

(** What a caller of [Run] does next; [ctx] tells whether its own context is
    done, [wait] whether the transport stopped under it. *)
Inductive user_step := UReady (ctx : bool) | UCanceled (ctx : bool) | UReturn | UCloseHandler | UHandlerIdle | URelease | UDone (wait : bool) | UFinished.

Definition run_step (u : nat) (s : user_step) (y : state) : option state :=
  x ← o_users y !! u; cn ← conn_of x y;
  match s, u_phase x with
  | UReady ctx, WaitingReady =>
      if c_readyCh cn then Some (set_phase u (if c_ready cn && negb ctx && negb (ctx_done y cn) then Calling else ClosingHandler) y) else None
  | UCanceled ctx, WaitingReady => if ctx || ctx_done y cn then Some (set_phase u ClosingHandler y) else None
  | UReturn, Calling => Some (set_phase u ClosingHandler y)
  | UCloseHandler, ClosingHandler =>
      Some (with_users (<[u := mkUser (u_conn x) (u_handler x) (u_registered x) (u_handler x) (u_active x) (if u_handler x then DrainingHandler else Releasing)]> (o_users y)) y)
  | UHandlerIdle, DrainingHandler => if u_active x =? 0 then Some (set_phase u Releasing y) else None
  | URelease, Releasing =>
      let last := Nat.pred (c_count cn) =? 0 in
      let f c := mkConn (c_account c) (c_key c) (c_started c) (last || c_closing c) (c_ready c) (last || c_canceled c) (c_readyCh c) (c_err c)
                   (c_users c) (Nat.pred (c_count c)) (c_serve c) (c_callback c) in
      Some (with_users (<[u := mkUser (u_conn x) (u_handler x) false (u_closed x) (u_active x) (Leave last)]> (o_users y)) (upd_conn (u_conn x) f y))
  | UDone wait, Leave last =>
      let f c := mkConn (c_account c) (c_key c) (c_started c) (c_closing c) (c_ready c) (c_canceled c) (c_readyCh c) (c_err c)
                   (Nat.pred (c_users c)) (c_count c) (c_serve c) (c_callback c) in
      Some (set_phase u (if last || wait then WaitingDone else Ended) (upd_conn (u_conn x) f y))
  | UFinished, WaitingDone => if decide (c_serve cn = Finished) then Some (set_phase u Ended y) else None
  | _, _ => None
  end.

(** ** Serving *)

Inductive serve_step := SCallback | SCallbackCanceled | SCallbackUsers | SReturned (err : option string) | SUsersGone | SDone.

Definition serve_conn (c : nat) (s : serve_step) (y : state) : option state :=
  cn ← o_conns y !! c;
  match s, c_serve cn with
  | SCallback, Running =>
      match c_callback cn with
      | NotCalled =>
          Some (upd_conn c (λ c, mkConn (c_account c) (c_key c) (c_started c) (c_closing c) true (c_canceled c) true (c_err c) (c_users c) (c_count c) (c_serve c) WaitingCancel) y)
      | _ => None
      end
  | SCallbackCanceled, _ =>
      match c_callback cn with
      | WaitingCancel => if ctx_done y cn then Some (upd_conn c (λ c, with_callback WaitingUsers (canceled (closing c))) y) else None
      | _ => None
      end
  | SCallbackUsers, _ =>
      match c_callback cn with
      | WaitingUsers => if c_users cn =? 0 then Some (upd_conn c (with_callback CalledBack) y) else None
      | _ => None
      end
  | SReturned err, Running =>
      let err := match err with None => if c_ready cn then None else Some "account transport stopped before ready" | e => e end in
      Some (upd_conn c (λ c, mkConn (c_account c) (c_key c) (c_started c) true (c_ready c) true true err (c_users c) (c_count c) Leaving (c_callback c)) y)
  | SUsersGone, Leaving =>
      if c_users cn =? 0
      then let y := upd_conn c (with_serve Cleared) y in
           Some (if decide (o_current y = Some c) then with_current None y else y)
      else None
  | SDone, Cleared => Some (upd_conn c (with_serve Finished) y)
  | _, _ => None
  end.

(** ** Dispatching updates *)

(** The handlers registered on a connection, as [dispatch] copies them. *)
Definition handlers_of (c : nat) (y : state) : list nat :=
  List.filter (λ u, match o_users y !! u with Some x => u_registered x && (u_conn x =? c) | None => false end) (seq 0 (length (o_users y))).

Inductive dispatch_step := DNext (u : nat) | DHandled.
Definition add_active (f : nat → nat) (u : nat) (y : state) : state :=
  with_users (alter (λ x, mkUser (u_conn x) (u_handler x) (u_registered x) (u_closed x) (f (u_active x)) (u_phase x)) u (o_users y)) y.
Definition dispatch (d : nat) (s : dispatch_step) (y : state) : option state :=
  x ← o_dispatches y !! d;
  match s, d_running x with
  | DNext u, None =>
      if decide (u ∈ d_rest x) then
        h ← o_users y !! u;
        let rest := filter (λ v, v ≠ u) (d_rest x) in
        if u_closed h then Some (with_dispatches (<[d := mkDispatch rest None]> (o_dispatches y)) y)
        else Some (with_dispatches (<[d := mkDispatch rest (Some u)]> (o_dispatches y)) (add_active S u y))
      else None
  | DHandled, Some u => Some (with_dispatches (<[d := mkDispatch (d_rest x) None]> (o_dispatches y)) (add_active Nat.pred u y))
  | _, _ => None
  end.

(** ** Replacing a session, stopping, logging in *)

Definition drain_account (x : change) : option string :=
  match ch_kind x with Replacement a _ => Some a | Stopping a => a end.
Definition after_drain (x : change) : change_phase := match ch_kind x with Replacement _ _ => Drained | Stopping _ => WaitingChanges end.

(** The critical section of [Drain]. *)
Definition drain (r : nat) (y : state) : option state :=
  x ← o_drains y !! r;
  match ch_phase x with
  | Draining =>
      match o_current y ≫= λ c, (c,.) <$> o_conns y !! c with
      | Some (c, cn) =>
          if bool_decide (drain_account x = Some (c_account cn)) then
            if c_started cn
            then Some (set_change r (WaitingDrained c) (upd_conn c (λ c, canceled (closing c)) y))
            else Some (set_change r (after_drain x) (with_current None (upd_conn c closing y)))
          else Some (set_change r (after_drain x) y)
      | None => Some (set_change r (after_drain x) y)
      end
  | _ => None
  end.

Inductive change_step :=
  | CDrain
  | CDrained                                (* <-c.done *)
  | CCanceled                               (* <-ctx.Done() *)
  | CCheck (ctx : bool)                     (* ctx.Err(), then o.closed *)
  | CCommitted
  | CEnd                                    (* the deferred sections *)
  | CChanges.                               (* o.changes.Wait() in Stop *)

Definition change_conn (r : nat) (s : change_step) (y : state) : option state :=
  x ← o_drains y !! r;
  match s, ch_phase x with
  | CDrain, Draining => drain r y
  | CDrained, WaitingDrained c =>
      cn ← o_conns y !! c;
      if decide (c_serve cn = Finished) then Some (set_change r (after_drain x) y) else None
  | CCanceled, (WaitingDrained _ | WaitingChanges) =>
      match ch_kind x with Replacement _ _ => Some (set_change r Unwinding y) | Stopping _ => Some (set_change r (Over false) y) end
  | CCheck ctx, Drained => Some (set_change r (if ctx || o_closed y then Unwinding else Committing) y)
  | CCommitted, Committing => Some (set_change r Unwinding y)
  | CEnd, Unwinding =>
      match ch_kind x with
      | Replacement account _ =>
          let y := set_change r (Over true) y in
          Some (mkState (o_closed y) (o_canceled y) (o_current y) (o_replacing y ∖ {[account]}) (o_logins y) (Nat.pred (o_changes y))
            (o_conns y) (o_users y) (o_dispatches y) (o_drains y))
      | Stopping _ => None
      end
  | CChanges, WaitingChanges => if o_changes y =? 0 then Some (set_change r (Over true) y) else None
  | _, _ => None
  end.

Definition replace (account : string) (loginCommit : bool) (y : state) : state :=
  let account := or_default account in
  if o_closed y || bool_decide (account ∈ o_replacing y) || (negb loginCommit && bool_decide (account ∈ o_logins y)) then y
  else mkState (o_closed y) (o_canceled y) (o_current y) ({[account]} ∪ o_replacing y) (o_logins y) (S (o_changes y))
         (o_conns y) (o_users y) (o_dispatches y) (o_drains y ++ [mkChange (Replacement account loginCommit) Draining]).

Definition Stop (y : state) : state :=
  let account := o_current y ≫= λ c, c_account <$> o_conns y !! c in
  mkState true true (o_current y) (o_replacing y) (o_logins y) (o_changes y) (o_conns y) (o_users y) (o_dispatches y)
    (o_drains y ++ [mkChange (Stopping account) (match account with Some _ => Draining | None => WaitingChanges end)]).

Definition BeginLogin (account : string) (y : state) : state :=
  let account := or_default account in
  if o_closed y || bool_decide (account ∈ o_logins y) || bool_decide (account ∈ o_replacing y) then y
  else mkState (o_closed y) (o_canceled y) (o_current y) (o_replacing y) ({[account]} ∪ o_logins y) (S (o_changes y))
         (o_conns y) (o_users y) (o_dispatches y) (o_drains y).
(** The returned function, the first time it is called. *)
Definition EndLogin (account : string) (y : state) : option state :=
  if decide (account ∈ o_logins y)
  then Some (mkState (o_closed y) (o_canceled y) (o_current y) (o_replacing y) (o_logins y ∖ {[account]}) (Nat.pred (o_changes y))
         (o_conns y) (o_users y) (o_dispatches y) (o_drains y))
  else None.

(** ** Steps *)

Inductive label :=
  | LOpen (account key : string) (client : res string unit)
  | LRun (c : nat) (handler : bool)
  | LUser (u : nat) (s : user_step)
  | LServe (c : nat) (s : serve_step)
  | LDispatch (c : nat)
  | LDispatching (d : nat) (s : dispatch_step)
  | LReplace (account : string) (loginCommit : bool)
  | LChange (r : nat) (s : change_step)
  | LStop
  | LOwnerCanceled                          (* the context given to NewConnections *)
  | LBeginLogin (account : string)
  | LEndLogin (account : string).

Definition step (l : label) (y : state) : option state :=
  match l with
  | LOpen account key client => Some (snd (Open account key client y))
  | LRun c handler => Run c handler y
  | LUser u s => run_step u s y
  | LServe c s => serve_conn c s y
  | LDispatch c => Some (with_dispatches (o_dispatches y ++ [mkDispatch (handlers_of c y) None]) y)
  | LDispatching d s => dispatch d s y
  | LReplace account loginCommit => Some (replace account loginCommit y)
  | LChange r s => change_conn r s y
  | LStop => Some (Stop y)
  | LOwnerCanceled => Some (mkState (o_closed y) true (o_current y) (o_replacing y) (o_logins y) (o_changes y) (o_conns y) (o_users y) (o_dispatches y) (o_drains y))
  | LBeginLogin account => Some (BeginLogin account y)
  | LEndLogin account => EndLogin account y
  end.
