(* ===== verification/ConnectionsProps.v ===== *)
(** * What the owner of Telegram connections guarantees

    Lemmas and the theorem about Connections: a session is replaced only when
    nobody uses the old one and no other change of it is under way; a stop
    that succeeds leaves nothing running; a caller of [Run] that returned is
    not handed updates any more. *)

From S2P Require Import Prelude Lts Connections.
Local Open Scope list_scope.
Local Open Scope nat_scope.

(** ** The connections and their users *)

Definition live (cn : connection) : Prop := c_serve cn = Running ∨ c_serve cn = Leaving.
(** The owner's current connection: serving, or opened and not closed. *)
Definition occupying (cn : connection) : Prop := live cn ∨ c_serve cn = NotServing ∧ c_closing cn = false.
Definition dead (cn : connection) : Prop := c_closing cn = true ∧ ¬ live cn.

Record wfc (cn : connection) : Prop := {
  w_closing : c_serve cn ≠ NotServing → c_serve cn ≠ Running → c_closing cn = true;
  w_started : c_started cn = true ↔ c_serve cn ≠ NotServing;
  w_users : ¬ live cn → c_users cn = 0;
  w_callback : c_callback cn ≠ NotCalled → c_serve cn ≠ NotServing;
}.

(** A caller counts until it has left. *)
Definition holds (c : nat) (x : user) : nat :=
  match u_phase x with WaitingDone | Ended => 0 | _ => b2n (u_conn x =? c) end.

Record invC (y : state) : Prop := {
  k_conn : ∀ c cn, o_conns y !! c = Some cn → wfc cn ∧ c_users cn = sum_list_with (holds c) (o_users y);
  k_current : ∀ c, o_current y = Some c ↔ ∃ cn, o_conns y !! c = Some cn ∧ occupying cn;
  k_user : ∀ u x, o_users y !! u = Some x → u_conn x < length (o_conns y);
}.

Lemma not_occupying cn : wfc cn → ¬ occupying cn → dead cn.
Proof.
  intros Hw Ho. split; [|intros H; apply Ho; by left]. destruct (c_serve cn) eqn:Hs.
  - destruct (c_closing cn) eqn:Hc; [done|]. destruct Ho. right. auto.
  - destruct Ho. left. by left.
  - destruct Ho. left. by right.
  - apply (w_closing _ Hw); congruence.
  - apply (w_closing _ Hw); congruence.
Qed.
Lemma dead_not_occupying cn : dead cn → ¬ occupying cn.
Proof. intros [Hc Hl] [H|[_ H]]; [done|congruence]. Qed.
Lemma not_live cn : c_serve cn ≠ Running → c_serve cn ≠ Leaving → ¬ live cn.
Proof. by intros ? ? [?|?]. Qed.

(** A connection and its callers change together. *)
Lemma invC_step c f users y :
  invC y → (∀ u x, users !! u = Some x → u_conn x < length (o_conns y)) →
  (∀ c', c' ≠ c → sum_list_with (holds c') users = sum_list_with (holds c') (o_users y)) →
  (∀ cn, o_conns y !! c = Some cn → wfc cn → c_users cn = sum_list_with (holds c) (o_users y) →
    wfc (f cn) ∧ c_users (f cn) = sum_list_with (holds c) users ∧ (occupying (f cn) ↔ occupying cn)) →
  invC (with_users users (upd_conn c f y)).
Proof.
  intros Hi Hl Hs Hf.
  assert (Hc : ∀ cn, o_conns y !! c = Some cn → wfc (f cn) ∧ c_users (f cn) = sum_list_with (holds c) users ∧ (occupying (f cn) ↔ occupying cn)).
  { intros cn H. destruct (k_conn _ Hi _ _ H). by apply Hf. }
  constructor; cbn.
  - intros c' cn (cn0 & H0 & ->)%alter_Some. destruct (decide (c = c')) as [->|Hne].
    + destruct (Hc _ H0) as (? & ? & _). done.
    + rewrite Hs by done. by apply (k_conn _ Hi).
  - intros c'. rewrite (k_current _ Hi). split; intros (cn & H & Ho).
    + eexists. split; [apply alter_Some; by exists cn|]. destruct (decide (c = c')) as [->|]; [by apply (Hc _ H)|done].
    + apply alter_Some in H as (cn0 & H0 & ->). exists cn0. split; [done|]. destruct (decide (c = c')) as [->|]; [by apply (Hc _ H0)|done].
  - intros u x H. rewrite length_alter. by apply (Hl u).
Qed.
Lemma invC_upd c f y :
  invC y → (∀ cn, o_conns y !! c = Some cn → wfc cn → wfc (f cn) ∧ c_users (f cn) = c_users cn ∧ (occupying (f cn) ↔ occupying cn)) →
  invC (upd_conn c f y).
Proof.
  intros Hi Hf. apply (invC_step c f (o_users y) y Hi); [apply (k_user _ Hi)|done|].
  intros cn H Hw <-. by apply Hf.
Qed.

(** A caller moves between phases that count alike. *)
Lemma invC_users users y :
  invC y → (∀ c, sum_list_with (holds c) users = sum_list_with (holds c) (o_users y)) → (∀ u x, users !! u = Some x → u_conn x < length (o_conns y)) →
  invC (with_users users y).
Proof.
  intros Hi Hs Hu. constructor; cbn; [|apply (k_current _ Hi)|done].
  intros c cn H. rewrite Hs. by apply (k_conn _ Hi).
Qed.

Lemma invC_alter u f y :
  invC y → (∀ x, o_users y !! u = Some x → u_conn (f x) = u_conn x ∧ ∀ c, holds c (f x) = holds c x) → invC (with_users (alter f u (o_users y)) y).
Proof.
  intros Hi Hf. apply invC_users; [done| |].
  - intros c. destruct (o_users y !! u) as [x|] eqn:Hx.
    + pose proof (sum_alter (holds c) f _ _ _ Hx) as H. destruct (Hf x eq_refl) as [_ Hh]. rewrite Hh in H. lia.
    + assert (He : alter f u (o_users y) = o_users y); [|by rewrite He]. apply list_eq. intros j. destruct (decide (u = j)) as [->|Hne].
      * rewrite list_lookup_alter_eq. by rewrite Hx.
      * by rewrite list_lookup_alter_ne.
  - intros v x (x0 & H0 & ->)%alter_Some. destruct (decide (u = v)) as [->|]; [|by apply (k_user _ Hi v)].
    destruct (Hf x0 H0) as [-> _]. by apply (k_user _ Hi v).
Qed.

(** The same record outside connections and users. *)
Lemma invC_same y y' : invC y → o_conns y' = o_conns y → o_users y' = o_users y → o_current y' = o_current y → invC y'.
Proof. intros Hi H1 H2 H3. constructor; rewrite ?H1, ?H2, ?H3; apply Hi. Qed.

Ltac wfc_tac := intros cn ? [? ? ? ?]; (split; [constructor; cbn; auto|]); (split; [reflexivity|]); unfold occupying, live; cbn; tauto.

Lemma open_invC account key client y : invC y → invC (snd (Open account key client y)).
Proof.
  intros Hi. unfold Open. destruct (_ || _); [done|]. destruct (decide _); [done|].
  destruct (o_current y) as [c|] eqn:Hc; cbn [mbind option_bind].
  - destruct (proj1 (k_current _ Hi c) Hc) as (cn & -> & _). cbn.
    destruct (negb _); [done|]. destruct (c_closing cn); [done|]. by destruct (negb _).
  - destruct client as [[]|]; [|done]. cbn. constructor; cbn.
    + intros c cn [H|[-> ->]]%lookup_snoc; [by apply (k_conn _ Hi)|]. split; [constructor; cbn; done|].
      cbn. symmetry. apply sum_zero. intros u x H. pose proof (k_user _ Hi u x H). unfold holds.
      assert ((u_conn x =? length (o_conns y)) = false) as -> by (apply Nat.eqb_neq; lia). by destruct (u_phase x).
    + intros c. split.
      * intros [= <-]. eexists. split; [apply lookup_snoc; by right|]. right. done.
      * intros (cn & [H|[-> ->]]%lookup_snoc & Ho); [|done]. assert (o_current y = Some c) by (apply (k_current _ Hi); eauto). congruence.
    + intros u x H. rewrite length_app. pose proof (k_user _ Hi u x H). lia.
Qed.

Lemma run_invC c handler y y' : invC y → Run c handler y = Some y' → invC y'.
Proof.
  intros Hi. unfold Run. destruct (o_conns y !! c) as [cn|] eqn:Hc; [|done]. destruct (c_closing cn) eqn:Hcl; [by intros [= <-]|].
  intros [= <-]. apply invC_step; [done| | |].
  - intros u x [H|[-> ->]]%lookup_snoc; [by apply (k_user _ Hi u)|]. cbn. by eapply lookup_lt_Some.
  - intros c' Hne. rewrite sum_snoc. cbn. assert ((c =? c') = false) as -> by (apply Nat.eqb_neq; congruence). cbn. lia.
  - intros cn0 H Hw Hu. rewrite Hc in H. injection H as <-. rewrite sum_snoc. cbn [holds u_phase u_conn]. rewrite Nat.eqb_refl.
    destruct Hw as [W1 W2 W3 W4]. unfold occupying, live in *.
    destruct (c_serve cn) eqn:Hse; (try by rewrite Hcl in W1; discriminate W1); destruct (c_started cn);
      (split; [constructor|split; [cbn; rewrite Hu; lia|]]); cbn; rewrite ?Hse; unfold live; cbn; rewrite ?Hse; try tauto; try (intuition congruence).
Qed.

(** The guards of a step that was possible hold. *)
Ltac guards H :=
  repeat match type of H with
  | (if ?b then _ else _) = Some _ => let E := fresh "E" in destruct b eqn:E; try discriminate H
  | match ?b with _ => _ end = Some _ => let E := fresh "E" in destruct b eqn:E; try discriminate H
  end.

(** A user's connection is live as long as it has not left. *)
Lemma holds_live y u x cn : invC y → o_users y !! u = Some x → holds (u_conn x) x = 1 → o_conns y !! u_conn x = Some cn → live cn ∧ 1 <= c_users cn.
Proof.
  intros Hi Hu Hh Hc. destruct (k_conn _ Hi _ _ Hc) as [Hw Hs]. pose proof (sum_lookup (holds (u_conn x)) _ _ _ Hu) as Hle.
  split; [|lia]. unfold live. pose proof (w_users _ Hw) as Hz. unfold live in Hz. destruct (c_serve cn); try tauto; exfalso; rewrite Hz in Hs; lia || intuition congruence.
Qed.
Lemma holds_self x : u_phase x ≠ WaitingDone → u_phase x ≠ Ended → holds (u_conn x) x = 1.
Proof. intros. unfold holds. rewrite Nat.eqb_refl. by destruct (u_phase x). Qed.

Lemma invC_user u x x' y :
  invC y → o_users y !! u = Some x → u_conn x' = u_conn x → (∀ c, holds c x' = holds c x) → invC (with_users (<[u := x']> (o_users y)) y).
Proof.
  intros Hi Hx He Hh. apply invC_users; [done| |].
  - intros c. pose proof (sum_insert (holds c) _ _ x' _ Hx) as H. rewrite Hh in H. lia.
  - intros v z [(<- & -> & _)|[_ H]]%list_lookup_insert_Some; [rewrite He; by apply (k_user _ Hi u)|by apply (k_user _ Hi v)].
Qed.
Lemma set_phase_user u p y x : o_users y !! u = Some x →
  set_phase u p y = with_users (<[u := mkUser (u_conn x) (u_handler x) (u_registered x) (u_closed x) (u_active x) p]> (o_users y)) y.
Proof. intros H. unfold set_phase. by rewrite (alter_insert _ _ _ _ H). Qed.
Lemma set_phase_invC u x p y :
  invC y → o_users y !! u = Some x → (∀ c, holds c (mkUser (u_conn x) (u_handler x) (u_registered x) (u_closed x) (u_active x) p) = holds c x) → invC (set_phase u p y).
Proof. intros Hi Hx Hh. rewrite (set_phase_user _ _ _ _ Hx). by apply (invC_user u x). Qed.

Lemma user_others u x x' y c :
  o_users y !! u = Some x → u_conn x' = u_conn x → c ≠ u_conn x → sum_list_with (holds c) (<[u := x']> (o_users y)) = sum_list_with (holds c) (o_users y).
Proof.
  intros Hx He Hne. pose proof (sum_insert (holds c) _ _ x' _ Hx) as H. unfold holds in H at 2 4. rewrite He in H.
  assert ((u_conn x =? c) = false) as Hf by (apply Nat.eqb_neq; congruence). rewrite Hf in H. cbn in H. destruct (u_phase x), (u_phase x'); lia.
Qed.

Lemma run_step_invC u s y y' : invC y → run_step u s y = Some y' → invC y'.
Proof.
  intros Hi. unfold run_step, conn_of. intros (x & Hx & H)%bind_Some. apply bind_Some in H as (cn & Hc & H).
  destruct s, (u_phase x) eqn:Hp; try discriminate H; guards H; injection H as <-;
    try (apply (set_phase_invC u x); [done|done|intros c; unfold holds; rewrite Hp; cbn; by repeat case_match]).
  - apply (invC_user u x); [done|done|done|]. intros c. unfold holds. rewrite Hp. cbn. by destruct (u_handler x).
  - destruct (holds_live y u x cn Hi Hx) as [Hl H1]; [by apply holds_self; rewrite Hp|done|].
    apply invC_step; [done| |intros c' ?; by apply (user_others u x _ y)|].
    + intros v z [(<- & <- & _)|[_ H]]%list_lookup_insert_Some; [exact (k_user _ Hi _ _ Hx)|by apply (k_user _ Hi v)].
    + intros cn0 H [W1 W2 W3 W4] Hu. simplify_eq. split; [constructor; cbn; auto|split].
      * intros ??. rewrite W1 by done. apply orb_true_r.
      * cbn. rewrite Hu. set (x' := mkUser _ _ _ _ _ _). pose proof (sum_insert (holds (u_conn x)) _ _ x' _ Hx) as Hs.
        unfold holds in Hs at 2 4. rewrite Hp in Hs. cbn in Hs. lia.
      * unfold occupying. cbn. split; intros _; by left.
  - destruct (holds_live y u x cn Hi Hx) as [Hl H1]; [by apply holds_self; rewrite Hp|done|].
    rewrite (set_phase_user u _ _ x) by done.
    apply invC_step; [done| |intros c' ?; by apply (user_others u x _ y)|].
    + intros v z [(<- & <- & _)|[_ H]]%list_lookup_insert_Some; [exact (k_user _ Hi _ _ Hx)|by apply (k_user _ Hi v)].
    + intros cn0 H [W1 W2 W3 W4] Hu. simplify_eq. split; [constructor; cbn; auto|split].
      * intros ?. exfalso. auto.
      * cbn. set (x' := mkUser _ _ _ _ _ _). pose proof (sum_insert (holds (u_conn x)) _ _ x' _ Hx) as Hs.
        unfold holds in Hs at 2 4. rewrite Hp in Hs. cbn [u_phase u_conn x'] in Hs. rewrite Nat.eqb_refl in Hs. cbn [b2n] in Hs. fold x'; destruct (_ || wait); lia.
      * unfold occupying. cbn. split; intros _; by left.
Qed.

(** The current connection is given up. *)
Lemma invC_clear c f cn y :
  invC y → o_conns y !! c = Some cn → occupying cn → wfc (f cn) → c_users (f cn) = c_users cn → ¬ occupying (f cn) →
  invC (with_current None (upd_conn c f y)).
Proof.
  intros Hi Hc Ho Hw Hu Hn. assert (Hcur : o_current y = Some c) by (apply (k_current _ Hi); eauto). constructor; cbn; [| |].
  - intros c' cn' (cn0 & H0 & ->)%alter_Some. destruct (decide (c = c')) as [->|]; [|by apply (k_conn _ Hi)].
    simplify_eq. split; [done|]. rewrite Hu. by apply (k_conn _ Hi).
  - intros c'. split; [done|]. intros (cn' & (cn0 & H0 & ->)%alter_Some & Hoc). exfalso. destruct (decide (c = c')) as [->|]; [by simplify_eq|].
    assert (o_current y = Some c') by (apply (k_current _ Hi); eauto). congruence.
  - intros u x H. rewrite length_alter. by apply (k_user _ Hi u).
Qed.

Lemma serve_invC c s y y' : invC y → serve_conn c s y = Some y' → invC y'.
Proof.
  intros Hi. unfold serve_conn. intros (cn & Hc & H)%bind_Some. destruct (k_conn _ Hi _ _ Hc) as [[W1 W2 W3 W4] Hu]. unfold live in W3.
  assert (Hx : ∀ P : connection → Prop, P cn → ∀ cn0, o_conns y !! c = Some cn0 → wfc cn0 → P cn0) by (intros P HP cn0 H0 _; by simplify_eq).
  destruct s, (c_serve cn) eqn:Hs; try discriminate H; guards H; injection H as <-;
    try (apply invC_upd; [done|]; apply Hx; split; [constructor; cbn; rewrite ?Hs; unfold live; cbn; rewrite ?Hs; intuition congruence|
         split; [done|unfold occupying, live; cbn; rewrite ?Hs; intuition congruence]]).
  - assert (Hcur : o_current y = Some c) by (apply (k_current _ Hi); exists cn; split; [done|left; by right]).
    cbn. rewrite decide_True by done. apply Nat.eqb_eq in E.
    apply (invC_clear c _ cn); [done|done|left; by right| |done|].
    + constructor; cbn; [intros _ _; by apply W1|intuition congruence|done|done].
    + unfold occupying, live. cbn. intuition congruence.
Qed.

Lemma drain_invC r y y' : invC y → drain r y = Some y' → invC y'.
Proof.
  intros Hi. unfold drain. intros (x & Hx & H)%bind_Some. destruct (ch_phase x); try discriminate H.
  destruct (o_current y) as [c|] eqn:Hcur; cbn [mbind option_bind] in H; [|injection H as <-; by apply (invC_same y)].
  destruct (proj1 (k_current _ Hi c) Hcur) as (cn & Hc & Ho). rewrite Hc in H. cbn [fmap option_fmap option_map] in H.
  destruct (k_conn _ Hi _ _ Hc) as [[W1 W2 W3 W4] Hu]. unfold live in W3. guards H; injection H as <-.
  - refine (invC_same (upd_conn c (λ c, canceled (closing c)) y) _ _ _ _ _); [|done..]. apply invC_upd; [done|].
    intros cn0 H0 _. simplify_eq. split; [constructor; cbn; rewrite ?E0; unfold live; cbn; auto|split; [done|]].
    unfold occupying, live in *. cbn. destruct (c_serve cn); intuition congruence.
  - refine (invC_same (with_current None (upd_conn c closing y)) _ _ _ _ _); [|done..].
    apply (invC_clear c _ cn); [done..| |done|].
    + constructor; cbn; rewrite ?E0; unfold live; cbn; auto.
    + unfold occupying, live. cbn. destruct (c_serve cn); intuition congruence.
  - by apply (invC_same y).
Qed.

Lemma change_invC r s y y' : invC y → change_conn r s y = Some y' → invC y'.
Proof.
  intros Hi. unfold change_conn. intros (x & Hx & H)%bind_Some.
  destruct s, (ch_phase x); try discriminate H; try (by eapply drain_invC); try (apply bind_Some in H as (cn & _ & H));
    guards H; injection H as <-; by apply (invC_same y).
Qed.

Lemma dispatch_invC d s y y' : invC y → dispatch d s y = Some y' → invC y'.
Proof.
  intros Hi. unfold dispatch. intros (x & Hx & H)%bind_Some.
  assert (Ha : ∀ f u l, invC (with_dispatches l (add_active f u y))).
  { intros f u l. apply (invC_same (add_active f u y)); [|done..]. by apply invC_alter. }
  destruct s, (d_running x); try discriminate H; guards H; [apply bind_Some in H as (h & _ & H); guards H|]; injection H as <-; [by apply (invC_same y)|apply Ha..].
Qed.

Lemma step_invC l y y' : invC y → step l y = Some y' → invC y'.
Proof.
  intros Hi. destruct l; cbn [step]; intros H;
    [injection H as <-; by apply open_invC|by eapply run_invC|by eapply run_step_invC|by eapply serve_invC|..];
    try (by eapply change_invC); try (by eapply dispatch_invC).
  - injection H as <-. by apply (invC_same y).
  - injection H as <-. unfold replace. destruct (_ || _); [done|]. by apply (invC_same y).
  - injection H as <-. by apply (invC_same y).
  - injection H as <-. by apply (invC_same y).
  - injection H as <-. unfold BeginLogin. destruct (_ || _); [done|]. by apply (invC_same y).
  - unfold EndLogin in H. guards H. injection H as <-. by apply (invC_same y).
Qed.

(** ** What a step does to the connections

    A dead connection stays dead, and no connection is opened for an account
    whose session is being replaced, nor after a stop. *)

Definition conns_le (y y' : state) : Prop :=
  ∀ c cn', o_conns y' !! c = Some cn' →
    (∃ cn, o_conns y !! c = Some cn ∧ c_account cn' = c_account cn ∧ (dead cn → dead cn')) ∨
    o_closed y = false ∧ c_account cn' ∉ o_replacing y.

Lemma conns_le_same y y' : o_conns y' = o_conns y → conns_le y y'.
Proof. intros He c cn' H. left. exists cn'. by rewrite <- He. Qed.
Lemma upd_conn_le c f y y' :
  invC y → o_conns y' = alter f c (o_conns y) →
  (∀ cn, o_conns y !! c = Some cn → wfc cn → c_account (f cn) = c_account cn ∧ (dead cn → dead (f cn))) → conns_le y y'.
Proof.
  intros Hi He Hf c' cn'. rewrite He. intros (cn & H & ->)%alter_Some. left. exists cn. split; [done|]. destruct (decide (c = c')) as [->|]; [|done].
  apply Hf; [done|by apply (k_conn _ Hi _ _ H)].
Qed.
Ltac upd_le := eapply upd_conn_le; [done|reflexivity|]; intros cn' Hcn [? ? ? ?]; split; [done|]; unfold dead, live; simplify_eq; cbn; intuition congruence.

Lemma serve_le c s y y' : invC y → serve_conn c s y = Some y' → conns_le y y'.
Proof.
  intros Hi. unfold serve_conn. intros (cn & Hc & H)%bind_Some.
  destruct s, (c_serve cn) eqn:Hs; try discriminate H; guards H; injection H as <-; try upd_le.
  cbn. destruct (decide (o_current y = Some c)); upd_le.
Qed.

Lemma run_le c handler y y' : invC y → Run c handler y = Some y' → conns_le y y'.
Proof.
  intros Hi. unfold Run. destruct (o_conns y !! c) as [cn|] eqn:Hc; [|done]. destruct (c_closing cn) eqn:Hcl; [by intros [= <-]; apply conns_le_same|].
  intros [= <-]. upd_le.
Qed.

Lemma run_step_le u s y y' : invC y → run_step u s y = Some y' → conns_le y y'.
Proof.
  intros Hi. unfold run_step, conn_of. intros (x & Hx & H)%bind_Some. apply bind_Some in H as (cn & Hc & H).
  destruct s, (u_phase x) eqn:Hp; try discriminate H; guards H; injection H as <-; try (by apply conns_le_same); [|upd_le].
  eapply upd_conn_le; [done|reflexivity|]. intros cn' _ _. split; [done|]. intros [Hcl Hl]. split; [cbn; by rewrite Hcl, orb_true_r|done].
Qed.

Lemma open_le account key client y : conns_le y (snd (Open account key client y)).
Proof.
  unfold Open. destruct (o_closed y) eqn:Hcl; [by apply conns_le_same|]. cbn [orb]. destruct (o_canceled y); [by apply conns_le_same|].
  destruct (decide _) as [|Hr]; [by apply conns_le_same|].
  destruct (o_current y ≫= _) as [[c current]|].
  - destruct (negb _); [by apply conns_le_same|]. destruct (c_closing current); [by apply conns_le_same|]. destruct (negb _); by apply conns_le_same.
  - destruct client as [[]|]; [|by apply conns_le_same]. cbn.
    intros c' cn' [H|[-> ->]]%lookup_snoc; [left; by exists cn'|right; by split].
Qed.

(** ** Changes of sessions *)

Definition is_over (p : change_phase) : bool := match p with Over _ => true | _ => false end.
(** The account a replacement holds, and whether it is a login's. *)
Definition replacer (x : change) : option (string * bool) :=
  match ch_kind x with
  | Replacement account login => if is_over (ch_phase x) then None else Some (account, login)
  | Stopping _ => None
  end.
Definition counts (x : change) : nat := match replacer x with Some _ => 1 | None => 0 end.

Definition all_dead (y : state) (P : nat → string → Prop) : Prop :=
  ∀ c cn, o_conns y !! c = Some cn → P c (c_account cn) → dead cn.
Definition phase_ok (y : state) (x : change) : Prop :=
  match ch_kind x, ch_phase x with
  | Replacement a _, WaitingDrained c => all_dead y (λ c' a', c' ≠ c ∧ a' = a)
  | Replacement a _, (Drained | Committing) => all_dead y (λ _ a', a' = a)
  | Replacement _ _, (Draining | Unwinding | Over _) => True
  | Replacement _ _, WaitingChanges => False
  | Stopping a, Draining => o_closed y = true ∧ ∃ acc, a = Some acc ∧ all_dead y (λ _ a', a' ≠ acc)
  | Stopping _, WaitingDrained c => o_closed y = true ∧ all_dead y (λ c' _, c' ≠ c)
  | Stopping _, WaitingChanges => o_closed y = true ∧ all_dead y (λ _ _, True)
  | Stopping _, Over true => o_closed y = true ∧ all_dead y (λ _ _, True) ∧ o_changes y = 0
  | Stopping _, Over false => True
  | Stopping _, (Drained | Committing | Unwinding) => False
  end.

Record invR (y : state) : Prop := {
  r_replacing : ∀ r x a lc, o_drains y !! r = Some x → replacer x = Some (a, lc) →
    a ∈ o_replacing y ∧ (lc = false → a ∉ o_logins y);
  r_single : ∀ r1 r2 x1 x2 a lc1 lc2, o_drains y !! r1 = Some x1 → o_drains y !! r2 = Some x2 →
    replacer x1 = Some (a, lc1) → replacer x2 = Some (a, lc2) → r1 = r2;
  r_phase : ∀ r x, o_drains y !! r = Some x → phase_ok y x;
  r_changes : o_changes y = size (o_logins y) + sum_list_with counts (o_drains y);
}.

Lemma all_dead_le y y' (P : nat → string → Prop) :
  conns_le y y' → all_dead y P → (∀ c cn, o_conns y' !! c = Some cn → P c (c_account cn) → o_closed y = false → c_account cn ∈ o_replacing y) → all_dead y' P.
Proof.
  intros Hle Hd Hn c cn' H HP. destruct (Hle c cn' H) as [(cn & Hc & Ha & Hdd)|[Hcl Hr]].
  - apply Hdd, (Hd c); [done|]. by rewrite <- Ha.
  - destruct Hr. by apply (Hn c cn' H).
Qed.

(** A change whose phase stays is as it was. *)
Lemma phase_le y y' x :
  conns_le y y' → (o_closed y = true → o_closed y' = true ∧ o_changes y' <= o_changes y) →
  (∀ a lc, replacer x = Some (a, lc) → a ∈ o_replacing y) → phase_ok y x → phase_ok y' x.
Proof.
  intros Hle Hcl Hr. unfold phase_ok, replacer in *.
  destruct (ch_kind x) as [a lc|a], (ch_phase x) as [| | | | | |[]]; cbn [is_over] in *; try done.
  - intros H. eapply all_dead_le; [done..|]. intros c' cn _ [_ ->] _. by eapply Hr.
  - intros H. eapply all_dead_le; [done..|]. intros c' cn _ -> _. by eapply Hr.
  - intros H. eapply all_dead_le; [done..|]. intros c' cn _ -> _. by eapply Hr.
  - intros [Hc (acc & -> & H)]. destruct (Hcl Hc) as [? _]. split; [done|]. exists acc. split; [done|]. eapply all_dead_le; [done..|]. congruence.
  - intros [Hc H]. destruct (Hcl Hc) as [? _]. split; [done|]. eapply all_dead_le; [done..|]. congruence.
  - intros [Hc H]. destruct (Hcl Hc) as [? _]. split; [done|]. eapply all_dead_le; [done..|]. congruence.
  - intros (Hc & H & H0). destruct (Hcl Hc) as [? ?]. split; [done|]. split; [|lia]. eapply all_dead_le; [done..|]. congruence.
Qed.

(** Steps that leave the changes and the logins alone. *)
Lemma invR_le y y' :
  invR y → conns_le y y' → (o_closed y = true → o_closed y' = true) → o_replacing y' = o_replacing y → o_logins y' = o_logins y →
  o_changes y' = o_changes y → o_drains y' = o_drains y → invR y'.
Proof.
  intros Hi Hle Hc Hr Hl Hn Hd. constructor; rewrite ?Hr, ?Hl, ?Hn, ?Hd; [apply (r_replacing _ Hi)|apply (r_single _ Hi)| |apply (r_changes _ Hi)].
  intros r x H. apply (phase_le y); [done| | |by apply (r_phase _ Hi r)].
  - intros ?. split; [auto|lia].
  - intros a lc H1. by apply (r_replacing _ Hi r x a lc).
Qed.

Lemma invR_set r x p y :
  invR y → o_drains y !! r = Some x → replacer (mkChange (ch_kind x) p) = replacer x → phase_ok y (mkChange (ch_kind x) p) → invR (set_change r p y).
Proof.
  intros Hi Hx Hr Hp. unfold set_change. rewrite (alter_insert _ _ _ _ Hx). cbn.
  assert (Hl : ∀ r' x', <[r := mkChange (ch_kind x) p]> (o_drains y) !! r' = Some x' → ∃ x0, o_drains y !! r' = Some x0 ∧ replacer x' = replacer x0 ∧ phase_ok y x').
  { intros r' x' [(<- & <- & _)|[_ H]]%list_lookup_insert_Some; [by exists x|]. exists x'. repeat split; [done|]. by apply (r_phase _ Hi r'). }
  constructor; cbn.
  - intros r' x' a lc (x0 & H0 & -> & _)%Hl. by apply (r_replacing _ Hi r').
  - intros r1 r2 x1 x2 a lc1 lc2 (z1 & H1 & -> & _)%Hl (z2 & H2 & -> & _)%Hl. by apply (r_single _ Hi).
  - intros r' x' (x0 & _ & _ & H)%Hl. done.
  - rewrite (r_changes _ Hi). f_equal. pose proof (sum_insert counts _ _ (mkChange (ch_kind x) p) _ Hx) as H. unfold counts in H at 2 4. rewrite Hr in H. lia.
Qed.

Lemma not_current_dead c cn y : invC y → o_conns y !! c = Some cn → o_current y ≠ Some c → dead cn.
Proof. intros Hi Hc Hn. apply not_occupying; [by apply (k_conn _ Hi _ _ Hc)|]. intros Ho. apply Hn, (k_current _ Hi). eauto. Qed.

(** Nothing of the account is left to wait for. *)
Lemma after_drain_ok y x : 
  (∀ a, ch_kind x = Stopping a → o_closed y = true ∧ all_dead y (λ _ _, True)) →
  (∀ a lc, ch_kind x = Replacement a lc → all_dead y (λ _ a', a' = a)) → phase_ok y (mkChange (ch_kind x) (after_drain x)).
Proof. intros H1 H2. unfold phase_ok, after_drain. destruct (ch_kind x) as [a lc|a]; cbn; [by apply (H2 a lc)|by apply (H1 a)]. Qed.
Lemma after_drain_replacer x : is_over (ch_phase x) = false → replacer (mkChange (ch_kind x) (after_drain x)) = replacer x.
Proof. intros H. unfold replacer, after_drain. cbn. rewrite H. by destruct (ch_kind x). Qed.

Lemma drain_invR r y y' : invC y → invR y → drain r y = Some y' → invR y'.
Proof.
  intros HC Hi. unfold drain. intros (x & Hx & H)%bind_Some. destruct (ch_phase x) eqn:Hp; try discriminate H.
  pose proof (r_phase _ Hi r x Hx) as Hok. unfold phase_ok in Hok. rewrite Hp in Hok.
  assert (Hk : ∀ a, ch_kind x = Stopping a → o_closed y = true) by (intros a Ha; rewrite Ha in Hok; apply Hok).
  destruct (o_current y) as [c|] eqn:Hcur; cbn [mbind option_bind] in H.
  2:{ injection H as <-. apply invR_set with x; [done|done|by apply after_drain_replacer; rewrite Hp|].
      apply after_drain_ok; [intros a Ha; split; [exact (Hk _ Ha)|]|intros a lc Ha]; intros c cn Hc _; (eapply not_current_dead; [done..|by rewrite Hcur]). }
  destruct (proj1 (k_current _ HC c) Hcur) as (cn & Hc & Ho). rewrite Hc in H. cbn [fmap option_fmap option_map] in H.
  assert (Hoth : ∀ f c' cn', o_conns (upd_conn c f y) !! c' = Some cn' → c' ≠ c → dead cn').
  { intros f c' cn' (cn0 & H0 & ->)%alter_Some Hne. rewrite decide_False by congruence. eapply not_current_dead; [done..|congruence]. }
  assert (Hle : ∀ f, (dead cn → dead (f cn)) → (c_account (f cn) = c_account cn) → conns_le y (upd_conn c f y)).
  { intros f Hf Ha. eapply upd_conn_le; [done|reflexivity|]. intros cn0 ? _. by simplify_eq. }
  guards H; injection H as <-.
  - apply invR_set with x; [|done|by unfold replacer; rewrite Hp|].
    + apply (invR_le y); [done| |done..]. apply Hle; [|done]. unfold dead, live. cbn. tauto.
    + unfold phase_ok. cbn [ch_kind ch_phase]. destruct (ch_kind x) eqn:Hkind; [|split; [exact (Hk _ eq_refl)|]]; intros c' cn' H' HP; eapply Hoth; try done; apply HP.
  - assert (Hd : all_dead (with_current None (upd_conn c closing y)) (λ _ _, True)).
    { intros c' cn' H' _. destruct (decide (c' = c)) as [->|Hne]; [|exact (Hoth closing _ _ H' Hne)]. apply alter_Some in H' as (cn0 & H0 & ->).
      rewrite decide_True by done. simplify_eq. split; [done|]. pose proof (w_started _ (proj1 (k_conn _ HC _ _ Hc))) as Hw. rewrite E0 in Hw.
      unfold live. cbn. destruct (c_serve cn); intuition congruence. }
    apply invR_set with x; [|done|by apply after_drain_replacer; rewrite Hp|].
    + apply (invR_le y); [done| |done..]. apply (Hle closing); [|done]. unfold dead, live. cbn. tauto.
    + apply after_drain_ok; [intros a Ha; split; [exact (Hk _ Ha)|done]|intros a lc Ha]. intros c' cn' H' _. by apply (Hd c').
  - apply bool_decide_eq_false in E. apply invR_set with x; [done|done|by apply after_drain_replacer; rewrite Hp|].
    apply after_drain_ok; [intros a Ha|intros a lc Ha]; unfold drain_account in E; rewrite Ha in *.
    + exfalso. destruct Hok as (_ & acc & -> & Hd). apply (dead_not_occupying cn); [|done]. apply (Hd c); [done|]. congruence.
    + intros c' cn' H' Hac. eapply not_current_dead; [done..|]. intros Hcc. assert (c' = c) as -> by congruence. congruence.
Qed.

(** A replacement ends. *)
Lemma end_invR r x a lc y :
  invR y → o_drains y !! r = Some x → ch_kind x = Replacement a lc → ch_phase x = Unwinding →
  invR (mkState (o_closed y) (o_canceled y) (o_current y) (o_replacing y ∖ {[a]}) (o_logins y) (Nat.pred (o_changes y))
          (o_conns y) (o_users y) (o_dispatches y) (<[r := mkChange (Replacement a lc) (Over true)]> (o_drains y))).
Proof.
  intros Hi Hx Hk Hp. assert (Hr : replacer x = Some (a, lc)) by (unfold replacer; by rewrite Hk, Hp).
  set (x' := mkChange (Replacement a lc) (Over true)).
  assert (Hl : ∀ r' z b lb, <[r := x']> (o_drains y) !! r' = Some z → replacer z = Some (b, lb) → r' ≠ r ∧ b ≠ a ∧ o_drains y !! r' = Some z).
  { intros r' z b lb [(<- & <- & _)|[Hne H]]%list_lookup_insert_Some Hz; [done|]. split; [congruence|]. split; [|done]. intros ->. by apply Hne, (r_single _ Hi r r' x z a lc lb). }
  constructor; cbn.
  - intros r' z b lb H Hz. destruct (Hl _ _ _ _ H Hz) as (_ & Hne & H0). destruct (r_replacing _ Hi _ _ _ _ H0 Hz). split; [set_solver|done].
  - intros r1 r2 x1 x2 b l1 l2 H1 H2 Hb1 Hb2. destruct (Hl _ _ _ _ H1 Hb1) as (_ & _ & H1'), (Hl _ _ _ _ H2 Hb2) as (_ & _ & H2').
    by apply (r_single _ Hi _ _ x1 x2 b l1 l2).
  - intros r' z [(<- & <- & _)|[_ H]]%list_lookup_insert_Some; [done|]. pose proof (r_phase _ Hi _ _ H) as Hok.
    unfold phase_ok in *. destruct (ch_kind z), (ch_phase z) as [| | | | | |[]]; try done. destruct Hok as (? & ? & H0). split; [done|]. split; [done|]. cbn. lia.
  - rewrite (r_changes _ Hi). pose proof (sum_insert counts _ _ x' _ Hx) as Hs. unfold counts in Hs at 2 4. rewrite Hr in Hs. cbn in Hs. lia.
Qed.

Lemma change_invR r s y y' : invC y → invR y → change_conn r s y = Some y' → invR y'.
Proof.
  intros HC Hi. unfold change_conn. intros (x & Hx & H)%bind_Some. pose proof (r_phase _ Hi r x Hx) as Hok. unfold phase_ok in Hok.
  destruct s, (ch_phase x) eqn:Hp; try discriminate H; try (by eapply drain_invR).
  - apply bind_Some in H as (cn & Hc & H). guards H. injection H as <-.
    assert (Hd : dead cn). { split; [apply (w_closing _ (proj1 (k_conn _ HC _ _ Hc))); congruence|intros [?|?]; congruence]. }
    apply invR_set with x; [done|done|by apply after_drain_replacer; rewrite Hp|]. apply after_drain_ok.
    + intros a Ha. rewrite Ha in Hok. destruct Hok as [? Hok]. split; [done|]. intros c' cn' H' _. destruct (decide (c' = c)) as [->|]; [by simplify_eq|by apply (Hok c')].
    + intros a lc Ha. rewrite Ha in Hok. intros c' cn' H' Hac. destruct (decide (c' = c)) as [->|]; [by simplify_eq|by apply (Hok c')].
  - destruct (ch_kind x) eqn:Hk; injection H as <-; (apply invR_set with x; [done|done|by unfold replacer; rewrite Hk, ?Hp|by unfold phase_ok; cbn; rewrite Hk]).
  - destruct (ch_kind x) eqn:Hk; injection H as <-; [done|]. apply invR_set with x; [done|done|by unfold replacer; rewrite Hk|by unfold phase_ok; cbn; rewrite Hk].
  - destruct (ch_kind x) eqn:Hk; [|done]. injection H as <-. apply invR_set with x; [done|done|unfold replacer; cbn; rewrite Hk, Hp; by destruct (_ || _)|].
    unfold phase_ok. cbn. rewrite Hk. by destruct (_ || _).
  - destruct (ch_kind x) eqn:Hk; [|done]. injection H as <-. apply invR_set with x; [done|done|by unfold replacer; cbn; rewrite Hk, Hp|by unfold phase_ok; cbn; rewrite Hk].
  - destruct (ch_kind x) eqn:Hk; [|done]. injection H as <-. cbn. rewrite (alter_insert _ _ _ _ Hx), Hk. by apply (end_invR r x).
  - guards H. injection H as <-. destruct (ch_kind x) eqn:Hk; [done|]. apply Nat.eqb_eq in E.
    apply invR_set with x; [done|done|by unfold replacer; rewrite Hk|]. unfold phase_ok. cbn. rewrite Hk. naive_solver.
Qed.

Lemma replace_invR account lc y : invR y → invR (replace account lc y).
Proof.
  intros Hi. unfold replace. set (a := or_default account).
  destruct (o_closed y) eqn:Hc; [done|]. cbn [orb]. destruct (bool_decide (a ∈ o_replacing y)) eqn:Hr; [done|]. cbn [orb].
  destruct (negb lc && _) eqn:Hl; [done|]. apply bool_decide_eq_false in Hr. constructor; cbn.
  - intros r x b lb [H|[-> ->]]%lookup_snoc Hx.
    + destruct (r_replacing _ Hi _ _ _ _ H Hx). split; [set_solver|done].
    + injection Hx as <- <-. split; [set_solver|]. intros ->. cbn in Hl. by apply bool_decide_eq_false in Hl.
  - intros r1 r2 x1 x2 b l1 l2 [H1|[-> ->]]%lookup_snoc [H2|[-> ->]]%lookup_snoc Hx1 Hx2; [by apply (r_single _ Hi _ _ x1 x2 b l1 l2)|..|done].
    + injection Hx2 as <- <-. by destruct (r_replacing _ Hi _ _ _ _ H1 Hx1).
    + injection Hx1 as <- <-. by destruct (r_replacing _ Hi _ _ _ _ H2 Hx2).
  - intros r x [H|[-> ->]]%lookup_snoc; [|done]. pose proof (r_phase _ Hi _ _ H) as Hok. unfold phase_ok in *.
    destruct (ch_kind x), (ch_phase x) as [| | | | | |[]]; try done; destruct Hok as [? _]; congruence.
  - rewrite (r_changes _ Hi), sum_snoc. unfold counts at 3. cbn. lia.
Qed.

Lemma stop_invR y : invC y → invR y → invR (Stop y).
Proof.
  intros HC Hi. unfold Stop. constructor; cbn.
  - intros r x a lc [H|[-> ->]]%lookup_snoc Hx; [by apply (r_replacing _ Hi r x)|done].
  - intros r1 r2 x1 x2 b l1 l2 [H1|[-> ->]]%lookup_snoc [H2|[-> ->]]%lookup_snoc Hx1 Hx2; [by apply (r_single _ Hi _ _ x1 x2 b l1 l2)|done..].
  - intros r x [H|[-> ->]]%lookup_snoc.
    + apply (phase_le y); [by apply conns_le_same|done|intros a lc Hx; by apply (r_replacing _ Hi r x a lc)|by apply (r_phase _ Hi r)].
    + destruct (o_current y) as [c|] eqn:Hcur; cbn.
      * destruct (proj1 (k_current _ HC c) Hcur) as (cn & Hc & _). rewrite Hc. cbn. split; [done|]. exists (c_account cn). split; [done|].
        intros c' cn' H' Hne. change (o_conns y !! c' = Some cn') in H'. eapply not_current_dead; [done..|]. intros Hcc. assert (c' = c) as -> by congruence. congruence.
      * split; [done|]. intros c cn H _. eapply not_current_dead; [done..|]. by rewrite Hcur.
  - rewrite (r_changes _ Hi), sum_snoc. cbn. lia.
Qed.

Lemma login_invR y logins n :
  invR y → (∀ r x a, o_drains y !! r = Some x → replacer x = Some (a, false) → a ∈ logins → a ∈ o_logins y) →
  n = size logins + sum_list_with counts (o_drains y) → (o_closed y = true → n <= o_changes y) →
  invR (mkState (o_closed y) (o_canceled y) (o_current y) (o_replacing y) logins n (o_conns y) (o_users y) (o_dispatches y) (o_drains y)).
Proof.
  intros Hi Hl Hn Hc. constructor; cbn; [|apply (r_single _ Hi)| |done].
  - intros r x a lc H Hx. destruct (r_replacing _ Hi r x a lc H Hx) as [? Hf]. split; [done|]. intros -> Ha. apply Hf; [done|]. by eapply Hl.
  - intros r x H. apply (phase_le y); [by apply conns_le_same|auto|intros a lc Hx; by apply (r_replacing _ Hi r x a lc)|by apply (r_phase _ Hi r)].
Qed.

Lemma begin_invR account y : invR y → invR (BeginLogin account y).
Proof.
  intros Hi. unfold BeginLogin. set (a := or_default account). destruct (o_closed y) eqn:Hc; [done|]. cbn [orb].
  destruct (bool_decide (a ∈ o_logins y)) eqn:Hl; [done|]. cbn [orb]. destruct (bool_decide (a ∈ o_replacing y)) eqn:Hr; [done|].
  apply bool_decide_eq_false in Hl, Hr. rewrite <- Hc. apply login_invR; [done| | |congruence].
  - intros r x b H Hx [Hb|?]%elem_of_union; [|done]. apply elem_of_singleton in Hb as ->. by destruct (r_replacing _ Hi r x a false H Hx).
  - rewrite (r_changes _ Hi), size_union by set_solver. rewrite size_singleton. lia.
Qed.
Lemma end_login_invR account y y' : invR y → EndLogin account y = Some y' → invR y'.
Proof.
  intros Hi. unfold EndLogin. destruct (decide _) as [Ha|]; [|done]. intros [= <-].
  pose proof (r_changes _ Hi) as Hn. assert (Hs : size (o_logins y ∖ {[account]}) = Nat.pred (size (o_logins y))).
  { rewrite size_difference by set_solver. rewrite size_singleton. lia. }
  assert (0 < size (o_logins y)). { apply Nat.neq_0_lt_0. intros H0%size_empty_inv. set_solver. }
  apply login_invR; [done|set_solver| |]; [rewrite Hs|]; lia.
Qed.

Lemma step_invR l y y' : invC y → invR y → step l y = Some y' → invR y'.
Proof.
  intros HC Hi. destruct l as [a k cl|c h|u s|c s|c|d s|a lc|r s| | |a|a]; cbn [step]; intros H.
  - injection H as <-. apply (invR_le y); [done|apply open_le|..]; unfold Open; repeat case_match; done.
  - apply (invR_le y); [done|by eapply run_le|..]; unfold Run in H; repeat case_match; by simplify_eq.
  - apply (invR_le y); [done|by eapply run_step_le|..]; unfold run_step in H; apply bind_Some in H as (x & _ & H); apply bind_Some in H as (cn & _ & H);
      repeat case_match; by simplify_eq.
  - apply (invR_le y); [done|by eapply serve_le|..]; unfold serve_conn in H; apply bind_Some in H as (cn & _ & H); repeat case_match; by simplify_eq.
  - injection H as <-. apply (invR_le y); [done|by apply conns_le_same|done..].
  - apply (invR_le y); [done|..]; unfold dispatch in H; apply bind_Some in H as (x & _ & H); destruct s, (d_running x); try discriminate H;
      guards H; try (apply bind_Some in H as (h & _ & H); guards H); injection H as <-; done || by apply conns_le_same.
  - injection H as <-. by apply replace_invR.
  - by eapply change_invR.
  - injection H as <-. by apply stop_invR.
  - injection H as <-. apply (invR_le y); [done|by apply conns_le_same|done..].
  - injection H as <-. by apply begin_invR.
  - by eapply end_login_invR.
Qed.

(** ** Handlers and dispatches *)

Definition runs_handler (u : nat) (x : dispatching) : nat := b2n (bool_decide (d_running x = Some u)).
(** How far the entry of a caller is closed. *)
Definition closed_ok (x : user) : Prop :=
  match u_phase x with
  | WaitingReady | Calling | ClosingHandler => True
  | DrainingHandler => u_closed x = u_handler x
  | Releasing | Leave _ | WaitingDone | Ended => u_closed x = u_handler x ∧ u_active x = 0
  end.

Record invH (y : state) : Prop := {
  h_user : ∀ u x, o_users y !! u = Some x →
    u_active x = sum_list_with (runs_handler u) (o_dispatches y) ∧ (u_registered x = true → u_handler x = true) ∧ closed_ok x;
  h_dispatch : ∀ d x u, o_dispatches y !! d = Some x → u ∈ d_rest x ∨ d_running x = Some u → ∃ z, o_users y !! u = Some z ∧ u_handler z = true;
}.

Lemma invH_same y y' : invH y → o_users y' = o_users y → o_dispatches y' = o_dispatches y → invH y'.
Proof. intros Hi H1 H2. constructor; rewrite ?H1, ?H2; apply Hi. Qed.

Lemma invH_user u x x' y y' :
  invH y → o_users y !! u = Some x → u_handler x' = u_handler x → u_active x' = u_active x → (u_registered x' = true → u_registered x = true) → closed_ok x' →
  o_users y' = <[u := x']> (o_users y) → o_dispatches y' = o_dispatches y → invH y'.
Proof.
  intros Hi Hx Hh Ha Hr Hc Hu Hd. destruct (h_user _ Hi _ _ Hx) as (H1 & H2 & H3). constructor; rewrite Hu, Hd.
  - intros v z [(<- & <- & _)|[_ H]]%list_lookup_insert_Some; [|by apply (h_user _ Hi)]. rewrite Ha, Hh. auto.
  - intros d z v H Hv. destruct (h_dispatch _ Hi _ _ _ H Hv) as (w & Hw & Hwh). destruct (decide (u = v)) as [->|Hne].
    + exists x'. simplify_eq. rewrite list_lookup_insert_eq by (by eapply lookup_lt_Some). by rewrite Hh.
    + exists w. by rewrite list_lookup_insert_ne.
Qed.

Lemma run_invH c handler y y' : invH y → Run c handler y = Some y' → invH y'.
Proof.
  intros Hi. unfold Run. destruct (o_conns y !! c) as [cn|]; [|done]. destruct (c_closing cn); intros [= <-]; [done|]. constructor; cbn.
  - intros u x [H|[-> ->]]%lookup_snoc; [by apply (h_user _ Hi)|]. cbn. split; [|done]. symmetry. apply sum_zero.
    intros d x H. unfold runs_handler. rewrite bool_decide_eq_false_2; [done|]. intros Hr.
    destruct (h_dispatch _ Hi _ _ _ H (or_intror Hr)) as (z & Hz%lookup_lt_Some & _). lia.
  - intros d x u H Hu. destruct (h_dispatch _ Hi _ _ _ H Hu) as (z & Hz & ?). exists z. split; [|done]. apply lookup_snoc. by left.
Qed.

Lemma idle_handler u x y : invH y → o_users y !! u = Some x → u_handler x = false → u_active x = 0.
Proof.
  intros Hi Hx Hn. destruct (h_user _ Hi _ _ Hx) as (-> & _ & _). apply sum_zero. intros d z Hz. unfold runs_handler.
  rewrite bool_decide_eq_false_2; [done|]. intros Hr. destruct (h_dispatch _ Hi _ _ _ Hz (or_intror Hr)) as (w & ? & ?). simplify_eq. congruence.
Qed.

Lemma run_step_invH u s y y' : invH y → run_step u s y = Some y' → invH y'.
Proof.
  intros Hi. unfold run_step, conn_of. intros (x & Hx & H)%bind_Some. apply bind_Some in H as (cn & _ & H).
  destruct (h_user _ Hi _ _ Hx) as (H1 & H2 & H3). unfold closed_ok in H3.
  destruct s, (u_phase x) eqn:Hp; try discriminate H; guards H; injection H as <-;
    try (rewrite (set_phase_user u _ _ x) by exact Hx);
    (match goal with |- invH ?g => refine (invH_user u x _ y g Hi Hx _ _ _ _ eq_refl eq_refl) end; cbn; [done..|]); unfold closed_ok; cbn; try (by repeat case_match).
  - destruct (u_handler x) eqn:Hh; [done|]. split; [done|by apply (idle_handler u x y)].
  - apply Nat.eqb_eq in E. by split.
Qed.

(** A dispatch goes on: the handler of [u] starts or ends, and no other. *)
Lemma dispatch_invH d x x' u z f y :
  invH y → o_dispatches y !! d = Some x → o_users y !! u = Some z → u_handler z = true →
  (∀ v, v ∈ d_rest x' → v ∈ d_rest x) → (∀ v, v ≠ u → runs_handler v x' = runs_handler v x) → (d_running x' = Some u ∨ d_running x' = None) →
  f (u_active z) + runs_handler u x = u_active z + runs_handler u x' → closed_ok (mkUser (u_conn z) (u_handler z) (u_registered z) (u_closed z) (f (u_active z)) (u_phase z)) →
  invH (with_dispatches (<[d := x']> (o_dispatches y)) (add_active f u y)).
Proof.
  intros Hi Hx Hz Hh Hrest Hother Hrun Hact Hok. constructor; cbn.
  - intros v w (w0 & Hw & ->)%alter_Some. destruct (h_user _ Hi _ _ Hw) as (Ha & Hr & Hc).
    pose proof (sum_insert (runs_handler v) _ _ x' _ Hx) as Hs. destruct (decide (u = v)) as [->|Hne]; [simplify_eq; cbn; split; [lia|done]|].
    rewrite Hother in Hs by done. split; [lia|done].
  - assert (Hkeep : ∀ v, (∃ w, o_users y !! v = Some w ∧ u_handler w = true) →
      ∃ w, alter (λ x, mkUser (u_conn x) (u_handler x) (u_registered x) (u_closed x) (f (u_active x)) (u_phase x)) u (o_users y) !! v = Some w ∧ u_handler w = true).
    { intros v (w & Hw & Hwh). eexists. split; [apply alter_Some; exists w; split; [done|reflexivity]|]. by destruct (decide (u = v)). }
    intros d' w v [(<- & <- & _)|[_ H]]%list_lookup_insert_Some Hv; apply Hkeep; [|by apply (h_dispatch _ Hi _ _ _ H)].
    destruct Hv as [Hv|Hv]; [by apply (h_dispatch _ Hi _ _ _ Hx); left; apply Hrest|]. destruct Hrun; [|congruence]. assert (v = u) as -> by congruence. eauto.
Qed.

Lemma dispatching_invH d s y y' : invH y → dispatch d s y = Some y' → invH y'.
Proof.
  intros Hi. unfold dispatch. intros (x & Hx & H)%bind_Some. destruct s as [u|], (d_running x) as [v|] eqn:Hr; try discriminate H.
  - guards H. apply bind_Some in H as (h & Hh & H). destruct (h_dispatch _ Hi _ _ u Hx (or_introl e)) as (z & Hz & Hzh). assert (h = z) as -> by congruence.
    destruct (h_user _ Hi _ _ Hz) as (Ha & _ & Hc). guards H; injection H as <-.
    + constructor; cbn.
      * intros v w Hw. destruct (h_user _ Hi _ _ Hw) as (? & ? & ?). split; [|done]. pose proof (sum_insert (runs_handler v) _ _ (mkDispatch (filter (λ v, v ≠ u) (d_rest x)) None) _ Hx) as Hs.
        unfold runs_handler in Hs at 2 4. rewrite Hr in Hs. cbn in Hs. lia.
      * intros d' w v [(<- & <- & _)|[_ H]]%list_lookup_insert_Some Hv; [|by apply (h_dispatch _ Hi _ _ _ H)].
        destruct Hv as [Hv|?]; [|done]. cbn in Hv. apply list_elem_of_filter in Hv as [_ Hv]. apply (h_dispatch _ Hi _ _ _ Hx). by left.
    + apply (dispatch_invH d x _ u z); [done..| | |by left| |].
      * intros v. cbn. intros Hv. by apply list_elem_of_filter in Hv as [_ ?].
      * intros v Hne. unfold runs_handler. rewrite Hr. cbn. rewrite !bool_decide_eq_false_2 by congruence. done.
      * unfold runs_handler. rewrite Hr. cbn [d_running]. rewrite (bool_decide_eq_false_2 (None = Some u)), bool_decide_eq_true_2 by done. cbn. lia.
      * unfold closed_ok in *. cbn. destruct (u_phase z); try done; (destruct Hc as [Hc _] || idtac); congruence.
  - injection H as <-. destruct (h_dispatch _ Hi _ _ v Hx (or_intror Hr)) as (z & Hz & Hzh). destruct (h_user _ Hi _ _ Hz) as (Ha & _ & Hc).
    assert (Hrv : runs_handler v x = 1) by (unfold runs_handler; rewrite Hr; by rewrite bool_decide_eq_true_2).
    pose proof (sum_lookup (runs_handler v) _ _ _ Hx) as Hle. apply (dispatch_invH d x _ v z); [done..| |by right| |].
    + intros w Hne. unfold runs_handler. rewrite Hr. cbn. rewrite !bool_decide_eq_false_2 by congruence. done.
    + rewrite Hrv in *. unfold runs_handler. cbn [d_running]. rewrite bool_decide_eq_false_2 by done. cbn. lia.
    + unfold closed_ok in *. cbn. destruct (u_phase z); try done; destruct Hc as [? H0]; (split; [done|by rewrite H0]).
Qed.

Lemma step_invH l y y' : invH y → step l y = Some y' → invH y'.
Proof.
  intros Hi. destruct l as [a k cl|c h|u s|c s|c|d s|a lc|r s| | |a|a]; cbn [step]; intros H; try (injection H as <-).
  - apply (invH_same y); [done|..]; unfold Open; repeat case_match; done.
  - by eapply run_invH.
  - by eapply run_step_invH.
  - unfold serve_conn in H. apply bind_Some in H as (cn & _ & H). apply (invH_same y); [done|..]; repeat case_match; by simplify_eq.
  - constructor; cbn.
    + intros u x Hx. rewrite sum_snoc. destruct (h_user _ Hi _ _ Hx) as (-> & ? & ?). split; [|done]. unfold runs_handler at 3. cbn [d_running]. rewrite bool_decide_eq_false_2 by done. cbn. lia.
    + intros d x u [Hx|[-> ->]]%lookup_snoc Hu; [by apply (h_dispatch _ Hi d x)|]. destruct Hu as [Hu|?]; [|done]. cbn in Hu.
      unfold handlers_of in Hu. apply list_elem_of_In, filter_In in Hu as [_ Hu]. destruct (o_users y !! u) as [z|] eqn:Hz; [|done].
      apply andb_prop in Hu as [Hreg _]. exists z. split; [done|]. by apply (h_user _ Hi _ _ Hz).
  - by eapply dispatching_invH.
  - unfold replace. destruct (_ || _); [done|]. by apply (invH_same y).
  - unfold change_conn in H. apply bind_Some in H as (x & _ & H). apply (invH_same y); [done|..]; destruct s, (ch_phase x); try discriminate H;
      unfold drain in H; repeat (apply bind_Some in H as (? & ? & H)); repeat case_match; by simplify_eq.
  - by apply (invH_same y).
  - by apply (invH_same y).
  - unfold BeginLogin. destruct (_ || _); [done|]. by apply (invH_same y).
  - unfold EndLogin in H. guards H. injection H as <-. by apply (invH_same y).
Qed.

(** ** The theorem *)

(** The caller of [Run] has not left the connection. *)
Definition inside (x : user) : bool := match u_phase x with WaitingDone | Ended => false | _ => true end.

Lemma dead_left y c cn u x :
  invC y → o_conns y !! c = Some cn → dead cn → o_users y !! u = Some x → u_conn x = c → inside x = false.
Proof.
  intros Hi Hc [_ Hd] Hx <-. destruct (inside x) eqn:Hin; [|done]. destruct Hd.
  apply (holds_live y u x cn Hi Hx); [|done]. apply holds_self; unfold inside in Hin; by destruct (u_phase x).
Qed.

Lemma no_changes y : invR y → o_changes y = 0 → o_logins y = ∅ ∧ ∀ r x, o_drains y !! r = Some x → replacer x = None.
Proof.
  intros Hi H0. pose proof (r_changes _ Hi) as Hs. split; [apply leibniz_equiv, size_empty_inv; lia|].
  intros r x Hx. pose proof (sum_lookup counts _ _ _ Hx). unfold counts in H at 1. destruct (replacer x); [lia|done].
Qed.

Lemma new_inv : (invC NewConnections ∧ invR NewConnections) ∧ invH NewConnections.
Proof.
  split; [split|]; (constructor; cbn; [done..|]) || (constructor; cbn; try done; intros c; split; [done|by intros (? & ? & _)]).
  all: done.
Qed.

(** C6: The owner of the Telegram connections, whatever the callers of Run,
    the transports, the dispatches of updates, logins, replacements and stops
    do and however they interleave: at most one connection is current; a
    caller's function runs only while the connection it was given is served;
    when a new session is committed or an old one deleted, the transport of
    every connection of that account has returned, nobody who ran on one is
    still there, no other change of the account's session is under way, and,
    for a deletion, no login either; when Stop returns without an error no
    transport, caller, login or replacement is left; and a caller whose Run
    has returned is not in the middle of an update and gets no further one. *)
Theorem connections_exclusive l y :
  steps step l NewConnections = Some y →
  (∀ c1 c2 cn1 cn2, o_conns y !! c1 = Some cn1 → o_conns y !! c2 = Some cn2 → occupying cn1 → occupying cn2 → c1 = c2) ∧
  (∀ u x, o_users y !! u = Some x → u_phase x = Calling → ∃ cn, o_conns y !! u_conn x = Some cn ∧ live cn) ∧
  (∀ r account login, o_drains y !! r = Some (mkChange (Replacement account login) Committing) →
    (∀ c cn, o_conns y !! c = Some cn → c_account cn = account →
      dead cn ∧ ∀ u x, o_users y !! u = Some x → u_conn x = c → inside x = false) ∧
    (∀ r' login' p, o_drains y !! r' = Some (mkChange (Replacement account login') p) → r' ≠ r → is_over p = true) ∧
    (login = false → account ∉ o_logins y)) ∧
  (∀ r account, o_drains y !! r = Some (mkChange (Stopping account) (Over true)) →
    (∀ c cn, o_conns y !! c = Some cn → dead cn) ∧ (∀ u x, o_users y !! u = Some x → inside x = false) ∧
    o_logins y = ∅ ∧ ∀ r' x, o_drains y !! r' = Some x → replacer x = None) ∧
  (∀ u x, o_users y !! u = Some x → u_phase x = Ended →
    u_closed x = u_handler x ∧ ∀ d z, o_dispatches y !! d = Some z → d_running z ≠ Some u).
Proof.
  intros Hs.
  assert (Hi : (invC y ∧ invR y) ∧ invH y).
  { apply (steps_inv step (λ y, (invC y ∧ invR y) ∧ invH y) l NewConnections); [|apply new_inv|done].
    intros e y0 y1 [[? ?] ?] He. split; [split|]; [by eapply step_invC|by eapply step_invR|by eapply step_invH]. }
  destruct Hi as [[HC HR] HH]. split_and!.
  - intros c1 c2 cn1 cn2 H1 H2 Ho1 Ho2. assert (o_current y = Some c1 ∧ o_current y = Some c2) as [? ?] by (split; apply (k_current _ HC); eauto). congruence.
  - intros u x Hx Hp. pose proof (k_user _ HC _ _ Hx) as [cn Hc]%lookup_lt_is_Some. exists cn. split; [done|].
    apply (holds_live y u x cn HC Hx); [|done]. by apply holds_self; rewrite Hp.
  - intros r a lc Hr. pose proof (r_phase _ HR _ _ Hr) as Hd. cbn in Hd. split; [|split].
    + intros c cn Hc Ha. split; [by apply (Hd c)|]. intros u x Hx Hu. eapply dead_left; [done..| |done|done]. by apply (Hd c).
    + intros r' lc' p Hr' Hne. destruct (is_over p) eqn:Ho; [done|]. destruct Hne. eapply (r_single _ HR); [done..| |done]. unfold replacer. cbn. by rewrite Ho.
    + intros ->. by apply (r_replacing _ HR r _ a false Hr).
  - intros r a Hr. pose proof (r_phase _ HR _ _ Hr) as (_ & Hd & H0). split; [|split].
    + intros c cn Hc. by apply (Hd c).
    + intros u x Hx. pose proof (k_user _ HC _ _ Hx) as [cn Hc]%lookup_lt_is_Some. eapply dead_left; [done..| |done|done]. by apply (Hd (u_conn x)).
    + by apply no_changes.
  - intros u x Hx Hp. destruct (h_user _ HH _ _ Hx) as (Ha & _ & Hc). unfold closed_ok in Hc. rewrite Hp in Hc. destruct Hc as [Hc H0].
    split; [done|]. intros d z Hz Hr. pose proof (sum_lookup (runs_handler u) _ _ _ Hz) as Hle. unfold runs_handler in Hle at 1.
    rewrite bool_decide_eq_true_2 in Hle by done. cbn in Hle. lia.
Qed.

(** Two callers share a connection, an update reaches the one with a handler,
    the session is replaced under them and the owner stops. *)
Definition demo : list label :=
  [LOpen "" "k" (Ok tt); LRun 0 true; LOpen "default" "k" (Ok tt); LRun 0 false; LServe 0 SCallback; LUser 0 (UReady false); LUser 1 (UReady false);
   LDispatch 0; LDispatching 0 (DNext 0); LReplace "" false; LChange 0 CDrain; LServe 0 SCallbackCanceled;
   LUser 0 UReturn; LUser 0 UCloseHandler; LDispatching 0 DHandled; LUser 0 UHandlerIdle; LUser 0 URelease; LUser 0 (UDone true);
   LUser 1 UReturn; LUser 1 UCloseHandler; LUser 1 URelease; LUser 1 (UDone true); LServe 0 SCallbackUsers; LServe 0 (SReturned None);
   LServe 0 SUsersGone; LServe 0 SDone; LUser 0 UFinished; LUser 1 UFinished; LChange 0 CDrained; LChange 0 (CCheck false)].
Definition demo_stop : list label := [LStop; LChange 0 CCommitted; LChange 0 CEnd; LChange 1 CChanges].
Definition after (l : list label) : state := default NewConnections (steps step l NewConnections).


Lemma demo_runs : steps step demo NewConnections = Some (after demo).
Proof. vm_compute. reflexivity. Qed.
Lemma demo_stops : steps step (demo ++ demo_stop) NewConnections = Some (after (demo ++ demo_stop)).
Proof. vm_compute. reflexivity. Qed.
Lemma demo_conn : o_conns (after demo) !! 0 = Some (mkConn "default" "k" true true true true true None 0 0 Finished CalledBack).
Proof. vm_compute. reflexivity. Qed.
Lemma demo_commits : o_drains (after demo) !! 0 = Some (mkChange (Replacement "default" false) Committing).
Proof. vm_compute. reflexivity. Qed.
Lemma demo_over : o_drains (after (demo ++ demo_stop)) !! 1 = Some (mkChange (Stopping None) (Over true)).
Proof. vm_compute. reflexivity. Qed.

Lemma connections_exclusive_witness :
  (∃ cn, o_conns (after demo) !! 0 = Some cn ∧ dead cn) ∧ "default" ∉ o_logins (after demo) ∧
  o_drains (after demo) !! 0 = Some (mkChange (Replacement "default" false) Committing) ∧
  (∀ c cn, o_conns (after (demo ++ demo_stop)) !! c = Some cn → dead cn).
Proof.
  destruct (connections_exclusive demo (after demo) demo_runs) as (_ & _ & H & _).
  destruct (connections_exclusive (demo ++ demo_stop) (after (demo ++ demo_stop)) demo_stops) as (_ & _ & _ & Hs & _).
  destruct (H 0 "default" false demo_commits) as (Hd & _ & Hl). split; [|split; [by apply Hl|split; [exact demo_commits|]]].
  - eexists. split; [exact demo_conn|]. by apply (Hd 0 _ demo_conn).
  - by destruct (Hs 1 None demo_over) as (Hc & _).
Defined.
