(* ===== verification/BotLogin.v ===== *)
(** * Logging in through the bot (application/account.telegram/bot_login.go)

    One login at a time: a goroutine asks the user who started it for the
    phone, the code and the password, hands the answers to the runner, and
    calls the success handler.  The runner is not part of this code: what it
    asks for, in which order, and what it returns are reported by labels, as
    are the answers of the messenger and the clock.  A label is one critical
    section, call of the messenger or choice of a [select]. *)

From Stdlib Require Import Ascii.
From S2P Require Import Prelude Lts Strings.
Local Open Scope list_scope.

(** ** Inputs *)

(** [normalizePhone] (login.go): the replacer drops these five bytes. *)
Definition phone_noise (a : ascii) : bool :=
  existsb (Ascii.eqb a) [" "; ascii_of_nat 9; "-"; "("; ")"]%char.
Definition normalizePhone (phone : string) : string :=
  String.string_of_list_ascii (List.filter (λ a, negb (phone_noise a)) (String.list_ascii_of_string phone)).

Definition unmask_digit (a : ascii) : option ascii :=
  let n := nat_of_ascii a in
  if (n <? 48)%nat || (57 <? n)%nat then None
  else Some (if (n =? 48)%nat then "9"%char else ascii_of_nat (n - 1)).
Fixpoint unmask (masked : list ascii) : option (list ascii) :=
  match masked with
  | [] => Some []
  | a :: masked => d ← unmask_digit a; ds ← unmask masked; Some (d :: ds)
  end.
Definition unmaskLoginCode (masked : string) : option string :=
  if String.eqb masked "" then None else String.string_of_list_ascii <$> unmask (String.list_ascii_of_string masked).

(** What the runner asks for: the methods of [botCodeAuthenticator]. *)
Inductive asked := AskPhone | AskCode | AskPassword.
#[export] Instance asked_eq : EqDecision asked.
Proof. solve_decision. Defined.
Definition loginStageCode : string := "code".
Definition loginStagePassword : string := "password".
Definition botPhoneStage : string := "phone".
Definition stage_of (a : asked) : string :=
  match a with AskPhone => botPhoneStage | AskCode => loginStageCode | AskPassword => loginStagePassword end.
Definition sensitive (a : asked) : bool := match a with AskPhone => false | _ => true end.

(** What [ask] returns for the text of a message, if it is not empty, and what
    the runner gets of it. *)
Definition ask_value (a : asked) (text : string) : option string :=
  let value := if String.eqb (stage_of a) loginStagePassword then text else TrimSpace text in
  if String.eqb value "" then None else Some value.
Definition given (a : asked) (value : string) : option string :=
  match a with
  | AskPhone => Some (normalizePhone value)
  | AskCode => unmaskLoginCode value
  | AskPassword => Some value
  end.

(** ** State *)

Inductive failure := Canceled | TimedOut | InvalidUser | Failed (err : string).
Record loginInput := mkInput { text : string; messageID : Z }.
Record loginUser := mkLoginUser { user_id : Z; user_name : string }.

(** Where the goroutine of a flow is; [PRunner] is inside the runner's
    [LoginCode]. *)
Inductive phase :=
  | PStart | PRunner
  | PStage (a : asked) | PPrompt (a : asked) | PWait (a : asked) | PDelete (a : asked) (i : loginInput) | PEmpty (a : asked)
  | PDigits | PInputError (input : string)
  | PFail (err : failure) | PSuccessText (u : loginUser) | PSuccess (u : loginUser) | PFinish | PClose | PEnded.

Record botLoginFlow := mkFlow {
  namespace : string; userID : Z; chatID : Z; input : list loginInput; ctx_err : option failure; stage : string; ph : phase }.
Definition input_size : nat := 8.

(** What a flow and its runner did, in order; the messages are told apart, not
    worded. *)
Inductive message := MStarted | MPrompt (a : asked) | MEmpty | MDigits | MInputError (input : string) | MFailure (err : failure) | MSuccess (u : loginUser).
Inductive event :=
  | Posted (user chat : Z) (i : loginInput)
  | Sent (m : message) (ok : bool)
  | Took (a : asked) (i : loginInput)
  | Deleted (id : Z)
  | Answered (a : asked) (r : res failure string)
  | Succeeded (u : loginUser) (ns : string).

Record botLogin := mkBotLogin {
  flows : list (botLoginFlow * list event);
  active : option nat; closed : bool; owner_done : bool;
  stops : list (option nat * bool) }.       (* calls of [Stop]: the flow they wait for, and whether they returned nil *)
Definition NewBotLogin : botLogin := mkBotLogin [] None false false [].

Definition matches (f : botLoginFlow) (user chat : Z) : bool := (userID f =? user) && (chatID f =? chat).
Definition with_flows (l : list (botLoginFlow * list event)) (m : botLogin) : botLogin :=
  mkBotLogin l (active m) (closed m) (owner_done m) (stops m).
Definition with_ph (p : phase) (f : botLoginFlow) : botLoginFlow :=
  mkFlow (namespace f) (userID f) (chatID f) (input f) (ctx_err f) (stage f) p.
Definition with_input (l : list loginInput) (f : botLoginFlow) : botLoginFlow :=
  mkFlow (namespace f) (userID f) (chatID f) l (ctx_err f) (stage f) (ph f).
Definition cancel (err : failure) (f : botLoginFlow) : botLoginFlow :=
  mkFlow (namespace f) (userID f) (chatID f) (input f) (match ctx_err f with None => Some err | e => e end) (stage f) (ph f).
Definition with_stage (s : string) (f : botLoginFlow) : botLoginFlow :=
  mkFlow (namespace f) (userID f) (chatID f) (input f) (ctx_err f) s (ph f).
(** The goroutine of flow [n] goes on to [p], having done [es]. *)
Definition go (n : nat) (p : phase) (es : list event) (m : botLogin) : botLogin :=
  with_flows (alter (λ x, (with_ph p (fst x), snd x ++ es)) n (flows m)) m.
Definition cancel_flow (n : nat) (err : failure) (m : botLogin) : botLogin :=
  with_flows (alter (λ x, (cancel err (fst x), snd x)) n (flows m)) m.

(** ** Operations *)

Definition start (ns : string) (user chat : Z) (factory : res string bool) (m : botLogin) : res string unit * botLogin :=
  match factory with
  | Err e => (Err e, m)
  | Ok false => (Err "login runner is not configured", m)
  | Ok true =>
      if closed m || owner_done m || bool_decide (is_Some (active m)) then (Err "another login is active", m)
      else (Ok tt, mkBotLogin (flows m ++ [(mkFlow ns user chat [] None "starting" PStart, [])]) (Some (length (flows m))) (closed m) (owner_done m) (stops m))
  end.
Definition StartCode (user chat : Z) (ns : list string) := start (match ns with [] => "" | v :: _ => TrimSpace v end) user chat.

Definition active_flow (m : botLogin) : option (nat * botLoginFlow) := n ← active m; x ← flows m !! n; Some (n, fst x).
Definition Cancel (user chat : Z) (m : botLogin) : bool * botLogin :=
  match active_flow m with
  | Some (n, f) => if matches f user chat then (true, cancel_flow n Canceled m) else (false, m)
  | None => (false, m)
  end.
Definition ActiveFor (user chat : Z) (m : botLogin) : bool :=
  match active_flow m with Some (_, f) => matches f user chat | None => false end.
Definition Busy (m : botLogin) : bool := bool_decide (is_Some (active m)).
Definition activeStage (m : botLogin) : string := match active_flow m with Some (_, f) => stage f | None => "" end.

(** The [select] of [HandleInput] with the flow [n] that was active a moment
    before; [accept] is which ready case it takes. *)
Definition HandleInput (n : nat) (user chat : Z) (i : loginInput) (accept : bool) (m : botLogin) : option (bool * botLogin) :=
  match flows m !! n with
  | None => None
  | Some (f, _) =>
      if negb (matches f user chat) then Some (false, m) else
      let room := (length (input f) <? input_size)%nat in
      let ended := match ph f with PEnded => true | _ => owner_done m end in
      if accept then
        if room then Some (true, with_flows (alter (λ x, (with_input (input (fst x) ++ [i]) (fst x), snd x ++ [Posted user chat i])) n (flows m)) m) else None
      else if room && negb ended then None else Some (false, m)
  end.

Definition validLoginUser (u : option loginUser) : option loginUser :=
  match u with Some u => if user_id u =? 0 then None else Some u | None => None end.
Definition flow_err (m : botLogin) (f : botLoginFlow) : option failure :=
  match ctx_err f with None => if owner_done m then Some Canceled else None | e => e end.

(** ** The goroutine of a flow *)

Inductive flow_step :=
  | FSent (err : option failure)            (* the messenger answered *)
  | FAsk (a : asked)                        (* the runner calls the authenticator *)
  | FInputError (input : string)
  | FReturn (r : res failure (option loginUser))
  | FStage | FTake | FTimer | FDelete
  | FCanceled (err : failure)               (* the context the runner passed *)
  | FHandled                                (* the success handler, if any, returned *)
  | FFinish | FClose.

Definition message_of (p : phase) : option message :=
  match p with
  | PStart => Some MStarted | PPrompt a => Some (MPrompt a) | PEmpty _ => Some MEmpty | PDigits => Some MDigits
  | PInputError e => Some (MInputError e) | PFail e => Some (MFailure e) | PSuccessText u => Some (MSuccess u)
  | _ => None
  end.
(** After the message of a phase was sent, or failed: the next phase, and what
    the runner is answered. *)
Definition after_sent (p : phase) (err ctx : option failure) : phase * list event :=
  match p, err with
  | PStart, None => (PRunner, [])
  | PPrompt a, None => (PWait a, [])
  | PPrompt a, Some e => (PRunner, [Answered a (Err e)])
  | PEmpty a, None => (PStage a, [])
  | PEmpty a, Some e => (PRunner, [Answered a (Err e)])
  | PDigits, None => (PStage AskCode, [])
  | PDigits, Some e => (PRunner, [Answered AskCode (Err e)])
  | PInputError _, _ => (PRunner, [])
  | PSuccessText u, _ => (match ctx with None => PSuccess u | Some e => PFail e end, [])
  | _, _ => (PFinish, [])
  end.
(** The rest of a turn of [ask], and of [Code], with the text it took. *)
Definition use_input (a : asked) (i : loginInput) : phase * list event :=
  match ask_value a (text i) with
  | None => (PEmpty a, [])
  | Some value => match given a value with Some v => (PRunner, [Answered a (Ok v)]) | None => (PDigits, []) end
  end.
Definition deleteMessage (i : loginInput) : list event := if 0 <? messageID i then [Deleted (messageID i)] else [].
(** [reportInputError] writes for two inputs and returns nil for others. *)
Definition reports (input : string) : bool := String.eqb input loginStageCode || String.eqb input loginStagePassword.
Definition returned (r : res failure (option loginUser)) (ctx : option failure) : phase :=
  match r, ctx with
  | Err e, _ => PFail e
  | Ok _, Some e => PFail e
  | Ok u, None => match validLoginUser u with Some u => PSuccessText u | None => PFail InvalidUser end
  end.

Definition run_flow (n : nat) (s : flow_step) (m : botLogin) : option botLogin :=
  x ← flows m !! n; let f := fst x in
  match s, ph f with
  | FSent err, p =>
      match message_of p with
      | Some msg => let '(p, es) := after_sent p err (flow_err m f) in Some (go n p (Sent msg (match err with None => true | Some _ => false end) :: es) m)
      | None => None
      end
  | FAsk a, PRunner => Some (go n (PStage a) [] m)
  | FInputError input, PRunner => Some (go n (if reports input then PInputError input else PRunner) [] m)
  | FReturn r, PRunner => Some (go n (returned r (flow_err m f)) [] m)
  | FStage, PStage a =>
      let m := if decide (active m = Some n) then with_flows (alter (λ x, (with_stage (stage_of a) (fst x), snd x)) n (flows m)) m else m in
      Some (go n (PPrompt a) [] m)
  | FCanceled err, PWait a => Some (go n PRunner [Answered a (Err err)] m)
  | FTimer, PWait a => Some (go n PRunner [Answered a (Err TimedOut)] m)
  | FTake, PWait a =>
      match input f with
      | i :: rest =>
          let m := with_flows (alter (λ x, (with_input rest (fst x), snd x)) n (flows m)) m in
          if sensitive a then Some (go n (PDelete a i) [Took a i] m)
          else let '(p, es) := use_input a i in Some (go n p (Took a i :: es) m)
      | [] => None
      end
  | FDelete, PDelete a i => let '(p, es) := use_input a i in Some (go n p (deleteMessage i ++ es) m)
  | FHandled, PSuccess u => Some (go n PFinish [Succeeded u (namespace f)] m)
  | FFinish, PFinish =>
      let m := go n PClose [] m in
      Some (if decide (active m = Some n) then mkBotLogin (flows m) None (closed m) (owner_done m) (stops m) else m)
  | FClose, PClose => Some (go n PEnded [] m)
  | _, _ => None
  end.

Definition Stop (m : botLogin) : botLogin :=
  let m := match active m with Some n => cancel_flow n Canceled m | None => m end in
  mkBotLogin (flows m) (active m) true true (stops m ++ [(active m, bool_decide (active m = None))]).
(** The flow a [Stop] waits for has closed [done]. *)
Definition Stopped (k : nat) (m : botLogin) : option botLogin :=
  match stops m !! k with
  | Some (Some n, false) =>
      x ← flows m !! n;
      match ph (fst x) with
      | PEnded => Some (mkBotLogin (flows m) (active m) (closed m) (owner_done m) (<[k := (Some n, true)]> (stops m)))
      | _ => None
      end
  | _ => None
  end.

Inductive label :=
  | LStart (user chat : Z) (ns : list string) (factory : res string bool)
  | LCancel (user chat : Z)
  | LInput (n : nat) (user chat : Z) (i : loginInput) (accept : bool)
  | LFlow (n : nat) (s : flow_step)
  | LFlowTimeout (n : nat)                  (* the flow's time is over *)
  | LStop | LStopped (k : nat)
  | LOwnerDone.                             (* the context of NewBotLogin *)

Definition step (l : label) (m : botLogin) : option botLogin :=
  match l with
  | LStart user chat ns factory => Some (snd (StartCode user chat ns factory m))
  | LCancel user chat => Some (snd (Cancel user chat m))
  | LInput n user chat i accept => snd <$> HandleInput n user chat i accept m
  | LFlow n s => run_flow n s m
  | LFlowTimeout n => Some (cancel_flow n TimedOut m)
  | LStop => Some (Stop m)
  | LStopped k => Stopped k m
  | LOwnerDone => Some (mkBotLogin (flows m) (active m) (closed m) true (stops m))
  end.
