(* ===== verification/BotLoginProps.v ===== *)
(** * What logging in through the bot guarantees

    Lemmas and the theorem about BotLogin: whose messages answer the runner,
    that each is used once and taken off the chat, one flow and one outcome. *)

From Stdlib Require Import Ascii.
From S2P Require Import Prelude Lts Strings BotLogin.
Local Open Scope list_scope.

(** ** Codes

    The user shifts every digit by one, so that Telegram does not see the code
    in a chat. *)

Definition digit (a : ascii) : bool := (48 <=? nat_of_ascii a)%nat && (nat_of_ascii a <=? 57)%nat.
Definition mask_digit (a : ascii) : ascii := ascii_of_nat (48 + (nat_of_ascii a - 48 + 1) mod 10).
Definition mask (code : string) : string := String.string_of_list_ascii (List.map mask_digit (String.list_ascii_of_string code)).
Definition digits (s : string) : Prop := Forall (λ a, digit a = true) (String.list_ascii_of_string s).

Lemma unmask_digit_spec : ∀ a d, unmask_digit a = Some d ↔ digit d = true ∧ mask_digit d = a.
Proof.
  assert (H : ∀ a, match unmask_digit a with Some d => digit d = true ∧ mask_digit d = a | None => digit a = false end).
  { intros [[] [] [] [] [] [] [] []]; vm_compute; auto. }
  assert (Hm : ∀ d, digit d = true → unmask_digit (mask_digit d) = Some d).
  { intros [[] [] [] [] [] [] [] []]; vm_compute; congruence. }
  intros a d. split; [|intros [Hd <-]; by apply Hm]. intros Hu. specialize (H a). by rewrite Hu in H.
Qed.
Lemma unmask_spec m c : unmask m = Some c ↔ Forall (λ a, digit a = true) c ∧ List.map mask_digit c = m.
Proof.
  revert c. induction m as [|a m IH]; intros c; cbn.
  - split; [intros [= <-]; by split|]. intros [_ H]. by destruct c.
  - rewrite bind_Some. split.
    + intros (d & Hd & H). apply bind_Some in H as (ds & Hds & [= <-]). apply unmask_digit_spec in Hd as [? <-]. apply IH in Hds as [? <-]. by split; [constructor|].
    + intros [Hf Hm]. destruct c as [|d c]; [done|]. injection Hm as Hd Hc. apply Forall_cons in Hf as [? ?].
      exists d. split; [by apply unmask_digit_spec|]. apply bind_Some. exists c. split; [by apply IH|done].
Qed.
(** A text is a masked code exactly when unmasking gives the code. *)
Lemma unmaskLoginCode_spec m c : unmaskLoginCode m = Some c ↔ c ≠ "" ∧ digits c ∧ mask c = m.
Proof.
  unfold unmaskLoginCode, mask, digits. destruct (String.eqb_spec m "") as [->|Hne].
  - split; [done|]. intros (Hc & _ & Hm). by destruct c.
  - rewrite fmap_Some. split.
    + intros (l & [Hl Hm]%unmask_spec & ->). rewrite String.list_ascii_of_string_of_list_ascii. split_and!; [|done|rewrite Hm; apply String.string_of_list_ascii_of_string].
      intros H0. destruct l; [|done]. cbn in Hm. destruct m; [done|done].
    + intros (_ & Hd & <-). exists (String.list_ascii_of_string c). rewrite String.list_ascii_of_string_of_list_ascii, String.string_of_list_ascii_of_string.
      split; [by apply unmask_spec|done].
Qed.

(** What the runner is given for a message. *)
Definition answer_of (a : asked) (text v : string) : Prop :=
  match a with
  | AskPhone => TrimSpace text ≠ "" ∧ v = normalizePhone (TrimSpace text)
  | AskCode => v ≠ "" ∧ digits v ∧ mask v = TrimSpace text
  | AskPassword => text ≠ "" ∧ v = text
  end.
Lemma use_input_spec a i p es :
  use_input a i = (p, es) →
  (∃ v, p = PRunner ∧ es = [Answered a (Ok v)] ∧ answer_of a (text i) v) ∨ es = [] ∧ (p = PEmpty a ∨ p = PDigits).
Proof.
  unfold use_input, ask_value. destruct a; cbn.
  - destruct (String.eqb_spec (TrimSpace (text i)) "") as [He|He]; cbn; intros [= <- <-]; [by auto|]. left. eexists. by repeat split.
  - destruct (String.eqb_spec (TrimSpace (text i)) "") as [He|He]; cbn; [intros [= <- <-]; by auto|].
    destruct (unmaskLoginCode _) eqn:Hu; intros [= <- <-]; [|by auto]. apply unmaskLoginCode_spec in Hu as (? & ? & ?). left. eexists. by repeat split.
  - destruct (String.eqb_spec (text i) "") as [He|He]; cbn; intros [= <- <-]; [by auto|]. left. eexists. by repeat split.
Qed.

(** ** One flow *)

Definition posted : list event → list loginInput := omap (λ e, match e with Posted _ _ i => Some i | _ => None end).
Definition taken : list event → list loginInput := omap (λ e, match e with Took _ i => Some i | _ => None end).
Definition own : list event → list event := List.filter (λ e, match e with Posted _ _ _ => false | _ => true end).
(** How the flow ended: the success handler was called, or the user was told
    that it failed. *)
Definition outcomes : list event → list event := List.filter (λ e, match e with Succeeded _ _ | Sent (MFailure _) _ => true | _ => false end).
Definition is_given (e : event) : bool := match e with Answered _ (Ok _) => true | _ => false end.

(** Every answer of the runner follows the message it was made from, which has
    just been deleted unless it is a phone. *)
Inductive answers_ok : list event → Prop :=
  | answers_nil : answers_ok []
  | answers_other l e : answers_ok l → is_given e = false → answers_ok (l ++ [e])
  | answers_given l l0 a i v :
      answers_ok l → own l = l0 ++ Took a i :: (if sensitive a then deleteMessage i else []) → answer_of a (text i) v →
      answers_ok (l ++ [Answered a (Ok v)]).

Lemma answers_app l es : answers_ok l → forallb (λ e, negb (is_given e)) es = true → answers_ok (l ++ es).
Proof.
  revert l. induction es as [|e es IH]; intros l Hl H; [by rewrite app_nil_r|]. apply andb_prop in H as [He H].
  replace (l ++ e :: es) with ((l ++ [e]) ++ es) by (by rewrite <- app_assoc). apply IH; [|done]. apply answers_other; [done|]. by destruct (is_given e).
Qed.
Lemma answers_split l a v l1 l2 :
  answers_ok l → l = l1 ++ Answered a (Ok v) :: l2 →
  ∃ l0 i, own l1 = l0 ++ Took a i :: (if sensitive a then deleteMessage i else []) ∧ answer_of a (text i) v.
Proof.
  intros H. revert l2. induction H as [|l e H IH He|l l0 b i w H IH Ho Ha]; intros l2 E; [by destruct l1| |];
    (destruct l2 as [|e2 l2 _] using rev_ind; [apply app_inj_tail in E as [-> E]|rewrite app_comm_cons, app_assoc in E; apply app_inj_tail in E as [-> _]; by eapply IH]).
  - by subst e.
  - injection E as <- <-. by exists l0, i.
Qed.

Definition past (p : phase) : bool := match p with PClose | PEnded => true | _ => false end.
Definition over (p : phase) : bool := match p with PFinish | PClose | PEnded => true | _ => false end.

Record flow_ok (x : botLoginFlow * list event) : Prop := {
  f_from : ∀ user chat i, Posted user chat i ∈ snd x → user = userID (fst x) ∧ chat = chatID (fst x);
  f_queue : posted (snd x) = taken (snd x) ++ input (fst x);
  f_room : (length (input (fst x)) <= input_size)%nat;
  f_answers : answers_ok (snd x);
  f_took : ∀ a i, ph (fst x) = PDelete a i → sensitive a = true ∧ ∃ l0, own (snd x) = l0 ++ [Took a i];
  f_valid : ∀ u, ph (fst x) = PSuccessText u ∨ ph (fst x) = PSuccess u → user_id u ≠ 0;
  f_outcome : if over (ph (fst x)) then (length (outcomes (snd x)) <= 1)%nat else outcomes (snd x) = [];
  f_success : ∀ u ns, Succeeded u ns ∈ snd x → user_id u ≠ 0 ∧ ns = namespace (fst x);
}.

(** The goroutine goes on to [p], having done [es], and has [q] messages left. *)
Lemma flow_ok_go f log p q es :
  flow_ok (f, log) → input f = taken es ++ q → posted es = [] → answers_ok (log ++ es) →
  (∀ a i, p = PDelete a i → sensitive a = true ∧ ∃ l0, es = l0 ++ [Took a i]) →
  (∀ u, p = PSuccessText u ∨ p = PSuccess u → user_id u ≠ 0) →
  (if over (ph f) then over p = true ∧ outcomes es = [] else if over p then (length (outcomes es) <= 1)%nat else outcomes es = []) →
  (∀ u ns, Succeeded u ns ∈ es → user_id u ≠ 0 ∧ ns = namespace f) →
  flow_ok (with_ph p (with_input q f), log ++ es).
Proof.
  intros [H1 H2 H3 H4 H5 H6 H7 H8] Hq Hp Ha Hd Hv Ho Hs. cbn [fst snd] in *.
  assert (Hno : ∀ user chat i, Posted user chat i ∉ es).
  { intros user chat i Hin. assert (i ∈ posted es); [|rewrite Hp in *; by apply not_elem_of_nil in H]. apply list_elem_of_omap. eauto. }
  constructor; cbn [fst snd ph with_ph with_input input userID chatID namespace].
  - intros user chat i [Hin|Hin]%elem_of_app; [by apply (H1 _ _ i)|by apply Hno in Hin].
  - unfold posted, taken in *. rewrite !omap_app, Hp, app_nil_r, H2, Hq. by rewrite app_assoc.
  - rewrite Hq, length_app in H3. lia.
  - done.
  - intros a i ->. destruct (Hd a i eq_refl) as (? & l0 & ->). split; [done|]. exists (own (log ++ l0)). unfold own. by rewrite !List.filter_app, app_assoc.
  - done.
  - unfold outcomes in *. rewrite List.filter_app, length_app. destruct (over (ph f)).
    + destruct Ho as [-> ->]. cbn. lia.
    + rewrite H7. cbn. by destruct (over p).
  - intros u ns [Hin|Hin]%elem_of_app; [by apply H8|by apply Hs].
Qed.

Lemma flow_ok_stage s f log : flow_ok (f, log) → flow_ok (with_stage s f, log).
Proof. intros H. constructor; apply H. Qed.
Lemma flow_ok_cancel e f log : flow_ok (f, log) → flow_ok (cancel e f, log).
Proof. intros H. constructor; apply H. Qed.

(** A phase that is not over passes to another, doing nothing that ends the
    flow or answers the runner. *)
Lemma flow_ok_quiet f log p es :
  flow_ok (f, log) → over (ph f) = false → over p = false → taken es = [] → posted es = [] → outcomes es = [] →
  forallb (λ e, negb (is_given e)) es = true → (∀ a i, p ≠ PDelete a i) → (∀ u, p = PSuccessText u ∨ p = PSuccess u → user_id u ≠ 0) →
  (∀ u ns, Succeeded u ns ∉ es) → flow_ok (with_ph p f, log ++ es).
Proof.
  intros H Ho Hp Ht Hpo Hou Hg Hd Hu Hs. apply (flow_ok_go f log p (input f) es); [done|by rewrite Ht|done| | |done|by rewrite Ho, Hp|].
  - by apply answers_app; [apply (f_answers _ H)|].
  - intros a i ->. by destruct (Hd a i).
  - intros u ns Hin. by destruct (Hs u ns).
Qed.

(** The goroutine comes to its end. *)
Lemma flow_ok_end f log es :
  flow_ok (f, log) → over (ph f) = false → taken es = [] → posted es = [] → (length (outcomes es) <= 1)%nat →
  forallb (λ e, negb (is_given e)) es = true → (∀ u ns, Succeeded u ns ∈ es → user_id u ≠ 0 ∧ ns = namespace f) → flow_ok (with_ph PFinish f, log ++ es).
Proof.
  intros H Ho Ht Hpo Hou Hg Hs. apply (flow_ok_go f log PFinish (input f) es); [done|by rewrite Ht|done| |done|by intros ? [?|?]|by rewrite Ho|done].
  by apply answers_app; [apply (f_answers _ H)|].
Qed.

Lemma sent_ok f log msg ok err ctx p es :
  flow_ok (f, log) → message_of (ph f) = Some msg → after_sent (ph f) err ctx = (p, es) → flow_ok (with_ph p f, log ++ Sent msg ok :: es).
Proof.
  intros H Hm Ha. pose proof (f_valid _ H) as Hv. cbn in Hv. destruct (ph f) eqn:Hp; try discriminate Hm; injection Hm as <-;
    try (assert (Hq : over p = false ∧ (es = [] ∨ ∃ a e, es = [Answered a (Err e)]) ∧ (∀ a i, p ≠ PDelete a i) ∧ ∀ u, p = PSuccessText u ∨ p = PSuccess u → user_id u ≠ 0)
      by (cbn in Ha; repeat case_match; simplify_eq; naive_solver);
      destruct Hq as (? & [->|(? & ? & ->)] & ? & ?); apply flow_ok_quiet; rewrite ?Hp; done || set_solver).
  - destruct err; injection Ha as <- <-; [apply flow_ok_end; rewrite ?Hp; done || set_solver|].
    apply flow_ok_quiet; rewrite ?Hp; done || set_solver || by intros ? [?|?].
  - injection Ha as <- <-. apply flow_ok_end; rewrite ?Hp; done || set_solver || (cbn; lia).
Qed.

Lemma used_ok f log a i p es q pre :
  flow_ok (f, log) → over (ph f) = false → use_input a i = (p, es) → input f = taken pre ++ q → posted pre = [] → outcomes pre = [] → (∀ u ns, Succeeded u ns ∉ pre) →
  forallb (λ e, negb (is_given e)) pre = true → (∃ l0, own (log ++ pre) = l0 ++ Took a i :: (if sensitive a then deleteMessage i else [])) →
  flow_ok (with_ph p (with_input q f), log ++ pre ++ es).
Proof.
  intros H Ho Hu Hq Hpo Hou Hs Hg (l0 & Hl). assert (Hpre : answers_ok (log ++ pre)) by (by apply answers_app; [apply (f_answers _ H)|]).
  assert (He : taken es = [] ∧ posted es = [] ∧ outcomes es = [] ∧ (∀ u ns, Succeeded u ns ∉ es) ∧ answers_ok ((log ++ pre) ++ es) ∧
    over p = false ∧ (∀ b j, p ≠ PDelete b j) ∧ ∀ u, p = PSuccessText u ∨ p = PSuccess u → user_id u ≠ 0).
  { destruct (use_input_spec _ _ _ _ Hu) as [(v & -> & -> & Hv)|[-> Hp]].
    - split_and!; try done; [set_solver|by apply (answers_given _ l0 a i v)|by intros ? [?|?]].
    - rewrite app_nil_r. by destruct Hp as [-> | ->]; split_and!; try done; [set_solver|intros ? [?|?]|set_solver|intros ? [?|?]]. }
  destruct He as (E1 & E2 & E3 & E4 & E5 & E6 & E7 & E8).
  apply flow_ok_go; [done|..]; unfold taken, posted, outcomes in *; rewrite ?omap_app, ?List.filter_app, ?E1, ?E2, ?E3, ?Ho, ?E6, ?app_nil_r, ?app_assoc; try done.
  - intros b j ->. by destruct (E7 b j).
  - intros u ns [?|?]%elem_of_app; [by destruct (Hs u ns)|by destruct (E4 u ns)].
Qed.

(** ** The manager *)

(** What one step of a goroutine does to the state. *)
Definition goes (m m' : botLogin) (n : nat) (x x' : botLoginFlow * list event) : Prop :=
  flows m' = <[n := x']> (flows m) ∧ closed m' = closed m ∧ owner_done m' = owner_done m ∧ stops m' = stops m ∧
  userID (fst x') = userID (fst x) ∧
  (past (ph (fst x')) = past (ph (fst x)) ∧ active m' = active m ∨
   past (ph (fst x)) = false ∧ past (ph (fst x')) = true ∧ active m' = if decide (active m = Some n) then None else active m).

Lemma goes_go n p es m f log :
  flows m !! n = Some (f, log) → past p = past (ph f) → goes m (go n p es m) n (f, log) (with_ph p f, log ++ es).
Proof. intros H Hp. unfold goes, go. cbn. rewrite (alter_insert _ _ _ _ H). split_and!; try done. by left. Qed.
Lemma goes_input n p es q m f log :
  flows m !! n = Some (f, log) → past p = past (ph f) →
  goes m (go n p es (with_flows (alter (λ x, (with_input q (fst x), snd x)) n (flows m)) m)) n (f, log) (with_ph p (with_input q f), log ++ es).
Proof. intros H Hp. unfold goes, go. cbn. rewrite alter_alter, (alter_insert _ _ _ _ H). split_and!; try done. by left. Qed.

Lemma use_input_past a i p es : use_input a i = (p, es) → past p = false.
Proof. intros [(v & -> & _)|[_ [-> | ->]]]%use_input_spec; done. Qed.
Lemma after_sent_past p err ctx msg p' es : message_of p = Some msg → after_sent p err ctx = (p', es) → past p' = past p.
Proof. destruct p; cbn; try done; intros _; repeat case_match; intros; by simplify_eq. Qed.

Lemma run_flow_ok n s m m' x :
  flows m !! n = Some x → flow_ok x → run_flow n s m = Some m' → ∃ x', goes m m' n x x' ∧ flow_ok x'.
Proof.
  intros Hx Hok. destruct x as [f log]. unfold run_flow. rewrite Hx. cbn [mbind option_bind fst]. intros H.
  destruct s as [err|a|inp|r| | | | |err| | |].
  - destruct (message_of (ph f)) as [msg|] eqn:Hm; [|by destruct (ph f)].
    assert (H' : (let '(p, es) := after_sent (ph f) err (flow_err m f) in Some (go n p (Sent msg (match err with None => true | Some _ => false end) :: es) m)) = Some m') by (by destruct (ph f)).
    destruct (after_sent _ _ _) as [p es] eqn:Ha. injection H' as <-. eexists. split; [apply goes_go; [done|by eapply after_sent_past]|by eapply sent_ok].
  - destruct (ph f) eqn:Hp; try discriminate H. injection H as <-. eexists. split; [by apply goes_go; [|rewrite Hp]|].
    apply flow_ok_quiet; rewrite ?Hp; done || (by intros ? [?|?]) || set_solver.
  - destruct (ph f) eqn:Hp; try discriminate H. injection H as <-. eexists. split; [apply goes_go; [done|rewrite Hp; by destruct (reports inp)]|].
    apply flow_ok_quiet; rewrite ?Hp; destruct (reports inp); done || (by intros ? [?|?]) || set_solver.
  - destruct (ph f) eqn:Hp; try discriminate H. injection H as <-. eexists.
    assert (Hr : past (returned r (flow_err m f)) = false ∧ over (returned r (flow_err m f)) = false ∧ (∀ a i, returned r (flow_err m f) ≠ PDelete a i) ∧
      ∀ u, returned r (flow_err m f) = PSuccessText u ∨ returned r (flow_err m f) = PSuccess u → user_id u ≠ 0).
    { unfold returned, validLoginUser. destruct r as [[u|]|e], (flow_err m f); try (split_and!; [done..|by intros ? [?|?]]).
      destruct (Z.eqb_spec (user_id u) 0); split_and!; try done; [by intros ? [?|?]|]. intros u' [Hu|?]; [|done]. by injection Hu as <-. }
    destruct Hr as (? & ? & ? & ?). split; [by apply goes_go; [|rewrite Hp]|]. apply flow_ok_quiet; rewrite ?Hp; done || set_solver.
  - destruct (ph f) eqn:Hp; try discriminate H. injection H as <-.
    destruct (decide (active m = Some n)).
    + exists (with_ph (PPrompt a) (with_stage (stage_of a) f), log ++ []). split.
      * unfold goes, go. cbn. rewrite alter_alter, (alter_insert _ _ _ _ Hx), Hp. split_and!; try done. by left.
      * apply flow_ok_quiet; [by apply flow_ok_stage|..]; cbn; rewrite ?Hp; done || (by intros ? [?|?]) || set_solver.
    + eexists. split; [by apply goes_go; [|rewrite Hp]|]. apply flow_ok_quiet; rewrite ?Hp; done || (by intros ? [?|?]) || set_solver.
  - destruct (ph f) eqn:Hp; try discriminate H. destruct (input f) as [|i q] eqn:Hq; [done|].
    destruct (sensitive a) eqn:Hs.
    + injection H as <-. eexists. split; [by apply goes_input; [|rewrite Hp]|].
      apply flow_ok_go; [done|by rewrite Hq|done|by apply answers_app; [apply (f_answers _ Hok)|]|..]; rewrite ?Hp; try done.
      * intros b j [= <- <-]. split; [done|]. by exists [].
      * by intros ? [?|?].
      * set_solver.
    + destruct (use_input a i) as [p es] eqn:Hu. injection H as <-. eexists. split; [apply goes_input; [done|]; rewrite Hp; by eapply use_input_past|].
      apply (used_ok f log a i p es q [Took a i]); [done|by rewrite Hp|done..|set_solver|done|]. rewrite Hs. exists (own log). unfold own. by rewrite List.filter_app.
  - destruct (ph f) eqn:Hp; try discriminate H. injection H as <-. eexists. split; [by apply goes_go; [|rewrite Hp]|].
    apply flow_ok_quiet; rewrite ?Hp; done || (by intros ? [?|?]) || set_solver.
  - destruct (ph f) eqn:Hp; try discriminate H. destruct (use_input a i) as [p es] eqn:Hu. injection H as <-.
    destruct (f_took _ Hok a i Hp) as (Hs & l0 & Hl). eexists. split; [apply goes_go; [done|]; rewrite Hp; by eapply use_input_past|].
    assert (Hd : taken (deleteMessage i) = [] ∧ posted (deleteMessage i) = [] ∧ outcomes (deleteMessage i) = [] ∧ (∀ u ns, Succeeded u ns ∉ deleteMessage i) ∧
      forallb (λ e, negb (is_given e)) (deleteMessage i) = true ∧ own (deleteMessage i) = deleteMessage i).
    { unfold deleteMessage. destruct (0 <? messageID i); split_and!; done || set_solver. }
    destruct Hd as (D1 & D2 & D3 & D4 & D5 & D6).
    apply (used_ok f log a i p es (input f) (deleteMessage i)); [done|by rewrite Hp|done|by rewrite D1|done..|]. rewrite Hs.
    exists l0. unfold own in *. cbn [snd] in Hl. rewrite List.filter_app, Hl, D6, <- app_assoc. done.
  - destruct (ph f) eqn:Hp; try discriminate H. injection H as <-. eexists. split; [by apply goes_go; [|rewrite Hp]|].
    apply flow_ok_quiet; rewrite ?Hp; done || (by intros ? [?|?]) || set_solver.
  - destruct (ph f) eqn:Hp; try discriminate H. injection H as <-. eexists. split; [by apply goes_go; [|rewrite Hp]|].
    apply flow_ok_end; rewrite ?Hp; try done. intros v ns [= -> ->]%list_elem_of_singleton. split; [|done]. apply (f_valid _ Hok). cbn. rewrite Hp. by right.
  - destruct (ph f) eqn:Hp; try discriminate H. injection H as <-. exists (with_ph PClose f, log ++ []). split.
    + unfold goes, go. cbn. rewrite (alter_insert _ _ _ _ Hx), Hp. destruct (decide (active m = Some n)) as [He|He]; cbn; rewrite ?decide_True, ?decide_False by done;
        split_and!; try done; by right.
    + apply (flow_ok_go f log PClose (input f) []); [done..|rewrite app_nil_r; apply (f_answers _ Hok)|done|by intros ? [?|?]|by rewrite Hp|set_solver].
  - destruct (ph f) eqn:Hp; try discriminate H. injection H as <-. eexists. split; [by apply goes_go; [|rewrite Hp]|].
    apply (flow_ok_go f log PEnded (input f) []); [done..|rewrite app_nil_r; apply (f_answers _ Hok)|done|by intros ? [?|?]|by rewrite Hp|set_solver].
Qed.

Record inv (m : botLogin) : Prop := {
  i_flow : ∀ n x, flows m !! n = Some x → flow_ok x;
  i_active : ∀ n x, flows m !! n = Some x → past (ph (fst x)) = false ↔ active m = Some n;
  i_range : ∀ n, active m = Some n → (n < length (flows m))%nat;
  i_stops : ∀ k w b, stops m !! k = Some (w, b) →
    closed m = true ∧ ∀ n x, flows m !! n = Some x → w ≠ Some n ∨ b = true → past (ph (fst x)) = true;
}.

Lemma inv_goes n x x' m m' : inv m → flows m !! n = Some x → goes m m' n x x' → flow_ok x' → inv m'.
Proof.
  intros Hi Hx (Hf & Hc & Ho & Hs & _ & Hp) Hok. pose proof (i_active _ Hi _ _ Hx) as Hact.
  assert (Hlt : (n < length (flows m))%nat) by (by eapply lookup_lt_Some).
  constructor; rewrite ?Hf, ?Hc, ?Ho, ?Hs.
  - intros k z [(<- & <- & _)|[_ H]]%list_lookup_insert_Some; [done|by apply (i_flow _ Hi k)].
  - intros k z [(<- & <- & _)|[Hne H]]%list_lookup_insert_Some.
    + destruct Hp as [[-> ->]|(Hp1 & -> & ->)]; [done|]. apply Hact in Hp1. rewrite decide_True by done. by split.
    + rewrite (i_active _ Hi _ _ H). destruct Hp as [[_ ->]|(Hp1 & _ & ->)]; [done|]. apply Hact in Hp1. rewrite decide_True by done. split; congruence.
  - intros k. rewrite length_insert. destruct Hp as [[_ ->]|(Hp1 & _ & ->)]; [apply (i_range _ Hi)|]. by destruct (decide _); [|apply (i_range _ Hi)].
  - intros k w b H. destruct (i_stops _ Hi k w b H) as [? Hpast]. split; [done|]. intros j z [(<- & <- & _)|[Hne Hz]]%list_lookup_insert_Some Hw; [|by apply (Hpast j)].
    specialize (Hpast _ _ Hx Hw). destruct Hp as [[-> _]|(_ & -> & _)]; done.
Qed.

(** A flow changes otherwise than by its goroutine. *)
Lemma inv_alter n g m : 
  inv m → (∀ x, flows m !! n = Some x → flow_ok x → flow_ok (g x) ∧ ph (fst (g x)) = ph (fst x)) → inv (with_flows (alter g n (flows m)) m).
Proof.
  intros Hi Hg. constructor; cbn.
  - intros k z (x & H & ->)%alter_Some. pose proof (i_flow _ Hi _ _ H). destruct (decide (n = k)) as [->|]; [by apply Hg|done].
  - intros k z (x & H & ->)%alter_Some. rewrite <- (i_active _ Hi _ _ H). destruct (decide (n = k)) as [->|]; [|done].
    by destruct (Hg x H (i_flow _ Hi _ _ H)) as [_ ->].
  - intros k H. rewrite length_alter. by apply (i_range _ Hi).
  - intros k w b H. destruct (i_stops _ Hi k w b H) as [? Hp]. split; [done|]. intros j z (x & Hx & ->)%alter_Some Hw. specialize (Hp _ _ Hx Hw).
    destruct (decide (n = j)) as [->|]; [|done]. by destruct (Hg x Hx (i_flow _ Hi _ _ Hx)) as [_ ->].
Qed.
Lemma inv_cancel n e m : inv m → inv (cancel_flow n e m).
Proof. intros Hi. apply inv_alter; [done|]. intros [f log] _ H. split; [by apply flow_ok_cancel|done]. Qed.

Lemma post_ok f log user chat i :
  flow_ok (f, log) → matches f user chat = true → (length (input f) < input_size)%nat →
  flow_ok (with_input (input f ++ [i]) f, log ++ [Posted user chat i]).
Proof.
  intros [H1 H2 H3 H4 H5 H6 H7 H8] [Hu%Z.eqb_eq Hc%Z.eqb_eq]%andb_prop Hl. cbn [fst snd] in *. constructor; cbn [fst snd ph with_input input userID chatID namespace].
  - intros user' chat' j [Hin|Hin]%elem_of_app; [by apply (H1 _ _ j)|]. by apply list_elem_of_singleton in Hin as [= -> -> ->].
  - unfold posted, taken in *. rewrite !omap_app, H2. cbn. by rewrite app_nil_r, app_assoc.
  - rewrite length_app. cbn. lia.
  - by apply answers_other.
  - intros a j Hp. destruct (H5 a j Hp) as [? (l0 & Hl0)]. split; [done|]. exists l0. unfold own in *. rewrite List.filter_app, Hl0. by rewrite app_nil_r.
  - done.
  - unfold outcomes in *. rewrite List.filter_app. by rewrite app_nil_r.
  - intros u ns [Hin|Hin]%elem_of_app; [by apply H8|]. by apply list_elem_of_singleton in Hin.
Qed.

Lemma start_inv ns user chat factory m : inv m → inv (snd (start ns user chat factory m)).
Proof.
  intros Hi. unfold start. destruct factory as [[]|]; [|done..]. destruct (closed m) eqn:Hc; [done|]. destruct (owner_done m); [done|].
  destruct (active m) as [n|] eqn:Ha; [by rewrite bool_decide_eq_true_2 by eauto|]. rewrite bool_decide_eq_false_2 by (by intros [? ?]). cbn.
  constructor; cbn.
  - intros k z [H|[-> ->]]%lookup_snoc; [by apply (i_flow _ Hi k)|]. constructor; cbn; try done; [set_solver|unfold input_size; lia|constructor|by intros u [?|?]|set_solver].
  - intros k z [H|[-> ->]]%lookup_snoc; [|done]. rewrite (i_active _ Hi _ _ H), Ha. apply lookup_lt_Some in H. split; [done|]. intros [= <-]. lia.
  - intros k [= <-]. rewrite length_app. cbn. lia.
  - intros k w b H. destruct (i_stops _ Hi k w b H) as [? _]. congruence.
Qed.

Lemma stop_inv m : inv m → inv (Stop m).
Proof.
  intros Hi. unfold Stop. set (m1 := match active m with Some n => cancel_flow n Canceled m | None => m end).
  assert (H1 : inv m1) by (unfold m1; destruct (active m); [by apply inv_cancel|done]). constructor; cbn; [apply (i_flow _ H1)|apply (i_active _ H1)|apply (i_range _ H1)|].
  intros k w b [H|[-> [= -> ->]]]%lookup_snoc.
  - destruct (i_stops _ H1 k w b H) as [_ Hp]. by split.
  - split; [done|]. intros n x Hx Hw. destruct (past (ph (fst x))) eqn:Hpast; [done|]. apply (i_active _ H1 _ _ Hx) in Hpast.
    destruct Hw as [Hw|Hw%bool_decide_eq_true]; congruence.
Qed.

Lemma bot_step_inv l m m' : inv m → step l m = Some m' → inv m'.
Proof.
  intros Hi. destruct l as [user chat ns fac|user chat|n user chat i acc|n s|n| |k|]; cbn [step]; intros H.
  - injection H as <-. by apply start_inv.
  - injection H as <-. unfold Cancel. destruct (active_flow m) as [[n f]|]; [|done]. by destruct (matches f user chat); [apply inv_cancel|].
  - unfold HandleInput in H. destruct (flows m !! n) as [[f log]|] eqn:Hf; [|done]. destruct (matches f user chat) eqn:Hm; cbn [negb] in H; [|by injection H as <-].
    destruct acc, (length (input f) <? input_size)%nat eqn:Hl; cbn [andb] in H; try discriminate H.
    + injection H as <-. apply inv_alter; [done|]. intros x Hx Hok. rewrite Hf in Hx. injection Hx as <-. apply Nat.ltb_lt in Hl. split; [|done]. by apply post_ok.
    + destruct (negb _); [done|]. by injection H as <-.
    + by injection H as <-.
  - unfold run_flow in H. pose proof H as Hr. apply bind_Some in H as (x & Hx & _).
    destruct (run_flow_ok n s m m' x Hx (i_flow _ Hi _ _ Hx) Hr) as (x' & Hg & Hok). by eapply inv_goes.
  - injection H as <-. by apply inv_cancel.
  - injection H as <-. by apply stop_inv.
  - unfold Stopped in H. destruct (stops m !! k) as [[[n|] []]|] eqn:Hk; try done. apply bind_Some in H as (x & Hx & H). destruct (ph (fst x)) eqn:Hp; try done. injection H as <-.
    constructor; cbn; [apply (i_flow _ Hi)|apply (i_active _ Hi)|apply (i_range _ Hi)|].
    intros j w b [(<- & [= <- <-] & _)|[_ Hj]]%list_lookup_insert_Some; [|by apply (i_stops _ Hi j)].
    destruct (i_stops _ Hi _ _ _ Hk) as [? Hpast]. split; [done|]. intros i z Hz _. destruct (decide (i = n)) as [->|]; [|apply (Hpast i z Hz); left; congruence].
    assert (z = x) as -> by congruence. by rewrite Hp.
  - injection H as <-. constructor; apply Hi.
Qed.

(** C7: Logging in through the bot, whatever the users send, the runner asks
    for and returns, the messenger answers, however flows are started,
    canceled, timed out and stopped and however all this interleaves: at most
    one flow has not finished, the active one; only messages of the user and
    chat that started a flow reach it, eight may wait, and they are used in
    the order they came, each once; what the runner is given is made from the
    message just taken, which for a code or a password has been deleted from
    the chat: a phone without its punctuation, for a code the digits that the
    message shifts by one, the password as it is, and never an empty one; a
    flow has at most one outcome, a failure that the user is told or the
    success handler with a valid user and the name it was started for; and
    after a Stop that returned without error nothing starts and no flow is
    left but for closing its channel. *)
Theorem bot_login_safe l m :
  steps step l NewBotLogin = Some m →
  (∀ n x, flows m !! n = Some x → past (ph (fst x)) = false ↔ active m = Some n) ∧
  (∀ n f log, flows m !! n = Some (f, log) →
    (∀ user chat i, Posted user chat i ∈ log → user = userID f ∧ chat = chatID f) ∧
    posted log = taken log ++ input f ∧ (length (input f) <= 8)%nat ∧
    (∀ a v l1 l2, log = l1 ++ Answered a (Ok v) :: l2 →
      ∃ l0 i, own l1 = l0 ++ Took a i :: (if sensitive a then deleteMessage i else []) ∧ answer_of a (text i) v) ∧
    (length (outcomes log) <= 1)%nat ∧ (∀ u ns, Succeeded u ns ∈ log → user_id u ≠ 0 ∧ ns = namespace f)) ∧
  (∀ k w, stops m !! k = Some (w, true) → closed m = true ∧ ∀ n x, flows m !! n = Some x → past (ph (fst x)) = true).
Proof.
  intros Hs. assert (Hi : inv m).
  { apply (steps_inv step inv l NewBotLogin); [intros ???; apply bot_step_inv| |done]. constructor; cbn; done. }
  split_and!; [apply (i_active _ Hi)| |].
  - intros n f log Hx. pose proof (i_flow _ Hi _ _ Hx) as Hok. split_and!; [apply (f_from _ Hok)|apply (f_queue _ Hok)|apply (f_room _ Hok)| | |apply (f_success _ Hok)].
    + intros a v l1 l2. apply (answers_split log). apply (f_answers _ Hok).
    + pose proof (f_outcome _ Hok) as Ho. cbn in Ho. destruct (over (ph f)); [done|]. rewrite Ho. cbn. lia.
  - intros k w H. destruct (i_stops _ Hi k w true H) as [? Hp]. split; [done|]. intros n x Hx. apply (Hp n x Hx). by right.
Qed.

(** A login with a mistyped code, which the stop that follows waits for. *)
Definition demo : list label :=
  let ask a := [LFlow 0 (FAsk a); LFlow 0 FStage; LFlow 0 (FSent None)] in
  let say t := [LInput 0 7 7 (mkInput t 5) true; LFlow 0 FTake] in
  [LStart 7 7 ["work"] (Ok true); LFlow 0 (FSent None)] ++ ask AskPhone ++ say " +1 (202) 555-01 " ++
  ask AskCode ++ say "12a" ++ [LFlow 0 FDelete; LFlow 0 (FSent None); LFlow 0 FStage; LFlow 0 (FSent None)] ++ say "67890" ++ [LFlow 0 FDelete] ++
  ask AskPassword ++ say " s " ++
  [LFlow 0 FDelete; LFlow 0 (FReturn (Ok (Some (mkLoginUser 42 "u")))); LFlow 0 (FSent None); LStop; LFlow 0 FHandled; LFlow 0 FFinish; LFlow 0 FClose; LStopped 0].
Definition demo_end : botLogin := default NewBotLogin (steps step demo NewBotLogin).

Lemma bot_login_safe_witness :
  (∃ f log, flows demo_end !! 0%nat = Some (f, log) ∧
    posted log = [mkInput " +1 (202) 555-01 " 5; mkInput "12a" 5; mkInput "67890" 5; mkInput " s " 5] ∧
    Answered AskPhone (Ok "+120255501") ∈ log ∧ Answered AskCode (Ok "56789") ∈ log ∧ Answered AskPassword (Ok " s ") ∈ log ∧
    taken log = posted log ∧ outcomes log = [Succeeded (mkLoginUser 42 "u") "work"]) ∧
  closed demo_end = true ∧ active demo_end = None.
Proof.
  destruct (bot_login_safe demo demo_end ltac:(vm_compute; reflexivity)) as (_ & H & Hs).
  destruct (flows demo_end !! 0%nat) as [[f log]|] eqn:He; [|by vm_compute in He].
  destruct (H 0%nat f log He) as (_ & Hq & _). destruct (Hs 0%nat (Some 0%nat) ltac:(vm_compute; reflexivity)) as [Hc _].
  vm_compute in He. injection He as <- <-. split; [|split; [exact Hc|reflexivity]]. eexists _, _. split; [reflexivity|].
  rewrite Hq. split_and!; first [apply list_elem_of_In; simpl; tauto|vm_compute; reflexivity].
Defined.
