(* ===== verification/Aria2Reconnect.v ===== *)
(** * Pausing and resuming aria2 tasks around the connection
      (application/downloader.aria2/reconnect.go, speed_monitor.go)

    Tasks of this program are paused when Telegram reconnects or the program
    shuts down, resumed afterwards or at the next start, and cycled when their
    speed stays at zero.  The repository, the daemon and the timers are the
    calls of programs (Prog); every RPC is retried while the daemon cannot be
    reached.  [None] is a run whose loops were longer than the fuel. *)

From S2P Require Import Prelude Strings TargetPath Prog Aria2.
Local Open Scope list_scope.

Definition Canceled : string := "context canceled".
Definition DeadlineExceeded : string := "context deadline exceeded".

(** ** The calls *)

Inductive ncall :=
  | GIDs
  | NTellActive
  | NTellWaiting (offset num : nat)
  | NForcePause (gid : string)
  | NUnpause (gid : string)
  | Wait (delay : Z).                       (* a timer: the context's error, if it ended first *)
Definition nans (c : ncall) : Type :=
  match c with
  | GIDs => res goerr (gset string)
  | NTellActive | NTellWaiting _ _ => res goerr (list DownloadStatus)
  | NForcePause _ | NUnpause _ | Wait _ => option goerr
  end.
Abbreviation npgm := (prog ncall nans).
Definition no_error (e : option goerr) : res goerr unit := match e with None => Ok tt | Some e => Err e end.

(** ** The prefix of links *)

(** [url.URL], as far as it is used; [url.Parse] and [URL.String] are those of
    the library. *)
Record base_url := mkBase { b_Scheme : string; b_Host : string; b_Path : string }.
Definition DownloadURLPrefix (Parse : string → res goerr base_url) (String_ : base_url → string) (baseURL : string) : res goerr string :=
  match Parse baseURL with
  | Err e => Err (Wrapped "parse public_base_url" e)
  | Ok u =>
      if String.eqb (b_Scheme u) "" || String.eqb (b_Host u) "" then Err (NewError "public_base_url must include scheme and host")
      else
        let base := TrimSuffix (b_Path u) "/" in
        let joined := if String.eqb base "" then "download" else Clean (base +:+ "/download") in
        Ok (String_ (mkBase (b_Scheme u) (b_Host u) (joined +:+ "/")))
  end.

Section reconnect.
(** The loops' fuel, and the errors of [IsConnectionError] by type (net.OpError,
    net.DNSError, time-outs). *)
Context (attempts pages : nat) (connection_error : goerr → bool).

Definition IsConnectionError (e : goerr) : bool := negb (errors_Is e Canceled) && (connection_error e || errors_Is e DeadlineExceeded).

(** ** Retrying *)

Fixpoint retry {A} (n : nat) (delay : Z) (c : ncall) (result : nans c → res goerr A) : npgm (option (res goerr A)) :=
  x ← Prog.call c;
  match result x with
  | Ok a => Ret (Some (Ok a))
  | Err e =>
      if errors_Is e Canceled || negb (IsConnectionError e) then Ret (Some (Err e)) else
      match n with
      | O => Ret None
      | S n =>
          ctx ← (Prog.call (Wait delay) : npgm (option goerr));
          match ctx with
          | Some e => Ret (Some (Err e))
          | None => retry n (nextAria2RetryInterval delay) c result
          end
      end
  end.
Definition RetryConnectionWithInterval {A} (interval : Z) (c : ncall) (result : nans c → res goerr A) : npgm (option (res goerr A)) :=
  retry attempts (firstRetryInterval interval) c result.
Definition DefaultConnectRetryInterval : Z := 10 * second.
Definition retryAria2Connection {A} (c : ncall) (result : nans c → res goerr A) := RetryConnectionWithInterval DefaultConnectRetryInterval c result.

(** ** Which tasks *)

(** [appendOwned] for the tasks of an answer that [keep] lets through; the
    GIDs seen are those of the result. *)
Fixpoint append_owned (keep : DownloadStatus → bool) (registered : gset string) (prefix : string) (result tasks : list DownloadStatus) : list DownloadStatus :=
  match tasks with
  | [] => result
  | task :: tasks =>
      append_owned keep registered prefix
        (if keep task && negb (String.eqb (ds_GID task) "") && negb (bool_decide (ds_GID task ∈ map ds_GID result)) && IsTDLTask task registered prefix
         then result ++ [task] else result) tasks
  end.
Definition is_active (task : DownloadStatus) : bool := String.eqb (ds_Status task) "" || String.eqb (ds_Status task) StatusActive.
Definition is_waiting (task : DownloadStatus) : bool := String.eqb (ds_Status task) StatusWaiting.

Definition aria2TellWaitingBatchSize : nat := 1000%nat.
(** The loops over [TellWaiting], which collect from every answer. *)
Fixpoint waiting_pages (n offset : nat) (collect : list DownloadStatus → list DownloadStatus → list DownloadStatus) (result : list DownloadStatus)
    : npgm (option (res goerr (list DownloadStatus))) :=
  match n with
  | O => Ret None
  | S n =>
      r ← retryAria2Connection (NTellWaiting offset aria2TellWaitingBatchSize) id;
      match r with
      | None => Ret None
      | Some (Err e) => Ret (Some (Err (Wrapped "query aria2 waiting tasks" e)))
      | Some (Ok batch) =>
          let result := collect result batch in
          if (length batch <? aria2TellWaitingBatchSize)%nat then Ret (Some (Ok result))
          else waiting_pages n (offset + length batch) collect result
      end
  end.

Definition listTDLAria2ReconnectTasks (registered : gset string) (prefix : string) : npgm (option (res goerr (list DownloadStatus))) :=
  r ← retryAria2Connection NTellActive id;
  match r with
  | None => Ret None
  | Some (Err e) => Ret (Some (Err (Wrapped "query aria2 active tasks" e)))
  | Some (Ok active) => waiting_pages pages 0 (append_owned is_waiting registered prefix) (append_owned is_active registered prefix [] active)
  end.

(** ** Pausing *)

(** The loops of [SuspendTDLTasksForReconnect] and [PauseTDLTasksForShutdown];
    [stop] is the errors that end them. *)
Fixpoint pause_all (interval : Z) (stop : goerr → bool) (gids paused : list string) : npgm (option (list string * option goerr)) :=
  match gids with
  | [] => Ret (Some (paused, None))
  | gid :: gids =>
      r ← RetryConnectionWithInterval interval (NForcePause gid) no_error;
      match r with
      | None => Ret None
      | Some (Ok _) => pause_all interval stop gids (paused ++ [gid])
      | Some (Err e) => if stop e then Ret (Some (paused, Some e)) else pause_all interval stop gids paused
      end
  end.
Definition pause_tasks (interval : Z) (stop : goerr → bool) (prefix : res goerr string) : npgm (option (list string * option goerr)) :=
  gids ← (Prog.call GIDs : npgm (res goerr (gset string)));
  match gids with
  | Err e => Ret (Some ([], Some (Wrapped "load tdl aria2 task registry" e)))
  | Ok registered =>
      match prefix with
      | Err e => Ret (Some ([], Some e))
      | Ok prefix =>
          r ← listTDLAria2ReconnectTasks registered prefix;
          match r with
          | None => Ret None
          | Some (Err e) => Ret (Some ([], Some e))
          | Some (Ok candidates) => pause_all interval stop (map ds_GID candidates) []
          end
      end
  end.
Definition SuspendTDLTasksForReconnect := pause_tasks DefaultConnectRetryInterval (λ e, errors_Is e Canceled).
Definition aria2ShutdownRetryInterval : Z := second.
Definition PauseTDLTasksForShutdown := pause_tasks aria2ShutdownRetryInterval (λ e, errors_Is e Canceled || errors_Is e DeadlineExceeded).

(** ** Resuming *)

Fixpoint unpause_all (gids : list string) (resumed : nat) : npgm (option (nat * option goerr)) :=
  match gids with
  | [] => Ret (Some (resumed, None))
  | gid :: gids =>
      r ← retryAria2Connection (NUnpause gid) no_error;
      match r with
      | None => Ret None
      | Some (Ok _) => unpause_all gids (S resumed)
      | Some (Err e) => if errors_Is e Canceled then Ret (Some (resumed, Some e)) else unpause_all gids resumed
      end
  end.
Definition ResumeTDLTasks (gids : list string) : npgm (option (option goerr)) :=
  r ← unpause_all (MergeUniqueGIDs [] gids) 0; Ret (match r with None => None | Some (_, e) => Some e end).

Definition paused_owned (registered : gset string) (prefix : string) (result batch : list DownloadStatus) : list DownloadStatus :=
  result ++ List.filter (λ task, String.eqb (normalizedAria2Status (ds_Status task)) StatusPaused && IsTDLTask task registered prefix) batch.
Definition ResumeStartupPausedTasks (prefix : res goerr string) : npgm (option (nat * option goerr)) :=
  gids ← (Prog.call GIDs : npgm (res goerr (gset string)));
  match gids with
  | Err e => Ret (Some (0%nat, Some (Wrapped "load tdl aria2 task registry" e)))
  | Ok registered =>
      match prefix with
      | Err e => Ret (Some (0%nat, Some e))
      | Ok prefix =>
          r ← waiting_pages pages 0 (paused_owned registered prefix) [];
          match r with
          | None => Ret None
          | Some (Err e) => Ret (Some (0%nat, Some e))
          | Some (Ok candidates) => unpause_all (map ds_GID candidates) 0
          end
      end
  end.

(** ** The zero-speed monitor *)

Record zeroSpeedMonitorConfig := mkZero { PollInterval : Z; StallThreshold : Z; PauseDuration : Z; ActionTimeout : Z }.
Definition normalizeZeroSpeedMonitorConfig (cfg : zeroSpeedMonitorConfig) : zeroSpeedMonitorConfig :=
  mkZero (if PollInterval cfg <=? 0 then 30 * second else PollInterval cfg)
    (if StallThreshold cfg <=? 0 then 3 * 60 * second else StallThreshold cfg)
    (if PauseDuration cfg <=? 0 then 10 * second else PauseDuration cfg)
    (if ActionTimeout cfg <=? 0 then 30 * second else ActionTimeout cfg).

(** [activeOwned]: the later of two tasks with one GID. *)
Definition activeOwned (registered : gset string) (prefix : string) (active : list DownloadStatus) : gmap string DownloadStatus :=
  foldl (λ m task, if String.eqb (normalizedAria2Status (ds_Status task)) StatusActive && IsTDLTask task registered prefix
                   then <[ds_GID task := task]> m else m) ∅ active.

Definition zero_speed (task : DownloadStatus) : bool := negb (0 <? parseAria2Length (ds_Speed task)).
Definition stalls (threshold now : Z) (first : option Z) (task : DownloadStatus) : bool :=
  zero_speed task && match first with Some first => threshold <=? time_sub now first | None => false end.
(** The entry of a task after a poll: gone when the task is not active or not
    still, restarted when it is stalled. *)
Definition stall_entry (threshold now : Z) (first : option Z) (task : option DownloadStatus) : option Z :=
  match task with
  | Some task =>
      if negb (zero_speed task) then None
      else match first with
           | None => Some now
           | Some first => Some (if threshold <=? time_sub now first then now else first)
           end
  | None => None
  end.
Definition poll_stall (threshold now : Z) (active : gmap string DownloadStatus) (stall : gmap string Z) : gmap string Z :=
  merge (stall_entry threshold now) stall active.
(** Go ranges over the map in any order; here in the map's own. *)
Definition stalled (threshold now : Z) (active : gmap string DownloadStatus) (stall : gmap string Z) : list string :=
  map fst (List.filter (λ x, stalls threshold now (stall !! fst x) (snd x)) (map_to_list active)).

Definition pauseAndResume (cfg : zeroSpeedMonitorConfig) (gid : string) : npgm (option (option goerr)) :=
  r ← RetryConnectionWithInterval second (NForcePause gid) no_error;
  match r with
  | None => Ret None
  | Some (Err e) => Ret (Some (Some (Wrapped "pause stalled aria2 task" e)))
  | Some (Ok _) =>
      ctx ← (Prog.call (Wait (PauseDuration cfg)) : npgm (option goerr));
      match ctx with
      | Some e => Ret (Some (Some e))
      | None =>
          r ← RetryConnectionWithInterval second (NUnpause gid) no_error;
          Ret (match r with
               | None => None
               | Some (Err e) => Some (Some (Wrapped "resume stalled aria2 task" e))
               | Some (Ok _) => Some None
               end)
      end
  end.
Fixpoint cycle_all (cfg : zeroSpeedMonitorConfig) (gids : list string) : npgm (option unit) :=
  match gids with
  | [] => Ret (Some tt)
  | gid :: gids => r ← pauseAndResume cfg gid; match r with None => Ret None | Some _ => cycle_all cfg gids end
  end.

(** One poll: the map of stalls after it, and the error. *)
Definition poll (cfg : zeroSpeedMonitorConfig) (prefix : res goerr string) (now : Z) (stall : gmap string Z)
    : npgm (option (gmap string Z * option goerr)) :=
  gids ← (Prog.call GIDs : npgm (res goerr (gset string)));
  match gids with
  | Err e => Ret (Some (stall, Some (Wrapped "load tdl aria2 task registry" e)))
  | Ok registered =>
      match prefix with
      | Err e => Ret (Some (stall, Some e))
      | Ok prefix =>
          r ← RetryConnectionWithInterval second NTellActive id;
          match r with
          | None => Ret None
          | Some (Err e) => Ret (Some (stall, Some (Wrapped "query aria2 active tasks" e)))
          | Some (Ok active) =>
              let active := activeOwned registered prefix active in
              r ← cycle_all cfg (stalled (StallThreshold cfg) now active stall);
              Ret (match r with None => None | Some _ => Some (poll_stall (StallThreshold cfg) now active stall, None) end)
          end
      end
  end.
End reconnect.
