(* ===== verification/Aria2ReconnectProps.v ===== *)
(** * What pausing and resuming aria2 tasks guarantees

    Lemmas and theorems about Aria2Reconnect: what is paused around a
    reconnect is ours, running and resumed again; the zero-speed monitor cycles
    exactly the tasks that stood still for its threshold. *)

From S2P Require Import Prelude Strings Prog Aria2 Aria2Reconnect.
Local Open Scope list_scope.

Abbreviation nlog := (list (event ncall nans)).

(** ** Logs *)

(** The GIDs the daemon paused, and resumed. *)
Definition paused_ev (ev : event ncall nans) : option string :=
  match ev with
  | Ev c x => match c as c return nans c → option string with
              | NForcePause g => λ e, match e with None => Some g | Some _ => None end
              | _ => λ _, None
              end x
  end.
Definition resumed_ev (ev : event ncall nans) : option string :=
  match ev with
  | Ev c x => match c as c return nans c → option string with
              | NUnpause g => λ e, match e with None => Some g | Some _ => None end
              | _ => λ _, None
              end x
  end.
Definition paused_in (t : nlog) : list string := omap paused_ev t.
Definition resumed_in (t : nlog) : list string := omap resumed_ev t.
Lemma paused_app t1 t2 : paused_in (t1 ++ t2) = paused_in t1 ++ paused_in t2.
Proof. apply omap_app. Qed.
Lemma resumed_app t1 t2 : resumed_in (t1 ++ t2) = resumed_in t1 ++ resumed_in t2.
Proof. apply omap_app. Qed.

(** ** Retries

    [J] is what failed attempts and waits keep. *)
Section retry.
Context (attempts : nat) (connection_error : goerr → bool).

Definition fails {A} (c : ncall) (result : nans c → res goerr A) (x : nans c) : bool :=
  match result x with Err e => negb (errors_Is e Canceled) && IsConnectionError connection_error e | Ok _ => false end.

Lemma wp_retry {A} (I J : nlog → Prop) n delay c (result : nans c → res goerr A) t (Q : nlog → option (res goerr A) → Prop) :
  J t → (∀ t, J t → I t) →
  (∀ t x a, J t → result x = Ok a → I (t ++ [Ev c x]) ∧ Q (t ++ [Ev c x]) (Some (Ok a))) →
  (∀ t x e, J t → result x = Err e → J (t ++ [Ev c x])) →
  (∀ t d w, J t → J (t ++ [Ev (Wait d) w])) →
  (∀ t x e, J t → Ev c x ∈ t → Q t (Some (Err e))) → (∀ t, J t → Q t None) →
  wp I (retry connection_error n delay c result) t Q.
Proof.
  intros Hj HI Hok Herr Hw Hq Hn. revert delay t Hj. induction n as [|n IH]; intros delay t Hj; intros x.
  - destruct (result x) as [a|e] eqn:Hx; [destruct (Hok _ _ _ Hj Hx)|pose proof (Herr _ _ _ Hj Hx) as Hj'].
    + split; [done|]. cbn. rewrite Hx. done.
    + split; [by apply HI|]. cbn. rewrite Hx. destruct (_ || _); cbn; [apply (Hq _ x); [done|set_solver]|auto].
  - destruct (result x) as [a|e] eqn:Hx; [destruct (Hok _ _ _ Hj Hx)|pose proof (Herr _ _ _ Hj Hx) as Hj'].
    + split; [done|]. cbn. rewrite Hx. done.
    + split; [by apply HI|]. cbn. rewrite Hx. destruct (_ || _); cbn; [apply (Hq _ x); [done|set_solver]|]. intros w. pose proof (Hw _ delay w Hj') as Hjw.
      split; [by apply HI|]. destruct w; cbn; [apply (Hq _ x); [done|set_solver]|]. by apply IH.
Qed.
End retry.

(** ** What is ours *)

Definition from_answer (t : nlog) (task : DownloadStatus) : Prop :=
  (∃ l, Ev (ans:=nans) NTellActive (Ok l) ∈ t ∧ task ∈ l ∧ is_active task = true) ∨
  (∃ o l, Ev (ans:=nans) (NTellWaiting o aria2TellWaitingBatchSize) (Ok l) ∈ t ∧ task ∈ l ∧ is_waiting task = true).
Definition registered_in (t : nlog) (registered : gset string) : Prop := Ev (ans:=nans) GIDs (Ok registered) ∈ t.
(** The daemon reported a task as active or waiting that is registered, or
    downloads one of our links. *)
Definition reported (prefix : string) (t : nlog) (g : string) : Prop :=
  ∃ registered task, registered_in t registered ∧ ds_GID task = g ∧ IsTDLTask task registered prefix = true ∧ from_answer t task.

Lemma from_answer_app t t' task : from_answer t task → from_answer (t ++ t') task.
Proof. intros [(l & ? & ?)|(o & l & ? & ?)]; [left; exists l|right; exists o, l]; set_solver. Qed.
Lemma reported_app prefix t t' g : reported prefix t g → reported prefix (t ++ t') g.
Proof. intros (r & task & Hr & ? & ? & Ha). exists r, task. split_and!; [unfold registered_in in *; set_solver|done..|by apply from_answer_app]. Qed.

Definition collected (t : nlog) (registered : gset string) (prefix : string) (l : list DownloadStatus) : Prop :=
  NoDup (map ds_GID l) ∧ ∀ task, task ∈ l → ds_GID task ≠ "" ∧ IsTDLTask task registered prefix = true ∧ from_answer t task.
Lemma collected_app t t' registered prefix l : collected t registered prefix l → collected (t ++ t') registered prefix l.
Proof. intros [H1 H2]. split; [done|]. intros task (? & ? & ?)%H2. split_and!; [done..|by apply from_answer_app]. Qed.

Lemma append_owned_ok keep registered prefix t result tasks :
  collected t registered prefix result → (∀ task, task ∈ tasks → keep task = true → from_answer t task) →
  collected t registered prefix (append_owned keep registered prefix result tasks).
Proof.
  revert result. induction tasks as [|task tasks IH]; intros result Hr Ht; [done|]. cbn. apply IH; [|set_solver].
  destruct (keep task && _ && _ && _) eqn:Hb; [|done]. apply andb_prop in Hb as [Hb Ho]. apply andb_prop in Hb as [Hb Hs]. apply andb_prop in Hb as [Hk Hg].
  apply negb_true_iff, bool_decide_eq_false in Hs. apply negb_true_iff, String.eqb_neq in Hg. destruct Hr as [Hn Hr]. split.
  - rewrite map_app. apply NoDup_app. split_and!; [done| |apply NoDup_singleton]. intros g Hin [= ->]%list_elem_of_singleton. done.
  - intros z [Hz|Hz%list_elem_of_singleton]%elem_of_app; [by apply Hr|]. subst z. split_and!; [done..|]. apply Ht; [set_solver|done].
Qed.

(** ** Pausing and resuming *)

Definition allowed (prefix : string) (t : nlog) (c : ncall) : Prop :=
  match c with
  | NForcePause g => g ≠ "" ∧ reported prefix t g ∧ resumed_in t = [] ∧ g ∉ paused_in t
  | NUnpause g => g ∈ paused_in t ∧ g ∉ resumed_in t
  | _ => True
  end.

Section runs.
Context (attempts pages : nat) (connection_error : goerr → bool) (prefix : string).
Abbreviation ok := (good (allowed prefix)).
Definition tried (g : string) (t : nlog) : Prop := ∃ x, Ev (NUnpause g) x ∈ t.

(** Nothing was paused or resumed yet. *)
Definition asking (P : nlog → Prop) (t : nlog) : Prop := ok t ∧ paused_in t = [] ∧ resumed_in t = [] ∧ P t.
Definition is_query (c : ncall) : Prop := match c with NForcePause _ | NUnpause _ => False | _ => True end.
Lemma asking_snoc P t c x : asking P t → is_query c → P (t ++ [Ev c x]) → asking P (t ++ [Ev c x]).
Proof.
  intros (Hg & Hp & Hr & _) Hq HP. split_and!; [apply good_snoc; [done|by destruct c]|rewrite paused_app, Hp|rewrite resumed_app, Hr|done]; by destruct c.
Qed.

Lemma wp_query {A} (P : nlog → Prop) n delay c (result : nans c → res goerr A) t (Q : nlog → option (res goerr A) → Prop) :
  is_query c → (∀ t t', P t → P (t ++ t')) → asking P t →
  (∀ t x a, asking P t → result x = Ok a → Q (t ++ [Ev c x]) (Some (Ok a))) →
  (∀ t e, asking P t → Q t (Some (Err e))) → (∀ t, asking P t → Q t None) →
  wp ok (retry connection_error n delay c result) t Q.
Proof.
  intros Hc Hmono Ht Hok Herr Hnone. apply (wp_retry _ ok (asking P)); try done.
  - by intros ? [? _].
  - intros t0 x a H0 Hx. split; [|by apply Hok]. apply (asking_snoc P); [done|done|]. apply Hmono, H0.
  - intros t0 x e H0 _. apply asking_snoc; [done|done|]. apply Hmono, H0.
  - intros t0 d w H0. apply asking_snoc; [done|done|]. apply Hmono, H0.
  - intros t0 x e H0 _. by apply Herr.
Qed.

Lemma wp_waiting_pages registered n offset result t :
  asking (λ t, collected t registered prefix result) t →
  wp ok (waiting_pages attempts connection_error n offset (append_owned is_waiting registered prefix) result) t
    (λ t' r, ok t' ∧ paused_in t' = [] ∧ resumed_in t' = [] ∧ (∃ s, t' = t ++ s) ∧ ∀ l, r = Some (Ok l) → collected t' registered prefix l).
Proof.
  revert offset result t. induction n as [|n IH]; intros offset result t Ht; [cbn; destruct Ht as (? & ? & ? & ?); split_and!; [done..|exists []; by rewrite app_nil_r|done]|].
  cbn [waiting_pages]. apply wp_bind.
  apply (wp_query (λ t', (∃ s, t' = t ++ s) ∧ collected t' registered prefix result)); [done| | | | |].
  - intros t1 t2 [(s & ->) Hc]. split; [exists (s ++ t2); by rewrite app_assoc|by apply collected_app].
  - destruct Ht as (? & ? & ? & ?). split_and!; [done..|exists []; by rewrite app_nil_r|done].
  - intros t1 x batch H1 Hx. cbn in Hx. subst x.
    assert (H2 : asking (λ t', (∃ s, t' = t ++ s) ∧ collected t' registered prefix (append_owned is_waiting registered prefix result batch)) (t1 ++ [Ev (NTellWaiting offset aria2TellWaitingBatchSize) (Ok batch)])).
    { destruct H1 as (? & ? & ? & (s & ->) & Hc). split_and!.
      - by apply good_snoc.
      - by rewrite paused_app, H0.
      - by rewrite resumed_app, H1.
      - eexists. by rewrite <- app_assoc.
      - apply append_owned_ok; [by apply collected_app|]. intros task Hin Hw. right. exists offset, batch. set_solver. }
    destruct H2 as (? & ? & ? & (s & Hs) & ?). cbv iota. destruct (_ <? _)%nat.
    + cbn. split_and!; [done..|by exists s|]. by intros l [= <-].
    + eapply wp_post; [|apply IH; by split_and!]. intros t' r (? & ? & ? & (s' & ->) & ?). split_and!; try done. exists (s ++ s'). by rewrite Hs, app_assoc.
  - intros t1 e (? & ? & ? & ? & ?). by split_and!.
  - intros t1 (? & ? & ? & ? & ?). by split_and!.
Qed.

Lemma wp_list registered t :
  asking (λ t, registered_in t registered) t →
  wp ok (listTDLAria2ReconnectTasks attempts pages connection_error registered prefix) t
    (λ t' r, ok t' ∧ paused_in t' = [] ∧ resumed_in t' = [] ∧ registered_in t' registered ∧ ∀ l, r = Some (Ok l) → collected t' registered prefix l).
Proof.
  intros Ht. unfold listTDLAria2ReconnectTasks. apply wp_bind. apply (wp_query (λ t', registered_in t' registered)); [done| |done|..].
  - intros t1 t2 H. unfold registered_in in *. set_solver.
  - intros t1 x l (H1 & H2 & H3 & H4) Hx. cbn in Hx. subst x. set (t2 := t1 ++ _).
    assert (Hr : registered_in t2 registered) by (unfold registered_in, t2 in *; set_solver).
    assert (Ha : asking (λ t, collected t registered prefix (append_owned is_active registered prefix [] l)) t2).
    { split_and!; [by apply good_snoc|unfold t2; by rewrite paused_app, H2|unfold t2; by rewrite resumed_app, H3|].
      apply append_owned_ok; [split; [constructor|set_solver]|]. intros task Hin Hk. left. exists l. unfold t2. set_solver. }
    cbv iota. eapply wp_post; [|by apply wp_waiting_pages]. intros t' r (? & ? & ? & (s & ->) & ?). split_and!; try done. unfold registered_in in *. set_solver.
  - intros t1 e (? & ? & ? & ?). by split_and!.
  - intros t1 (? & ? & ? & ?). by split_and!.
Qed.

Lemma wp_pause_all interval stop gids paused t :
  ok t → paused_in t = paused → resumed_in t = [] → NoDup gids → (∀ g, g ∈ gids → g ≠ "" ∧ reported prefix t g ∧ g ∉ paused) → NoDup paused → Forall (λ g, g ≠ "") paused →
  wp ok (pause_all attempts connection_error interval stop gids paused) t
    (λ t' r, ok t' ∧ resumed_in t' = [] ∧ ∀ p e, r = Some (p, e) → p = paused_in t' ∧ NoDup p ∧ Forall (λ g, g ≠ "") p).
Proof.
  revert paused t. induction gids as [|g gids IH]; intros paused t Hg Hp Hr Hnd Hall Hnp Hne.
  - cbn. split_and!; [done..|]. by intros p e [= <- <-].
  - apply NoDup_cons in Hnd as [Hgn Hnd]. destruct (Hall g ltac:(left)) as (Hg0 & Hrep & Hfresh). cbn [pause_all]. apply wp_bind.
    set (J := λ t', ok t' ∧ paused_in t' = paused ∧ resumed_in t' = [] ∧ ∃ s, t' = t ++ s).
    assert (HJ : ∀ t' r, J t' → ok (t' ++ [r]) → paused_ev r = None → resumed_ev r = None → J (t' ++ [r])).
    { intros t' r (? & H2 & H3 & s & ->) ? Hpr Hrr. split_and!; [done|rewrite paused_app, H2; cbn; by rewrite Hpr, app_nil_r|rewrite resumed_app, H3; cbn; by rewrite Hrr|].
      exists (s ++ [r]). by rewrite app_assoc. }
    assert (Hok1 : ∀ t' x, J t' → ok (t' ++ [Ev (NForcePause g) x])).
    { intros t' x (? & H2 & H3 & s & ->). apply good_snoc; [done|]. cbn. split_and!; [done|by apply reported_app|done|by rewrite H2]. }
    assert (Hrest : ∀ t', J t' → ∀ h, h ∈ gids → h ≠ "" ∧ reported prefix t' h ∧ h ∉ paused).
    { intros t' (_ & _ & _ & s & ->) h Hh. destruct (Hall h ltac:(by right)) as (? & ? & ?). split_and!; [done|by apply reported_app|done]. }
    apply (wp_retry _ ok J).
    + split_and!; [done..|]. exists []. by rewrite app_nil_r.
    + by intros t' [? _].
    + intros t' x [] H' Hx. cbn in x, Hx. destruct x; [done|]. split; [by apply Hok1|]. pose proof H' as (H1 & H2 & H3 & s & Hs). apply IH; [by apply Hok1|by rewrite paused_app, H2|by rewrite resumed_app, H3|done| | |].
      * intros h Hh. destruct (Hrest t' H' h Hh) as (? & ? & ?). split_and!; [done|by apply reported_app|]. intros [?| ->%list_elem_of_singleton]%elem_of_app; done.
      * apply NoDup_app. split_and!; [done| |apply NoDup_singleton]. by intros h ? ->%list_elem_of_singleton.
      * apply Forall_app. split; [done|by constructor].
    + intros t' x e H' Hx. cbn in x, Hx. destruct x; [|done]. apply HJ; [done|by apply Hok1|done|done].
    + intros t' d w H'. apply HJ; [done|apply good_snoc; [apply H'|done]|done|done].
    + intros t' x e H' _. cbv iota. pose proof H' as (H1 & H2 & H3 & s & Hs). destruct (stop e).
      * cbn. split_and!; [done..|]. intros p e' [= <- <-]. by split_and!.
      * apply IH; try done. by apply Hrest.
    + intros t' (H1 & H2 & H3 & _). cbn. by split_and!.
Qed.

Lemma wp_unpause_all gids n t :
  ok t → NoDup gids → (∀ g, g ∈ gids → g ∈ paused_in t ∧ g ∉ resumed_in t) →
  wp ok (unpause_all attempts connection_error gids n) t
    (λ t' r, ok t' ∧ paused_in t' = paused_in t ∧ (∃ s, t' = t ++ s ∧ ∀ m e, r = Some (m, e) → m = (n + length (resumed_in s))%nat) ∧
      ∀ m, r = Some (m, None) → ∀ g, g ∈ gids → tried g t').
Proof.
  revert n t. induction gids as [|g gids IH]; intros n t Hg Hnd Hall.
  - cbn. split_and!; [done..| |set_solver]. exists []. split; [by rewrite app_nil_r|]. intros m e [= <- _]. cbn. lia.
  - apply NoDup_cons in Hnd as [Hgn Hnd]. destruct (Hall g ltac:(left)) as (Hp & Hr). cbn [unpause_all]. apply wp_bind.
    set (J := λ t', ok t' ∧ paused_in t' = paused_in t ∧ ∃ s, t' = t ++ s ∧ resumed_in s = []).
    assert (HJ : ∀ t' r, J t' → ok (t' ++ [r]) → paused_ev r = None → resumed_ev r = None → J (t' ++ [r])).
    { intros t' r (? & H2 & s & -> & Hs) ? Hpr Hrr. split_and!; [done|rewrite paused_app, H2; cbn; by rewrite Hpr, app_nil_r|].
      exists (s ++ [r]). rewrite app_assoc, resumed_app, Hs. split; [done|]. cbn. by rewrite Hrr. }
    assert (Hok1 : ∀ t' x, J t' → ok (t' ++ [Ev (NUnpause g) x])).
    { intros t' x (? & H2 & s & -> & Hs). apply good_snoc; [done|]. cbn. rewrite H2, resumed_app, Hs, app_nil_r. done. }
    unfold retryAria2Connection, RetryConnectionWithInterval. apply (wp_retry _ ok J).
    + split_and!; [done..|]. exists []. by rewrite app_nil_r.
    + by intros t' [? _].
    + intros t' x [] H' Hx. cbn in x, Hx. destruct x; [done|]. split; [by apply Hok1|]. destruct H' as (H1 & H2 & s & -> & Hs).
      eapply wp_post; [|apply IH; [apply Hok1; split_and!; eauto|done|]].
      * intros t'' r (? & Hpp & (s' & -> & Hm) & Ht). split_and!; [done|rewrite Hpp, paused_app, H2; cbn; by rewrite app_nil_r| |].
        { exists (s ++ [Ev (NUnpause g) None] ++ s'). split; [by rewrite <- !app_assoc|]. intros m e ->. rewrite (Hm m e eq_refl), !resumed_app, !length_app, Hs. cbn. lia. }
        intros m Hm' h [->|Hh]%elem_of_cons; [|by apply (Ht m)]. exists None. set_solver.
      * intros h Hh. destruct (Hall h ltac:(by right)). rewrite paused_app, H2, !resumed_app, Hs. split; [set_solver|]. cbn. intros Hin. rewrite app_nil_r in Hin.
        apply elem_of_app in Hin as [?| ->%list_elem_of_singleton]; done.
    + intros t' x e H' Hx. cbn in x, Hx. destruct x; [|done]. apply HJ; [done|by apply Hok1|done|done].
    + intros t' d w H'. apply HJ; [done|apply good_snoc; [apply H'|done]|done|done].
    + intros t' x e H' Hin. cbv iota. destruct H' as (H1 & H2 & s & -> & Hs). destruct (errors_Is e Canceled).
      * cbn. split_and!; [done|done| |by intros m ?]. exists s. split; [done|]. intros m e' [= <- _]. rewrite Hs. cbn. lia.
      * eapply wp_post; [|apply IH; [done|done|]].
        { intros t'' r (? & Hpp & (s' & -> & Hm) & Ht). split_and!; [done|by rewrite Hpp| |].
          - exists (s ++ s'). split; [by rewrite <- app_assoc|]. intros m e' ->. rewrite (Hm m e' eq_refl), resumed_app, Hs. done.
          - intros m Hm' h [->|Hh]%elem_of_cons; [|by apply (Ht m)]. exists x. set_solver. }
        intros h Hh. destruct (Hall h ltac:(by right)). rewrite H2, resumed_app, Hs, app_nil_r. done.
    + intros t' (H1 & H2 & s & -> & Hs). cbn. split_and!; [done|done| |done]. by exists s.
Qed.
End runs.

(** ** The fuel

    A run that is cut short has met more failed connections than attempts, or
    as many full pages as pages. *)
Section fuel.
Context (attempts pages : nat) (connection_error : goerr → bool).

Definition retried (e : goerr) : bool := negb (errors_Is e Canceled) && IsConnectionError connection_error e.
Definition failed_ev (ev : event ncall nans) : bool :=
  match ev with
  | Ev c x => match c as c return nans c → bool with
              | NTellActive | NTellWaiting _ _ => λ r, match r with Err e => retried e | Ok _ => false end
              | NForcePause _ | NUnpause _ => λ r, match r with Some e => retried e | None => false end
              | _ => λ _, false
              end x
  end.
Definition full_ev (ev : event ncall nans) : bool :=
  match ev with
  | Ev c x => match c as c return nans c → bool with
              | NTellWaiting _ _ => λ r, match r with Ok batch => (aria2TellWaitingBatchSize <=? length batch)%nat | Err _ => false end
              | _ => λ _, false
              end x
  end.
Definition failures (t : nlog) : nat := length (List.filter failed_ev t).
Definition fulls (t : nlog) : nat := length (List.filter full_ev t).
Definition ran_out (t : nlog) : Prop := (attempts < failures t ∨ pages <= fulls t)%nat.
Lemma failures_app t s : failures (t ++ s) = (failures t + failures s)%nat.
Proof. unfold failures. by rewrite List.filter_app, length_app. Qed.
Lemma fulls_app t s : fulls (t ++ s) = (fulls t + fulls s)%nat.
Proof. unfold fulls. by rewrite List.filter_app, length_app. Qed.
Abbreviation any := (λ _ : nlog, True).

Lemma retry_ends {A} n delay c (result : nans c → res goerr A) t :
  (∀ x e, result x = Err e → retried e = true → failed_ev (Ev c x) = true) →
  wp any (retry connection_error n delay c result) t (λ t' r, ∃ s, t' = t ++ s ∧ (r = None → n < failures s)%nat ∧
    ∀ a, r = Some (Ok a) → ∃ s' x, s = s' ++ [Ev c x] ∧ result x = Ok a).
Proof.
  intros Hf. revert delay t. induction n as [|n IH]; intros delay t x; (split; [done|]); cbn; destruct (result x) as [a|e] eqn:Hx.
  - exists [Ev c x]. split_and!; [done..|]. intros a' [= <-]. by exists [], x.
  - destruct (_ || _) eqn:Hr; cbn; [by exists [Ev c x]|]. exists [Ev c x]. split_and!; [done| |done]. intros _. unfold failures. cbn [List.filter].
    rewrite (Hf x e Hx) by (unfold retried; by destruct (errors_Is e Canceled), (IsConnectionError connection_error e)). cbn. lia.
  - exists [Ev c x]. split_and!; [done..|]. intros a' [= <-]. by exists [], x.
  - destruct (_ || _) eqn:Hr; cbn; [by exists [Ev c x]|]. intros w. split; [done|]. destruct w as [e'|]; cbn; [exists [Ev c x; Ev (Wait delay) (Some e')]; by rewrite <- app_assoc|].
    eapply wp_post; [|apply IH]. intros t' r (s & -> & Hn & Ha). exists ([Ev c x; Ev (Wait delay) None] ++ s). split_and!.
    + by rewrite <- !app_assoc.
    + intros H. specialize (Hn H). rewrite failures_app. unfold failures at 1. cbn [List.filter].
      rewrite (Hf x e Hx) by (unfold retried; by destruct (errors_Is e Canceled), (IsConnectionError connection_error e)). cbn. lia.
    + intros a H. destruct (Ha a H) as (s' & y & -> & ?). exists ([Ev c x; Ev (Wait delay) None] ++ s'), y. by rewrite <- app_assoc.
Qed.

(** Reasoning on with whatever was logged. *)
Lemma retry_then {A B} delay c (result : nans c → res goerr A) (k : option (res goerr A) → npgm (option B)) t :
  (∀ x e, result x = Err e → retried e = true → failed_ev (Ev c x) = true) →
  k None = Ret None → (∀ t' r, wp any (k (Some r)) t' (λ t'' b, b = None → ran_out t'')) →
  wp any (retry connection_error attempts delay c result ≫= k) t (λ t'' b, b = None → ran_out t'').
Proof.
  intros Hf Hn Hk. apply wp_bind. eapply wp_post; [|by apply retry_ends]. intros t' [r|] (s & -> & Hs & _); [apply Hk|].
  rewrite Hn. cbn. intros _. left. rewrite failures_app. specialize (Hs eq_refl). lia.
Qed.
Lemma pause_all_ends interval stop gids paused t :
  wp any (pause_all attempts connection_error interval stop gids paused) t (λ t' r, r = None → ran_out t').
Proof.
  revert paused t. induction gids as [|g gids IH]; intros paused t; [done|]. cbn [pause_all]. apply retry_then; [by intros [e'|] e [= ->]|done|].
  intros t' [[]|e]; [apply IH|]. destruct (stop e); [done|apply IH].
Qed.
Lemma unpause_all_ends gids n t : wp any (unpause_all attempts connection_error gids n) t (λ t' r, r = None → ran_out t').
Proof.
  revert n t. induction gids as [|g gids IH]; intros n t; [done|]. cbn [unpause_all]. apply retry_then; [by intros [e'|] e [= ->]|done|].
  intros t' [[]|e]; [apply IH|]. destruct (errors_Is e Canceled); [done|apply IH].
Qed.

Lemma waiting_pages_ends n offset collect result t :
  (pages <= n + fulls t)%nat →
  wp any (waiting_pages attempts connection_error n offset collect result) t (λ t' r, r = None → ran_out t').
Proof.
  revert offset result t. induction n as [|n IH]; intros offset result t Hp; [cbn; intros _; right; lia|]. cbn [waiting_pages].
  apply wp_bind. eapply wp_post; [|apply retry_ends; by intros [?|?] ? [= ->] ?]. intros t' r (s & -> & Hn & Ha). destruct r as [[batch|e]|].
  - cbv iota. destruct (length batch <? aria2TellWaitingBatchSize)%nat eqn:Hl; [done|]. apply IH.
    destruct (Ha batch eq_refl) as (s' & x & -> & Hx). cbn in Hx. subst x. rewrite !fulls_app. unfold fulls at 3. cbn [List.filter full_ev].
    apply Nat.ltb_ge, Nat.leb_le in Hl. rewrite Hl. cbn [length]. lia.
  - done.
  - cbn. intros _. left. rewrite failures_app. specialize (Hn eq_refl). lia.
Qed.

Lemma pause_tasks_ends interval stop prefix t :
  wp any (pause_tasks attempts pages connection_error interval stop prefix) t (λ t' r, r = None → ran_out t').
Proof.
  unfold pause_tasks. intros gids. split; [done|]. cbn. destruct gids as [registered|]; [|done]. destruct prefix as [prefix|]; [|done].
  unfold listTDLAria2ReconnectTasks. apply wp_bind. set (t1 := t ++ _). apply wp_bind. eapply wp_post; [|apply retry_ends; by intros [?|?] ? [= ->] ?].
  intros t' r (s & -> & Hn & _). destruct r as [[active|e]|]; [|done|cbn; intros _; left; rewrite failures_app; specialize (Hn eq_refl); lia].
  eapply wp_post; [|apply waiting_pages_ends; lia]. intros t'' [[l|e]|] Ho; cbn; [apply pause_all_ends|done|auto].
Qed.
End fuel.

Lemma merge_unique_spec seen l :
  NoDup (merge_unique seen l) ∧ ∀ g, g ∈ merge_unique seen l ↔ g ∈ l ∧ g ≠ "" ∧ g ∉ seen.
Proof.
  revert seen. induction l as [|h l IH]; intros seen; cbn; [split; [constructor|set_solver]|].
  destruct (String.eqb_spec h "") as [->|Hne]; cbn.
  - destruct (IH seen) as [Hn Hg]. split; [done|]. intros g. rewrite Hg. set_solver.
  - destruct (bool_decide (h ∈ seen)) eqn:Hb.
    + apply bool_decide_eq_true in Hb. destruct (IH seen) as [Hn Hg]. split; [done|]. intros g. rewrite Hg. set_solver.
    + apply bool_decide_eq_false in Hb. destruct (IH ({[h]} ∪ seen)) as [Hn Hg]. split.
      * apply NoDup_cons. split; [|done]. rewrite Hg. set_solver.
      * intros g. rewrite elem_of_cons, Hg. destruct (decide (g = h)) as [->|]; set_solver.
Qed.

(** ** A reconnect, a shutdown, a start *)

Section theorem.
Context (attempts pages : nat) (connection_error : goerr → bool).

(** Pausing before Telegram goes away, and resuming what was paused. *)
Definition reconnect (interval : Z) (stop : goerr → bool) (prefix : res goerr string) : npgm (option (list string * option goerr * option goerr)) :=
  r ← pause_tasks attempts pages connection_error interval stop prefix;
  match r with
  | None => Ret None
  | Some (paused, e) =>
      x ← ResumeTDLTasks attempts connection_error paused;
      Ret (match x with None => None | Some e' => Some (paused, e, e') end)
  end.

Lemma wp_pause_tasks interval stop prefix :
  wp (good (allowed prefix)) (pause_tasks attempts pages connection_error interval stop (Ok prefix)) []
    (λ t r, good (allowed prefix) t ∧ resumed_in t = [] ∧ ∀ p e, r = Some (p, e) → p = paused_in t ∧ NoDup p ∧ Forall (λ g, g ≠ "") p).
Proof.
  unfold pause_tasks. intros gids. assert (Hg : good (allowed prefix) [Ev (ans:=nans) GIDs gids]).
  { apply (good_snoc _ []); [|done]. by intros [] ?? ?. }
  split; [done|]. cbn. destruct gids as [registered|]; [|cbn; split_and!; [done..|]; intros p e' [= <- <-]; split_and!; [done|constructor..]].
  apply wp_bind. eapply wp_post; [|apply (wp_list attempts pages connection_error prefix registered)].
  - intros t r (H1 & H2 & H3 & H4 & H5). destruct r as [[l|e]|].
    + destruct (H5 l eq_refl) as [Hn Hl]. apply wp_pause_all; [done..| | |constructor].
      * intros g (task & -> & Ht)%list_elem_of_fmap. destruct (Hl task Ht) as (? & ? & ?). split_and!; [done| |set_solver]. by exists registered, task.
      * constructor.
    + cbn. split_and!; [done..|]. rewrite H2. intros p e' [= <- <-]. split_and!; [done|constructor..].
    + cbn. by split_and!.
  - split_and!; [done..|]. unfold registered_in. set_solver.
Qed.

Lemma wp_reconnect interval stop prefix :
  wp (good (allowed prefix)) (reconnect interval stop (Ok prefix)) []
    (λ t r, ∀ p e e', r = Some (p, e, e') → p = paused_in t ∧ NoDup p ∧ (e' = None → ∀ g, g ∈ p → tried g t)).
Proof.
  unfold reconnect. apply wp_bind. eapply wp_post; [|apply wp_pause_tasks]. intros t [[paused e]|] (Hg & Hr & Hp); [|done].
  destruct (Hp paused e eq_refl) as (-> & Hn & Hne). unfold ResumeTDLTasks, MergeUniqueGIDs. cbn [app].
  destruct (merge_unique_spec ∅ (paused_in t)) as [Hmn Hm]. apply wp_bind, wp_bind. eapply wp_post; [|apply (wp_unpause_all _ _ prefix _ 0 t); [done..|]].
  - intros t' [[m e']|] (_ & Hpp & _ & Htr); cbn; [|done]. intros p e1 e2 [= <- <- <-]. split_and!; [done..|]. intros -> g Hin. apply (Htr m eq_refl).
    apply Hm. split_and!; [done| |set_solver]. rewrite Forall_forall in Hne. by apply Hne.
  - intros g [Hin _]%Hm. rewrite Hr. split; [done|set_solver].
Qed.

(** At a start only unpausing is allowed, of tasks that the daemon reported as
    paused and that are ours. *)
Definition allowed_start (prefix : string) (t : nlog) (c : ncall) : Prop :=
  match c with
  | NForcePause _ => False
  | NUnpause g => ∃ registered task o l, registered_in t registered ∧ ds_GID task = g ∧ IsTDLTask task registered prefix = true ∧
      Ev (ans:=nans) (NTellWaiting o aria2TellWaitingBatchSize) (Ok l) ∈ t ∧ task ∈ l ∧ normalizedAria2Status (ds_Status task) = StatusPaused
  | _ => True
  end.
Lemma allowed_start_app prefix t t' g : allowed_start prefix t (NUnpause g) → allowed_start prefix (t ++ t') (NUnpause g).
Proof. intros (r & task & o & l & H & ? & ? & Hin & ? & ?). exists r, task, o, l. unfold registered_in in *. split_and!; set_solver. Qed.

Lemma wp_start_unpause prefix gids n t :
  good (allowed_start prefix) t → (∀ g, g ∈ gids → allowed_start prefix t (NUnpause g)) →
  wp (good (allowed_start prefix)) (unpause_all attempts connection_error gids n) t
    (λ t' r, ∃ s, t' = t ++ s ∧ ∀ m e, r = Some (m, e) → m = (n + length (resumed_in s))%nat).
Proof.
  revert n t. induction gids as [|g gids IH]; intros n t Hg Hall; [cbn; exists []; split; [by rewrite app_nil_r|]; intros m e [= <- _]; cbn; lia|].
  cbn [unpause_all]. apply wp_bind. apply (wp_retry _ _ (λ t', good (allowed_start prefix) t' ∧ ∃ s, t' = t ++ s ∧ resumed_in s = [])).
  - split; [done|]. exists []. by rewrite app_nil_r.
  - by intros t' [? _].
  - intros t' x [] [H' (s & -> & Hs)] Hx. cbn in x, Hx. destruct x; [done|].
    assert (Hok : good (allowed_start prefix) ((t ++ s) ++ [Ev (NUnpause g) None])) by (apply good_snoc; [done|apply allowed_start_app, Hall; left]).
    split; [done|]. eapply wp_post; [|apply IH; [done|]].
    + intros t'' r (s' & -> & Hm). exists (s ++ [Ev (NUnpause g) None] ++ s'). split; [by rewrite <- !app_assoc|]. intros m e ->.
      rewrite (Hm m e eq_refl), !resumed_app, !length_app, Hs. cbn. lia.
    + intros h Hh. rewrite <- app_assoc. apply allowed_start_app, Hall. by right.
  - intros t' x e [H' (s & -> & Hs)] Hx. cbn in x, Hx. destruct x as [e'|]; [|done]. split; [apply good_snoc; [done|apply allowed_start_app, Hall; left]|].
    exists (s ++ [Ev (NUnpause g) (Some e')]). rewrite app_assoc, resumed_app, Hs. done.
  - intros t' d w [H' (s & -> & Hs)]. split; [by apply good_snoc|]. exists (s ++ [Ev (Wait d) w]). rewrite app_assoc, resumed_app, Hs. done.
  - intros t' x e [H' (s & -> & Hs)] _. cbv iota. destruct (errors_Is e Canceled).
    + cbn. exists s. split; [done|]. intros m e' [= <- _]. rewrite Hs. cbn. lia.
    + eapply wp_post; [|apply IH; [done|]].
      * intros t'' r (s' & -> & Hm). exists (s ++ s'). split; [by rewrite <- app_assoc|]. intros m e' ->. rewrite (Hm m e' eq_refl), resumed_app, Hs. done.
      * intros h Hh. apply allowed_start_app, Hall. by right.
  - intros t' [H' (s & -> & Hs)]. cbn. by exists s.
Qed.

Lemma wp_start_pages prefix registered n offset result t :
  good (allowed_start prefix) t → registered_in t registered → resumed_in t = [] → (∀ task, task ∈ result → allowed_start prefix t (NUnpause (ds_GID task))) →
  wp (good (allowed_start prefix)) (waiting_pages attempts connection_error n offset (paused_owned registered prefix) result) t
    (λ t' r, good (allowed_start prefix) t' ∧ resumed_in t' = [] ∧ ∀ l, r = Some (Ok l) → ∀ task, task ∈ l → allowed_start prefix t' (NUnpause (ds_GID task))).
Proof.
  revert offset result t. induction n as [|n IH]; intros offset result t Hg Hr Hno Hres; [by split_and!|]. cbn [waiting_pages]. apply wp_bind.
  apply (wp_retry _ _ (λ t', good (allowed_start prefix) t' ∧ resumed_in t' = [] ∧ ∃ s, t' = t ++ s)).
  - split_and!; [done..|]. exists []. by rewrite app_nil_r.
  - by intros t' [? _].
  - intros t' x batch (H' & Hn & s & ->) Hx. cbn in Hx. subst x. set (t2 := (t ++ s) ++ _).
    assert (H2 : good (allowed_start prefix) t2) by (by apply good_snoc).
    assert (Hr2 : registered_in t2 registered) by (unfold registered_in, t2 in *; set_solver).
    assert (Hn2 : resumed_in t2 = []) by (unfold t2; by rewrite resumed_app, Hn).
    assert (Hres2 : ∀ task, task ∈ paused_owned registered prefix result batch → allowed_start prefix t2 (NUnpause (ds_GID task))).
    { intros task [Hin|Hin]%elem_of_app; [unfold t2; rewrite <- app_assoc; by apply allowed_start_app, Hres|].
      apply list_elem_of_In, filter_In in Hin as [Hin Hb]. apply andb_prop in Hb as [Hb Ho]. apply String.eqb_eq in Hb.
      exists registered, task, offset, batch. split_and!; [done..|unfold t2; set_solver|by apply list_elem_of_In|done]. }
    split; [done|]. cbv iota. destruct (_ <? _)%nat; [|by apply IH]. cbn. split_and!; [done..|]. by intros l [= <-].
  - intros t' x e (H' & Hn & s & ->) Hx. split_and!; [by apply good_snoc|by rewrite resumed_app, Hn|]. eexists. by rewrite <- app_assoc.
  - intros t' d w (H' & Hn & s & ->). split_and!; [by apply good_snoc|by rewrite resumed_app, Hn|]. eexists. by rewrite <- app_assoc.
  - intros t' x e (H' & Hn & _) _. by split_and!.
  - intros t' (H' & Hn & _). by split_and!.
Qed.

Lemma wp_start prefix :
  wp (good (allowed_start prefix)) (ResumeStartupPausedTasks attempts pages connection_error (Ok prefix)) []
    (λ t r, ∀ m e, r = Some (m, e) → m = length (resumed_in t)).
Proof.
  unfold ResumeStartupPausedTasks. intros gids. assert (Hg : good (allowed_start prefix) [Ev (ans:=nans) GIDs gids]).
  { apply (good_snoc _ []); [|done]. by intros [] ?? ?. }
  split; [done|]. cbn. destruct gids as [registered|]; [|by intros m e' [= <- _]]. apply wp_bind.
  eapply wp_post; [|apply (wp_start_pages prefix registered); [done| |done|set_solver]].
  - intros t [[l|e]|] (H1 & H2 & H3); cbn.
    + eapply wp_post; [|apply (wp_start_unpause prefix); [done|]].
      * intros t' r (s & -> & Hm) m e ->. rewrite (Hm m e eq_refl), resumed_app, H2. done.
      * intros g (task & -> & Ht)%list_elem_of_fmap. by apply (H3 l).
    + intros m e' [= <- _]. by rewrite H2.
    + done.
  - unfold registered_in. set_solver.
Qed.

(** C25: Whatever the repository, the daemon and the timers answer. Around a
    reconnect, or a shutdown and its undoing, at every point: a task is
    force-paused only when this run saw the daemon report it as active or
    waiting and it is registered or downloads one of our links, never again
    once it is paused, and not after resuming has begun; a task is unpaused
    only if this run paused it, and once; what is returned as paused is
    exactly what the daemon paused, each task once, and when resuming
    returns no error each of them was tried. At a start only tasks of ours
    that were reported as paused are unpaused, nothing is paused, and the
    count is that of the tasks resumed. And the loops are cut short only by
    more failed connections than attempts, or as many full pages as pages. *)
Theorem reconnect_balance interval stop prefix t :
  (∀ q, reaches (reconnect interval stop (Ok prefix)) t q →
    (∀ t1 ev t2, t = t1 ++ ev :: t2 → allowed prefix t1 (ev_call ev)) ∧
    (∀ p e e', q = Ret (Some (p, e, e')) → p = paused_in t ∧ NoDup p ∧ (e' = None → ∀ g, g ∈ p → tried g t)) ∧
    (q = Ret None → ran_out attempts pages connection_error t)) ∧
  (∀ q, reaches (ResumeStartupPausedTasks attempts pages connection_error (Ok prefix)) t q →
    (∀ t1 ev t2, t = t1 ++ ev :: t2 → allowed_start prefix t1 (ev_call ev)) ∧
    (∀ m e, q = Ret (Some (m, e)) → m = length (resumed_in t)) ∧
    (q = Ret None → ran_out attempts pages connection_error t)).
Proof.
  split; intros q Hq.
  - assert (H0 : good (allowed prefix) []) by (by intros [] ?? ?).
    destruct (wp_run_reaches _ _ _ _ _ H0 (wp_reconnect interval stop prefix) Hq) as [Hg Hr]. split_and!; [exact Hg|intros p e e' ->; exact (Hr _ eq_refl p e e' eq_refl)|].
    intros ->. assert (He : wp (λ _, True) (reconnect interval stop (Ok prefix)) [] (λ t r, r = None → ran_out attempts pages connection_error t)).
    { unfold reconnect. apply wp_bind. eapply wp_post; [|apply pause_tasks_ends]. intros t1 [[paused e]|] H1; [|cbn; intros _; by apply H1].
      unfold ResumeTDLTasks. apply wp_bind, wp_bind. eapply wp_post; [|apply (unpause_all_ends attempts pages)]. intros t2 [[m e']|] H2; [done|cbn; intros _; by apply H2]. }
    destruct (wp_run_reaches _ _ _ _ _ I He Hq) as [_ Ho]. by apply (Ho None).
  - assert (H0 : good (allowed_start prefix) []) by (by intros [] ?? ?).
    destruct (wp_run_reaches _ _ _ _ _ H0 (wp_start prefix) Hq) as [Hg Hr]. split_and!; [exact Hg|intros m e ->; by apply (Hr _ eq_refl m e)|].
    intros ->. assert (He : wp (λ _, True) (ResumeStartupPausedTasks attempts pages connection_error (Ok prefix)) [] (λ t r, r = None → ran_out attempts pages connection_error t)).
    { intros gids. split; [done|]. cbn. destruct gids; [|done]. apply wp_bind. eapply wp_post; [|apply (waiting_pages_ends attempts pages); lia].
      intros t1 [[l|e]|] H1; cbn; [apply unpause_all_ends|done|auto]. }
    destruct (wp_run_reaches _ _ _ _ _ I He Hq) as [_ Ho]. by apply (Ho None).
Qed.
End theorem.

(** A daemon that cannot be reached at first, one task of ours that is active,
    one that waits, one of somebody else and one that cannot be paused. *)
Definition demo_task (gid status : string) (uris : list string) : DownloadStatus := mkStatus gid status "" "" "" "" "" [mkFile "" "" "" uris].
Definition demo_connection (e : goerr) : bool := errors_Is e "connection refused".
Definition demo_handler (c : ncall) (n : nat) : nans c * nat :=
  (match c as c return nans c with
   | GIDs => Ok {["a"; "b"]}
   | NTellActive => if (n =? 1)%nat then Err (Sentinel "connection refused") else Ok [demo_task "a" "active" []; demo_task "c" "active" []]
   | NTellWaiting _ _ => Ok [demo_task "b" "waiting" []; demo_task "d" "waiting" ["http://me/download/1"]; demo_task "e" "paused" ["http://me/download/2"]]
   | NForcePause g => if String.eqb g "b" then Some (NewError "no such download") else None
   | _ => None
   end, S n).
Definition demo_reconnect := reconnect 3 3 demo_connection second (λ e, errors_Is e Canceled) (Ok "http://me/download/").
Definition demo_log : nlog := (run demo_handler demo_reconnect 0%nat []).2.

Lemma reconnect_demo_result : (run demo_handler demo_reconnect 0%nat []).1.1 = Some (["a"; "d"], None, None).
Proof. vm_compute. reflexivity. Qed.
Lemma demo_split : demo_log = take 5 demo_log ++ Ev (ans:=nans) (NForcePause "a") None :: drop 6 demo_log.
Proof. vm_compute. reflexivity. Qed.
#[local] Opaque demo_reconnect demo_log.
Lemma reconnect_demo_reaches : reaches demo_reconnect (run demo_handler demo_reconnect 0%nat []).2 (Ret (Some (["a"; "d"], None, None))).
Proof.
  pose proof (run_reaches demo_handler demo_reconnect 0%nat []) as H. rewrite <- reconnect_demo_result.
  destruct (run demo_handler demo_reconnect 0%nat []) as [[r n] l]. by destruct H as (l1 & -> & H).
Qed.
Lemma reconnect_balance_witness :
  paused_in demo_log = ["a"; "d"] ∧ tried "d" demo_log ∧ reported "http://me/download/" (take 5 demo_log) "a".
Proof.
  destruct (reconnect_balance 3 3 demo_connection second (λ e, errors_Is e Canceled) "http://me/download/" demo_log) as [H _].
  destruct (H _ reconnect_demo_reaches) as (Hg & Hr & _). destruct (Hr ["a"; "d"] None None eq_refl) as (Hp & _ & Ht). split_and!; [done|apply Ht; [done|set_solver]|].
  exact (proj1 (proj2 (Hg _ _ _ demo_split))).
Defined.

(** ** The zero-speed monitor

    A poll, as far as the map of stalls is concerned, is the time, the
    threshold and the active tasks that are ours. *)

Record sample := mkSample { z_now : Z; z_threshold : Z; z_active : gmap string DownloadStatus }.
Definition after_poll (stall : gmap string Z) (p : sample) : gmap string Z := poll_stall (z_threshold p) (z_now p) (z_active p) stall.
Definition stall_after (l : list sample) : gmap string Z := foldl after_poll ∅ l.
Definition cycled (l : list sample) (p : sample) : list string := stalled (z_threshold p) (z_now p) (z_active p) (stall_after l).
(** The task is active, and stands still. *)
Definition still (g : string) (p : sample) : bool := match z_active p !! g with Some task => zero_speed task | None => false end.

(** [o] is the poll since which [g] stands still without having been cycled. *)
Definition since (g : string) (l : list sample) (o : sample) : Prop :=
  ∃ l1 l2, l = l1 ++ o :: l2 ∧
    (l1 = [] ∨ (∃ l0 r, l1 = l0 ++ [r] ∧ still g r = false) ∨ g ∈ cycled l1 o) ∧
    still g o = true ∧ ∀ l2a r l2b, l2 = l2a ++ r :: l2b → still g r = true ∧ g ∉ cycled (l1 ++ o :: l2a) r.

Lemma stalled_spec g threshold now active stall :
  g ∈ stalled threshold now active stall ↔ ∃ task, active !! g = Some task ∧ stalls threshold now (stall !! g) task = true.
Proof.
  unfold stalled. rewrite list_elem_of_fmap. split.
  - intros ([h task] & -> & Hin). apply list_elem_of_In, filter_In in Hin as [Hin Hs]. apply list_elem_of_In, elem_of_map_to_list in Hin. by exists task.
  - intros (task & Ha & Hs). exists (g, task). split; [done|]. apply list_elem_of_In, filter_In. split; [|done]. by apply list_elem_of_In, elem_of_map_to_list.
Qed.
Lemma stall_snoc l p g : stall_after (l ++ [p]) !! g = stall_entry (z_threshold p) (z_now p) (stall_after l !! g) (z_active p !! g).
Proof. unfold stall_after. rewrite foldl_app. cbn. unfold after_poll at 1, poll_stall. rewrite lookup_merge. by destruct (_ !! g), (z_active p !! g). Qed.

(** The same poll goes on, or starts, or starts again. *)
Lemma since_snoc g l p o :
  since g (l ++ [p]) o ↔
  still g p = true ∧ ((g ∉ cycled l p ∧ since g l o) ∨ o = p ∧ (l = [] ∨ (∃ l0 r, l = l0 ++ [r] ∧ still g r = false) ∨ g ∈ cycled l p)).
Proof.
  split.
  - intros (l1 & l2 & E & Hs & Ho & H2). destruct l2 as [|r l2 _] using rev_ind.
    + apply app_inj_tail in E as [-> ->]. split; [done|]. by right.
    + rewrite app_comm_cons, app_assoc in E. apply app_inj_tail in E as [-> ->]. destruct (H2 l2 r [] eq_refl) as [Hr Hc]. split; [done|]. left. split; [done|].
      exists l1, l2. split_and!; [done..|]. intros l2a z l2b ->. apply (H2 l2a z (l2b ++ [r])). by rewrite <- app_assoc.
  - intros [Hp [[Hc (l1 & l2 & -> & Hs & Ho & H2)]|[-> Hs]]].
    + exists l1, (l2 ++ [p]). split_and!; [by rewrite <- app_assoc|done..|]. intros l2a r l2b E. destruct l2b as [|z l2b _] using rev_ind.
      * apply app_inj_tail in E as [<- <-]. done.
      * rewrite app_comm_cons, app_assoc in E. apply app_inj_tail in E as [-> _]. by apply (H2 l2a r l2b).
    + exists l, []. split_and!; [done..|]. by intros [] ???.
Qed.
Lemma since_still g l p o : since g (l ++ [p]) o → still g p = true.
Proof. by intros [? _]%since_snoc. Qed.

Lemma stall_since l g first : stall_after l !! g = Some first ↔ ∃ o, since g l o ∧ z_now o = first.
Proof.
  revert first. induction l as [|p l IH] using rev_ind; intros first.
  - change (stall_after []) with (∅ : gmap string Z). split; [by rewrite lookup_empty|]. intros (o & (l1 & l2 & H & _) & _). by destruct l1.
  - rewrite stall_snoc. unfold stall_entry. pose proof (stalled_spec g (z_threshold p) (z_now p) (z_active p) (stall_after l)) as Hc. fold (cycled l p) in Hc.
    unfold stalls in Hc. destruct (z_active p !! g) as [task|] eqn:Ha.
    2:{ split; [done|]. intros (o & H%since_still & _). unfold still in H. by rewrite Ha in H. }
    assert (Hst : still g p = zero_speed task) by (unfold still; by rewrite Ha).
    destruct (zero_speed task) eqn:Hz; cbn [negb].
    2:{ split; [done|]. intros (o & H%since_still & _). congruence. }
    assert (Hc' : g ∈ cycled l p ↔ ∃ f, stall_after l !! g = Some f ∧ (z_threshold p <=? time_sub (z_now p) f) = true).
    { rewrite Hc. split; [intros (? & [= <-] & H); rewrite Hz in H; destruct (stall_after l !! g) as [f|]; [by exists f|done]|]. intros (f & -> & H). exists task. by rewrite Hz. }
    destruct (stall_after l !! g) as [f|] eqn:Hf.
    + destruct (z_threshold p <=? time_sub (z_now p) f) eqn:Hle.
      * assert (Hin : g ∈ cycled l p) by (apply Hc'; by exists f). split.
        -- intros [= <-]. exists p. split; [|done]. apply since_snoc. split; [done|]. right. auto.
        -- intros (o & [_ [[Hn _]|[-> _]]]%since_snoc & <-); [done|done].
      * assert (Hin : g ∉ cycled l p) by (rewrite Hc'; intros (f' & [= <-] & ?); congruence). split.
        -- intros [= <-]. destruct (proj1 (IH f) eq_refl) as (o & Ho & <-). exists o. split; [|done]. apply since_snoc. auto.
        -- intros (o & [_ [[_ Ho]|[-> Ho]]]%since_snoc & <-); [by apply IH; exists o|].
           destruct (proj1 (IH f) eq_refl) as (o & Hsince & <-). destruct Ho as [->|[(l0 & r & -> & Hr)|?]]; [|apply since_still in Hsince; congruence|done].
           destruct Hsince as ([] & ? & ? & _); done.
    + assert (Hin : g ∉ cycled l p) by (rewrite Hc'; by intros (f' & ? & ?)). split.
      * intros [= <-]. exists p. split; [|done]. apply since_snoc. split; [done|]. right. split; [done|].
        destruct l as [|r l _] using rev_ind; [by left|]. right. left. exists l, r. split; [done|]. destruct (still g r) eqn:Hr; [|done].
        rewrite stall_snoc in Hf. unfold still in Hr. destruct (z_active r !! g) as [t|]; [|done]. cbn in Hf. rewrite Hr in Hf. cbn in Hf. by destruct (stall_after l !! g).
      * intros (o & [_ [[_ Ho]|[-> Ho]]]%since_snoc & <-); [|done]. assert (None = Some (z_now o)) as [=]. apply IH. by exists o.
Qed.

Section monitor.
Context (attempts : nat) (connection_error : goerr → bool) (cfg : zeroSpeedMonitorConfig) (prefix : string) (now : Z) (stall : gmap string Z).

(** What a poll acts on. *)
Definition poll_stalled (t : nlog) (gids : list string) (after : gmap string Z) : Prop :=
  ∃ registered active, registered_in t registered ∧ Ev (ans:=nans) NTellActive (Ok active) ∈ t ∧
    gids = stalled (StallThreshold cfg) now (activeOwned registered prefix active) stall ∧
    after = poll_stall (StallThreshold cfg) now (activeOwned registered prefix active) stall.
Definition allowed_poll (t : nlog) (c : ncall) : Prop :=
  match c with
  | NForcePause g => ∃ gids after, poll_stalled t gids after ∧ g ∈ gids
  | NUnpause g => g ∈ paused_in t
  | _ => True
  end.
Lemma poll_stalled_app t t' gids after : poll_stalled t gids after → poll_stalled (t ++ t') gids after.
Proof. intros (r & a & ? & ? & ? & ?). exists r, a. unfold registered_in in *. split_and!; [set_solver..|done|done]. Qed.
Abbreviation okp := (good allowed_poll).

(** One RPC that is allowed, with its retries. *)
Lemma wp_act {B} (c : ncall) (result : nans c → res goerr unit) delay (k : option (res goerr unit) → npgm B) t (Q : nlog → B → Prop) :
  okp t → (∀ s, allowed_poll (t ++ s) c) →
  (∀ s r, okp (t ++ s) → (∀ a, r = Some (Ok a) → ∃ x, Ev c x ∈ t ++ s ∧ result x = Ok a) → (r ≠ None → ∃ x, Ev c x ∈ t ++ s) → wp okp (k r) (t ++ s) Q) →
  wp okp (retry connection_error attempts delay c result ≫= k) t Q.
Proof.
  intros Ht Hc Hk. apply wp_bind. apply (wp_retry _ _ (λ t', okp t' ∧ ∃ s, t' = t ++ s)).
  - split; [done|]. exists []. by rewrite app_nil_r.
  - by intros t' [? _].
  - intros t' x a [Ho (s & ->)] Hx. assert (okp ((t ++ s) ++ [Ev c x])) by (apply good_snoc; [done|apply Hc]). split; [done|].
    rewrite <- app_assoc in *. apply Hk; [done| |intros _; exists x; set_solver]. intros a' [= <-]. exists x. split; [set_solver|done].
  - intros t' x e [Ho (s & ->)] _. split; [apply good_snoc; [done|apply Hc]|]. exists (s ++ [Ev c x]). by rewrite app_assoc.
  - intros t' d w [Ho (s & ->)]. split; [by apply good_snoc|]. exists (s ++ [Ev (Wait d) w]). by rewrite app_assoc.
  - intros t' x e [Ho (s & ->)] Hin. apply Hk; [done|done|by exists x].
  - intros t' [Ho (s & ->)]. by apply Hk.
Qed.

Lemma paused_by (t : nlog) g x : Ev (NForcePause g) x ∈ t → no_error x = Ok tt → g ∈ paused_in t.
Proof. intros Hin Hx. apply list_elem_of_omap. exists (Ev (NForcePause g) x). split; [done|]. by destruct x. Qed.

Lemma wp_pauseAndResume g t :
  okp t → (∀ s, allowed_poll (t ++ s) (NForcePause g)) →
  wp okp (pauseAndResume attempts connection_error cfg g) t
    (λ t' r, okp t' ∧ (∃ s, t' = t ++ s) ∧ (r ≠ None → ∃ x, Ev (NForcePause g) x ∈ t')).
Proof.
  intros Ht Hc. unfold pauseAndResume. apply wp_act; [done|done|]. intros s r Hs Hp Hx.
  destruct r as [[[]|e]|]; cbn; [|split_and!; [done|by eexists|by auto]|split_and!; [done|by eexists|done]].
  intros w. assert (Hw : okp ((t ++ s) ++ [Ev (Wait (PauseDuration cfg)) w])) by (by apply good_snoc). split; [done|].
  destruct (Hx ltac:(done)) as (x & Hin). destruct w as [e|]; [cbn; split_and!; [done|eexists; by rewrite <- app_assoc|intros _; exists x; set_solver]|].
  apply wp_act; [done| |].
  - intros s'. destruct (Hp tt eq_refl) as (y & Hy & Hok). apply (paused_by _ _ y); [set_solver|done].
  - intros s' r Hs' _ _. cbn. split_and!; [done|eexists; by rewrite <- !app_assoc|intros _; exists x; set_solver].
Qed.

Lemma wp_cycle_all gids gids0 after t :
  okp t → poll_stalled t gids0 after → (∀ g, g ∈ gids → g ∈ gids0) →
  wp okp (cycle_all attempts connection_error cfg gids) t
    (λ t' r, okp t' ∧ (∃ s, t' = t ++ s) ∧ (r ≠ None → ∀ g, g ∈ gids → ∃ x, Ev (NForcePause g) x ∈ t')).
Proof.
  revert t. induction gids as [|g gids IH]; intros t Ht Hp Hg; [cbn; split_and!; [done|exists []; by rewrite app_nil_r|set_solver]|]. cbn [cycle_all]. apply wp_bind.
  eapply wp_post; [|apply (wp_pauseAndResume g); [done|]].
  - intros t' [r|] (Ho & (s & ->) & Hx); [|cbn; split_and!; [done|by eexists|done]].
    eapply wp_post; [|apply IH; [done|by apply poll_stalled_app|intros h ?; apply Hg; by right]].
    intros t'' r' (Ho' & (s' & ->) & Hx'). split_and!; [done|eexists; by rewrite <- app_assoc|]. intros Hr h [->|Hh]%elem_of_cons; [|by apply Hx'].
    destruct (Hx ltac:(done)) as (x & ?). exists x. set_solver.
  - intros s. exists gids0, after. split; [by apply poll_stalled_app|apply Hg; left].
Qed.

Lemma wp_poll :
  wp okp (poll attempts connection_error cfg (Ok prefix) now stall) []
    (λ t r, (∀ e after, r = Some (after, Some e) → after = stall) ∧
      ∀ after, r = Some (after, None) → ∃ gids, poll_stalled t gids after ∧ ∀ g, g ∈ gids → ∃ x, Ev (NForcePause g) x ∈ t).
Proof.
  unfold poll. intros gids. assert (Hg : okp [Ev (ans:=nans) GIDs gids]).
  { apply (good_snoc _ []); [|done]. by intros [] ?? ?. }
  split; [done|]. cbn. destruct gids as [registered|]; [|split; [by intros e' after [= <-]|done]]. apply wp_bind.
  apply (wp_retry _ _ (λ t', okp t' ∧ registered_in t' registered)).
  - split; [done|]. unfold registered_in. set_solver.
  - by intros t' [? _].
  - intros t' x active [Ho Hr] Hx. cbn in Hx. subst x. set (t2 := t' ++ _). assert (H2 : okp t2) by (by apply good_snoc). split; [done|]. cbv iota zeta.
    assert (Hp : poll_stalled t2 (stalled (StallThreshold cfg) now (activeOwned registered prefix active) stall)
      (poll_stall (StallThreshold cfg) now (activeOwned registered prefix active) stall)).
    { exists registered, active. unfold registered_in, t2 in *. split_and!; [set_solver..|done|done]. }
    apply wp_bind. eapply wp_post; [|eapply wp_cycle_all; [done|exact Hp|done]]. intros t3 [[]|] (Ho3 & (s & ->) & Hx); cbn; [|done]. split; [done|].
    intros after [= <-]. eexists. split; [by apply poll_stalled_app|]. by apply Hx.
  - intros t' x e [Ho Hr] _. split; [by apply good_snoc|]. unfold registered_in in *. set_solver.
  - intros t' d w [Ho Hr]. split; [by apply good_snoc|]. unfold registered_in in *. set_solver.
  - intros t' x e _ _. cbn. split; [by intros e' after [= <-]|done].
  - done.
Qed.
End monitor.

(** C36: The zero-speed monitor, after any polls and for any answers of the
    repository, the daemon and the timers: it picks a task exactly when the
    task is active, ours and has stood still at every poll since the one at
    which it was first seen still, or was last cycled, and that poll is at
    least the threshold ago; a poll force-pauses tasks it picked and no
    others, and unpauses only what it has paused; when it ends without error
    it has tried to pause each task it picked and remembers who stands still
    since when, and an error before that leaves the memory as it was. *)
Theorem zero_speed_cycles l p attempts connection_error cfg prefix now t :
  (∀ g, g ∈ cycled l p ↔ still g p = true ∧ ∃ o, since g l o ∧ z_threshold p <= time_sub (z_now p) (z_now o)) ∧
  (∀ q, reaches (poll attempts connection_error cfg (Ok prefix) now (stall_after l)) t q →
    (∀ t1 ev t2, t = t1 ++ ev :: t2 → allowed_poll cfg prefix now (stall_after l) t1 (ev_call ev)) ∧
    (∀ e after, q = Ret (Some (after, Some e)) → after = stall_after l) ∧
    (∀ after, q = Ret (Some (after, None)) → ∃ registered active,
      let p := mkSample now (StallThreshold cfg) (activeOwned registered prefix active) in
      registered_in t registered ∧ Ev (ans:=nans) NTellActive (Ok active) ∈ t ∧ after = stall_after (l ++ [p]) ∧
      ∀ g, g ∈ cycled l p → ∃ x, Ev (NForcePause g) x ∈ t)).
Proof.
  split.
  - intros g. unfold cycled. rewrite stalled_spec. unfold still, stalls. split.
    + intros (task & -> & H). apply andb_prop in H as [Hz H]. split; [done|]. destruct (stall_after l !! g) as [f|] eqn:Hf; [|done].
      apply stall_since in Hf as (o & Ho & <-). exists o. split; [done|]. by apply Z.leb_le.
    + intros [Hz (o & Ho & Hle)]. destruct (z_active p !! g) as [task|]; [|done]. exists task. split; [done|].
      assert (stall_after l !! g = Some (z_now o)) as -> by (apply stall_since; eauto). rewrite Hz. by apply Z.leb_le.
  - intros q Hq. assert (H0 : good (allowed_poll cfg prefix now (stall_after l)) []) by (by intros [] ?? ?).
    destruct (wp_run_reaches _ _ _ _ _ H0 (wp_poll attempts connection_error cfg prefix now (stall_after l)) Hq) as [Hg Hr]. split_and!; [exact Hg| |].
    + intros e after ->. destruct (Hr _ eq_refl) as [H _]. by apply (H e).
    + intros after ->. destruct (Hr _ eq_refl) as [_ H]. destruct (H after eq_refl) as (gids & (registered & active & Hreg & Hact & -> & ->) & Hx).
      exists registered, active. split_and!; [done|done| |done]. unfold stall_after. by rewrite foldl_app.
Qed.

(** A task that stands still for three minutes, and one that does not. *)
Definition demo_sample (now : Z) (speed_b : string) : sample :=
  mkSample (now * second) (180 * second)
    (<["a" := mkStatus "a" "active" "" "" "0" "" "" []]> (<["b" := mkStatus "b" "active" "" "" speed_b "" "" []]> ∅)).
Definition demo_polls : list sample := [demo_sample 0 "0"; demo_sample 90 "7"].
Lemma demo_cycled : cycled demo_polls (demo_sample 180 "0") = ["a"].
Proof. vm_compute. reflexivity. Qed.
Lemma zero_speed_cycles_witness :
  (∃ o, since "a" demo_polls o ∧ z_threshold (demo_sample 180 "0") <= time_sub (z_now (demo_sample 180 "0")) (z_now o)) ∧
  ¬ ∃ o, since "b" demo_polls o ∧ z_threshold (demo_sample 180 "0") <= time_sub (z_now (demo_sample 180 "0")) (z_now o).
Proof.
  destruct (zero_speed_cycles demo_polls (demo_sample 180 "0") 0%nat demo_connection (mkZero 0 0 0 0) "" 0 []) as [H _]. rewrite demo_cycled in H. split.
  - apply (H "a"). by apply list_elem_of_singleton.
  - intros Ho. assert ("b" ∈ ["a"]) as Hb%list_elem_of_singleton; [|done]. apply H. split; [vm_compute; reflexivity|done].
Defined.
