(* ===== verification/Forwarder.v ===== *)
(** * Forwarding a message (internal/core/forwarder, internal/core/tmedia)

    What the forward queue runs: a message, or the album it belongs to, is
    forwarded by Telegram itself, or copied, with photos and documents that
    may not be forwarded downloaded and uploaded again.  The Telegram client,
    the pool, the temporary file and the progress are calls (Prog).  Values
    that are only handed on (peers, entities, file references, the fields of a
    contact or a game) are numbers; random identifiers are left out. *)

From S2P Require Import Prelude Strings Prog.
Local Open Scope list_scope.

(** ** Media (internal/core/tmedia) *)

Inductive photo_size := PhotoSize (type : string) (size : Z) | PhotoSizeProgressive (type : string) (sizes : list Z) | OtherSize.
Record photo := mkPhoto { p_ID : Z; p_Ref : Z; p_Sizes : list photo_size; p_DC : Z; p_Date : Z }.
Inductive attribute := Filename (name : string) | OtherAttribute (payload : Z).
Record document := mkDocument {
  d_ID : Z; d_Ref : Z; d_Size : Z; d_DC : Z; d_Date : Z; d_MimeType : string; d_Attributes : list attribute; d_Thumbs : option (list photo_size) }.
(** [tg.MessageMediaClass]; [None] is the empty photo, document or point. *)
Inductive message_media :=
  | MediaPhoto (spoiler : bool) (p : option photo) (ttl : Z)
  | MediaGeo (point : option Z)
  | MediaContact (contact : Z)
  | MediaDocument (spoiler : bool) (d : option document) (ttl : Z)
  | MediaVenue (point : option Z) (venue : Z)
  | MediaGame (game : Z)
  | MediaInvoice (extended : option message_media)
  | MediaDice (emoticon : string)
  | MediaOther.                             (* live location, poll, story, unsupported, web page, nil *)

Inductive file_location := PhotoLocation (id ref : Z) (thumb : string) | DocumentLocation (id ref : Z) (thumb : string).
Record Media := mkMedia { InputFileLoc : file_location; Name : string; Size : Z; DC : Z; Date : Z }.

(** [tg.InputMediaClass]; a file is the one an upload returned. *)
Inductive input_media :=
  | InputPhoto (spoiler : bool) (id ref ttl : Z)
  | InputGeo (point : Z) | InputContact (contact : Z)
  | InputDocument (spoiler : bool) (id ref ttl : Z)
  | InputVenue (point venue : Z) | InputGame (game : Z) | InputDice (emoticon : string)
  | UploadedPhoto (spoiler : bool) (file ttl : Z)
  | UploadedDocument (spoiler : bool) (file : Z) (mime : string) (attributes : list attribute) (thumb : option Z)
  | NoInput.

Section tmedia.
(** [mimetype.Lookup(mime).Extension()] *)
Context (mime_extension : string → option string).

(** The last size; an empty list panics. *)
Definition GetPhotoSize (sizes : list photo_size) : option (option (string * Z)) :=
  match last sizes with
  | None => None
  | Some (PhotoSize t n) => Some (Some (t, n))
  | Some (PhotoSizeProgressive t l) => match last l with Some n => Some (Some (t, n)) | None => None end
  | Some OtherSize => Some None
  end.
Definition GetPhotoInfo (p : option photo) : option (option Media) :=
  match p with
  | None => Some None
  | Some p =>
      s ← GetPhotoSize (p_Sizes p);
      Some (match s with
            | Some (t, n) => Some (mkMedia (PhotoLocation (p_ID p) (p_Ref p) t) (pretty (p_ID p) +:+ ".jpg") n (p_DC p) (p_Date p))
            | None => None
            end)
  end.
Fixpoint first_name (attributes : list attribute) : option string :=
  match attributes with [] => None | Filename n :: _ => Some n | _ :: l => first_name l end.
Definition GetDocumentName (d : document) : string :=
  match first_name (d_Attributes d) with
  | Some n => n
  | None => pretty (d_ID d) +:+ default ".unknown" (mime_extension (d_MimeType d))
  end.
Definition GetDocumentInfo (d : option document) : option Media :=
  d ← d; Some (mkMedia (DocumentLocation (d_ID d) (d_Ref d) "") (GetDocumentName d) (d_Size d) (d_DC d) (d_Date d)).
(** [None]: a panic; [Some None]: there is none. *)
Fixpoint ExtractMedia (m : message_media) : option (option Media) :=
  match m with
  | MediaPhoto _ p _ => GetPhotoInfo p
  | MediaDocument _ d _ => Some (GetDocumentInfo d)
  | MediaInvoice (Some m) => ExtractMedia m
  | _ => Some None
  end.

(** The first [PhotoSize], or the zero one: the variable is never nil. *)
Fixpoint first_size (thumbs : list photo_size) : string * Z :=
  match thumbs with [] => ("", 0) | PhotoSize t n :: _ => (t, n) | _ :: l => first_size l end.
Definition GetDocumentThumb (d : document) : option Media :=
  thumbs ← d_Thumbs d;
  let '(t, n) := first_size thumbs in
  Some (mkMedia (DocumentLocation (d_ID d) (d_Ref d) t) "thumb.jpg" n (d_DC d) (d_Date d)).

Definition ConvInputMedia (m : message_media) : option input_media :=
  match m with
  | MediaPhoto spoiler p ttl => p ← p; Some (InputPhoto spoiler (p_ID p) (p_Ref p) ttl)
  | MediaGeo point => InputGeo <$> point
  | MediaContact c => Some (InputContact c)
  | MediaDocument spoiler d ttl => d ← d; Some (InputDocument spoiler (d_ID d) (d_Ref d) ttl)
  | MediaVenue point venue => p ← point; Some (InputVenue p venue)
  | MediaGame g => Some (InputGame g)
  | MediaDice e => Some (InputDice e)
  | MediaInvoice _ | MediaOther => None
  end.

(** ** Messages and elements *)

Record message := mkMessage {
  m_ID : Z; m_GroupedID : option Z; m_Noforwards : bool; m_Text : string; m_Entities : Z; m_Markup : Z; m_Media : option message_media }.
Record peer := mkPeer { peer_ID : Z; peer_Input : Z; peer_Noforwards : option bool }.  (* [None]: a user *)
Inductive Mode := ModeDirect | ModeClone | ModeInvalid.
Record Elem := mkElem { e_Mode : Mode; From : peer; Msg : message; To : peer; Thread : Z; AsSilent : bool; AsDryRun : bool; AsGrouped : bool }.

Definition GetMedia (m : message) : option (option Media) := match m_Media m with None => Some None | Some media => ExtractMedia media end.
Definition protectedDialog (p : peer) : bool := default false (peer_Noforwards p).
Definition protectedMessage (m : message) : bool := m_Noforwards m.
Definition photoOrDocument (m : message_media) : bool := match m with MediaPhoto _ _ _ | MediaDocument _ _ _ => true | _ => false end.

(** ** The calls *)

Record single := mkSingle { s_Media : input_media; s_Message : string; s_Entities : Z }.
Inductive fcall :=
  | IterNext | IterErr
  | OnAdd (e : Elem) | OnDone (e : Elem) (err : option goerr)
  | History (from : Z) (offset : Z)         (* the messages below an identifier, newest first *)
  | SendMessage (to : Z) (thread : Z) (silent : bool) (text : string) (entities markup : Z)
  | ForwardMessages (from to : Z) (thread : Z) (silent : bool) (ids : list Z)
  | SendMultiMedia (to : Z) (thread : Z) (silent : bool) (media : list single)
  | SendMedia (to : Z) (thread : Z) (silent : bool) (media : input_media) (text : string) (entities markup : Z)
  | UploadMedia (to : Z) (media : input_media)
  | CreateTemp
  | Download (dc : Z) (loc : file_location) (threads : Z)
  | Seek
  | Upload (name : string) (size : Z) (threads : Z)
  | CloseTemp | RemoveTemp.
Definition fans (c : fcall) : Type :=
  match c with
  | IterNext => option Elem
  | OnAdd _ | OnDone _ _ => unit
  | History _ _ => list (option message) * option goerr
  | UploadMedia _ _ => res goerr message_media
  | Upload _ _ _ => res goerr Z
  | _ => option goerr
  end.
Abbreviation fpgm := (prog fcall fans).
(** [forwardClient]: in a dry run every RPC succeeds with a zero answer. *)
Definition forwardClient (dry : bool) (c : fcall) (zero : fans c) : fpgm (fans c) := if dry then Ret zero else Prog.call c.
Definition wrap (text : string) (e : option goerr) : option goerr := Wrapped text <$> e.

(** ** Albums ([tutil.GetGroupedMessages]) *)

Definition of_group (group : Z) (msg : message) (item : option message) : option message :=
  m ← item; g ← m_GroupedID m;
  if g =? group then Some (if m_ID m =? m_ID msg then msg else m) else None.
Definition GetGroupedMessages (from : peer) (msg : message) : fpgm (res goerr (list message)) :=
  match m_GroupedID msg with
  | None => Ret (Err (NewError "not grouped message"))
  | Some group =>
      '(items, err) ← (Prog.call (History (peer_Input from) (m_ID msg + 11)) : fpgm (list (option message) * option goerr));
      match err with
      | Some e => Ret (Err (Wrapped "get album history" e))
      | None => Ret (Ok (reverse (omap (of_group group msg) (take 20 items))))
      end
  end.

(** ** Cloning a file (clone.go) *)

Definition BestThreads (size max : Z) : Z :=
  if size <? 1048576 then Z.min 1 max else if size <? 5 * 1048576 then Z.min 2 max
  else if size <? 20 * 1048576 then Z.min 4 max else if size <? 50 * 1048576 then Z.min 8 max else max.

Section forwarder.
Context (Threads : Z).

Definition clone_file (m : Media) : fpgm (res goerr Z) :=
  let threads := BestThreads (Size m) Threads in
  e ← (Prog.call (Download (DC m) (InputFileLoc m) threads) : fpgm (option goerr));
  match e with
  | Some e => Ret (Err (Wrapped "download" e))
  | None =>
      e ← (Prog.call Seek : fpgm (option goerr));
      match e with
      | Some e => Ret (Err (Wrapped "seek" e))
      | None =>
          f ← (Prog.call (Upload (Name m) (Size m) threads) : fpgm (res goerr Z));
          Ret (match f with Err e => Err (Wrapped "upload" e) | Ok f => Ok f end)
      end
  end.
(** The deferred [Close] and [Remove] add their errors. *)
Definition cloneMedia (m : Media) (dryRun : bool) : fpgm (res goerr Z) :=
  if dryRun then Ret (Ok 0) else
  e ← (Prog.call CreateTemp : fpgm (option goerr));
  match e with
  | Some e => Ret (Err (Wrapped "create temp file" e))
  | None =>
      r ← clone_file m;
      closed ← (Prog.call CloseTemp : fpgm (option goerr));
      removed ← (Prog.call RemoveTemp : fpgm (option goerr));
      Ret (match errors_Join [match r with Err e => Some e | Ok _ => None end; closed; removed] with
           | Some e => Err e
           | None => r
           end)
  end.

(** ** One message or album *)

Definition forwardTextOnly (e : Elem) (msg : message) : fpgm (option goerr) :=
  if String.eqb (m_Text msg) "" then Ret (Some (NewError "empty message content, skip send")) else
  r ← (forwardClient (AsDryRun e) (SendMessage (peer_Input (To e)) (Thread e) (AsSilent e) (m_Text msg) (m_Entities msg) (m_Markup msg)) None : fpgm (option goerr));
  Ret (wrap "send message" r).

Inductive conv := Panicked | NotConverted (e : goerr) | Converted (m : input_media).
(** The media to upload, made of what was cloned; [None] when it is neither
    photo nor document. *)
Definition uploaded_media (e : Elem) (media : message_media) (file : Z) : fpgm (res goerr input_media) :=
  match media with
  | MediaPhoto spoiler _ ttl => Ret (Ok (UploadedPhoto spoiler file ttl))
  | MediaDocument _ None _ => Ret (Err (NewError "empty document"))
  | MediaDocument spoiler (Some d) _ =>
      match GetDocumentThumb d with
      | None => Ret (Ok (UploadedDocument spoiler file (d_MimeType d) (d_Attributes d) None))
      | Some thumb =>
          t ← cloneMedia thumb (AsDryRun e);
          Ret (match t with
               | Err x => Err (Wrapped "clone thumb" x)
               | Ok t => Ok (UploadedDocument spoiler file (d_MimeType d) (d_Attributes d) (Some t))
               end)
      end
  | _ => Ret (Err (NewError "unsupported media"))
  end.
Definition convForwardedMedia (e : Elem) (msg : message) : fpgm conv :=
  match m_Media msg with
  | None => Ret (NotConverted (NewError "message is not a media message"))
  | Some media =>
      if negb (protectedDialog (From e)) && negb (protectedMessage msg) || negb (photoOrDocument media) then
        Ret (match ConvInputMedia media with
             | Some m => Converted m
             | None => NotConverted (NewError "can't convert message to input class directly")
             end)
      else
        match GetMedia msg with
        | None => Ret Panicked
        | Some None => Ret (NotConverted (NewError "unsupported media"))
        | Some (Some m) =>
            file ← cloneMedia m (AsDryRun e);
            match file with
            | Err x => Ret (NotConverted (Wrapped "clone media" x))
            | Ok file =>
                input ← uploaded_media e media file;
                match input with
                | Err x => Ret (NotConverted x)
                | Ok input =>
                    r ← (forwardClient (AsDryRun e) (UploadMedia (peer_Input (To e)) input) (Ok MediaOther) : fpgm (res goerr message_media));
                    Ret (match r with
                         | Err x => NotConverted (Wrapped "upload media" x)
                         | Ok mm =>
                             match ConvInputMedia mm with
                             | Some m => Converted m
                             | None => if AsDryRun e then Converted NoInput else NotConverted (NewError "can't convert uploaded media to input class")
                             end
                         end)
                end
            end
        end
  end.

(** The media of an album that could be converted; [None] after a panic. *)
Fixpoint conv_all (e : Elem) (grouped : list message) (media : list single) : fpgm (option (list single)) :=
  match grouped with
  | [] => Ret (Some media)
  | gm :: grouped =>
      c ← convForwardedMedia e gm;
      match c with
      | Panicked => Ret None
      | NotConverted _ => conv_all e grouped media
      | Converted m => conv_all e grouped (media ++ [mkSingle m (m_Text gm) (m_Entities gm)])
      end
  end.

(** A run of [forwardMessage] ends with its error, or panics. *)
Definition clone_mode (e : Elem) (grouped : list message) : fpgm (option (option goerr)) :=
  let to := peer_Input (To e) in
  match grouped with
  | _ :: _ =>
      media ← conv_all e grouped [];
      match media with
      | None => Ret None
      | Some [] => r ← forwardTextOnly e (Msg e); Ret (Some r)
      | Some media =>
          r ← (forwardClient (AsDryRun e) (SendMultiMedia to (Thread e) (AsSilent e) media) None : fpgm (option goerr));
          Ret (Some (wrap "send multi media" r))
      end
  | [] =>
      c ← convForwardedMedia e (Msg e);
      match c with
      | Panicked => Ret None
      | NotConverted _ => r ← forwardTextOnly e (Msg e); Ret (Some r)
      | Converted m =>
          r ← (forwardClient (AsDryRun e) (SendMedia to (Thread e) (AsSilent e) m (m_Text (Msg e)) (m_Entities (Msg e)) (m_Markup (Msg e))) None : fpgm (option goerr));
          Ret (Some (wrap "send single media" r))
      end
  end.

(** [None] after a panic. *)
Fixpoint size_sum (grouped : list message) (total : Z) : option (res goerr Z) :=
  match grouped with
  | [] => Some (Ok total)
  | gm :: grouped =>
      m ← GetMedia gm;
      match m with
      | None => Some (Err (NewError "can't get media from message"))
      | Some m => size_sum grouped (wrap64 (total + Size m))
      end
  end.
Definition mediaSizeSum (msg : message) (grouped : list message) : option (res goerr Z) :=
  match grouped with
  | _ :: _ => size_sum grouped 0
  | [] => m ← GetMedia msg; Some (Ok (match m with None => 0 | Some m => Size m end))
  end.

Definition forward_body (e : Elem) (grouped : list message) : fpgm (option (option goerr)) :=
  match mediaSizeSum (Msg e) grouped with
  | None => Ret None
  | Some (Err x) => Ret (Some (Some (Wrapped "media total size" x)))
  | Some (Ok _) =>
      match e_Mode e with
      | ModeDirect =>
          if negb (protectedDialog (From e)) && negb (protectedMessage (Msg e)) then
            let ids := match grouped with [] => [m_ID (Msg e)] | _ => map m_ID grouped end in
            r ← (forwardClient (AsDryRun e) (ForwardMessages (peer_Input (From e)) (peer_Input (To e)) (Thread e) (AsSilent e) ids) None : fpgm (option goerr));
            match r with
            | None => Ret (Some None)
            | Some _ => clone_mode e grouped
            end
          else clone_mode e grouped
      | ModeClone => clone_mode e grouped
      | ModeInvalid => Ret (Some (Some (NewError "unsupported mode")))
      end
  end.

Definition tuple : Type := Z * Z.
Definition tuple_of (e : Elem) (m : message) : tuple := (peer_ID (From e), m_ID m).
(** What is marked as sent, whatever the result. *)
Definition marked (e : Elem) (grouped : list message) (sent : gset tuple) : gset tuple :=
  list_to_set (tuple_of e (Msg e) :: map (tuple_of e) grouped) ∪ sent.
Definition forwardMessage (e : Elem) (grouped : list message) : fpgm (option (option goerr)) :=
  _ ← (Prog.call (OnAdd e) : fpgm unit);
  r ← forward_body e grouped;
  match r with
  | None => _ ← (Prog.call (OnDone e None) : fpgm unit); Ret None
  | Some err => _ ← (Prog.call (OnDone e err) : fpgm unit); Ret (Some err)
  end.

(** ** The loop

    [fuel] bounds the elements; [None]: more elements, or a panic. *)
Fixpoint forward_loop (fuel : nat) (sent : gset tuple) (failures : list goerr) : fpgm (option (option goerr)) :=
  match fuel with
  | O => Ret None
  | S fuel =>
      next ← (Prog.call IterNext : fpgm (option Elem));
      match next with
      | None => e ← (Prog.call IterErr : fpgm (option goerr)); Ret (Some (errors_Join (map Some failures ++ [e])))
      | Some e =>
          if bool_decide (tuple_of e (Msg e) ∈ sent) then forward_loop fuel sent failures
          else if bool_decide (is_Some (m_GroupedID (Msg e))) && AsGrouped e then
            g ← GetGroupedMessages (From e) (Msg e);
            match g with
            | Err x => forward_loop fuel sent (failures ++ [x])
            | Ok grouped =>
                r ← forwardMessage e grouped;
                match r with
                | None => Ret None
                | Some (Some x) => forward_loop fuel (marked e grouped sent) (failures ++ [x])
                | Some None => forward_loop fuel (marked e grouped sent) failures
                end
            end
          else
            r ← forwardMessage e [];
            match r with
            | None => Ret None
            | Some (Some x) => if errors_Is x "context canceled" then Ret (Some (Some x)) else forward_loop fuel (marked e [] sent) (failures ++ [x])
            | Some None => forward_loop fuel (marked e [] sent) failures
            end
      end
  end.
Definition Forward (fuel : nat) : fpgm (option (option goerr)) := forward_loop fuel ∅ [].
End forwarder.
End tmedia.
