(* ===== verification/ForwarderProps.v ===== *)
(** * What forwarding a message guarantees

    Lemmas and the theorem about Forwarder: what is sent for an element, how
    often, what never is, and what a result means. *)

From S2P Require Import Prelude Strings Prog Forwarder.
Local Open Scope list_scope.

Abbreviation flog := (list (event fcall fans)).

(** ** Logs *)

Definition is_send (c : fcall) : bool :=
  match c with SendMessage _ _ _ _ _ _ | ForwardMessages _ _ _ _ _ | SendMultiMedia _ _ _ _ | SendMedia _ _ _ _ _ _ _ => true | _ => false end.
(** Messages Telegram accepted. *)
Definition sent_ev (ev : event fcall fans) : nat :=
  match ev with
  | Ev c x => match c as c return fans c → nat with
              | SendMessage _ _ _ _ _ _ | ForwardMessages _ _ _ _ _ | SendMultiMedia _ _ _ _ | SendMedia _ _ _ _ _ _ _ =>
                  λ e, match e with None => 1%nat | Some _ => 0%nat end
              | _ => λ _, 0%nat
              end x
  end.
Definition created_ev (ev : event fcall fans) : nat :=
  match ev with
  | Ev c x => match c as c return fans c → nat with CreateTemp => λ e, match e with None => 1%nat | Some _ => 0%nat end | _ => λ _, 0%nat end x
  end.
Definition removed_ev (ev : event fcall fans) : nat := match ev_call ev with RemoveTemp => 1%nat | _ => 0%nat end.
Definition accepted (t : flog) : nat := sum_list_with sent_ev t.
(** Temporary files that are not removed. *)
Definition temps (t : flog) : nat := (sum_list_with created_ev t - sum_list_with removed_ev t)%nat.

Section element.
Context (mime_extension : string → option string) (Threads : Z) (e : Elem) (grouped : list message).
Abbreviation GetMedia := (GetMedia mime_extension).

Definition unprotected (m : message) : bool := negb (protectedDialog (From e)) && negb (protectedMessage m).
(** A file of the element: a message's photo or document, or a thumbnail. *)
Definition file_of_element (f : Media) : Prop :=
  ∃ m, m ∈ Msg e :: grouped ∧
    (GetMedia m = Some (Some f) ∨ ∃ spoiler d ttl, m_Media m = Some (MediaDocument spoiler (Some d) ttl) ∧ GetDocumentThumb d = Some f).
(** *** How an element is copied, as a relation on the calls

    Every message's share of the log: a file that is cloned through one
    temporary file, the medium that is uploaded for it, and what the message
    becomes in the end, or nothing. *)

Definition outcome {A} (r : res goerr A) : option A := match r with Ok x => Some x | Err _ => None end.
Abbreviation Ev := (Ev (ans:=fans)).

(** Downloading [f] and uploading it again: the file Telegram knows then. *)
Inductive cloning (f : Media) : flog → option Z → Prop :=
  | cloning_no_temp x : cloning f [Ev CreateTemp (Some x)] None
  | cloning_no_download x c r :
      cloning f [Ev CreateTemp None; Ev (Download (DC f) (InputFileLoc f) (BestThreads (Size f) Threads)) (Some x); Ev CloseTemp c; Ev RemoveTemp r] None
  | cloning_no_seek x c r :
      cloning f [Ev CreateTemp None; Ev (Download (DC f) (InputFileLoc f) (BestThreads (Size f) Threads)) None; Ev Seek (Some x); Ev CloseTemp c; Ev RemoveTemp r] None
  | cloning_upload (u : res goerr Z) (c r : option goerr) :
      cloning f [Ev CreateTemp None; Ev (Download (DC f) (InputFileLoc f) (BestThreads (Size f) Threads)) None; Ev Seek None;
                 Ev (Upload (Name f) (Size f) (BestThreads (Size f) Threads)) u; Ev CloseTemp c; Ev RemoveTemp r]
        (match u, c, r with Ok file, None, None => Some file | _, _, _ => None end).

(** The medium to upload for [media], whose file is [file]. *)
Inductive describing (media : message_media) (file : Z) : flog → option input_media → Prop :=
  | describing_photo spoiler p ttl :
      media = MediaPhoto spoiler p ttl → describing media file [] (Some (UploadedPhoto spoiler file ttl))
  | describing_document spoiler d ttl :
      media = MediaDocument spoiler (Some d) ttl → GetDocumentThumb d = None →
      describing media file [] (Some (UploadedDocument spoiler file (d_MimeType d) (d_Attributes d) None))
  | describing_thumb spoiler d ttl thumb l r :
      media = MediaDocument spoiler (Some d) ttl → GetDocumentThumb d = Some thumb → cloning thumb l r →
      describing media file l ((λ t, UploadedDocument spoiler file (d_MimeType d) (d_Attributes d) (Some t)) <$> r).

(** The photo or document of [m] must be cloned; it is [f]. *)
Definition must_clone (m : message) (media : message_media) (f : option Media) : Prop :=
  m_Media m = Some media ∧ unprotected m = false ∧ photoOrDocument media = true ∧ GetMedia m = Some f.

(** What the media of [m] becomes: a reference where that is allowed, else
    what Telegram made of an upload of its own file. *)
Inductive converting (m : message) : flog → option input_media → Prop :=
  | converting_text : m_Media m = None → converting m [] None
  | converting_reference media :
      m_Media m = Some media → unprotected m = true ∨ photoOrDocument media = false → converting m [] (ConvInputMedia media)
  | converting_empty media : must_clone m media None → converting m [] None
  | converting_lost media f l : must_clone m media (Some f) → cloning f l None → converting m l None
  | converting_no_thumb media f file l1 l2 :
      must_clone m media (Some f) → cloning f l1 (Some file) → describing media file l2 None → converting m (l1 ++ l2) None
  | converting_upload media f file l1 l2 input (answer : res goerr message_media) :
      must_clone m media (Some f) → cloning f l1 (Some file) → describing media file l2 (Some input) →
      converting m (l1 ++ l2 ++ [Ev (UploadMedia (peer_Input (To e)) input) answer])
        (match answer with Ok mm => ConvInputMedia mm | Err _ => None end).

(** An album, message by message: those that could be converted, in their
    order, each with its own text. *)
Inductive copying : list message → flog → list single → Prop :=
  | copying_nil : copying [] [] []
  | copying_snoc g s media m l i :
      copying g s media → converting m l i →
      copying (g ++ [m]) (s ++ l) (media ++ match i with Some i => [mkSingle i (m_Text m) (m_Entities m)] | None => [] end).

Definition all_ids : list Z := match grouped with [] => [m_ID (Msg e)] | _ => map m_ID grouped end.
(** What came before copying: nothing, or the refused attempt to forward. *)
Definition tried (s : flog) : Prop :=
  (∃ n, mediaSizeSum mime_extension (Msg e) grouped = Some (Ok n)) ∧
  match e_Mode e with
  | ModeDirect =>
      if unprotected (Msg e)
      then ∃ x, s = [Ev (ForwardMessages (peer_Input (From e)) (peer_Input (To e)) (Thread e) (AsSilent e) all_ids) (Some x)]
      else s = []
  | ModeClone => s = []
  | ModeInvalid => False
  end.
(** [s] is that, and then calls that [P] describes. *)
Definition after_try (P : flog → Prop) (s : flog) : Prop := ∃ s0 s1, s = s0 ++ s1 ∧ tried s0 ∧ P s1.

(** What may be called for the element, after [s]. *)
Definition allowed_in (s : flog) (c : fcall) : Prop :=
  AsDryRun e = false ∧ (is_send c = true → accepted s = 0%nat) ∧
  match c with
  | ForwardMessages from to thread silent ids =>
      s = [] ∧ e_Mode e = ModeDirect ∧ unprotected (Msg e) = true ∧ from = peer_Input (From e) ∧ to = peer_Input (To e) ∧
      thread = Thread e ∧ silent = AsSilent e ∧ ids = all_ids
  | SendMedia to thread silent media text entities markup =>
      to = peer_Input (To e) ∧ thread = Thread e ∧ silent = AsSilent e ∧
      text = m_Text (Msg e) ∧ entities = m_Entities (Msg e) ∧ markup = m_Markup (Msg e) ∧
      grouped = [] ∧ after_try (λ s, converting (Msg e) s (Some media)) s
  | SendMultiMedia to thread silent media =>
      to = peer_Input (To e) ∧ thread = Thread e ∧ silent = AsSilent e ∧ media ≠ [] ∧
      grouped ≠ [] ∧ after_try (λ s, copying grouped s media) s
  | SendMessage to thread silent text entities markup =>
      to = peer_Input (To e) ∧ thread = Thread e ∧ silent = AsSilent e ∧
      text = m_Text (Msg e) ∧ text ≠ "" ∧ entities = m_Entities (Msg e) ∧ markup = m_Markup (Msg e) ∧
      after_try (λ s, match grouped with [] => converting (Msg e) s None | _ => copying grouped s [] end) s
  | UploadMedia to input =>
      to = peer_Input (To e) ∧ ∃ m media f file s0 l1 l2, m ∈ Msg e :: grouped ∧ s = s0 ++ l1 ++ l2 ∧
        must_clone m media (Some f) ∧ cloning f l1 (Some file) ∧ describing media file l2 (Some input)
  | CreateTemp => temps s = 0%nat
  | Download dc loc _ => ∃ f, file_of_element f ∧ dc = DC f ∧ loc = InputFileLoc f
  | Seek | Upload _ _ _ | CloseTemp | RemoveTemp => True
  | _ => False
  end.

(** Nothing was accepted yet, and no temporary file is left. *)
Record clean (s : flog) : Prop := {
  cl_good : good allowed_in s;
  cl_accepted : accepted s = 0%nat;
  cl_created : sum_list_with created_ev s = sum_list_with removed_ev s;
}.
Lemma accepted_app s s' : accepted (s ++ s') = (accepted s + accepted s')%nat.
Proof. apply sum_list_with_app. Qed.
Lemma clean_temps s : clean s → temps s = 0%nat.
Proof. intros H. unfold temps. rewrite (cl_created _ H). lia. Qed.
Lemma clean_app s l :
  clean s → good allowed_in (s ++ l) → accepted l = 0%nat → sum_list_with created_ev l = sum_list_with removed_ev l → clean (s ++ l).
Proof. intros [H1 H2 H3] Hg Hs Hc. constructor; [done|by rewrite accepted_app, H2, Hs|]. rewrite !sum_list_with_app. lia. Qed.

(** ** Cloning *)

Lemma cloning_quiet f l r : cloning f l r → accepted l = 0%nat ∧ sum_list_with created_ev l = sum_list_with removed_ev l.
Proof. by destruct 1. Qed.

(** A file is cloned and its temporary file removed. *)
Lemma wp_clone f s :
  clean s → file_of_element f →
  wp (good allowed_in) (cloneMedia Threads f (AsDryRun e)) s
    (λ s' r, clean s' ∧ (AsDryRun e = true ∨ ∃ l, s' = s ++ l ∧ cloning f l (outcome r))).
Proof.
  intros Hs Hf. unfold cloneMedia. destruct (AsDryRun e) eqn:Hdry; [cbn; split; [done|by left]|].
  assert (Hend : ∀ l r, good allowed_in (s ++ l) → cloning f l (outcome r) →
    clean (s ++ l) ∧ (false = true ∨ ∃ l', s ++ l = s ++ l' ∧ cloning f l' (outcome r))).
  { intros l r Hg Hl. destruct (cloning_quiet _ _ _ Hl). split; [by apply clean_app|]. right. by exists l. }
  assert (Hstep : ∀ l c x, good allowed_in (s ++ l) → match c with Seek | Upload _ _ _ | CloseTemp | RemoveTemp => true | _ => false end = true →
    good allowed_in (s ++ (l ++ [Ev c x]))).
  { intros l c x Hg Hc. rewrite app_assoc. apply good_snoc; [done|]. split_and!; [done|by destruct c|by destruct c]. }
  intros created. assert (Hg1 : good allowed_in (s ++ [Ev CreateTemp created])).
  { apply good_snoc; [apply Hs|]. split_and!; [done..|]. by apply clean_temps. }
  split; [done|]. destruct created as [x|]; [cbn; apply (Hend _ (Err x)); [done|constructor]|]. cbn [mbind prog_bind]. apply wp_bind.
  unfold clone_file. intros d. set (load := Download _ _ _).
  assert (Hg2 : good allowed_in (s ++ [Ev CreateTemp None; Ev load d])).
  { change [Ev CreateTemp None; Ev load d] with ([Ev CreateTemp None] ++ [Ev load d]). rewrite app_assoc. apply good_snoc; [done|].
    split_and!; [done..|]. by exists f. }
  rewrite <- !app_assoc. cbn [app]. split; [done|].
  destruct d as [x|]; cbn [mbind prog_bind].
  { intros c. pose proof (Hstep _ CloseTemp c Hg2 eq_refl) as Hg3. rewrite <- app_assoc. split; [done|].
    intros r. pose proof (Hstep _ RemoveTemp r Hg3 eq_refl) as Hg4. rewrite <- app_assoc. split; [done|]. apply (Hend _ (Err x)); [exact Hg4|constructor]. }
  intros k. pose proof (Hstep _ Seek k Hg2 eq_refl) as Hg3. rewrite <- app_assoc. split; [done|]. destruct k as [x|]; cbn [mbind prog_bind].
  { intros c. pose proof (Hstep _ CloseTemp c Hg3 eq_refl) as Hg4. rewrite <- app_assoc. split; [done|].
    intros r. pose proof (Hstep _ RemoveTemp r Hg4 eq_refl) as Hg5. rewrite <- app_assoc. split; [done|]. apply (Hend _ (Err x)); [exact Hg5|constructor]. }
  intros u. pose proof (Hstep _ (Upload _ _ _) u Hg3 eq_refl) as Hg4. rewrite <- app_assoc. split; [done|].
  intros c. pose proof (Hstep _ CloseTemp c Hg4 eq_refl) as Hg5. rewrite <- app_assoc. split; [done|].
  intros r. pose proof (Hstep _ RemoveTemp r Hg5 eq_refl) as Hg6. rewrite <- app_assoc. split; [done|]. cbn [wp].
  eapply Hend; [exact Hg6|].
  pose proof (cloning_upload f u c r) as Hu. by destruct u, c, r.
Qed.

(** ** Converting *)

(** The medium made of a clone, with its thumbnail. *)
Lemma wp_uploaded_media m media f file s :
  clean s → m ∈ Msg e :: grouped → must_clone m media (Some f) →
  wp (good allowed_in) (uploaded_media Threads e media file) s
    (λ s' r, clean s' ∧ (AsDryRun e = true ∨ ∃ l, s' = s ++ l ∧ describing media file l (outcome r))).
Proof.
  intros Hs Hm (Hmedia & _ & Hphoto & Hget). unfold GetMedia, Forwarder.GetMedia in Hget. rewrite Hmedia in Hget.
  assert (Hdone : ∀ r, describing media file [] (outcome r) →
    clean s ∧ (AsDryRun e = true ∨ ∃ l, s = s ++ l ∧ describing media file l (outcome r))).
  { intros r Hr. split; [done|]. right. exists []. by rewrite app_nil_r. }
  destruct media as [sp p ttl| | |sp [d|] ttl| | | | |]; cbn in Hphoto; try discriminate Hphoto; cbn [uploaded_media].
  - apply (Hdone (Ok _)). by eapply describing_photo.
  - destruct (GetDocumentThumb d) as [thumb|] eqn:Hth; [|apply (Hdone (Ok _)); by eapply describing_document].
    apply wp_bind. eapply wp_post; [|apply (wp_clone thumb s Hs)].
    + intros s' r (Hs' & Hl). cbn [wp]. split; [done|]. destruct Hl as [?|(l & -> & Hl)]; [by left|right]. exists l. split; [done|].
      pose proof (describing_thumb (MediaDocument sp (Some d) ttl) file sp d ttl thumb l _ eq_refl Hth Hl) as Hd. by destruct r.
    + exists m. split; [done|]. right. by exists sp, d, ttl.
  - cbn in Hget. discriminate Hget.
Qed.

Definition conv_post (s s' : flog) (m : message) (c : conv) : Prop :=
  clean s' ∧
  match c with
  | Converted i => AsDryRun e = true ∨ ∃ l, s' = s ++ l ∧ converting m l (Some i)
  | NotConverted _ => AsDryRun e = true ∨ ∃ l, s' = s ++ l ∧ converting m l None
  | Panicked => GetMedia m = None
  end.
Lemma conv_stays s m c :
  clean s → converting m [] (match c with Converted i => Some i | _ => None end) → c ≠ Panicked → conv_post s s m c.
Proof.
  intros Hs Hc Hp. split; [done|]. destruct c; [done|..]; right; exists []; by rewrite app_nil_r.
Qed.

Lemma wp_conv m s :
  clean s → m ∈ Msg e :: grouped →
  wp (good allowed_in) (convForwardedMedia mime_extension Threads e m) s (λ s' c, conv_post s s' m c).
Proof.
  intros Hs Hm. unfold convForwardedMedia. destruct (m_Media m) as [media|] eqn:Hmedia; [|by apply conv_stays; [|constructor|]].
  fold (unprotected m). destruct (unprotected m || negb (photoOrDocument media)) eqn:Hfree.
  { assert (Hr : unprotected m = true ∨ photoOrDocument media = false) by (apply orb_prop in Hfree as [?|?%negb_true_iff]; auto).
    pose proof (converting_reference m media Hmedia Hr) as Hc. cbn [wp]. by destruct (ConvInputMedia media); apply conv_stays. }
  apply orb_false_iff in Hfree as [Hu Hp%negb_false_iff].
  destruct (Forwarder.GetMedia mime_extension m) as [[f|]|] eqn:Hget; [| |by split].
  2:{ apply conv_stays; [done| |done]. by apply (converting_empty m media). }
  assert (Hmust : must_clone m media (Some f)) by done.
  apply wp_bind. eapply wp_post; [|apply (wp_clone f s Hs); exists m; split; [done|by left]].
  intros s1 [file|x] [Hs1 H1].
  2:{ cbn [wp]. split; [done|]. destruct H1 as [?|(l & -> & Hl)]; [by left|right]. exists l. split; [done|]. by apply (converting_lost m media f). }
  apply wp_bind. eapply wp_post; [|by apply (wp_uploaded_media m media f file)].
  intros s2 [input|x] [Hs2 H2].
  2:{ cbn [wp]. split; [done|]. destruct H1 as [?|(l1 & -> & Hl1)]; [by left|]. destruct H2 as [?|(l2 & -> & Hl2)]; [by left|right].
      exists (l1 ++ l2). rewrite app_assoc. split; [done|]. by eapply (converting_no_thumb m media f). }
  unfold forwardClient. destruct (AsDryRun e) eqn:Hdry; [cbn [wp]; split; [done|by left]|].
  destruct H1 as [?|(l1 & -> & Hl1)]; [done|]. destruct H2 as [?|(l2 & -> & Hl2)]; [done|].
  cbn [mbind prog_bind Prog.call]. intros answer. cbn [outcome] in Hl1, Hl2.
  assert (Hg : good allowed_in (((s ++ l1) ++ l2) ++ [Ev (UploadMedia (peer_Input (To e)) input) answer])).
  { apply good_snoc; [apply Hs2|]. split_and!; [done..|]. split; [done|]. exists m, media, f, file, s, l1, l2. by rewrite app_assoc. }
  split; [done|]. cbn [wp]. split.
  { apply clean_app; [done|done|reflexivity|reflexivity]. }
  pose proof (converting_upload m media f file l1 l2 input answer Hmust Hl1 Hl2) as Hc.
  assert (Heq : ((s ++ l1) ++ l2) ++ [Ev (UploadMedia (peer_Input (To e)) input) answer] = s ++ (l1 ++ l2 ++ [Ev (UploadMedia (peer_Input (To e)) input) answer]))
    by (by rewrite <- !app_assoc).
  destruct answer as [mm|]; [destruct (ConvInputMedia mm) eqn:Hi|]; right; (eexists; split; [exact Heq|exact Hc]).
Qed.

Lemma wp_conv_all rest done media s0 s :
  clean s → done ++ rest = grouped → (AsDryRun e = true ∨ ∃ s1, s = s0 ++ s1 ∧ copying done s1 media) →
  wp (good allowed_in) (conv_all mime_extension Threads e rest media) s
    (λ s' r, clean s' ∧
      match r with
      | Some media => AsDryRun e = true ∨ ∃ s1, s' = s0 ++ s1 ∧ copying grouped s1 media
      | None => ∃ m, m ∈ grouped ∧ GetMedia m = None
      end).
Proof.
  revert done media s. induction rest as [|m rest IH]; intros done media s Hs Hd Hc.
  - rewrite app_nil_r in Hd. subst done. by split.
  - assert (Hm : m ∈ grouped) by (rewrite <- Hd; set_solver). cbn [conv_all]. apply wp_bind. eapply wp_post; [|apply (wp_conv m s Hs); by right].
    assert (Hd' : (done ++ [m]) ++ rest = grouped) by (by rewrite <- app_assoc).
    assert (Hnext : ∀ s1 i, (AsDryRun e = true ∨ ∃ l, s1 = s ++ l ∧ converting m l i) →
      AsDryRun e = true ∨ ∃ s2, s1 = s0 ++ s2 ∧ copying (done ++ [m]) s2 (media ++ match i with Some i => [mkSingle i (m_Text m) (m_Entities m)] | None => [] end)).
    { intros s1 i [?|(l & -> & Hl)]; [by left|]. destruct Hc as [?|(s2 & -> & Hc)]; [by left|right]. exists (s2 ++ l).
      rewrite app_assoc. split; [done|]. by constructor. }
    intros s1 [|err|i] [Hs1 Hpost].
    + split; [done|]. by exists m.
    + apply (IH (done ++ [m])); [done..|]. apply Hnext in Hpost. by rewrite app_nil_r in Hpost.
    + apply (IH (done ++ [m])); [done..|]. by apply Hnext in Hpost.
Qed.

(** ** Sending *)

(** How a run for the element ends. *)
Definition ended (s : flog) (r : option (option goerr)) : Prop :=
  good allowed_in s ∧ sum_list_with created_ev s = sum_list_with removed_ev s ∧
  match r with
  | Some None => AsDryRun e = true ∨ accepted s = 1%nat
  | Some (Some _) => accepted s = 0%nat
  | None => ∃ m, m ∈ Msg e :: grouped ∧ GetMedia m = None
  end.
Lemma ended_clean s err : clean s → ended s (Some (Some err)).
Proof. intros [? ? ?]. by split_and!. Qed.
Lemma ended_dry s : clean s → AsDryRun e = true → ended s (Some None).
Proof. intros [? ? ?] ?. split_and!; [done..|by left]. Qed.
Lemma ended_panic s m : clean s → m ∈ Msg e :: grouped → GetMedia m = None → ended s None.
Proof. intros [? ? ?] ? ?. split_and!; [done..|by exists m]. Qed.
Lemma ended_sent s ev text (r : option goerr) :
  clean s → allowed_in s (ev_call ev) → sent_ev ev = (match r with None => 1 | Some _ => 0 end)%nat → created_ev ev = 0%nat → removed_ev ev = 0%nat →
  ended (s ++ [ev]) (Some (wrap text r)).
Proof.
  intros [H1 H2 H3] Ha Hs Hc Hr. split_and!; [by apply good_snoc|rewrite !sum_list_with_app, H3; cbn; lia|].
  destruct r; cbn; [|right]; rewrite accepted_app, H2; cbn; by rewrite Hs.
Qed.

Lemma after_try_app (P : flog → Prop) s0 s1 : tried s0 → P s1 → after_try P (s0 ++ s1).
Proof. intros. by exists s0, s1. Qed.

Lemma wp_text s :
  clean s → (AsDryRun e = true ∨ after_try (λ s, match grouped with [] => converting (Msg e) s None | _ => copying grouped s [] end) s) →
  wp (good allowed_in) (r ← forwardTextOnly e (Msg e); Ret (Some r)) s ended.
Proof.
  intros Hs Hc. unfold forwardTextOnly. destruct (String.eqb_spec (m_Text (Msg e)) "") as [Ht|Ht]; [by apply ended_clean|].
  unfold forwardClient. destruct (AsDryRun e) eqn:Hdry; [by apply ended_dry|]. destruct Hc as [?|Hc]; [done|].
  intros r. set (c := SendMessage _ _ _ _ _ _). assert (Ha : allowed_in s c).
  { split_and!; try done. intros _. apply (cl_accepted _ Hs). }
  pose proof (ended_sent s (Ev c r) "send message" r Hs Ha) as He.
  split; [apply good_snoc; [apply Hs|done]|]. apply He; [by destruct r|done..].
Qed.

Lemma wp_clone_mode s : clean s → (AsDryRun e = true ∨ tried s) → wp (good allowed_in) (clone_mode mime_extension Threads e grouped) s ended.
Proof.
  intros Hs Htry. unfold clone_mode. assert (Hcases : grouped = [] ∨ ∃ g0 gs, grouped = g0 :: gs) by (destruct grouped; eauto).
  destruct Hcases as [Hgr|(g0 & gs & Hgr)]; rewrite Hgr.
  - apply wp_bind. eapply wp_post; [|apply (wp_conv (Msg e) s Hs); left]. intros s1 c [Hs1 Hc]. destruct c as [|err|i].
    + apply (ended_panic s1 (Msg e)); [done|left|done].
    + apply wp_text; [done|]. destruct Htry as [?|Htry]; [by left|]. destruct Hc as [?|(l & -> & Hc)]; [by left|right].
      apply after_try_app; [done|]. by rewrite Hgr.
    + unfold forwardClient. destruct (AsDryRun e) eqn:Hdry; [by apply ended_dry|].
      destruct Htry as [?|Htry]; [done|]. destruct Hc as [?|(l & -> & Hc)]; [done|].
      intros r. set (c := SendMedia _ _ _ _ _ _ _). assert (Ha : allowed_in (s ++ l) c).
      { split; [done|]. split; [intros _; apply (cl_accepted _ Hs1)|]. cbn. split_and!; try done. by apply after_try_app. }
      pose proof (ended_sent (s ++ l) (Ev c r) "send single media" r Hs1 Ha) as He.
      split; [apply good_snoc; [apply Hs1|done]|]. apply He; [by destruct r|done..].
  - apply wp_bind. eapply wp_post; [|rewrite <- Hgr; apply (wp_conv_all grouped [] [] s s); [done..|]].
    2:{ right. exists []. rewrite app_nil_r. split; [done|constructor]. }
    intros s1 [media|] [Hs1 Hp]; [|destruct Hp as (m & ? & ?); apply (ended_panic s1 m); [done|by right|done]].
    assert (Hp' : AsDryRun e = true ∨ after_try (λ s, copying grouped s media) s1).
    { destruct Htry as [?|Htry]; [by left|]. destruct Hp as [?|(s2 & -> & Hp)]; [by left|right]. by apply after_try_app. }
    destruct media as [|x0 xs]; [apply wp_text; [done|by rewrite Hgr in Hp' |- *]|].
    unfold forwardClient. destruct (AsDryRun e) eqn:Hdry; [by apply ended_dry|].
    destruct Hp' as [?|Hp']; [done|]. intros r. set (c := SendMultiMedia _ _ _ _). assert (Ha : allowed_in s1 c).
    { split; [done|]. split; [intros _; apply (cl_accepted _ Hs1)|]. cbn. split_and!; try done. by rewrite Hgr. }
    pose proof (ended_sent s1 (Ev c r) "send multi media" r Hs1 Ha) as He.
    split; [apply good_snoc; [apply Hs1|done]|]. apply He; [by destruct r|done..].
Qed.

Lemma size_sum_None l total : size_sum mime_extension l total = None → ∃ m, m ∈ l ∧ GetMedia m = None.
Proof.
  revert total. induction l as [|m l IH]; intros total; cbn; [done|]. destruct (Forwarder.GetMedia mime_extension m) as [[f|]|] eqn:Hm; cbn; [|done|].
  - intros (m' & ? & ?)%IH. exists m'. split; [by right|done].
  - intros _. exists m. split; [left|done].
Qed.
Lemma wp_body : wp (good allowed_in) (forward_body mime_extension Threads e grouped) [] ended.
Proof.
  assert (Hs : clean []) by (constructor; [apply good_nil|done..]).
  unfold forward_body. destruct (mediaSizeSum mime_extension (Msg e) grouped) as [[n|err]|] eqn:Hsum; [|by apply ended_clean|].
  - fold (unprotected (Msg e)) all_ids.
    assert (Htry : ∀ s, match e_Mode e with ModeDirect => if unprotected (Msg e) then ∃ x, s = [Ev (ForwardMessages (peer_Input (From e)) (peer_Input (To e)) (Thread e) (AsSilent e) all_ids) (Some x)] else s = [] | ModeClone => s = [] | ModeInvalid => False end → tried s)
      by (intros s H; split; [by exists n|exact H]).
    destruct (e_Mode e) eqn:Hmode; [|apply wp_clone_mode; [done|right; by apply Htry]|by apply ended_clean].
    destruct (unprotected (Msg e)) eqn:Hfree; [|apply wp_clone_mode; [done|right; by apply Htry]]. unfold forwardClient.
    destruct (AsDryRun e) eqn:Hdry; [by apply ended_dry|].
    intros r. set (c := ForwardMessages _ _ _ _ _). assert (Ha : allowed_in [] c) by (by split_and!).
    assert (Hg : good allowed_in ([] ++ [Ev c r])) by (apply good_snoc; [apply good_nil|done]).
    split; [done|]. destruct r as [err|]; [|split_and!; [done..|by right]].
    apply wp_clone_mode; [by constructor|]. right. apply Htry. by exists err.
  - unfold mediaSizeSum in Hsum. destruct grouped as [|g0 gs] eqn:Hgr.
    + destruct (Forwarder.GetMedia mime_extension (Msg e)) eqn:Hm; [done|]. apply (ended_panic [] (Msg e)); [done|left|done].
    + rewrite <- Hgr in *. apply size_sum_None in Hsum as (m & ? & ?). apply (ended_panic [] m); [done|by right|done].
Qed.
End element.

(** ** The loop

    Reading a log: the album that was asked for, what is marked as sent, the
    element in work with its album, and its calls. *)

Record scan := mkScan { sc_pending : option (list (option message)); sc_handled : gset tuple; sc_cur : option (Elem * list message); sc_since : flog }.
Definition album (e : Elem) (pending : option (list (option message))) : list message :=
  match m_GroupedID (Msg e), pending with
  | Some group, Some items => reverse (omap (of_group group (Msg e)) (take 20 items))
  | _, _ => []
  end.
Definition scan_step (S : scan) (ev : event fcall fans) : scan :=
  match ev with
  | Ev c x =>
      match c as c return fans c → scan with
      | IterNext => λ _, mkScan None (sc_handled S) None []
      | History _ _ => λ x, mkScan (match x with (items, None) => Some items | _ => None end) (sc_handled S) None []
      | OnAdd e => λ _, let g := album e (sc_pending S) in mkScan None (marked e g (sc_handled S)) (Some (e, g)) []
      | c => λ x, mkScan (sc_pending S) (sc_handled S) (sc_cur S) (sc_since S ++ [Ev c x])
      end x
  end.
Definition scanned (t : flog) : scan := foldl scan_step (mkScan None ∅ None []) t.
Lemma scanned_snoc t ev : scanned (t ++ [ev]) = scan_step (scanned t) ev.
Proof. unfold scanned. by rewrite foldl_app. Qed.

Section loop.
Context (mime_extension : string → option string) (Threads : Z).
Abbreviation GetMedia := (Forwarder.GetMedia mime_extension).
Abbreviation inner := (allowed_in mime_extension Threads).

Definition panics (e : Elem) (g : list message) : Prop := ∃ m, m ∈ Msg e :: g ∧ GetMedia m = None.
Definition allowed (t : flog) (c : fcall) : Prop :=
  let S := scanned t in
  match c with
  | IterNext | IterErr | History _ _ => True
  | OnAdd e => tuple_of e (Msg e) ∉ sc_handled S
  | OnDone e err => ∃ g, sc_cur S = Some (e, g) ∧ sum_list_with created_ev (sc_since S) = sum_list_with removed_ev (sc_since S) ∧
      match err with
      | None => AsDryRun e = true ∨ accepted (sc_since S) = 1%nat ∨ panics e g
      | Some _ => accepted (sc_since S) = 0%nat
      end
  | c => ∃ e g, sc_cur S = Some (e, g) ∧ inner e g (sc_since S) c
  end.
Definition failed (ev : event fcall fans) : bool :=
  match ev with
  | Ev c x => match c as c return fans c → bool with
              | OnDone _ (Some _) => λ _, true
              | History _ _ => λ x, match snd x with Some _ => true | None => false end
              | IterErr => λ x, match x with Some _ => true | None => false end
              | _ => λ _, false
              end x
  end.
Definition nexts (t : flog) : nat :=
  length (List.filter (λ ev, match ev with Ev c x => match c as c return fans c → bool with IterNext => λ x, match x with Some _ => true | None => false end | _ => λ _, false end x end) t).
Definition no_failure (t : flog) : Prop := Forall (λ ev, failed ev = false) t.
Abbreviation ok := (good allowed).
Lemma nexts_app t s : nexts (t ++ s) = (nexts t + nexts s)%nat.
Proof. unfold nexts. by rewrite List.filter_app, length_app. Qed.

Lemma inner_scan t h e g s :
  scanned t = mkScan None h (Some (e, g)) [] → good (inner e g) s → scanned (t ++ s) = mkScan None h (Some (e, g)) s ∧ Forall (λ ev, failed ev = false) s ∧ nexts s = 0%nat.
Proof.
  intros Ht. induction s as [|ev s IH] using rev_ind; intros Hg; [by rewrite app_nil_r|].
  assert (Hg' : good (inner e g) s). { intros s1 v s2 ->. apply (Hg s1 v (s2 ++ [ev])). by rewrite <- app_assoc. }
  destruct (IH Hg') as (Hs & Hf & Hn). assert (Ha : inner e g s (ev_call ev)) by (by apply (Hg s ev [])). rewrite app_assoc, scanned_snoc, Hs, nexts_app, Hn.
  destruct ev as [c x]. destruct Ha as (_ & _ & Ha). cbn in Ha. split_and!; [by destruct c|apply Forall_app; split; [done|constructor; [by destruct c|constructor]]|by destruct c].
Qed.
Lemma inner_ok t h e g s : scanned t = mkScan None h (Some (e, g)) [] → ok t → good (inner e g) s → ok (t ++ s).
Proof.
  intros Ht Hok. induction s as [|ev s IH] using rev_ind; intros Hg; [by rewrite app_nil_r|].
  assert (Hg' : good (inner e g) s). { intros s1 v s2 ->. apply (Hg s1 v (s2 ++ [ev])). by rewrite <- app_assoc. }
  rewrite app_assoc. apply good_snoc; [by apply IH|]. destruct (inner_scan t h e g s Ht Hg') as [Hs _].
  assert (Ha : inner e g s (ev_call ev)) by (by apply (Hg s ev [])). unfold allowed. rewrite Hs. destruct ev as [c x]. cbn [ev_call] in *.
  destruct c; try (by exists e, g); by destruct Ha as (_ & _ & []).
Qed.

Lemma wp_forwardMessage e g t :
  ok t → tuple_of e (Msg e) ∉ sc_handled (scanned t) → album e (sc_pending (scanned t)) = g →
  wp ok (forwardMessage mime_extension Threads e g) t
    (λ t' r, ok t' ∧ sc_handled (scanned t') = marked e g (sc_handled (scanned t)) ∧ (∃ x, t' = t ++ x ∧ (nexts x = 0)%nat ∧ (r = Some None → no_failure x)) ∧
      (r = None → sc_cur (scanned t') = Some (e, g) ∧ panics e g)).
Proof.
  intros Hok Hnew Hg. unfold forwardMessage. intros []. set (t1 := t ++ [Ev (ans:=fans) (OnAdd e) tt]).
  assert (Ht1 : ok t1) by (by apply good_snoc). split; [done|].
  assert (Hs1 : scanned t1 = mkScan None (marked e g (sc_handled (scanned t))) (Some (e, g)) []) by (unfold t1; rewrite scanned_snoc; cbn; by rewrite Hg).
  cbn [mbind prog_bind]. apply wp_bind, wp_shift.
  eapply wp_mono; [intros s Hs; exact (inner_ok t1 _ e g s Hs1 Ht1 Hs)| |apply (wp_body mime_extension Threads e g)].
  intros s r (Hgood & Htemp & Hr). destruct (inner_scan t1 _ e g s Hs1 Hgood) as (Hs & Hf & Hn). pose proof (inner_ok t1 _ e g s Hs1 Ht1 Hgood) as Hok1.
  assert (Hfin : ∀ err, (match err with None => AsDryRun e = true ∨ accepted s = 1%nat ∨ panics e g | Some _ => accepted s = 0%nat end) → ok ((t1 ++ s) ++ [Ev (ans:=fans) (OnDone e err) tt])).
  { intros err He. apply good_snoc; [done|]. unfold allowed. rewrite Hs. by exists g. }
  assert (Hx : ∀ err, (t1 ++ s) ++ [Ev (ans:=fans) (OnDone e err) tt] = t ++ ([Ev (ans:=fans) (OnAdd e) tt] ++ s ++ [Ev (ans:=fans) (OnDone e err) tt])) by (intros err; unfold t1; by rewrite <- !app_assoc).
  assert (Hnx : ∀ err, nexts ([Ev (ans:=fans) (OnAdd e) tt] ++ s ++ [Ev (ans:=fans) (OnDone e err) tt]) = 0%nat) by (intros err; rewrite !nexts_app, Hn; done).
  destruct r as [err|]; cbn.
  - intros []. split; [apply Hfin; destruct err; tauto|]. split_and!; [apply Hfin; destruct err; tauto|by rewrite scanned_snoc, Hs| |done].
    eexists. split_and!; [apply Hx|apply Hnx|]. intros [= ->]. apply Forall_app. split; [by constructor|]. apply Forall_app. split; [done|by constructor].
  - intros []. assert (Hp : panics e g) by done. split; [apply Hfin; auto|]. split_and!; [apply Hfin; auto|by rewrite scanned_snoc, Hs| |intros _; by rewrite scanned_snoc, Hs].
    eexists. by split_and!; [apply Hx|apply Hnx|].
Qed.

Lemma join_last failures e : errors_Join (map Some failures ++ [e]) = None → failures = [] ∧ e = None.
Proof. unfold errors_Join. destruct failures; cbn; [by destruct e|done]. Qed.

Lemma wp_loop fuel sent failures t F :
  ok t → sent = sc_handled (scanned t) → (failures = [] → no_failure t) → (F <= fuel + nexts t)%nat →
  wp ok (forward_loop mime_extension Threads fuel sent failures) t
    (λ t' r, (r = Some None → no_failure t') ∧
      (r = None → (F <= nexts t')%nat ∨ ∃ e g, sc_cur (scanned t') = Some (e, g) ∧ panics e g)).
Proof.
  revert sent failures t. induction fuel as [|fuel IH]; intros sent failures t Hok Hsent Hfail HF; [split; [done|]; intros _; left; lia|]. cbn [forward_loop].
  intros next. set (t1 := t ++ _). assert (Hok1 : ok t1) by (by apply good_snoc). split; [done|].
  assert (Hs1 : scanned t1 = mkScan None sent None []) by (unfold t1; rewrite scanned_snoc; cbn; by rewrite Hsent).
  assert (Hf1 : failures = [] → no_failure t1) by (intros H; apply Forall_app; split; [by apply Hfail|by constructor]).
  destruct next as [e|]; cbn.
  2:{ intros err. assert (Hok2 : ok (t1 ++ [Ev (ans:=fans) IterErr err])) by (by apply good_snoc). split; [done|]. split; [|done].
      intros [= [-> ->]%join_last]. apply Forall_app. split; [by apply Hf1|by constructor]. }
  assert (HF1 : (F <= fuel + nexts t1)%nat) by (unfold t1; rewrite nexts_app; cbn; lia).
  destruct (bool_decide (tuple_of e (Msg e) ∈ sent)) eqn:Hb; [apply IH; [done|by rewrite Hs1|done|done]|]. apply bool_decide_eq_false in Hb.
  assert (Hgo : ∀ g t2 stop, ok t2 → sc_handled (scanned t2) = sent → album e (sc_pending (scanned t2)) = g → (failures = [] → no_failure t2) → nexts t2 = nexts t1 →
    (∀ t3 err, wp ok (stop err) t3 (λ t' r, (r = Some None → no_failure t') ∧ (r = None → (F <= nexts t')%nat ∨ ∃ e g, sc_cur (scanned t') = Some (e, g) ∧ panics e g)) ∨ stop err = forward_loop mime_extension Threads fuel (marked e g sent) (failures ++ [err])) →
    wp ok (r ← forwardMessage mime_extension Threads e g;
           match r with None => Ret None | Some (Some x) => stop x | Some None => forward_loop mime_extension Threads fuel (marked e g sent) failures end) t2
      (λ t' r, (r = Some None → no_failure t') ∧ (r = None → (F <= nexts t')%nat ∨ ∃ e g, sc_cur (scanned t') = Some (e, g) ∧ panics e g))).
  { intros g t2 stop Hok2 Hh Ha Hf2 Hn Hstop. apply wp_bind. eapply wp_post; [|apply wp_forwardMessage; [done|by rewrite Hh|exact Ha]].
    intros t3 r (Hok3 & Hh3 & (x & -> & Hnx & Hnf) & Hpan). rewrite Hh in Hh3. assert (HF3 : (F <= fuel + nexts (t2 ++ x))%nat) by (rewrite nexts_app, Hn, Hnx; lia).
    destruct r as [[err|]|].
    - destruct (Hstop (t2 ++ x) err) as [H| ->]; [done|]. apply IH; [done|done| |done]. intros H. by destruct failures.
    - apply IH; [done|done| |done]. intros H. apply Forall_app. split; [by apply Hf2|by apply Hnf].
    - cbn. split; [done|]. intros _. right. destruct (Hpan eq_refl). by exists e, g. }
  destruct (bool_decide (is_Some (m_GroupedID (Msg e))) && AsGrouped e) eqn:Hgrouped.
  - apply andb_prop in Hgrouped as [Hid _]. apply bool_decide_eq_true in Hid as [group Hid]. unfold GetGroupedMessages. rewrite Hid. cbn.
    intros [items err]. set (t2 := t1 ++ _). assert (Hok2 : ok t2) by (by apply good_snoc). split; [done|].
    assert (Hs2 : scanned t2 = mkScan (match err with None => Some items | Some _ => None end) sent None []) by (unfold t2; rewrite scanned_snoc; cbn; rewrite Hs1; by destruct err).
    assert (Hn2 : nexts t2 = nexts t1) by (unfold t2; rewrite nexts_app; cbn; lia).
    destruct err as [err|]; cbn.
    + apply IH; [done|by rewrite Hs2|by destruct failures|by rewrite Hn2].
    + apply (Hgo _ t2 (λ x, forward_loop mime_extension Threads fuel (marked e (reverse (omap (of_group group (Msg e)) (take 20 items))) sent) (failures ++ [x]))); [done|by rewrite Hs2|rewrite Hs2; unfold album; by rewrite Hid| |done|by right].
      intros H. apply Forall_app. split; [by apply Hf1|by constructor].
  - apply (Hgo [] t1 (λ x, if errors_Is x "context canceled" then Ret (Some (Some x)) else forward_loop mime_extension Threads fuel (marked e [] sent) (failures ++ [x]))); [done|by rewrite Hs1|rewrite Hs1; unfold album; by destruct (m_GroupedID _)|done|done|].
    intros t3 err. destruct (errors_Is err "context canceled"); [left; by split|by right].
Qed.
End loop.

(** A document whose thumbnails are all of other kinds than [PhotoSize] has,
    for the code, a thumbnail: its location is that of the document itself. *)
Theorem thumb_is_document mime_extension d thumbs :
  d_Thumbs d = Some thumbs → (∀ t n, PhotoSize t n ∉ thumbs) →
  ∃ thumb whole, GetDocumentThumb d = Some thumb ∧ GetDocumentInfo mime_extension (Some d) = Some whole ∧
    InputFileLoc thumb = InputFileLoc whole ∧ Size thumb = 0.
Proof.
  intros Hd Hn. assert (first_size thumbs = ("", 0)) as He.
  { clear Hd. induction thumbs as [|[t n|t l|] thumbs IH]; cbn; [done|destruct (Hn t n); left|apply IH; set_solver..]. }
  unfold GetDocumentThumb, GetDocumentInfo. rewrite Hd. cbn. rewrite He. eexists _, _. split_and!; reflexivity.
Qed.

(** C10: Forwarding, whatever the elements, Telegram, the pool and the file
    system answer. At every point: an element is taken up only if neither its
    message nor an album it came with was taken up before; for the element in
    work at most one message is accepted by Telegram, nothing is sent after
    that, and in a dry run nothing is called at all. Telegram is told to
    forward only first, in direct mode and when neither the chat nor the
    message is protected, and then the whole album or the message. What is sent
    otherwise, once that was refused or was not allowed, is made of exactly the
    element: the message's text, entities and markup with its own medium, or
    the messages of the album in their order, each with its own text and
    medium, without those whose medium could not be converted; and the text
    alone only when none could. A medium is a reference where that is allowed
    or where it is no photo or document; else it is what Telegram answered to
    the upload of the very file of that message, downloaded from its location,
    uploaded under its name and size, and described by its kind, attributes and
    thumbnail, through one temporary file at a time. When an element is done no
    temporary file is left, and no error means that exactly one message was
    accepted (or a dry run, or a photo without sizes, which panics), an error
    that none was. When Forward returns no error nothing failed, and it ends
    unless there are more elements than fuel. *)
Theorem forward_exact mime_extension Threads fuel t q :
  reaches (Forward mime_extension Threads fuel) t q →
  (∀ t1 ev t2, t = t1 ++ ev :: t2 → allowed mime_extension Threads t1 (ev_call ev)) ∧
  (q = Ret (Some None) → no_failure t) ∧
  (q = Ret None → (fuel <= nexts t)%nat ∨ ∃ e g, sc_cur (scanned t) = Some (e, g) ∧ panics mime_extension e g).
Proof.
  intros Hq. assert (H0 : good (allowed mime_extension Threads) []) by apply good_nil.
  assert (Hw : wp (good (allowed mime_extension Threads)) (Forward mime_extension Threads fuel) []
    (λ t' r, (r = Some None → no_failure t') ∧ (r = None → (fuel <= nexts t')%nat ∨ ∃ e g, sc_cur (scanned t') = Some (e, g) ∧ panics mime_extension e g))).
  { apply wp_loop; [done|done|by constructor|lia]. }
  destruct (wp_run_reaches _ _ _ _ _ H0 Hw Hq) as [Hg Hr]. split_and!; [exact Hg|intros ->; by apply (Hr _ eq_refl)|intros ->; by apply (Hr _ eq_refl)].
Qed.

(** An album of a photo and a text from a protected chat, then its second
    message again. *)
Definition demo_message (id : Z) (text : string) (media : option message_media) : message := mkMessage id (Some 7) false text 0 0 media.
Definition demo_photo : message_media := MediaPhoto false (Some (mkPhoto 5 50 [PhotoSize "m" 10; PhotoSize "x" 2000] 2 0)) 0.
Definition demo_1 : message := demo_message 1 "one" (Some demo_photo).
Definition demo_2 : message := demo_message 2 "two" (Some demo_photo).
Definition demo_elem (m : message) : Elem := mkElem ModeDirect (mkPeer 9 90 (Some true)) m (mkPeer 8 80 None) 0 false false true.
Definition demo_handler (c : fcall) (n : nat) : fans c * nat :=
  (match c as c return fans c with
   | IterNext => if (n =? 0)%nat then Some (demo_elem demo_1) else if (n <? 20)%nat then Some (demo_elem demo_2) else None
   | History _ _ => ([Some demo_2; None; Some demo_1], None)
   | OnAdd _ | OnDone _ _ => tt
   | UploadMedia _ _ => Ok demo_photo
   | Upload _ _ _ => Ok 77
   | _ => None
   end, S n).
Definition demo_forward : prog fcall fans (option (option goerr)) := Forward (λ _, None) 4 5.
Definition demo_log : flog := (run demo_handler demo_forward 0%nat []).2.
Lemma forward_demo_result : (run demo_handler demo_forward 0%nat []).1.1 = Some None.
Proof. vm_compute. reflexivity. Qed.
Definition demo_copy (text : string) : single := mkSingle (InputPhoto false 5 50 0) text 0.
Lemma forward_demo_split :
  demo_log = take 17 demo_log ++ Ev (ans:=fans) (SendMultiMedia 80 0 false [demo_copy "one"; demo_copy "two"]) None :: drop 18 demo_log.
Proof. vm_compute. reflexivity. Qed.
Lemma forward_demo_scan : sc_cur (scanned (take 17 demo_log)) = Some (demo_elem demo_1, [demo_1; demo_2]).
Proof. vm_compute. reflexivity. Qed.
#[local] Opaque demo_forward demo_log.
Lemma forward_demo_reaches : reaches demo_forward (run demo_handler demo_forward 0%nat []).2 (Ret (Some None)).
Proof.
  pose proof (run_reaches demo_handler demo_forward 0%nat []) as H. rewrite <- forward_demo_result.
  destruct (run demo_handler demo_forward 0%nat []) as [[r n] l]. by destruct H as (l1 & -> & H).
Qed.

Lemma forward_exact_witness :
  no_failure demo_log ∧
  after_try (λ _, None) (demo_elem demo_1) [demo_1; demo_2]
    (λ s, copying (λ _, None) 4 (demo_elem demo_1) [demo_1; demo_2] s [demo_copy "one"; demo_copy "two"])
    (sc_since (scanned (take 17 demo_log))).
Proof.
  destruct (forward_exact (λ _, None) 4 5 demo_log (Ret (Some None)) forward_demo_reaches) as (Hg & Hn & _). split; [by apply Hn|].
  destruct (Hg _ _ _ forward_demo_split) as (e & g & Hc & _ & _ & _ & _ & _ & _ & _ & Hp). rewrite forward_demo_scan in Hc. injection Hc as <- <-. exact Hp.
Defined.
